(* ===== verification/_CoqProject ===== *)
-Q . S2P
Prelude.v
Str.v
Hex.v
Sha2.v
Md.v
Keccak.v
Aes.v
Gcm.v
ChaCha.v
Ntt.v
MlKem.v
Kem203.v
MlDsa.v
DsaPack.v
DsaSign.v
DsaVerify.v
Seccomp.v
Caps.v
Event.v
PqSig.v
Attenuate.v
Landlock.v
Sandbox.v
Intern.v
Verdict.v
Text.v
Lists.v
Mailbox.v
Channel.v
Actor.v
ActorRefine.v
Rpc.v
Closure.v
Arena.v
Thread.v
Weak.v
RawMem.v
Blackbox.v
