(* ===== verification/Prelude.v ===== *)
(** * oodar, verified: a Rocq model of the runtime's security core

    oodar is the C host runtime of openOODA: a library of [oo_*] functions in
    which every effect asks for a capability token first.  This development
    models the part of it that decides who may do what, and the primitives
    those decisions rest on.  Every definition is a translation of the C
    function of the same name; the theorems are about those definitions.

    ** Parts and how they interact

    - [Prelude] (this file): machine integers, arrays, bytes, bits, loops, the
      outcomes of a C call ([run]) and the state monad ([ST]) the stateful
      parts are written in; [Str]: [OoStr] and [OoResS] ([types/]).
    - Primitives.  [Hex] (the hex operands shared by the crypto entry points);
      [Sha2] ([sec/crypto/symmetric/]: SHA-256, SHA-512, HMAC, constant-time
      comparison, signatures of capabilities); [Md] (MD5, SHA-1 of
      [sec/crypto/hash.c]); [Keccak] ([sha3.c]); [Aes], [Gcm]
      ([hash.c], [aead/aes_gcm.c], [seal.c]); [ChaCha]
      ([aead/chacha20_poly1305.c]); [Ntt], [MlKem] ([sec/pqc/mlkem/],
      against the FIPS 203 of [Kem203]);
      [MlDsa] (arithmetic), [DsaPack] (sampling and encoding), [DsaSign] (the
      scheme) and [DsaVerify] (what its signatures are) for
      [sec/pqc/mldsa/].  The two schemes share the transform of [Ntt]; ML-DSA
      is written against the class [Keccak.Shake] of extendable-output
      functions, of which [sha3.c] is an instance.  [PqSig]
      ([sec/pqc/pq_sig/]) makes its seals of ML-DSA, AES-GCM, the event bus
      and the kernel's entropy; [Verdict] is what its wiping does to [Intern].
    - Capabilities.  [Caps] ([sec/cap/]: the four token stores, the grants,
      the 22 gates, the rights table); [Attenuate] (rights sealed by HMAC and
      read capabilities for a path prefix: uses [Caps], [Sha2] and [Event]);
      [Event] ([core/event/]: the bus and the counters, whose listeners come
      back through the MetricsCap gate of [Caps]).
    - Confinement.  [Seccomp] ([sec/cap/cap.c] and the filter of
      [sandbox_config.c]: BPF programs and the machine that runs them);
      [Landlock] ([sec/landlock/landlock/]: path lists and rulesets);
      [Sandbox] ([sec/landlock/sandbox/], [fs/os/rlimit.c], [proc_mem.c]):
      composes [Caps], [Seccomp] and [Landlock].
    - Data of the runtime.  [Intern] ([core/str/str_intern.c],
      [str_from_int.c]: the per-thread slab, the shared chains and the built
      integers); [Text] ([str.c], [str_ops.c], [str_tok.c] on string values:
      what [Intern] returns is the value [Text] writes [str_of]); [Lists]
      ([core/list/]: one class of families whose instances are the integer,
      float, string and nested lists, over a store of counted payloads, with
      the string headers as the world of the string lists); [Arena]
      ([core/mem/arena.c], [arena_checkpoint.c] and the layouts: uses the
      gates of [Caps]; whether an arena has room for a list is an argument of
      [Lists]); [RawMem] ([core/mem/alloc.c]: the gated blocks, over the same
      gates and the quota of [core/list/list.c]); [Weak] ([core/mem/weak.c]:
      strong and weak handles on a control block).
    - Concurrency.  [Mailbox] (the ring of messages and the counting of the
      strings in it, over the headers of [Lists]); [Channel]
      ([app/actor/actor_channel.c]) and [Actor] ([app/actor/actor.c]: calls
      and workers as a step relation), with the proofs for [Actor] in
      [ActorRefine]; [Thread] ([actor_thread.c]: slots with a worker each, and
      the arena of [Arena] a worker takes); [Rpc] ([actor_rpc.c]: payloads
      behind an HMAC of [Sha2]); all are behind the gates of [Caps].
      [Closure] ([actor_closure.c]: counted environments).
    - [Blackbox] ([core/blackbox/]): the ring of events, the emit helpers and
      the two reports.

    ** How the C is represented

    - Integers are [Z] with every conversion written out ([u8] ... [i64]);
      arrays are lists, [a.[i]] and [a.[i <- v]]; a [for] loop is [for_] with
      its invariant rule [for_ind]; a [while] loop has fuel above the number
      of its iterations, and a lemma that the fuel is enough
      ([Landlock.walk_dirs_each], [Intern.probe_total], [Lists.grow_spec],
      [Arena.pop_dead_spec], the walks of [Text]; the sampling loops of
      [MlKem] bound theirs by the buffer they read).
    - A call that may end the process or read an uninitialised pointer returns
      in [run]: [Ret], [Exited] with the status, [Undefined].
    - Globals are a record per component ([Caps.cstate], [Event.estate],
      [Seccomp.capf], [Landlock.llstate], [Sandbox.sstate], [Intern.Istate],
      [Lists.Lstate], [Arena.astate], [Channel.chstate], [Actor.astate],
      [Thread.thstate], [Closure.clstate]); a component that calls another holds its state as a field and lifts the call ([lift]).
      [pthread_once] is a flag or an [option]; mutexes disappear, because what
      is done under one is one step.  In [Actor] and [Thread] the steps of the
      workers and of the calls interleave; a call that joins a worker is two
      steps in [Actor], where other calls go on meanwhile, and one in [Thread],
      where it holds the lock of the table.
      Two parts of the code do without locks: [Intern] has the steps of other threads between its walk without
      the lock and the one under it, and in [Weak] an operation is a program
      of single accesses ([Weak.prog]) and the threads interleave them in any
      order ([Weak.exec]), sequentially consistent; there a retry loop has no
      fuel, it is a step back to its start.
    - Output into a buffer is a position, a limit and the cells written
      ([Blackbox.emitter]); [Blackbox.Renders] says which text an emitter
      writes, and that it stays inside the limit without room for it.
    - Memory that handles share is a store with addresses ([Intern.Pool],
      [Lists.Lstate], [Actor.astate]): aliasing and a use after free are visible.
    - What is not code of the repository is a parameter: [Caps.Entropy]
      ([getentropy] and [atexit]), the kernel's answers ([Seccomp.install_env],
      [Landlock.ll_kernel], [Sandbox.kernel]), the platform's call numbers
      ([Seccomp.abi]), an application's event callbacks, the capability gate
      of the AEADs ([Gcm.SignGate]), the success of [pthread_create] in [Actor]
      and [Thread], of [pthread_join] and [mmap] in [Thread], and the places
      [malloc] gives in [Actor] and [Closure].  Allocation always succeeds.

    ** What the theorems show

    - Primitives compute their standards: SHA-256, HMAC, SHA-3, AES-128,
      GHASH, Poly1305 are their FIPS or RFC definitions (modules [Fips],
      [Rfc2104], [Fips202], [Fips197], [Gf128], [Rfc8439]); sealed data opens
      to itself and nothing with another tag opens.
    - ML-KEM: the transform multiplies in its ring without 16-bit overflow,
      compression is rounding, decoding inverts encoding; key generation,
      encapsulation and decapsulation are the algorithms of FIPS 203, which
      [Kem203.Alg] states over the integers modulo [q] without the code's
      reductions, words or definitions; a hash is there the sponge of
      [Fips202].
    - ML-DSA: the transform multiplies in its ring within 32 bits, signatures
      round-trip through their encoding, a key pair satisfies its equation at
      every root, and what signing returns verifies under the [UseHint] of
      FIPS 204; the code's own [d_use_hint] reads the sign of the low part
      the wrong way round, so on a hinted signature its verification compares the digests of two
      different inputs, which the theorem names
      ([hinted_signature_rejected], [use_hint_is_inverted]).
    - Seals: what is sealed opens to itself, or is refused by that defect, and
      what opens was signed and sealed under the keys given.
    - Capabilities: a gate opens for its own token or the one that subsumes
      it and for nothing else; tokens never change and stay good; before the
      grant and after exit nothing opens.  Attenuated rights are a subset; a
      path capability opens exactly the paths below its prefix, and
      re-attenuation never widens it.
    - Confinement: the BPF program is the policy of its mask; a sandbox that
      reports success holds a filter and a ruleset that denies everything
      outside the lists; failures change nothing.
    - Bus and counters: bounded tables that refine maps (the largest count
      cannot be incremented), an export that fits its buffer.
    - Data: interning is canonical while only interning writes its bytes,
      and its probe ends; text operations are by
      characters on well-formed UTF-8, splitting and joining are inverse;
      integer lists outside an arena refine immutable sequences and leak
      neither memory nor quota; the payload blocks of an arena are a stack, and a rollback
      restores a checkpoint.
    - Memory: raw blocks are a map from pointers to bytes with its charge, and
      an access anywhere else ends the process; under every interleaving a
      held handle keeps its block, the counts are exact and every operation
      run alone ends.
    - Concurrency: channels and actors are bounded queues, their messages are
      counted exactly and never used after they are freed, and a call that
      waits for a worker gets it; threads are a table of slots, and each one
      that begins keeps an arena for good; a sealed message is received
      exactly when its HMAC is the one of its payload; closures are counted.
    - Reports: never cut short by their buffer, well-formed JSON, and the ring
      they print is the end of the history.
    Some theorems state what the code does where a comment says otherwise, or
    where it does not do what it means to ([attenuate_seal_is_ambiguous],
    [capf_unnamed_calls_pass], [sandbox_matrix_enforces] on the update
    command, [char_at_truncated], [arena_lists_uncounted],
    [epoch_race], [saturated_retain_uncounted], [verdict_wipe_breaks_sharing],
    [supervised_once], [threads_refine_slots] on the arenas,
    [closure_counts] without a destructor, [saturated_release],
    [arena_alloc_exact] past the end, [oo_open_authentic] without the
    capability, [metrics_refine_map] at the largest count,
    [mlkem768_is_fips203] where a matrix entry needs more than 840 bytes).

    ** Not modelled

    What the destructors of closures do.  Aligned payloads and the pinning of arenas ([align.c], [arena_pin.c]) are the system
    allocator and thread affinity.  Files, network, processes, foreign
    functions, GPU, audio and the terminal are system calls behind the gates of
    [Caps] and stay out, as do the sandboxes of other platforms.  Wiping private
    memory has no observable value here; wiping a shared string has
    ([Verdict]).

    ** This file *)
From stdpp Require Export base list numbers option.
From Stdlib Require Export ZArith Lia Bool ZifyBool ZifyNat.

#[global] Set Default Goal Selector "!".
#[global] Open Scope Z_scope.

(** [lia] eliminates [/] and [mod] by constants. *)
Ltac Zify.zify_post_hook ::= ZifyBool.elim_bool_cstr; Z.to_euclidean_division_equations.

Declare Scope oo_scope.
Delimit Scope oo_scope with oo.

(** * Machine integers

    A C integer of width [w] is a [Z]; conversions wrap it as the C
    conversion does.  The unsigned conversions are written with [Z.land],
    which computes fast; [u8_mod] and its siblings give the arithmetic form. *)

Definition u8 (x : Z) : Z := Z.land x 0xff.
Definition u16 (x : Z) : Z := Z.land x 0xffff.
Definition u32 (x : Z) : Z := Z.land x 0xffffffff.
Definition u64 (x : Z) : Z := Z.land x 0xffffffffffffffff.

Definition i16 (x : Z) : Z := let y := u16 x in if y <? 0x8000 then y else y - 0x10000.
Definition i32 (x : Z) : Z := let y := u32 x in if y <? 0x80000000 then y else y - 0x100000000.
Definition i64 (x : Z) : Z :=
  let y := u64 x in if y <? 0x8000000000000000 then y else y - 0x10000000000000000.

Definition LLONG_MAX : Z := 0x7fffffffffffffff.
Definition LLONG_MIN : Z := - 0x8000000000000000.

Lemma land_mod (x k : Z) : 0 <= k -> Z.land x (2 ^ k - 1) = x mod 2 ^ k.
Proof.
  intros Hk. replace (2 ^ k - 1) with (Z.ones k) by (rewrite Z.ones_equiv; lia).
  by apply Z.land_ones.
Qed.

Lemma u8_mod (x : Z) : u8 x = x mod 256.
Proof. exact (land_mod x 8 ltac:(lia)). Qed.
Lemma u16_mod (x : Z) : u16 x = x mod 65536.
Proof. exact (land_mod x 16 ltac:(lia)). Qed.
Lemma u32_mod (x : Z) : u32 x = x mod 4294967296.
Proof. exact (land_mod x 32 ltac:(lia)). Qed.
Lemma u64_mod (x : Z) : u64 x = x mod 18446744073709551616.
Proof. exact (land_mod x 64 ltac:(lia)). Qed.

Lemma u8_range (x : Z) : 0 <= u8 x < 256.
Proof. rewrite u8_mod. lia. Qed.
Lemma u16_range (x : Z) : 0 <= u16 x < 65536.
Proof. rewrite u16_mod. lia. Qed.
Lemma u32_range (x : Z) : 0 <= u32 x < 4294967296.
Proof. rewrite u32_mod. lia. Qed.
Lemma u64_range (x : Z) : 0 <= u64 x < 18446744073709551616.
Proof. rewrite u64_mod. lia. Qed.

Lemma u8_id (x : Z) : 0 <= x < 256 -> u8 x = x.
Proof. intros. rewrite u8_mod. lia. Qed.
Lemma u16_id (x : Z) : 0 <= x < 65536 -> u16 x = x.
Proof. intros. rewrite u16_mod. lia. Qed.
Lemma u32_id (x : Z) : 0 <= x < 4294967296 -> u32 x = x.
Proof. intros. rewrite u32_mod. lia. Qed.
Lemma u64_id (x : Z) : 0 <= x < 18446744073709551616 -> u64 x = x.
Proof. intros. rewrite u64_mod. lia. Qed.

Lemma i16_id (x : Z) : -32768 <= x < 32768 -> i16 x = x.
Proof. intros. unfold i16. rewrite u16_mod. case (Z.ltb_spec (x mod 65536) 0x8000); lia. Qed.
Lemma i32_id (x : Z) : -2147483648 <= x < 2147483648 -> i32 x = x.
Proof. intros. unfold i32. rewrite u32_mod. case (Z.ltb_spec (x mod 4294967296) 0x80000000); lia. Qed.
Lemma i64_id (x : Z) : -9223372036854775808 <= x < 9223372036854775808 -> i64 x = x.
Proof.
  intros. unfold i64. rewrite u64_mod.
  case (Z.ltb_spec (x mod 18446744073709551616) 0x8000000000000000); lia.
Qed.

(** The signed conversions pick the representative of the class modulo
    [2^w] in the signed range. *)
Lemma i16_eqm (x : Z) : exists k, i16 x = x + k * 65536 /\ -32768 <= i16 x < 32768.
Proof.
  unfold i16. rewrite u16_mod.
  case (Z.ltb_spec (x mod 65536) 0x8000); intros H;
    [exists (- (x / 65536)) | exists (- (x / 65536) - 1)]; lia.
Qed.
Lemma i32_eqm (x : Z) : exists k, i32 x = x + k * 4294967296 /\ -2147483648 <= i32 x < 2147483648.
Proof.
  unfold i32. rewrite u32_mod.
  case (Z.ltb_spec (x mod 4294967296) 0x80000000); intros H;
    [exists (- (x / 4294967296)) | exists (- (x / 4294967296) - 1)]; lia.
Qed.
Lemma i64_range (x : Z) : -9223372036854775808 <= i64 x < 9223372036854775808.
Proof.
  unfold i64. rewrite u64_mod.
  case (Z.ltb_spec (x mod 18446744073709551616) 0x8000000000000000); lia.
Qed.

(** * Loops

    [for_ lo hi body] is the C loop [for (i = lo; i < hi; i++) body]. *)

Definition for_ {S : Type} (lo hi : nat) (body : nat -> S -> S) (s : S) : S :=
  foldl (fun s i => body i s) s (seq lo (hi - lo)).

Lemma for_empty {S} lo hi (body : nat -> S -> S) s : (hi <= lo)%nat -> for_ lo hi body s = s.
Proof. intros H. unfold for_. by replace (hi - lo)%nat with 0%nat by lia. Qed.

Lemma for_step {S} lo hi (body : nat -> S -> S) s :
  (lo < hi)%nat -> for_ lo hi body s = for_ (Datatypes.S lo) hi body (body lo s).
Proof.
  intros H. unfold for_. replace (hi - lo)%nat with (Datatypes.S (hi - Datatypes.S lo)) by lia.
  done.
Qed.

Lemma for_last {S} lo hi (body : nat -> S -> S) s :
  (lo <= hi)%nat -> for_ lo (Datatypes.S hi) body s = body hi (for_ lo hi body s).
Proof.
  intros H. unfold for_. replace (Datatypes.S hi - lo)%nat with (Datatypes.S (hi - lo)) by lia.
  rewrite seq_S, foldl_app. cbn. by replace (lo + (hi - lo))%nat with hi by lia.
Qed.

(** The invariant rule of the loop. *)
Lemma for_ind {S} (P : nat -> S -> Prop) lo hi (body : nat -> S -> S) s :
  (lo <= hi)%nat -> P lo s ->
  (forall i s, (lo <= i < hi)%nat -> P i s -> P (Datatypes.S i) (body i s)) ->
  P hi (for_ lo hi body s).
Proof.
  intros Hle H0 Hstep. revert Hstep. induction Hle as [|hi Hle IH]; intros Hstep.
  - by rewrite for_empty.
  - rewrite for_last by lia. apply Hstep; [lia|]. apply IH. intros. apply Hstep; [lia|done].
Qed.

Lemma for_ext {S} lo hi (f g : nat -> S -> S) s :
  (forall i s, (lo <= i < hi)%nat -> f i s = g i s) -> for_ lo hi f s = for_ lo hi g s.
Proof.
  intros H. destruct (Nat.le_gt_cases lo hi) as [Hle|Hgt].
  - induction Hle as [|hi Hle IH]; [by rewrite !for_empty|].
    rewrite !for_last, IH by (intros; auto with lia; apply H; lia). apply H; lia.
  - by rewrite !for_empty by lia.
Qed.

(** Two loops in lockstep keep a relation between their states. *)
Lemma for_rel {S T} (R : S -> T -> Prop) lo hi (f : nat -> S -> S) (g : nat -> T -> T) s t :
  R s t -> (forall i s t, (lo <= i < hi)%nat -> R s t -> R (f i s) (g i t)) ->
  R (for_ lo hi f s) (for_ lo hi g t).
Proof.
  intros HR Hstep. destruct (Nat.le_gt_cases lo hi) as [Hle|Hgt].
  - induction Hle as [|hi Hle IH]; [by rewrite !for_empty|].
    rewrite !for_last by lia. apply Hstep; [lia|]. apply IH. intros. apply Hstep; [lia|done].
  - by rewrite !for_empty by lia.
Qed.

(** * Arrays

    A C array is a list of integers.  [a.[i]] is a read and [a.[i <- v]] a
    write; the models only use them at indices the code keeps in range, and
    the range lemmas of each component show that they are.  [tab n f] is the
    array a loop [for (i = 0; i < n; i++) r[i] = f(i)] leaves. *)

Definition get (a : list Z) (i : nat) : Z := nth i a 0.
Definition upd (a : list Z) (i : nat) (v : Z) : list Z := <[i := v]> a.
Definition tab {A : Type} (n : nat) (f : nat -> A) : list A := map f (seq 0 n).
Definition slice {A : Type} (off n : nat) (l : list A) : list A := take n (drop off l).
Definition zeros (n : nat) : list Z := repeat 0 n.

#[global] Arguments get : simpl never.
#[global] Arguments upd : simpl never.

Notation "a .[ i ]" := (get a i) (at level 1, left associativity, format "a .[ i ]") : oo_scope.
Notation "a .[ i <- v ]" := (upd a i v) (at level 1, left associativity, format "a .[ i  <-  v ]") : oo_scope.
#[global] Open Scope oo_scope.

Lemma length_tab {A} n (f : nat -> A) : length (tab n f) = n.
Proof. unfold tab. by rewrite length_map, length_seq. Qed.

Lemma length_upd a i v : length (upd a i v) = length a.
Proof. apply length_insert. Qed.

Lemma length_zeros n : length (zeros n) = n.
Proof. apply repeat_length. Qed.

Lemma length_slice {A} off n (l : list A) :
  (off + n <= length l)%nat -> length (slice off n l) = n.
Proof. intros. unfold slice. rewrite length_take, length_drop. lia. Qed.

Lemma get_tab n f i : (i < n)%nat -> (tab n f).[i] = f i.
Proof.
  intros H. unfold get, tab. rewrite nth_indep with (d' := f 0%nat) by (by rewrite length_map, length_seq).
  rewrite map_nth, seq_nth by done. done.
Qed.

Lemma get_upd_eq a i v : (i < length a)%nat -> a.[i <- v].[i] = v.
Proof. intros H. unfold get, upd. by rewrite nth_lookup, list_lookup_insert_eq. Qed.

Lemma get_upd_ne a i j v : i <> j -> a.[i <- v].[j] = a.[j].
Proof. intros H. unfold get, upd. by rewrite !nth_lookup, list_lookup_insert_ne. Qed.

Lemma get_zeros n i : (zeros n).[i] = 0.
Proof. unfold get, zeros. apply nth_repeat. Qed.

Lemma get_overflow a i : (length a <= i)%nat -> a.[i] = 0.
Proof. intros H. unfold get. by apply nth_overflow. Qed.

Lemma get_slice off n l i : (i < n)%nat -> (slice off n l).[i] = l.[off + i].
Proof.
  intros H. unfold get, slice. rewrite !nth_lookup, lookup_take, lookup_drop.
  case_decide; [done|lia].
Qed.

Lemma get_app_l a b i : (i < length a)%nat -> (a ++ b).[i] = a.[i].
Proof. intros H. unfold get. by rewrite app_nth1. Qed.
Lemma get_app_r a b i : (length a <= i)%nat -> (a ++ b).[i] = b.[i - length a].
Proof. intros H. unfold get. by rewrite app_nth2. Qed.

(** Extensionality of arrays. *)
Lemma array_ext (a b : list Z) :
  length a = length b -> (forall i, (i < length a)%nat -> a.[i] = b.[i]) -> a = b.
Proof. intros Hl Hi. apply nth_ext with 0 0; [done|]. intros n Hn. by apply Hi. Qed.

Lemma tab_ext {A} n (f g : nat -> A) : (forall i, (i < n)%nat -> f i = g i) -> tab n f = tab n g.
Proof. intros H. unfold tab. apply map_ext_in. intros i Hi%in_seq. apply H. lia. Qed.

Lemma map_tab {A B} (f : A -> B) n g : map f (tab n g) = tab n (fun i => f (g i)).
Proof. unfold tab. by rewrite map_map. Qed.
Lemma nth_tab {A} (d : A) n f i : (i < n)%nat -> nth i (tab n f) d = f i.
Proof.
  intros Hi. unfold tab. rewrite (nth_indep _ d (f 0%nat)) by (by rewrite length_map, length_seq). by rewrite map_nth, seq_nth.
Qed.

Lemma tab_get a n : length a = n -> tab n (get a) = a.
Proof.
  intros H. apply array_ext; rewrite length_tab; [done|]. intros i Hi. by rewrite get_tab.
Qed.

Lemma take_app_length' {A} (a b : list A) n : length a = n -> take n (a ++ b) = a.
Proof. intros <-. apply take_app_length. Qed.
Lemma drop_app_length' {A} (a b : list A) n : length a = n -> drop n (a ++ b) = b.
Proof. intros <-. apply drop_app_length. Qed.

Lemma slice_app_exact {A} (a b c : list A) off n :
  length a = off -> length b = n -> slice off n (a ++ b ++ c) = b.
Proof. intros Ha Hb. unfold slice. by rewrite drop_app_length', take_app_length'. Qed.

(** * Bytes *)

Definition isbyte (b : Z) : Prop := 0 <= b < 256.
Definition bytes (l : list Z) : Prop := Forall isbyte l.

Lemma isbyte_u8 x : isbyte (u8 x).
Proof. apply u8_range. Qed.

Lemma bytes_tab n f : (forall i, (i < n)%nat -> isbyte (f i)) -> bytes (tab n f).
Proof.
  intros H. unfold bytes, tab. rewrite Forall_map. apply Forall_forall.
  intros i Hi%in_seq. apply H. lia.
Qed.

Lemma bytes_get l i : bytes l -> isbyte l.[i].
Proof.
  intros H. destruct (Nat.lt_ge_cases i (length l)) as [Hi|Hi].
  - unfold get. rewrite nth_lookup. destruct (lookup_lt_is_Some_2 l i Hi) as [x Hx].
    rewrite Hx. cbn. by eapply Forall_lookup_1 in H.
  - rewrite get_overflow by done. unfold isbyte. lia.
Qed.

Lemma bytes_app a b : bytes (a ++ b) <-> bytes a /\ bytes b.
Proof. apply Forall_app. Qed.
Lemma bytes_take n l : bytes l -> bytes (take n l).
Proof. apply Forall_take. Qed.
Lemma bytes_drop n l : bytes l -> bytes (drop n l).
Proof. apply Forall_drop. Qed.
Lemma bytes_slice off n l : bytes l -> bytes (slice off n l).
Proof. intros. by apply bytes_take, bytes_drop. Qed.
Lemma bytes_zeros n : bytes (zeros n).
Proof. unfold bytes, zeros. apply Forall_forall. intros x Hx%repeat_spec. unfold isbyte. lia. Qed.
Lemma bytes_nil : bytes [].
Proof. constructor. Qed.

Definition bytesb (l : list Z) : bool := forallb (fun b => (0 <=? b) && (b <? 256)) l.
Lemma bytesb_ok l : bytesb l = true -> bytes l.
Proof.
  unfold bytesb, bytes. rewrite forallb_forall, Forall_forall. intros H x Hx.
  apply H in Hx. unfold isbyte. lia.
Qed.

Create HintDb oo_bytes.
#[export] Hint Resolve isbyte_u8 bytes_tab bytes_get bytes_take bytes_drop bytes_slice bytes_zeros
  bytes_nil : oo_bytes.

(** * Bits

    On disjoint operands [|] is [+]; with the shifts as multiplication and
    division and the masks as remainders, packing goals become linear. *)

Lemma testbit_above (a k i : Z) : 0 <= a < 2 ^ k -> k <= i -> Z.testbit a i = false.
Proof.
  intros Ha Hi. destruct (Z.eq_dec a 0) as [->|Hz]; [apply Z.bits_0|].
  apply Z.bits_above_log2; [lia|].
  assert (Z.log2 a < k) by (apply Z.log2_lt_pow2; lia). lia.
Qed.

Lemma lor_disjoint (a b : Z) : Z.land a b = 0 -> Z.lor a b = a + b.
Proof. intros H. rewrite <- Z.lxor_lor by done. symmetry. by apply Z.add_nocarry_lxor. Qed.

Lemma land_low_shift (a b k : Z) : 0 <= k -> 0 <= a < 2 ^ k -> Z.land a (b * 2 ^ k) = 0.
Proof.
  intros Hk Ha. apply Z.bits_inj'. intros n Hn. rewrite Z.land_spec, Z.bits_0.
  destruct (Z.lt_ge_cases n k).
  - rewrite Z.mul_pow2_bits_low by lia. apply andb_false_r.
  - by rewrite (testbit_above a k).
Qed.

Lemma lor_add (a b k : Z) : 0 <= k -> 0 <= a < 2 ^ k -> Z.lor a (b * 2 ^ k) = a + b * 2 ^ k.
Proof. intros. apply lor_disjoint. by apply land_low_shift. Qed.

Lemma lor_shiftl (a b k : Z) : 0 <= k -> 0 <= a < 2 ^ k -> Z.lor a (Z.shiftl b k) = a + b * 2 ^ k.
Proof. intros. rewrite Z.shiftl_mul_pow2 by done. by apply lor_add. Qed.

Lemma lor_range (a b k : Z) : 0 <= k -> 0 <= a < 2 ^ k -> 0 <= b < 2 ^ k -> 0 <= Z.lor a b < 2 ^ k.
Proof.
  intros Hk Ha Hb. split; [rewrite Z.lor_nonneg; lia|].
  assert (Z.lor a b = Z.lor a b mod 2 ^ k) as ->; [|apply Z.mod_pos_bound; lia].
  rewrite <- Z.land_ones by done. apply Z.bits_inj'. intros n Hn.
  rewrite Z.land_spec, Z.testbit_ones_nonneg by lia.
  destruct (Z.ltb_spec n k); [by rewrite andb_true_r|].
  by rewrite Z.lor_spec, (testbit_above a k), (testbit_above b k).
Qed.

Lemma lxor_range (a b k : Z) : 0 <= k -> 0 <= a < 2 ^ k -> 0 <= b < 2 ^ k -> 0 <= Z.lxor a b < 2 ^ k.
Proof.
  intros Hk Ha Hb. split; [rewrite Z.lxor_nonneg; lia|].
  assert (Z.lxor a b = Z.lxor a b mod 2 ^ k) as ->; [|apply Z.mod_pos_bound; lia].
  rewrite <- Z.land_ones by done. apply Z.bits_inj'. intros n Hn.
  rewrite Z.land_spec, Z.testbit_ones_nonneg by lia.
  destruct (Z.ltb_spec n k); [by rewrite andb_true_r|].
  by rewrite Z.lxor_spec, (testbit_above a k), (testbit_above b k).
Qed.

Lemma isbyte_lxor a b : isbyte a -> isbyte b -> isbyte (Z.lxor a b).
Proof. apply (lxor_range a b 8). lia. Qed.
Lemma isbyte_lor a b : isbyte a -> isbyte b -> isbyte (Z.lor a b).
Proof. apply (lor_range a b 8). lia. Qed.
#[export] Hint Resolve isbyte_lxor isbyte_lor : oo_bytes.

Lemma lxor_cancel a b : Z.lxor (Z.lxor a b) b = a.
Proof. by rewrite Z.lxor_assoc, Z.lxor_nilpotent, Z.lxor_0_r. Qed.

(** Shifts and masks by literals in arithmetic form, for [lia]. *)
Ltac arith_bits :=
  repeat match goal with
  | |- context [Z.shiftr ?a ?k] => rewrite (Z.shiftr_div_pow2 a k) by lia
  | |- context [Z.shiftl ?a ?k] => rewrite (Z.shiftl_mul_pow2 a k) by lia
  | H : context [Z.shiftr ?a ?k] |- _ => rewrite (Z.shiftr_div_pow2 a k) in H by lia
  | H : context [Z.shiftl ?a ?k] |- _ => rewrite (Z.shiftl_mul_pow2 a k) in H by lia
  end.

(** * Little- and big-endian integers *)

Fixpoint le_bytes (n : nat) (x : Z) : list Z :=
  match n with O => [] | S n => u8 x :: le_bytes n (Z.shiftr x 8) end.
Fixpoint le_join (l : list Z) : Z :=
  match l with [] => 0 | b :: l => Z.lor b (Z.shiftl (le_join l) 8) end.
Definition be_bytes (n : nat) (x : Z) : list Z := rev (le_bytes n x).
Definition be_join (l : list Z) : Z := foldl (fun acc b => Z.lor (Z.shiftl acc 8) b) 0 l.

Lemma length_le_bytes n x : length (le_bytes n x) = n.
Proof. revert x. induction n as [|n IH]; intros x; cbn; [done|]. by rewrite IH. Qed.
Lemma length_be_bytes n x : length (be_bytes n x) = n.
Proof. unfold be_bytes. by rewrite length_rev, length_le_bytes. Qed.
Lemma bytes_le_bytes n x : bytes (le_bytes n x).
Proof. revert x. induction n as [|n IH]; intros x; cbn; constructor; auto with oo_bytes. apply IH. Qed.
Lemma bytes_be_bytes n x : bytes (be_bytes n x).
Proof. apply Forall_rev, bytes_le_bytes. Qed.
#[export] Hint Resolve bytes_le_bytes bytes_be_bytes : oo_bytes.

Lemma le_join_cons b l : isbyte b -> le_join (b :: l) = b + 256 * le_join l.
Proof. intros H. cbn. rewrite lor_shiftl; unfold isbyte in H; lia. Qed.

Lemma le_join_range l : bytes l -> 0 <= le_join l < 2 ^ (8 * Z.of_nat (length l)).
Proof.
  induction 1 as [|b l Hb Hl IH]; [done|].
  rewrite le_join_cons by done. cbn [length]. rewrite Nat2Z.inj_succ.
  replace (8 * Z.succ (Z.of_nat (length l))) with (8 + 8 * Z.of_nat (length l)) by lia.
  rewrite Z.pow_add_r by lia. unfold isbyte in Hb. change (2 ^ 8) with 256. nia.
Qed.

Lemma le_join_bytes n x : le_join (le_bytes n x) = x mod 2 ^ (8 * Z.of_nat n).
Proof.
  revert x. induction n as [|n IH]; intros x; [cbn; by rewrite Z.mod_1_r|].
  cbn [le_bytes]. rewrite le_join_cons, IH by apply isbyte_u8.
  rewrite u8_mod, Z.shiftr_div_pow2 by lia.
  replace (8 * Z.of_nat (S n)) with (8 + 8 * Z.of_nat n) by lia.
  rewrite Z.pow_add_r by lia. change (2 ^ 8) with 256.
  assert (0 < 2 ^ (8 * Z.of_nat n)) by lia.
  rewrite Z.rem_mul_r by lia. lia.
Qed.

Lemma le_bytes_join l : bytes l -> le_bytes (length l) (le_join l) = l.
Proof.
  induction 1 as [|b l Hb Hl IH]; [done|]. cbn [length le_bytes].
  rewrite le_join_cons by done. unfold isbyte in Hb.
  rewrite u8_mod, Z.shiftr_div_pow2 by lia. change (2 ^ 8) with 256.
  replace ((b + 256 * le_join l) / 256) with (le_join l) by lia.
  replace ((b + 256 * le_join l) mod 256) with b by lia. by rewrite IH.
Qed.

Lemma be_join_app l b : be_join (l ++ [b]) = Z.lor (Z.shiftl (be_join l) 8) b.
Proof. unfold be_join. by rewrite foldl_app. Qed.

Lemma be_join_rev l : be_join l = le_join (rev l).
Proof.
  induction l as [|b l IH] using rev_ind; [done|].
  rewrite be_join_app, rev_app_distr, IH. cbn. apply Z.lor_comm.
Qed.

Lemma be_join_bytes n x : be_join (be_bytes n x) = x mod 2 ^ (8 * Z.of_nat n).
Proof. rewrite be_join_rev. unfold be_bytes. by rewrite rev_involutive, le_join_bytes. Qed.
Lemma be_bytes_join l : bytes l -> be_bytes (length l) (be_join l) = l.
Proof.
  intros H. rewrite be_join_rev. unfold be_bytes.
  rewrite <- length_rev, le_bytes_join, rev_involutive; [done|]. by apply Forall_rev.
Qed.

(** * Filling an array from left to right *)

Lemma zeros_S n : zeros (S n) = 0 :: zeros n.
Proof. done. Qed.

Lemma upd_fill (l : list Z) n v i :
  i = length l -> (0 < n)%nat -> upd (l ++ zeros n) i v = (l ++ [v]) ++ zeros (n - 1).
Proof.
  intros -> Hn. unfold upd. destruct n as [|n]; [lia|]. rewrite zeros_S.
  replace (S n - 1)%nat with n by lia. rewrite insert_app_r_alt by lia.
  rewrite Nat.sub_diag. cbn. by rewrite <- app_assoc.
Qed.

(** The list a loop builds whose step [i] appends [g l] to what it has. *)
Fixpoint grow {A} (n : nat) (g : list A -> A) (l : list A) : list A :=
  match n with O => l | S n => let l' := grow n g l in l' ++ [g l'] end.

Lemma length_grow {A} n (g : list A -> A) l : length (grow n g l) = (length l + n)%nat.
Proof. induction n as [|n IH]; cbn; [lia|]. rewrite length_app, IH. cbn. lia. Qed.

(** A loop that writes [W[i]] from the cells below [i] of an array that is
    zero from [lo] on builds the array by appending. *)
Lemma for_fill (g : list Z -> Z) body (l : list Z) lo n :
  length l = lo ->
  (forall i W m, (lo <= i < lo + n)%nat -> length W = i -> (0 < m)%nat ->
     body i (W ++ zeros m) = upd (W ++ zeros m) i (g W)) ->
  for_ lo (lo + n) body (l ++ zeros n) = grow n g l.
Proof.
  intros Hl Hb.
  assert (for_ lo (lo + n) body (l ++ zeros n) = grow (lo + n - lo) g l ++ zeros (lo + n - (lo + n))) as ->.
  - apply (for_ind (fun i W => W = grow (i - lo) g l ++ zeros (lo + n - i))); [lia| |].
    + rewrite Nat.sub_diag. by replace (lo + n - lo)%nat with n by lia.
    + intros i W Hi ->. assert (length (grow (i - lo) g l) = i) by (rewrite length_grow; lia).
      rewrite Hb, upd_fill by lia.
      replace (S i - lo)%nat with (S (i - lo)) by lia.
      by replace (lo + n - i - 1)%nat with (lo + n - S i)%nat by lia.
  - rewrite Nat.sub_diag, app_nil_r. by replace (lo + n - lo)%nat with n by lia.
Qed.

Lemma get_app_zeros a n i : (a ++ zeros n).[i] = a.[i].
Proof.
  destruct (Nat.lt_ge_cases i (length a)); [by rewrite get_app_l|].
  by rewrite get_app_r, get_zeros, get_overflow.
Qed.

Lemma slice_get_tab off n l : (off + n <= length l)%nat -> slice off n l = tab n (fun i => l.[off + i]).
Proof.
  intros H. apply array_ext; rewrite length_slice by done; [by rewrite length_tab|].
  intros i Hi. by rewrite get_slice, get_tab.
Qed.

Lemma le_bytes_mod n x : le_bytes n (x mod 2 ^ (8 * Z.of_nat n)) = le_bytes n x.
Proof.
  rewrite <- le_join_bytes. rewrite <- (length_le_bytes n x) at 1.
  apply le_bytes_join, bytes_le_bytes.
Qed.
Lemma be_bytes_mod n x : be_bytes n (x mod 2 ^ (8 * Z.of_nat n)) = be_bytes n x.
Proof. unfold be_bytes. by rewrite le_bytes_mod. Qed.

Lemma grow_tab (f : nat -> Z) n : grow n (fun W => f (length W)) [] = tab n f.
Proof.
  induction n as [|n IH]; [done|]. cbn [grow]. rewrite IH. unfold tab. rewrite seq_S, map_app.
  by rewrite length_map, length_seq.
Qed.


(** * Finite checks *)

(** A property of all bytes, decided by evaluation. *)
Lemma byte_forall (f : Z -> bool) :
  forallb (fun i => f (Z.of_nat i)) (seq 0 256) = true -> forall x, isbyte x -> f x = true.
Proof.
  rewrite forallb_forall. intros H x Hx. unfold isbyte in Hx.
  rewrite <- (Z2Nat.id x) by lia. apply H, in_seq. lia.
Qed.

Lemma length_concat_tab {A} n k (f : nat -> list A) :
  (forall i, (i < n)%nat -> length (f i) = k) -> length (concat (tab n f)) = (n * k)%nat.
Proof.
  induction n as [|n IH]; intros H; [done|].
  unfold tab in *. rewrite seq_S, map_app, concat_app, length_app, IH by auto with lia.
  cbn. rewrite app_nil_r, H by lia. lia.
Qed.

Lemma u8_byte x : isbyte x -> u8 x = x.
Proof. apply u8_id. Qed.

(** An explicit list of bytes, cell by cell. *)
Ltac bytes_cells := unfold bytes; repeat first [apply List.Forall_nil | apply List.Forall_cons].

Lemma get_cons_0 x l : (x :: l).[0] = x.
Proof. done. Qed.
Lemma get_cons_S x l i : (x :: l).[S i] = l.[i].
Proof. done. Qed.
Ltac get_cells := repeat first [rewrite get_cons_0 | rewrite get_cons_S].

(** * Outcomes of C calls

    A call returns, ends the process (the runtime's way of refusing:
    [exit (code)], or [abort ()] with the status 134 a shell reports), or has
    undefined behaviour (an uninitialised or NULL pointer is read). *)
Inductive run (A : Type) : Type := Ret (a : A) | Exited (code : Z) | Undefined.
Definition ABRT : Z := 134.
#[global] Arguments Ret {A} a.
#[global] Arguments Exited {A} code.
#[global] Arguments Undefined {A}.
Definition run_bind {A B} (m : run A) (f : A -> run B) : run B :=
  match m with Ret a => f a | Exited c => Exited c | Undefined => Undefined end.
Lemma Ret_inj {A} (a b : A) : Ret a = Ret b -> a = b.
Proof. intros H. by injection H. Qed.
Notation "'let*' x := m 'in' k" := (run_bind m (fun x => k))
  (at level 10, x name, m at level 100, k at level 200) : oo_scope.
Definition of_option {A} (o : option A) : run A := match o with Some a => Ret a | None => Undefined end.
(** A loop of calls that fills an array. *)
Fixpoint run_map {A B} (f : A -> run B) (l : list A) : run (list B) :=
  match l with
  | [] => Ret []
  | x :: l => let* y := f x in let* ys := run_map f l in Ret (y :: ys)
  end.
Lemma run_map_Ret {A B} (f : A -> run B) (P : A -> B -> Prop) l ys : (forall x y, f x = Ret y -> P x y) -> run_map f l = Ret ys -> Forall2 P l ys.
Proof.
  intros H. revert ys. induction l as [|x l IH]; intros ys E; cbn [run_map] in E; [injection E as <-; constructor|].
  destruct (f x) as [y| |] eqn:Ey; cbn [run_bind] in E; [|done|done]. destruct (run_map f l) as [zs| |]; cbn [run_bind] in E; [|done|done].
  injection E as <-. constructor; auto.
Qed.

(** ** Calls on a shared state

    [ST S A]: a call that reads and writes globals of type [S]. *)
Definition ST (S A : Type) : Type := S -> run (A * S).
Definition ret {S A} (a : A) : ST S A := fun s => Ret (a, s).
Definition bind {S A B} (m : ST S A) (f : A -> ST S B) : ST S B :=
  fun s => let* r := m s in let '(a, s) := r in f a s.
Definition die {S A} (code : Z) : ST S A := fun _ => Exited code.
Definition undef {S A} : ST S A := fun _ => Undefined.
Definition get_state {S} : ST S S := fun s => Ret (s, s).
Definition set_state {S} (f : S -> S) : ST S unit := fun s => Ret (tt, f s).
(** A call on a part of the state. *)
Definition lift {S T A} (get : S -> T) (put : T -> S -> S) (m : ST T A) : ST S A :=
  fun s => let* r := m (get s) in let '(a, t) := r in Ret (a, put t s).
Notation "'let!' x := m 'in' k" := (bind m (fun x => k))
  (at level 10, x name, m at level 100, k at level 200) : oo_scope.

Lemma get_take n l i : (i < n)%nat -> (take n l).[i] = l.[i].
Proof.
  intros H. unfold get. rewrite !nth_lookup, lookup_take. by case_decide.
Qed.
Lemma get_drop n l i : (drop n l).[i] = l.[n + i].
Proof. unfold get. by rewrite !nth_lookup, lookup_drop. Qed.

(** Cell [k] of piece [i] of a concatenation of [n] pieces of [m] cells. *)
Lemma get_concat_tab n m (f : nat -> list Z) i k :
  (forall i, length (f i) = m) -> (k < m)%nat -> (i < n)%nat ->
  (concat (tab n f)).[m * i + k] = (f i).[k].
Proof.
  intros Hf Hk. revert f Hf i. induction n as [|n IH]; intros f Hf i Hi; [lia|].
  unfold tab. cbn [seq map concat]. destruct i as [|i].
  - rewrite get_app_l by (rewrite Hf; lia). f_equal. lia.
  - rewrite get_app_r by (rewrite Hf; lia). rewrite Hf, <- seq_shift, map_map.
    replace (m * S i + k - m)%nat with (m * i + k)%nat by lia.
    apply (IH (fun i => f (S i))); [intros; apply Hf|lia].
Qed.

(** * Pieces, packing and bit loops *)

Lemma range_forall (f : Z -> bool) lo n :
  forallb (fun i => f (lo + Z.of_nat i)) (seq 0 n) = true -> forall x, lo <= x < lo + Z.of_nat n -> f x = true.
Proof.
  rewrite forallb_forall. intros H x Hx. replace x with (lo + Z.of_nat (Z.to_nat (x - lo))) by lia.
  apply H, in_seq. lia.
Qed.

Lemma get_map (f : Z -> Z) l i : (i < length l)%nat -> (map f l).[i] = f l.[i].
Proof.
  intros H. unfold get. rewrite (nth_indep _ 0 (f 0)) by (by rewrite length_map). apply map_nth.
Qed.

(** Equal expressions over cells whose indices are equal by arithmetic. *)
Ltac same_cells :=
  repeat first [reflexivity | match goal with |- get ?a _ = get ?a _ => f_equal; lia end | progress f_equal].

(** Cell [m i + k] of a list given as pieces of [m] cells. *)
Lemma concat_tab_ext n m (f : nat -> list Z) (l : list Z) : (0 < m)%nat ->
  (forall i, length (f i) = m) -> length l = (n * m)%nat ->
  (forall i k, (i < n)%nat -> (k < m)%nat -> (f i).[k] = l.[m * i + k]) -> concat (tab n f) = l.
Proof.
  intros Hm Hf Hl H. apply array_ext; [by rewrite (length_concat_tab n m) by auto|].
  intros i Hi. rewrite (length_concat_tab n m) in Hi by auto.
  replace i with (m * (i / m) + i mod m)%nat by (symmetry; apply Nat.div_mod; lia).
  assert (i / m < n)%nat by (apply Nat.Div0.div_lt_upper_bound; nia).
  pose proof (Nat.mod_upper_bound i m ltac:(lia)).
  rewrite get_concat_tab by done. by apply H.
Qed.

Lemma byte_cells_pack n m (f : nat -> list Z) : (forall i, bytes (f i)) -> (forall i, length (f i) = m) ->
  bytes (concat (tab n f)) /\ length (concat (tab n f)) = (n * m)%nat.
Proof.
  intros Hb Hl. split; [|by apply length_concat_tab]. unfold tab. apply Forall_concat, Forall_map, Forall_forall. intros; apply Hb.
Qed.

Lemma concat_map_bytes {A} (g : A -> list Z) (l : list A) n :
  Forall (fun p => bytes (g p) /\ length (g p) = n) l ->
  bytes (concat (map g l)) /\ length (concat (map g l)) = (length l * n)%nat.
Proof.
  induction 1 as [|p l [Hb Hl] _ [IHb IHl]]; cbn [map concat length]; [by split; [apply bytes_nil|]|].
  rewrite bytes_app, length_app, IHl. split; [by split|lia].
Qed.

Lemma Forall_tab {A} (P : A -> Prop) n f : (forall i, (i < n)%nat -> P (f i)) -> Forall P (tab n f).
Proof. intros H. apply Forall_map, Forall_forall. intros i Hi. apply H. apply in_seq in Hi. lia. Qed.

Lemma slice_all {A} n (l : list A) : length l = n -> slice 0 n l = l.
Proof. intros <-. unfold slice. rewrite drop_0. apply firstn_all. Qed.

Lemma byte_of_bits x y : isbyte x -> isbyte y ->
  (forall j, (j < 8)%nat -> Z.land (Z.shiftr x (Z.of_nat j)) 1 = Z.land (Z.shiftr y (Z.of_nat j)) 1) -> x = y.
Proof.
  unfold isbyte. intros Hx Hy H. apply Z.bits_inj'. intros n Hn. destruct (Z.lt_ge_cases n 8).
  - specialize (H (Z.to_nat n) ltac:(lia)). rewrite Z2Nat.id in H by lia.
    replace n with (0 + n) by lia. rewrite <- !Z.shiftr_spec by lia.
    rewrite (land_mod _ 1), (land_mod _ 1) in H by lia. rewrite !Z.bit0_odd. rewrite !Zmod_odd in H.
    destruct (Z.odd (Z.shiftr x n)), (Z.odd (Z.shiftr y n)); done.
  - by rewrite (testbit_above x 8), (testbit_above y 8).
Qed.

(** One byte of a message from its eight bits. *)
Lemma or_bits (c : nat -> Z) n : (n <= 8)%nat -> (forall j, (j < n)%nat -> 0 <= c j < 2) ->
  let r := for_ 0 n (fun j r => Z.lor r (u8 (Z.shiftl (c j) (Z.of_nat j)))) 0 in
  0 <= r < 2 ^ Z.of_nat n /\ forall j, (j < n)%nat -> Z.land (Z.shiftr r (Z.of_nat j)) 1 = c j.
Proof.
  cbv zeta. induction n as [|n IH]; intros Hn Hc; [rewrite for_empty by lia; cbn; split; lia|].
  rewrite for_last by lia. destruct IH as [R B]; [lia|intros; apply Hc; lia|].
  set (r := for_ 0 n _ 0) in *. clearbody r. pose proof (Hc n ltac:(lia)) as Hcn.
  assert (Hp : 0 < 2 ^ Z.of_nat n <= 128) by (split; [lia|]; change 128 with (2 ^ 7); apply Z.pow_le_mono_r; lia).
  assert (Hu : u8 (Z.shiftl (c n) (Z.of_nat n)) = Z.shiftl (c n) (Z.of_nat n)).
  { rewrite Z.shiftl_mul_pow2 by lia. apply u8_id. nia. }
  rewrite Hu, lor_shiftl by lia.
  rewrite Nat2Z.inj_succ, Z.pow_succ_r by lia. split; [nia|].
  intros j Hj. destruct (Nat.eq_dec j n) as [->|].
  - rewrite Z.shiftr_div_pow2, Z.div_add, Z.div_small by lia. rewrite (land_mod _ 1) by lia. lia.
  - rewrite <- (B j) by lia. rewrite !Z.shiftr_div_pow2 by lia. rewrite !(land_mod _ 1) by lia.
    replace (c n * 2 ^ Z.of_nat n) with (c n * 2 ^ (Z.of_nat (n - j - 1)) * 2 * 2 ^ Z.of_nat j).
    + rewrite Z.div_add by lia. lia.
    + rewrite <- !Z.mul_assoc. f_equal. rewrite Z.mul_assoc, (Z.mul_comm _ 2), <- Z.pow_succ_r, <- Z.pow_add_r by lia.
      f_equal. lia.
Qed.

(** The accumulating comparison loop of the constant-time code. *)
Lemma ct_cmp_acc (x y : list Z) n d :
  bytes x -> bytes y -> isbyte d ->
  let r := for_ 0 n (fun i d => Z.lor d (u8 (Z.lxor x.[i] y.[i]))) d in
  isbyte r /\ (r = 0 <-> d = 0 /\ forall i, (i < n)%nat -> x.[i] = y.[i]).
Proof.
  intros Hx Hy Hd. cbn. induction n as [|n IH].
  - rewrite for_empty by lia. split; [done|]. split; [|tauto]. intros ->. split; [done|]. lia.
  - rewrite for_last by lia. destruct IH as [Hb IH]. split; [auto with oo_bytes|].
    rewrite Z.lor_eq_0_iff, IH, u8_id by (apply isbyte_lxor; auto with oo_bytes).
    rewrite Z.lxor_eq_0_iff. split.
    + intros [[-> H] Hn]. split; [done|]. intros i Hi.
      destruct (decide (i = n)) as [->|]; [done|]. apply H. lia.
    + intros [-> H]. split; [split; [done|]; intros; apply H; lia|]. apply H. lia.
Qed.

(** The representative of [a] modulo [m] closest to 0. *)
Definition cmod (a m : Z) : Z := (a + m / 2) mod m - m / 2.

(** * Decimal text, as [%lld] prints it *)

Fixpoint dec_digits (fuel : nat) (n : Z) (acc : list Z) : list Z :=
  match fuel with
  | O => acc
  | S fuel => if n <? 10 then (48 + n) :: acc else dec_digits fuel (n / 10) ((48 + n mod 10) :: acc)
  end.
(** Twenty digits hold every 64-bit magnitude. *)
Definition dec (z : Z) : list Z := if z <? 0 then 45 :: dec_digits 20 (- z) [] else dec_digits 20 z [].
Definition dec_value (l : list Z) : Z := foldl (fun v c => 10 * v + (c - 48)) 0 l.

Lemma dec_digits_app fuel n acc : dec_digits fuel n acc = dec_digits fuel n [] ++ acc.
Proof.
  revert n acc. induction fuel as [|fuel IH]; intros n acc; [done|]. cbn [dec_digits]. destruct (n <? 10); [done|].
  rewrite IH, (IH _ [_]), <- app_assoc. done.
Qed.
Lemma dec_digits_spec fuel n : 0 <= n < 10 ^ Z.of_nat fuel -> (0 < fuel)%nat ->
  dec_value (dec_digits fuel n []) = n /\ (1 <= length (dec_digits fuel n []) <= fuel)%nat /\
  Forall (fun c => 48 <= c <= 57) (dec_digits fuel n []).
Proof.
  revert n. induction fuel as [|fuel IH]; intros n Hn Hf; [lia|]. cbn [dec_digits].
  destruct (Z.ltb_spec n 10); [split; [unfold dec_value; cbn; lia|split; [cbn; lia|repeat constructor; lia]]|].
  rewrite dec_digits_app. rewrite Nat2Z.inj_succ, Z.pow_succ_r in Hn by lia.
  destruct fuel as [|fuel]; [cbn in Hn; lia|].
  destruct (IH (n / 10)) as (V & L & D); [lia|lia|]. split; [|split].
  - unfold dec_value in *. rewrite foldl_app, V. cbn. lia.
  - rewrite length_app. cbn [length]. lia.
  - apply Forall_app. split; [done|]. repeat constructor; lia.
Qed.
Lemma length_dec z : LLONG_MIN <= z <= LLONG_MAX -> (1 <= length (dec z) <= 20)%nat.
Proof.
  unfold LLONG_MIN, LLONG_MAX. intros Hz. unfold dec. destruct (Z.ltb_spec z 0).
  - assert (E : dec_digits 20 (- z) [] = dec_digits 19 (- z) []).
    { assert (H19 : forall f n, 0 <= n < 10 ^ Z.of_nat f -> (0 < f)%nat -> forall acc, dec_digits (S f) n acc = dec_digits f n acc).
      { induction f as [|f IH]; intros n Hn Hf acc; [lia|].
        change (dec_digits (S (S f)) n acc) with (if n <? 10 then (48 + n) :: acc else dec_digits (S f) (n / 10) ((48 + n mod 10) :: acc)).
        cbn [dec_digits]. destruct (Z.ltb_spec n 10); [done|]. rewrite Nat2Z.inj_succ, Z.pow_succ_r in Hn by lia.
        destruct f as [|f]; [cbn in Hn; lia|]. apply IH; lia. }
      apply H19; [|lia]. change (10 ^ Z.of_nat 19) with 10000000000000000000. lia. }
    rewrite E. destruct (dec_digits_spec 19 (- z)) as (_ & L & _); [change (10 ^ Z.of_nat 19) with 10000000000000000000; lia|lia|].
    cbn [length]. lia.
  - destruct (dec_digits_spec 20 z) as (_ & L & _); [change (10 ^ Z.of_nat 20) with 100000000000000000000; lia|lia|]. lia.
Qed.
