(* ===== verification/Str.v ===== *)
(** Strings and results as the runtime passes them ([types/types_str.h],
    [types/types_res.h]).

    An [OoStr] is a pointer and a length.  The pointer is [None] for NULL and
    otherwise the bytes it points at, from the pointer on; a byte is a [Z] in
    [0, 255] (the code casts to [unsigned char] wherever the sign matters, or
    compares only with ASCII characters).  The length is a [long long] and is
    kept separate from the bytes, because the code tests it separately: a
    caller may pass a negative or short length.  Reading past the bytes
    ([get]) yields 0, which is the terminator every payload carries. *)
From S2P Require Import Prelude.
From Stdlib Require String Ascii.
Open Scope Z_scope.

Record OoStr := mkStr { sdata : option (list Z); slen : Z }.

(** [OoResS]: [ok] flag and a value that holds the error text when [ok] is 0. *)
Record OoResS := mkResS { res_ok : bool; res_val : OoStr }.

(** A freshly made payload with its exact length, and the NULL string. *)
Definition str_of (l : list Z) : OoStr := {| sdata := Some l; slen := Z.of_nat (length l) |}.
Definition str_null : OoStr := {| sdata := None; slen := 0 |}.

(** The bytes a string denotes: [len] bytes from the pointer. *)
Definition sbytes (s : OoStr) : list Z :=
  match sdata s with
  | None => []
  | Some d => take (Z.to_nat (slen s)) d
  end.

(** A well-formed string: NULL or at least [len] bytes, with [len >= 0]. *)
Definition wf_str (s : OoStr) : Prop :=
  0 <= slen s /\
  match sdata s with
  | None => True
  | Some d => slen s <= Z.of_nat (length d) /\ bytes d
  end.

Lemma sbytes_str_of l : sbytes (str_of l) = l.
Proof. unfold sbytes, str_of. cbn. rewrite Nat2Z.id. apply take_ge. lia. Qed.

Lemma wf_str_of l : bytes l -> wf_str (str_of l).
Proof. intros H. split; cbn; [lia|]. split; [lia|done]. Qed.

Lemma bytes_sbytes s : wf_str s -> bytes (sbytes s).
Proof.
  intros [_ H]. unfold sbytes. destruct (sdata s) as [d|]; [|apply bytes_nil].
  destruct H. by apply bytes_take.
Qed.

Lemma length_sbytes s d : wf_str s -> sdata s = Some d -> Z.of_nat (length (sbytes s)) = slen s.
Proof.
  intros [H0 H] Hd. unfold sbytes. rewrite Hd in H |- *. destruct H. rewrite length_take. lia.
Qed.

(** ASCII text as bytes. *)
Definition ascii_bytes (s : String.string) : list Z :=
  map (fun a => Z.of_N (Ascii.N_of_ascii a)) (String.list_ascii_of_string s).
Definition oo_str_lit (s : String.string) : OoStr := str_of (ascii_bytes s).
#[global] Arguments oo_str_lit s%_string_scope.
#[global] Arguments ascii_bytes s%_string_scope.

(** [memcmp (a + off, b, n) == 0]. *)
Definition mem_eq (a : list Z) (off : nat) (b : list Z) (n : nat) : bool := forallb (fun i => a.[off + i] =? b.[i]) (seq 0 n).
Lemma mem_eq_spec a o b n : (o + n <= length a)%nat -> (n <= length b)%nat -> mem_eq a o b n = true <-> slice o n a = take n b.
Proof.
  intros Ha Hb. unfold mem_eq. rewrite forallb_forall. split.
  - intros H. apply array_ext; rewrite length_slice by done; [rewrite length_take; lia|]. intros i Hi.
    rewrite get_slice, get_take by done. specialize (H i ltac:(apply in_seq; lia)). lia.
  - intros H i Hi%in_seq. apply Z.eqb_eq. rewrite <- (get_slice o n a i), <- (get_take n b i) by lia. by rewrite H.
Qed.
