(* ===== verification/Hex.v ===== *)
(** Hexadecimal input and output: the hex glue of [sec/crypto/aead/aead.c],
    [sec/pqc/mlkem/mlkem_ntt.c], [sec/pqc/mldsa/mldsa_sample.c] and
    [sec/pqc/pq_sig/pq_sig.c], and the hash files' encoders.

    The loaders accept an operand in two forms, raw bytes or hex text, and
    tell the forms apart by the length (or, for messages, by the content). *)
From S2P Require Import Prelude Str.
From Stdlib Require String.
Import (notations) String.
Open Scope Z_scope.

(** ** Digits *)

Definition aead_hex_digit (c : Z) : Z :=
  if (48 <=? c) && (c <=? 57) then c - 48
  else if (97 <=? c) && (c <=? 102) then c - 97 + 10
  else if (65 <=? c) && (c <=? 70) then c - 65 + 10
  else -1.

Definition d_hex_digit (c : Z) : Z :=
  if (48 <=? c) && (c <=? 57) then c - 48
  else if (97 <=? c) && (c <=? 102) then c - 97 + 10
  else if (65 <=? c) && (c <=? 70) then c - 65 + 10
  else -1.

Definition hex_digit (c : Z) : Z :=
  if (48 <=? c) && (c <=? 57) then c - 48
  else if (97 <=? c) && (c <=? 102) then c - 97 + 10
  else if (65 <=? c) && (c <=? 70) then c - 65 + 10
  else -1.

(** The table [hx] of the encoders. *)
Definition hx : list Z := ascii_bytes "0123456789abcdef".
Definition hx_at (x : Z) : Z := hx.[Z.to_nat x].

(** The loop the decoders share: byte [i] from the digits at [2i], [2i+1],
    giving up on the first character that is not a digit. *)
Fixpoint hex_pairs (digit : Z -> Z) (i n : nat) (d : list Z) : option (list Z) :=
  match n with
  | O => Some []
  | S n =>
      let hi := digit d.[2 * i] in
      let lo := digit d.[2 * i + 1] in
      if (hi <? 0) || (lo <? 0) then None
      else rest ← hex_pairs digit (S i) n d; Some (u8 (Z.lor (Z.shiftl hi 4) lo) :: rest)
  end.

(** The loop the encoders share. *)
Definition hex_of (p : list Z) (n : nat) : list Z :=
  flat_map (fun i => [hx_at (Z.land (Z.shiftr p.[i] 4) 0xf); hx_at (Z.land p.[i] 0xf)]) (seq 0 n).

(** ** AEAD operands ([aead.c]) *)

Definition aead_all_hex (s : OoStr) : bool :=
  match sdata s with
  | None => false
  | Some d =>
      if (slen s <? 2) || negb (Z.rem (slen s) 2 =? 0) then false
      else forallb (fun i => negb (aead_hex_digit d.[i] <? 0)) (seq 0 (Z.to_nat (slen s)))
  end.

(** [aead_fill s out want]: [None] is the result 0, [Some] the filled buffer. *)
Definition aead_fill (s : OoStr) (want : nat) : option (list Z) :=
  match sdata s with
  | None => None
  | Some d =>
      if slen s =? Z.of_nat want then Some (take want d)
      else if slen s =? Z.of_nat want * 2 then hex_pairs aead_hex_digit 0 want d
      else None
  end.

(** [aead_load s out n own]: the loaded bytes, [None] for the result 0. *)
Definition aead_load (s : OoStr) : option (list Z) :=
  if slen s <? 0 then None
  else match sdata s with
  | None => Some []
  | Some d =>
      if aead_all_hex s then
        Some (tab (Z.to_nat (slen s / 2)) (fun i =>
          u8 (Z.lor (Z.shiftl (aead_hex_digit d.[2 * i]) 4) (aead_hex_digit d.[2 * i + 1]))))
      else Some (if 0 <? slen s then take (Z.to_nat (slen s)) d else [])
  end.

Definition aead_hex_cat (a : list Z) (na : nat) (b : list Z) (nb : nat) : OoStr :=
  str_of (hex_of a na ++ hex_of b nb).
Definition aead_bin (p : list Z) (n : nat) : OoStr := str_of (take n p).

(** ** ML-KEM operands ([mlkem_ntt.c]) *)

Definition k_hex_load (s : OoStr) (want : nat) : option (list Z) :=
  match sdata s with
  | None => None
  | Some d =>
      if slen s <? 0 then None
      else if slen s =? Z.of_nat want then Some (take want d)
      else if slen s =? Z.of_nat want * 2 then hex_pairs hex_digit 0 want d
      else None
  end.
Definition k_pqc_hex_out (p : list Z) (n : nat) : OoStr := str_of (hex_of p n).
Definition k_pqc_hex_out_cat (a : list Z) (na : nat) (b : list Z) (nb : nat) : OoStr :=
  str_of (hex_of a na ++ hex_of b nb).

(** ** ML-DSA operands ([mldsa_sample.c]) *)

Definition d_hex_load (s : OoStr) (want : nat) : option (list Z) :=
  match sdata s with
  | None => None
  | Some d =>
      if slen s <? 0 then None
      else if slen s =? Z.of_nat want then Some (take want d)
      else if negb (slen s =? Z.of_nat want * 2) then None
      else hex_pairs d_hex_digit 0 want d
  end.

(** [d_load_msg s out n maxn]: the loaded message, [None] for the result 0. *)
Definition d_load_msg (s : OoStr) (maxn : Z) : option (list Z) :=
  match sdata s with
  | None => Some []
  | Some d =>
      if slen s <? 0 then Some []
      else
        if (Z.rem (slen s) 2 =? 0) && (slen s / 2 <=? maxn) && (0 <? slen s)
           && forallb (fun i => negb (d_hex_digit d.[i] <? 0)) (seq 0 (Z.to_nat (slen s)))
        then Some (tab (Z.to_nat (slen s / 2)) (fun i =>
               u8 (Z.lor (Z.shiftl (d_hex_digit d.[2 * i]) 4) (d_hex_digit d.[2 * i + 1]))))
        else if maxn <? slen s then None
        else Some (take (Z.to_nat (slen s)) d)
  end.
Definition d_hex_out (p : list Z) (n : nat) : OoStr := str_of (hex_of p n).
Definition d_hex_out_cat (a : list Z) (na : nat) (b : list Z) (nb : nat) : OoStr :=
  str_of (hex_of a na ++ hex_of b nb).

(** ** Seal operands ([pq_sig.c]) *)

Definition hex_load_n (s : option (list Z)) (n want : nat) : option (list Z) :=
  match s with
  | None => None
  | Some d => if negb (n =? want * 2)%nat then None else hex_pairs hex_digit 0 want d
  end.
Definition hex_out_n (p : list Z) (n : nat) : OoStr := str_of (hex_of p n).

(** ** Hash outputs ([hash.c], [sha3.c]) *)

Definition hex_encode_n (d : list Z) (n : nat) : OoStr := str_of (hex_of d n).
Definition oo_crypto_hex (d : list Z) (n : nat) : OoStr := str_of (hex_of d n).

(** * Lemmas *)

Lemma d_hex_digit_eq c : d_hex_digit c = hex_digit c.
Proof. done. Qed.
Lemma aead_hex_digit_eq c : aead_hex_digit c = hex_digit c.
Proof. done. Qed.

Lemma hex_digit_range c : -1 <= hex_digit c < 16.
Proof. unfold hex_digit. repeat case_match; lia. Qed.

(** Digits written by [hx] read back; a Boolean check over the 16 values. *)
Lemma hex_digit_hx x : 0 <= x < 16 -> hex_digit (hx_at x) = x.
Proof.
  intros H. assert (forallb (fun i => hex_digit (hx_at (Z.of_nat i)) =? Z.of_nat i) (seq 0 16) = true)
    as Hall by reflexivity.
  rewrite forallb_forall in Hall. specialize (Hall (Z.to_nat x)).
  rewrite Z2Nat.id in Hall by lia. apply Z.eqb_eq, Hall, in_seq. lia.
Qed.

Lemma hx_at_range x : isbyte (hx_at x).
Proof. apply bytes_get, bytesb_ok. reflexivity. Qed.

Lemma length_flat_map_pair (f : nat -> Z * Z) l :
  length (flat_map (fun i => [fst (f i); snd (f i)]) l) = (2 * length l)%nat.
Proof. induction l as [|x l IH]; [done|]. cbn. rewrite IH. lia. Qed.

Lemma length_hex_of p n : length (hex_of p n) = (2 * n)%nat.
Proof.
  unfold hex_of.
  rewrite (length_flat_map_pair (fun i => (hx_at (Z.land (Z.shiftr p.[i] 4) 0xf), hx_at (Z.land p.[i] 0xf)))).
  by rewrite length_seq.
Qed.

Lemma hex_of_S p n :
  hex_of p (S n) = hex_of p n ++ [hx_at (Z.land (Z.shiftr p.[n] 4) 0xf); hx_at (Z.land p.[n] 0xf)].
Proof. unfold hex_of. rewrite seq_S, flat_map_app. cbn. done. Qed.

Lemma hex_of_ext p q n : (forall i, (i < n)%nat -> p.[i] = q.[i]) -> hex_of p n = hex_of q n.
Proof.
  induction n as [|n IH]; intros H; [done|]. rewrite !hex_of_S, IH, H by (intros; auto with lia; apply H; lia).
  done.
Qed.

Lemma get_hex_of p n i : (i < n)%nat ->
  (hex_of p n).[2 * i] = hx_at (Z.land (Z.shiftr p.[i] 4) 0xf) /\
  (hex_of p n).[2 * i + 1] = hx_at (Z.land p.[i] 0xf).
Proof.
  induction n as [|n IH]; [lia|]. intros Hi. rewrite hex_of_S.
  destruct (decide (i = n)) as [->|Hne].
  - rewrite !get_app_r by (rewrite length_hex_of; lia). rewrite length_hex_of.
    replace (2 * n - 2 * n)%nat with 0%nat by lia.
    replace (2 * n + 1 - 2 * n)%nat with 1%nat by lia. done.
  - rewrite !get_app_l by (rewrite length_hex_of; lia). apply IH. lia.
Qed.

Lemma bytes_hex_of p n : bytes (hex_of p n).
Proof.
  induction n as [|n IH]; [constructor|]. rewrite hex_of_S. apply bytes_app. split; [done|].
  repeat constructor; apply hx_at_range.
Qed.

Lemma nibbles_byte b : isbyte b ->
  u8 (Z.lor (Z.shiftl (hex_digit (hx_at (Z.land (Z.shiftr b 4) 0xf))) 4) (hex_digit (hx_at (Z.land b 0xf)))) = b.
Proof.
  unfold isbyte. intros H.
  rewrite (land_mod _ 4), (land_mod _ 4) by lia. arith_bits.
  rewrite !hex_digit_hx by lia.
  rewrite Z.lor_comm, lor_add by lia. rewrite u8_mod. lia.
Qed.

(** Decoding reads back the bytes an encoder wrote, from any position. *)
Lemma hex_pairs_hex_of p d m :
  forall n i, (i + n = m)%nat ->
  (forall j, (j < m)%nat -> isbyte p.[j] /\ d.[2 * j] = (hex_of p m).[2 * j]
                            /\ d.[2 * j + 1] = (hex_of p m).[2 * j + 1]) ->
  hex_pairs hex_digit i n d = Some (map (get p) (seq i n)).
Proof.
  intros n. induction n as [|n IH]; intros i Hm Hd; [done|].
  cbn [hex_pairs seq map]. destruct (Hd i ltac:(lia)) as (Hb & -> & ->).
  destruct (get_hex_of p m i ltac:(lia)) as [-> ->].
  rewrite (IH (S i)) by (done || lia). cbn [mbind option_bind].
  rewrite nibbles_byte by done.
  unfold isbyte in Hb. rewrite (land_mod _ 4), (land_mod _ 4) by lia. arith_bits.
  rewrite !hex_digit_hx by lia.
  case_match eqn:E; [lia|done].
Qed.

Lemma hex_pairs_encode p n : bytes p -> length p = n ->
  hex_pairs hex_digit 0 n (hex_of p n) = Some p.
Proof.
  intros Hp Hn. rewrite (hex_pairs_hex_of p _ n n 0) by (done || (intros; eauto with oo_bytes)).
  f_equal. by apply tab_get.
Qed.

Lemma hex_pairs_length g d n i l : hex_pairs g i n d = Some l -> length l = n /\ bytes l.
Proof.
  revert i l. induction n as [|n IH]; intros i l H; cbn in H; [simplify_eq; split; [done|apply bytes_nil]|].
  case_match; [done|]. destruct (hex_pairs g (S i) n d) as [r|] eqn:E; [|done].
  cbn in H. simplify_eq. apply IH in E as [<- Hr]. split; [done|]. constructor; auto with oo_bytes.
Qed.

(** Every loader reads an encoded operand back. *)
Lemma k_hex_load_out p n : bytes p -> length p = n -> (0 < n)%nat ->
  k_hex_load (k_pqc_hex_out p n) n = Some p.
Proof.
  intros Hp Hn Hpos. unfold k_hex_load, k_pqc_hex_out, str_of. cbn [sdata slen].
  rewrite length_hex_of. repeat case_match; try lia; by apply hex_pairs_encode.
Qed.
Lemma d_hex_load_out p n : bytes p -> length p = n -> (0 < n)%nat ->
  d_hex_load (d_hex_out p n) n = Some p.
Proof.
  intros Hp Hn Hpos. unfold d_hex_load, d_hex_out, str_of. cbn [sdata slen].
  rewrite length_hex_of. repeat case_match; try lia; by apply hex_pairs_encode.
Qed.
Lemma d_hex_load_raw p n : length p = n -> d_hex_load (str_of p) n = Some p.
Proof.
  intros Hn. unfold d_hex_load, str_of. cbn [sdata slen].
  repeat case_match; try lia; by rewrite take_ge by lia.
Qed.
