(* ===== verification/Sha2.v ===== *)
(** SHA-256, SHA-512 and HMAC-SHA-256
    ([sec/crypto/symmetric/hash.c], [hmac.c], [secure.c]) and the capability
    signature [oo_cg_sign] / [oo_cg_verify] ([symmetric/crypto.c]).

    Buffers are arrays of bytes; words are [Z] reduced by [u32] / [u64]
    exactly where the C arithmetic wraps.  Wiping a local buffer has no
    effect on the result and is not represented. *)
From S2P Require Import Prelude Str Hex.
Open Scope Z_scope.

(** * Constant-time comparison ([secure.c])

    [n] bytes of both operands; NULL operands compare as different (1). *)
Definition crypto_ct_cmp (a b : option (list Z)) (n : nat) : Z :=
  match a, b with
  | Some x, Some y => for_ 0 n (fun i d => Z.lor d (u8 (Z.lxor x.[i] y.[i]))) 0
  | _, _ => 1
  end.

(** * SHA-256 *)

(** [n] big-endian 32-bit words of one literal: a row of a table. *)
Definition be_words (n : nat) (x : Z) : list Z :=
  map (fun i => (x / 2 ^ (32 * Z.of_nat (n - 1 - i))) mod 2 ^ 32) (seq 0 n).
Definition K256 : list Z := Eval cbv in flat_map (be_words 8) [
  0x428a2f9871374491b5c0fbcfe9b5dba53956c25b59f111f1923f82a4ab1c5ed5;
  0xd807aa9812835b01243185be550c7dc372be5d7480deb1fe9bdc06a7c19bf174;
  0xe49b69c1efbe47860fc19dc6240ca1cc2de92c6f4a7484aa5cb0a9dc76f988da;
  0x983e5152a831c66db00327c8bf597fc7c6e00bf3d5a7914706ca635114292967;
  0x27b70a852e1b21384d2c6dfc53380d13650a7354766a0abb81c2c92e92722c85;
  0xa2bfe8a1a81a664bc24b8b70c76c51a3d192e819d6990624f40e3585106aa070;
  0x19a4c1161e376c082748774c34b0bcb5391c0cb34ed8aa4a5b9cca4f682e6ff3;
  0x748f82ee78a5636f84c878148cc7020890befffaa4506cebbef9a3f7c67178f2].

Definition ROTR (x n : Z) : Z := u32 (Z.lor (Z.shiftr x n) (Z.shiftl x (32 - n))).
Definition CH (x y z : Z) : Z := Z.lxor (Z.land x y) (Z.land (u32 (Z.lnot x)) z).
Definition MAJ (x y z : Z) : Z := Z.lxor (Z.lxor (Z.land x y) (Z.land x z)) (Z.land y z).
Definition SIGMA0 (x : Z) : Z := Z.lxor (Z.lxor (ROTR x 2) (ROTR x 13)) (ROTR x 22).
Definition SIGMA1 (x : Z) : Z := Z.lxor (Z.lxor (ROTR x 6) (ROTR x 11)) (ROTR x 25).
Definition sigma0 (x : Z) : Z := Z.lxor (Z.lxor (ROTR x 7) (ROTR x 18)) (Z.shiftr x 3).
Definition sigma1 (x : Z) : Z := Z.lxor (Z.lxor (ROTR x 17) (ROTR x 19)) (Z.shiftr x 10).

(** [while ((pad_len % m) != r) pad_len++], at most [m] iterations. *)
Fixpoint pad_loop (fuel : nat) (m r pad_len : nat) : nat :=
  match fuel with
  | O => pad_len
  | S fuel => if negb (pad_len mod m =? r)%nat then pad_loop fuel m r (S pad_len) else pad_len
  end.

(** The padded buffer: [calloc], [memcpy], the marker byte, the bit length
    in the last eight bytes; [m] and [tail] are 64, 8 or 128, 16. *)
Definition sha_pad (m r tail : nat) (data : list Z) : list Z :=
  let len := length data in
  let bitlen := u64 (Z.of_nat len * 8) in
  let pad_len := pad_loop m m r (len + 1) in
  let total_len := (pad_len + tail)%nat in
  let buf := data ++ zeros (total_len - len) in
  let buf := buf.[len <- 0x80] in
  for_ 0 8 (fun i buf => buf.[total_len - 1 - i <- u8 (Z.shiftr bitlen (Z.of_nat i * 8))]) buf.

Definition sha256_schedule (p : list Z) : list Z :=
  let W := for_ 0 16 (fun i W =>
    W.[i <- Z.lor (Z.lor (Z.lor (Z.shiftl p.[i*4] 24) (Z.shiftl p.[i*4+1] 16))
                         (Z.shiftl p.[i*4+2] 8)) p.[i*4+3]]) (zeros 64) in
  for_ 16 64 (fun i W =>
    W.[i <- u32 (W.[i-16] + sigma0 W.[i-15] + W.[i-7] + sigma1 W.[i-2])]) W.

(** The eight working variables. *)
Record hvars := mkH { ha : Z; hb : Z; hc : Z; hd : Z; he : Z; hf : Z; hg : Z; hh : Z }.

Definition sha256_round (W : list Z) (i : nat) (v : hvars) : hvars :=
  let T1 := u32 (hh v + SIGMA1 (he v) + CH (he v) (hf v) (hg v) + K256.[i] + W.[i]) in
  let T2 := u32 (SIGMA0 (ha v) + MAJ (ha v) (hb v) (hc v)) in
  {| hh := hg v; hg := hf v; hf := he v; he := u32 (hd v + T1);
     hd := hc v; hc := hb v; hb := ha v; ha := u32 (T1 + T2) |}.

Definition sha256_block (p : list Z) (s : list Z) : list Z :=
  let W := sha256_schedule p in
  let v := for_ 0 64 (sha256_round W)
    {| ha := s.[0]; hb := s.[1]; hc := s.[2]; hd := s.[3];
       he := s.[4]; hf := s.[5]; hg := s.[6]; hh := s.[7] |} in
  [u32 (s.[0] + ha v); u32 (s.[1] + hb v); u32 (s.[2] + hc v); u32 (s.[3] + hd v);
   u32 (s.[4] + he v); u32 (s.[5] + hf v); u32 (s.[6] + hg v); u32 (s.[7] + hh v)].

Definition sha256_iv : list Z :=
  [0x6a09e667; 0xbb67ae85; 0x3c6ef372; 0xa54ff53a; 0x510e527f; 0x9b05688c; 0x1f83d9ab; 0x5be0cd19].

Definition sha256_bytes (data : list Z) : list Z :=
  let buf := sha_pad 64 56 8 data in
  let s := for_ 0 (length buf / 64) (fun k s => sha256_block (drop (64 * k) buf) s) sha256_iv in
  flat_map (fun w => [u8 (Z.shiftr w 24); u8 (Z.shiftr w 16); u8 (Z.shiftr w 8); u8 w]) s.

(** The bytes a hash entry point reads from its operand. *)
Definition hash_operand (d : OoStr) : list Z :=
  match sdata d with None => [] | Some l => take (Z.to_nat (slen d)) l end.

Definition crypto_sha256_internal (d : OoStr) : OoStr :=
  if slen d <? 0 then str_null
  else str_of (hex_of (sha256_bytes (hash_operand d)) 32).

(** * SHA-512 *)

Definition K512 : list Z := [
  0x428a2f98d728ae22; 0x7137449123ef65cd; 0xb5c0fbcfec4d3b2f; 0xe9b5dba58189dbbc;
  0x3956c25bf348b538; 0x59f111f1b605d019; 0x923f82a4af194f9b; 0xab1c5ed5da6d8118;
  0xd807aa98a3030242; 0x12835b0145706fbe; 0x243185be4ee4b28c; 0x550c7dc3d5ffb4e2;
  0x72be5d74f27b896f; 0x80deb1fe3b1696b1; 0x9bdc06a725c71235; 0xc19bf174cf692694;
  0xe49b69c19ef14ad2; 0xefbe4786384f25e3; 0x0fc19dc68b8cd5b5; 0x240ca1cc77ac9c65;
  0x2de92c6f592b0275; 0x4a7484aa6ea6e483; 0x5cb0a9dcbd41fbd4; 0x76f988da831153b5;
  0x983e5152ee66dfab; 0xa831c66d2db43210; 0xb00327c898fb213f; 0xbf597fc7beef0ee4;
  0xc6e00bf33da88fc2; 0xd5a79147930aa725; 0x06ca6351e003826f; 0x142929670a0e6e70;
  0x27b70a8546d22ffc; 0x2e1b21385c26c926; 0x4d2c6dfc5ac42aed; 0x53380d139d95b3df;
  0x650a73548baf63de; 0x766a0abb3c77b2a8; 0x81c2c92e47edaee6; 0x92722c851482353b;
  0xa2bfe8a14cf10364; 0xa81a664bbc423001; 0xc24b8b70d0f89791; 0xc76c51a30654be30;
  0xd192e819d6ef5218; 0xd69906245565a910; 0xf40e35855771202a; 0x106aa07032bbd1b8;
  0x19a4c116b8d2d0c8; 0x1e376c085141ab53; 0x2748774cdf8eeb99; 0x34b0bcb5e19b48a8;
  0x391c0cb3c5c95a63; 0x4ed8aa4ae3418acb; 0x5b9cca4f7763e373; 0x682e6ff3d6b2b8a3;
  0x748f82ee5defb2fc; 0x78a5636f43172f60; 0x84c87814a1f0ab72; 0x8cc702081a6439ec;
  0x90befffa23631e28; 0xa4506cebde82bde9; 0xbef9a3f7b2c67915; 0xc67178f2e372532b;
  0xca273eceea26619c; 0xd186b8c721c0c207; 0xeada7dd6cde0eb1e; 0xf57d4f7fee6ed178;
  0x06f067aa72176fba; 0x0a637dc5a2c898a6; 0x113f9804bef90dae; 0x1b710b35131c471b;
  0x28db77f523047d84; 0x32caab7b40c72493; 0x3c9ebe0a15c9bebc; 0x431d67c49c100d4c;
  0x4cc5d4becb3e42b6; 0x597f299cfc657e2a; 0x5fcb6fab3ad6faec; 0x6c44198c4a475817].

Definition ROTR64 (x n : Z) : Z := u64 (Z.lor (Z.shiftr x n) (Z.shiftl x (64 - n))).
Definition CH64 (x y z : Z) : Z := Z.lxor (Z.land x y) (Z.land (u64 (Z.lnot x)) z).
Definition MAJ64 (x y z : Z) : Z := Z.lxor (Z.lxor (Z.land x y) (Z.land x z)) (Z.land y z).
Definition SIGMA0_64 (x : Z) : Z := Z.lxor (Z.lxor (ROTR64 x 28) (ROTR64 x 34)) (ROTR64 x 39).
Definition SIGMA1_64 (x : Z) : Z := Z.lxor (Z.lxor (ROTR64 x 14) (ROTR64 x 18)) (ROTR64 x 41).
Definition sigma0_64 (x : Z) : Z := Z.lxor (Z.lxor (ROTR64 x 1) (ROTR64 x 8)) (Z.shiftr x 7).
Definition sigma1_64 (x : Z) : Z := Z.lxor (Z.lxor (ROTR64 x 19) (ROTR64 x 61)) (Z.shiftr x 6).

Definition sha512_round (W : list Z) (i : nat) (v : hvars) : hvars :=
  let T1 := u64 (hh v + SIGMA1_64 (he v) + CH64 (he v) (hf v) (hg v) + K512.[i] + W.[i]) in
  let T2 := u64 (SIGMA0_64 (ha v) + MAJ64 (ha v) (hb v) (hc v)) in
  {| hh := hg v; hg := hf v; hf := he v; he := u64 (hd v + T1);
     hd := hc v; hc := hb v; hb := ha v; ha := u64 (T1 + T2) |}.

Definition sha512_compress (s : list Z) (block : list Z) : list Z :=
  let W := for_ 0 16 (fun i W => W.[i <- be_join (slice (i * 8) 8 block)]) (zeros 80) in
  let W := for_ 16 80 (fun i W =>
    W.[i <- u64 (sigma1_64 W.[i-2] + W.[i-7] + sigma0_64 W.[i-15] + W.[i-16])]) W in
  let v := for_ 0 80 (sha512_round W)
    {| ha := s.[0]; hb := s.[1]; hc := s.[2]; hd := s.[3];
       he := s.[4]; hf := s.[5]; hg := s.[6]; hh := s.[7] |} in
  [u64 (s.[0] + ha v); u64 (s.[1] + hb v); u64 (s.[2] + hc v); u64 (s.[3] + hd v);
   u64 (s.[4] + he v); u64 (s.[5] + hf v); u64 (s.[6] + hg v); u64 (s.[7] + hh v)].

Definition sha512_iv : list Z :=
  [0x6a09e667f3bcc908; 0xbb67ae8584caa73b; 0x3c6ef372fe94f82b; 0xa54ff53a5f1d36f1;
   0x510e527fade682d1; 0x9b05688c2b3e6c1f; 0x1f83d9abfb41bd6b; 0x5be0cd19137e2179].

Definition sha512_bytes (data : list Z) : list Z :=
  let buf := sha_pad 128 112 16 data in
  let s := for_ 0 (length buf / 128) (fun k s => sha512_compress s (drop (128 * k) buf)) sha512_iv in
  flat_map (be_bytes 8) s.

Definition crypto_sha512_internal (d : OoStr) : OoStr :=
  if slen d <? 0 then str_null
  else str_of (hex_of (sha512_bytes (hash_operand d)) 64).

(** * HMAC-SHA-256 *)

(** The key block [k]: hashed when longer than 64 bytes, else copied over
    zeros.  [sha256_bytes] given NULL and a length hashes that many of the
    zero bytes its buffer starts with. *)
Definition hmac_key_block (key : OoStr) : list Z :=
  if 64 <? slen key then
    sha256_bytes (match sdata key with
                  | None => zeros (Z.to_nat (slen key))
                  | Some d => take (Z.to_nat (slen key)) d end) ++ zeros 32
  else match sdata key with
  | Some d => if 0 <? slen key then take (Z.to_nat (slen key)) d ++ zeros (64 - Z.to_nat (slen key)) else zeros 64
  | None => zeros 64
  end.

(** The digest from the key block; shared by [crypto_hmac_sha256_internal]
    and [oo_cg_calc_sig], which repeat the construction. *)
Definition hmac_from_block (k msg : list Z) : list Z :=
  let ipad := tab 64 (fun i => Z.lxor k.[i] 0x36) in
  let opad := tab 64 (fun i => Z.lxor k.[i] 0x5c) in
  let inner_digest := sha256_bytes (ipad ++ msg) in
  sha256_bytes (opad ++ inner_digest).

(** A NULL message has length 0 at every call in the runtime; with a positive
    length the code would hash the uninitialised rest of its buffer. *)
Definition crypto_hmac_sha256_internal (key msg : OoStr) : OoStr :=
  if (slen key <? 0) || (slen msg <? 0) then str_null
  else str_of (hex_of (hmac_from_block (hmac_key_block key) (hash_operand msg)) 32).

(** * Capability signatures ([symmetric/crypto.c])

    [cg_key] is the process key [g_cg_sign_key] that [cg_sign_init] draws
    once; the [SignCap] gate is [oo_cap_require_sign] of [Caps.v]. *)
Definition oo_cg_calc_sig (cg_key : list Z) (cap : Z) : Z :=
  let k := take 32 cg_key ++ zeros 32 in
  let inner := tab 8 (fun i => u8 (Z.shiftr (u64 cap) (Z.of_nat (7 - i) * 8))) in
  let outer_digest := hmac_from_block k inner in
  i64 (for_ 0 8 (fun i sig => Z.lor (u64 (Z.shiftl sig 8)) outer_digest.[i]) 0).

(** The bytes of a [long long] in memory, as [crypto_ct_cmp] reads them. *)
Definition long_bytes (x : Z) : list Z := le_bytes 8 (u64 x).

Definition oo_cg_verify_sig (cg_key : list Z) (cap sig : Z) : bool :=
  if sig =? 0 then false
  else crypto_ct_cmp (Some (long_bytes sig)) (Some (long_bytes (oo_cg_calc_sig cg_key cap))) 8 =? 0.

(** * FIPS 180-4, stated over lists

    The standard's description of SHA-256: pad, cut into blocks, extend each
    block's sixteen words to the schedule, fold the rounds. *)
Module Fips.
Definition pad256 (data : list Z) : list Z :=
  let l := Z.of_nat (length data) in
  data ++ [0x80] ++ zeros (Z.to_nat ((55 - l) mod 64)) ++ be_bytes 8 (8 * l).

Definition words (block : list Z) : list Z := tab 16 (fun i => be_join (slice (4 * i) 4 block)).

(** One more word of the message schedule. *)
Definition next_word (W : list Z) : Z :=
  let t := length W in
  (W.[t - 16] + sigma0 W.[t - 15] + W.[t - 7] + sigma1 W.[t - 2]) mod 2 ^ 32.

Definition schedule (block : list Z) : list Z := grow 48 next_word (words block).

Definition round (v : hvars) (kw : Z * Z) : hvars :=
  let T1 := (hh v + SIGMA1 (he v) + CH (he v) (hf v) (hg v) + fst kw + snd kw) mod 2 ^ 32 in
  let T2 := (SIGMA0 (ha v) + MAJ (ha v) (hb v) (hc v)) mod 2 ^ 32 in
  mkH ((T1 + T2) mod 2 ^ 32) (ha v) (hb v) (hc v) ((hd v + T1) mod 2 ^ 32) (he v) (hf v) (hg v).

Definition of_list (s : list Z) : hvars := mkH s.[0] s.[1] s.[2] s.[3] s.[4] s.[5] s.[6] s.[7].
Definition to_list (v : hvars) : list Z := [ha v; hb v; hc v; hd v; he v; hf v; hg v; hh v].

Definition compress (s : list Z) (block : list Z) : list Z :=
  zip_with (fun x y => (x + y) mod 2 ^ 32) s
    (to_list (foldl round (of_list s) (zip K256 (schedule block)))).

Definition blocks (m : nat) (buf : list Z) : list (list Z) :=
  tab (length buf / m) (fun k => slice (m * k) m buf).

Definition sha256 (data : list Z) : list Z :=
  concat (map (be_bytes 4) (foldl compress sha256_iv (blocks 64 (pad256 data)))).
End Fips.

(** * Lemmas *)

Lemma ct_cmp_range x y n : bytes x -> bytes y -> isbyte (crypto_ct_cmp (Some x) (Some y) n).
Proof. intros Hx Hy. apply (ct_cmp_acc x y n 0 Hx Hy). unfold isbyte. lia. Qed.

Lemma crypto_ct_cmp_zero x y n :
  bytes x -> bytes y -> length x = n -> length y = n ->
  crypto_ct_cmp (Some x) (Some y) n = 0 <-> x = y.
Proof.
  intros Hx Hy Hlx Hly. cbn.
  destruct (ct_cmp_acc x y n 0 Hx Hy ltac:(unfold isbyte; lia)) as [_ ->]. split.
  - intros [_ H]. apply array_ext; [lia|]. intros. apply H. lia.
  - by intros ->.
Qed.

Lemma pad_loop_first fuel m r n k :
  (k <= fuel)%nat -> ((n + k) mod m = r)%nat -> (forall j, (j < k)%nat -> ((n + j) mod m <> r)%nat) ->
  pad_loop fuel m r n = (n + k)%nat.
Proof.
  revert n k. induction fuel as [|fuel IH]; intros n k Hk Hr Hj; cbn [pad_loop].
  - lia.
  - destruct k as [|k].
    + rewrite Nat.add_0_r in Hr |- *. by rewrite Hr, Nat.eqb_refl.
    + assert (Hn := Hj 0%nat ltac:(lia)). rewrite Nat.add_0_r in Hn.
      apply Nat.eqb_neq in Hn. rewrite Hn. cbn [negb].
      rewrite (IH (S n) k); [lia|lia|by rewrite <- Hr; f_equal; lia|].
      intros j Hjk. specialize (Hj (S j) ltac:(lia)). by replace (S n + j)%nat with (n + S j)%nat by lia.
Qed.

Lemma upd_app_r a b j v : upd (a ++ b) (length a + j) v = a ++ upd b j v.
Proof. unfold upd. apply insert_app_r. Qed.

(** The length bytes land at the end of the buffer, big-endian. *)
Lemma write_length A x :
  for_ 0 8 (fun i buf => buf.[length A + 8 - 1 - i <- u8 (Z.shiftr x (Z.of_nat i * 8))]) (A ++ zeros 8)
  = A ++ be_bytes 8 x.
Proof.
  unfold for_. cbn [foldl seq Nat.sub].
  replace (length A + 8 - 1 - 0)%nat with (length A + 7)%nat by lia.
  replace (length A + 8 - 1 - 1)%nat with (length A + 6)%nat by lia.
  replace (length A + 8 - 1 - 2)%nat with (length A + 5)%nat by lia.
  replace (length A + 8 - 1 - 3)%nat with (length A + 4)%nat by lia.
  replace (length A + 8 - 1 - 4)%nat with (length A + 3)%nat by lia.
  replace (length A + 8 - 1 - 5)%nat with (length A + 2)%nat by lia.
  replace (length A + 8 - 1 - 6)%nat with (length A + 1)%nat by lia.
  replace (length A + 8 - 1 - 7)%nat with (length A + 0)%nat by lia.
  rewrite !upd_app_r. f_equal.
Qed.

(** The buffer the padding loops build, in closed form. *)
Lemma sha_pad_shape m r tail data k :
  (8 <= tail)%nat -> (k <= m)%nat -> ((length data + 1 + k) mod m = r)%nat ->
  (forall j, (j < k)%nat -> ((length data + 1 + j) mod m <> r)%nat) ->
  sha_pad m r tail data =
  (data ++ [0x80] ++ zeros (k + tail - 8)) ++ be_bytes 8 (u64 (Z.of_nat (length data) * 8)).
Proof.
  intros Ht Hk Hr Hj. unfold sha_pad.
  rewrite (pad_loop_first m m r (length data + 1) k) by done.
  replace (length data + 1 + k + tail - length data)%nat with (S (k + tail - 8) + 8)%nat by lia.
  assert (zeros (S (k + tail - 8) + 8) = 0 :: zeros (k + tail - 8) ++ zeros 8) as ->.
  { unfold zeros. by rewrite repeat_app. }
  assert (forall l, (data ++ 0 :: l).[length data <- 0x80] = data ++ 0x80 :: l) as ->.
  { intros l. pose proof (upd_app_r data (0 :: l) 0 0x80) as H. by rewrite Nat.add_0_r in H. }
  set (A := data ++ [0x80] ++ zeros (k + tail - 8)).
  replace (data ++ 0x80 :: zeros (k + tail - 8) ++ zeros 8) with (A ++ zeros 8)
    by (unfold A; by rewrite <- !app_assoc).
  rewrite <- write_length. apply for_ext. intros i s Hi. do 2 f_equal.
  unfold A. rewrite !length_app, length_zeros. cbn [length]. lia.
Qed.

Lemma sha_pad_fips data : sha_pad 64 56 8 data = Fips.pad256 data.
Proof.
  set (k := Z.to_nat ((55 - Z.of_nat (length data)) mod 64)).
  rewrite (sha_pad_shape 64 56 8 data k) by (try intros j; lia).
  replace (k + 8 - 8)%nat with k by lia.
  unfold Fips.pad256. fold k. rewrite <- !app_assoc. do 3 f_equal.
  rewrite Z.mul_comm, u64_mod. exact (be_bytes_mod 8 _).
Qed.

Lemma length_pad256 data : Nat.modulo (length (Fips.pad256 data)) 64 = 0%nat.
Proof. unfold Fips.pad256. rewrite !length_app, length_zeros, length_be_bytes. cbn [length]. lia. Qed.

(** The length field makes the padding injective. *)
Lemma pad256_inj a b :
  Z.of_nat (length a) < 2 ^ 61 -> Z.of_nat (length b) < 2 ^ 61 ->
  Fips.pad256 a = Fips.pad256 b -> a = b.
Proof.
  unfold Fips.pad256. intros Ha Hb H. rewrite !app_assoc in H.
  apply app_inj_2 in H as [H Hl]; [|by rewrite !length_be_bytes].
  assert (8 * Z.of_nat (length a) = 8 * Z.of_nat (length b)) as Hlen.
  { apply (f_equal be_join) in Hl. rewrite !be_join_bytes in Hl.
    change (2 ^ (8 * Z.of_nat 8)) with (2 ^ 64) in Hl. rewrite !Z.mod_small in Hl by lia. done. }
  rewrite <- !app_assoc in H. apply app_inj_1 in H as [H _]; [done|]. lia.
Qed.

Lemma get_words p i : (i < 16)%nat -> (64 <= length p)%nat -> bytes p ->
  Z.lor (Z.lor (Z.lor (Z.shiftl p.[i * 4] 24) (Z.shiftl p.[i * 4 + 1] 16)) (Z.shiftl p.[i * 4 + 2] 8))
    p.[i * 4 + 3] = be_join (slice (4 * i) 4 p).
Proof.
  intros Hi Hl Hp. rewrite slice_get_tab by lia. unfold be_join, tab. cbn [seq map foldl].
  rewrite !Z.shiftl_lor, !Z.shiftl_shiftl, Z.shiftl_0_l, Z.lor_0_l by lia.
  replace (i * 4)%nat with (4 * i + 0)%nat by lia.
  by replace (4 * i + 0 + 1)%nat with (4 * i + 1)%nat by lia;
    replace (4 * i + 0 + 2)%nat with (4 * i + 2)%nat by lia;
    replace (4 * i + 0 + 3)%nat with (4 * i + 3)%nat by lia.
Qed.

Lemma schedule_fips p : (64 <= length p)%nat -> bytes p -> sha256_schedule p = Fips.schedule p.
Proof.
  intros Hl Hp. unfold sha256_schedule, Fips.schedule.
  assert (for_ 0 16 (fun i W => W.[i <- Z.lor (Z.lor (Z.lor (Z.shiftl p.[i*4] 24) (Z.shiftl p.[i*4+1] 16))
             (Z.shiftl p.[i*4+2] 8)) p.[i*4+3]]) (zeros 64) = Fips.words p ++ zeros 48) as ->.
  { unfold Fips.words. rewrite <- grow_tab.
    apply (for_ind (fun i W => W = grow i (fun W => be_join (slice (4 * length W) 4 p)) [] ++ zeros (64 - i)) 0 16);
      [lia|done|].
    intros i W Hi ->.
    assert (Hg : length (grow i (fun W => be_join (slice (4 * length W) 4 p)) []) = i) by (rewrite length_grow; cbn; lia).
    rewrite upd_fill by lia. cbn [grow]. rewrite Hg, get_words by (done || lia).
    by replace (64 - i - 1)%nat with (64 - S i)%nat by lia. }
  apply (for_fill Fips.next_word _ _ 16 48); [apply length_tab|].
  intros i W m Hi HW Hm. f_equal. unfold Fips.next_word. rewrite HW, !get_app_zeros.
  by rewrite u32_mod.
Qed.

(** A loop over indices that reads two arrays is a fold over their pairs. *)
Lemma for_combine {S} (K W : list Z) (f : S -> Z * Z -> S) n s :
  (n <= length K)%nat -> (n <= length W)%nat ->
  for_ 0 n (fun i v => f v (K.[i], W.[i])) s = foldl f s (zip (take n K) (take n W)).
Proof.
  induction n as [|n IH]; intros HK HW; [done|].
  rewrite for_last, IH by lia.
  destruct (lookup_lt_is_Some_2 K n HK) as [x Hx], (lookup_lt_is_Some_2 W n HW) as [y Hy].
  rewrite (take_S_r K n x Hx), (take_S_r W n y Hy).
  rewrite zip_with_app by (rewrite !length_take; lia). rewrite foldl_app. cbn.
  unfold get. by rewrite !nth_lookup, Hx, Hy.
Qed.

Lemma round_fips W i v : sha256_round W i v = Fips.round v (K256.[i], W.[i]).
Proof. unfold sha256_round, Fips.round. cbn [fst snd]. by rewrite !u32_mod. Qed.

Lemma schedule_slice p : (64 <= length p)%nat -> Fips.schedule (slice 0 64 p) = Fips.schedule p.
Proof.
  intros Hl. unfold Fips.schedule. f_equal. unfold Fips.words. apply tab_ext. intros i Hi. f_equal.
  assert (length (slice 0 64 p) = 64%nat) by (apply length_slice; lia).
  rewrite !slice_get_tab by lia. apply tab_ext. intros j Hj. by rewrite get_tab by lia.
Qed.

Lemma length_schedule p : length (Fips.schedule p) = 64%nat.
Proof. unfold Fips.schedule. rewrite length_grow. unfold Fips.words. by rewrite length_tab. Qed.

Lemma length_compress s b : length s = 8%nat -> length (Fips.compress s b) = 8%nat.
Proof. intros Hs. unfold Fips.compress. rewrite length_zip_with. by rewrite Hs. Qed.

Lemma block_fips p s :
  (64 <= length p)%nat -> bytes p -> length s = 8%nat -> sha256_block p s = Fips.compress s (slice 0 64 p).
Proof.
  intros Hl Hp Hs. unfold sha256_block, Fips.compress.
  rewrite schedule_fips, schedule_slice by done.
  rewrite (for_ext 0 64 _ (fun i v => Fips.round v (K256.[i], (Fips.schedule p).[i])))
    by (intros; apply round_fips).
  rewrite for_combine by (rewrite ?length_schedule; cbn; lia).
  rewrite !take_ge by (rewrite ?length_schedule; cbn; lia).
  destruct s as [|s0 [|s1 [|s2 [|s3 [|s4 [|s5 [|s6 [|s7 [|]]]]]]]]]; try done.
  unfold Fips.of_list, get. cbn [nth].
  destruct (foldl _ _ _). cbn. by rewrite !u32_mod.
Qed.

(** The executable SHA-256 of the code is the standard's. *)
Lemma sha256_bytes_fips data : bytes data -> sha256_bytes data = Fips.sha256 data.
Proof.
  intros Hd. unfold sha256_bytes, Fips.sha256. rewrite sha_pad_fips.
  set (buf := Fips.pad256 data).
  assert (Hb : bytes buf).
  { unfold buf, Fips.pad256. rewrite !bytes_app.
    repeat split; auto with oo_bytes. by apply bytesb_ok. }
  assert (Hs : for_ 0 (length buf / 64) (fun k s => sha256_block (drop (64 * k) buf) s) sha256_iv
             = foldl Fips.compress sha256_iv (Fips.blocks 64 buf)).
  { unfold Fips.blocks, for_, tab. rewrite Nat.sub_0_r.
    enough (forall ks s, length s = 8%nat -> (forall k, In k ks -> (64 * k + 64 <= length buf)%nat) ->
      foldl (fun s i => sha256_block (drop (64 * i) buf) s) s ks
      = foldl Fips.compress s (map (fun k => slice (64 * k) 64 buf) ks)) as H.
    { apply H; [done|]. intros k Hk%in_seq. lia. }
    induction ks as [|k ks IH]; intros s Hs Hk; [done|]. cbn [foldl map].
    specialize (Hk k (or_introl eq_refl)) as Hk0.
    rewrite block_fips; [|rewrite length_drop; lia|auto with oo_bytes|done].
    rewrite IH; [done|by apply length_compress|]. intros k' Hk'. apply Hk. by right. }
  rewrite Hs, flat_map_concat_map. f_equal.
Qed.

Lemma length_sha256 data : length (sha256_bytes data) = 32%nat.
Proof.
  unfold sha256_bytes.
  set (s := for_ 0 _ _ sha256_iv).
  assert (Hs : length s = 8%nat) by (unfold s; apply (for_ind (fun _ s => length s = 8%nat)); [lia|done|done]).
  destruct s as [|s0 [|s1 [|s2 [|s3 [|s4 [|s5 [|s6 [|s7 [|]]]]]]]]]; done.
Qed.

Lemma bytes_sha256 data : bytes (sha256_bytes data).
Proof.
  unfold sha256_bytes. generalize (for_ 0 (length (sha_pad 64 56 8 data) / 64)
    (fun k s => sha256_block (drop (64 * k) (sha_pad 64 56 8 data)) s) sha256_iv).
  intros s. induction s as [|w s IH]; [constructor|]. cbn.
  repeat constructor; (apply isbyte_u8 || apply IH).
Qed.
#[export] Hint Resolve bytes_sha256 : oo_bytes.

(** * HMAC as RFC 2104 states it *)
Module Rfc2104.
Definition hmac (H : list Z -> list Z) (B : nat) (K m : list Z) : list Z :=
  let K := if (B <? length K)%nat then H K else K in
  let K := K ++ zeros (B - length K) in
  H (map (fun k => Z.lxor k 0x5c) K ++ H (map (fun k => Z.lxor k 0x36) K ++ m)).
End Rfc2104.

Lemma tab_xor K c : length K = 64%nat -> tab 64 (fun i => Z.lxor K.[i] c) = map (fun k => Z.lxor k c) K.
Proof.
  intros HK. transitivity (map (fun k => Z.lxor k c) (tab 64 (get K))).
  - unfold tab. by rewrite map_map.
  - by rewrite tab_get.
Qed.

Lemma hmac_key_block_spec K : bytes K ->
  hmac_key_block (str_of K) =
  let K' := if (64 <? length K)%nat then sha256_bytes K else K in K' ++ zeros (64 - length K').
Proof.
  intros HK. unfold hmac_key_block, str_of. cbn [sdata slen]. rewrite Nat2Z.id, take_ge by lia.
  destruct (Nat.ltb_spec 64 (length K)) as [H|H]; cbn zeta.
  - rewrite length_sha256. case_match; [done|lia].
  - case_match; [lia|]. case_match; [done|].
    destruct K; [done|]. cbn [length] in *. lia.
Qed.

Lemma length_key_block K : bytes K -> length (hmac_key_block (str_of K)) = 64%nat.
Proof.
  intros HK. rewrite hmac_key_block_spec by done. cbn zeta. rewrite length_app, length_zeros.
  case_match; [rewrite length_sha256|]; lia.
Qed.

Lemma bytes_xor_pad K c : isbyte c -> bytes K -> bytes (map (fun k => Z.lxor k c) K).
Proof. intros Hc HK. unfold bytes. rewrite Forall_map. revert HK. apply Forall_impl. intros. by apply isbyte_lxor. Qed.

Lemma hmac_spec K m : bytes K -> bytes m ->
  hmac_from_block (hmac_key_block (str_of K)) m = Rfc2104.hmac Fips.sha256 64 K m.
Proof.
  intros HK Hm. unfold hmac_from_block. rewrite !tab_xor by (by apply length_key_block).
  rewrite hmac_key_block_spec by done. unfold Rfc2104.hmac.
  set (Kb := let K' := if (64 <? length K)%nat then sha256_bytes K else K in K' ++ zeros (64 - length K')).
  assert (Hk : bytes Kb).
  { apply bytes_app. split; [case_match; auto with oo_bytes|apply bytes_zeros]. }
  assert (Hp : forall c l, isbyte c -> bytes l -> bytes (map (fun k => Z.lxor k c) Kb ++ l)).
  { intros c l Hc Hl. apply bytes_app. split; [by apply bytes_xor_pad|done]. }
  rewrite (sha256_bytes_fips (_ ++ sha256_bytes _)) by (apply Hp; [unfold isbyte; lia|apply bytes_sha256]).
  rewrite sha256_bytes_fips by (apply Hp; [unfold isbyte; lia|done]).
  unfold Kb. cbn zeta. case_match; [|done]. by rewrite sha256_bytes_fips.
Qed.

Lemma long_bytes_inj x y :
  LLONG_MIN <= x <= LLONG_MAX -> LLONG_MIN <= y <= LLONG_MAX -> long_bytes x = long_bytes y -> x = y.
Proof.
  unfold long_bytes, LLONG_MIN, LLONG_MAX. intros Hx Hy H. apply (f_equal le_join) in H.
  rewrite !le_join_bytes, !u64_mod in H. change (2 ^ (8 * Z.of_nat 8)) with 18446744073709551616 in H. lia.
Qed.

(** * Properties *)

(** the SHA-256 entry point returns the lowercase hex of the FIPS 180-4
    digest of the operand's bytes, for every well-formed operand. *)
Theorem crypto_sha256_is_fips (s : OoStr) :
  wf_str s -> crypto_sha256_internal s = str_of (hex_of (Fips.sha256 (sbytes s)) 32).
Proof.
  intros Hs. unfold crypto_sha256_internal. destruct (Z.ltb_spec (slen s) 0) as [H|_]; [destruct Hs; lia|].
  do 2 f_equal. apply (sha256_bytes_fips (sbytes s)), bytes_sbytes, Hs.
Qed.

Lemma crypto_sha256_is_fips_witness :
  crypto_sha256_internal (str_of [97; 98; 99]) = str_of (hex_of (Fips.sha256 [97; 98; 99]) 32).
Proof.
  apply (crypto_sha256_is_fips (str_of [97; 98; 99])). apply wf_str_of, bytesb_ok. reflexivity.
Defined.

(** [crypto_hmac_sha256_internal] computes RFC 2104 HMAC over FIPS 180-4
    SHA-256 for every key (long keys are hashed first) and message. *)
Theorem crypto_hmac_is_rfc2104 (K m : list Z) :
  bytes K -> bytes m ->
  crypto_hmac_sha256_internal (str_of K) (str_of m)
  = str_of (hex_of (Rfc2104.hmac Fips.sha256 64 K m) 32).
Proof.
  intros HK Hm. unfold crypto_hmac_sha256_internal. cbn [slen str_of].
  case_match; [lia|]. do 2 f_equal.
  change (hash_operand (str_of m)) with (sbytes (str_of m)).
  rewrite sbytes_str_of. by apply hmac_spec.
Qed.

Lemma crypto_hmac_is_rfc2104_witness :
  crypto_hmac_sha256_internal (str_of (repeat 0x0b 70)) (str_of [72; 105])
  = str_of (hex_of (Rfc2104.hmac Fips.sha256 64 (repeat 0x0b 70) [72; 105]) 32).
Proof. apply crypto_hmac_is_rfc2104; apply bytesb_ok; reflexivity. Defined.

(** the constant-time comparison returns 0 exactly when the two [n]-byte
    buffers are equal; every authentication check of the runtime ends in it. *)
Theorem crypto_ct_cmp_correct (x y : list Z) (n : nat) :
  bytes x -> bytes y -> length x = n -> length y = n ->
  (crypto_ct_cmp (Some x) (Some y) n = 0 <-> x = y) /\ isbyte (crypto_ct_cmp (Some x) (Some y) n).
Proof. intros Hx Hy Hlx Hly. split; [by apply crypto_ct_cmp_zero|by apply ct_cmp_range]. Qed.

Lemma crypto_ct_cmp_correct_witness :
  (crypto_ct_cmp (Some [1; 2]) (Some [1; 3]) 2 = 0 <-> [1; 2] = [1; 3])
  /\ isbyte (crypto_ct_cmp (Some [1; 2]) (Some [1; 3]) 2).
Proof. apply crypto_ct_cmp_correct; try (apply bytesb_ok); reflexivity. Defined.

(** [oo_cg_verify] accepts exactly the signature [oo_cg_sign] computes for
    the capability under the process key, and never the signature 0. *)
Theorem cg_verify_accepts_only_signature (cg_key : list Z) (cap sig : Z) :
  LLONG_MIN <= sig <= LLONG_MAX ->
  oo_cg_verify_sig cg_key cap sig = true <-> sig <> 0 /\ sig = oo_cg_calc_sig cg_key cap.
Proof.
  intros Hs. unfold oo_cg_verify_sig.
  assert (Hr : LLONG_MIN <= oo_cg_calc_sig cg_key cap <= LLONG_MAX).
  { unfold LLONG_MIN, LLONG_MAX, oo_cg_calc_sig. pose proof (i64_range (for_ 0 8
      (fun i sig => Z.lor (u64 (Z.shiftl sig 8)) (hmac_from_block (take 32 cg_key ++ zeros 32)
        (tab 8 (fun i => u8 (Z.shiftr (u64 cap) (Z.of_nat (7 - i) * 8))))).[i]) 0)). lia. }
  destruct (Z.eqb_spec sig 0) as [->|Hne]; [naive_solver|].
  rewrite Z.eqb_eq, crypto_ct_cmp_zero; try apply bytes_le_bytes; try apply length_le_bytes.
  split; [intros H; split; [done|by apply long_bytes_inj]|by intros [_ <-]].
Qed.

Lemma cg_verify_accepts_only_signature_witness :
  oo_cg_verify_sig (repeat 7 32) 42 5 = true <-> 5 <> 0 /\ 5 = oo_cg_calc_sig (repeat 7 32) 42.
Proof. apply cg_verify_accepts_only_signature. split; discriminate. Defined.
