(* ===== verification/Md.v ===== *)
(** The legacy digests MD5 and SHA-1 ([sec/crypto/hash.c]).

    Words are read through a [uint32_t] cast (MD5: little-endian host) or
    assembled big-endian (SHA-1); the padding of each is given in closed
    form, and the RFC vectors are checked by evaluation. *)
From S2P Require Import Prelude Str Hex Sha2.
From Stdlib Require String.
Import (notations) String.
Open Scope Z_scope.

(** [LR(x, c)]: rotate left on [uint32_t]. *)
Definition LR (x c : Z) : Z := u32 (Z.lor (Z.shiftl x c) (Z.shiftr x (32 - c))).

(** * MD5 *)

Definition md5_r : list Z := [
  7;12;17;22;7;12;17;22;7;12;17;22;7;12;17;22;5;9;14;20;5;9;14;20;5;9;14;20;5;9;14;20;
  4;11;16;23;4;11;16;23;4;11;16;23;4;11;16;23;6;10;15;21;6;10;15;21;6;10;15;21;6;10;15;21].
Definition md5_k : list Z := [
  0xd76aa478; 0xe8c7b756; 0x242070db; 0xc1bdceee; 0xf57c0faf; 0x4787c62a; 0xa8304613; 0xfd469501;
  0x698098d8; 0x8b44f7af; 0xffff5bb1; 0x895cd7be; 0x6b901122; 0xfd987193; 0xa679438e; 0x49b40821;
  0xf61e2562; 0xc040b340; 0x265e5a51; 0xe9b6c7aa; 0xd62f105d; 0x02441453; 0xd8a1e681; 0xe7d3fbc8;
  0x21e1cde6; 0xc33707d6; 0xf4d50d87; 0x455a14ed; 0xa9e3e905; 0xfcefa3f8; 0x676f02d9; 0x8d2a4c8a;
  0xfffa3942; 0x8771f681; 0x6d9d6122; 0xfde5380c; 0xa4beea44; 0x4bdecfa9; 0xf6bb4b60; 0xbebfbc70;
  0x289b7ec6; 0xeaa127fa; 0xd4ef3085; 0x04881d05; 0xd9d4d039; 0xe6db99e5; 0x1fa27cf8; 0xc4ac5665;
  0xf4292244; 0x432aff97; 0xab9423a7; 0xfc93a039; 0x655b59c3; 0x8f0ccc92; 0xffeff47d; 0x85845dd1;
  0x6fa87e4f; 0xfe2ce6e0; 0xa3014314; 0x4e0811a1; 0xf7537e82; 0xbd3af235; 0x2ad7d2bb; 0xeb86d391].

Record md5_vars := mkMd5 { ma : Z; mb : Z; mc : Z; md : Z }.

Definition md5_step (w : nat -> Z) (i : nat) (v : md5_vars) : md5_vars :=
  let '(mkMd5 a b c d) := v in
  let not x := u32 (Z.lnot x) in
  let '(f, g) :=
    if (i <? 16)%nat then (Z.lor (Z.land b c) (Z.land (not b) d), i)
    else if (i <? 32)%nat then (Z.lor (Z.land d b) (Z.land (not d) c), (5 * i + 1) mod 16)%nat
    else if (i <? 48)%nat then (Z.lxor (Z.lxor b c) d, (3 * i + 5) mod 16)%nat
    else (Z.lxor c (Z.lor b (not d)), (7 * i) mod 16)%nat in
  let temp := d in
  let d := c in
  let c := b in
  let b := u32 (b + LR (u32 (a + f + md5_k.[i] + w g)) md5_r.[i]) in
  mkMd5 temp b c d.

(** The padded message: [new_len] bytes are hashed, the length sits at
    [new_len .. new_len + 7] of the [new_len + 64] allocated. *)
Definition md5_new_len (len : nat) : nat := ((((len + 8) / 64) + 1) * 64 - 8)%nat.
Definition md5_msg (data : list Z) : list Z :=
  let len := length data in
  let new_len := md5_new_len len in
  let msg := data ++ zeros (new_len + 64 - len) in
  let msg := msg.[len <- 128] in
  let bits := le_bytes 8 (u64 (Z.of_nat len * 8)) in
  for_ 0 8 (fun i msg => msg.[new_len + i <- bits.[i]]) msg.

Definition md5_block (msg : list Z) (offset : nat) (h : md5_vars) : md5_vars :=
  let w i := le_join (slice (offset + 4 * i) 4 msg) in
  let '(mkMd5 a b c d) := for_ 0 64 (md5_step w) h in
  mkMd5 (u32 (ma h + a)) (u32 (mb h + b)) (u32 (mc h + c)) (u32 (md h + d)).

(** [for (offset = 0; offset < new_len; offset += 64)]. *)
Definition md5_bytes (data : list Z) : list Z :=
  let msg := md5_msg data in
  let new_len := md5_new_len (length data) in
  let h := for_ 0 ((new_len + 63) / 64) (fun k h => md5_block msg (64 * k) h)
             (mkMd5 0x67452301 0xefcdab89 0x98badcfe 0x10325476) in
  le_bytes 4 (ma h) ++ le_bytes 4 (mb h) ++ le_bytes 4 (mc h) ++ le_bytes 4 (md h).

Definition crypto_md5_internal (d : OoStr) : OoStr :=
  if slen d <? 0 then str_null else hex_encode_n (md5_bytes (hash_operand d)) 16.

(** * SHA-1 *)

Definition sha1_total (len : nat) : nat :=
  let pad := if (len mod 64 <? 56)%nat then (56 - len mod 64)%nat else (120 - len mod 64)%nat in
  (len + pad + 8)%nat.

Definition sha1_msg (str : list Z) : list Z :=
  let len := length str in
  let ml := u64 (Z.of_nat len * 8) in
  let total := sha1_total len in
  let msg := str ++ zeros (total - len) in
  let msg := msg.[len <- 0x80] in
  for_ 0 8 (fun i msg =>
    msg.[total - 8 + i <- u8 (Z.land (Z.shiftr ml (8 * (7 - Z.of_nat i))) 0xff)]) msg.

Record sha1_vars := mkSha1 { s1a : Z; s1b : Z; s1c : Z; s1d : Z; s1e : Z }.

Definition sha1_schedule (msg : list Z) (chunk : nat) : list Z :=
  let w := for_ 0 16 (fun i w =>
    w.[i <- Z.lor (Z.lor (Z.lor (Z.shiftl msg.[chunk+i*4] 24) (Z.shiftl msg.[chunk+i*4+1] 16))
                         (Z.shiftl msg.[chunk+i*4+2] 8)) msg.[chunk+i*4+3]]) (zeros 80) in
  for_ 16 80 (fun i w =>
    let temp := Z.lxor (Z.lxor (Z.lxor w.[i-3] w.[i-8]) w.[i-14]) w.[i-16] in
    w.[i <- LR temp 1]) w.

Definition sha1_step (w : list Z) (i : nat) (v : sha1_vars) : sha1_vars :=
  let '(mkSha1 a b c d e) := v in
  let '(f, k) :=
    if (i <? 20)%nat then (Z.lor (Z.land b c) (Z.land (u32 (Z.lnot b)) d), 0x5A827999)
    else if (i <? 40)%nat then (Z.lxor (Z.lxor b c) d, 0x6ED9EBA1)
    else if (i <? 60)%nat then (Z.lor (Z.lor (Z.land b c) (Z.land b d)) (Z.land c d), 0x8F1BBCDC)
    else (Z.lxor (Z.lxor b c) d, 0xCA62C1D6) in
  let temp := u32 (LR a 5 + f + e + k + w.[i]) in
  mkSha1 temp a (LR b 30) c d.

Definition sha1_bytes (str : list Z) : list Z :=
  let msg := sha1_msg str in
  let h := for_ 0 (sha1_total (length str) / 64) (fun n h =>
    let w := sha1_schedule msg (64 * n) in
    let v := for_ 0 80 (sha1_step w) h in
    mkSha1 (u32 (s1a h + s1a v)) (u32 (s1b h + s1b v)) (u32 (s1c h + s1c v))
           (u32 (s1d h + s1d v)) (u32 (s1e h + s1e v)))
    (mkSha1 0x67452301 0xEFCDAB89 0x98BADCFE 0x10325476 0xC3D2E1F0) in
  flat_map (fun x => tab 4 (fun i => Z.land (Z.shiftr x (24 - Z.of_nat i * 8)) 0xFF))
    [s1a h; s1b h; s1c h; s1d h; s1e h].

Definition crypto_sha1_internal (d : OoStr) : OoStr :=
  if slen d <? 0 then str_null else hex_encode_n (sha1_bytes (hash_operand d)) 20.

(** * Vectors *)

Example md5_abc : sbytes (crypto_md5_internal (oo_str_lit "abc")) = ascii_bytes "900150983cd24fb0d6963f7d28e17f72".
Proof. vm_compute. reflexivity. Qed.
Example sha1_abc : sbytes (crypto_sha1_internal (oo_str_lit "abc")) = ascii_bytes "a9993e364706816aba3e25717850c26c9cd0d89d".
Proof. vm_compute. reflexivity. Qed.

(** * Padding *)

(** Writing eight cells past a prefix. *)
Lemma write_tail A (f : nat -> Z) n :
  for_ 0 8 (fun i m => m.[length A + i <- f i]) (A ++ zeros (8 + n)) = A ++ tab 8 f ++ zeros n.
Proof.
  unfold for_. cbn [foldl seq Nat.sub]. rewrite !upd_app_r. f_equal.
Qed.

Lemma mark_end data n : (data ++ zeros (S n)).[length data <- 0x80] = (data ++ [0x80]) ++ zeros n.
Proof.
  pose proof (upd_app_r data (zeros (S n)) 0 0x80) as H. rewrite Nat.add_0_r in H. rewrite H.
  by rewrite <- app_assoc.
Qed.

(** SHA-1 pads as FIPS 180-4 does, SHA-256's padding being the same. *)
Lemma sha1_msg_fips data : sha1_msg data = Fips.pad256 data.
Proof.
  unfold sha1_msg, Fips.pad256.
  set (k := Z.to_nat ((55 - Z.of_nat (length data)) mod 64)).
  assert (Ht : sha1_total (length data) = (length data + 1 + k + 8)%nat).
  { unfold sha1_total. case_match; lia. }
  rewrite Ht. replace (length data + 1 + k + 8 - length data)%nat with (S (k + 8)) by lia.
  rewrite mark_end.
  assert (zeros (k + 8) = zeros k ++ zeros (8 + 0)) as -> by (unfold zeros; by rewrite repeat_app).
  rewrite (app_assoc _ (zeros k)).
  assert (HA : length ((data ++ [0x80]) ++ zeros k) = (length data + 1 + k)%nat)
    by (rewrite !length_app, length_zeros; done).
  replace (length data + 1 + k + 8 - 8)%nat with (length ((data ++ [0x80]) ++ zeros k)) by lia.
  rewrite write_tail, app_nil_r, <- !app_assoc. do 3 f_equal.
  rewrite Z.mul_comm. rewrite <- (be_bytes_mod 8). change (2 ^ (8 * Z.of_nat 8)) with 18446744073709551616.
  rewrite <- u64_mod. generalize (u64 (8 * Z.of_nat (length data))). intros x.
  unfold be_bytes, tab. cbn -[u8 Z.shiftr Z.land].
  rewrite !Z.shiftr_shiftr by lia. rewrite Z.shiftr_0_r.
  cbn -[Z.shiftr Z.land]. unfold u8. rewrite <- !Z.land_assoc. done.
Qed.

(** MD5's padding in closed form (RFC 1321, 3.1 and 3.2). *)
Lemma md5_msg_rfc data :
  take (md5_new_len (length data) + 8) (md5_msg data) =
  data ++ [128] ++ zeros (Z.to_nat ((55 - Z.of_nat (length data)) mod 64))
    ++ le_bytes 8 (8 * Z.of_nat (length data)).
Proof.
  unfold md5_msg. set (k := Z.to_nat ((55 - Z.of_nat (length data)) mod 64)).
  assert (Ht : md5_new_len (length data) = (length data + 1 + k)%nat) by (unfold md5_new_len; lia).
  rewrite Ht. replace (length data + 1 + k + 64 - length data)%nat with (S (k + 64)) by lia.
  rewrite mark_end.
  assert (zeros (k + 64) = zeros k ++ zeros (8 + 56)) as -> by (unfold zeros; by rewrite repeat_app).
  rewrite (app_assoc _ (zeros k)).
  assert (HA : length ((data ++ [0x80]) ++ zeros k) = (length data + 1 + k)%nat)
    by (rewrite !length_app, length_zeros; done).
  rewrite <- HA, write_tail, (app_assoc _ (tab 8 _)), take_app_length' by (rewrite !length_app, length_tab; lia).
  rewrite <- !app_assoc. do 3 f_equal.
  transitivity (tab 8 (get (le_bytes 8 (u64 (Z.of_nat (length data) * 8))))); [done|].
  rewrite (tab_get _ 8) by (exact (length_le_bytes 8 _)). rewrite Z.mul_comm, u64_mod. exact (le_bytes_mod 8 _).
Qed.

Lemma md5_msg_blocks (data : list Z) : Nat.modulo (md5_new_len (length data) + 8) 64 = 0%nat.
Proof. unfold md5_new_len. lia. Qed.

(** * Properties *)

(** MD5 and SHA-1 hash the padded message of their standards: the marker,
    the least number of zero bytes and the 64-bit length (little-endian for
    MD5, big-endian for SHA-1), a whole number of 64-byte blocks. *)
Theorem legacy_padding (data : list Z) :
  sha1_msg data = Fips.pad256 data
  /\ take (md5_new_len (length data) + 8) (md5_msg data)
     = data ++ [128] ++ zeros (Z.to_nat ((55 - Z.of_nat (length data)) mod 64))
         ++ le_bytes 8 (8 * Z.of_nat (length data))
  /\ ((sha1_total (length data)) mod 64 = 0 /\ (md5_new_len (length data) + 8) mod 64 = 0)%nat.
Proof.
  split; [apply sha1_msg_fips|]. split; [apply md5_msg_rfc|]. split; [|apply md5_msg_blocks].
  unfold sha1_total. case_match; lia.
Qed.
