(* ===== verification/Keccak.v ===== *)
(** SHA-3 and SHAKE ([sec/crypto/sha3.c]): the Keccak-f[1600] permutation on
    an array of 25 lanes and the sponge [keccak_absorb_squeeze].

    [Fips202] states the standard's step mappings on lane coordinates, its
    offsets and round constants as generated by their defining recurrences,
    the padding and the squeezed stream; the code refines them. *)
From S2P Require Import Prelude Str Hex Sha2.
From Stdlib Require String.
Import (notations) String.
Open Scope Z_scope.

Definition k_keccak_rc : list Z := [
  0x0000000000000001; 0x0000000000008082; 0x800000000000808a;
  0x8000000080008000; 0x000000000000808b; 0x0000000080000001;
  0x8000000080008081; 0x8000000000008009; 0x000000000000008a;
  0x0000000000000088; 0x0000000080008009; 0x000000008000000a;
  0x000000008000808b; 0x800000000000008b; 0x8000000000008089;
  0x8000000000008003; 0x8000000000008002; 0x8000000000000080;
  0x000000000000800a; 0x800000008000000a; 0x8000000080008081;
  0x8000000000008080; 0x0000000080000001; 0x8000000080008008].
Definition k_keccak_rot : list Z := [
  1; 3; 6; 10; 15; 21; 28; 36; 45; 55; 2; 14;
  27; 41; 56; 8; 25; 43; 62; 18; 39; 61; 20; 44].
Definition k_keccak_pil : list Z := [
  10; 7; 11; 17; 18; 3; 5; 16; 8; 21; 24; 4;
  15; 23; 19; 13; 12; 2; 20; 14; 22; 9; 6; 1].

Definition k_rotl64 (x n : Z) : Z := u64 (Z.lor (Z.shiftl x n) (Z.shiftr x (64 - n))).

(** The five steps of the loop body, in order. *)
Definition kf_theta (st : list Z) : list Z :=
  let bc := tab 5 (fun i => Z.lxor (Z.lxor (Z.lxor (Z.lxor st.[i] st.[i+5]) st.[i+10]) st.[i+15]) st.[i+20]) in
  for_ 0 5 (fun i st =>
    let t := Z.lxor bc.[(i + 4) mod 5] (k_rotl64 bc.[(i + 1) mod 5] 1) in
    for_ 0 5 (fun k st => let j := (5 * k)%nat in st.[j + i <- Z.lxor st.[j + i] t]) st) st.

Definition kf_rho_pi (st : list Z) : list Z :=
  fst (for_ 0 24 (fun i '(st, t) =>
    let j := Z.to_nat k_keccak_pil.[i] in
    let bc0 := st.[j] in
    (st.[j <- k_rotl64 t k_keccak_rot.[i]], bc0)) (st, st.[1])).

Definition kf_chi (st : list Z) : list Z :=
  for_ 0 5 (fun k st =>
    let j := (5 * k)%nat in
    let a0 := st.[j] in let a1 := st.[j + 1] in let a2 := st.[j + 2] in
    let a3 := st.[j + 3] in let a4 := st.[j + 4] in
    let not x := u64 (Z.lnot x) in
    let st := st.[j <- Z.lxor a0 (Z.land (not a1) a2)] in
    let st := st.[j + 1 <- Z.lxor a1 (Z.land (not a2) a3)] in
    let st := st.[j + 2 <- Z.lxor a2 (Z.land (not a3) a4)] in
    let st := st.[j + 3 <- Z.lxor a3 (Z.land (not a4) a0)] in
    st.[j + 4 <- Z.lxor a4 (Z.land (not a0) a1)]) st.

Definition keccak_round (round : nat) (st : list Z) : list Z :=
  let st := kf_chi (kf_rho_pi (kf_theta st)) in
  st.[0 <- Z.lxor st.[0] k_keccak_rc.[round]].

Definition keccak_f (st : list Z) : list Z := for_ 0 24 keccak_round st.

(** [for (i = 0; i < rate / 8; i++) st[i] ^= lane]. *)
Definition xor_lanes (rate : nat) (blk : list Z) (st : list Z) : list Z :=
  for_ 0 (rate / 8) (fun i st => st.[i <- Z.lxor st.[i] (le_join (slice (i * 8) 8 blk))]) st.

(** [while (inlen >= rate)]; every pass consumes [rate] bytes. *)
Fixpoint kas_absorb (fuel rate : nat) (inp : list Z) (st : list Z) : list Z * list Z :=
  match fuel with
  | O => (st, inp)
  | S fuel =>
      if (rate <=? length inp)%nat
      then kas_absorb fuel rate (drop rate inp) (keccak_f (xor_lanes rate inp st))
      else (st, inp)
  end.

(** The state's bytes in memory. *)
Definition lane_bytes (st : list Z) : list Z := flat_map (le_bytes 8) st.

(** [while (outlen > 0)]. *)
Fixpoint kas_squeeze (fuel rate outlen : nat) (st : list Z) : list Z :=
  match fuel with
  | O => []
  | S fuel =>
      if (0 <? outlen)%nat then
        let n := if (outlen <? rate)%nat then outlen else rate in
        let out := take n (lane_bytes st) in
        let outlen := (outlen - n)%nat in
        out ++ kas_squeeze fuel rate outlen (if (0 <? outlen)%nat then keccak_f st else st)
      else []
  end.

Definition keccak_absorb_squeeze (inp : list Z) (outlen rate : nat) (ds : Z) : list Z :=
  let '(st, inp) := kas_absorb (length inp) rate inp (zeros 25) in
  let inlen := length inp in
  let blk := inp ++ zeros (200 - inlen) in
  let blk := blk.[inlen <- Z.lxor blk.[inlen] ds] in
  let blk := blk.[rate - 1 <- Z.lxor blk.[rate - 1] 0x80] in
  let st := keccak_f (xor_lanes rate blk st) in
  kas_squeeze outlen rate outlen st.

Definition oo_sha3_256_bytes (inp : list Z) : list Z := keccak_absorb_squeeze inp 32 136 0x06.
Definition oo_sha3_512_bytes (inp : list Z) : list Z := keccak_absorb_squeeze inp 64 72 0x06.
Definition oo_shake128 (inp : list Z) (outn : nat) : list Z := keccak_absorb_squeeze inp outn 168 0x1f.
Definition oo_shake256 (inp : list Z) (outn : nat) : list Z := keccak_absorb_squeeze inp outn 136 0x1f.

Definition crypto_sha3_256_internal (d : OoStr) : OoStr :=
  if slen d <? 0 then str_null else oo_crypto_hex (oo_sha3_256_bytes (hash_operand d)) 32.

Example sha3_abc : sbytes (crypto_sha3_256_internal (oo_str_lit "abc")) =
  ascii_bytes "3a985da74fe225b2045c172d6bd390bd855f086e3e9d525b46bfe24511431532".
Proof. vm_compute. reflexivity. Qed.

(** * FIPS 202 *)
Module Fips202.
(** Rotation of a 64-bit lane, as arithmetic. *)
Definition ROT (x n : Z) : Z := (x * 2 ^ n) mod 2 ^ 64 + x / 2 ^ (64 - n).

Definition lane (A : list Z) (x y : nat) : Z := A.[x mod 5 + 5 * (y mod 5)].
(** The state array whose lane [(x, y)] is [f x y]. *)
Definition mk (f : nat -> nat -> Z) : list Z := tab 25 (fun i => f (i mod 5)%nat (i / 5)%nat).

Definition column (A : list Z) (x : nat) : Z :=
  Z.lxor (Z.lxor (Z.lxor (Z.lxor (lane A x 0) (lane A x 1)) (lane A x 2)) (lane A x 3)) (lane A x 4).

Definition theta (rot : Z -> Z -> Z) (A : list Z) : list Z :=
  mk (fun x y => Z.lxor (lane A x y) (Z.lxor (column A (x + 4)) (rot (column A (x + 1)) 1))).

(** The offsets: start at [(1, 0)], step to [(y, 2x + 3y)]; the [t]-th
    visited lane rotates by [(t + 1)(t + 2) / 2]. *)
Fixpoint offsets (fuel : nat) (t x y : nat) : list (nat * nat * Z) :=
  match fuel with
  | O => []
  | S fuel => (x, y, Z.of_nat ((t + 1) * (t + 2) / 2) mod 64)
              :: offsets fuel (S t) y ((2 * x + 3 * y) mod 5)
  end.
Definition offset (x y : nat) : Z :=
  match find (fun '(a, b, _) => (a =? x)%nat && (b =? y)%nat) (offsets 24 0 1 0) with
  | Some (_, o) => o
  | None => 0
  end.

Definition rho (rot : Z -> Z -> Z) (A : list Z) : list Z := mk (fun x y => rot (lane A x y) (offset x y)).
Definition pi (A : list Z) : list Z := mk (fun x y => lane A (x + 3 * y) x).
Definition chi (A : list Z) : list Z :=
  mk (fun x y => Z.lxor (lane A x y) (Z.land (u64 (Z.lnot (lane A (x + 1) y))) (lane A (x + 2) y))).

(** The round-constant bit [rc t]: [t] steps of the LFSR on eight bits. *)
Definition lfsr (R : list bool) : list bool :=
  let R := false :: R in
  let r8 := nth 8 R false in
  take 8 (imap (fun i b => if existsb (Nat.eqb i) [0; 4; 5; 6]%nat then xorb b r8 else b) R).
Definition rc (t : nat) : bool :=
  nth 0 (Nat.iter t lfsr [true; false; false; false; false; false; false; false]) false.
Definition RC (ir : nat) : Z :=
  foldl (fun acc j => if rc (j + 7 * ir) then Z.lor acc (2 ^ (2 ^ Z.of_nat j - 1)) else acc) 0 (seq 0 7).

Definition iota (ir : nat) (A : list Z) : list Z :=
  mk (fun x y => if ((x =? 0) && (y =? 0))%nat then Z.lxor (lane A x y) (RC ir) else lane A x y).

Definition round (ir : nat) (A : list Z) : list Z := iota ir (chi (pi (rho ROT (theta ROT A)))).
Definition keccak_p (A : list Z) : list Z := foldl (fun A ir => round ir A) A (seq 0 24).

(** pad10*1 behind the domain bits [ds], to a multiple of [rate] bytes. *)
Definition pad (rate : nat) (ds : Z) (m : list Z) : list Z :=
  let q := (rate - length m mod rate)%nat in
  m ++ (if (q =? 1)%nat then [Z.lxor ds 0x80] else [ds] ++ zeros (q - 2) ++ [0x80]).

(** Absorb block by block; the output is a prefix of the endless stream of
    [rate]-byte pieces of the successive states. *)
Definition absorb (rate : nat) (P : list Z) : list Z :=
  foldl (fun st k => keccak_p (xor_lanes rate (slice (rate * k) rate P) st)) (zeros 25)
    (seq 0 (length P / rate)).
Definition stream (rate n : nat) (st : list Z) : list Z :=
  concat (tab n (fun i => take rate (lane_bytes (Nat.iter i keccak_p st)))).
Definition sponge (rate : nat) (ds : Z) (m : list Z) (outlen : nat) : list Z :=
  take outlen (stream rate outlen (absorb rate (pad rate ds m))).
End Fips202.

(** * Lanes stay 64-bit *)

Definition islane (x : Z) : Prop := 0 <= x < 2 ^ 64.
Definition lanes (st : list Z) : Prop := length st = 25%nat /\ Forall islane st.

Lemma lanes_length st : lanes st -> length st = 25%nat.
Proof. by intros []. Qed.
Lemma lanes_get st i : lanes st -> islane st.[i].
Proof.
  intros [_ H]. destruct (Nat.lt_ge_cases i (length st)) as [Hi|Hi].
  - unfold get. rewrite nth_lookup. destruct (lookup_lt_is_Some_2 st i Hi) as [x Hx].
    rewrite Hx. cbn. by eapply Forall_lookup_1 in H.
  - rewrite get_overflow by done. done.
Qed.

Lemma lanes_tab f : (forall i, (i < 25)%nat -> islane (f i)) -> lanes (tab 25 f).
Proof.
  intros H. split; [apply length_tab|]. unfold tab. rewrite Forall_map. apply Forall_forall.
  intros i Hi%in_seq. apply H. lia.
Qed.

Lemma lanes_zeros : lanes (zeros 25).
Proof. split; [done|]. repeat constructor; done. Qed.

Lemma islane_lxor a b : islane a -> islane b -> islane (Z.lxor a b).
Proof. apply lxor_range. lia. Qed.
Lemma islane_land_r a b : islane b -> islane (Z.land a b).
Proof.
  unfold islane. intros Hb. replace b with (Z.land b (2 ^ 64 - 1)).
  - rewrite Z.land_assoc, (land_mod _ 64) by lia. lia.
  - rewrite (land_mod _ 64) by lia. lia.
Qed.
Lemma islane_rotl x n : islane (k_rotl64 x n).
Proof. apply u64_range. Qed.
Create HintDb oo_lanes.
#[export] Hint Resolve lanes_get lanes_tab lanes_zeros islane_lxor islane_land_r islane_rotl : oo_lanes.

Lemma rotl_spec x n : islane x -> 0 <= n <= 64 -> k_rotl64 x n = Fips202.ROT x n.
Proof.
  unfold islane, k_rotl64, Fips202.ROT. intros Hx Hn.
  assert (Hp : 2 ^ 64 = 2 ^ (64 - n) * 2 ^ n) by (rewrite <- Z.pow_add_r by lia; f_equal; lia).
  rewrite Z.shiftl_mul_pow2, Z.shiftr_div_pow2 by lia.
  assert (Hr : 0 <= x / 2 ^ (64 - n) < 2 ^ n).
  { split; [apply Z.div_pos; lia|]. apply Z.div_lt_upper_bound; lia. }
  rewrite Z.lor_comm, lor_add by lia. rewrite u64_mod. change 18446744073709551616 with (2 ^ 64).
  rewrite Hp, Z.mul_mod_distr_r by lia.
  pose proof (Z.mod_pos_bound x (2 ^ (64 - n)) ltac:(lia)).
  rewrite (Z.div_mod x (2 ^ (64 - n))) at 2 by lia.
  set (q := x / 2 ^ (64 - n)) in *. set (r := x mod 2 ^ (64 - n)) in *.
  replace (q + (2 ^ (64 - n) * q + r) * 2 ^ n) with (q + r * 2 ^ n + q * (2 ^ (64 - n) * 2 ^ n)) by ring.
  rewrite Z.mod_add by nia. rewrite Z.mod_small by nia. lia.
Qed.

(** * The step mappings *)

Lemma lanes_25 (st : list Z) : length st = 25%nat -> exists a0 a1 a2 a3 a4 a5 a6 a7 a8 a9 a10 a11 a12 a13 a14
  a15 a16 a17 a18 a19 a20 a21 a22 a23 a24, st = [a0; a1; a2; a3; a4; a5; a6; a7; a8; a9; a10; a11; a12;
  a13; a14; a15; a16; a17; a18; a19; a20; a21; a22; a23; a24].
Proof.
  intros H. do 25 (destruct st as [|? st]; [discriminate|]). destruct st; [|discriminate].
  by repeat eexists.
Qed.

(** Both sides become explicit lists of lane expressions. *)
Ltac explicit_lanes H :=
  destruct (lanes_25 _ H) as (?&?&?&?&?&?&?&?&?&?&?&?&?&?&?&?&?&?&?&?&?&?&?&?&?&->);
  lazy -[Z.lxor Z.land k_rotl64 u64 Z.lnot]; reflexivity.

Lemma kf_theta_spec st : length st = 25%nat -> kf_theta st = Fips202.theta k_rotl64 st.
Proof. intros H. explicit_lanes H. Qed.
Lemma kf_rho_pi_spec st :
  length st = 25%nat -> k_rotl64 st.[0] 0 = st.[0] -> kf_rho_pi st = Fips202.pi (Fips202.rho k_rotl64 st).
Proof.
  intros H. destruct (lanes_25 _ H) as (?&?&?&?&?&?&?&?&?&?&?&?&?&?&?&?&?&?&?&?&?&?&?&?&?&->).
  intros H0. lazy -[Z.lxor Z.land k_rotl64 u64 Z.lnot] in H0 |- *. by rewrite H0.
Qed.
Lemma kf_chi_spec st : length st = 25%nat -> kf_chi st = Fips202.chi st.
Proof. intros H. explicit_lanes H. Qed.

Lemma iota_spec ir st : (ir < 24)%nat -> length st = 25%nat ->
  st.[0 <- Z.lxor st.[0] k_keccak_rc.[ir]] = Fips202.iota ir st.
Proof.
  intros Hi H. assert (k_keccak_rc.[ir] = Fips202.RC ir) as ->.
  { do 24 (destruct ir as [|ir]; [vm_compute; reflexivity|]). lia. }
  unfold Fips202.iota. generalize (Fips202.RC ir) as c. intros c. explicit_lanes H.
Qed.

Lemma lane_islane st x y : lanes st -> islane (Fips202.lane st x y).
Proof. intros. by apply lanes_get. Qed.
#[export] Hint Resolve lane_islane : oo_lanes.
Lemma column_islane st x : lanes st -> islane (Fips202.column st x).
Proof. intros. unfold Fips202.column. auto 8 with oo_lanes. Qed.
#[export] Hint Resolve column_islane : oo_lanes.

Lemma lanes_mk f : (forall x y, islane (f x y)) -> lanes (Fips202.mk f).
Proof. intros H. by apply lanes_tab. Qed.

Lemma mk_ext f g :
  (forall x y, (x < 5)%nat -> (y < 5)%nat -> f x y = g x y) -> Fips202.mk f = Fips202.mk g.
Proof. intros H. apply tab_ext. intros i Hi. apply H; lia. Qed.

Lemma offsets_range n t x y e : In e (Fips202.offsets n t x y) -> 0 <= snd e <= 64.
Proof.
  revert t x y. induction n as [|n IH]; intros t x y; [done|].
  cbn [Fips202.offsets In]. intros [<-|E]; [cbn [snd]; lia|by apply IH in E].
Qed.
Lemma offset_range x y : 0 <= Fips202.offset x y <= 64.
Proof.
  unfold Fips202.offset. destruct (find _ _) as [[[a b] o]|] eqn:E; [|lia].
  apply find_some in E as [E _]. by apply offsets_range in E.
Qed.

Lemma theta_rot st : lanes st -> Fips202.theta k_rotl64 st = Fips202.theta Fips202.ROT st.
Proof.
  intros H. apply mk_ext. intros x y _ _. rewrite rotl_spec; [done|auto with oo_lanes|lia].
Qed.
Lemma rho_rot st : lanes st -> Fips202.rho k_rotl64 st = Fips202.rho Fips202.ROT st.
Proof.
  intros H. apply mk_ext. intros x y _ _. apply rotl_spec; [auto with oo_lanes|].
  apply offset_range.
Qed.

Lemma rotl_0 x : islane x -> k_rotl64 x 0 = x.
Proof.
  intros H. rewrite rotl_spec by (done || lia). unfold Fips202.ROT, islane in *.
  change (2 ^ 0) with 1. change (64 - 0) with 64. rewrite Z.mul_1_r, Z.mod_small, Z.div_small; lia.
Qed.

Lemma lanes_theta st : lanes st -> lanes (Fips202.theta k_rotl64 st).
Proof. intros H. apply lanes_mk. intros. auto 8 with oo_lanes. Qed.
Lemma lanes_rho st : lanes st -> lanes (Fips202.rho k_rotl64 st).
Proof. intros H. apply lanes_mk. intros. auto 8 with oo_lanes. Qed.
Lemma lanes_pi st : lanes st -> lanes (Fips202.pi st).
Proof. intros H. apply lanes_mk. intros. auto 8 with oo_lanes. Qed.
Lemma lanes_chi st : lanes st -> lanes (Fips202.chi st).
Proof. intros H. apply lanes_mk. intros. auto 8 with oo_lanes. Qed.
#[export] Hint Resolve lanes_theta lanes_rho lanes_pi lanes_chi : oo_lanes.

Lemma keccak_round_spec ir st : (ir < 24)%nat -> lanes st -> keccak_round ir st = Fips202.round ir st.
Proof.
  intros Hi H. unfold keccak_round, Fips202.round.
  assert (Ht := lanes_theta _ H).
  rewrite kf_theta_spec by auto using lanes_length.
  rewrite kf_rho_pi_spec by auto using lanes_length, rotl_0 with oo_lanes.
  rewrite kf_chi_spec by auto using lanes_length with oo_lanes.
  rewrite iota_spec by auto using lanes_length with oo_lanes.
  rewrite rho_rot by auto with oo_lanes. by rewrite theta_rot.
Qed.

Lemma lanes_iota ir st : (ir < 24)%nat -> lanes st -> lanes (Fips202.iota ir st).
Proof.
  intros Hi H. apply lanes_mk. intros x y. case_match; [|auto with oo_lanes].
  apply islane_lxor; [auto with oo_lanes|]. unfold islane.
  do 24 (destruct ir as [|ir]; [vm_compute; split; done|]). lia.
Qed.

Lemma keccak_round_lanes ir st : (ir < 24)%nat -> lanes st -> lanes (keccak_round ir st).
Proof.
  intros Hi H. rewrite keccak_round_spec by done. apply lanes_iota; [done|].
  rewrite <- theta_rot by done. rewrite <- rho_rot by auto with oo_lanes. auto with oo_lanes.
Qed.

Lemma keccak_f_lanes st : lanes st -> lanes (keccak_f st).
Proof.
  intros H. unfold keccak_f. apply (for_ind (fun _ => lanes)); [lia|done|].
  intros. apply keccak_round_lanes; [lia|done].
Qed.

Lemma keccak_f_spec st : lanes st -> keccak_f st = Fips202.keccak_p st /\ lanes (keccak_f st).
Proof.
  intros H. split; [|by apply keccak_f_lanes].
  change (Fips202.keccak_p st) with (for_ 0 24 Fips202.round st).
  apply (for_rel (fun s t => s = t /\ lanes s)); [done|].
  intros i s t Hi [<- Hs]. rewrite keccak_round_spec by (done || lia). split; [done|].
  rewrite <- keccak_round_spec by (done || lia). apply keccak_round_lanes; [lia|done].
Qed.

(** C37. The in-place permutation [keccak_f] (theta by columns, rho and pi
    as one cycle through [k_keccak_pil], chi by rows, table constants)
    computes Keccak-p[1600, 24] of FIPS 202, whose rotation offsets and round
    constants come from their defining recurrences, on every array of 25
    64-bit lanes, and keeps the lanes 64-bit. *)
Theorem keccak_f_is_fips202 st :
  lanes st -> keccak_f st = Fips202.keccak_p st /\ lanes (keccak_f st).
Proof. apply keccak_f_spec. Qed.

Lemma keccak_f_is_fips202_witness :
  keccak_f (zeros 25) = Fips202.keccak_p (zeros 25) /\ lanes (keccak_f (zeros 25)).
Proof. apply (keccak_f_is_fips202 (zeros 25)). apply lanes_zeros. Defined.

(** * The sponge *)

#[local] Opaque keccak_f Fips202.keccak_p.

Lemma xor_lanes_take rate b : (rate mod 8 = 0)%nat ->
  forall st, xor_lanes rate (take rate b) st = xor_lanes rate b st.
Proof.
  intros H8 st. apply for_ext. intros i s Hi. do 3 f_equal.
  unfold slice. rewrite skipn_firstn_comm, take_take. f_equal. lia.
Qed.

Lemma xor_lanes_lanes rate b st : bytes b -> lanes st -> lanes (xor_lanes rate b st).
Proof.
  intros Hb Hst. unfold xor_lanes. apply (for_ind (fun _ => lanes)); [lia|done|].
  intros i s _ Hs. destruct Hs as [Hl Hf]. split; [by rewrite length_upd|].
  apply Forall_insert; [done|]. apply islane_lxor; [by apply lanes_get|].
  pose proof (le_join_range (slice (i * 8) 8 b) (bytes_slice _ _ _ Hb)) as Hr.
  assert (Hle : (length (slice (i * 8) 8 b) <= 8)%nat) by (unfold slice; rewrite length_take; lia).
  unfold islane. split; [lia|]. eapply Z.lt_le_trans; [apply Hr|]. apply Z.pow_le_mono_r; lia.
Qed.

Section blocks.
(** The permutation is a parameter here: these lemmas are about blocks. *)
Context (f : list Z -> list Z).

Definition absorb_with (rate : nat) (P : list Z) (k n : nat) (st : list Z) : list Z :=
  foldl (fun st k => f (xor_lanes rate (slice (rate * k) rate P) st)) st (seq k n).

Lemma absorb_with_drop rate P k n st :
  absorb_with rate P (S k) n st = absorb_with rate (drop rate P) k n st.
Proof.
  unfold absorb_with. revert k st. induction n as [|n IH]; intros k st; [done|].
  cbn [seq foldl]. rewrite IH. unfold slice. rewrite drop_drop.
  by replace (rate + rate * k)%nat with (rate * S k)%nat by lia.
Qed.

Lemma absorb_with_S rate P n st : (rate mod 8 = 0)%nat ->
  absorb_with rate P 0 (S n) st
  = absorb_with rate (drop rate P) 0 n (f (xor_lanes rate P st)).
Proof.
  intros H8. rewrite <- absorb_with_drop. unfold absorb_with at 1. cbn [seq foldl].
  rewrite Nat.mul_0_r. unfold slice at 2. rewrite drop_0, xor_lanes_take by done. reflexivity.
Qed.

Lemma absorb_with_app rate P R q st :
  length P = (rate * q)%nat -> absorb_with rate (P ++ R) 0 q st = absorb_with rate P 0 q st.
Proof.
  intros HP. unfold absorb_with. 
  assert (forall n, (n <= q)%nat -> 
    foldl (fun st k => f (xor_lanes rate (slice (rate * k) rate (P ++ R)) st)) st (seq 0 n) =
    foldl (fun st k => f (xor_lanes rate (slice (rate * k) rate P) st)) st (seq 0 n)) as H.
  - induction n as [|n IH]; intros Hn; [reflexivity|].
    rewrite seq_S, !foldl_app, IH by lia. cbn [foldl]. f_equal. f_equal.
    unfold slice. rewrite drop_app_le by nia. rewrite take_app_le; [reflexivity|].
    rewrite length_drop. nia.
  - by apply H.
Qed.

End blocks.
Abbreviation absorb_from := (absorb_with Fips202.keccak_p).

Lemma kas_absorb_spec rate fuel inp st :
  (0 < rate)%nat -> (rate mod 8 = 0)%nat -> (length inp <= fuel)%nat -> bytes inp -> lanes st ->
  let q := (length inp / rate)%nat in
  kas_absorb fuel rate inp st = (absorb_from rate inp 0 q st, drop (rate * q) inp) /\
  lanes (absorb_from rate inp 0 q st).
Proof.
  intros Hr H8. revert inp st. induction fuel as [|fuel IH]; intros inp st Hf Hb Hst q.
  - destruct inp; [|cbn in Hf; lia]. subst q. cbn [length]. rewrite Nat.Div0.div_0_l.
    by rewrite Nat.mul_0_r.
  - cbn [kas_absorb]. destruct (Nat.leb_spec rate (length inp)) as [Hle|Hgt].
    + assert (Hq : q = S (length (drop rate inp) / rate)).
      { subst q. rewrite length_drop. replace (length inp) with ((length inp - rate) + 1 * rate)%nat at 1 by lia.
        rewrite Nat.div_add by lia. lia. }
      destruct (keccak_f_spec (xor_lanes rate inp st)) as [Hk Hl]; [by apply xor_lanes_lanes|].
      rewrite Hq, absorb_with_S, <- Hk by done.
      destruct (IH (drop rate inp) (keccak_f (xor_lanes rate inp st))) as [-> El];
        [rewrite length_drop; lia|auto with oo_bytes|done|].
      split; [|exact El]. rewrite drop_drop. f_equal. f_equal. lia.
    + subst q. rewrite Nat.div_small by lia. by rewrite Nat.mul_0_r.
Qed.

Lemma length_lane_bytes st : length (lane_bytes st) = (8 * length st)%nat.
Proof.
  unfold lane_bytes. induction st as [|x st IH]; [done|].
  cbn [flat_map]. rewrite length_app, length_le_bytes, IH. cbn [length]. lia.
Qed.

Lemma stream_S rate n st : Fips202.stream rate (S n) st =
  take rate (lane_bytes st) ++ Fips202.stream rate n (Fips202.keccak_p st).
Proof.
  unfold Fips202.stream, tab. cbn [seq map concat Nat.iter nat_rect]. do 2 f_equal.
  rewrite <- seq_shift, map_map. apply map_ext. intros i. by rewrite Nat.iter_succ_r.
Qed.

Lemma kas_squeeze_0 fuel rate st : kas_squeeze fuel rate 0 st = [].
Proof. by destruct fuel. Qed.

Lemma kas_squeeze_spec rate fuel n outlen st :
  (0 < rate <= 200)%nat -> (outlen <= fuel)%nat -> (outlen <= n)%nat -> lanes st ->
  kas_squeeze fuel rate outlen st = take outlen (Fips202.stream rate n st).
Proof.
  intros Hr. revert n outlen st. induction fuel as [|fuel IH]; intros n outlen st Hf Hn Hst.
  - by replace outlen with 0%nat by lia.
  - cbn [kas_squeeze]. destruct (Nat.ltb_spec 0 outlen) as [Hp|Hp]; [|by replace outlen with 0%nat by lia].
    destruct n as [|n]; [lia|]. rewrite stream_S.
    destruct (keccak_f_spec st Hst) as [Hk Hl].
    assert (Hlen : length (take rate (lane_bytes st)) = rate).
    { rewrite length_take, length_lane_bytes, lanes_length by assumption. lia. }
    destruct (Nat.ltb_spec outlen rate) as [Hlt|Hge].
    + rewrite Nat.sub_diag, kas_squeeze_0, app_nil_r.
      rewrite take_app_le by lia. rewrite take_take. f_equal. lia.
    + rewrite take_app_ge, Hlen by lia. f_equal.
      destruct (Nat.ltb_spec 0 (outlen - rate)) as [Ho|Ho].
      * rewrite (IH n), Hk by (assumption || lia). reflexivity.
      * replace (outlen - rate)%nat with 0%nat by lia. by rewrite kas_squeeze_0, take_0.
Qed.

(** The last block: what is left of the message, the domain bits and the
    final bit, as [keccak_absorb_squeeze] builds it in its 200-byte buffer. *)
Lemma last_block_pad rate inp ds :
  (0 < rate <= 200)%nat -> (length inp < rate)%nat ->
  let blk := inp ++ zeros (200 - length inp) in
  let blk := blk.[length inp <- Z.lxor blk.[length inp] ds] in
  take rate (blk.[rate - 1 <- Z.lxor blk.[rate - 1] 0x80]) = Fips202.pad rate ds inp.
Proof.
  intros Hr Hl. cbv zeta. rewrite get_app_r, Nat.sub_diag, get_zeros by lia.
  change (Z.lxor 0 ds) with ds. rewrite upd_fill by lia.
  unfold Fips202.pad. rewrite Nat.mod_small by lia.
  destruct (Nat.eqb_spec (rate - length inp) 1) as [Hq|Hq].
  - rewrite get_app_l by (rewrite length_app; cbn; lia).
    rewrite get_app_r by lia. replace (rate - 1 - length inp)%nat with 0%nat by lia.
    unfold upd. rewrite insert_app_l by (rewrite length_app; cbn; lia).
    rewrite insert_app_r_alt by lia. replace (rate - 1 - length inp)%nat with 0%nat by lia.
    cbn [insert list_insert]. rewrite take_app_length'; [done|]. rewrite length_app; cbn; lia.
  - rewrite get_app_zeros, get_overflow by (rewrite length_app; cbn; lia).
    change (Z.lxor 0 128) with 128.
    replace (200 - length inp - 1)%nat with ((rate - length inp - 2) + (201 - rate))%nat by lia.
    unfold zeros at 1. rewrite repeat_app, app_assoc. change (repeat 0) with zeros.
    rewrite upd_fill by (rewrite ?length_app, ?length_zeros; cbn; lia).
    rewrite take_app_length' by (rewrite !length_app, length_zeros; cbn; lia).
    by rewrite <- !app_assoc.
Qed.

Lemma pad_split rate ds m : (0 < rate)%nat ->
  let q := (length m / rate)%nat in
  Fips202.pad rate ds m = take (rate * q) m ++ Fips202.pad rate ds (drop (rate * q) m).
Proof.
  intros Hr q. unfold Fips202.pad. cbv zeta. rewrite length_drop.
  replace ((length m - rate * q) mod rate)%nat with (length m mod rate)%nat.
  - by rewrite (app_assoc (take _ m)), take_drop.
  - subst q. rewrite (Nat.Div0.mod_eq (length m)).
    symmetry. apply Nat.mod_small. pose proof (Nat.mod_upper_bound (length m) rate). 
    pose proof (Nat.div_mod_eq (length m) rate). lia.
Qed.

Lemma length_pad rate ds m : (1 < rate)%nat -> (length m < rate)%nat ->
  length (Fips202.pad rate ds m) = rate.
Proof.
  intros Hr Hm. unfold Fips202.pad. rewrite Nat.mod_small by done.
  case_match; rewrite ?length_app; cbn; rewrite ?length_app, ?length_zeros; cbn; lia.
Qed.

Lemma bytes_pad rate ds m : bytes m -> isbyte ds -> bytes (Fips202.pad rate ds m).
Proof.
  intros Hm Hds. unfold Fips202.pad. apply bytes_app. split; [done|].
  case_match.
  - constructor; [apply isbyte_lxor; [done|unfold isbyte; lia]|constructor].
  - constructor; [done|]. apply bytes_app. split; [apply bytes_zeros|].
    constructor; [unfold isbyte; lia|constructor].
Qed.

Lemma absorb_pad rate ds m : (1 < rate)%nat ->
  let q := (length m / rate)%nat in
  Fips202.absorb rate (Fips202.pad rate ds m)
  = Fips202.keccak_p (xor_lanes rate (Fips202.pad rate ds (drop (rate * q) m)) (absorb_from rate m 0 q (zeros 25))).
Proof.
  intros Hr. cbv zeta. unfold Fips202.absorb. rewrite (pad_split rate ds m) by lia.
  set (q := (length m / rate)%nat).
  assert (Hmod : (length m - rate * q < rate)%nat).
  { subst q. pose proof (Nat.mod_upper_bound (length m) rate). 
    pose proof (Nat.div_mod_eq (length m) rate). lia. }
  assert (Hqle : (rate * q <= length m)%nat) by (subst q; apply Nat.Div0.mul_div_le).
  assert (Hlt : length (take (rate * q) m) = (rate * q)%nat) by (rewrite length_take; lia).
  assert (Hlp : length (Fips202.pad rate ds (drop (rate * q) m)) = rate)
    by (apply length_pad; [lia|rewrite length_drop; lia]).
  rewrite length_app, Hlt, Hlp.
  replace ((rate * q + rate) / rate)%nat with (S q)
    by (replace (rate * q + rate)%nat with (S q * rate)%nat by lia; by rewrite Nat.div_mul by lia).
  rewrite seq_S, foldl_app. cbn [foldl Nat.add].
  fold (absorb_from rate (take (rate * q) m ++ Fips202.pad rate ds (drop (rate * q) m)) 0 q (zeros 25)).
  rewrite absorb_with_app by exact Hlt.
  unfold slice. rewrite drop_app_length' by exact Hlt.
  rewrite (take_ge (Fips202.pad _ _ _)) by lia.
  rewrite <- (absorb_with_app _ rate (take (rate * q) m) (drop (rate * q) m)) by exact Hlt.
  rewrite take_drop. reflexivity.
Qed.

Lemma keccak_absorb_squeeze_spec inp outlen rate ds :
  (8 <= rate <= 200)%nat -> (rate mod 8 = 0)%nat -> bytes inp -> isbyte ds ->
  keccak_absorb_squeeze inp outlen rate ds = Fips202.sponge rate ds inp outlen.
Proof.
  intros Hr H8 Hb Hds. unfold keccak_absorb_squeeze, Fips202.sponge.
  destruct (kas_absorb_spec rate (length inp) inp (zeros 25)) as [-> Hl];
    [lia|exact H8|lia|exact Hb|exact lanes_zeros|].
  rewrite absorb_pad by lia. set (q := (length inp / rate)%nat) in *.
  set (st := absorb_from rate inp 0 q (zeros 25)) in *. cbv zeta.
  rewrite <- xor_lanes_take by exact H8. rewrite last_block_pad.
  - destruct (keccak_f_spec (xor_lanes rate (Fips202.pad rate ds (drop (rate * q) inp)) st)) as [Hk Hl'].
    { apply xor_lanes_lanes; [apply bytes_pad; auto with oo_bytes|exact Hl]. }
    rewrite <- Hk. apply kas_squeeze_spec; [lia|lia|lia|exact Hl'].
  - lia.
  - rewrite length_drop. subst q. pose proof (Nat.mod_upper_bound (length inp) rate).
    pose proof (Nat.div_mod_eq (length inp) rate). lia.
Qed.

(** [keccak_absorb_squeeze] (and with it SHA3-256, SHA3-512, SHAKE128 and
    SHAKE256) is the FIPS 202 sponge over Keccak-p[1600, 24]: for every byte
    message, every output length and every rate of whole lanes, its output
    is the [outlen]-byte prefix of the stream squeezed after absorbing the
    message padded with the domain bits and pad10*1. *)
Theorem keccak_sponge_is_fips202 inp outlen rate ds :
  (8 <= rate <= 200)%nat -> (rate mod 8 = 0)%nat -> bytes inp -> isbyte ds ->
  keccak_absorb_squeeze inp outlen rate ds = Fips202.sponge rate ds inp outlen.
Proof. apply keccak_absorb_squeeze_spec. Qed.

Lemma keccak_sponge_is_fips202_witness :
  oo_shake128 [1; 2; 3] 400 = Fips202.sponge 168 0x1f [1; 2; 3] 400.
Proof.
  apply (keccak_sponge_is_fips202 [1; 2; 3] 400 168 0x1f);
    [lia|reflexivity|by apply bytesb_ok|unfold isbyte; lia].
Defined.

(** What the post-quantum code relies on: the length asked for, bytes. *)
Lemma length_kas_squeeze fuel rate outlen st :
  (0 < rate <= 200)%nat -> (outlen <= fuel)%nat -> length st = 25%nat ->
  (forall s, length s = 25%nat -> length (keccak_f s) = 25%nat) ->
  length (kas_squeeze fuel rate outlen st) = outlen.
Proof.
  intros Hr. revert outlen st. induction fuel as [|fuel IH]; intros outlen st Hf Hst Hk; [cbn; lia|].
  cbn [kas_squeeze]. destruct (Nat.ltb_spec 0 outlen) as [Hp|Hp]; [|cbn; lia].
  rewrite length_app, length_take, length_lane_bytes, Hst.
  destruct (Nat.ltb_spec outlen rate).
  - rewrite Nat.sub_diag, kas_squeeze_0. cbn. lia.
  - rewrite IH; [lia|lia|case_match; auto|exact Hk].
Qed.

Lemma bytes_kas_squeeze fuel rate outlen st : bytes (kas_squeeze fuel rate outlen st).
Proof.
  revert outlen st. induction fuel as [|fuel IH]; intros outlen st; cbn [kas_squeeze]; [constructor|].
  case_match; [|constructor]. apply bytes_app. split; [|apply IH]. apply bytes_take.
  unfold lane_bytes. induction st as [|x st IHs]; [constructor|].
  cbn [flat_map]. apply bytes_app. split; [apply bytes_le_bytes|exact IHs].
Qed.

Lemma length_for_upd lo hi body (st : list Z) :
  (forall i s, length (body i s) = length s) -> length (for_ lo hi body st) = length st.
Proof.
  intros H. destruct (Nat.le_gt_cases lo hi); [|by rewrite for_empty by lia].
  apply (for_ind (fun _ s => length s = length st)); [done|done|]. intros. by rewrite H.
Qed.

Lemma length_kf_rho_pi st : length (kf_rho_pi st) = length st.
Proof.
  unfold kf_rho_pi. apply (for_ind (fun _ p => length (fst p) = length st)); [lia|reflexivity|].
  intros i [s t] _ Hs. cbn [fst] in *. by rewrite length_upd.
Qed.

#[local] Transparent keccak_f.
Lemma length_keccak_f st : length st = 25%nat -> length (keccak_f st) = 25%nat.
Proof.
  intros H. unfold keccak_f. apply (for_ind (fun _ s => length s = 25%nat)); [lia|exact H|].
  intros i s _ Hs. unfold keccak_round. rewrite length_upd, kf_chi_spec; [apply length_tab|].
  rewrite length_kf_rho_pi, kf_theta_spec by exact Hs. apply length_tab.
Qed.
#[local] Opaque keccak_f.

Lemma length_kas_absorb fuel rate inp st :
  length st = 25%nat -> length (fst (kas_absorb fuel rate inp st)) = 25%nat.
Proof.
  revert inp st. induction fuel as [|fuel IH]; intros inp st Hst; cbn [kas_absorb]; [exact Hst|].
  case_match; [|exact Hst]. apply IH, length_keccak_f.
  unfold xor_lanes. rewrite length_for_upd; [exact Hst|]. intros. apply length_upd.
Qed.

Lemma length_keccak_absorb_squeeze inp outlen rate ds :
  (0 < rate <= 200)%nat -> length (keccak_absorb_squeeze inp outlen rate ds) = outlen.
Proof.
  intros Hr. unfold keccak_absorb_squeeze.
  destruct (kas_absorb (length inp) rate inp (zeros 25)) as [st r] eqn:E.
  pose proof (length_kas_absorb (length inp) rate inp (zeros 25) eq_refl) as Hl. rewrite E in Hl.
  apply length_kas_squeeze; [exact Hr|lia| |apply length_keccak_f].
  apply length_keccak_f. unfold xor_lanes. rewrite length_for_upd; [exact Hl|]. intros. apply length_upd.
Qed.
Lemma bytes_keccak_absorb_squeeze inp outlen rate ds : bytes (keccak_absorb_squeeze inp outlen rate ds).
Proof. unfold keccak_absorb_squeeze. destruct (kas_absorb _ _ _ _). apply bytes_kas_squeeze. Qed.

Lemma length_shake128 m n : length (oo_shake128 m n) = n.
Proof. apply length_keccak_absorb_squeeze. lia. Qed.
Lemma length_shake256 m n : length (oo_shake256 m n) = n.
Proof. apply length_keccak_absorb_squeeze. lia. Qed.
Lemma bytes_shake128 m n : bytes (oo_shake128 m n).
Proof. apply bytes_keccak_absorb_squeeze. Qed.
Lemma bytes_shake256 m n : bytes (oo_shake256 m n).
Proof. apply bytes_keccak_absorb_squeeze. Qed.
Lemma length_sha3_256 m : length (oo_sha3_256_bytes m) = 32%nat.
Proof. apply length_keccak_absorb_squeeze. lia. Qed.
Lemma length_sha3_512 m : length (oo_sha3_512_bytes m) = 64%nat.
Proof. apply length_keccak_absorb_squeeze. lia. Qed.
Lemma bytes_sha3_256 m : bytes (oo_sha3_256_bytes m).
Proof. apply bytes_keccak_absorb_squeeze. Qed.
Lemma bytes_sha3_512 m : bytes (oo_sha3_512_bytes m).
Proof. apply bytes_keccak_absorb_squeeze. Qed.
#[export] Hint Resolve bytes_shake128 bytes_shake256 bytes_sha3_256 bytes_sha3_512 : oo_bytes.

(** A shorter output is a prefix of a longer one. *)
Lemma kas_squeeze_prefix rate : (0 < rate <= 200)%nat -> forall f1 f2 k n st, (k <= n)%nat -> (k <= f1)%nat -> (n <= f2)%nat -> length st = 25%nat ->
  kas_squeeze f1 rate k st = take k (kas_squeeze f2 rate n st).
Proof.
  intros Hr. induction f1 as [|f1 IH]; intros f2 k n st Hk H1 H2 Hst; [by replace k with 0%nat by lia|].
  destruct (Nat.eq_dec k 0) as [->|K]; [by rewrite kas_squeeze_0|]. destruct f2 as [|f2]; [lia|]. cbn [kas_squeeze].
  destruct (Nat.ltb_spec 0 k); [|lia]. destruct (Nat.ltb_spec 0 n); [|lia].
  assert (L : length (lane_bytes st) = 200%nat) by (rewrite length_lane_bytes, Hst; lia).
  destruct (Nat.ltb_spec k rate) as [Kr|Kr].
  - rewrite Nat.sub_diag, kas_squeeze_0, app_nil_r. rewrite take_app_le by (rewrite length_take; case_match; lia).
    rewrite take_take. f_equal. case_match; lia.
  - destruct (Nat.ltb_spec n rate); [lia|].
    assert (Lt : length (take rate (lane_bytes st)) = rate) by (rewrite length_take; lia).
    rewrite take_app_ge by lia. rewrite Lt. f_equal. destruct (Nat.eq_dec k rate) as [->|Kn].
    + rewrite Nat.sub_diag, kas_squeeze_0. done.
    + replace (0 <? k - rate)%nat with true by lia. replace (0 <? n - rate)%nat with true by lia.
      apply IH; [lia|lia|lia|by apply length_keccak_f].
Qed.
Lemma oo_shake128_prefix m k n : (k <= n)%nat -> oo_shake128 m k = take k (oo_shake128 m n).
Proof.
  intros Hk. unfold oo_shake128, keccak_absorb_squeeze.
  destruct (kas_absorb (length m) 168 m (zeros 25)) as [st r] eqn:E.
  pose proof (length_kas_absorb (length m) 168 m (zeros 25) eq_refl) as Hl. rewrite E in Hl.
  apply kas_squeeze_prefix; [lia|done|lia|lia|]. apply length_keccak_f. unfold xor_lanes. rewrite length_for_upd; [exact Hl|].
  intros. apply length_upd.
Qed.

(** * SHAKE, as a signature scheme uses it *)

Class Shake := {
  shake128 : list Z -> nat -> list Z;
  shake256 : list Z -> nat -> list Z;
  length_128 : forall m n, length (shake128 m n) = n;
  length_256 : forall m n, length (shake256 m n) = n;
  bytes_128 : forall m n, bytes (shake128 m n);
  bytes_256 : forall m n, bytes (shake256 m n);
  prefix_128 : forall m k n, (k <= n)%nat -> shake128 m k = take k (shake128 m n) }.
(** The code's. *)
#[export] Instance oo_shake : Shake :=
  {| shake128 := oo_shake128; shake256 := oo_shake256; length_128 := length_shake128; length_256 := length_shake256;
     bytes_128 := bytes_shake128; bytes_256 := bytes_shake256; prefix_128 := oo_shake128_prefix |}.
