(* ===== verification/Aes.v ===== *)
(** AES-128: the block cipher of [sec/crypto/hash.c] (ECB) and its twin in
    [sec/crypto/aead/aes_gcm.c].

    [Fips197] is the cipher as the standard defines it over GF(2^8): the
    S-box is computed from the field inverse and the affine map. *)
From S2P Require Import Prelude Str Hex Sha2.
From Stdlib Require String.
Import (notations) String.
Open Scope Z_scope.

(** * The cipher of [hash.c] *)

Definition aes_sbox : list Z := [
  0x63; 0x7c; 0x77; 0x7b; 0xf2; 0x6b; 0x6f; 0xc5; 0x30; 0x01; 0x67; 0x2b; 0xfe; 0xd7; 0xab; 0x76;
  0xca; 0x82; 0xc9; 0x7d; 0xfa; 0x59; 0x47; 0xf0; 0xad; 0xd4; 0xa2; 0xaf; 0x9c; 0xa4; 0x72; 0xc0;
  0xb7; 0xfd; 0x93; 0x26; 0x36; 0x3f; 0xf7; 0xcc; 0x34; 0xa5; 0xe5; 0xf1; 0x71; 0xd8; 0x31; 0x15;
  0x04; 0xc7; 0x23; 0xc3; 0x18; 0x96; 0x05; 0x9a; 0x07; 0x12; 0x80; 0xe2; 0xeb; 0x27; 0xb2; 0x75;
  0x09; 0x83; 0x2c; 0x1a; 0x1b; 0x6e; 0x5a; 0xa0; 0x52; 0x3b; 0xd6; 0xb3; 0x29; 0xe3; 0x2f; 0x84;
  0x53; 0xd1; 0x00; 0xed; 0x20; 0xfc; 0xb1; 0x5b; 0x6a; 0xcb; 0xbe; 0x39; 0x4a; 0x4c; 0x58; 0xcf;
  0xd0; 0xef; 0xaa; 0xfb; 0x43; 0x4d; 0x33; 0x85; 0x45; 0xf9; 0x02; 0x7f; 0x50; 0x3c; 0x9f; 0xa8;
  0x51; 0xa3; 0x40; 0x8f; 0x92; 0x9d; 0x38; 0xf5; 0xbc; 0xb6; 0xda; 0x21; 0x10; 0xff; 0xf3; 0xd2;
  0xcd; 0x0c; 0x13; 0xec; 0x5f; 0x97; 0x44; 0x17; 0xc4; 0xa7; 0x7e; 0x3d; 0x64; 0x5d; 0x19; 0x73;
  0x60; 0x81; 0x4f; 0xdc; 0x22; 0x2a; 0x90; 0x88; 0x46; 0xee; 0xb8; 0x14; 0xde; 0x5e; 0x0b; 0xdb;
  0xe0; 0x32; 0x3a; 0x0a; 0x49; 0x06; 0x24; 0x5c; 0xc2; 0xd3; 0xac; 0x62; 0x91; 0x95; 0xe4; 0x79;
  0xe7; 0xc8; 0x37; 0x6d; 0x8d; 0xd5; 0x4e; 0xa9; 0x6c; 0x56; 0xf4; 0xea; 0x65; 0x7a; 0xae; 0x08;
  0xba; 0x78; 0x25; 0x2e; 0x1c; 0xa6; 0xb4; 0xc6; 0xe8; 0xdd; 0x74; 0x1f; 0x4b; 0xbd; 0x8b; 0x8a;
  0x70; 0x3e; 0xb5; 0x66; 0x48; 0x03; 0xf6; 0x0e; 0x61; 0x35; 0x57; 0xb9; 0x86; 0xc1; 0x1d; 0x9e;
  0xe1; 0xf8; 0x98; 0x11; 0x69; 0xd9; 0x8e; 0x94; 0x9b; 0x1e; 0x87; 0xe9; 0xce; 0x55; 0x28; 0xdf;
  0x8c; 0xa1; 0x89; 0x0d; 0xbf; 0xe6; 0x42; 0x68; 0x41; 0x99; 0x2d; 0x0f; 0xb0; 0x54; 0xbb; 0x16].
Definition aes_rcon : list Z := [0x00; 0x01; 0x02; 0x04; 0x08; 0x10; 0x20; 0x40; 0x80; 0x1b; 0x36].

Definition sbox_at (sbox : list Z) (x : Z) : Z := sbox.[Z.to_nat x].

Definition aes_xtime (x : Z) : Z :=
  u8 (Z.lxor (Z.shiftl x 1) (Z.land (u8 (u32 (0 - Z.shiftr x 7))) 0x1b)).

(** One pass of the key schedule's loop, [i] a word index. *)
Definition aes_key_step (i : nat) (rk : list Z) : list Z :=
  let t0 := rk.[4 * (i - 1)] in let t1 := rk.[4 * (i - 1) + 1] in
  let t2 := rk.[4 * (i - 1) + 2] in let t3 := rk.[4 * (i - 1) + 3] in
  let '(t0, t1, t2, t3) :=
    if (i mod 4 =? 0)%nat
    then (Z.lxor (sbox_at aes_sbox t1) aes_rcon.[i / 4], sbox_at aes_sbox t2, sbox_at aes_sbox t3, sbox_at aes_sbox t0)
    else (t0, t1, t2, t3) in
  let rk := rk.[4 * i <- Z.lxor rk.[4 * (i - 4)] t0] in
  let rk := rk.[4 * i + 1 <- Z.lxor rk.[4 * (i - 4) + 1] t1] in
  let rk := rk.[4 * i + 2 <- Z.lxor rk.[4 * (i - 4) + 2] t2] in
  rk.[4 * i + 3 <- Z.lxor rk.[4 * (i - 4) + 3] t3].
Definition aes_key_expand (key : list Z) : list Z :=
  for_ 4 44 aes_key_step (slice 0 16 key ++ zeros 160).

Definition aes_shift_rows (s : list Z) : list Z :=
  let t := s.[1] in
  let s := s.[1 <- s.[5]] in let s := s.[5 <- s.[9]] in let s := s.[9 <- s.[13]] in let s := s.[13 <- t] in
  let t := s.[2] in let s := s.[2 <- s.[10]] in let s := s.[10 <- t] in
  let t := s.[6] in let s := s.[6 <- s.[14]] in let s := s.[14 <- t] in
  let t := s.[15] in
  let s := s.[15 <- s.[11]] in let s := s.[11 <- s.[7]] in let s := s.[7 <- s.[3]] in s.[3 <- t].

Definition aes_mix_columns (xtime : Z -> Z) (s : list Z) : list Z :=
  for_ 0 4 (fun k s =>
    let i := (4 * k)%nat in
    let a := s.[i] in let b := s.[i + 1] in let c := s.[i + 2] in let d := s.[i + 3] in
    let x4 p q r t u := u8 (Z.lxor (Z.lxor (Z.lxor (Z.lxor p q) r) t) u) in
    let s := s.[i <- x4 (xtime a) (xtime b) b c d] in
    let s := s.[i + 1 <- x4 a (xtime b) (xtime c) c d] in
    let s := s.[i + 2 <- x4 a b (xtime c) (xtime d) d] in
    s.[i + 3 <- x4 (xtime a) a b c (xtime d)]) s.

Definition add_key (s rk : list Z) (off : nat) : list Z := tab 16 (fun i => Z.lxor s.[i] rk.[off + i]).

Definition aes_round (rk : list Z) (round : nat) (s : list Z) : list Z :=
  let s := tab 16 (fun i => sbox_at aes_sbox s.[i]) in
  let s := aes_shift_rows s in
  let s := if (round <? 10)%nat then aes_mix_columns aes_xtime s else s in
  add_key s rk (round * 16).
Definition aes_block_encrypt (inp rk : list Z) : list Z :=
  for_ 1 11 (aes_round rk) (add_key (slice 0 16 inp) rk 0).

Definition crypto_aes_encrypt_internal (key plain : OoStr) : OoStr :=
  if (slen key <? 0) || (slen plain <? 0) then oo_str_lit "STUB_FAIL_CLOSED" else
  let kn := match sdata key with Some _ => slen key | None => 0 end in
  let pn := match sdata plain with Some _ => slen plain | None => 0 end in
  if negb (kn =? 16) || (pn =? 0) || negb (pn mod 16 =? 0) then oo_str_lit "STUB_FAIL_CLOSED" else
  let rk := aes_key_expand (default [] (sdata key)) in
  let p := default [] (sdata plain) in
  let out := concat (tab (Z.to_nat pn / 16) (fun b => aes_block_encrypt (drop (16 * b) p) rk)) in
  hex_encode_n out (Z.to_nat pn).

(** * The cipher of [aes_gcm.c] *)

Definition k_aes_sbox : list Z := [
  0x63; 0x7c; 0x77; 0x7b; 0xf2; 0x6b; 0x6f; 0xc5; 0x30; 0x01; 0x67; 0x2b; 0xfe; 0xd7; 0xab; 0x76;
  0xca; 0x82; 0xc9; 0x7d; 0xfa; 0x59; 0x47; 0xf0; 0xad; 0xd4; 0xa2; 0xaf; 0x9c; 0xa4; 0x72; 0xc0;
  0xb7; 0xfd; 0x93; 0x26; 0x36; 0x3f; 0xf7; 0xcc; 0x34; 0xa5; 0xe5; 0xf1; 0x71; 0xd8; 0x31; 0x15;
  0x04; 0xc7; 0x23; 0xc3; 0x18; 0x96; 0x05; 0x9a; 0x07; 0x12; 0x80; 0xe2; 0xeb; 0x27; 0xb2; 0x75;
  0x09; 0x83; 0x2c; 0x1a; 0x1b; 0x6e; 0x5a; 0xa0; 0x52; 0x3b; 0xd6; 0xb3; 0x29; 0xe3; 0x2f; 0x84;
  0x53; 0xd1; 0x00; 0xed; 0x20; 0xfc; 0xb1; 0x5b; 0x6a; 0xcb; 0xbe; 0x39; 0x4a; 0x4c; 0x58; 0xcf;
  0xd0; 0xef; 0xaa; 0xfb; 0x43; 0x4d; 0x33; 0x85; 0x45; 0xf9; 0x02; 0x7f; 0x50; 0x3c; 0x9f; 0xa8;
  0x51; 0xa3; 0x40; 0x8f; 0x92; 0x9d; 0x38; 0xf5; 0xbc; 0xb6; 0xda; 0x21; 0x10; 0xff; 0xf3; 0xd2;
  0xcd; 0x0c; 0x13; 0xec; 0x5f; 0x97; 0x44; 0x17; 0xc4; 0xa7; 0x7e; 0x3d; 0x64; 0x5d; 0x19; 0x73;
  0x60; 0x81; 0x4f; 0xdc; 0x22; 0x2a; 0x90; 0x88; 0x46; 0xee; 0xb8; 0x14; 0xde; 0x5e; 0x0b; 0xdb;
  0xe0; 0x32; 0x3a; 0x0a; 0x49; 0x06; 0x24; 0x5c; 0xc2; 0xd3; 0xac; 0x62; 0x91; 0x95; 0xe4; 0x79;
  0xe7; 0xc8; 0x37; 0x6d; 0x8d; 0xd5; 0x4e; 0xa9; 0x6c; 0x56; 0xf4; 0xea; 0x65; 0x7a; 0xae; 0x08;
  0xba; 0x78; 0x25; 0x2e; 0x1c; 0xa6; 0xb4; 0xc6; 0xe8; 0xdd; 0x74; 0x1f; 0x4b; 0xbd; 0x8b; 0x8a;
  0x70; 0x3e; 0xb5; 0x66; 0x48; 0x03; 0xf6; 0x0e; 0x61; 0x35; 0x57; 0xb9; 0x86; 0xc1; 0x1d; 0x9e;
  0xe1; 0xf8; 0x98; 0x11; 0x69; 0xd9; 0x8e; 0x94; 0x9b; 0x1e; 0x87; 0xe9; 0xce; 0x55; 0x28; 0xdf;
  0x8c; 0xa1; 0x89; 0x0d; 0xbf; 0xe6; 0x42; 0x68; 0x41; 0x99; 0x2d; 0x0f; 0xb0; 0x54; 0xbb; 0x16].
Definition k_aes_rcon : list Z := [0; 0x01; 0x02; 0x04; 0x08; 0x10; 0x20; 0x40; 0x80; 0x1b; 0x36].

Definition aead_xtime (x : Z) : Z := u8 (Z.lxor (Z.shiftl x 1) (Z.shiftr x 7 * 0x1b)).

(** The word [t] of one pass: rotated, substituted and masked every fourth. *)
Definition aead_key_temp (i : nat) (t : list Z) : list Z :=
  if (i mod 4 =? 0)%nat then
    let tmp := t.[0] in
    let t := t.[0 <- u8 (Z.lxor (sbox_at k_aes_sbox t.[1]) k_aes_rcon.[i / 4])] in
    let t := t.[1 <- sbox_at k_aes_sbox t.[2]] in
    let t := t.[2 <- sbox_at k_aes_sbox t.[3]] in
    t.[3 <- sbox_at k_aes_sbox tmp]
  else t.
Definition aead_aes_key_step (i : nat) (rk : list Z) : list Z :=
  let t := aead_key_temp i (slice ((i - 1) * 4) 4 rk) in
  let rk := rk.[i * 4 <- u8 (Z.lxor rk.[(i - 4) * 4] t.[0])] in
  let rk := rk.[i * 4 + 1 <- u8 (Z.lxor rk.[(i - 4) * 4 + 1] t.[1])] in
  let rk := rk.[i * 4 + 2 <- u8 (Z.lxor rk.[(i - 4) * 4 + 2] t.[2])] in
  rk.[i * 4 + 3 <- u8 (Z.lxor rk.[(i - 4) * 4 + 3] t.[3])].
Definition aead_aes_expand (key : list Z) : list Z :=
  for_ 4 44 aead_aes_key_step (slice 0 16 key ++ zeros 160).

Definition aead_shift_rows (t : list Z) : list Z :=
  [t.[0]; t.[5]; t.[10]; t.[15]; t.[4]; t.[9]; t.[14]; t.[3];
   t.[8]; t.[13]; t.[2]; t.[7]; t.[12]; t.[1]; t.[6]; t.[11]].

Definition aead_aes_round (rk : list Z) (round : nat) (s : list Z) : list Z :=
  let t := tab 16 (fun i => sbox_at k_aes_sbox s.[i]) in
  let s := aead_shift_rows t in
  let s := if (round <? 10)%nat then aes_mix_columns aead_xtime s else s in
  add_key s rk (round * 16).
Definition aead_aes_encrypt (inp rk : list Z) : list Z :=
  for_ 1 11 (aead_aes_round rk) (add_key (slice 0 16 inp) rk 0).

(** FIPS 197, Appendix B and C.1. *)
Definition fips_c1_key : list Z := tab 16 Z.of_nat.
Definition fips_c1_pt : list Z := tab 16 (fun i => 17 * Z.of_nat i).
Example aes_fips197_c1 : be_join (aes_block_encrypt fips_c1_pt (aes_key_expand fips_c1_key))
  = 0x69c4e0d86a7b0430d8cdb78070b4c55a.
Proof. vm_compute. reflexivity. Qed.
Example aead_fips197_c1 : be_join (aead_aes_encrypt fips_c1_pt (aead_aes_expand fips_c1_key))
  = 0x69c4e0d86a7b0430d8cdb78070b4c55a.
Proof. vm_compute. reflexivity. Qed.

(** * FIPS 197 *)
Module Fips197.
(** Multiplication by [x] and multiplication in GF(2)[x]/(x^8+x^4+x^3+x+1). *)
Definition xt (a : Z) : Z := if 2 * a <? 256 then 2 * a else Z.lxor (2 * a) 0x11b.
Fixpoint gmul_n (n : nat) (a b : Z) : Z :=
  match n with
  | O => 0
  | S n => Z.lxor (if Z.odd b then a else 0) (gmul_n n (xt a) (b / 2))
  end.
Definition gmul (a b : Z) : Z := gmul_n 8 b a.
Fixpoint gpow (a : Z) (n : nat) : Z := match n with O => 1 | S n => gmul a (gpow a n) end.
(** [a^2 a^4 ... a^(2^n)]. *)
Fixpoint squares (n : nat) (a : Z) : Z :=
  match n with O => 1 | S n => let b := gmul a a in gmul b (squares n b) end.

(** The S-box: inverse in the field ([a^254], 0 to 0), then the affine map. *)
Definition ginv (a : Z) : Z := squares 7 a.
Definition affine (b : Z) : Z :=
  foldr (fun i acc => 2 * acc + Z.b2z (xorb (Z.testbit 0x63 i)
    (fold_right xorb false (map (fun k => Z.testbit b ((i + k) mod 8)) [0; 4; 5; 6; 7])))) 0
    [0; 1; 2; 3; 4; 5; 6; 7].
Definition sbox (a : Z) : Z := affine (ginv a).

(** The state: row [r], column [c] at index [r + 4c]. *)
Definition at_ (s : list Z) (r c : nat) : Z := s.[r mod 4 + 4 * (c mod 4)].
Definition mk (f : nat -> nat -> Z) : list Z := tab 16 (fun i => f (i mod 4)%nat (i / 4)%nat).

Definition SubBytes (s : list Z) : list Z := mk (fun r c => sbox (at_ s r c)).
Definition ShiftRows (s : list Z) : list Z := mk (fun r c => at_ s r (c + r)).
(** The circulant matrix with first row 2 3 1 1. *)
Definition MixColumns (s : list Z) : list Z :=
  mk (fun r c => fold_left Z.lxor (map (fun j => gmul ([2; 3; 1; 1].[(j + 4 - r) mod 4]) (at_ s j c)) [0; 1; 2; 3]%nat) 0).

(** The key schedule on four-byte words. *)
Definition xor4 (a b : list Z) : list Z := tab 4 (fun i => Z.lxor a.[i] b.[i]).
Definition RotWord (w : list Z) : list Z := [w.[1]; w.[2]; w.[3]; w.[0]].
Definition SubWord (w : list Z) : list Z := map sbox w.
Definition Rcon (i : nat) : list Z := [gpow 2 (i - 1); 0; 0; 0].
Definition next_word (W : list (list Z)) : list Z :=
  let i := length W in
  let temp := nth (i - 1) W [] in
  let temp := if (i mod 4 =? 0)%nat then xor4 (SubWord (RotWord temp)) (Rcon (i / 4)) else temp in
  xor4 (nth (i - 4) W []) temp.
Definition KeyExpansion (key : list Z) : list (list Z) :=
  grow 40 next_word [slice 0 4 key; slice 4 4 key; slice 8 4 key; slice 12 4 key].

Definition AddRoundKey (s : list Z) (W : list (list Z)) (round : nat) : list Z :=
  mk (fun r c => Z.lxor (at_ s r c) (nth (4 * round + c) W []).[r]).
Definition Cipher (W : list (list Z)) (inp : list Z) : list Z :=
  let s := AddRoundKey inp W 0 in
  let s := for_ 1 10 (fun round s => AddRoundKey (MixColumns (ShiftRows (SubBytes s))) W round) s in
  AddRoundKey (ShiftRows (SubBytes s)) W 10.
Definition AES128 (key inp : list Z) : list Z := Cipher (KeyExpansion key) inp.
End Fips197.

Example spec_fips197_c1 : be_join (Fips197.AES128 fips_c1_key fips_c1_pt) = 0x69c4e0d86a7b0430d8cdb78070b4c55a.
Proof. vm_compute. reflexivity. Qed.

(** ** Bytes of the two ciphers *)

Lemma aes_sbox_eq : k_aes_sbox = aes_sbox /\ k_aes_rcon = aes_rcon.
Proof. done. Qed.

Lemma byte_eq (f g : Z -> Z) :
  forallb (fun i => f (Z.of_nat i) =? g (Z.of_nat i)) (seq 0 256) = true -> forall x, isbyte x -> f x = g x.
Proof. intros H x Hx. apply Z.eqb_eq. by apply (byte_forall (fun x => f x =? g x)). Qed.

Lemma sbox_spec x : isbyte x -> sbox_at aes_sbox x = Fips197.sbox x.
Proof. apply (byte_eq (sbox_at aes_sbox) Fips197.sbox). vm_compute. reflexivity. Qed.
Lemma xtime_spec x : isbyte x -> aes_xtime x = Fips197.gmul 2 x.
Proof. apply (byte_eq aes_xtime (Fips197.gmul 2)). vm_compute. reflexivity. Qed.
Lemma aead_xtime_spec x : isbyte x -> aead_xtime x = Fips197.gmul 2 x.
Proof. apply (byte_eq aead_xtime (Fips197.gmul 2)). vm_compute. reflexivity. Qed.
Lemma gmul_1 x : isbyte x -> Fips197.gmul 1 x = x.
Proof. apply (byte_eq (Fips197.gmul 1) (fun x => x)). vm_compute. reflexivity. Qed.
Lemma gmul_3 x : isbyte x -> Fips197.gmul 3 x = Z.lxor (Fips197.gmul 2 x) x.
Proof. apply (byte_eq (Fips197.gmul 3) (fun x => Z.lxor (Fips197.gmul 2 x) x)). vm_compute. reflexivity. Qed.
Lemma isbyte_gmul2 x : isbyte x -> isbyte (Fips197.gmul 2 x).
Proof. intros H. rewrite <- xtime_spec by done. apply isbyte_u8. Qed.
Lemma isbyte_sbox x : isbyte (sbox_at aes_sbox x).
Proof. apply bytes_get, bytesb_ok. reflexivity. Qed.
#[export] Hint Resolve isbyte_gmul2 isbyte_sbox : oo_bytes.

(** ** Blocks *)
Definition block (s : list Z) : Prop := length s = 16%nat /\ bytes s.

Lemma block_16 (s : list Z) : length s = 16%nat -> exists a0 a1 a2 a3 a4 a5 a6 a7 a8 a9 a10 a11 a12 a13 a14 a15,
  s = [a0; a1; a2; a3; a4; a5; a6; a7; a8; a9; a10; a11; a12; a13; a14; a15].
Proof.
  intros H. do 16 (destruct s as [|? s]; [discriminate|]). destruct s; [|discriminate]. by repeat eexists.
Qed.
Ltac explicit_block H :=
  destruct (block_16 _ H) as (?&?&?&?&?&?&?&?&?&?&?&?&?&?&?&?&->);
  lazy -[Z.lxor Z.land u8 sbox_at aes_sbox Z.add]; reflexivity.

Lemma block_mk f : (forall r c, (r < 4)%nat -> (c < 4)%nat -> isbyte (f r c)) -> block (Fips197.mk f).
Proof. intros H. split; [apply length_tab|]. apply bytes_tab. intros i Hi. apply H; lia. Qed.
Lemma mk_ext4 f g :
  (forall r c, (r < 4)%nat -> (c < 4)%nat -> f r c = g r c) -> Fips197.mk f = Fips197.mk g.
Proof. intros H. apply tab_ext. intros i Hi. apply H; lia. Qed.

Lemma at_byte s r c : block s -> isbyte (Fips197.at_ s r c).
Proof. intros [_ H]. by apply bytes_get. Qed.
#[export] Hint Resolve at_byte : oo_bytes.

Lemma sub_bytes_spec s : block s -> tab 16 (fun i => sbox_at aes_sbox s.[i]) = Fips197.SubBytes s.
Proof.
  intros H. apply tab_ext. intros i Hi. rewrite <- sbox_spec by auto with oo_bytes.
  unfold Fips197.at_. do 2 f_equal. lia.
Qed.
Lemma shift_rows_spec s : length s = 16%nat -> aes_shift_rows s = Fips197.ShiftRows s.
Proof. intros H. explicit_block H. Qed.
Lemma aead_shift_rows_spec s : length s = 16%nat -> aead_shift_rows s = Fips197.ShiftRows s.
Proof. intros H. explicit_block H. Qed.

(** The columns step with [xtime] as a parameter, cell by cell. *)
Lemma mix_columns_cells xt s : length s = 16%nat ->
  aes_mix_columns xt s = Fips197.mk (fun r c =>
    let a := Fips197.at_ s 0 c in let b := Fips197.at_ s 1 c in
    let d := Fips197.at_ s 2 c in let e := Fips197.at_ s 3 c in
    u8 (match r with
        | 0 => Z.lxor (Z.lxor (Z.lxor (Z.lxor (xt a) (xt b)) b) d) e
        | 1 => Z.lxor (Z.lxor (Z.lxor (Z.lxor a (xt b)) (xt d)) d) e
        | 2 => Z.lxor (Z.lxor (Z.lxor (Z.lxor a b) (xt d)) (xt e)) e
        | _ => Z.lxor (Z.lxor (Z.lxor (Z.lxor (xt a) a) b) d) (xt e)
        end)%nat).
Proof. intros H. explicit_block H. Qed.

Lemma mix_columns_spec xt s :
  (forall x, isbyte x -> xt x = Fips197.gmul 2 x) -> block s ->
  aes_mix_columns xt s = Fips197.MixColumns s.
Proof.
  intros Hxt H. rewrite mix_columns_cells by apply H. apply mk_ext4. intros r c Hr Hc.
  assert (Hb : forall j, isbyte (Fips197.at_ s j c)) by auto with oo_bytes.
  cbv zeta. rewrite !Hxt by apply Hb.
  assert (r = 0 \/ r = 1 \/ r = 2 \/ r = 3)%nat as [-> | [-> | [-> | ->]]] by lia;
    cbn [map fold_left]; unfold get; cbn -[Z.lxor Fips197.gmul Fips197.at_ u8];
    rewrite !gmul_3, !gmul_1, u8_byte by (apply Hb || auto 10 with oo_bytes);
    by rewrite ?Z.lxor_0_l, <- ?Z.lxor_assoc.
Qed.

(** ** The key schedule *)

Definition word (w : list Z) : Prop := length w = 4%nat /\ bytes w.

Lemma get_concat4 (W : list (list Z)) k j :
  Forall word W -> (k < length W)%nat -> (j < 4)%nat ->
  (concat W).[4 * k + j] = (nth k W []).[j].
Proof.
  intros HW. revert k. induction HW as [|w W [Hw _] HW IH]; intros k Hk Hj; [cbn in Hk; lia|].
  cbn [concat]. destruct k as [|k].
  - rewrite get_app_l by lia. done.
  - rewrite get_app_r by lia. cbn [nth]. rewrite <- IH by (cbn in Hk; lia). f_equal. lia.
Qed.
Lemma length_concat4 (W : list (list Z)) : Forall word W -> length (concat W) = (4 * length W)%nat.
Proof. induction 1 as [|w W [Hw _] HW IH]; [done|]. cbn [concat length]. rewrite length_app. lia. Qed.
Lemma nth_word (W : list (list Z)) k : Forall word W -> (k < length W)%nat -> word (nth k W []).
Proof.
  intros HW Hk. rewrite nth_lookup. destruct (lookup_lt_is_Some_2 W k) as [w Hw]; [lia|].
  rewrite Hw. cbn. by eapply Forall_lookup_1 in HW; [|exact Hw].
Qed.

Lemma words_bytes (W : list (list Z)) : Forall word W -> bytes (concat W).
Proof.
  induction 1 as [|w W [_ Hw] HW IH]; [apply bytes_nil|]. cbn [concat]. by apply bytes_app.
Qed.

(** What the loop knows at word [i]. *)
Definition key_inv (i : nat) (rk : list Z) (W : list (list Z)) : Prop :=
  length W = i /\ Forall word W /\ rk = concat W ++ zeros (4 * (44 - i)).

Lemma key_inv_get i rk W k j : key_inv i rk W -> (k < i)%nat -> (j < 4)%nat ->
  rk.[4 * k + j] = (nth k W []).[j].
Proof.
  intros (Hl & HW & ->) Hk Hj. rewrite get_app_zeros. apply get_concat4; [done|lia|done].
Qed.

Lemma upd4_end (l : list Z) n i a b c d :
  length l = (4 * i)%nat -> (i < n)%nat ->
  (l ++ zeros (4 * (n - i))).[4 * i <- a].[4 * i + 1 <- b].[4 * i + 2 <- c].[4 * i + 3 <- d]
  = (l ++ [a; b; c; d]) ++ zeros (4 * (n - S i)).
Proof.
  intros Hl Hn. rewrite !upd_fill by (rewrite ?length_app; cbn [length]; lia).
  rewrite <- !app_assoc. cbn [app]. do 6 f_equal. lia.
Qed.

Lemma rcon_spec i : (4 <= i < 44)%nat -> aes_rcon.[i / 4] = Fips197.gpow 2 (i / 4 - 1).
Proof.
  intros Hi. assert (Hq : (1 <= i / 4 < 11)%nat) by lia. revert Hq.
  generalize (i / 4)%nat as q. intros q Hq.
  destruct q as [|q]; [lia|]. do 10 (destruct q as [|q]; [reflexivity|]). lia.
Qed.

Lemma xor4_cells a b : Fips197.xor4 a b =
  [Z.lxor a.[0] b.[0]; Z.lxor a.[1] b.[1]; Z.lxor a.[2] b.[2]; Z.lxor a.[3] b.[3]].
Proof. done. Qed.

Lemma word_get w j : word w -> isbyte w.[j].
Proof. intros [_ H]. by apply bytes_get. Qed.
#[export] Hint Resolve word_get : oo_bytes.
Lemma word_xor4 a b : word a -> word b -> word (Fips197.xor4 a b).
Proof. intros Ha Hb. split; [done|]. rewrite xor4_cells. bytes_cells; apply isbyte_lxor; by apply word_get. Qed.
Lemma subword_spec w : word w -> Fips197.SubWord (Fips197.RotWord w) =
  [sbox_at aes_sbox w.[1]; sbox_at aes_sbox w.[2]; sbox_at aes_sbox w.[3]; sbox_at aes_sbox w.[0]].
Proof. intros H. unfold Fips197.SubWord, Fips197.RotWord. cbn [map]. by rewrite !sbox_spec by by apply word_get. Qed.

Lemma isbyte_rcon i : (i < 11)%nat -> isbyte aes_rcon.[i].
Proof. intros _. apply bytes_get, bytesb_ok. reflexivity. Qed.

Lemma aes_key_step_spec i rk W : (4 <= i < 44)%nat -> key_inv i rk W ->
  key_inv (S i) (aes_key_step i rk) (W ++ [Fips197.next_word W]).
Proof.
  intros Hi HI. pose proof HI as (Hl & HW & Hrk).
  pose proof (nth_word W (i - 1) HW ltac:(lia)) as Hw1.
  pose proof (nth_word W (i - 4) HW ltac:(lia)) as Hw4.
  assert (Hg : forall k, (k < i)%nat -> rk.[4 * k] = (nth k W []).[0]).
  { intros k Hk. rewrite <- (key_inv_get i rk W k 0) by (done || lia). f_equal. lia. }
  assert (Hn : Fips197.next_word W = Fips197.xor4 (nth (i - 4) W [])
     (if (i mod 4 =? 0)%nat then
        let t := nth (i - 1) W [] in
        [Z.lxor (sbox_at aes_sbox t.[1]) aes_rcon.[i / 4]; sbox_at aes_sbox t.[2]; sbox_at aes_sbox t.[3]; sbox_at aes_sbox t.[0]]
      else nth (i - 1) W [])).
  { unfold Fips197.next_word. rewrite Hl. cbv zeta. case_match; [|done].
    rewrite subword_spec by done. rewrite (rcon_spec i) by done. unfold Fips197.Rcon.
    rewrite (xor4_cells [_; _; _; _]). unfold get. cbn [nth]. by rewrite !Z.lxor_0_r. }
  assert (Hb : word (Fips197.next_word W)).
  { rewrite Hn. apply word_xor4; [done|]. case_match; [|done].
    split; [done|]. bytes_cells; auto with oo_bytes.
    apply isbyte_lxor; [auto with oo_bytes|]. apply isbyte_rcon. lia. }
  split; [rewrite length_app; cbn; lia|]. split; [apply Forall_app; split; [exact HW|apply List.Forall_cons; [exact Hb|constructor]]|].
  rewrite concat_app. cbn [concat]. rewrite app_nil_r.
  rewrite Hn, xor4_cells, <- (upd4_end _ 44 i) by (rewrite ?length_concat4; done || lia).
  rewrite <- Hrk. unfold aes_key_step.
  case_match; cbv zeta; rewrite !get_upd_ne by lia; rewrite !Hg, !(key_inv_get i rk W) by (done || lia);
    reflexivity.
Qed.

Lemma key_loop step key :
  (forall i rk W, (4 <= i < 44)%nat -> key_inv i rk W -> key_inv (S i) (step i rk) (W ++ [Fips197.next_word W])) ->
  block key -> key_inv 44 (for_ 4 44 step (slice 0 16 key ++ zeros 160)) (Fips197.KeyExpansion key).
Proof.
  intros Hstep [Hl Hb].
  set (W0 := [slice 0 4 key; slice 4 4 key; slice 8 4 key; slice 12 4 key]).
  assert (H : key_inv 44 (for_ 4 44 step (slice 0 16 key ++ zeros 160)) (grow (44 - 4) Fips197.next_word W0)); [|exact H].
  apply (for_ind (fun i rk => key_inv i rk (grow (i - 4) Fips197.next_word W0))); [lia| |].
  - split; [done|]. split.
    + repeat constructor; try (apply length_slice; lia); by apply bytes_slice.
    + destruct (block_16 _ Hl) as (?&?&?&?&?&?&?&?&?&?&?&?&?&?&?&?&->). reflexivity.
  - intros i rk Hi HI. replace (S i - 4)%nat with (S (i - 4)) by lia. cbn [grow]. by apply Hstep.
Qed.

Lemma aead_key_temp_eq i a b c d : (i < 44)%nat ->
  aead_key_temp i [a; b; c; d] =
  if (i mod 4 =? 0)%nat
  then [Z.lxor (sbox_at aes_sbox b) aes_rcon.[i / 4]; sbox_at aes_sbox c; sbox_at aes_sbox d; sbox_at aes_sbox a]
  else [a; b; c; d].
Proof.
  intros Hi. unfold aead_key_temp. case_match; [|done]. cbv zeta.
  rewrite (proj1 aes_sbox_eq), (proj2 aes_sbox_eq).
  rewrite (u8_byte (Z.lxor _ _)); [reflexivity|].
  apply isbyte_lxor; [apply isbyte_sbox|]. apply isbyte_rcon. lia.
Qed.

Lemma aead_key_step_eq i rk W : (4 <= i < 44)%nat -> key_inv i rk W ->
  aead_aes_key_step i rk = aes_key_step i rk.
Proof.
  intros Hi HI. pose proof HI as (Hl & HW & Hrk).
  assert (Hlen : length rk = 176%nat).
  { rewrite Hrk, length_app, length_concat4, length_zeros by done. lia. }
  assert (Hb : bytes rk).
  { rewrite Hrk. apply bytes_app. split; [|apply bytes_zeros]. by apply words_bytes. }
  unfold aead_aes_key_step, aes_key_step. rewrite slice_get_tab by lia.
  replace ((i - 1) * 4)%nat with (4 * (i - 1))%nat by lia.
  replace ((i - 4) * 4)%nat with (4 * (i - 4))%nat by lia. replace (i * 4)%nat with (4 * i)%nat by lia.
  unfold tab. cbn [seq map]. rewrite aead_key_temp_eq, Nat.add_0_r by lia.
  pose proof (isbyte_rcon (i / 4) ltac:(lia)).
  case_match; cbv zeta; get_cells; rewrite !get_upd_ne by lia;
    by rewrite !u8_byte by auto 6 with oo_bytes.
Qed.

Lemma aes_key_expand_inv key : block key -> key_inv 44 (aes_key_expand key) (Fips197.KeyExpansion key).
Proof. intros H. exact (key_loop aes_key_step key aes_key_step_spec H). Qed.
Lemma aead_key_expand_inv key : block key -> key_inv 44 (aead_aes_expand key) (Fips197.KeyExpansion key).
Proof.
  intros H. refine (key_loop aead_aes_key_step key _ H). intros i rk W Hi HI. rewrite (aead_key_step_eq i rk W) by done. by apply aes_key_step_spec.
Qed.

(** ** The rounds *)

Lemma add_key_spec s rk W r : key_inv 44 rk W -> (r <= 10)%nat ->
  add_key s rk (r * 16) = Fips197.AddRoundKey s W r.
Proof.
  intros HI Hr. apply tab_ext. intros i Hi.
  rewrite <- (key_inv_get 44 rk W (4 * r + i / 4)) by (done || lia).
  unfold Fips197.at_. f_equal; f_equal; lia.
Qed.

Lemma block_add_key s rk off : bytes s -> bytes rk -> block (add_key s rk off).
Proof. intros Hs Hrk. split; [apply length_tab|]. apply bytes_tab. auto with oo_bytes. Qed.

Lemma block_mix xt s : length s = 16%nat -> block (aes_mix_columns xt s).
Proof. intros H. rewrite mix_columns_cells by done. apply block_mk. intros. apply isbyte_u8. Qed.
Lemma block_shift s : block s -> block (Fips197.ShiftRows s).
Proof. intros H. apply block_mk. auto with oo_bytes. Qed.
Lemma block_sub s : block s -> block (Fips197.SubBytes s).
Proof. intros H. apply block_mk. intros. rewrite <- sbox_spec by auto with oo_bytes. apply isbyte_sbox. Qed.

Lemma key_inv_bytes i rk W : key_inv i rk W -> bytes rk.
Proof.
  intros (_ & HW & ->). apply bytes_app. split; [|apply bytes_zeros]. by apply words_bytes.
Qed.

(** One round of either cipher against the standard's. *)
Lemma round_spec shift xt rk W r s :
  (forall s, length s = 16%nat -> shift s = Fips197.ShiftRows s) ->
  (forall x, isbyte x -> xt x = Fips197.gmul 2 x) ->
  key_inv 44 rk W -> (r <= 10)%nat -> block s ->
  let s' := shift (tab 16 (fun i => sbox_at aes_sbox s.[i])) in
  let s' := if (r <? 10)%nat then aes_mix_columns xt s' else s' in
  let t := Fips197.ShiftRows (Fips197.SubBytes s) in
  add_key s' rk (r * 16) = Fips197.AddRoundKey (if (r <? 10)%nat then Fips197.MixColumns t else t) W r
  /\ block (add_key s' rk (r * 16)).
Proof.
  intros Hsh Hxt HI Hr Hs. cbv zeta. rewrite sub_bytes_spec by done.
  pose proof (block_sub s Hs) as Hb. rewrite Hsh by apply Hb. apply block_shift in Hb.
  case_match.
  - rewrite <- (mix_columns_spec xt) by done. split; [by apply add_key_spec|].
    apply block_add_key; [apply block_mix, Hb|]. by eapply key_inv_bytes.
  - split; [by apply add_key_spec|]. apply block_add_key; [apply Hb|by eapply key_inv_bytes].
Qed.

Lemma cipher_spec step rk W inp :
  (forall r s, (1 <= r <= 10)%nat -> block s ->
     let t := Fips197.ShiftRows (Fips197.SubBytes s) in
     step r s = Fips197.AddRoundKey (if (r <? 10)%nat then Fips197.MixColumns t else t) W r /\ block (step r s)) ->
  key_inv 44 rk W -> block inp ->
  for_ 1 11 step (add_key (slice 0 16 inp) rk 0) = Fips197.Cipher W inp /\ block (for_ 1 11 step (add_key (slice 0 16 inp) rk 0)).
Proof.
  intros Hstep HI [Hl Hb]. unfold Fips197.Cipher.
  assert (Hs : slice 0 16 inp = inp) by (unfold slice; rewrite drop_0; apply take_ge; lia).
  rewrite Hs. pose proof (add_key_spec inp rk W 0 HI ltac:(lia)) as E0. cbn [Nat.mul] in E0. rewrite !E0.
  assert (Hb0 : block (Fips197.AddRoundKey inp W 0)).
  { rewrite <- E0. apply block_add_key; [done|by eapply key_inv_bytes]. }
  set (s0 := Fips197.AddRoundKey inp W 0) in *. rewrite for_last by lia.
  assert (H : for_ 1 10 step s0 = for_ 1 10 (fun round s =>
      Fips197.AddRoundKey (Fips197.MixColumns (Fips197.ShiftRows (Fips197.SubBytes s))) W round) s0 /\ block (for_ 1 10 step s0)).
  { apply (for_rel (fun s t => s = t /\ block s)); [done|]. intros r s t Hr [<- Hst].
    destruct (Hstep r s) as [E B]; [lia|done|]. split; [|done]. rewrite E.
    by replace (r <? 10)%nat with true by lia. }
  destruct H as [<- Hb1]. destruct (Hstep 10%nat (for_ 1 10 step s0)) as [E B]; [lia|done|].
  by split.
Qed.

Lemma aes_block_spec key W rk inp : key_inv 44 rk W -> block inp ->
  W = Fips197.KeyExpansion key ->
  aes_block_encrypt inp rk = Fips197.AES128 key inp /\ block (aes_block_encrypt inp rk).
Proof.
  intros HI Hi ->. apply cipher_spec; [|done|done]. intros r s Hr Hs.
  apply (round_spec aes_shift_rows aes_xtime); auto using shift_rows_spec, xtime_spec; lia.
Qed.
Lemma aead_block_spec key W rk inp : key_inv 44 rk W -> block inp ->
  W = Fips197.KeyExpansion key ->
  aead_aes_encrypt inp rk = Fips197.AES128 key inp /\ block (aead_aes_encrypt inp rk).
Proof.
  intros HI Hi ->. apply cipher_spec; [|done|done]. intros r s Hr Hs.
  apply (round_spec aead_shift_rows aead_xtime); auto using aead_shift_rows_spec, aead_xtime_spec; lia.
Qed.

(** C35. Both AES-128 implementations (the S-box tables, the byte-wise key
    schedule with its round constants, shift-rows by swaps in [hash.c] and by
    a permuted copy in [aes_gcm.c], the two constant-time [xtime]s) compute
    the FIPS 197 cipher over GF(2^8) for every key and block; in particular
    they agree with each other. *)
Theorem aes_is_fips197 key inp :
  block key -> block inp ->
  aes_block_encrypt inp (aes_key_expand key) = Fips197.AES128 key inp /\ aead_aes_encrypt inp (aead_aes_expand key) = Fips197.AES128 key inp.
Proof.
  intros Hk Hi. split.
  - by eapply aes_block_spec; [apply aes_key_expand_inv| |].
  - by eapply aead_block_spec; [apply aead_key_expand_inv| |].
Qed.

Lemma aes_is_fips197_witness :
  aes_block_encrypt fips_c1_pt (aes_key_expand fips_c1_key) = Fips197.AES128 fips_c1_key fips_c1_pt /\ aead_aes_encrypt fips_c1_pt (aead_aes_expand fips_c1_key) = Fips197.AES128 fips_c1_key fips_c1_pt.
Proof. apply (aes_is_fips197 fips_c1_key fips_c1_pt); (split; [reflexivity|by apply bytesb_ok]). Defined.
