(* ===== verification/Gcm.v ===== *)
(** AES-128-GCM ([sec/crypto/aead/aes_gcm.c]): GHASH, the counter mode, seal
    and open, and the capability-gated entry points of [sec/crypto/seal.c].

    [Gf128] is the field of SP 800-38D: polynomials over GF(2) modulo
    [x^128 + x^7 + x^2 + x + 1]. *)
From S2P Require Import Prelude Str Hex Sha2 Aes.
From Stdlib Require String.
Import (notations) String.
Open Scope Z_scope.

(** * AES-128-GCM ([aes_gcm.c]) *)

Definition gcm_inc32 (b : list Z) : list Z :=
  let n := Z.lor (Z.lor (Z.lor (Z.shiftl b.[12] 24) (Z.shiftl b.[13] 16)) (Z.shiftl b.[14] 8)) b.[15] in
  let n := u32 (n + 1) in
  let b := b.[12 <- u8 (Z.shiftr n 24)] in let b := b.[13 <- u8 (Z.shiftr n 16)] in
  let b := b.[14 <- u8 (Z.shiftr n 8)] in b.[15 <- u8 n].

Definition gcm_xor16 (a b : list Z) : list Z := tab 16 (fun i => Z.lxor a.[i] b.[i]).

(** [for (k = 15; k > 0; k--) v[k] = (v[k] >> 1) | (v[k - 1] << 7)] and the
    reduction of [v[0]]. *)
Definition gf_shift (v : list Z) : list Z :=
  let lsb := u8 (Z.land v.[15] 1) in
  let v := for_ 0 15 (fun m v =>
    let k := (15 - m)%nat in
    v.[k <- u8 (Z.lor (Z.shiftr v.[k] 1) (Z.shiftl v.[k - 1] 7))]) v in
  let v := v.[0 <- Z.shiftr v.[0] 1] in
  v.[0 <- Z.lxor v.[0] (u8 (Z.land 0xe1 (u8 (- lsb))))].
Definition gf_bit (x : list Z) (i j : nat) (rv : list Z * list Z) : list Z * list Z :=
  let '(r, v) := rv in
  let bit := u8 (Z.land (Z.shiftr x.[i] (7 - Z.of_nat j)) 1) in
  let mask := u8 (- bit) in
  (tab 16 (fun k => Z.lxor r.[k] (u8 (Z.land v.[k] mask))), gf_shift v).
Definition gcm_gf_mult (x y : list Z) : list Z :=
  fst (for_ 0 16 (fun i rv => for_ 0 8 (gf_bit x i) rv) (zeros 16, y)).

(** One operand of GHASH, in blocks padded with zeros. *)
Definition ghash_update (h data y : list Z) : list Z :=
  for_ 0 ((length data + 15) / 16) (fun b y =>
    let part := slice (16 * b) 16 data in
    let blk := part ++ zeros (16 - length part) in
    gcm_gf_mult (gcm_xor16 y blk) h) y.
Definition gcm_ghash (h aad ct : list Z) : list Z :=
  let y := zeros 16 in
  let y := ghash_update h aad y in
  let y := ghash_update h ct y in
  let ab := u64 (Z.of_nat (length aad) * 8) in
  let cb := u64 (Z.of_nat (length ct) * 8) in
  let blk := be_bytes 8 ab ++ be_bytes 8 cb in
  gcm_gf_mult (gcm_xor16 y blk) h.

(** The loop of both counter modes, [while (off < n)] on the bytes still to
    do: [ks c] is the key stream of counter [c], [next c] the next counter. *)
Fixpoint stream_loop {C : Type} (bs : nat) (ks : C -> list Z) (next : C -> C) (fuel : nat) (c : C) (x : list Z) : list Z :=
  match fuel with
  | O => []
  | S fuel =>
      if (0 <? length x)%nat then
        let left := if (bs <? length x)%nat then bs else length x in
        let k := ks c in
        tab left (fun i => u8 (Z.lxor x.[i] k.[i])) ++ stream_loop bs ks next fuel (next c) (drop left x)
      else []
  end.
Definition gctr_loop (fuel : nat) (rk cb x : list Z) : list Z :=
  stream_loop 16 (fun cb => aead_aes_encrypt cb rk) gcm_inc32 fuel cb x.
Definition gcm_gctr (rk icb x : list Z) : list Z := gctr_loop (length x) rk icb x.

(** The tag of [aad] and [ct] under the expanded key, and the text pass;
    [nb] is the 12-byte nonce. *)
Definition gcm_h (rk : list Z) : list Z := aead_aes_encrypt (zeros 16) rk.
Definition gcm_j0 (nb : list Z) : list Z := slice 0 12 nb ++ [0; 0; 0; 1].
Definition gcm_tag (rk nb aad ct : list Z) : list Z :=
  gcm_xor16 (aead_aes_encrypt (gcm_j0 nb) rk) (gcm_ghash (gcm_h rk) aad ct).
Definition gcm_crypt (rk nb x : list Z) : list Z :=
  if (0 <? length x)%nat then gcm_gctr rk (gcm_inc32 (gcm_j0 nb)) x else [].

Definition crypto_aes_gcm_seal_internal (key nonce pt aad : OoStr) : run OoStr :=
  match aead_fill key 16, aead_fill nonce 12 with
  | Some kb, Some nb =>
      let* p := of_option (aead_load pt) in
      let* a := of_option (aead_load aad) in
      let rk := aead_aes_expand kb in
      let ct := gcm_crypt rk nb p in
      let tag := gcm_tag rk nb a ct in
      Ret (aead_hex_cat ct (length ct) tag 16)
  | _, _ => Ret (oo_str_lit "")
  end.

Definition crypto_aes_gcm_open_internal (key nonce ct tag aad : OoStr) : run OoStr :=
  match aead_fill key 16, aead_fill nonce 12, aead_fill tag 16 with
  | Some kb, Some nb, Some tb =>
      let* c := of_option (aead_load ct) in
      let* a := of_option (aead_load aad) in
      let rk := aead_aes_expand kb in
      let expect := gcm_tag rk nb a c in
      if negb (crypto_ct_cmp (Some expect) (Some tb) 16 =? 0) then Ret (oo_str_lit "")
      else Ret (aead_bin (gcm_crypt rk nb c) (length c))
  | _, _, _ => Ret (oo_str_lit "")
  end.

(** * The capability-gated surface ([seal.c]) *)

(** [oo_cap_require_sign]: what the gate decides for a token, [None] when it
    returns and the exit code when it ends the process.  [Caps] provides the
    instance of the runtime's tokens. *)
Class SignGate := sign_gate : Z -> option Z.
Definition require_sign {G : SignGate} (cap : Z) : run unit :=
  match sign_gate cap with None => Ret tt | Some code => Exited code end.

Definition res_or_aead (v : OoStr) : OoResS :=
  match sdata v with
  | None => mkResS false (oo_str_lit "E_AEAD")
  | Some _ => if slen v =? 0 then mkResS false (oo_str_lit "E_AEAD") else mkResS true v
  end.

Definition oo_seal {G : SignGate} (cap : Z) (key nonce plaintext aad : OoStr) : run OoResS :=
  let* _ := require_sign cap in
  if (slen key <? 0) || (slen nonce <? 0) || (slen plaintext <? 0) || (slen aad <? 0)
  then Ret (mkResS false (oo_str_lit "E_AEAD"))
  else let* v := crypto_aes_gcm_seal_internal key nonce plaintext aad in Ret (res_or_aead v).

Definition oo_open {G : SignGate} (cap : Z) (key nonce ct tag aad : OoStr) : run OoResS :=
  let* _ := require_sign cap in
  if (slen key <? 0) || (slen nonce <? 0) || (slen ct <? 0) || (slen tag <? 0) || (slen aad <? 0)
  then Ret (mkResS false (oo_str_lit "E_AEAD"))
  else let* v := crypto_aes_gcm_open_internal key nonce ct tag aad in Ret (res_or_aead v).

(** SP 800-38D test case 4. *)
Definition hexb (s : String.string) : list Z :=
  let d := ascii_bytes s in default [] (hex_pairs hex_digit 0 (length d / 2) d).
Example gcm_test_case_4 :
  let key := oo_str_lit "feffe9928665731c6d6a8f9467308308" in
  let nonce := oo_str_lit "cafebabefacedbaddecaf888" in
  let pt := oo_str_lit "d9313225f88406e5a55909c5aff5269a86a7a9531534f7da2e4c303d8a318a721c3c0c95956809532fcf0e2449a6b525b16aedf5aa0de657ba637b39" in
  let aad := oo_str_lit "feedfacedeadbeeffeedfacedeadbeefabaddad2" in
  crypto_aes_gcm_seal_internal key nonce pt aad = Ret (oo_str_lit
    "42831ec2217774244b7221b784d0d49ce3aa212f2c02a4e035c17e2329aca12e21d514b25466931c7d8f6a5aac84aa051ba30b396a0aac973d58e0915bc94fbc3221a5db94fae95ae7121a47").
Proof. vm_compute. reflexivity. Qed.

(** * GF(2^128) *)
Module Gf128.
(** A polynomial over GF(2) is the integer of its coefficients: bit [i] is
    the coefficient of [x^i]. *)
Definition P : Z := 2 ^ 128 + 0x87.
(** The product [a b] from the low [n] coefficients of [a]. *)
Fixpoint clmul (n : nat) (a b : Z) : Z :=
  match n with
  | O => 0
  | S n => Z.lxor (clmul n a b) (if Z.testbit a (Z.of_nat n) then Z.shiftl b (Z.of_nat n) else 0)
  end.
(** Equality modulo [P]: the difference is a multiple of [P]. *)
Definition multiple (m : Z) : Prop := exists n q, m = clmul n q P.
Definition congr (a b : Z) : Prop := multiple (Z.lxor a b).

(** A GCM block as a polynomial: the coefficient of [x^i] is bit [7 - i mod 8]
    of byte [i / 8]. *)
Definition bit_at (s : list Z) (i : nat) : bool := Z.testbit s.[i / 8] (7 - Z.of_nat (i mod 8)).
Definition of_bits (n : nat) (f : nat -> bool) : Z :=
  foldr (fun i acc => 2 * acc + Z.b2z (f i)) 0 (seq 0 n).
Definition coef (s : list Z) : Z := of_bits 128 (bit_at s).
End Gf128.
Import Gf128 (clmul, congr, coef, multiple).

Lemma of_bits_from f m : forall i s, 0 <= i ->
  Z.testbit (foldr (fun i acc => 2 * acc + Z.b2z (f i)) 0 (seq s m)) i
  = (i <? Z.of_nat m) && f (s + Z.to_nat i)%nat.
Proof.
  induction m as [|m IH]; intros i s Hi; cbn [seq foldr].
  - rewrite Z.bits_0. by replace (i <? Z.of_nat 0) with false by lia.
  - destruct (Z.eq_dec i 0) as [->|Hne].
    + rewrite Z.testbit_0_r. replace (s + Z.to_nat 0)%nat with s by lia. done.
    + replace i with (Z.succ (i - 1)) at 1 by lia. rewrite Z.testbit_succ_r by lia.
      rewrite IH by lia. replace (S s + Z.to_nat (i - 1))%nat with (s + Z.to_nat i)%nat by lia.
      f_equal. lia.
Qed.
Lemma of_bits_testbit n f i : 0 <= i -> Z.testbit (Gf128.of_bits n f) i = (i <? Z.of_nat n) && f (Z.to_nat i).
Proof. intros Hi. unfold Gf128.of_bits. by rewrite of_bits_from. Qed.

Lemma coef_bit s i : (i < 128)%nat -> Z.testbit (coef s) (Z.of_nat i) = Gf128.bit_at s i.
Proof.
  intros H. unfold coef. rewrite of_bits_testbit by lia. rewrite Nat2Z.id.
  by replace (Z.of_nat i <? Z.of_nat 128) with true by lia.
Qed.
Lemma coef_above s i : 128 <= i -> Z.testbit (coef s) i = false.
Proof.
  intros H. unfold coef. rewrite of_bits_testbit by lia.
  by replace (i <? Z.of_nat 128) with false by lia.
Qed.

(** ** The congruence *)

Lemma lxor_swap a b c d : Z.lxor (Z.lxor a b) (Z.lxor c d) = Z.lxor (Z.lxor a c) (Z.lxor b d).
Proof. rewrite !Z.lxor_assoc. f_equal. rewrite <- !Z.lxor_assoc. f_equal. apply Z.lxor_comm. Qed.
Lemma clmul_lxor n a b c : clmul n (Z.lxor a b) c = Z.lxor (clmul n a c) (clmul n b c).
Proof.
  induction n as [|n IH]; [done|]. cbn [clmul]. rewrite IH, Z.lxor_spec.
  destruct (Z.testbit a _), (Z.testbit b _); cbn [xorb]; rewrite ?Z.lxor_0_r; try done.
  - rewrite <- (Z.lxor_0_r (Z.lxor (clmul n a c) (clmul n b c))).
    rewrite <- (Z.lxor_nilpotent (Z.shiftl c (Z.of_nat n))). apply lxor_swap.
  - rewrite !Z.lxor_assoc. f_equal. apply Z.lxor_comm.
  - by rewrite !Z.lxor_assoc.
Qed.
Lemma double_shiftl x : 2 * x = Z.shiftl x 1.
Proof. rewrite Z.shiftl_mul_pow2 by lia. lia. Qed.
Lemma double_lxor a b : 2 * Z.lxor a b = Z.lxor (2 * a) (2 * b).
Proof. by rewrite !double_shiftl, Z.shiftl_lxor. Qed.
Lemma clmul_shift n a b : clmul (S n) (2 * a) b = 2 * clmul n a b.
Proof.
  induction n as [|n IH].
  - cbn [clmul]. change (Z.of_nat 0) with 0. rewrite Z.testbit_even_0. reflexivity.
  - assert (E : clmul (S (S n)) (2 * a) b = Z.lxor (clmul (S n) (2 * a) b)
      (if Z.testbit (2 * a) (Z.of_nat (S n)) then Z.shiftl b (Z.of_nat (S n)) else 0)) by done.
    rewrite E, IH. cbn [clmul]. replace (Z.of_nat (S n)) with (Z.succ (Z.of_nat n)) by lia.
    rewrite Z.testbit_even_succ, double_lxor by lia. f_equal.
    destruct (Z.testbit a (Z.of_nat n)); [|reflexivity].
    by rewrite double_shiftl, Z.shiftl_shiftl, Z.add_1_r by lia.
Qed.
Lemma clmul_mod n m a b : (n <= m)%nat -> clmul m (a mod 2 ^ Z.of_nat n) b = clmul n a b.
Proof.
  intros Hle.
  assert (Hlow : forall k, (k <= n)%nat -> clmul k (a mod 2 ^ Z.of_nat n) b = clmul k a b).
  { induction k as [|k IH]; intros Hk; [done|]. cbn [clmul]. rewrite IH by lia.
    by rewrite Z.mod_pow2_bits_low by lia. }
  induction Hle as [|m Hm IH]; [by apply Hlow|]. cbn [clmul].
  rewrite Z.mod_pow2_bits_high, IH by lia. apply Z.lxor_0_r.
Qed.

Lemma multiple_0 : multiple 0.
Proof. by exists 0%nat, 0. Qed.
Lemma multiple_lxor a b : multiple a -> multiple b -> multiple (Z.lxor a b).
Proof.
  intros (n & p & ->) (m & q & ->).
  exists (n `max` m)%nat, (Z.lxor (p mod 2 ^ Z.of_nat n) (q mod 2 ^ Z.of_nat m)).
  by rewrite clmul_lxor, !clmul_mod by lia.
Qed.
Lemma multiple_double a : multiple a -> multiple (2 * a).
Proof. intros (n & q & ->). exists (S n), (2 * q). by rewrite clmul_shift. Qed.
Lemma multiple_P : multiple Gf128.P.
Proof. by exists 1%nat, 1. Qed.

(** A multiple of [P] of degree below 128 is 0: the top coefficient of the
    factor survives at degree [128 + d]. *)
Lemma clmul_top n q d : (d < n)%nat -> Z.testbit q (Z.of_nat d) = true ->
  (forall i, (d < i < n)%nat -> Z.testbit q (Z.of_nat i) = false) ->
  Z.testbit (clmul n q Gf128.P) (128 + Z.of_nat d) = true.
Proof.
  intros Hd Hq Htop.
  assert (Hlow : forall k, (k <= d)%nat -> Z.testbit (clmul k q Gf128.P) (128 + Z.of_nat d) = false).
  { induction k as [|k IH]; intros Hk; [apply Z.bits_0|]. cbn [clmul]. rewrite Z.lxor_spec, IH by lia.
    case_match; [|by rewrite Z.bits_0]. rewrite Z.shiftl_spec by lia.
    apply (testbit_above _ 129); [unfold Gf128.P; lia|lia]. }
  induction Hd as [|n Hd IH]; cbn [clmul]; rewrite Z.lxor_spec.
  - rewrite Hlow, Hq, Z.shiftl_spec by lia. by replace (128 + Z.of_nat d - Z.of_nat d) with 128 by lia.
  - rewrite IH by (intros; apply Htop; lia). rewrite Htop by lia. by rewrite Z.bits_0.
Qed.

Lemma clmul_top_bit n q : clmul n q Gf128.P = 0 \/
  exists d, (d < n)%nat /\ Z.testbit q (Z.of_nat d) = true /\
    (forall i, (d < i < n)%nat -> Z.testbit q (Z.of_nat i) = false).
Proof.
  induction n as [|n IH]; [by left|]. cbn [clmul]. destruct (Z.testbit q (Z.of_nat n)) eqn:E.
  - right. exists n. split; [lia|]. split; [done|]. lia.
  - rewrite Z.lxor_0_r. destruct IH as [|(d & Hd & Hq & Hi)]; [by left|right].
    exists d. split; [lia|]. split; [done|]. intros i Hin.
    destruct (Nat.eq_dec i n) as [->|]; [done|]. apply Hi. lia.
Qed.

Lemma multiple_small m : multiple m -> 0 <= m < 2 ^ 128 -> m = 0.
Proof.
  intros (n & q & ->) Hr. destruct (clmul_top_bit n q) as [|(d & Hd & Hq & Htop)]; [done|].
  pose proof (clmul_top n q d Hd Hq Htop) as H. by rewrite (testbit_above _ 128) in H by lia.
Qed.

Lemma congr_unique a b : 0 <= a < 2 ^ 128 -> 0 <= b < 2 ^ 128 -> congr a b -> a = b.
Proof.
  intros Ha Hb H. apply Z.lxor_eq. apply multiple_small; [exact H|]. by apply lxor_range.
Qed.
Lemma congr_refl a : congr a a.
Proof. unfold Gf128.congr. rewrite Z.lxor_nilpotent. apply multiple_0. Qed.
Lemma congr_lxor a b c d : congr a b -> congr c d -> congr (Z.lxor a c) (Z.lxor b d).
Proof. unfold Gf128.congr. intros H1 H2. rewrite lxor_swap. by apply multiple_lxor. Qed.
Lemma congr_double a b : congr a b -> congr (2 * a) (2 * b).
Proof. unfold Gf128.congr. intros H. rewrite <- double_lxor. by apply multiple_double. Qed.
Lemma congr_P a b : congr a b -> congr (Z.lxor a Gf128.P) b.
Proof.
  unfold Gf128.congr. intros H. replace (Z.lxor (Z.lxor a Gf128.P) b) with (Z.lxor (Z.lxor a b) Gf128.P).
  - by apply multiple_lxor; [|apply multiple_P].
  - rewrite !Z.lxor_assoc. f_equal. apply Z.lxor_comm.
Qed.

(** ** The multiplier *)

Lemma gf_shift_cells v : length v = 16%nat ->
  gf_shift v = tab 16 (fun k =>
    if (k =? 0)%nat then Z.lxor (Z.shiftr v.[0] 1) (u8 (Z.land 0xe1 (u8 (- u8 (Z.land v.[15] 1)))))
    else u8 (Z.lor (Z.shiftr v.[k] 1) (Z.shiftl v.[k - 1] 7))).
Proof.
  intros H. destruct (block_16 _ H) as (?&?&?&?&?&?&?&?&?&?&?&?&?&?&?&?&->).
  lazy -[Z.lxor Z.land Z.lor Z.shiftr Z.shiftl u8 Z.opp]. reflexivity.
Qed.

Lemma land_1 x : Z.land x 1 = Z.b2z (Z.testbit x 0).
Proof. rewrite (Z.bit0_mod x). exact (land_mod x 1 ltac:(lia)). Qed.

(** The masks [0 - bit] of the constant-time selections. *)
Lemma bit_mask b : u8 (- u8 (Z.b2z b)) = if b then 255 else 0.
Proof. by destruct b. Qed.
Lemma land_255 x : isbyte x -> Z.land x 255 = x.
Proof. apply u8_id. Qed.

Lemma block_gf_shift v : block v -> block (gf_shift v).
Proof.
  intros [Hl Hb]. rewrite gf_shift_cells by done. split; [apply length_tab|].
  apply bytes_tab. intros k Hk. case_match; [|apply isbyte_u8]. apply isbyte_lxor; [|apply isbyte_u8].
  pose proof (bytes_get v 0 Hb) as H0. unfold isbyte in *. arith_bits. lia.
Qed.

Lemma u8_testbit x i : 0 <= i -> Z.testbit (u8 x) i = (i <? 8) && Z.testbit x i.
Proof.
  intros Hi. rewrite u8_mod. change 256 with (2 ^ 8). destruct (Z.ltb_spec i 8).
  - by rewrite Z.mod_pow2_bits_low by lia.
  - by rewrite Z.mod_pow2_bits_high by lia.
Qed.

(** Shifting the byte string right by one bit shifts the coefficients up; a
    coefficient that leaves at the top folds back through [0xe1]. *)
Lemma bit_at_shift v i : block v -> (i < 128)%nat ->
  Gf128.bit_at (gf_shift v) i =
  xorb ((0 <? i)%nat && Gf128.bit_at v (i - 1))
       (Gf128.bit_at v 127 && ((i =? 0) || (i =? 1) || (i =? 2) || (i =? 7))%nat).
Proof.
  intros [Hl Hb] Hi. unfold Gf128.bit_at at 1. rewrite gf_shift_cells by done.
  rewrite get_tab by lia. change (Gf128.bit_at v 127) with (Z.testbit v.[15] 0).
  rewrite land_1, bit_mask.
  set (k := (i / 8)%nat). set (m := 7 - Z.of_nat (i mod 8)). assert (Hm : 0 <= m < 8) by lia.
  destruct (Nat.eqb_spec k 0) as [Hk|Hk].
  - rewrite Z.lxor_spec. rewrite Z.shiftr_spec by lia. f_equal.
    + unfold Gf128.bit_at. destruct (Nat.ltb_spec 0 i) as [Hp|Hp]; cbn [andb].
      * replace ((i - 1) / 8)%nat with 0%nat by lia. f_equal. lia.
      * apply (testbit_above _ 8); [apply (bytes_get v 0 Hb)|lia].
    + destruct (Z.testbit v.[15] 0); [|by rewrite Z.bits_0].
      assert (Hi8 : (i < 8)%nat) by lia. subst m. clear -Hi8.
      do 8 (destruct i as [|i]; [reflexivity|]). lia.
  - replace ((i =? 0) || (i =? 1) || (i =? 2) || (i =? 7))%nat with false by lia.
    rewrite andb_false_r, xorb_false_r, u8_testbit by lia.
    replace (m <? 8) with true by lia. replace (0 <? i)%nat with true by lia. cbn [andb].
    rewrite Z.lor_spec, Z.shiftr_spec, Z.shiftl_spec by lia. unfold Gf128.bit_at.
    destruct (Nat.eq_dec (i mod 8) 0) as [E|E].
    + rewrite (testbit_above v.[k] 8) by (apply (bytes_get v k Hb) || lia). cbn [orb].
      replace ((i - 1) / 8)%nat with (k - 1)%nat by lia. f_equal. lia.
    + rewrite (Z.testbit_neg_r v.[k - 1]) by lia. rewrite orb_false_r.
      replace ((i - 1) / 8)%nat with k by lia. f_equal. lia.
Qed.

Lemma coef_shift v : block v ->
  coef (gf_shift v) =
  if Z.testbit (coef v) 127 then Z.lxor (2 * coef v) Gf128.P else 2 * coef v.
Proof.
  intros Hv. change 127 with (Z.of_nat 127). rewrite coef_bit by lia.
  apply Z.bits_inj'. intros n Hn.
  assert (HP : Z.testbit Gf128.P n = ((n =? 0) || (n =? 1) || (n =? 2) || (n =? 7) || (n =? 128))).
  { destruct (Z.lt_ge_cases n 129) as [Hlt|Hge].
    - rewrite <- (Z2Nat.id n) by lia. assert (Hk : (Z.to_nat n < 129)%nat) by lia. revert Hk.
      generalize (Z.to_nat n) as k. clear. intros k Hk.
      do 129 (destruct k as [|k]; [reflexivity|]). lia.
    - rewrite (testbit_above _ 129) by (unfold Gf128.P; lia). lia. }
  assert (HR : Z.testbit (if Gf128.bit_at v 127 then Z.lxor (2 * coef v) Gf128.P else 2 * coef v) n
    = xorb ((0 <? n) && Z.testbit (coef v) (n - 1)) (Gf128.bit_at v 127 && Z.testbit Gf128.P n)).
  { assert (H2 : Z.testbit (2 * coef v) n = (0 <? n) && Z.testbit (coef v) (n - 1)).
    { destruct (Z.eq_dec n 0) as [->|]; [by rewrite Z.testbit_even_0|].
      replace n with (Z.succ (n - 1)) at 1 by lia. rewrite Z.testbit_even_succ by lia.
      by replace (0 <? n) with true by lia. }
    destruct (Gf128.bit_at v 127); rewrite ?Z.lxor_spec, H2; [done|].
    by rewrite andb_false_l, xorb_false_r. }
  rewrite HR, HP. destruct (Z.lt_ge_cases n 128) as [Hlt|Hge].
  - rewrite <- (Z2Nat.id n) by lia. set (i := Z.to_nat n). rewrite coef_bit, bit_at_shift by (done || lia).
    f_equal.
    + destruct (Nat.eq_dec i 0) as [->|]; [done|].
      replace (Z.of_nat i - 1) with (Z.of_nat (i - 1)) by lia. rewrite coef_bit by lia. f_equal. lia.
    + f_equal. lia.
  - rewrite coef_above by lia. destruct (Z.eq_dec n 128) as [->|Hne].
    + change (128 - 1) with (Z.of_nat 127). rewrite coef_bit by lia. by destruct (Gf128.bit_at v 127).
    + rewrite coef_above by lia. replace (n =? 128) with false by lia.
      replace (n =? 7) with false by lia. replace (n =? 2) with false by lia.
      replace (n =? 1) with false by lia. replace (n =? 0) with false by lia. cbn [orb].
      by rewrite !andb_false_r.
Qed.

Lemma coef_range s : 0 <= coef s < 2 ^ 128.
Proof.
  assert (0 <= coef s).
  { apply Z.bits_iff_nonneg_ex. exists 128. intros m Hm. apply coef_above. lia. }
  split; [done|]. destruct (Z.eq_dec (coef s) 0) as [->|]; [lia|].
  apply Z.log2_lt_pow2; [lia|]. apply Z.nle_gt. intros Hl.
  pose proof (Z.bit_log2 (coef s) ltac:(lia)) as Hb. rewrite coef_above in Hb by lia. done.
Qed.

Lemma byte_bits_above l i n : bytes l -> 8 <= n -> Z.testbit l.[i] n = false.
Proof. intros Hl Hn. apply (testbit_above _ 8); [by apply bytes_get|done]. Qed.

Lemma coef_inj s t : block s -> block t -> coef s = coef t -> s = t.
Proof.
  intros [Hl Hb] [Hl' Hb'] E. apply array_ext; [lia|]. intros k Hk. apply Z.bits_inj'. intros n Hn.
  destruct (Z.lt_ge_cases n 8) as [Hlt|Hge].
  - assert (H : Gf128.bit_at s (8 * k + Z.to_nat (7 - n)) = Gf128.bit_at t (8 * k + Z.to_nat (7 - n))).
    { rewrite <- !coef_bit by lia. by rewrite E. }
    unfold Gf128.bit_at in H. replace ((8 * k + Z.to_nat (7 - n)) / 8)%nat with k in H by lia.
    by replace (7 - Z.of_nat ((8 * k + Z.to_nat (7 - n)) mod 8)) with n in H by lia.
  - by rewrite !byte_bits_above.
Qed.

(** Blockwise xor is addition of coefficients. *)
Lemma coef_xor a b : length a = 16%nat -> coef (tab 16 (fun k => Z.lxor a.[k] b.[k])) = Z.lxor (coef a) (coef b).
Proof.
  intros Hl. apply Z.bits_inj'. intros n Hn. rewrite Z.lxor_spec.
  destruct (Z.lt_ge_cases n 128) as [Hlt|Hge]; [|by rewrite !coef_above].
  rewrite <- (Z2Nat.id n) by lia. rewrite !coef_bit by lia. unfold Gf128.bit_at.
  rewrite get_tab by lia. apply Z.lxor_spec.
Qed.
Lemma coef_zeros : coef (zeros 16) = 0.
Proof. reflexivity. Qed.

(** After [t] bits: [v] is [x^t y] and [r] the product with the low [t]
    coefficients, both modulo [P]. *)
Definition gf_inv (x y : list Z) (t : nat) (rv : list Z * list Z) : Prop :=
  block (fst rv) /\ block (snd rv) /\
  congr (coef (fst rv)) (clmul t (coef x) (coef y)) /\
  congr (coef (snd rv)) (Z.shiftl (coef y) (Z.of_nat t)).

Lemma gf_bit_inv x y i j rv : block x -> (i < 16)%nat -> (j < 8)%nat ->
  gf_inv x y (8 * i + j) rv -> gf_inv x y (S (8 * i + j)) (gf_bit x i j rv).
Proof.
  intros Hx Hi Hj (Hr & Hv & Cr & Cv). destruct rv as [r v]. cbn [fst snd] in *.
  assert (Hbit : Z.land (Z.shiftr x.[i] (7 - Z.of_nat j)) 1 = Z.b2z (Z.testbit (coef x) (Z.of_nat (8 * i + j)))).
  { rewrite land_1, Z.shiftr_spec, coef_bit by lia. unfold Gf128.bit_at.
    replace ((8 * i + j) / 8)%nat with i by lia. do 2 f_equal. lia. }
  unfold gf_bit, gf_inv. cbn [fst snd clmul]. rewrite Hbit, bit_mask.
  set (b := Z.testbit (coef x) (Z.of_nat (8 * i + j))).
  assert (Hm : tab 16 (fun k => Z.lxor r.[k] (u8 (Z.land v.[k] (if b then 255 else 0))))
     = tab 16 (fun k => Z.lxor r.[k] (if b then v else zeros 16).[k])).
  { apply tab_ext. intros k _. f_equal. destruct b; [|by rewrite Z.land_0_r, get_zeros].
    pose proof (bytes_get v k (proj2 Hv)). by rewrite land_255, u8_byte. }
  rewrite Hm. split; [|split; [by apply block_gf_shift|split]].
  - split; [apply length_tab|]. apply bytes_tab. intros k _. apply isbyte_lxor; [apply bytes_get, Hr|].
    apply bytes_get. destruct b; [apply Hv|apply bytes_zeros].
  - rewrite coef_xor by apply Hr. apply congr_lxor; [done|].
    destruct b; [done|]. rewrite coef_zeros. apply congr_refl.
  - rewrite coef_shift by done. replace (Z.of_nat (S (8 * i + j))) with (Z.of_nat (8 * i + j) + 1) by lia.
    rewrite <- Z.shiftl_shiftl, <- double_shiftl by lia.
    destruct (Z.testbit (coef v) 127); [apply congr_P|]; by apply congr_double.
Qed.

Lemma gf_mult_spec x y : block x -> block y ->
  block (gcm_gf_mult x y) /\ congr (coef (gcm_gf_mult x y)) (clmul 128 (coef x) (coef y)).
Proof.
  intros Hx Hy. unfold gcm_gf_mult.
  assert (H : gf_inv x y (8 * 16) (for_ 0 16 (fun i rv => for_ 0 8 (gf_bit x i) rv) (zeros 16, y))).
  { apply (for_ind (fun i => gf_inv x y (8 * i))); [lia| |].
    - split; [split; [done|apply bytes_zeros]|]. split; [done|]. cbn [fst snd clmul].
      rewrite coef_zeros, Z.shiftl_0_r. split; apply congr_refl.
    - intros i rv Hi HI. replace (8 * S i)%nat with (8 * i + 8)%nat by lia.
      apply (for_ind (fun j => gf_inv x y (8 * i + j))); [lia|by rewrite Nat.add_0_r|].
      intros j rv' Hj HJ. rewrite Nat.add_succ_r. apply gf_bit_inv; done || lia. }
  destruct H as (H1 & _ & H2 & _). by split.
Qed.

(** C36. The constant-time multiplier [gcm_gf_mult] (masks instead of
    branches, a bytewise right shift with the carry folded back by [0xe1])
    multiplies in GF(2^128): its result is a block whose polynomial is
    congruent to the product of the operands' polynomials modulo
    [x^128 + x^7 + x^2 + x + 1], and it is the only block with this property. *)
Theorem gcm_gf_mult_is_field_product x y :
  block x -> block y ->
  block (gcm_gf_mult x y) /\ congr (coef (gcm_gf_mult x y)) (clmul 128 (coef x) (coef y)) /\
  (forall z, block z -> congr (coef z) (coef (gcm_gf_mult x y)) -> z = gcm_gf_mult x y).
Proof.
  intros Hx Hy. destruct (gf_mult_spec x y Hx Hy) as [Hb Hc]. split; [done|]. split; [done|].
  intros z Hz Hzc. apply coef_inj; [done|done|]. apply congr_unique; [apply coef_range..|done].
Qed.

Lemma gcm_gf_mult_is_field_product_witness :
  block (gcm_gf_mult fips_c1_pt fips_c1_key) /\
  congr (coef (gcm_gf_mult fips_c1_pt fips_c1_key)) (clmul 128 (coef fips_c1_pt) (coef fips_c1_key)) /\
  (forall z, block z -> congr (coef z) (coef (gcm_gf_mult fips_c1_pt fips_c1_key)) ->
     z = gcm_gf_mult fips_c1_pt fips_c1_key).
Proof.
  apply (gcm_gf_mult_is_field_product fips_c1_pt fips_c1_key); (split; [reflexivity|by apply bytesb_ok]).
Defined.

(** * Seal and open *)

Lemma block_upd b i v : block b -> isbyte v -> block (upd b i v).
Proof. intros [Hl Hb] Hv. split; [by rewrite length_upd|]. by apply Forall_insert. Qed.
Lemma block_inc32 b : block b -> block (gcm_inc32 b).
Proof. intros H. unfold gcm_inc32. cbv zeta. repeat (apply block_upd; [|apply isbyte_u8]). done. Qed.
Lemma block_xor16 a b : bytes a -> bytes b -> block (gcm_xor16 a b).
Proof. intros Ha Hb. split; [apply length_tab|]. apply bytes_tab. auto with oo_bytes. Qed.

Lemma block_ghash_update h data y : block h -> bytes data -> block y -> block (ghash_update h data y).
Proof.
  intros Hh Hd Hy. unfold ghash_update. apply (for_ind (fun _ => block)); [lia|done|].
  intros i s _ Hs. apply gf_mult_spec; [|done]. apply block_xor16; [apply Hs|].
  apply bytes_app. auto with oo_bytes.
Qed.
Lemma block_ghash h aad ct : block h -> bytes aad -> bytes ct -> block (gcm_ghash h aad ct).
Proof.
  intros Hh Ha Hc. unfold gcm_ghash. apply gf_mult_spec; [|done]. apply block_xor16.
  - apply block_ghash_update; [done|done|]. apply block_ghash_update; [done|done|].
    split; [done|apply bytes_zeros].
  - apply bytes_app. auto with oo_bytes.
Qed.

Lemma block_j0 nb : length nb = 12%nat -> bytes nb -> block (gcm_j0 nb).
Proof.
  intros Hl Hb. unfold gcm_j0. split.
  - rewrite length_app, length_slice by lia. done.
  - apply bytes_app. split; [auto with oo_bytes|]. bytes_cells; unfold isbyte; lia.
Qed.

(** A key stream of bytes; the counters keep an invariant. *)
Section stream.
Context {C : Type} (I : C -> Prop) (bs : nat) (ks : C -> list Z) (next : C -> C).
Hypothesis (Hbs : (0 < bs)%nat) (Hks : forall c, I c -> bytes (ks c)) (Hnext : forall c, I c -> I (next c)).

Lemma length_stream_loop fuel c x : (length x <= fuel)%nat -> length (stream_loop bs ks next fuel c x) = length x.
Proof using Hbs.
  revert c x. induction fuel as [|fuel IH]; intros c x Hf; [cbn; lia|]. cbn [stream_loop].
  destruct (Nat.ltb_spec 0 (length x)) as [Hp|Hp]; [|cbn; lia].
  rewrite length_app, length_tab, IH; rewrite length_drop; case_match; lia.
Qed.
Lemma bytes_stream_loop fuel c x : bytes (stream_loop bs ks next fuel c x).
Proof using Type.
  revert c x. induction fuel as [|fuel IH]; intros c x; [apply bytes_nil|]. cbn [stream_loop].
  case_match; [|apply bytes_nil]. apply bytes_app. auto with oo_bytes.
Qed.

(** The stream undoes itself. *)
Lemma stream_loop_twice fuel c x : I c -> bytes x -> (length x <= fuel)%nat ->
  stream_loop bs ks next fuel c (stream_loop bs ks next fuel c x) = x.
Proof using Hbs Hks Hnext.
  revert c x. induction fuel as [|fuel IH]; intros c x Hc Hx Hf.
  - destruct x; [done|cbn in Hf; lia].
  - cbn [stream_loop]. destruct (Nat.ltb_spec 0 (length x)) as [Hp|Hp]; [|by destruct x; [|cbn in Hp; lia]].
    set (left := if (bs <? length x)%nat then bs else length x).
    assert (Hleft : (0 < left <= length x)%nat) by (unfold left; case_match; lia).
    set (part := tab left _). assert (Hpl : length part = left) by apply length_tab.
    set (rest := stream_loop bs ks next fuel (next c) (drop left x)).
    assert (Hrl : length rest = (length x - left)%nat).
    { unfold rest. rewrite length_stream_loop; rewrite length_drop; lia. }
    assert (Hlen : length (part ++ rest) = length x) by (rewrite length_app; lia).
    rewrite Hlen. replace (0 <? length x)%nat with true by lia. fold left.
    rewrite drop_app_length' by done. unfold rest. rewrite IH; [|by apply Hnext|auto with oo_bytes|rewrite length_drop; lia].
    rewrite <- (take_drop left x) at 2. f_equal.
    apply array_ext; rewrite length_tab, ?length_take; [lia|].
    intros i Hi. rewrite get_tab by done. rewrite get_app_l by lia. unfold part. rewrite get_tab by done.
    pose proof (bytes_get _ i (Hks c Hc)) as Hk. pose proof (bytes_get x i Hx) as Hxi.
    rewrite (u8_byte (Z.lxor x.[i] _)), lxor_cancel, u8_byte by auto with oo_bytes. by rewrite get_take.
Qed.
End stream.

(** The counter mode under one expanded key. *)
Section keyed.
Context (kb : list Z) (Hkb : block kb).
Let rk := aead_aes_expand kb.

Lemma block_encrypt cb : block cb -> block (aead_aes_encrypt cb rk).
Proof. intros H. by apply (aead_block_spec kb _ rk cb (aead_key_expand_inv kb Hkb)). Qed.

Lemma gcm_crypt_twice nb x : length nb = 12%nat -> bytes nb -> bytes x ->
  gcm_crypt rk nb (gcm_crypt rk nb x) = x.
Proof.
  intros Hl Hb Hx. unfold gcm_crypt.
  destruct (Nat.ltb_spec 0 (length x)) as [Hp|Hp]; [|by destruct x; [|cbn in Hp; lia]].
  unfold gcm_gctr, gctr_loop. rewrite length_stream_loop by lia. replace (0 <? length x)%nat with true by lia.
  apply (stream_loop_twice block); [lia|intros c Hc; by apply block_encrypt|apply block_inc32| |done|lia].
  by apply block_inc32, block_j0.
Qed.
Lemma length_gcm_crypt nb x : length (gcm_crypt rk nb x) = length x.
Proof.
  unfold gcm_crypt. destruct (Nat.ltb_spec 0 (length x)); [apply length_stream_loop; lia|cbn; lia].
Qed.
Lemma bytes_gcm_crypt nb x : bytes (gcm_crypt rk nb x).
Proof. unfold gcm_crypt. case_match; [apply bytes_stream_loop|apply bytes_nil]. Qed.

Lemma block_gcm_tag nb a c : length nb = 12%nat -> bytes nb -> bytes a -> bytes c ->
  block (gcm_tag rk nb a c).
Proof.
  intros Hl Hb Ha Hc. unfold gcm_tag. apply block_xor16.
  - apply block_encrypt. by apply block_j0.
  - apply block_ghash; [|done|done]. apply block_encrypt. split; [done|apply bytes_zeros].
Qed.
End keyed.

(** ** Operands *)

Lemma aead_fill_bytes s want b : wf_str s -> aead_fill s want = Some b -> length b = want /\ bytes b.
Proof.
  intros [Hs0 Hs] H. unfold aead_fill in H. destruct (sdata s) as [d|]; [|done]. destruct Hs as [Hl Hb].
  case_match eqn:E; [|case_match; [|done]; by apply hex_pairs_length in H].
  simplify_eq. rewrite length_take. split; [lia|by apply bytes_take].
Qed.
Lemma aead_load_bytes s b : wf_str s -> aead_load s = Some b -> bytes b.
Proof.
  intros [Hs0 Hs] H. unfold aead_load in H. case_match; [done|].
  destruct (sdata s) as [d|]; [|simplify_eq; apply bytes_nil]. destruct Hs as [Hl Hb].
  case_match; simplify_eq; [apply bytes_tab; auto with oo_bytes|]. case_match; auto with oo_bytes.
Qed.
Lemma aead_load_some s : wf_str s -> exists b, aead_load s = Some b.
Proof. intros [Hs _]. unfold aead_load. repeat case_match; try lia; by eexists. Qed.

(** The loaders read the hexadecimal a seal wrote. *)
Lemma hex_of_digits p n i : bytes p -> (i < 2 * n)%nat -> 0 <= hex_digit (hex_of p n).[i].
Proof.
  intros Hp Hi. destruct (get_hex_of p n (i / 2)) as [E0 E1]; [lia|].
  pose proof (bytes_get p (i / 2) Hp) as Hb. unfold isbyte in Hb.
  rewrite (land_mod _ 4) in E0 by lia. rewrite (land_mod _ 4) in E1 by lia. rewrite Z.shiftr_div_pow2 in E0 by lia.
  destruct (Nat.eq_dec (i mod 2) 0).
  - replace i with (2 * (i / 2))%nat by lia. rewrite E0, hex_digit_hx; lia.
  - replace i with (2 * (i / 2) + 1)%nat by lia. rewrite E1, hex_digit_hx; lia.
Qed.
Lemma aead_load_hex p : bytes p -> aead_load (str_of (hex_of p (length p))) = Some p.
Proof.
  intros Hp. unfold aead_load, str_of. cbn [sdata slen]. rewrite length_hex_of.
  case_match; [lia|]. destruct (Nat.eq_dec (length p) 0) as [E|Hn].
  { destruct p; [done|discriminate]. }
  assert (Hall : aead_all_hex (str_of (hex_of p (length p))) = true).
  { unfold aead_all_hex, str_of. cbn [sdata slen]. rewrite length_hex_of.
    case_match eqn:E; [lia|]. apply forallb_forall. intros i Hi%in_seq.
    rewrite aead_hex_digit_eq. pose proof (hex_of_digits p (length p) i Hp). lia. }
  unfold str_of in Hall. rewrite length_hex_of in Hall. rewrite Hall. f_equal.
  replace (Z.to_nat (Z.of_nat (2 * length p) / 2)) with (length p) by lia.
  apply array_ext; rewrite length_tab; [done|]. intros i Hi. rewrite get_tab by done.
  destruct (get_hex_of p (length p) i Hi) as [-> ->]. rewrite !aead_hex_digit_eq.
  apply nibbles_byte. by apply bytes_get.
Qed.
Lemma aead_fill_hex p n : bytes p -> length p = n -> (0 < n)%nat ->
  aead_fill (str_of (hex_of p n)) n = Some p.
Proof.
  intros Hp Hn Hpos. unfold aead_fill, str_of. cbn [sdata slen]. rewrite length_hex_of.
  case_match; [lia|]. case_match; [|lia]. by apply hex_pairs_encode.
Qed.
Lemma hex_of_full p n : hex_of p n = hex_of (take n p) n.
Proof. apply hex_of_ext. intros i Hi. by rewrite get_take. Qed.

(** ** What the entry points promise *)

Section surface.
Context {G : SignGate}.

(** The operands of a call, loaded. *)
Record operands (key nonce aad : OoStr) (kb nb a : list Z) : Prop := {
  op_key_wf : wf_str key; op_nonce_wf : wf_str nonce; op_aad_wf : wf_str aad;
  op_key : aead_fill key 16 = Some kb;
  op_nonce : aead_fill nonce 12 = Some nb;
  op_aad : aead_load aad = Some a }.

Lemma operands_bytes key nonce aad kb nb a : operands key nonce aad kb nb a ->
  block kb /\ (length nb = 12%nat /\ bytes nb) /\ bytes a.
Proof.
  intros [Wk Wn Wa Ek En Ea]. split; [exact (aead_fill_bytes _ _ _ Wk Ek)|].
  split; [exact (aead_fill_bytes _ _ _ Wn En)|exact (aead_load_bytes _ _ Wa Ea)].
Qed.

Lemma res_or_aead_str_of l : l <> [] -> res_or_aead (str_of l) = mkResS true (str_of l).
Proof. by destruct l. Qed.

Lemma oo_seal_value cap key nonce pt aad kb nb a p :
  sign_gate cap = None -> operands key nonce aad kb nb a -> wf_str pt -> aead_load pt = Some p ->
  let ct := gcm_crypt (aead_aes_expand kb) nb p in
  let tag := gcm_tag (aead_aes_expand kb) nb a ct in
  oo_seal cap key nonce pt aad
  = Ret (mkResS true (str_of (hex_of ct (length p) ++ hex_of tag 16))).
Proof.
  intros Hg [[Hk _] [Hn _] [Ha _] Ek En Ea] [Hp _] Ep ct tag.
  unfold oo_seal, require_sign. rewrite Hg. cbn [run_bind]. case_match; [lia|].
  unfold crypto_aes_gcm_seal_internal. rewrite Ek, En, Ep, Ea. cbn [of_option run_bind].
  fold ct. fold tag. unfold aead_hex_cat. rewrite res_or_aead_str_of.
  - unfold ct. by rewrite length_gcm_crypt.
  - intros E. apply (f_equal length) in E. rewrite length_app, !length_hex_of in E. cbn in E. lia.
Qed.

Lemma oo_open_value cap key nonce ct tag aad kb nb a c tb :
  sign_gate cap = None -> operands key nonce aad kb nb a ->
  wf_str ct -> wf_str tag -> aead_load ct = Some c -> aead_fill tag 16 = Some tb ->
  oo_open cap key nonce ct tag aad = Ret (
    if bool_decide (tb = gcm_tag (aead_aes_expand kb) nb a c) && negb (length c =? 0)%nat
    then mkResS true (str_of (gcm_crypt (aead_aes_expand kb) nb c))
    else mkResS false (oo_str_lit "E_AEAD")).
Proof.
  intros Hg Hop Hct Htag Ec Et. pose proof (operands_bytes _ _ _ _ _ _ Hop) as (Bk & [Ln Bn] & Ba).
  destruct Hop as [[Hk _] [Hn _] [Ha _] Ek En Ea].
  pose proof (aead_load_bytes _ _ Hct Ec) as Bc. pose proof (aead_fill_bytes _ _ _ Htag Et) as [Lt Bt].
  pose proof (block_gcm_tag kb Bk nb a c Ln Bn Ba Bc) as [Lg Bg].
  destruct Hct as [Hct _]. destruct Htag as [Htag _].
  unfold oo_open, require_sign. rewrite Hg. cbn [run_bind]. case_match; [lia|].
  unfold crypto_aes_gcm_open_internal. rewrite Ek, En, Et, Ec, Ea. cbn [of_option run_bind].
  pose proof (crypto_ct_cmp_zero _ tb 16 Bg Bt Lg Lt) as Hz.
  set (tg := gcm_tag (aead_aes_expand kb) nb a c) in *.
  destruct (Z.eqb_spec (crypto_ct_cmp (Some tg) (Some tb) 16) 0) as [E|E]; cbn [negb run_bind].
  - apply Hz in E. rewrite bool_decide_eq_true_2 by done. cbn [andb].
    unfold aead_bin. rewrite take_ge by (by rewrite length_gcm_crypt).
    pose proof (length_gcm_crypt kb nb c) as Hl. set (pt := gcm_crypt (aead_aes_expand kb) nb c) in *.
    destruct (Nat.eqb_spec (length c) 0) as [E0|E0]; [|apply f_equal, res_or_aead_str_of; by intros ->].
    by destruct pt; [|cbn in Hl; lia].
  - rewrite bool_decide_eq_false_2; [done|]. intros Heq. apply E, Hz. done.
Qed.

Lemma oo_open_unfilled cap key nonce ct tag aad : sign_gate cap = None ->
  (aead_fill key 16 = None \/ aead_fill nonce 12 = None \/ aead_fill tag 16 = None) ->
  oo_open cap key nonce ct tag aad = Ret (mkResS false (oo_str_lit "E_AEAD")).
Proof.
  intros Hg Hn. unfold oo_open, require_sign. rewrite Hg. cbn [run_bind].
  case_match; [reflexivity|]. unfold crypto_aes_gcm_open_internal.
  destruct (aead_fill key 16), (aead_fill nonce 12), (aead_fill tag 16); try reflexivity.
  destruct Hn as [|[|]]; discriminate.
Qed.

(** Sealing then opening gives the plaintext back: under a valid token
    and loadable operands, [oo_seal] returns the hexadecimal of a ciphertext
    as long as the plaintext and of a 16-byte tag, and [oo_open] on these two
    parts, with the same key, nonce and associated data, returns the
    plaintext's bytes.  The plaintext is the one [aead_load] reads (hexadecimal
    text is decoded) and is not empty. *)
Theorem oo_open_seal cap key nonce pt aad kb nb a p :
  sign_gate cap = None -> operands key nonce aad kb nb a ->
  wf_str pt -> aead_load pt = Some p -> p <> [] ->
  exists ct tag,
    length ct = length p /\ length tag = 16%nat /\
    oo_seal cap key nonce pt aad
      = Ret (mkResS true (str_of (hex_of ct (length ct) ++ hex_of tag 16))) /\
    oo_open cap key nonce (str_of (hex_of ct (length ct))) (str_of (hex_of tag 16)) aad
      = Ret (mkResS true (str_of p)).
Proof.
  intros Hg Hop Hpt Ep Hne. pose proof (operands_bytes _ _ _ _ _ _ Hop) as (Bk & [Ln Bn] & Ba).
  pose proof (aead_load_bytes _ _ Hpt Ep) as Bp.
  set (rk := aead_aes_expand kb). set (ct := gcm_crypt rk nb p).
  assert (Bct : bytes ct) by (by apply bytes_gcm_crypt). assert (Lct : length ct = length p) by apply length_gcm_crypt.
  destruct (block_gcm_tag kb Bk nb a ct Ln Bn Ba Bct) as [Lt Bt].
  exists ct, (gcm_tag rk nb a ct). split; [done|]. split; [done|]. split.
  - rewrite Lct. by apply oo_seal_value.
  - erewrite (oo_open_value _ _ _ _ _ _ kb nb a ct (gcm_tag rk nb a ct)).
    + rewrite bool_decide_eq_true_2 by done. rewrite Lct.
      destruct (Nat.eqb_spec (length p) 0); [by destruct p|]. cbn [andb negb].
      unfold ct. by rewrite gcm_crypt_twice.
    + done.
    + done.
    + apply wf_str_of, bytes_hex_of.
    + apply wf_str_of, bytes_hex_of.
    + by apply aead_load_hex.
    + apply aead_fill_hex; done || lia.
Qed.

(** C16. [oo_open] is authenticated.  Without the capability the process ends
    (the header of the file says that it never does).  With it the call never
    reads an unset operand and returns one of two things: when key, nonce and
    tag load, the ciphertext is not empty and the tag is the GCM tag of the
    associated data and the ciphertext under the key and nonce, the
    counter-mode decryption; the one error [E_AEAD] otherwise, whatever was
    wrong. *)
Theorem oo_open_authentic cap key nonce ct tag aad :
  wf_str key -> wf_str nonce -> wf_str ct -> wf_str tag -> wf_str aad ->
  match sign_gate cap with
  | None =>
      let good kb nb tb c a := aead_fill key 16 = Some kb /\ aead_fill nonce 12 = Some nb /\ aead_fill tag 16 = Some tb /\
        aead_load ct = Some c /\ aead_load aad = Some a /\ c <> [] /\ tb = gcm_tag (aead_aes_expand kb) nb a c in
      (forall kb nb tb c a, good kb nb tb c a ->
         oo_open cap key nonce ct tag aad = Ret (mkResS true (str_of (gcm_crypt (aead_aes_expand kb) nb c)))) /\
      ((forall kb nb tb c a, ~ good kb nb tb c a) -> oo_open cap key nonce ct tag aad = Ret (mkResS false (oo_str_lit "E_AEAD")))
  | Some code => oo_open cap key nonce ct tag aad = Exited code
  end.
Proof.
  intros Wk Wn Wc Wt Wa. destruct (sign_gate cap) eqn:Hg; [by unfold oo_open, require_sign; rewrite Hg|]. cbv zeta.
  destruct (aead_load_some ct Wc) as [c Ec]. destruct (aead_load_some aad Wa) as [a Ea]. split.
  - intros kb nb tb c' a' (E1 & E2 & E3 & E4 & E5 & N & T). rewrite (oo_open_value cap key nonce ct tag aad kb nb a' c' tb) by done.
    rewrite bool_decide_eq_true_2 by done. destruct (Nat.eqb_spec (length c') 0) as [L|L]; [by destruct c'|done].
  - intros B. destruct (aead_fill key 16) as [kb|] eqn:Ek; [|apply oo_open_unfilled; auto].
    destruct (aead_fill nonce 12) as [nb|] eqn:En; [|apply oo_open_unfilled; auto].
    destruct (aead_fill tag 16) as [tb|] eqn:Et; [|apply oo_open_unfilled; auto].
    rewrite (oo_open_value cap key nonce ct tag aad kb nb a c tb) by done. case_bool_decide as T; [|done].
    destruct (Nat.eqb_spec (length c) 0) as [L|L]; [done|]. exfalso. apply (B kb nb tb c a). repeat (split; [assumption || reflexivity|]). split; [by intros ->|exact T].
Qed.
End surface.

(** Concrete operands for the witnesses. *)
Definition wit_key : OoStr := str_of (tab 16 Z.of_nat).
Definition wit_nonce : OoStr := str_of (tab 12 Z.of_nat).
Definition wit_gate : SignGate := fun cap => if cap =? 7 then None else Some 1.

Lemma oo_open_seal_witness : exists ct tag,
  length ct = 3%nat /\ length tag = 16%nat /\
  oo_seal (G := wit_gate) 7 wit_key wit_nonce (str_of [1; 2; 3]) (str_of [9])
    = Ret (mkResS true (str_of (hex_of ct (length ct) ++ hex_of tag 16))) /\
  oo_open (G := wit_gate) 7 wit_key wit_nonce (str_of (hex_of ct (length ct))) (str_of (hex_of tag 16)) (str_of [9])
    = Ret (mkResS true (str_of [1; 2; 3])).
Proof.
  apply (@oo_open_seal wit_gate 7 wit_key wit_nonce (str_of [1; 2; 3]) (str_of [9])
    (tab 16 Z.of_nat) (tab 12 Z.of_nat) [9] [1; 2; 3]).
  - reflexivity.
  - split; first [reflexivity | apply wf_str_of, bytesb_ok; reflexivity].
  - apply wf_str_of, bytesb_ok. reflexivity.
  - reflexivity.
  - discriminate.
Defined.

Definition wit_block : list Z := Eval vm_compute in gcm_crypt (aead_aes_expand (tab 16 Z.of_nat)) (tab 12 Z.of_nat) [1; 2; 3].
Definition wit_tag : list Z := Eval vm_compute in gcm_tag (aead_aes_expand (tab 16 Z.of_nat)) (tab 12 Z.of_nat) [9] wit_block.
(** The genuine tag opens to the plaintext; with its first bit changed it is an
    error; and another capability ends the process. *)
Lemma oo_open_authentic_witness :
  oo_open (G := wit_gate) 7 wit_key wit_nonce (str_of wit_block) (str_of wit_tag) (str_of [9]) = Ret (mkResS true (str_of [1; 2; 3])) /\
  oo_open (G := wit_gate) 7 wit_key wit_nonce (str_of wit_block) (str_of (wit_tag.[0 <- Z.lxor wit_tag.[0] 1])) (str_of [9]) = Ret (mkResS false (oo_str_lit "E_AEAD")) /\
  oo_open (G := wit_gate) 8 wit_key wit_nonce (str_of wit_block) (str_of wit_tag) (str_of [9]) = Exited 1.
Proof.
  assert (W : forall l, bytesb l = true -> wf_str (str_of l)) by (intros l H; by apply wf_str_of, bytesb_ok).
  pose proof (fun cap tag Wt => @oo_open_authentic wit_gate cap wit_key wit_nonce (str_of wit_block) (str_of tag) (str_of [9])
    (W (tab 16 Z.of_nat) eq_refl) (W (tab 12 Z.of_nat) eq_refl) (W wit_block eq_refl) Wt (W [9] eq_refl)) as H.
  assert (T : gcm_tag (aead_aes_expand (tab 16 Z.of_nat)) (tab 12 Z.of_nat) [9] wit_block = wit_tag) by (vm_compute; reflexivity).
  assert (P : gcm_crypt (aead_aes_expand (tab 16 Z.of_nat)) (tab 12 Z.of_nat) wit_block = [1; 2; 3]) by (vm_compute; reflexivity).
  split; [|split; [|exact (H 8 wit_tag (W wit_tag eq_refl))]].
  - rewrite <- P. apply (proj1 (H 7 wit_tag (W wit_tag eq_refl)) (tab 16 Z.of_nat) (tab 12 Z.of_nat) wit_tag wit_block [9]).
    rewrite T. repeat (split; [reflexivity || discriminate|]). reflexivity.
  - apply (proj2 (H 7 (wit_tag.[0 <- Z.lxor wit_tag.[0] 1]) (W (wit_tag.[0 <- Z.lxor wit_tag.[0] 1]) eq_refl))). intros kb nb tb c a (E1 & E2 & E3 & E4 & E5 & _ & Q).
    change (Some (tab 16 Z.of_nat) = Some kb) in E1. change (Some (tab 12 Z.of_nat) = Some nb) in E2. change (Some wit_block = Some c) in E4. change (Some [9] = Some a) in E5.
    injection E1 as <-. injection E2 as <-. injection E4 as <-. injection E5 as <-. rewrite T in Q. subst tb. discriminate E3.
Defined.

(** The operand forms are told apart by content: a plaintext that happens to
    be an even-length hexadecimal text is sealed as the bytes it spells. *)
Lemma aead_load_hex_text : aead_load (oo_str_lit "cafe") = Some [0xca; 0xfe].
Proof. reflexivity. Qed.
