(* ===== verification/ChaCha.v ===== *)
(** ChaCha20-Poly1305 ([sec/crypto/aead/chacha20_poly1305.c]): the stream
    cipher, the one-time authenticator on five 26-bit limbs, and the AEAD
    construction of RFC 8439.

    [Rfc8439] states the authenticator over the integers modulo
    [2^130 - 5]; the limb code refines it with no overflow. *)
From S2P Require Import Prelude Str Hex Sha2 Aes Gcm.
From Stdlib Require String.
Import (notations) String.
Open Scope Z_scope.

(** * ChaCha20 *)

Definition cc_rotl (x n : Z) : Z := u32 (Z.lor (Z.shiftl x n) (Z.shiftr x (32 - n))).
(** [cc_load32 (p + o)]. *)
Definition cc_load32 (p : list Z) (o : nat) : Z :=
  Z.lor (Z.lor (Z.lor p.[o] (Z.shiftl p.[o + 1] 8)) (Z.shiftl p.[o + 2] 16)) (Z.shiftl p.[o + 3] 24).
Definition cc_store32 (x : Z) : list Z := [u8 x; u8 (Z.shiftr x 8); u8 (Z.shiftr x 16); u8 (Z.shiftr x 24)].

(** [cc_qr(x+a, x+b, x+c, x+d)]. *)
Definition cc_qr (a b c d : nat) (x : list Z) : list Z :=
  let x := x.[a <- u32 (x.[a] + x.[b])] in let x := x.[d <- Z.lxor x.[d] x.[a]] in let x := x.[d <- cc_rotl x.[d] 16] in
  let x := x.[c <- u32 (x.[c] + x.[d])] in let x := x.[b <- Z.lxor x.[b] x.[c]] in let x := x.[b <- cc_rotl x.[b] 12] in
  let x := x.[a <- u32 (x.[a] + x.[b])] in let x := x.[d <- Z.lxor x.[d] x.[a]] in let x := x.[d <- cc_rotl x.[d] 8] in
  let x := x.[c <- u32 (x.[c] + x.[d])] in let x := x.[b <- Z.lxor x.[b] x.[c]] in x.[b <- cc_rotl x.[b] 7].

Definition chacha_double_round (x : list Z) : list Z :=
  let x := cc_qr 0 4 8 12 x in let x := cc_qr 1 5 9 13 x in
  let x := cc_qr 2 6 10 14 x in let x := cc_qr 3 7 11 15 x in
  let x := cc_qr 0 5 10 15 x in let x := cc_qr 1 6 11 12 x in
  let x := cc_qr 2 7 8 13 x in cc_qr 3 4 9 14 x.

Definition chacha_block (key nonce : list Z) (counter : Z) : list Z :=
  let orig := [0x61707865; 0x3320646e; 0x79622d32; 0x6b206574]
    ++ tab 8 (fun i => cc_load32 key (4 * i))
    ++ [counter; cc_load32 nonce 0; cc_load32 nonce 4; cc_load32 nonce 8] in
  let x := for_ 0 10 (fun _ => chacha_double_round) orig in
  concat (tab 16 (fun i => cc_store32 (u32 (x.[i] + orig.[i])))).

Definition chacha_loop (fuel : nat) (key nonce : list Z) (counter : Z) (x : list Z) : list Z :=
  stream_loop 64 (chacha_block key nonce) (fun counter => u32 (counter + 1)) fuel counter x.
Definition chacha_xor (key nonce : list Z) (counter : Z) (x : list Z) : list Z :=
  chacha_loop (length x) key nonce counter x.

(** * Poly1305 *)

Record limbs := L5 { l0 : Z; l1 : Z; l2 : Z; l3 : Z; l4 : Z }.

(** The clamped key limbs. *)
Definition poly_r (key : list Z) : limbs :=
  let t0 := cc_load32 key 0 in let t1 := cc_load32 key 4 in
  let t2 := cc_load32 key 8 in let t3 := cc_load32 key 12 in
  let r0 := Z.land t0 0x3ffffff in
  let t0 := Z.shiftr t0 26 in let t0 := Z.lor t0 (u32 (Z.shiftl t1 6)) in
  let r1 := Z.land t0 0x3ffff03 in
  let t1 := Z.shiftr t1 20 in let t1 := Z.lor t1 (u32 (Z.shiftl t2 12)) in
  let r2 := Z.land t1 0x3ffc0ff in
  let t2 := Z.shiftr t2 14 in let t2 := Z.lor t2 (u32 (Z.shiftl t3 18)) in
  let r3 := Z.land t2 0x3f03fff in
  let t3 := Z.shiftr t3 8 in
  let r4 := Z.land t3 0x00fffff in
  L5 r0 r1 r2 r3 r4.

(** [h += block + 2^128]. *)
Definition poly_add (h : limbs) (blk : list Z) : limbs :=
  let t0 := cc_load32 blk 0 in let t1 := cc_load32 blk 4 in
  let t2 := cc_load32 blk 8 in let t3 := cc_load32 blk 12 in
  L5 (u32 (l0 h + Z.land t0 0x3ffffff))
     (u32 (l1 h + Z.land (Z.lor (Z.shiftr t0 26) (u32 (Z.shiftl t1 6))) 0x3ffffff))
     (u32 (l2 h + Z.land (Z.lor (Z.shiftr t1 20) (u32 (Z.shiftl t2 12))) 0x3ffffff))
     (u32 (l3 h + Z.land (Z.lor (Z.shiftr t2 14) (u32 (Z.shiftl t3 18))) 0x3ffffff))
     (u32 (l4 h + Z.lor (Z.shiftr t3 8) (Z.shiftl 1 24))).

(** [h *= r] with the partial carry. *)
Definition poly_mul (r h : limbs) : limbs :=
  let r0 := l0 r in let r1 := l1 r in let r2 := l2 r in let r3 := l3 r in let r4 := l4 r in
  let s1 := u32 (r1 * 5) in let s2 := u32 (r2 * 5) in let s3 := u32 (r3 * 5) in let s4 := u32 (r4 * 5) in
  let h0 := l0 h in let h1 := l1 h in let h2 := l2 h in let h3 := l3 h in let h4 := l4 h in
  let d0 := u64 (h0*r0 + h1*s4 + h2*s3 + h3*s2 + h4*s1) in
  let d1 := u64 (h0*r1 + h1*r0 + h2*s4 + h3*s3 + h4*s2) in
  let d2 := u64 (h0*r2 + h1*r1 + h2*r0 + h3*s4 + h4*s3) in
  let d3 := u64 (h0*r3 + h1*r2 + h2*r1 + h3*r0 + h4*s4) in
  let d4 := u64 (h0*r4 + h1*r3 + h2*r2 + h3*r1 + h4*r0) in
  let h0 := Z.land d0 0x3ffffff in let d1 := u64 (d1 + Z.shiftr d0 26) in
  let h1 := Z.land d1 0x3ffffff in let d2 := u64 (d2 + Z.shiftr d1 26) in
  let h2 := Z.land d2 0x3ffffff in let d3 := u64 (d3 + Z.shiftr d2 26) in
  let h3 := Z.land d3 0x3ffffff in let d4 := u64 (d4 + Z.shiftr d3 26) in
  let h4 := Z.land d4 0x3ffffff in let h0 := u32 (h0 + u32 (u32 (Z.shiftr d4 26) * 5)) in
  let h1 := u32 (h1 + Z.shiftr h0 26) in let h0 := Z.land h0 0x3ffffff in
  L5 h0 h1 h2 h3 h4.

(** [while (off < n)]: a short last block is padded with zeros. *)
Definition poly_blocks (r : limbs) (m : list Z) : limbs :=
  for_ 0 ((length m + 15) / 16) (fun b h =>
    let part := slice (16 * b) 16 m in
    let blk := part ++ zeros (16 - length part) in
    poly_mul r (poly_add h blk)) (L5 0 0 0 0 0).

(** The full carry before the final subtraction. *)
Definition poly_carry (h : limbs) : limbs :=
  let h0 := l0 h in let h1 := l1 h in let h2 := l2 h in let h3 := l3 h in let h4 := l4 h in
  let h2 := u32 (h2 + Z.shiftr h1 26) in let h1 := Z.land h1 0x3ffffff in
  let h3 := u32 (h3 + Z.shiftr h2 26) in let h2 := Z.land h2 0x3ffffff in
  let h4 := u32 (h4 + Z.shiftr h3 26) in let h3 := Z.land h3 0x3ffffff in
  let h0 := u32 (h0 + u32 (Z.shiftr h4 26 * 5)) in let h4 := Z.land h4 0x3ffffff in
  let h1 := u32 (h1 + Z.shiftr h0 26) in let h0 := Z.land h0 0x3ffffff in
  L5 h0 h1 h2 h3 h4.
(** The constant-time choice between [h] and [h - p]. *)
Definition poly_select (h : limbs) : limbs :=
  let g0 := u32 (l0 h + 5) in let g1 := u32 (l1 h + Z.shiftr g0 26) in let g0 := Z.land g0 0x3ffffff in
  let g2 := u32 (l2 h + Z.shiftr g1 26) in let g1 := Z.land g1 0x3ffffff in
  let g3 := u32 (l3 h + Z.shiftr g2 26) in let g2 := Z.land g2 0x3ffffff in
  let g4 := u32 (l4 h + Z.shiftr g3 26 - 0x4000000) in let g3 := Z.land g3 0x3ffffff in
  let mask := u32 (Z.shiftr g4 31 - 1) in
  let g0 := Z.land g0 mask in let g1 := Z.land g1 mask in let g2 := Z.land g2 mask in
  let g3 := Z.land g3 mask in let g4 := Z.land g4 mask in
  let mask := u32 (Z.lnot mask) in
  L5 (Z.lor (Z.land (l0 h) mask) g0) (Z.lor (Z.land (l1 h) mask) g1) (Z.lor (Z.land (l2 h) mask) g2)
     (Z.lor (Z.land (l3 h) mask) g3) (Z.lor (Z.land (l4 h) mask) g4).
(** Packing to 32-bit words and adding the second half of the key. *)
Definition poly_tag (key : list Z) (h : limbs) : list Z :=
  let h0 := Z.land (Z.lor (l0 h) (u32 (Z.shiftl (l1 h) 26))) 0xffffffff in
  let h1 := Z.land (Z.lor (Z.shiftr (l1 h) 6) (u32 (Z.shiftl (l2 h) 20))) 0xffffffff in
  let h2 := Z.land (Z.lor (Z.shiftr (l2 h) 12) (u32 (Z.shiftl (l3 h) 14))) 0xffffffff in
  let h3 := Z.land (Z.lor (Z.shiftr (l3 h) 18) (u32 (Z.shiftl (l4 h) 8))) 0xffffffff in
  let f0 := u64 (h0 + cc_load32 key 16) in
  let f1 := u64 (h1 + cc_load32 key 20 + Z.shiftr f0 32) in
  let f2 := u64 (h2 + cc_load32 key 24 + Z.shiftr f1 32) in
  let f3 := u64 (h3 + cc_load32 key 28 + Z.shiftr f2 32) in
  cc_store32 (u32 f0) ++ cc_store32 (u32 f1) ++ cc_store32 (u32 f2) ++ cc_store32 (u32 f3).

Definition poly1305_mac (key m : list Z) : list Z :=
  poly_tag key (poly_select (poly_carry (poly_blocks (poly_r key) m))).

(** * The AEAD construction *)

Definition poly_pad_mac (key aad ct : list Z) : list Z :=
  let an := length aad in let cn := length ct in
  let aad_pad := ((16 - an mod 16) mod 16)%nat in
  let ct_pad := ((16 - cn mod 16) mod 16)%nat in
  let lenblk := le_bytes 8 (Z.of_nat an) ++ le_bytes 8 (Z.of_nat cn) in
  poly1305_mac key (aad ++ zeros aad_pad ++ ct ++ zeros ct_pad ++ lenblk).

Definition cc_crypt (kb nb x : list Z) : list Z := if (0 <? length x)%nat then chacha_xor kb nb 1 x else [].
Definition cc_tag (kb nb a c : list Z) : list Z := poly_pad_mac (chacha_block kb nb 0) a c.

Definition crypto_chacha20poly1305_seal_internal (key nonce pt aad : OoStr) : run OoStr :=
  match aead_fill key 32, aead_fill nonce 12 with
  | Some kb, Some nb =>
      let* p := of_option (aead_load pt) in
      let* a := of_option (aead_load aad) in
      let ct := cc_crypt kb nb p in
      let tag := cc_tag kb nb a ct in
      Ret (aead_hex_cat ct (length ct) tag 16)
  | _, _ => Ret (oo_str_lit "")
  end.

Definition crypto_chacha20poly1305_open_internal (key nonce ct tag aad : OoStr) : run OoStr :=
  match aead_fill key 32, aead_fill nonce 12, aead_fill tag 16 with
  | Some kb, Some nb, Some tb =>
      let* c := of_option (aead_load ct) in
      let* a := of_option (aead_load aad) in
      let expect := cc_tag kb nb a c in
      if negb (crypto_ct_cmp (Some expect) (Some tb) 16 =? 0) then Ret (oo_str_lit "")
      else Ret (aead_bin (cc_crypt kb nb c) (length c))
  | _, _, _ => Ret (oo_str_lit "")
  end.

(** RFC 8439, sections 2.3.2 and 2.5.2. *)
Example rfc8439_block : take 16 (chacha_block (tab 32 Z.of_nat) (hexb "000000090000004a00000000") 1)
  = hexb "10f1e7e4d13b5915500fdd1fa32071c4".
Proof. vm_compute. reflexivity. Qed.
Example rfc8439_aead :
  let kb := tab 32 (fun i => 0x80 + Z.of_nat i) in
  let nb := hexb "070000004041424344454647" in
  let pt := ascii_bytes "Ladies and Gentlemen of the class of '99: If I could offer you only one tip for the future, sunscreen would be it." in
  let ct := cc_crypt kb nb pt in
  (take 16 ct, cc_tag kb nb (hexb "50515253c0c1c2c3c4c5c6c7") ct)
  = (hexb "d31a8d34648e60db7b86afbc53ef7ec2", hexb "1ae10b594f09e26a7e902ecbd0600691").
Proof. vm_compute. reflexivity. Qed.

(** * RFC 8439 *)
Module Rfc8439.
Definition p : Z := 2 ^ 130 - 5.
Definition clamp (r : Z) : Z := Z.land r 0x0ffffffc0ffffffc0ffffffc0fffffff.
(** Blocks of 16 bytes, the last one possibly shorter, each with a one bit
    above its last byte. *)
Definition block (m : list Z) (b : nat) : Z :=
  let part := slice (16 * b) 16 m in le_join part + 2 ^ (8 * Z.of_nat (length part)).
Definition poly1305 (key m : list Z) : list Z :=
  let r := clamp (le_join (slice 0 16 key)) in
  let s := le_join (slice 16 16 key) in
  let acc := for_ 0 ((length m + 15) / 16) (fun b acc => ((acc + block m b) * r) mod p) 0 in
  le_bytes 16 (acc + s).
Definition pad16 (x : list Z) : list Z := x ++ zeros ((16 - length x mod 16) mod 16).
Definition mac_data (aad ct : list Z) : list Z :=
  pad16 aad ++ pad16 ct ++ le_bytes 8 (Z.of_nat (length aad)) ++ le_bytes 8 (Z.of_nat (length ct)).
End Rfc8439.

(** ** Limbs *)

(** The number the limbs stand for. *)
Definition val (h : limbs) : Z := l0 h + l1 h * 2^26 + l2 h * 2^52 + l3 h * 2^78 + l4 h * 2^104.
Abbreviation B26 := 67108864 (only parsing).

(** The loop's invariant: nearly reduced limbs, limb 1 may carry a little. *)
Definition reduced (h : limbs) : Prop :=
  0 <= l0 h < B26 /\ 0 <= l1 h < B26 + 64 /\ 0 <= l2 h < B26 /\ 0 <= l3 h < B26 /\ 0 <= l4 h < B26.
Definition rlimbs (r : limbs) : Prop :=
  0 <= l0 r < B26 /\ 0 <= l1 r < B26 /\ 0 <= l2 r < B26 /\ 0 <= l3 r < B26 /\ 0 <= l4 r < 1048576.

Lemma land26 x : Z.land x 0x3ffffff = x mod B26.
Proof. exact (land_mod x 26 ltac:(lia)). Qed.
Lemma shr26 x : Z.shiftr x 26 = x / B26.
Proof. by rewrite Z.shiftr_div_pow2. Qed.

Lemma mul_bound a b A B : 0 <= a <= A -> 0 <= b <= B -> 0 <= a * b <= A * B.
Proof. intros Ha Hb. split; [lia|]. by apply Z.mul_le_mono_nonneg; lia. Qed.

(** The carry chain of the product, on the column sums. *)
Lemma carry_chain d0 d1 d2 d3 d4 :
  0 <= d0 < 2^58 -> 0 <= d1 < 2^58 -> 0 <= d2 < 2^58 -> 0 <= d3 < 2^58 -> 0 <= d4 < 2^55 + 2^52 ->
  let e1 := d1 + d0 / B26 in let e2 := d2 + e1 / B26 in let e3 := d3 + e2 / B26 in
  let e4 := d4 + e3 / B26 in let x0 := d0 mod B26 + e4 / B26 * 5 in
  0 <= e4 / B26 < 620000000 /\ 0 <= x0 < 2^32 /\
  reduced (L5 (x0 mod B26) (e1 mod B26 + x0 / B26) (e2 mod B26) (e3 mod B26) (e4 mod B26)).
Proof.
  intros H0 H1 H2 H3 H4. cbv zeta. unfold reduced. cbn [l0 l1 l2 l3 l4].
  assert (Q0 : 0 <= d0 / B26 < 2^32) by (clear - H0; lia). set (q0 := d0 / B26) in *. clearbody q0.
  assert (Q1 : 0 <= (d1 + q0) / B26 < 2^32 + 64) by (clear - H1 Q0; lia). set (q1 := (d1 + q0) / B26) in *.
  pose proof (Z.mod_pos_bound d0 B26 eq_refl) as B0. pose proof (Z.mod_pos_bound (d1 + q0) B26 eq_refl) as B1.
  set (m1 := (d1 + q0) mod B26) in *. clearbody q1 m1.
  assert (Q2 : 0 <= (d2 + q1) / B26 < 2^32 + 128) by (clear - H2 Q1; lia). set (q2 := (d2 + q1) / B26) in *.
  pose proof (Z.mod_pos_bound (d2 + q1) B26 eq_refl) as B2. clearbody q2.
  assert (Q3 : 0 <= (d3 + q2) / B26 < 2^32 + 128) by (clear - H3 Q2; lia). set (q3 := (d3 + q2) / B26) in *.
  pose proof (Z.mod_pos_bound (d3 + q2) B26 eq_refl) as B3. clearbody q3.
  assert (Q4 : 0 <= (d4 + q3) / B26 < 620000000) by (clear - H4 Q3; lia). set (q4 := (d4 + q3) / B26) in *.
  pose proof (Z.mod_pos_bound (d4 + q3) B26 eq_refl) as B4. clearbody q4.
  set (m0 := d0 mod B26) in *. clearbody m0. clear H0 H1 H2 H3 H4 Q0 Q1 Q2 Q3.
  pose proof (Z.mod_pos_bound (m0 + q4 * 5) B26 eq_refl) as B5.
  assert (Q5 : 0 <= (m0 + q4 * 5) / B26 < 64) by (clear - B0 Q4; lia).
  repeat split; lia.
Qed.

Lemma cong_mod p a b k : a = b + k * p -> a mod p = b mod p.
Proof. intros ->. apply Z_mod_plus_full. Qed.

(** One multiplication: no column or carry overflows, and the value is the
    product modulo [2^130 - 5]. *)
Lemma poly_mul_spec r h : rlimbs r ->
  0 <= l0 h < 2 * B26 -> 0 <= l1 h < 2 * B26 + 64 -> 0 <= l2 h < 2 * B26 -> 0 <= l3 h < 2 * B26 ->
  0 <= l4 h < 2 * B26 ->
  reduced (poly_mul r h) /\ val (poly_mul r h) mod Rfc8439.p = (val h * val r) mod Rfc8439.p.
Proof.
  destruct r as [r0 r1 r2 r3 r4], h as [h0 h1 h2 h3 h4]. unfold rlimbs, val. cbn [l0 l1 l2 l3 l4].
  intros (R0 & R1 & R2 & R3 & R4) H0 H1 H2 H3 H4. unfold poly_mul. cbn [l0 l1 l2 l3 l4].
  rewrite !(u32_id (_ * 5)) by lia.
  assert (M : forall a b, 0 <= a < 2 * B26 + 64 -> 0 <= b < 5 * B26 -> 0 <= a * b <= (2 * B26 + 63) * (5 * B26 - 1))
    by (intros; apply mul_bound; lia).
  assert (M1 : forall a b, 0 <= a < 2 * B26 + 64 -> 0 <= b < B26 -> 0 <= a * b <= (2 * B26 + 63) * (B26 - 1))
    by (intros; apply mul_bound; lia).
  assert (M4 : forall a b, 0 <= a < 2 * B26 + 64 -> 0 <= b < 1048576 -> 0 <= a * b <= (2 * B26 + 63) * 1048575)
    by (intros; apply mul_bound; lia).
  set (d0 := h0 * r0 + h1 * (r4 * 5) + h2 * (r3 * 5) + h3 * (r2 * 5) + h4 * (r1 * 5)).
  set (d1 := h0 * r1 + h1 * r0 + h2 * (r4 * 5) + h3 * (r3 * 5) + h4 * (r2 * 5)).
  set (d2 := h0 * r2 + h1 * r1 + h2 * r0 + h3 * (r4 * 5) + h4 * (r3 * 5)).
  set (d3 := h0 * r3 + h1 * r2 + h2 * r1 + h3 * r0 + h4 * (r4 * 5)).
  set (d4 := h0 * r4 + h1 * r3 + h2 * r2 + h3 * r1 + h4 * r0).
  assert (D0 : 0 <= d0 < 2^58).
  { pose proof (M1 h0 r0 ltac:(lia) ltac:(lia)). pose proof (M h1 (r4 * 5) ltac:(lia) ltac:(lia)). pose proof (M h2 (r3 * 5) ltac:(lia) ltac:(lia)). pose proof (M h3 (r2 * 5) ltac:(lia) ltac:(lia)).
    pose proof (M h4 (r1 * 5) ltac:(lia) ltac:(lia)). clear M M1 M4. unfold d0. lia. }
  assert (D1 : 0 <= d1 < 2^58).
  { pose proof (M1 h0 r1 ltac:(lia) ltac:(lia)). pose proof (M1 h1 r0 ltac:(lia) ltac:(lia)). pose proof (M h2 (r4 * 5) ltac:(lia) ltac:(lia)). pose proof (M h3 (r3 * 5) ltac:(lia) ltac:(lia)).
    pose proof (M h4 (r2 * 5) ltac:(lia) ltac:(lia)). clear M M1 M4. unfold d1. lia. }
  assert (D2 : 0 <= d2 < 2^58).
  { pose proof (M1 h0 r2 ltac:(lia) ltac:(lia)). pose proof (M1 h1 r1 ltac:(lia) ltac:(lia)). pose proof (M1 h2 r0 ltac:(lia) ltac:(lia)). pose proof (M h3 (r4 * 5) ltac:(lia) ltac:(lia)).
    pose proof (M h4 (r3 * 5) ltac:(lia) ltac:(lia)). clear M M1 M4. unfold d2. lia. }
  assert (D3 : 0 <= d3 < 2^58).
  { pose proof (M1 h0 r3 ltac:(lia) ltac:(lia)). pose proof (M1 h1 r2 ltac:(lia) ltac:(lia)). pose proof (M1 h2 r1 ltac:(lia) ltac:(lia)). pose proof (M1 h3 r0 ltac:(lia) ltac:(lia)).
    pose proof (M h4 (r4 * 5) ltac:(lia) ltac:(lia)). clear M M1 M4. unfold d3. lia. }
  assert (D4 : 0 <= d4 < 2^55 + 2^52).
  { pose proof (M4 h0 r4 ltac:(lia) ltac:(lia)). pose proof (M1 h1 r3 ltac:(lia) ltac:(lia)). pose proof (M1 h2 r2 ltac:(lia) ltac:(lia)). pose proof (M1 h3 r1 ltac:(lia) ltac:(lia)).
    pose proof (M1 h4 r0 ltac:(lia) ltac:(lia)). clear M M1 M4. unfold d4. lia. }
  clear M M1 M4.
  assert (E : (h0 + h1 * 2^26 + h2 * 2^52 + h3 * 2^78 + h4 * 2^104) * (r0 + r1 * 2^26 + r2 * 2^52 + r3 * 2^78 + r4 * 2^104)
     = d0 + d1 * 2^26 + d2 * 2^52 + d3 * 2^78 + d4 * 2^104
       + (h1 * r4 + h2 * r3 + h3 * r2 + h4 * r1 + (h2 * r4 + h3 * r3 + h4 * r2) * 2^26
          + (h3 * r4 + h4 * r3) * 2^52 + h4 * r4 * 2^78) * (2^130 - 5)) by (unfold d0, d1, d2, d3, d4; ring).
  rewrite E. clear E. unfold Rfc8439.p. rewrite Z_mod_plus_full.
  clearbody d0 d1 d2 d3 d4. clear - D0 D1 D2 D3 D4.
  pose proof (carry_chain d0 d1 d2 d3 d4 D0 D1 D2 D3 D4) as (C4 & Cx & CR).
  rewrite !land26, !shr26. rewrite !(u64_id d0), !(u64_id d1), !(u64_id d2), !(u64_id d3), !(u64_id d4) by lia.
  rewrite (u64_id (d1 + _)) by lia. rewrite (u64_id (d2 + _)) by lia.
  rewrite (u64_id (d3 + _)) by lia. rewrite (u64_id (d4 + _)) by lia.
  cbv zeta in *.
  set (e1 := d1 + d0 / B26) in *. set (e2 := d2 + e1 / B26) in *. set (e3 := d3 + e2 / B26) in *.
  set (e4 := d4 + e3 / B26) in *.
  rewrite (u32_id (e4 / B26)) by lia. rewrite (u32_id (e4 / B26 * 5)) by lia.
  rewrite (u32_id (d0 mod B26 + _)) by lia. set (x0 := d0 mod B26 + e4 / B26 * 5) in *.
  rewrite (u32_id (e1 mod B26 + _)) by (unfold reduced in CR; cbn [l0 l1 l2 l3 l4] in CR; lia).
  split; [exact CR|]. apply (cong_mod _ _ _ (- (e4 / B26))). unfold e4, e3, e2, e1, x0 in *. lia.
Qed.

(** ** Loading and clamping *)

Definition word32 (x : Z) : Prop := 0 <= x < 4294967296.

Lemma load32_val p o : bytes p ->
  cc_load32 p o = p.[o] + p.[o + 1] * 256 + p.[o + 2] * 65536 + p.[o + 3] * 16777216 /\ word32 (cc_load32 p o).
Proof.
  intros Hp. pose proof (bytes_get p o Hp) as H0. pose proof (bytes_get p (o + 1) Hp) as H1.
  pose proof (bytes_get p (o + 2) Hp) as H2. pose proof (bytes_get p (o + 3) Hp) as H3.
  unfold isbyte, word32, cc_load32 in *.
  rewrite (lor_shiftl _ _ 8), (lor_shiftl _ _ 16), (lor_shiftl _ _ 24) by lia. lia.
Qed.

(** The 128-bit number of four words, and of sixteen bytes. *)
Definition join4 (t0 t1 t2 t3 : Z) : Z := t0 + t1 * 2^32 + t2 * 2^64 + t3 * 2^96.

Lemma le_join_get l : bytes l ->
  le_join l = foldr (fun i acc => l.[i] + 256 * acc) 0 (seq 0 (length l)).
Proof.
  intros Hl. induction Hl as [|b l Hb Hl IH]; [done|].
  rewrite le_join_cons, IH by done. cbn [length seq foldr]. rewrite get_cons_0.
  rewrite <- seq_shift. f_equal. f_equal. clear. generalize (seq 0 (length l)) as q.
  induction q as [|i q IH]; [done|]. cbn. by rewrite IH.
Qed.

Lemma load32_join l : bytes l -> length l = 16%nat ->
  le_join l = join4 (cc_load32 l 0) (cc_load32 l 4) (cc_load32 l 8) (cc_load32 l 12).
Proof.
  intros Hb Hl. rewrite le_join_get by done. rewrite Hl. cbn [seq foldr].
  rewrite (proj1 (load32_val l 0 Hb)), (proj1 (load32_val l 4 Hb)),
    (proj1 (load32_val l 8 Hb)), (proj1 (load32_val l 12 Hb)).
  cbn [Nat.add]. unfold join4. lia.
Qed.

(** [(a >> (32 - k)) | (b << k)] in 32 bits. *)
Lemma straddle a b j k P Q : word32 a -> word32 b -> 0 <= j -> 0 <= k -> j + k = 32 ->
  2 ^ j = P -> 2 ^ k = Q -> P * Q = 4294967296 ->
  Z.lor (Z.shiftr a j) (u32 (Z.shiftl b k)) = a / P + b mod P * Q.
Proof.
  unfold word32. intros Ha Hb Hj Hk Hjk HP HQ HPQ. rewrite Z.shiftr_div_pow2, Z.shiftl_mul_pow2, u32_mod by lia.
  rewrite HP, HQ, <- HPQ, Z.mul_mod_distr_r by lia.
  rewrite <- HQ. apply lor_add; [lia|]. rewrite HQ.
  split; [apply Z.div_pos; lia|]. apply Z.div_lt_upper_bound; lia.
Qed.
Ltac straddles :=
  rewrite ?(straddle _ _ 26 6 67108864 64), ?(straddle _ _ 20 12 1048576 4096),
    ?(straddle _ _ 14 18 16384 262144) by (assumption || lia).

Lemma land_below x m k : 0 <= k -> 0 <= x -> 0 <= m < 2 ^ k -> 0 <= Z.land x m < 2 ^ k.
Proof.
  intros Hk Hx Hm. replace m with (Z.land m (2 ^ k - 1)).
  - rewrite Z.land_assoc, (land_mod _ k) by lia. apply Z.mod_pos_bound. lia.
  - rewrite (land_mod m k) by lia. apply Z.mod_small. lia.
Qed.

Lemma land_join a b x y k : 0 <= k -> 0 <= a < 2 ^ k -> 0 <= b < 2 ^ k ->
  Z.land (a + x * 2 ^ k) (b + y * 2 ^ k) = Z.land a b + Z.land x y * 2 ^ k.
Proof.
  intros Hk Ha Hb. assert (Hbit : forall u v n, 0 <= u < 2 ^ k -> 0 <= n ->
    Z.testbit (u + v * 2 ^ k) n = if n <? k then Z.testbit u n else Z.testbit v (n - k)).
  { intros u v n Hu Hn. rewrite <- lor_add, Z.lor_spec by lia.
    destruct (Z.ltb_spec n k); [rewrite Z.mul_pow2_bits_low by lia; apply orb_false_r|].
    rewrite (testbit_above u k), Z.mul_pow2_bits by lia. done. }
  assert (Hl : 0 <= Z.land a b < 2 ^ k) by (apply land_below; lia).
  apply Z.bits_inj'. intros n Hn. rewrite Z.land_spec, !Hbit by lia.
  case_match; by rewrite Z.land_spec.
Qed.

Lemma land_low x m : 0 <= m < B26 -> Z.land x m = Z.land (x mod B26) m.
Proof.
  intros Hm. rewrite <- land26, <- Z.land_assoc. f_equal.
  rewrite Z.land_comm, land26. symmetry. apply Z.mod_small. lia.
Qed.

(** The 26-bit limbs of four words. *)
Lemma limbs_of_words t0 t1 t2 t3 : word32 t0 -> word32 t1 -> word32 t2 -> word32 t3 ->
  let T := join4 t0 t1 t2 t3 in
  (t0 mod B26 = T mod B26) /\ ((t0 / B26 + t1 mod B26 * 64) mod B26 = (T / 2^26) mod B26) /\
  ((t1 / 1048576 + t2 mod 1048576 * 4096) mod B26 = (T / 2^52) mod B26) /\
  ((t2 / 16384 + t3 mod 16384 * 262144) mod B26 = (T / 2^78) mod B26) /\ t3 / 256 = T / 2^104 /\
  0 <= T < 2^128.
Proof. unfold word32, join4. intros. cbv zeta. repeat split; lia. Qed.

Lemma land_limbs a0 a1 a2 a3 a4 b0 b1 b2 b3 b4 :
  0 <= a0 < 2^26 -> 0 <= a1 < 2^26 -> 0 <= a2 < 2^26 -> 0 <= a3 < 2^26 ->
  0 <= b0 < 2^26 -> 0 <= b1 < 2^26 -> 0 <= b2 < 2^26 -> 0 <= b3 < 2^26 ->
  Z.land (a0 + (a1 + (a2 + (a3 + a4 * 2^26) * 2^26) * 2^26) * 2^26)
         (b0 + (b1 + (b2 + (b3 + b4 * 2^26) * 2^26) * 2^26) * 2^26)
  = Z.land a0 b0 + (Z.land a1 b1 + (Z.land a2 b2 + (Z.land a3 b3 + Z.land a4 b4 * 2^26) * 2^26) * 2^26) * 2^26.
Proof. intros. by rewrite !land_join by (assumption || (clear; lia)). Qed.

Lemma clamp_limbs T : 0 <= T < 2^128 ->
  Rfc8439.clamp T = Z.land (T mod B26) 0x3ffffff + Z.land ((T / 2^26) mod B26) 0x3ffff03 * 2^26
    + Z.land ((T / 2^52) mod B26) 0x3ffc0ff * 2^52 + Z.land ((T / 2^78) mod B26) 0x3f03fff * 2^78
    + Z.land (T / 2^104) 0x00fffff * 2^104.
Proof.
  intros HT. unfold Rfc8439.clamp.
  assert (E : T = T mod B26 + ((T / 2^26) mod B26 + ((T / 2^52) mod B26 + ((T / 2^78) mod B26
     + T / 2^104 * 2^26) * 2^26) * 2^26) * 2^26) by lia.
  rewrite E at 1.
  transitivity (Z.land (T mod B26 + ((T / 2^26) mod B26 + ((T / 2^52) mod B26 + ((T / 2^78) mod B26
     + T / 2^104 * 2^26) * 2^26) * 2^26) * 2^26)
    (0x3ffffff + (0x3ffff03 + (0x3ffc0ff + (0x3f03fff + 0x00fffff * 2^26) * 2^26) * 2^26) * 2^26));
    [reflexivity|].
  rewrite land_limbs by (try apply Z.mod_pos_bound; lia). ring.
Qed.

(** The words of a 16-byte block. *)
Lemma load_words l : bytes l -> (16 <= length l)%nat ->
  word32 (cc_load32 l 0) /\ word32 (cc_load32 l 4) /\ word32 (cc_load32 l 8) /\ word32 (cc_load32 l 12) /\
  le_join (slice 0 16 l) = join4 (cc_load32 l 0) (cc_load32 l 4) (cc_load32 l 8) (cc_load32 l 12).
Proof.
  intros Hb Hl. repeat (split; [by apply load32_val|]).
  rewrite load32_join by (auto with oo_bytes || (apply length_slice; lia)).
  assert (E : forall o, (o + 3 < 16)%nat -> cc_load32 (slice 0 16 l) o = cc_load32 l o).
  { intros o Ho. unfold cc_load32. by rewrite !get_slice by lia. }
  by rewrite !E by lia.
Qed.

Lemma poly_r_spec key : bytes key -> (16 <= length key)%nat ->
  rlimbs (poly_r key) /\ val (poly_r key) = Rfc8439.clamp (le_join (slice 0 16 key)).
Proof.
  intros Hb Hl. destruct (load_words key Hb Hl) as (W0 & W1 & W2 & W3 & ->). unfold poly_r.
  revert W0 W1 W2 W3. generalize (cc_load32 key 0) as t0, (cc_load32 key 4) as t1, (cc_load32 key 8) as t2,
    (cc_load32 key 12) as t3. clear. intros t0 t1 t2 t3 W0 W1 W2 W3. cbv zeta. straddles.
  destruct (limbs_of_words t0 t1 t2 t3 W0 W1 W2 W3) as (L0 & L1 & L2 & L3 & L4 & HT).
  rewrite clamp_limbs by exact HT.
  rewrite (land_low t0), (land_low (_ + _) 0x3ffff03), (land_low (_ + _) 0x3ffc0ff), (land_low (_ + _) 0x3f03fff),
    L0, L1, L2, L3 by (clear; lia).
  rewrite (Z.shiftr_div_pow2 t3 8) by (clear; lia). change (2 ^ 8) with 256. rewrite L4.
  unfold rlimbs, val. cbn [l0 l1 l2 l3 l4]. split; [|reflexivity].
  clear L0 L1 L2 L3 L4. 
  repeat split; apply (land_below _ _ 26) || apply (land_below _ _ 20); try (apply Z.mod_pos_bound); lia.
Qed.

Lemma poly_add_spec h blk : reduced h -> bytes blk -> length blk = 16%nat ->
  let h' := poly_add h blk in
  (0 <= l0 h' < 2 * B26 /\ 0 <= l1 h' < 2 * B26 + 64 /\ 0 <= l2 h' < 2 * B26 /\ 0 <= l3 h' < 2 * B26 /\
   0 <= l4 h' < 2 * B26) /\
  val h' = val h + le_join blk + 2 ^ 128.
Proof.
  intros Hh Hb Hl. destruct (load_words blk Hb ltac:(lia)) as (W0 & W1 & W2 & W3 & E).
  assert (Hs : slice 0 16 blk = blk) by (unfold slice; rewrite drop_0; apply take_ge; lia).
  rewrite Hs in E. rewrite E. clear E Hs Hl Hb. unfold poly_add. destruct h as [h0 h1 h2 h3 h4].
  revert W0 W1 W2 W3. generalize (cc_load32 blk 0) as t0, (cc_load32 blk 4) as t1, (cc_load32 blk 8) as t2,
    (cc_load32 blk 12) as t3. intros t0 t1 t2 t3 W0 W1 W2 W3. cbv zeta. straddles.
  destruct (limbs_of_words t0 t1 t2 t3 W0 W1 W2 W3) as (L0 & L1 & L2 & L3 & L4 & HT).
  rewrite !land26, L0, L1, L2, L3.
  rewrite (Z.shiftr_div_pow2 t3 8) by (clear; lia). change (2 ^ 8) with 256. rewrite L4.
  clear L0 L1 L2 L3 L4 W0 W1 W2 W3. set (T := join4 t0 t1 t2 t3) in *. clearbody T.
  rewrite (lor_shiftl _ 1 24) by (clear Hh; lia).
  unfold reduced, val in *. cbn [l0 l1 l2 l3 l4] in *.
  assert (A4 : 0 <= T / 2 ^ 104 < 16777216) by (clear Hh; lia).
  assert (A : T = T mod B26 + (T / 2^26) mod B26 * 2^26 + (T / 2^52) mod B26 * 2^52 + (T / 2^78) mod B26 * 2^78
     + T / 2^104 * 2^104) by (clear Hh; lia).
  pose proof (Z.mod_pos_bound T B26 eq_refl) as B0. pose proof (Z.mod_pos_bound (T / 2^26) B26 eq_refl) as B1.
  pose proof (Z.mod_pos_bound (T / 2^52) B26 eq_refl) as B2. pose proof (Z.mod_pos_bound (T / 2^78) B26 eq_refl) as B3.
  revert A A4 B0 B1 B2 B3. generalize (T mod B26), ((T / 2^26) mod B26), ((T / 2^52) mod B26), ((T / 2^78) mod B26), (T / 2^104).
  clear HT. intros a0 a1 a2 a3 a4 -> A4 B0 B1 B2 B3. rewrite !u32_id by lia. lia.
Qed.

Definition canonical (h : limbs) : Prop :=
  0 <= l0 h < B26 /\ 0 <= l1 h < B26 /\ 0 <= l2 h < B26 /\ 0 <= l3 h < B26 /\ 0 <= l4 h < B26.

(** The carry: if limb 4 carries out, the limbs below it are nearly zero,
    so the carry back into limbs 0 and 1 stays in range. *)
Lemma poly_carry_spec h : reduced h ->
  canonical (poly_carry h) /\ val (poly_carry h) mod Rfc8439.p = val h mod Rfc8439.p.
Proof.
  destruct h as [h0 h1 h2 h3 h4]. unfold reduced, canonical, poly_carry, val. cbn [l0 l1 l2 l3 l4].
  intros (H0 & H1 & H2 & H3 & H4). cbv zeta. rewrite !land26, !shr26.
  assert (C1 : 0 <= h1 / B26 <= 1) by lia. set (c1 := h1 / B26) in *.
  assert (E1 : h1 mod B26 = h1 - c1 * B26) by (unfold c1; lia). rewrite E1.
  rewrite (u32_id (h2 + c1)) by lia.
  set (c2 := (h2 + c1) / B26). assert (C2 : 0 <= c2 <= c1 /\ 0 <= h2 + c1 - c2 * B26 < B26) by (unfold c2; clearbody c1; lia).
  assert (E2 : (h2 + c1) mod B26 = h2 + c1 - c2 * B26) by (unfold c2; clearbody c1; lia). rewrite E2. clearbody c2.
  rewrite (u32_id (h3 + c2)) by lia.
  set (c3 := (h3 + c2) / B26). assert (C3 : 0 <= c3 <= c2 /\ 0 <= h3 + c2 - c3 * B26 < B26) by (unfold c3; clear - H3 C1 C2; lia).
  assert (E3 : (h3 + c2) mod B26 = h3 + c2 - c3 * B26) by (unfold c3; clear; lia). rewrite E3. clearbody c3.
  rewrite (u32_id (h4 + c3)) by lia.
  set (c4 := (h4 + c3) / B26). assert (C4 : 0 <= c4 <= c3 /\ 0 <= h4 + c3 - c4 * B26 < B26) by (unfold c4; clear - H4 C1 C2 C3; lia).
  assert (E4 : (h4 + c3) mod B26 = h4 + c3 - c4 * B26) by (unfold c4; clear; lia). rewrite E4. clearbody c4.
  rewrite (u32_id (c4 * 5)) by lia. rewrite (u32_id (h0 + c4 * 5)) by lia.
  set (c5 := (h0 + c4 * 5) / B26). assert (C5 : 0 <= c5 <= c4 /\ 0 <= h0 + c4 * 5 - c5 * B26 < B26) by (unfold c5; clear - H0 C1 C2 C3 C4; lia).
  assert (E5 : (h0 + c4 * 5) mod B26 = h0 + c4 * 5 - c5 * B26) by (unfold c5; clear; lia). rewrite E5. clearbody c5.
  assert (R1 : 0 <= h1 - c1 * B26 + c5 < B26) by (unfold c1 in *; clear - H1 C1 C2 C3 C4 C5; lia).
  rewrite (u32_id (h1 - c1 * B26 + c5)) by lia. clearbody c1.
  split; [lia|]. apply (cong_mod _ _ _ (- c4)). unfold Rfc8439.p. lia.
Qed.

Lemma land_ff x : 0 <= x < 4294967296 -> Z.land x 4294967295 = x.
Proof. apply u32_id. Qed.

(** The subtraction: the limbs of the value modulo [2^130 - 5]. *)
Lemma poly_select_spec h : canonical h ->
  canonical (poly_select h) /\ val (poly_select h) = val h mod Rfc8439.p.
Proof.
  destruct h as [h0 h1 h2 h3 h4]. unfold canonical, poly_select, val. cbn [l0 l1 l2 l3 l4].
  intros (H0 & H1 & H2 & H3 & H4). cbv zeta. rewrite !land26, !shr26.
  rewrite (u32_id (h0 + 5)) by lia.
  set (c0 := (h0 + 5) / B26). assert (C0 : 0 <= c0 <= 1 /\ (h0 + 5) mod B26 = h0 + 5 - c0 * B26 /\ 0 <= h0 + 5 - c0 * B26 < B26) by (unfold c0; lia).
  destruct C0 as (C0 & -> & G0). clearbody c0. rewrite (u32_id (h1 + c0)) by lia.
  set (c1 := (h1 + c0) / B26). assert (C1 : 0 <= c1 <= 1 /\ (h1 + c0) mod B26 = h1 + c0 - c1 * B26 /\ 0 <= h1 + c0 - c1 * B26 < B26) by (unfold c1; lia).
  destruct C1 as (C1 & -> & G1). clearbody c1. rewrite (u32_id (h2 + c1)) by lia.
  set (c2 := (h2 + c1) / B26). assert (C2 : 0 <= c2 <= 1 /\ (h2 + c1) mod B26 = h2 + c1 - c2 * B26 /\ 0 <= h2 + c1 - c2 * B26 < B26) by (unfold c2; lia).
  destruct C2 as (C2 & -> & G2). clearbody c2. rewrite (u32_id (h3 + c2)) by lia.
  set (c3 := (h3 + c2) / B26). assert (C3 : 0 <= c3 <= 1 /\ (h3 + c2) mod B26 = h3 + c2 - c3 * B26 /\ 0 <= h3 + c2 - c3 * B26 < B26) by (unfold c3; lia).
  destruct C3 as (C3 & -> & G3). clearbody c3.
  set (g0 := h0 + 5 - c0 * B26) in *. set (g1 := h1 + c0 - c1 * B26) in *.
  set (g2 := h2 + c1 - c2 * B26) in *. set (g3 := h3 + c2 - c3 * B26) in *.
  set (V := h0 + h1 * 2^26 + h2 * 2^52 + h3 * 2^78 + h4 * 2^104).
  assert (EV : V + 5 = g0 + g1 * 2^26 + g2 * 2^52 + g3 * 2^78 + (h4 + c3) * 2^104) by (unfold V, g0, g1, g2, g3; lia).
  assert (RV : 0 <= V < 2^130) by (unfold V; lia).
  unfold Rfc8439.p. destruct (Z.le_gt_cases B26 (h4 + c3)) as [Hge|Hlt].
  - assert (E4 : h4 + c3 - B26 = 0) by lia. rewrite E4. change (u32 0) with 0.
    change (u32 (Z.shiftr 0 31 - 1)) with 4294967295. change (u32 (Z.lnot 4294967295)) with 0.
    rewrite !Z.land_0_r, !Z.lor_0_l, !land_ff by lia.
    split; [clear - G0 G1 G2 G3; lia|]. clearbody g0 g1 g2 g3 V.
    assert (E : V mod (2^130 - 5) = V - (2^130 - 5)) by (symmetry; apply (Z.mod_unique _ _ 1); lia). lia.
  - assert (E4 : u32 (h4 + c3 - B26) = h4 + c3 - B26 + 4294967296) by (rewrite u32_mod; lia).
    rewrite E4. assert (Em : u32 (Z.shiftr (h4 + c3 - B26 + 4294967296) 31 - 1) = 0).
    { rewrite Z.shiftr_div_pow2 by lia. rewrite u32_mod. change (2 ^ 31) with 2147483648. lia. }
    rewrite Em. change (u32 (Z.lnot 0)) with 4294967295. rewrite !Z.land_0_r, !Z.lor_0_r, !land_ff by lia.
    split; [auto|]. fold V. symmetry. apply Z.mod_small. clearbody V. lia.
Qed.

Lemma store32_val x : word32 x -> bytes (cc_store32 x) /\ le_join (cc_store32 x) = x.
Proof.
  unfold word32, cc_store32. intros Hx. split; [bytes_cells; apply isbyte_u8|].
  rewrite !le_join_cons by apply isbyte_u8. cbn [le_join]. rewrite !u8_mod. arith_bits.
  change (2 ^ 8) with 256. change (2 ^ 16) with 65536. change (2 ^ 24) with 16777216. lia.
Qed.
Lemma le_join_app a b : bytes a -> bytes b ->
  le_join (a ++ b) = le_join a + 2 ^ (8 * Z.of_nat (length a)) * le_join b.
Proof.
  intros Ha Hb. induction Ha as [|x a Hx Ha IH]; [cbn [app length le_join]; rewrite Z.mul_1_l; lia|].
  cbn [app length]. rewrite !le_join_cons, IH, Nat2Z.inj_succ by done.
  replace (8 * Z.succ (Z.of_nat (length a))) with (8 + 8 * Z.of_nat (length a)) by lia.
  rewrite Z.pow_add_r by lia. change (2 ^ 8) with 256. ring.
Qed.

Lemma store4_bytes a b c d x : word32 a -> word32 b -> word32 c -> word32 d ->
  join4 a b c d = x mod 2 ^ 128 ->
  cc_store32 a ++ cc_store32 b ++ cc_store32 c ++ cc_store32 d = le_bytes 16 x.
Proof.
  intros Ha Hb Hc Hd E. destruct (store32_val a Ha) as [Ba Ja]. destruct (store32_val b Hb) as [Bb Jb].
  destruct (store32_val c Hc) as [Bc Jc]. destruct (store32_val d Hd) as [Bd Jd].
  rewrite <- (le_bytes_mod 16 x). change (8 * Z.of_nat 16) with 128. rewrite <- E. unfold join4.
  rewrite <- Ja at 2. rewrite <- Jb at 2. rewrite <- Jc at 2. rewrite <- Jd at 2.
  set (l := cc_store32 a ++ cc_store32 b ++ cc_store32 c ++ cc_store32 d).
  assert (Bl : bytes l) by (unfold l; repeat (apply bytes_app; split; [assumption|]); assumption).
  rewrite <- (le_bytes_join l Bl). change (length l) with 16%nat. f_equal. unfold l.
  rewrite !le_join_app by (repeat (apply bytes_app; split; [assumption|]); assumption).
  cbn [length cc_store32]. change (2 ^ (8 * Z.of_nat 4)) with 4294967296. lia.
Qed.

Lemma poly_tag_spec key h : bytes key -> length key = 32%nat -> canonical h ->
  poly_tag key h = le_bytes 16 (val h + le_join (slice 16 16 key)).
Proof.
  intros Hb Hl Hc.
  assert (Hs : bytes (slice 16 16 key)) by auto with oo_bytes.
  destruct (load_words (slice 16 16 key) Hs ltac:(rewrite length_slice; lia)) as (W0 & W1 & W2 & W3 & E).
  assert (Hss : slice 0 16 (slice 16 16 key) = slice 16 16 key).
  { unfold slice at 1. rewrite drop_0. apply take_ge. rewrite length_slice; lia. }
  rewrite Hss in E. rewrite E.
  assert (L : forall o, (o + 3 < 16)%nat -> cc_load32 (slice 16 16 key) o = cc_load32 key (16 + o)).
  { intros o Ho. unfold cc_load32. rewrite !get_slice by lia. by rewrite !Nat.add_assoc. }
  rewrite !L in * by lia. cbn [Nat.add] in *. clear L Hss Hs E Hl Hb. unfold poly_tag.
  revert W0 W1 W2 W3. generalize (cc_load32 key 16) as s0, (cc_load32 key 20) as s1, (cc_load32 key 24) as s2,
    (cc_load32 key 28) as s3. clear key. unfold word32. intros s0 s1 s2 s3 W0 W1 W2 W3.
  destruct h as [h0 h1 h2 h3 h4]. unfold canonical, val in *. cbn [l0 l1 l2 l3 l4] in *.
  destruct Hc as (H0 & H1 & H2 & H3 & H4). cbv zeta.
  assert (P0 : Z.lor h0 (u32 (Z.shiftl h1 26)) = h0 + h1 mod 64 * 67108864).
  { rewrite Z.shiftl_mul_pow2, u32_mod by lia. change (2 ^ 26) with 67108864.
    replace ((h1 * 67108864) mod 4294967296) with (h1 mod 64 * 2 ^ 26) by lia. apply lor_add; lia. }
  assert (P1 : Z.lor (Z.shiftr h1 6) (u32 (Z.shiftl h2 20)) = h1 / 64 + h2 mod 4096 * 1048576).
  { rewrite Z.shiftl_mul_pow2, Z.shiftr_div_pow2, u32_mod by lia.
    replace ((h2 * 2 ^ 20) mod 4294967296) with (h2 mod 4096 * 2 ^ 20) by lia. apply lor_add; lia. }
  assert (P2 : Z.lor (Z.shiftr h2 12) (u32 (Z.shiftl h3 14)) = h2 / 4096 + h3 mod 262144 * 16384).
  { rewrite Z.shiftl_mul_pow2, Z.shiftr_div_pow2, u32_mod by lia.
    replace ((h3 * 2 ^ 14) mod 4294967296) with (h3 mod 262144 * 2 ^ 14) by lia. apply lor_add; lia. }
  assert (P3 : Z.lor (Z.shiftr h3 18) (u32 (Z.shiftl h4 8)) = h3 / 262144 + h4 mod 16777216 * 256).
  { rewrite Z.shiftl_mul_pow2, Z.shiftr_div_pow2, u32_mod by lia.
    replace ((h4 * 2 ^ 8) mod 4294967296) with (h4 mod 16777216 * 2 ^ 8) by lia. apply lor_add; lia. }
  rewrite P0, P1, P2, P3. clear P0 P1 P2 P3.
  set (w0 := h0 + h1 mod 64 * 67108864). set (w1 := h1 / 64 + h2 mod 4096 * 1048576).
  set (w2 := h2 / 4096 + h3 mod 262144 * 16384). set (w3 := h3 / 262144 + h4 mod 16777216 * 256).
  assert (Q0 : 0 <= w0 < 4294967296) by (unfold w0; clear - H0 H1; lia).
  assert (Q1 : 0 <= w1 < 4294967296) by (unfold w1; clear - H1 H2; lia).
  assert (Q2 : 0 <= w2 < 4294967296) by (unfold w2; clear - H2 H3; lia).
  assert (Q3 : 0 <= w3 < 4294967296) by (unfold w3; clear - H3 H4; lia).
  assert (EV : h0 + h1 * 2^26 + h2 * 2^52 + h3 * 2^78 + h4 * 2^104
     = join4 w0 w1 w2 w3 + h4 / 16777216 * 2^128) by (unfold join4, w0, w1, w2, w3; lia).
  rewrite EV. clearbody w0 w1 w2 w3. set (k := h4 / 16777216). clearbody k. clear EV H0 H1 H2 H3 H4.
  rewrite !land_ff by assumption. rewrite !(Z.shiftr_div_pow2 _ 32) by lia. change (2 ^ 32) with 4294967296.
  rewrite (u64_id (w0 + s0)) by lia. set (c0 := (w0 + s0) / 4294967296).
  assert (C0 : 0 <= c0 <= 1) by (unfold c0; lia). rewrite (u64_id (w1 + s1 + c0)) by lia.
  set (c1 := (w1 + s1 + c0) / 4294967296). assert (C1 : 0 <= c1 <= 1) by (unfold c1; clearbody c0; lia).
  rewrite (u64_id (w2 + s2 + c1)) by lia. set (c2 := (w2 + s2 + c1) / 4294967296).
  assert (C2 : 0 <= c2 <= 1) by (unfold c2; clearbody c0 c1; lia). rewrite (u64_id (w3 + s3 + c2)) by lia.
  rewrite !u32_mod.
  apply store4_bytes; unfold word32; [apply Z.mod_pos_bound; reflexivity..|].
  assert (M0 : (w0 + s0) mod 4294967296 = w0 + s0 - c0 * 4294967296) by (unfold c0; clear; lia).
  assert (M1 : (w1 + s1 + c0) mod 4294967296 = w1 + s1 + c0 - c1 * 4294967296) by (unfold c1; clearbody c0; clear; lia).
  assert (M2 : (w2 + s2 + c1) mod 4294967296 = w2 + s2 + c1 - c2 * 4294967296) by (unfold c2; clearbody c0 c1; clear; lia).
  pose proof (Z.mod_pos_bound (w0 + s0) 4294967296 eq_refl) as B0. rewrite M0 in *.
  pose proof (Z.mod_pos_bound (w1 + s1 + c0) 4294967296 eq_refl) as B1. rewrite M1 in *.
  pose proof (Z.mod_pos_bound (w2 + s2 + c1) 4294967296 eq_refl) as B2. rewrite M2 in *.
  clear M0 M1 M2. clearbody c0 c1 c2. clear Q0 Q1 Q2 Q3 W0 W1 W2 W3 C0 C1 C2.
  unfold join4. lia.
Qed.

(** ** The loop *)

Lemma poly_blocks_spec r m : rlimbs r -> bytes m -> (length m mod 16 = 0)%nat ->
  reduced (poly_blocks r m) /\
  val (poly_blocks r m) mod Rfc8439.p
  = for_ 0 ((length m + 15) / 16) (fun b acc => ((acc + Rfc8439.block m b) * val r) mod Rfc8439.p) 0.
Proof.
  intros Hr Hm Hmod. unfold poly_blocks.
  apply (for_rel (fun h acc => reduced h /\ val h mod Rfc8439.p = acc)).
  - split; [unfold reduced; cbn; lia|reflexivity].
  - intros b h acc Hb [Hh <-].
    assert (Hpart : length (slice (16 * b) 16 m) = 16%nat) by (apply length_slice; lia).
    cbv zeta. rewrite Hpart. cbn [Nat.sub zeros repeat]. rewrite app_nil_r.
    destruct (poly_add_spec h (slice (16 * b) 16 m)) as [(A0 & A1 & A2 & A3 & A4) E];
      [exact Hh|auto with oo_bytes|exact Hpart|].
    destruct (poly_mul_spec r _ Hr A0 A1 A2 A3 A4) as [Hred EM]. split; [exact Hred|].
    rewrite EM, E. unfold Rfc8439.block. rewrite Hpart.
    change (2 ^ (8 * Z.of_nat 16)) with (2 ^ 128).
    rewrite Z.mul_mod, (Z.mul_mod (_ + (_ + _))) by done. f_equal. f_equal.
    rewrite <- Z.add_assoc. rewrite Zplus_mod_idemp_l. reflexivity.
Qed.

Lemma poly1305_spec key m : bytes key -> length key = 32%nat -> bytes m -> (length m mod 16 = 0)%nat ->
  poly1305_mac key m = Rfc8439.poly1305 key m.
Proof.
  intros Hk Hl Hm Hmod. unfold poly1305_mac, Rfc8439.poly1305.
  destruct (poly_r_spec key Hk ltac:(lia)) as [Hr ER].
  destruct (poly_blocks_spec (poly_r key) m Hr Hm Hmod) as [Hred EB].
  destruct (poly_carry_spec _ Hred) as [Hcan EC]. destruct (poly_select_spec _ Hcan) as [Hsel ES].
  rewrite poly_tag_spec by assumption. rewrite ES, EC, EB, ER. reflexivity.
Qed.

(** C17. The limb implementation of Poly1305 (five 26-bit limbs in 32-bit
    words, 64-bit column sums, lazy carries, the constant-time final
    subtraction and the 32-bit repacking) computes the authenticator of
    RFC 8439 over the integers modulo [2^130 - 5], with no overflow at any
    of its machine widths, for every key and every message of whole 16-byte
    blocks; and the AEAD construction only gives it such messages, so its
    tag is the RFC's tag of the padded data, for every key, associated data
    and ciphertext. *)
Theorem poly1305_is_rfc8439 key m aad ct :
  bytes key -> length key = 32%nat -> bytes m -> (length m mod 16 = 0)%nat -> bytes aad -> bytes ct ->
  poly1305_mac key m = Rfc8439.poly1305 key m /\
  poly_pad_mac key aad ct = Rfc8439.poly1305 key (Rfc8439.mac_data aad ct).
Proof.
  intros Hk Hl Hm Hmod Ha Hc. split; [by apply poly1305_spec|].
  rewrite <- poly1305_spec; [|done|done| |].
  - unfold poly_pad_mac, Rfc8439.mac_data, Rfc8439.pad16. by rewrite <- !app_assoc.
  - unfold Rfc8439.mac_data, Rfc8439.pad16. repeat (apply bytes_app; split); auto with oo_bytes.
  - unfold Rfc8439.mac_data, Rfc8439.pad16. rewrite !length_app, !length_zeros, !length_le_bytes. lia.
Qed.

Lemma poly1305_is_rfc8439_witness :
  poly1305_mac (tab 32 (fun i => 255 - Z.of_nat i)) (tab 32 Z.of_nat)
    = Rfc8439.poly1305 (tab 32 (fun i => 255 - Z.of_nat i)) (tab 32 Z.of_nat) /\
  poly_pad_mac (tab 32 (fun i => 255 - Z.of_nat i)) [1; 2; 3] [4]
    = Rfc8439.poly1305 (tab 32 (fun i => 255 - Z.of_nat i)) (Rfc8439.mac_data [1; 2; 3] [4]).
Proof.
  apply (poly1305_is_rfc8439 (tab 32 (fun i => 255 - Z.of_nat i)) (tab 32 Z.of_nat) [1; 2; 3] [4]);
    first [reflexivity | by apply bytesb_ok].
Defined.

(** * Seal and open *)

Lemma length_concat_store n f : length (concat (tab n (fun i => cc_store32 (f i)))) = (n * 4)%nat.
Proof. by apply length_concat_tab. Qed.
Lemma bytes_store32 x : bytes (cc_store32 x).
Proof. unfold cc_store32. bytes_cells; apply isbyte_u8. Qed.
Lemma chacha_block_bytes key nonce c : length (chacha_block key nonce c) = 64%nat /\ bytes (chacha_block key nonce c).
Proof.
  split; [unfold chacha_block; by rewrite length_concat_store|]. unfold chacha_block, tab.
  generalize (for_ 0 10 (fun _ : nat => chacha_double_round) ([0x61707865; 0x3320646e; 0x79622d32; 0x6b206574]
    ++ map (fun i => cc_load32 key (4 * i)) (seq 0 8)
    ++ [c; cc_load32 nonce 0; cc_load32 nonce 4; cc_load32 nonce 8])) as x. intros x.
  induction (seq 0 16) as [|i q IH]; [apply bytes_nil|]. cbn [map concat]. apply bytes_app.
  split; [apply bytes_store32|exact IH].
Qed.

Lemma cc_crypt_twice kb nb x : bytes x -> cc_crypt kb nb (cc_crypt kb nb x) = x /\
  length (cc_crypt kb nb x) = length x /\ bytes (cc_crypt kb nb x).
Proof.
  intros Hx. unfold cc_crypt, chacha_xor, chacha_loop.
  destruct (Nat.ltb_spec 0 (length x)) as [Hp|Hp].
  - rewrite length_stream_loop by lia. replace (0 <? length x)%nat with true by lia.
    split; [|split; [done|apply bytes_stream_loop]].
    apply (stream_loop_twice (fun _ => True)); [lia|intros; apply chacha_block_bytes|done|done|done|lia].
  - destruct x; [|cbn in Hp; lia]. split; [done|]. split; [done|apply bytes_nil].
Qed.

Lemma cc_tag_block kb nb a c : block (cc_tag kb nb a c).
Proof.
  unfold cc_tag, poly_pad_mac, poly1305_mac, poly_tag. cbv zeta.
  split; [by rewrite !length_app|]. repeat (apply bytes_app; split); apply bytes_store32.
Qed.

(** ChaCha20-Poly1305 opens what it seals, and only that: for loadable
    operands the seal is the hexadecimal of a ciphertext as long as the
    plaintext and of its 16-byte tag, opening the two parts gives the
    plaintext back, and opening the ciphertext under any other 16-byte tag
    gives the empty string of a failure. *)
Theorem chacha20poly1305_open_seal key nonce pt aad kb nb a p :
  wf_str key -> wf_str nonce -> wf_str pt -> wf_str aad ->
  aead_fill key 32 = Some kb -> aead_fill nonce 12 = Some nb -> aead_load pt = Some p -> aead_load aad = Some a ->
  exists ct tag,
    length ct = length p /\ length tag = 16%nat /\
    crypto_chacha20poly1305_seal_internal key nonce pt aad
      = Ret (str_of (hex_of ct (length ct) ++ hex_of tag 16)) /\
    (forall tag', length tag' = 16%nat -> bytes tag' ->
      crypto_chacha20poly1305_open_internal key nonce (str_of (hex_of ct (length ct))) (str_of (hex_of tag' 16)) aad
      = Ret (if bool_decide (tag' = tag) then str_of p else str_of [])).
Proof.
  intros Wk Wn Wp Wa Ek En Ep Ea. pose proof (aead_load_bytes _ _ Wp Ep) as Bp.
  destruct (cc_crypt_twice kb nb p Bp) as (Htw & Hlen & Bct). set (ct := cc_crypt kb nb p) in *.
  destruct (cc_tag_block kb nb a ct) as [Lt Bt].
  exists ct, (cc_tag kb nb a ct). split; [exact Hlen|]. split; [exact Lt|]. split.
  - unfold crypto_chacha20poly1305_seal_internal. rewrite Ek, En, Ep, Ea. reflexivity.
  - intros tag' Ll Bl. unfold crypto_chacha20poly1305_open_internal.
    rewrite Ek, En, (aead_fill_hex tag' 16), aead_load_hex, Ea by (assumption || lia). cbn [of_option run_bind].
    pose proof (crypto_ct_cmp_zero _ tag' 16 Bt Bl Lt Ll) as Hz.
    destruct (Z.eqb_spec (crypto_ct_cmp (Some (cc_tag kb nb a ct)) (Some tag') 16) 0) as [E|E]; cbn [negb].
    + rewrite bool_decide_eq_true_2 by (symmetry; by apply Hz). rewrite Htw. unfold aead_bin.
      by rewrite take_ge by lia.
    + rewrite bool_decide_eq_false_2; [reflexivity|]. intros ->. apply E. by apply Hz.
Qed.

Lemma chacha20poly1305_open_seal_witness :
  exists ct tag,
    length ct = 3%nat /\ length tag = 16%nat /\
    crypto_chacha20poly1305_seal_internal (str_of (tab 32 Z.of_nat)) wit_nonce (str_of [1; 2; 3]) (str_of [])
      = Ret (str_of (hex_of ct (length ct) ++ hex_of tag 16)) /\
    (forall tag', length tag' = 16%nat -> bytes tag' ->
      crypto_chacha20poly1305_open_internal (str_of (tab 32 Z.of_nat)) wit_nonce
        (str_of (hex_of ct (length ct))) (str_of (hex_of tag' 16)) (str_of [])
      = Ret (if bool_decide (tag' = tag) then str_of [1; 2; 3] else str_of [])).
Proof.
  apply (chacha20poly1305_open_seal (str_of (tab 32 Z.of_nat)) wit_nonce (str_of [1; 2; 3]) (str_of [])
    (tab 32 Z.of_nat) (tab 12 Z.of_nat) [] [1; 2; 3]);
    first [reflexivity | apply wf_str_of, bytesb_ok; reflexivity].
Defined.
