(* ===== verification/Ntt.v ===== *)
(** In-place number-theoretic transforms, for [MlKem] and [MlDsa].

    Both schemes run the same loops: levels of butterflies over an array of
    256 cells, the zetas consumed in order.  This file gives the closed form
    of such a level, the congruence in which its machine arithmetic is exact,
    and what a level does to the values of the polynomial at the roots. *)
From S2P Require Import Prelude.
From Stdlib Require Import Setoid Morphisms.
Open Scope Z_scope.

(** * Congruence *)

Definition eqm (q a b : Z) : Prop := a mod q = b mod q.

#[export] Instance eqm_equiv q : Equivalence (eqm q).
Proof. split; unfold eqm; congruence. Qed.
#[export] Instance eqm_add q : Proper (eqm q ==> eqm q ==> eqm q) Z.add.
Proof. intros a a' Ha b b' Hb. unfold eqm in *. rewrite Zplus_mod, Ha, Hb, <- Zplus_mod. done. Qed.
#[export] Instance eqm_sub q : Proper (eqm q ==> eqm q ==> eqm q) Z.sub.
Proof. intros a a' Ha b b' Hb. unfold eqm in *. rewrite Zminus_mod, Ha, Hb, <- Zminus_mod. done. Qed.
#[export] Instance eqm_mul q : Proper (eqm q ==> eqm q ==> eqm q) Z.mul.
Proof. intros a a' Ha b b' Hb. unfold eqm in *. rewrite Zmult_mod, Ha, Hb, <- Zmult_mod. done. Qed.
#[export] Instance eqm_opp q : Proper (eqm q ==> eqm q) Z.opp.
Proof. intros a a' Ha. rewrite <- !Z.sub_0_l. by rewrite Ha. Qed.

Lemma eqm_mult q a b k : a = b + k * q -> eqm q a b.
Proof. intros ->. apply Z_mod_plus_full. Qed.
Lemma eqm_mod q a : eqm q (a mod q) a.
Proof. unfold eqm. apply Zmod_mod. Qed.
Lemma eqm_inv q a b : q <> 0 -> eqm q a b -> exists k, a = b + k * q.
Proof.
  unfold eqm. intros Hq H. exists (a / q - b / q).
  pose proof (Z.div_mod a q Hq). pose proof (Z.div_mod b q Hq). nia.
Qed.
(** Division by a unit. *)
Lemma eqm_cancel q u v a b : eqm q (v * u) 1 -> eqm q (u * a) (u * b) -> eqm q a b.
Proof.
  intros Hu H. rewrite <- (Z.mul_1_l a), <- (Z.mul_1_l b), <- Hu, <- !Z.mul_assoc. by rewrite H.
Qed.

(** Arrays congruent cell by cell. *)
Definition eqv (q : Z) (a b : list Z) : Prop :=
  length a = length b /\ forall i, (i < length a)%nat -> eqm q a.[i] b.[i].
#[export] Instance eqv_equiv q : Equivalence (eqv q).
Proof.
  split.
  - intros a. done.
  - intros a b [Hl H]. split; [done|]. intros i Hi. symmetry. apply H. lia.
  - intros a b c [Hl H] [Hl' H']. split; [lia|]. intros i Hi. rewrite H by done. apply H'. lia.
Qed.

Lemma get_map_mul c l i : (i < length l)%nat -> (map (Z.mul c) l).[i] = c * l.[i].
Proof.
  intros Hi. unfold get. rewrite (nth_indep _ 0 (c * 0)) by (by rewrite length_map). apply (map_nth (Z.mul c)).
Qed.

(** * The ring

    [X] times a polynomial modulo [X^n + 1], [n] its length; the product by
    Horner's rule on the first operand. *)
Module Negacyclic.
Definition mulX (b : list Z) : list Z := (- List.last b 0) :: removelast b.
Definition add (a b : list Z) : list Z := tab (length b) (fun i => a.[i] + b.[i]).
Fixpoint mul (a b : list Z) : list Z :=
  match a with
  | [] => map (fun _ => 0) b
  | x :: a => add (map (Z.mul x) b) (mulX (mul a b))
  end.
End Negacyclic.

Lemma length_mulX b : b <> [] -> length (Negacyclic.mulX b) = length b.
Proof.
  intros Hb. destruct b as [|x b _] using rev_ind; [done|].
  unfold Negacyclic.mulX. rewrite removelast_last. cbn [length]. rewrite length_app. cbn. lia.
Qed.
Lemma length_mul a b : b <> [] -> length (Negacyclic.mul a b) = length b.
Proof.
  intros Hb. induction a as [|x a IH]; cbn [Negacyclic.mul]; [apply length_map|].
  unfold Negacyclic.add. rewrite length_tab, length_mulX; [exact IH|]. intros E. rewrite E in IH. by destruct b.
Qed.

Lemma map_zeros (b : list Z) : map (fun _ => 0) b = zeros (length b).
Proof. induction b as [|x b IH]; [done|]. cbn [map]. by rewrite IH. Qed.

(** * Levels *)

Lemma iter_S b k : Nat.iter b S k = (k + b)%nat.
Proof. induction b as [|b IH]; [cbn; lia|]. rewrite Nat.iter_succ, IH. lia. Qed.
Lemma iter_pred b k : Nat.iter b (fun k => (k - 1)%nat) k = (k - b)%nat.
Proof. induction b as [|b IH]; [cbn; lia|]. rewrite Nat.iter_succ, IH. lia. Qed.

Lemma block_fits b n len : (b < n)%nat -> (b * (2 * len) + 2 * len <= n * (2 * len))%nat.
Proof.
  intros Hb. replace (b * (2 * len) + 2 * len)%nat with (S b * (2 * len))%nat by lia.
  apply Nat.mul_le_mono_r. lia.
Qed.


(** One pass over a block: cells [start .. start + len) meet cells [+ len],
    the lower becoming [f x y] and the upper [g x y] of the old contents. *)
Definition block_cell (f g : Z -> Z -> Z) (start len : nat) (r : list Z) (i : nat) : Z :=
  if (start <=? i)%nat && (i <? start + len)%nat then f r.[i] r.[i + len]
  else if (start + len <=? i)%nat && (i <? start + 2 * len)%nat then g r.[i - len] r.[i]
  else r.[i].

Lemma block_loop (f g : Z -> Z -> Z) body start len r :
  (start + 2 * len <= length r)%nat ->
  (forall j s, (start <= j < start + len)%nat -> length s = length r ->
     body j s = s.[j + len <- g s.[j] s.[j + len]].[j <- f s.[j] s.[j + len]]) ->
  for_ start (start + len) body r = tab (length r) (block_cell f g start len r).
Proof.
  intros Hlen Hbody.
  assert (H : length (for_ start (start + len) body r) = length r /\
     forall i, (for_ start (start + len) body r).[i] =
       if (start <=? i)%nat && (i <? start + len)%nat then f r.[i] r.[i + len]
       else if (start + len <=? i)%nat && (i <? start + len + len)%nat then g r.[i - len] r.[i] else r.[i]).
  { apply (for_ind (fun j s => length s = length r /\ forall i, s.[i] =
       if (start <=? i)%nat && (i <? j)%nat then f r.[i] r.[i + len]
       else if (start + len <=? i)%nat && (i <? j + len)%nat then g r.[i - len] r.[i] else r.[i])); [lia| |].
    - split; [done|]. intros i. repeat case_match; try lia; done.
    - intros j s Hj [Hl Hs]. rewrite Hbody by done. split; [by rewrite !length_upd|]. intros i.
      assert (Ej : s.[j] = r.[j]) by (rewrite Hs; repeat case_match; try lia; done).
      assert (Ejl : s.[j + len] = r.[j + len]) by (rewrite Hs; repeat case_match; try lia; done).
      rewrite Ej, Ejl. destruct (Nat.eq_dec i j) as [->|Hij].
      + rewrite get_upd_eq by (rewrite length_upd; lia). repeat case_match; try lia; done.
      + rewrite get_upd_ne by lia. destruct (Nat.eq_dec i (j + len)) as [->|Hijl].
        * rewrite get_upd_eq by lia. repeat case_match; try lia. by rewrite Nat.add_sub.
        * rewrite get_upd_ne by lia. rewrite Hs. repeat case_match; try lia; done. }
  destruct H as [Hl H]. apply array_ext; [by rewrite length_tab|].
  intros i Hi. rewrite get_tab by lia. rewrite H. unfold block_cell. repeat case_match; try lia; done.
Qed.

(** The whole level: block [b] uses [f b] and [g b]. *)
Definition level_cell (f g : nat -> Z -> Z -> Z) (len : nat) (r : list Z) (i : nat) : Z :=
  let b := (i / (2 * len))%nat in
  if (i mod (2 * len) <? len)%nat then f b r.[i] r.[i + len] else g b r.[i - len] r.[i].
Definition level (f g : nat -> Z -> Z -> Z) (len : nat) (r : list Z) : list Z := tab (length r) (level_cell f g len r).

Lemma block_index b len i : (0 < len)%nat -> (b * (2 * len) <= i < b * (2 * len) + 2 * len)%nat ->
  (i / (2 * len) = b /\ i mod (2 * len) = i - b * (2 * len))%nat.
Proof.
  intros Hl Hi. assert (E : (i / (2 * len) = b)%nat).
  { symmetry. apply (Nat.div_unique i (2 * len) b (i - b * (2 * len))); lia. }
  split; [done|]. rewrite Nat.Div0.mod_eq, E. lia.
Qed.

Lemma level_loop (f g : nat -> Z -> Z -> Z) (body : nat -> list Z * nat -> list Z * nat) (step : nat -> nat) len n r k :
  (0 < len)%nat -> length r = (n * (2 * len))%nat ->
  (forall b s, (b < n)%nat -> length s = length r -> 
     body b (s, Nat.iter b step k)
     = (tab (length r) (block_cell (f b) (g b) (b * (2 * len)) len s), step (Nat.iter b step k))) ->
  for_ 0 n body (r, k) = (level f g len r, Nat.iter n step k).
Proof.
  intros Hlen Hr Hbody.
  assert (H : exists s, for_ 0 n body (r, k) = (s, Nat.iter n step k) /\ length s = length r /\
    forall i, (i < length r)%nat -> s.[i] = if (i <? n * (2 * len))%nat then level_cell f g len r i else r.[i]).
  { apply (for_ind (fun b p => exists s, p = (s, Nat.iter b step k) /\ length s = length r /\
      forall i, (i < length r)%nat -> s.[i] = if (i <? b * (2 * len))%nat then level_cell f g len r i else r.[i])); [lia| |].
    - exists r. split; [done|]. split; [done|]. intros i _. by case_match; [lia|].
    - intros b p Hb (s & -> & Hl & Hs). rewrite Hbody by lia. eexists. split; [done|].
      split; [apply length_tab|]. intros i Hi. rewrite get_tab by done. unfold block_cell.
      assert (Hin : forall i, (i < length r)%nat -> (b * (2 * len) <= i)%nat -> s.[i] = r.[i]).
      { intros i' Hi' Hge. rewrite Hs by done. by replace (i' <? b * (2 * len))%nat with false by lia. }
      destruct (Nat.ltb_spec i (b * (2 * len))) as [Hlt|Hge].
      + replace (i <? S b * (2 * len))%nat with true by lia. rewrite Hs by done.
        replace (i <? b * (2 * len))%nat with true by lia. repeat case_match; try lia; done.
      + destruct (Nat.ltb_spec i (b * (2 * len) + 2 * len)) as [Hin2|Hout].
        * destruct (block_index b len i Hlen ltac:(lia)) as [Ed Em].
          replace (i <? S b * (2 * len))%nat with true by lia. unfold level_cell. rewrite Ed, Em.
          assert (S b * (2 * len) <= n * (2 * len))%nat by (apply Nat.mul_le_mono_r; lia).
          destruct (Nat.ltb_spec (i - b * (2 * len)) len).
          -- repeat case_match; try lia. by rewrite !Hin by lia.
          -- repeat case_match; try lia. by rewrite !Hin by lia.
        * replace (i <? S b * (2 * len))%nat with false by lia. rewrite Hin by lia.
          repeat case_match; try lia; done. }
  destruct H as (s & -> & Hl & Hs). f_equal. apply array_ext; [unfold level; by rewrite length_tab|].
  intros i Hi. unfold level. rewrite Hs, get_tab by lia. by replace (i <? n * (2 * len))%nat with true by lia.
Qed.

Lemma length_level f g len r : length (level f g len r) = length r.
Proof. apply length_tab. Qed.

(** The cells of a level, by block and offset. *)
Lemma level_lo f g len r b o : (b * (2 * len) + 2 * len <= length r)%nat -> (o < len)%nat ->
  (level f g len r).[b * (2 * len) + o] = f b r.[b * (2 * len) + o] r.[b * (2 * len) + len + o].
Proof.
  intros Hb Ho. unfold level. rewrite get_tab by lia. unfold level_cell.
  destruct (block_index b len (b * (2 * len) + o)) as [-> ->]; [lia..|].
  case_match; [|lia]. f_equal. f_equal. lia.
Qed.
Lemma level_hi f g len r b o : (b * (2 * len) + 2 * len <= length r)%nat -> (o < len)%nat ->
  (level f g len r).[b * (2 * len) + len + o] = g b r.[b * (2 * len) + o] r.[b * (2 * len) + len + o].
Proof.
  intros Hb Ho. unfold level. rewrite get_tab by lia. unfold level_cell.
  destruct (block_index b len (b * (2 * len) + len + o)) as [-> ->]; [lia..|].
  case_match; [lia|]. f_equal. f_equal. lia.
Qed.

(** Every cell of a level of [n] blocks is a low or a high cell. *)
Lemma level_split len n i : (0 < len)%nat -> (i < n * (2 * len))%nat ->
  exists b o, (b < n)%nat /\ (o < len)%nat /\ (i = b * (2 * len) + o \/ i = b * (2 * len) + len + o)%nat.
Proof.
  intros Hl Hi. pose proof (Nat.div_mod_eq i (2 * len)) as E.
  pose proof (Nat.mod_upper_bound i (2 * len) ltac:(lia)) as Hm.
  exists (i / (2 * len))%nat.
  assert (i / (2 * len) < n)%nat by (apply Nat.Div0.div_lt_upper_bound; lia).
  destruct (Nat.lt_ge_cases (i mod (2 * len)) len).
  - exists (i mod (2 * len))%nat. split; [done|]. split; [done|]. left. lia.
  - exists (i mod (2 * len) - len)%nat. split; [done|]. split; [lia|]. right. lia.
Qed.

(** Two levels over related arrays: a relation that the cell operations keep
    holds between the results. *)
Lemma level_rel (R R' : Z -> Z -> Prop) f g f' g' len n r r' :
  (0 < len)%nat -> length r = (n * (2 * len))%nat -> length r' = length r ->
  (forall i, (i < length r)%nat -> R r.[i] r'.[i]) ->
  (forall b x y x' y', (b < n)%nat -> R x x' -> R y y' -> R' (f b x y) (f' b x' y') /\ R' (g b x y) (g' b x' y')) ->
  forall i, (i < length r)%nat -> R' (level f g len r).[i] (level f' g' len r').[i].
Proof.
  intros Hlen Hr Hr' HR Hfg i Hi. rewrite Hr in Hi.
  destruct (level_split len n i Hlen Hi) as (b & o & Hb & Ho & Hio).
  assert (Hin : (b * (2 * len) + 2 * len <= n * (2 * len))%nat).
  { replace (b * (2 * len) + 2 * len)%nat with (S b * (2 * len))%nat by lia. apply Nat.mul_le_mono_r. lia. }
  destruct Hio as [-> | ->].
  - rewrite !level_lo by lia. apply Hfg; [done|apply HR; lia..].
  - rewrite !level_hi by lia. apply Hfg; [done|apply HR; lia..].
Qed.

(** * The exact transforms

    Over the integers, for zetas [z] and inverse zetas [z'].  Level [len]
    has [128 / len] blocks and its zetas start at index [128 / len]; the
    inverse takes them from the end. *)
Section exact.
Context (q : Z) (z z' : nat -> Z).

Definition fwd (len : nat) (r : list Z) : list Z :=
  level (fun b x y => x + z (128 / len + b)%nat * y) (fun b x y => x - z (128 / len + b)%nat * y) len r.
Definition bwd (len : nat) (r : list Z) : list Z :=
  level (fun b x y => x + y) (fun b x y => (y - x) * z' (2 * (128 / len) - 1 - b)%nat) len r.

Lemma fwd_eqv len n r r' : (0 < len)%nat -> length r = (n * (2 * len))%nat -> eqv q r r' -> eqv q (fwd len r) (fwd len r').
Proof.
  intros Hlen Hr [Hl H]. split; [unfold fwd; by rewrite !length_level|]. unfold fwd at 1. rewrite length_level.
  apply (level_rel (eqm q) (eqm q) _ _ _ _ len n); [done|done|done|done|].
  intros b x y x' y' _ Hx Hy. by rewrite Hx, Hy.
Qed.

(** The inverse level is linear. *)
Lemma bwd_scale len n c r r' : (0 < len)%nat -> length r = (n * (2 * len))%nat ->
  eqv q r (map (Z.mul c) r') -> eqv q (bwd len r) (map (Z.mul c) (bwd len r')).
Proof.
  intros Hlen Hr [Hl H]. rewrite length_map in Hl.
  split; [unfold bwd; by rewrite length_map, !length_level|]. intros i Hi.
  unfold bwd in Hi. rewrite length_level in Hi. rewrite get_map_mul by (unfold bwd; rewrite length_level; lia).
  apply (level_rel (fun x y => eqm q x (c * y)) (fun x y => eqm q x (c * y)) _ _ _ _ len n); try done.
  - intros j Hj. rewrite H by done. by rewrite get_map_mul by lia.
  - intros b x y x' y' _ Hx Hy. rewrite Hx, Hy. split; unfold eqm; f_equal; ring.
Qed.

Lemma bwd_fwd len n r : (0 < len)%nat -> length r = (n * (2 * len))%nat -> n = (128 / len)%nat ->
  (forall b, (b < n)%nat -> eqm q (z (n + b)%nat * z' (2 * n - 1 - b)%nat) (-1)) ->
  eqv q (bwd len (fwd len r)) (map (Z.mul 2) r).
Proof.
  intros Hlen Hr Hn Hz. split; [unfold bwd, fwd; by rewrite length_map, !length_level|].
  unfold bwd at 1. rewrite length_level. unfold fwd at 1. rewrite length_level. intros i Hi.
  rewrite get_map_mul by done. rewrite Hr in Hi.
  destruct (level_split len n i Hlen Hi) as (b & o & Hb & Ho & Hio).
  assert (Hin : (b * (2 * len) + 2 * len <= n * (2 * len))%nat).
  { replace (b * (2 * len) + 2 * len)%nat with (S b * (2 * len))%nat by lia. apply Nat.mul_le_mono_r. lia. }
  unfold bwd. destruct Hio as [-> | ->].
  - rewrite level_lo by (unfold fwd; rewrite ?length_level; lia). unfold fwd.
    rewrite level_lo, level_hi by lia. unfold eqm. f_equal. ring.
  - rewrite level_hi by (unfold fwd; rewrite ?length_level; lia). unfold fwd.
    rewrite level_lo, level_hi by lia. specialize (Hz b Hb). subst n.
    set (zz := z (128 / len + b)%nat) in *. set (w := z' (2 * (128 / len) - 1 - b)%nat) in *.
    set (x := r.[_]). set (y := r.[_]).
    replace ((x - zz * y - (x + zz * y)) * w) with (- 2 * y * (zz * w)) by ring. rewrite Hz.
    unfold eqm. f_equal. ring.
Qed.

Lemma fwd_bwd len n r : (0 < len)%nat -> length r = (n * (2 * len))%nat -> n = (128 / len)%nat ->
  (forall b, (b < n)%nat -> eqm q (z (n + b)%nat * z' (2 * n - 1 - b)%nat) (-1)) ->
  eqv q (fwd len (bwd len r)) (map (Z.mul 2) r).
Proof.
  intros Hlen Hr Hn Hz. split; [unfold bwd, fwd; by rewrite length_map, !length_level|].
  unfold fwd at 1. rewrite length_level. unfold bwd at 1. rewrite length_level. intros i Hi.
  rewrite get_map_mul by done. rewrite Hr in Hi.
  destruct (level_split len n i Hlen Hi) as (b & o & Hb & Ho & Hio).
  pose proof (block_fits b n len Hb) as Hin. specialize (Hz b Hb). unfold fwd. destruct Hio as [-> | ->].
  - rewrite level_lo by (unfold bwd; rewrite ?length_level; lia). unfold bwd.
    rewrite level_lo, level_hi by lia. subst n.
    set (zz := z (128 / len + b)%nat) in *. set (w := z' (2 * (128 / len) - 1 - b)%nat) in *. set (x := r.[_]). set (y := r.[_]).
    replace (x + y + zz * ((y - x) * w)) with (x + y + (y - x) * (zz * w)) by ring. rewrite Hz. unfold eqm. f_equal. ring.
  - rewrite level_hi by (unfold bwd; rewrite ?length_level; lia). unfold bwd.
    rewrite level_lo, level_hi by lia. subst n.
    set (zz := z (128 / len + b)%nat) in *. set (w := z' (2 * (128 / len) - 1 - b)%nat) in *. set (x := r.[_]). set (y := r.[_]).
    replace (x + y - zz * ((y - x) * w)) with (x + y - (y - x) * (zz * w)) by ring. rewrite Hz. unfold eqm. f_equal. ring.
Qed.

(** The whole transforms over a list of level lengths. *)
Definition fwds (lens : list nat) (r : list Z) : list Z := foldl (fun r len => fwd len r) r lens.
Definition bwds (lens : list nat) (r : list Z) : list Z := foldl (fun r len => bwd len r) r (rev lens).

Definition good_len (len : nat) : Prop :=
  (0 < len)%nat /\ (128 / len * (2 * len) = 256)%nat.
Definition inverse_zetas (lens : list nat) : Prop :=
  forall len b, In len lens -> (b < 128 / len)%nat ->
    eqm q (z (128 / len + b)%nat * z' (2 * (128 / len) - 1 - b)%nat) (-1).

Lemma length_fwds lens r : length (fwds lens r) = length r.
Proof.
  unfold fwds. revert r. induction lens as [|len lens IH]; intros r; [done|]. cbn [foldl]. rewrite IH. apply length_level.
Qed.
Lemma length_bwds lens r : length (bwds lens r) = length r.
Proof.
  unfold bwds. generalize (rev lens) as l. intros l. revert r. induction l as [|len l IH]; intros r; [done|].
  cbn [foldl]. rewrite IH. apply length_level.
Qed.

Lemma bwds_eqv lens c r r' : Forall good_len lens -> length r = 256%nat ->
  eqv q r (map (Z.mul c) r') -> eqv q (bwds lens r) (map (Z.mul c) (bwds lens r')).
Proof.
  unfold bwds. intros Hg%Forall_rev. revert Hg r r'. generalize (rev lens) as l. intros l Hg.
  induction Hg as [|len l [Hlen Hgood] Hg IH]; intros r r' Hr H; [exact H|].
  cbn [foldl]. apply IH; [unfold bwd; by rewrite length_level|].
  apply (bwd_scale len (128 / len)); [done|lia|done].
Qed.

Lemma map_mul_mul a b r : map (Z.mul a) (map (Z.mul b) r) = map (Z.mul (a * b)) r.
Proof. rewrite map_map. apply map_ext. intros x. ring. Qed.

Theorem bwds_fwds lens r : Forall good_len lens -> inverse_zetas lens -> length r = 256%nat ->
  eqv q (bwds lens (fwds lens r)) (map (Z.mul (2 ^ Z.of_nat (length lens))) r).
Proof.
  intros Hg Hz. revert r. induction Hg as [|len lens [Hlen Hgood] Hg IH]; intros r Hr.
  - unfold bwds, fwds. cbn. rewrite map_ext with (g := fun x => x); [by rewrite map_id|]. intros x. lia.
  - assert (E : bwds (len :: lens) (fwds (len :: lens) r) = bwd len (bwds lens (fwds lens (fwd len r)))).
    { unfold bwds at 1. cbn [rev]. rewrite foldl_app. reflexivity. }
    rewrite E. specialize (IH ltac:(intros l b Hl; apply Hz; by right) (fwd len r)).
    rewrite (bwd_scale len (128 / len) (2 ^ Z.of_nat (length lens)) _ (fwd len r));
      [|done|rewrite length_bwds, length_fwds; unfold fwd; rewrite length_level; lia
       |apply IH; unfold fwd; by rewrite length_level].
    transitivity (map (Z.mul (2 ^ Z.of_nat (length lens))) (map (Z.mul 2) r)).
    + destruct (bwd_fwd len (128 / len) r) as [Hl2 H2]; [done|lia|done|intros b Hb; apply Hz; [by left|done]|].
      split; [by rewrite !length_map in *|]. intros i Hi. rewrite length_map in Hi.
      assert (Hlr : length (bwd len (fwd len r)) = length r) by (unfold bwd, fwd; by rewrite !length_level).
      specialize (H2 i Hi). rewrite get_map_mul in H2 by lia.
      rewrite !get_map_mul by (rewrite ?length_map; lia). by rewrite H2.
    + rewrite map_mul_mul. cbn [length]. rewrite Nat2Z.inj_succ, Z.pow_succ_r by lia.
      by rewrite (Z.mul_comm 2).
Qed.

(** The transform is linear, and undoes its inverse as well. *)
Lemma fwd_lin len n c1 c2 r r1 r2 : (0 < len)%nat -> length r = (n * (2 * len))%nat -> length r1 = length r -> length r2 = length r ->
  (forall i, (i < length r)%nat -> eqm q r.[i] (c1 * r1.[i] + c2 * r2.[i])) ->
  forall i, (i < length r)%nat -> eqm q (fwd len r).[i] (c1 * (fwd len r1).[i] + c2 * (fwd len r2).[i]).
Proof.
  intros Hlen Hr H1 H2 H i Hi. rewrite Hr in Hi.
  destruct (level_split len n i Hlen Hi) as (b & o & Hb & Ho & Hio). pose proof (block_fits b n len Hb) as Hin. unfold fwd.
  destruct Hio as [-> | ->].
  - rewrite !level_lo by lia. rewrite !H by lia. unfold eqm. f_equal. ring.
  - rewrite !level_hi by lia. rewrite !H by lia. unfold eqm. f_equal. ring.
Qed.
Lemma fwds_lin lens c1 c2 r r1 r2 : Forall good_len lens -> length r = 256%nat -> length r1 = 256%nat -> length r2 = 256%nat ->
  (forall i, (i < 256)%nat -> eqm q r.[i] (c1 * r1.[i] + c2 * r2.[i])) ->
  forall i, (i < 256)%nat -> eqm q (fwds lens r).[i] (c1 * (fwds lens r1).[i] + c2 * (fwds lens r2).[i]).
Proof.
  intros Hg. revert r r1 r2. induction Hg as [|len lens [Hlen Hgood] Hg IH]; intros r r1 r2 Hr H1 H2 H; [exact H|].
  unfold fwds. cbn [foldl]. apply IH; [unfold fwd; by rewrite length_level..|].
  intros i Hi. apply (fwd_lin len (128 / len)); [done|lia|lia|lia|by rewrite Hr|lia].
Qed.

Theorem fwds_bwds lens r : Forall good_len lens -> inverse_zetas lens -> length r = 256%nat ->
  eqv q (fwds lens (bwds lens r)) (map (Z.mul (2 ^ Z.of_nat (length lens))) r).
Proof.
  intros Hg Hz. revert r. induction Hg as [|len lens [Hlen Hgood] Hg IH]; intros r Hr.
  - unfold bwds, fwds. cbn. rewrite map_ext with (g := fun x => x); [by rewrite map_id|]. intros x. lia.
  - assert (E : fwds (len :: lens) (bwds (len :: lens) r) = fwds lens (fwd len (bwd len (bwds lens r)))).
    { unfold bwds at 1. cbn [rev]. rewrite foldl_app. reflexivity. }
    rewrite E. specialize (IH ltac:(intros l b Hl; apply Hz; by right) r Hr).
    assert (Lb : length (bwds lens r) = 256%nat) by (by rewrite length_bwds).
    split; [rewrite length_fwds, length_map; unfold fwd, bwd; rewrite !length_level; lia|].
    rewrite length_fwds. unfold fwd at 1, bwd at 1. rewrite !length_level, Lb. intros i Hi.
    destruct (fwd_bwd len (128 / len) (bwds lens r) Hlen ltac:(lia) eq_refl ltac:(intros b Hb; apply Hz; [by left|done])) as [_ F].
    rewrite (fwds_lin lens 2 0 _ (bwds lens r) (bwds lens r) Hg); [| unfold fwd, bwd; by rewrite !length_level|done|done| |done].
    + destruct IH as [Hl IH]. rewrite IH by (rewrite length_fwds; lia). rewrite !get_map_mul by lia.
      cbn [length]. rewrite Nat2Z.inj_succ, Z.pow_succ_r by lia. unfold eqm. f_equal. ring.
    + intros j Hj. rewrite F by (unfold fwd, bwd; rewrite !length_level; lia). rewrite get_map_mul by lia. unfold eqm. f_equal. ring.
Qed.
End exact.

(** * Machine arrays against exact ones

    [near q B r p]: the cells of [r] are bounded by [B] and congruent to [p]'s. *)
Definition near (q B : Z) (r p : list Z) : Prop :=
  length r = 256%nat /\ length p = 256%nat /\
  forall i, (i < 256)%nat -> - B <= r.[i] <= B /\ eqm q r.[i] p.[i].

Lemma near_eqv {q} B r p : near q B r p -> eqv q r p.
Proof. intros (Hl & Hp & H). split; [lia|]. intros i Hi. apply H. lia. Qed.
Lemma near_le {q} B B' r p : B <= B' -> near q B r p -> near q B' r p.
Proof. intros HB (Hl & Hp & H). split; [done|]. split; [done|]. intros i Hi. destruct (H i Hi). split; [lia|done]. Qed.
Lemma near_refl {q} B r : length r = 256%nat -> (forall i, (i < 256)%nat -> - B <= r.[i] <= B) -> near q B r r.
Proof. intros Hl H. split; [done|]. split; [done|]. intros i Hi. by split; [apply H|]. Qed.

(** Coefficients a caller may pass to the transform. *)
Definition small (B : Z) (r : list Z) : Prop := length r = 256%nat /\ forall i, (i < 256)%nat -> - B <= r.[i] <= B.
Lemma small_near {q} B r : small B r -> near q B r r.
Proof. intros [Hl H]. by apply near_refl. Qed.
Lemma near_small {q} B r p : near q B r p -> small B r.
Proof. intros (Hl & _ & H). split; [done|]. intros i Hi. by apply H. Qed.
Lemma small_get B r : 0 <= B -> small B r -> forall i, - B <= r.[i] <= B.
Proof.
  intros HB [Hl H] i. destruct (Nat.lt_ge_cases i 256); [by apply H|]. rewrite get_overflow by lia. lia.
Qed.
Lemma small_check B r : (length r =? 256)%nat && forallb (fun x => (- B <=? x) && (x <=? B)) r = true -> small B r.
Proof.
  rewrite andb_true_iff, forallb_forall. intros [Hl H]. split; [by apply Nat.eqb_eq|]. intros i Hi.
  apply Nat.eqb_eq in Hl. assert (Hlt : (i < length r)%nat) by lia.
  specialize (H _ (nth_In r 0 Hlt)). unfold get. lia.
Qed.

(** * Values

    [ev] is a functional that evaluates a block as a polynomial: linear
    modulo [q], and on an appended block of [s * m] cells it multiplies by
    the power [pw m] of the point.  A forward level keeps the value of the
    block a leaf lies in, when the zeta of that block is the power of the
    leaf's point (the negated zeta on the odd side). *)
Section values.
Context (q : Z) (z : nat -> Z) (s : nat) (ev : list Z -> Z) (pw : nat -> Z).
Hypothesis ev_app : forall l1 l2 m, length l1 = (s * m)%nat -> ev (l1 ++ l2) = ev l1 + pw m * ev l2.
Hypothesis ev_lin : forall l l1 l2 c, length l1 = length l -> length l2 = length l ->
  (forall i, (i < length l)%nat -> eqm q l.[i] (l1.[i] + c * l2.[i])) -> eqm q (ev l) (ev l1 + c * ev l2).

Lemma slice_halves {A} (l : list A) o n : slice o (2 * n) l = slice o n l ++ slice (o + n) n l.
Proof.
  unfold slice. rewrite <- drop_drop, take_take_drop. f_equal. lia.
Qed.

Lemma fwd_block len m n b r : len = (s * m)%nat -> (0 < len)%nat -> n = (128 / len)%nat ->
  length r = (n * (2 * len))%nat -> (b < n)%nat ->
  (eqm q (pw m) (z (n + b)%nat) ->
   eqm q (ev (slice (2 * b * len) len (fwd z len r))) (ev (slice (b * (2 * len)) (2 * len) r))) /\
  (eqm q (pw m) (- z (n + b)%nat) ->
   eqm q (ev (slice ((2 * b + 1) * len) len (fwd z len r))) (ev (slice (b * (2 * len)) (2 * len) r))).
Proof.
  intros Hs Hlen Hn Hr Hb.
  assert (Hin : (b * (2 * len) + 2 * len <= n * (2 * len))%nat).
  { replace (b * (2 * len) + 2 * len)%nat with (S b * (2 * len))%nat by lia. apply Nat.mul_le_mono_r. lia. }
  assert (Hfl : length (fwd z len r) = length r) by apply length_level.
  rewrite (slice_halves r).
  assert (L1 : length (slice (b * (2 * len)) len r) = len) by (apply length_slice; lia).
  assert (L2 : length (slice (b * (2 * len) + len) len r) = len) by (apply length_slice; lia).
  rewrite (ev_app _ _ m) by lia.
  split; intros Hpw; rewrite Hpw.
  - replace (2 * b * len)%nat with (b * (2 * len))%nat by lia.
    assert (L0 : length (slice (b * (2 * len)) len (fwd z len r)) = len) by (apply length_slice; lia).
    apply ev_lin; [lia|lia|]. rewrite L0. intros i Hi. rewrite !get_slice by done.
    unfold fwd. rewrite level_lo by lia. by subst n.
  - replace ((2 * b + 1) * len)%nat with (b * (2 * len) + len)%nat by lia.
    assert (L0 : length (slice (b * (2 * len) + len) len (fwd z len r)) = len) by (apply length_slice; lia).
    apply ev_lin; [lia|lia|]. rewrite L0. intros i Hi. rewrite !get_slice by done.
    unfold fwd. rewrite level_hi by lia. subst n. unfold eqm. f_equal. lia.
Qed.

(** The level lengths halve from [cur] down to the leaf size. *)
Fixpoint halving (cur : nat) (lens : list nat) : Prop :=
  match lens with
  | [] => cur = s
  | len :: lens => cur = (2 * len)%nat /\ halving len lens
  end.
(** Along the path to leaf [j] the powers are the zetas. *)
Definition leaf_zetas (j : nat) (lens : list nat) : Prop :=
  forall len, In len lens ->
    let c := (j * s / len)%nat in
    eqm q (pw (len / s)) (if Nat.even c then z (128 / len + c / 2)%nat else - z (128 / len + c / 2)%nat).

Theorem fwds_value j lens cur r :
  (0 < s)%nat -> halving cur lens -> leaf_zetas j lens -> Forall good_len lens ->
  Forall (fun len => (len mod s = 0)%nat) lens -> length r = 256%nat -> (j * s < 256)%nat -> (0 < cur)%nat ->
  eqm q (ev (slice (j * s) s (fwds z lens r))) (ev (slice (j * s / cur * cur) cur r)).
Proof.
  intros Hs. revert cur r. induction lens as [|len lens IH]; intros cur r Hh Hz Hg Hm Hr Hj Hcur.
  - cbn in Hh. subst cur. cbn [fwds foldl]. unfold fwds. cbn [foldl]. by rewrite Nat.div_mul by lia.
  - cbn [halving] in Hh. destruct Hh as [-> Hh]. inversion Hg as [|? ? [Hlen Hgood] Hg']; subst.
    inversion Hm as [|? ? Hmod Hm']; subst.
    unfold fwds. cbn [foldl]. fold (fwds z lens (fwd z len r)).
    rewrite (IH len (fwd z len r)); [|done|intros l Hl; apply Hz; by right|done|done
      |unfold fwd; by rewrite length_level|done|done].
    specialize (Hz len ltac:(by left)). cbv zeta in Hz.
    set (c := (j * s / len)%nat) in *.
    assert (Ec : (j * s / (2 * len) = c / 2)%nat) by (unfold c; rewrite Nat.Div0.div_div; f_equal; lia).
    rewrite Ec. assert (Hb : (c / 2 < 128 / len)%nat).
    { rewrite <- Ec. apply Nat.Div0.div_lt_upper_bound. lia. }
    assert (Els : len = (s * (len / s))%nat) by (pose proof (Nat.div_mod_eq len s); lia).
    destruct (fwd_block len (len / s) (128 / len) (c / 2) r Els Hlen eq_refl ltac:(lia) Hb) as [Hlo Hhi].
    destruct (Nat.even c) eqn:Ev.
    + apply Nat.even_spec in Ev as [h Eh]. replace (c * len)%nat with (2 * (c / 2) * len)%nat by lia. by apply Hlo.
    + assert (Hodd : Nat.odd c = true) by (by rewrite <- Nat.negb_even, Ev).
      apply Nat.odd_spec in Hodd as [h Eh].
      replace (c * len)%nat with ((2 * (c / 2) + 1) * len)%nat by (f_equal; lia). by apply Hhi.
Qed.
End values.
