(* ===== verification/MlKem.v ===== *)
(** ML-KEM-768 ([sec/pqc/mlkem/]): field arithmetic, the number-theoretic
    transform, sampling, compression, the K-PKE scheme and the KEM with
    implicit rejection.

    Coefficients are [int16_t]: every addition and product of the code is
    written with its conversion back ([i16]).  [Fips203] has the notions of the
    standard that the transforms and the rounding are stated with; that the
    whole scheme is the standard's is proved in [Kem203]. *)
From S2P Require Import Prelude Str Hex Keccak Ntt.
From Stdlib Require String.
Import (notations) String.
Open Scope Z_scope.

Definition KQ : Z := 3329.
Definition KK : nat := 3.
Definition KDU : Z := 10.
Definition KDV : Z := 4.

Definition k_zetas : list Z := [
  (-1044); (-758); (-359); (-1517); 1493; 1422; 287; 202;
  (-171); 622; 1577; 182; 962; (-1202); (-1474); 1468;
  573; (-1325); 264; 383; (-829); 1458; (-1602); (-130);
  (-681); 1017; 732; 608; (-1542); 411; (-205); (-1571);
  1223; 652; (-552); 1015; (-1293); 1491; (-282); (-1544);
  516; (-8); (-320); (-666); (-1618); (-1162); 126; 1469;
  (-853); (-90); (-271); 830; 107; (-1421); (-247); (-951);
  (-398); 961; (-1508); (-725); 448; (-1065); 677; (-1275);
  (-1103); 430; 555; 843; (-1251); 871; 1550; 105;
  422; 587; 177; (-235); (-291); (-460); 1574; 1653;
  (-246); 778; 1159; (-147); (-777); 1483; (-602); 1119;
  (-1590); 644; (-872); 349; 418; 329; (-156); (-75);
  817; 1097; 603; 610; 1322; (-1285); (-1465); 384;
  (-1215); (-136); 1218; (-1335); (-874); 220; (-1187); (-1659);
  (-1185); (-1530); (-1278); 794; (-1510); (-854); (-870); 478;
  (-108); (-308); 996; 991; 958; (-1460); 1522; 1628].

(** * Field arithmetic *)

Definition k_montgomery (a : Z) : Z :=
  let t := i16 (i16 a * i16 (-3327)) in
  i16 (Z.shiftr (a - t * KQ) 16).
Definition k_barrett (a : Z) : Z :=
  let t := i16 (Z.shiftr (20159 * a + Z.shiftl 1 25) 26) in
  i16 (a - t * KQ).
Definition k_fqmul (a b : Z) : Z := k_montgomery (a * b).

(** * The transforms

    The loop over [start] of one level: [n] blocks of [2 * len] cells; the
    state is the array and the index of the next zeta. *)
Definition k_ntt_level (len : nat) (rk : list Z * nat) : list Z * nat :=
  for_ 0 (256 / (2 * len)) (fun b '(r, k) =>
    let start := (b * (2 * len))%nat in
    let zeta := k_zetas.[k] in
    (for_ start (start + len) (fun j r =>
       let t := k_fqmul zeta r.[j + len] in
       let r := r.[j + len <- i16 (r.[j] - t)] in
       r.[j <- i16 (r.[j] + t)]) r, S k)) rk.
(** [for (len = 128; len >= 2; len >>= 1)]. *)
Definition k_ntt (r : list Z) : list Z :=
  let '(r, _) := foldl (fun rk len => k_ntt_level len rk) (r, 1%nat) [128; 64; 32; 16; 8; 4; 2]%nat in
  tab 256 (fun j => k_barrett r.[j]).

Definition k_invntt_level (len : nat) (rk : list Z * nat) : list Z * nat :=
  for_ 0 (256 / (2 * len)) (fun b '(r, k) =>
    let start := (b * (2 * len))%nat in
    let zeta := k_zetas.[k] in
    (for_ start (start + len) (fun j r =>
       let t := r.[j] in
       let r := r.[j <- k_barrett (i16 (t + r.[j + len]))] in
       let r := r.[j + len <- i16 (r.[j + len] - t)] in
       r.[j + len <- k_fqmul zeta r.[j + len]]) r, (k - 1)%nat)) rk.
Definition k_invntt (r : list Z) : list Z :=
  let '(r, _) := foldl (fun rk len => k_invntt_level len rk) (r, 127%nat) [2; 4; 8; 16; 32; 64; 128]%nat in
  tab 256 (fun j => k_fqmul r.[j] 1441).

Definition k_basemul (a0 a1 b0 b1 zeta : Z) : Z * Z :=
  let r0 := k_fqmul (k_fqmul a1 b1) zeta in
  (i16 (r0 + k_fqmul a0 b0), i16 (k_fqmul a0 b1 + k_fqmul a1 b0)).
Definition k_poly_mul (a b : list Z) : list Z :=
  concat (tab 64 (fun i =>
    let '(r0, r1) := k_basemul a.[4 * i] a.[4 * i + 1] b.[4 * i] b.[4 * i + 1] k_zetas.[64 + i] in
    let '(r2, r3) := k_basemul a.[4 * i + 2] a.[4 * i + 3] b.[4 * i + 2] b.[4 * i + 3] (i16 (- k_zetas.[64 + i])) in
    [r0; r1; r2; r3])).

Definition k_poly_add (a b : list Z) : list Z := tab 256 (fun i => i16 (a.[i] + b.[i])).
Definition k_poly_sub (a b : list Z) : list Z := tab 256 (fun i => i16 (a.[i] - b.[i])).
Definition k_poly_reduce (r : list Z) : list Z := tab 256 (fun i => k_barrett r.[i]).
Definition k_poly_tomont (r : list Z) : list Z :=
  let f := i16 (2 ^ 32 mod KQ) in tab 256 (fun i => k_montgomery (r.[i] * f)).

(** * Sampling *)

Definition k_cbd2 (buf : list Z) : list Z :=
  concat (tab 32 (fun i =>
    let t := Z.lor (Z.lor (Z.lor buf.[4 * i] (Z.shiftl buf.[4 * i + 1] 8)) (Z.shiftl buf.[4 * i + 2] 16))
                   (Z.shiftl buf.[4 * i + 3] 24) in
    let d := Z.land t 0x55555555 in
    let d := u32 (d + Z.land (Z.shiftr t 1) 0x55555555) in
    tab 8 (fun j =>
      let a := i16 (Z.land (Z.shiftr d (Z.of_nat (4 * j))) 3) in
      let b := i16 (Z.land (Z.shiftr d (Z.of_nat (4 * j + 2))) 3) in
      i16 (a - b)))).

(** [while (ctr < 256 && off + 3 <= sizeof big)]: the accepted coefficients
    of the buffer, at most 256. *)
Fixpoint k_sample_loop (fuel : nat) (big : list Z) (off : nat) (r : list Z) : list Z :=
  match fuel with
  | O => r
  | S fuel =>
      if (length r <? 256)%nat && (off + 3 <=? 840)%nat then
        let d1 := u16 (Z.lor big.[off] (Z.shiftl (Z.land big.[off + 1] 0x0f) 8)) in
        let d2 := u16 (Z.lor (Z.shiftr big.[off + 1] 4) (Z.shiftl big.[off + 2] 4)) in
        let r := if (d1 <? KQ) && (length r <? 256)%nat then r ++ [i16 d1] else r in
        let r := if (d2 <? KQ) && (length r <? 256)%nat then r ++ [i16 d2] else r in
        k_sample_loop fuel big (off + 3) r
      else r
  end.
(** [Undefined] when the 840 squeezed bytes hold fewer than 256 accepted
    coefficients: the rest of the caller's array is then never written. *)
Definition k_sample_ntt (seed : list Z) : run (list Z) :=
  let r := k_sample_loop 281 (oo_shake128 (slice 0 34 seed) 840) 0 [] in
  if (length r =? 256)%nat then Ret r else Undefined.

Definition k_prf (outn : nat) (seed : list Z) (nonce : Z) : list Z :=
  oo_shake256 (slice 0 32 seed ++ [nonce]) outn.

(** * Compression and encoding *)

Definition k_decompress (y d : Z) : Z :=
  i16 (Z.shiftr (u32 (u32 (u32 y * KQ) + Z.shiftl 1 (d - 1))) d).

(** One coefficient of [k_poly_compress] at [d = 4], 10 and 1. *)
Definition k_compress4 (a : Z) : Z :=
  let u := a + Z.land (Z.shiftr a 15) KQ in
  let d0 := u32 (Z.shiftl (u32 u) 4) in
  let d0 := u32 (d0 + 1665) in
  let d0 := u32 (d0 * 80635) in
  u8 (Z.land (Z.shiftr d0 28) 0xf).
Definition k_compress10 (a : Z) : Z :=
  let t := u16 a in
  let t := u16 (t + Z.land (Z.shiftr (i16 t) 15) KQ) in
  let d0 := u64 (Z.shiftl t 10) in
  let d0 := u64 (d0 + 1665) in
  let d0 := u64 (d0 * 1290167) in
  u16 (Z.land (Z.shiftr d0 32) 0x3ff).
Definition k_compress1 (a : Z) : Z :=
  let t := u32 a in
  let t := u32 (Z.shiftl t 1) in
  let t := u32 (t + 1665) in
  let t := u32 (t * 80635) in
  Z.land (Z.shiftr t 28) 1.

Definition k_pack4 (t : list Z) : list Z :=
  [u8 (Z.lor t.[0] (Z.shiftl t.[1] 4)); u8 (Z.lor t.[2] (Z.shiftl t.[3] 4));
   u8 (Z.lor t.[4] (Z.shiftl t.[5] 4)); u8 (Z.lor t.[6] (Z.shiftl t.[7] 4))].
Definition k_pack10 (t : list Z) : list Z :=
  [u8 (Z.shiftr t.[0] 0); u8 (Z.lor (Z.shiftr t.[0] 8) (Z.shiftl t.[1] 2));
   u8 (Z.lor (Z.shiftr t.[1] 6) (Z.shiftl t.[2] 4)); u8 (Z.lor (Z.shiftr t.[2] 4) (Z.shiftl t.[3] 6));
   u8 (Z.shiftr t.[3] 2)].
Definition k_poly_compress (a : list Z) (d : Z) : list Z :=
  if d =? 4 then concat (tab 32 (fun i => k_pack4 (tab 8 (fun j => k_compress4 a.[8 * i + j]))))
  else if d =? 10 then concat (tab 64 (fun i => k_pack10 (tab 4 (fun k => k_compress10 a.[4 * i + k]))))
  else if d =? 1 then
    tab 32 (fun i => for_ 0 8 (fun j r => Z.lor r (u8 (Z.shiftl (k_compress1 a.[8 * i + j]) (Z.of_nat j)))) 0)
  else [].

Definition k_unpack10 (a : list Z) (k : nat) : list Z :=
  [u16 (Z.lor a.[k] (Z.shiftl (Z.land a.[k + 1] 0x03) 8));
   u16 (Z.lor (Z.shiftr a.[k + 1] 2) (Z.shiftl (Z.land a.[k + 2] 0x0f) 6));
   u16 (Z.lor (Z.shiftr a.[k + 2] 4) (Z.shiftl (Z.land a.[k + 3] 0x3f) 4));
   u16 (Z.lor (Z.shiftr a.[k + 3] 6) (Z.shiftl a.[k + 4] 2))].
Definition k_poly_decompress (a : list Z) (d : Z) : list Z :=
  if d =? 4 then
    concat (tab 128 (fun i => [k_decompress (Z.land a.[i] 15) 4; k_decompress (Z.shiftr a.[i] 4) 4]))
  else if d =? 10 then
    concat (tab 64 (fun i => map (fun t => k_decompress (i16 (Z.land t 0x3ff)) 10) (k_unpack10 a (5 * i))))
  else if d =? 1 then
    concat (tab 32 (fun i => tab 8 (fun j => k_decompress (Z.land (Z.shiftr a.[i] (Z.of_nat j)) 1) 1)))
  else [].

Definition k_poly_frommsg (msg : list Z) : list Z :=
  concat (tab 32 (fun i => tab 8 (fun j =>
    let mask := i16 (- i16 (Z.land (Z.shiftr msg.[i] (Z.of_nat j)) 1)) in
    i16 (Z.land mask ((KQ + 1) / 2))))).
Definition k_poly_tomsg (a : list Z) : list Z := k_poly_compress a 1.

Definition k_enc_coeff (a : Z) : Z :=
  let t := u16 a in u16 (t + Z.land (Z.shiftr (i16 t) 15) KQ).
Definition k_poly_encode12 (a : list Z) : list Z :=
  concat (tab 128 (fun i =>
    let t0 := k_enc_coeff a.[2 * i] in let t1 := k_enc_coeff a.[2 * i + 1] in
    [u8 (Z.shiftr t0 0); u8 (Z.lor (Z.shiftr t0 8) (Z.shiftl t1 4)); u8 (Z.shiftr t1 4)])).
Definition k_poly_decode12 (a : list Z) : list Z :=
  concat (tab 128 (fun i =>
    [i16 (Z.land (Z.lor a.[3 * i] (Z.shiftl a.[3 * i + 1] 8)) 0xfff);
     i16 (Z.land (Z.lor (Z.shiftr a.[3 * i + 1] 4) (Z.shiftl a.[3 * i + 2] 4)) 0xfff)])).

(** * K-PKE *)


Definition poly := list Z.
(** [memcpy(seed, rho, 32)] and the two index bytes. *)
Definition k_gen_matrix (rho : list Z) (transposed : bool) : run (list (list poly)) :=
  run_map (fun i => run_map (fun j =>
    k_sample_ntt (slice 0 32 rho ++ [u8 (Z.of_nat (if transposed then i else j));
                                     u8 (Z.of_nat (if transposed then j else i))])) (seq 0 KK)) (seq 0 KK).

Definition k_getnoise_eta1 (seed : list Z) (nonce : Z) : poly := k_cbd2 (k_prf 128 seed nonce).
Definition k_getnoise_eta2 (seed : list Z) (nonce : Z) : poly := k_getnoise_eta1 seed nonce.

Definition k_pk_frombytes (pkbytes : list Z) : list poly * list Z :=
  (tab KK (fun i => k_poly_decode12 (drop (i * 384) pkbytes)), slice (KK * 384) 32 pkbytes).
Definition k_sk_frombytes (skbytes : list Z) : list poly :=
  tab KK (fun i => k_poly_decode12 (drop (i * 384) skbytes)).

Definition row {A} (d : A) (l : list A) (i : nat) : A := nth i l d.
Definition zero_poly : poly := zeros 256.
(** [for (j = 0; j < KK; j++) { mul(tmp, a[j], s[j]); acc += tmp; }]. *)
Definition k_dot (a s : list poly) : poly :=
  for_ 0 KK (fun j acc => k_poly_add acc (k_poly_mul (row [] a j) (row [] s j))) zero_poly.

Definition kpke_keygen (d : list Z) : run (list Z * list Z) :=
  let dn := slice 0 32 d ++ [u8 (Z.of_nat KK)] in
  let buf := oo_sha3_512_bytes dn in
  let rho := slice 0 32 buf in
  let sigma := slice 32 32 buf in
  let* a := k_gen_matrix rho false in
  let s := tab KK (fun i => k_getnoise_eta1 sigma (u8 (Z.of_nat i))) in
  let e := tab KK (fun i => k_getnoise_eta1 sigma (u8 (Z.of_nat (i + KK)))) in
  let s := map (fun p => k_poly_reduce (k_ntt p)) s in
  let e := map k_ntt e in
  let t := tab KK (fun i =>
    let t := k_poly_reduce (k_dot (row [] a i) s) in
    k_poly_reduce (k_poly_add (k_poly_tomont t) (row [] e i))) in
  let skc := concat (map k_poly_encode12 s) in
  let pk := concat (map k_poly_encode12 t) ++ rho in
  Ret (pk, skc).

Definition kpke_encrypt (pk m coins : list Z) : run (list Z) :=
  let '(pkpv, rho) := k_pk_frombytes pk in
  let* at_ := k_gen_matrix rho true in
  let sp := tab KK (fun i => k_getnoise_eta1 coins (u8 (Z.of_nat i))) in
  let ep := tab KK (fun i => k_getnoise_eta2 coins (u8 (Z.of_nat (i + KK)))) in
  let epp := k_getnoise_eta2 coins (u8 (Z.of_nat (2 * KK))) in
  let sp := map k_ntt sp in
  let bp := tab KK (fun i =>
    let b := k_invntt (k_poly_reduce (k_dot (row [] at_ i) sp)) in
    k_poly_reduce (k_poly_add b (row [] ep i))) in
  let v := k_invntt (k_poly_reduce (k_dot pkpv sp)) in
  let kpoly := k_poly_frommsg m in
  let v := k_poly_reduce (k_poly_add (k_poly_add v epp) kpoly) in
  Ret (concat (map (fun b => k_poly_compress b KDU) bp) ++ k_poly_compress v KDV).

Definition kpke_decrypt (skc c : list Z) : list Z :=
  let bp := tab KK (fun i => k_poly_decompress (drop (i * 320) c) KDU) in
  let v := k_poly_decompress (drop (KK * 320) c) KDV in
  let skpv := k_sk_frombytes skc in
  let bp := map k_ntt bp in
  let mp := k_invntt (k_poly_reduce (k_dot skpv bp)) in
  k_poly_tomsg (k_poly_reduce (k_poly_sub v mp)).

(** * The KEM ([mlkem.c], [mlkem_kem.c]) *)

Definition crypto_mlkem768_keygen_internal (dz : OoStr) : run OoStr :=
  match k_hex_load dz 64 with
  | None => Ret (oo_str_lit "")
  | Some buf =>
      let* keys := kpke_keygen buf in
      let '(pk, skc) := keys in
      let h := oo_sha3_256_bytes pk in
      let sk := skc ++ pk ++ h ++ slice 32 32 buf in
      Ret (k_pqc_hex_out_cat pk 1184 sk 2400)
  end.

(** Shared by the two sides: [SHA3-512(m || h)], the key and the coins. *)
Definition kem_kr (m h : list Z) : list Z := oo_sha3_512_bytes (slice 0 32 m ++ h).

Definition crypto_mlkem768_encaps_internal (ek m : OoStr) : run OoStr :=
  match k_hex_load ek 1184 with
  | None => Ret (oo_str_lit "")
  | Some pk =>
      match k_hex_load m 32 with
      | None => Ret (oo_str_lit "")
      | Some msg =>
          let kr := kem_kr msg (oo_sha3_256_bytes pk) in
          let* ct := kpke_encrypt pk msg (drop 32 kr) in
          Ret (k_pqc_hex_out_cat ct 1088 kr 32)
      end
  end.

(** The constant-time choice between the key and the rejection key. *)
Definition kem_select (ct cmp kr kbar : list Z) : list Z :=
  let fail := for_ 0 1088 (fun i fail => Z.lor fail (u8 (Z.lxor ct.[i] cmp.[i]))) 0 in
  let fail := u8 (Z.shiftr (- fail) 8) in
  tab 32 (fun i => u8 (Z.lor (Z.land kr.[i] (Z.lnot fail)) (Z.land kbar.[i] fail))).

Definition crypto_mlkem768_decaps_internal (dk ct_in : OoStr) : run OoStr :=
  match k_hex_load dk 2400 with
  | None => Ret (oo_str_lit "")
  | Some sk =>
      match k_hex_load ct_in 1088 with
      | None => Ret (oo_str_lit "")
      | Some ct =>
          let m := kpke_decrypt sk ct in
          let pk := slice 1152 1184 sk in
          let h := slice (1152 + 1184) 32 sk in
          let z := drop (1152 + 1184 + 32) sk in
          let kr := kem_kr m h in
          let* cmp := kpke_encrypt pk m (drop 32 kr) in
          let kbar := oo_shake256 (slice 0 32 z ++ ct) 32 in
          Ret (k_pqc_hex_out (kem_select ct cmp kr kbar) 32)
      end
  end.

(** * Field arithmetic *)

Lemma i16_cong a : exists k, i16 a = a + k * 65536.
Proof. destruct (i16_eqm a) as (k & E & _). by exists k. Qed.
Lemma i16_range a : -32768 <= i16 a < 32768.
Proof. by destruct (i16_eqm a) as (_ & _ & H). Qed.

(** Montgomery reduction divides by [2^16] modulo [q]. *)
Lemma k_montgomery_spec a : - (32768 * KQ) <= a <= 32767 * KQ ->
  k_montgomery a * 65536 = a - i16 (i16 a * -3327) * KQ /\ - KQ < k_montgomery a < KQ.
Proof.
  unfold KQ. intros Ha. unfold k_montgomery. change (i16 (-3327)) with (-3327).
  destruct (i16_cong a) as [k1 E1]. destruct (i16_cong (i16 a * -3327)) as [k2 E2].
  pose proof (i16_range (i16 a * -3327)) as Ht. set (t := i16 (i16 a * -3327)) in *.
  assert (Hdiv : a - t * 3329 = 65536 * (169 * a + k1 * 3327 * 3329 - k2 * 3329)) by (rewrite E2, E1; lia).
  unfold KQ. rewrite Z.shiftr_div_pow2 by lia. change (2 ^ 16) with 65536.
  rewrite Hdiv. set (m := 169 * a + k1 * 3327 * 3329 - k2 * 3329) in *. clearbody m t.
  replace (65536 * m / 65536) with m by lia. rewrite i16_id by lia. lia.
Qed.

Lemma k_montgomery_eqm a : - (32768 * KQ) <= a <= 32767 * KQ ->
  eqm KQ (k_montgomery a) (169 * a) /\ -3328 <= k_montgomery a <= 3328.
Proof.
  intros Ha. destruct (k_montgomery_spec a Ha) as [E R]. unfold KQ in *. split; [|lia].
  apply (eqm_mult _ _ _ (- 3327 * k_montgomery a - 169 * i16 (i16 a * -3327))). lia.
Qed.

(** The centred representative. *)
Lemma k_barrett_spec a : -32768 <= a < 32768 ->
  eqm KQ (k_barrett a) a /\ -1664 <= k_barrett a <= 1664.
Proof.
  intros Ha. unfold k_barrett. change (Z.shiftl 1 25) with 33554432.
  rewrite Z.shiftr_div_pow2 by lia. change (2 ^ 26) with 67108864.
  set (t := (20159 * a + 33554432) / 67108864).
  assert (Ht : -1664 <= a - t * 3329 <= 1664 /\ -16 <= t <= 16) by (unfold t; lia). clearbody t.
  rewrite (i16_id t) by lia. unfold KQ. rewrite i16_id by lia. split; [|lia].
  apply (eqm_mult _ _ _ (- t)). lia.
Qed.

Lemma k_fqmul_spec a b : -32768 <= a <= 32767 -> - KQ < b < KQ ->
  eqm KQ (k_fqmul a b) (169 * (a * b)) /\ -3328 <= k_fqmul a b <= 3328.
Proof. unfold KQ. intros Ha Hb. apply k_montgomery_eqm. unfold KQ. nia. Qed.
Lemma k_fqmul_comm a b : k_fqmul a b = k_fqmul b a.
Proof. unfold k_fqmul. by rewrite Z.mul_comm. Qed.

Lemma k_zetas_range k : -1664 <= k_zetas.[k] <= 1664.
Proof.
  assert (H : forallb (fun x => (-1664 <=? x) && (x <=? 1664)) k_zetas = true) by reflexivity.
  destruct (Nat.lt_ge_cases k (length k_zetas)) as [Hk|Hk]; [|rewrite get_overflow by done; lia].
  rewrite forallb_forall in H. specialize (H k_zetas.[k]). unfold get in *.
  specialize (H (nth_In _ _ Hk)). lia.
Qed.

(** The zetas in the plain domain: [169 = 2^-16 mod q]. *)
Definition k_zeta (k : nat) : Z := 169 * k_zetas.[k].

Lemma k_zeta_mul k y : -32768 <= y <= 32767 ->
  eqm KQ (k_fqmul k_zetas.[k] y) (k_zeta k * y) /\ -3328 <= k_fqmul k_zetas.[k] y <= 3328.
Proof.
  intros Hy. rewrite k_fqmul_comm. destruct (k_fqmul_spec y k_zetas.[k]) as [E R]; [lia| |split; [|exact R]].
  - pose proof (k_zetas_range k). unfold KQ. lia.
  - rewrite E. unfold k_zeta, eqm. f_equal. ring.
Qed.

#[local] Abbreviation near := (Ntt.near KQ).

(** * The loops as levels *)

Definition ntt_lo (k b : nat) (x y : Z) : Z := i16 (x + k_fqmul k_zetas.[k + b] y).
Definition ntt_hi (k b : nat) (x y : Z) : Z := i16 (x - k_fqmul k_zetas.[k + b] y).
Definition inv_lo (k b : nat) (x y : Z) : Z := k_barrett (i16 (x + y)).
Definition inv_hi (k b : nat) (x y : Z) : Z := k_fqmul k_zetas.[k - b] (i16 (y - x)).

Lemma k_ntt_level_spec len n r k : (0 < len)%nat -> (256 / (2 * len) = n)%nat -> length r = (n * (2 * len))%nat ->
  k_ntt_level len (r, k) = (level (ntt_lo k) (ntt_hi k) len r, (k + n)%nat).
Proof.
  intros Hlen Hn Hr. unfold k_ntt_level. rewrite Hn. replace (k + n)%nat with (Nat.iter n S k) by apply iter_S.
  apply (level_loop _ _ _ S); [done|done|].
  intros b s Hb Hs. rewrite iter_S. f_equal. rewrite <- Hs.
  pose proof (block_fits b n len Hb). apply block_loop; [lia|]. intros j s' Hj Hs'. cbv zeta.
  rewrite get_upd_ne by lia. reflexivity.
Qed.

Lemma k_invntt_level_spec len n r k : (0 < len)%nat -> (256 / (2 * len) = n)%nat -> length r = (n * (2 * len))%nat ->
  k_invntt_level len (r, k) = (level (inv_lo k) (inv_hi k) len r, (k - n)%nat).
Proof.
  intros Hlen Hn Hr. unfold k_invntt_level. rewrite Hn. replace (k - n)%nat with (Nat.iter n (fun k => (k - 1)%nat) k) by apply iter_pred.
  apply (level_loop _ _ _ (fun k => (k - 1)%nat)); [done|done|].
  intros b s Hb Hs. rewrite iter_pred. f_equal. rewrite <- Hs.
  pose proof (block_fits b n len Hb). apply block_loop; [lia|]. intros j s' Hj Hs'. cbv zeta.
  rewrite (get_upd_ne _ j (j + len)), get_upd_eq by (rewrite ?length_upd; lia).
  unfold upd. rewrite list_insert_insert_eq. rewrite list_insert_insert_ne by lia. reflexivity.
Qed.

Lemma ntt_level_near B len n r p : good_len len -> (256 / (2 * len) = n)%nat -> (128 / len = n)%nat ->
  near B r p -> 0 <= B -> B + 3328 <= 32767 ->
  exists r', k_ntt_level len (r, n) = (r', n + n)%nat /\ near (B + 3328) r' (fwd k_zeta len p).
Proof.
  intros [Hlen Hg] Hn Hn' (Hr & Hp & H) HB0 HB. rewrite Hn' in Hg.
  rewrite (k_ntt_level_spec len n) by lia. eexists. split; [reflexivity|].
  split; [by rewrite length_level|]. split; [unfold fwd; by rewrite length_level|].
  unfold fwd. rewrite Hn', <- Hr. apply (level_rel (fun x y => - B <= x <= B /\ eqm KQ x y)
    (fun x y => - (B + 3328) <= x <= B + 3328 /\ eqm KQ x y) _ _ _ _ len n);
    [done|lia|lia|by rewrite Hr|].
  intros b x y x' y' Hb [Rx Ex] [Ry Ey]. unfold ntt_lo, ntt_hi.
  destruct (k_zeta_mul (n + b) y) as [E R]; [lia|].
  rewrite !i16_id by lia. repeat split; try lia; by rewrite E, Ex, Ey.
Qed.

Lemma invntt_level_near len n r p : good_len len -> (256 / (2 * len) = n)%nat -> (128 / len = n)%nat ->
  near 16383 r p ->
  exists r', k_invntt_level len (r, 2 * n - 1)%nat = (r', 2 * n - 1 - n)%nat /\ near 3328 r' (bwd k_zeta len p).
Proof.
  intros [Hlen Hg] Hn Hn' (Hr & Hp & H). rewrite Hn' in Hg.
  rewrite (k_invntt_level_spec len n) by lia. eexists. split; [reflexivity|].
  split; [by rewrite length_level|]. split; [unfold bwd; by rewrite length_level|].
  unfold bwd. rewrite Hn', <- Hr. apply (level_rel (fun x y => - 16383 <= x <= 16383 /\ eqm KQ x y)
    (fun x y => - 3328 <= x <= 3328 /\ eqm KQ x y) _ _ _ _ len n);
    [done|lia|lia|by rewrite Hr|].
  intros b x y x' y' Hb [Rx Ex] [Ry Ey]. unfold inv_lo, inv_hi.
  destruct (k_barrett_spec (x + y)) as [E1 R1]; [lia|].
  destruct (k_zeta_mul (2 * n - 1 - b) (y - x)) as [E2 R2]; [lia|].
  rewrite !i16_id by lia. repeat split; try lia.
  - by rewrite E1, Ex, Ey.
  - rewrite E2, Ex, Ey. unfold eqm. f_equal. ring.
Qed.

Definition k_lens : list nat := [128; 64; 32; 16; 8; 4; 2]%nat.
Lemma k_lens_good : Forall good_len k_lens.
Proof. repeat constructor. Qed.

Lemma k_barrett_near B r p : B <= 32767 -> near B r p -> near 1664 (tab 256 (fun j => k_barrett r.[j])) p.
Proof.
  intros HB (Hr & Hp & H). split; [apply length_tab|]. split; [done|]. intros i Hi.
  rewrite get_tab by done. destruct (H i Hi) as [R E]. destruct (k_barrett_spec r.[i]) as [E' R']; [lia|].
  split; [lia|]. by rewrite E'.
Qed.

(** The transform computes the exact one, with no overflow, on inputs of
    absolute value at most [32767 - 7 * 3328]. *)
Lemma k_ntt_near B r p : 0 <= B -> B + 7 * 3328 <= 32767 -> near B r p ->
  near 1664 (k_ntt r) (fwds k_zeta k_lens p).
Proof.
  intros HB0 HB H. unfold k_ntt. cbn [foldl].
  destruct (ntt_level_near B 128 1 r p) as (r1 & -> & H1); [repeat constructor|done|done|done|lia|lia|].
  destruct (ntt_level_near _ 64 2 _ _ ltac:(repeat constructor) eq_refl eq_refl H1 ltac:(lia) ltac:(lia)) as (r2 & E2 & H2).
  destruct (ntt_level_near _ 32 4 _ _ ltac:(repeat constructor) eq_refl eq_refl H2 ltac:(lia) ltac:(lia)) as (r3 & E3 & H3).
  destruct (ntt_level_near _ 16 8 _ _ ltac:(repeat constructor) eq_refl eq_refl H3 ltac:(lia) ltac:(lia)) as (r4 & E4 & H4).
  destruct (ntt_level_near _ 8 16 _ _ ltac:(repeat constructor) eq_refl eq_refl H4 ltac:(lia) ltac:(lia)) as (r5 & E5 & H5).
  destruct (ntt_level_near _ 4 32 _ _ ltac:(repeat constructor) eq_refl eq_refl H5 ltac:(lia) ltac:(lia)) as (r6 & E6 & H6).
  destruct (ntt_level_near _ 2 64 _ _ ltac:(repeat constructor) eq_refl eq_refl H6 ltac:(lia) ltac:(lia)) as (r7 & E7 & H7).
  cbn [Nat.add] in *. rewrite E2, E3, E4, E5, E6, E7. eapply k_barrett_near; [|exact H7]. lia.
Qed.

Lemma k_invntt_near r p : near 16383 r p ->
  near 3328 (k_invntt r) (map (Z.mul (169 * 1441)) (bwds k_zeta k_lens p)).
Proof.
  intros H. unfold k_invntt. cbn [foldl].
  assert (W : forall r p, near 3328 r p -> near 16383 r p) by (intros ? ?; by apply near_le).
  destruct (invntt_level_near 2 64 r p ltac:(repeat constructor) eq_refl eq_refl H) as (r1 & E1 & H1).
  destruct (invntt_level_near 4 32 _ _ ltac:(repeat constructor) eq_refl eq_refl (W _ _ H1)) as (r2 & E2 & H2).
  destruct (invntt_level_near 8 16 _ _ ltac:(repeat constructor) eq_refl eq_refl (W _ _ H2)) as (r3 & E3 & H3).
  destruct (invntt_level_near 16 8 _ _ ltac:(repeat constructor) eq_refl eq_refl (W _ _ H3)) as (r4 & E4 & H4).
  destruct (invntt_level_near 32 4 _ _ ltac:(repeat constructor) eq_refl eq_refl (W _ _ H4)) as (r5 & E5 & H5).
  destruct (invntt_level_near 64 2 _ _ ltac:(repeat constructor) eq_refl eq_refl (W _ _ H5)) as (r6 & E6 & H6).
  destruct (invntt_level_near 128 1 _ _ ltac:(repeat constructor) eq_refl eq_refl (W _ _ H6)) as (r7 & E7 & H7).
  cbn [Nat.mul Nat.add Nat.sub] in *. rewrite E1, E2, E3, E4, E5, E6, E7.
  change (bwd k_zeta 128 (bwd k_zeta 64 (bwd k_zeta 32 (bwd k_zeta 16 (bwd k_zeta 8 (bwd k_zeta 4 (bwd k_zeta 2 p)))))))
    with (bwds k_zeta k_lens p) in H7.
  destruct H7 as (Hl & Hp & H7). split; [apply length_tab|]. split; [by rewrite length_map|].
  intros i Hi. rewrite get_tab, get_map_mul by lia. destruct (H7 i Hi) as [R E].
  destruct (k_fqmul_spec r7.[i] 1441) as [E' R']; [lia|unfold KQ; lia|]. split; [lia|].
  rewrite E', E. unfold eqm. f_equal. ring.
Qed.

(** The inverse transform undoes the transform, up to the Montgomery factor. *)
Lemma k_inverse_zetas : inverse_zetas KQ k_zeta k_zeta k_lens.
Proof.
  assert (H : forallb (fun len => forallb (fun b =>
    ((k_zeta (128 / len + b) * k_zeta (2 * (128 / len) - 1 - b)) mod KQ =? (-1) mod KQ)) (seq 0 (128 / len))) k_lens = true)
    by (vm_compute; reflexivity).
  intros len b Hlen Hb. rewrite forallb_forall in H. specialize (H len Hlen). rewrite forallb_forall in H.
  specialize (H b ltac:(apply in_seq; lia)). by apply Z.eqb_eq in H.
Qed.

(** * FIPS 203: the ring and its transform *)
Module Fips203.
(** Bit reversal of seven bits and the roots [17^(2 BitRev7(j) + 1)]. *)
Definition bitrev7 (j : nat) : nat :=
  fold_left (fun acc i => 2 * acc + (j / 2 ^ i) mod 2)%nat (seq 0 7) 0%nat.
Definition gamma (j : nat) : Z := 17 ^ (2 * Z.of_nat (bitrev7 j) + 1) mod KQ.

(** The polynomial modulo [X^2 - y]: the pair of its values on the even and
    on the odd coefficients. *)
Fixpoint modX2 (y : Z) (l : list Z) : Z * Z :=
  match l with
  | [] => (0, 0)
  | x :: l => let '(e, o) := modX2 y l in (x + y * o, e)
  end.
(** The product of two such residues. *)
Definition mulX2 (y : Z) (a b : Z * Z) : Z * Z :=
  (fst a * fst b + y * (snd a * snd b), fst a * snd b + snd a * fst b).

(** [Compress_d] and [Decompress_d] (section 4.2.1): rounding to the nearest
    multiple, halves up. *)
Definition compress (d x : Z) : Z := ((2 ^ (d + 1) * x + KQ) / (2 * KQ)) mod 2 ^ d.
Definition decompress (d y : Z) : Z := (2 * KQ * y + 2 ^ d) / 2 ^ (d + 1).
End Fips203.
Import Fips203 (modX2, mulX2).

(** ** Values of appended and combined lists *)

Lemma modX2_app y m : forall l1 l2, length l1 = (2 * m)%nat ->
  fst (modX2 y (l1 ++ l2)) = fst (modX2 y l1) + y ^ Z.of_nat m * fst (modX2 y l2) /\
  snd (modX2 y (l1 ++ l2)) = snd (modX2 y l1) + y ^ Z.of_nat m * snd (modX2 y l2).
Proof.
  induction m as [|m IH]; intros l1 l2 Hl.
  - destruct l1; [|cbn in Hl; lia]. cbn [app modX2 fst snd]. rewrite Z.pow_0_r. lia.
  - destruct l1 as [|a [|b l1]]; [cbn in Hl; lia..|]. cbn [app modX2]. specialize (IH l1 l2 ltac:(cbn in Hl; lia)).
    destruct (modX2 y (l1 ++ l2)) as [e o], (modX2 y l1) as [e1 o1], (modX2 y l2) as [e2 o2].
    cbn [fst snd] in *. destruct IH as [-> ->]. rewrite Nat2Z.inj_succ, Z.pow_succ_r by lia. lia.
Qed.

Lemma modX2_lin q y c : forall l l1 l2, length l1 = length l -> length l2 = length l ->
  (forall i, (i < length l)%nat -> eqm q l.[i] (l1.[i] + c * l2.[i])) ->
  eqm q (fst (modX2 y l)) (fst (modX2 y l1) + c * fst (modX2 y l2)) /\
  eqm q (snd (modX2 y l)) (snd (modX2 y l1) + c * snd (modX2 y l2)).
Proof.
  induction l as [|x l IH]; intros l1 l2 H1 H2 H.
  - destruct l1, l2; try discriminate. cbn [modX2 fst snd]. split; unfold eqm; f_equal; lia.
  - destruct l1 as [|x1 l1], l2 as [|x2 l2]; try discriminate. cbn [modX2].
    destruct (IH l1 l2) as [He Ho]; [cbn in *; lia..|intros i Hi; apply (H (S i)); cbn; lia|].
    pose proof (H 0%nat ltac:(cbn; lia)) as H0. rewrite !get_cons_0 in H0.
    destruct (modX2 y l) as [e o], (modX2 y l1) as [e1 o1], (modX2 y l2) as [e2 o2]. cbn [fst snd] in *.
    split; [|done]. rewrite H0, Ho. unfold eqm. f_equal. ring.
Qed.

Lemma modX2_eqv q y l l' : eqv q l l' ->
  eqm q (fst (modX2 y l)) (fst (modX2 y l')) /\ eqm q (snd (modX2 y l)) (snd (modX2 y l')).
Proof.
  intros [Hl H]. destruct (modX2_lin q y 0 l l' l') as [E1 E2]; [done|done| |].
  - intros i Hi. rewrite H by done. unfold eqm. f_equal. lia.
  - split; [rewrite E1|rewrite E2]; unfold eqm; f_equal; lia.
Qed.

(** The code's zetas are the powers of the roots along every path. *)
Lemma k_leaf_zetas j : (j < 128)%nat ->
  leaf_zetas KQ k_zeta 2 (fun m => Fips203.gamma j ^ Z.of_nat m) j k_lens.
Proof.
  intros Hj.
  assert (H : forallb (fun j => forallb (fun len => let c := (j * 2 / len)%nat in
      (Fips203.gamma j ^ Z.of_nat (len / 2)) mod KQ =?
      (if Nat.even c then k_zeta (128 / len + c / 2) else - k_zeta (128 / len + c / 2)) mod KQ) k_lens) (seq 0 128) = true)
    by (vm_compute; reflexivity).
  rewrite forallb_forall in H. specialize (H j ltac:(apply in_seq; lia)). rewrite forallb_forall in H.
  intros len Hlen. specialize (H len Hlen). cbv zeta in *. by apply Z.eqb_eq in H.
Qed.

(** The exact transform computes the residues modulo every [X^2 - gamma j]. *)
Lemma fwds_residues r j : length r = 256%nat -> (j < 128)%nat ->
  let r' := fwds k_zeta k_lens r in
  eqm KQ r'.[2 * j] (fst (modX2 (Fips203.gamma j) r)) /\ eqm KQ r'.[2 * j + 1] (snd (modX2 (Fips203.gamma j) r)).
Proof.
  intros Hr Hj r'. set (y := Fips203.gamma j) in *.
  assert (Hlr : length r' = 256%nat) by (unfold r'; by rewrite length_fwds). 
  assert (Hs : slice (j * 2) 2 r' = [r'.[2 * j]; r'.[2 * j + 1]]).
  { apply array_ext; [by rewrite length_slice by lia|]. rewrite length_slice by lia. intros i Hi.
    rewrite get_slice by done. destruct i as [|[|i]]; [| |lia]; get_cells; f_equal; lia. }
  assert (H0 : slice (j * 2 / 256 * 256) 256 r = r).
  { rewrite Nat.div_small by lia. unfold slice. rewrite drop_0. apply take_ge. lia. }
  assert (Hm : Forall (fun len => (len mod 2 = 0)%nat) k_lens) by repeat constructor.
  pose proof (fwds_value KQ k_zeta 2 (fun l => fst (modX2 y l)) (fun m => y ^ Z.of_nat m)
    (fun l1 l2 m Hl => proj1 (modX2_app y m l1 l2 Hl))
    (fun l l1 l2 c H1 H2 H => proj1 (modX2_lin KQ y c l l1 l2 H1 H2 H))
    j k_lens 256 r ltac:(lia) ltac:(repeat split) (k_leaf_zetas j Hj) k_lens_good Hm Hr ltac:(lia) ltac:(lia)) as He.
  pose proof (fwds_value KQ k_zeta 2 (fun l => snd (modX2 y l)) (fun m => y ^ Z.of_nat m)
    (fun l1 l2 m Hl => proj2 (modX2_app y m l1 l2 Hl))
    (fun l l1 l2 c H1 H2 H => proj2 (modX2_lin KQ y c l l1 l2 H1 H2 H))
    j k_lens 256 r ltac:(lia) ltac:(repeat split) (k_leaf_zetas j Hj) k_lens_good Hm Hr ltac:(lia) ltac:(lia)) as Ho.
  fold r' in He, Ho. rewrite Hs, H0 in He, Ho. cbn [modX2 fst snd] in He, Ho.
  split; [rewrite <- He|rewrite <- Ho]; unfold eqm; f_equal; lia.
Qed.

(** ** Multiplication *)

Lemma gamma_root j : (j < 128)%nat -> eqm KQ (Fips203.gamma j ^ 128) (-1).
Proof.
  intros Hj. assert (H : forallb (fun j => (Fips203.gamma j ^ 128) mod KQ =? (-1) mod KQ) (seq 0 128) = true)
    by (vm_compute; reflexivity).
  rewrite forallb_forall in H. specialize (H j ltac:(apply in_seq; lia)). by apply Z.eqb_eq in H.
Qed.
Lemma gamma_zeta j : (j < 128)%nat ->
  eqm KQ (Fips203.gamma j) (if Nat.even j then k_zeta (64 + j / 2) else - k_zeta (64 + j / 2)).
Proof.
  intros Hj. pose proof (k_leaf_zetas j Hj 2%nat ltac:(unfold k_lens; cbn; auto 10)) as H. cbv zeta in H.
  rewrite Nat.div_mul in H by lia. change (2 / 2)%nat with 1%nat in H. change (Z.of_nat 1) with 1 in H.
  rewrite Z.pow_1_r in H. exact H.
Qed.

Lemma modX2_snoc y m x : forall l, length l = (2 * m + 1)%nat ->
  fst (modX2 y (l ++ [x])) = fst (modX2 y l) /\
  snd (modX2 y (l ++ [x])) = snd (modX2 y l) + y ^ Z.of_nat m * x.
Proof.
  intros [|a l] Hl; [cbn in Hl; lia|]. cbn [app modX2].
  destruct (modX2_app y m l [x]) as [E1 E2]; [cbn in Hl; lia|].
  destruct (modX2 y (l ++ [x])) as [e o], (modX2 y l) as [e1 o1]. cbn [modX2 fst snd] in *. lia.
Qed.

Lemma mulX_value y b m : length b = (2 * m + 2)%nat -> eqm KQ (y ^ Z.of_nat (m + 1)) (-1) ->
  eqm KQ (fst (modX2 y (Negacyclic.mulX b))) (y * snd (modX2 y b)) /\
  snd (modX2 y (Negacyclic.mulX b)) = fst (modX2 y b).
Proof.
  intros Hl Hy. destruct b as [|x b _] using rev_ind; [cbn in Hl; lia|].
  unfold Negacyclic.mulX. rewrite last_last, removelast_last. rewrite length_app in Hl. cbn [length] in Hl.
  destruct (modX2_snoc y m x b ltac:(lia)) as [-> ->]. cbn [modX2].
  destruct (modX2 y b) as [e o]. cbn [fst snd]. split; [|done].
  replace (y * (o + y ^ Z.of_nat m * x)) with (y * o + y ^ Z.of_nat (m + 1) * x).
  - rewrite Hy. unfold eqm. f_equal. lia.
  - rewrite Nat2Z.inj_add, Z.pow_add_r, Z.pow_1_r by lia. ring.
Qed.

(** Evaluation modulo [X^2 - y] is a ring homomorphism. *)
Lemma mul_value y a b m : length b = (2 * m + 2)%nat -> eqm KQ (y ^ Z.of_nat (m + 1)) (-1) ->
  eqm KQ (fst (modX2 y (Negacyclic.mul a b))) (fst (mulX2 y (modX2 y a) (modX2 y b))) /\
  eqm KQ (snd (modX2 y (Negacyclic.mul a b))) (snd (mulX2 y (modX2 y a) (modX2 y b))).
Proof.
  intros Hl Hy. assert (Hb : b <> []) by (intros ->; cbn in Hl; lia).
  induction a as [|x a [IH1 IH2]].
  - destruct (modX2_lin KQ y 0 (Negacyclic.mul [] b) (map (Z.mul 0) b) b) as [E1 E2].
    + cbn [Negacyclic.mul]. by rewrite !length_map.
    + cbn [Negacyclic.mul]. by rewrite length_map.
    + intros i Hi. cbn [Negacyclic.mul] in *. rewrite length_map in Hi. rewrite get_map_mul by done.
      rewrite map_zeros, get_zeros. unfold eqm. f_equal.
    + assert (Z0 : forall l, modX2 y (map (Z.mul 0) l) = (0, 0)).
      { induction l as [|z l IHl]; [done|]. cbn [map modX2]. rewrite IHl. f_equal; lia. }
      rewrite Z0 in E1, E2. cbn [fst snd mulX2 modX2] in *. split; [rewrite E1|rewrite E2]; unfold eqm; f_equal; lia.
  - assert (Hlm : length (Negacyclic.mul a b) = length b) by (by apply length_mul).
    destruct (modX2_lin KQ y x (Negacyclic.mul (x :: a) b) (Negacyclic.mulX (Negacyclic.mul a b)) b) as [E1 E2].
    + cbn [Negacyclic.mul]. unfold Negacyclic.add. by rewrite length_tab.
    + rewrite length_mul by done. done.
    + intros i Hi. rewrite length_mul in Hi by done. cbn [Negacyclic.mul]. unfold Negacyclic.add.
      rewrite get_tab by (rewrite length_mulX; [lia|intros E; rewrite E in Hlm; by destruct b]).
      rewrite get_map_mul by done. unfold eqm. f_equal. lia.
    + destruct (mulX_value y (Negacyclic.mul a b) m ltac:(lia) Hy) as [M1 M2].
      rewrite M1, M2 in *. clear M1 M2. rewrite E1, E2, IH1, IH2. unfold mulX2. cbn [modX2].
      destruct (modX2 y a) as [ea oa], (modX2 y b) as [eb ob]. cbn [fst snd].
      split; unfold eqm; f_equal; ring.
Qed.

Lemma k_basemul_spec a0 a1 b0 b1 zeta :
  -4095 <= a0 <= 4095 -> -4095 <= a1 <= 4095 -> -3328 <= b0 <= 3328 -> -3328 <= b1 <= 3328 -> -1664 <= zeta <= 1664 ->
  let '(r0, r1) := k_basemul a0 a1 b0 b1 zeta in
  let p := mulX2 (169 * zeta) (a0, a1) (b0, b1) in
  eqm KQ r0 (169 * fst p) /\ eqm KQ r1 (169 * snd p) /\ -6656 <= r0 <= 6656 /\ -6656 <= r1 <= 6656.
Proof.
  intros A0 A1 B0 B1 Hz. unfold k_basemul, mulX2. cbn [fst snd].
  assert (F : forall x y, -4095 <= x <= 4095 -> -3328 <= y <= 3328 ->
    eqm KQ (k_fqmul x y) (169 * (x * y)) /\ -3328 <= k_fqmul x y <= 3328)
    by (intros; apply k_fqmul_spec; unfold KQ; lia).
  destruct (F a1 b1) as [E11 R11]; [lia..|]. destruct (F a0 b0) as [E00 R00]; [lia..|].
  destruct (F a0 b1) as [E01 R01]; [lia..|]. destruct (F a1 b0) as [E10 R10]; [lia..|].
  destruct (F (k_fqmul a1 b1) zeta) as [E R]; [lia..|]. rewrite !i16_id by lia.
  repeat split; try lia.
  - rewrite E, E11, E00. unfold eqm. f_equal. ring.
  - rewrite E01, E10. unfold eqm. f_equal. ring.
Qed.

(** The first operand may be a decoded polynomial, up to 4095. *)
Lemma k_poly_mul_spec a b : length a = 256%nat -> length b = 256%nat ->
  (forall i, -4095 <= a.[i] <= 4095) -> (forall i, -3328 <= b.[i] <= 3328) ->
  length (k_poly_mul a b) = 256%nat /\
  forall j, (j < 128)%nat ->
    let p := mulX2 (Fips203.gamma j) (a.[2 * j], a.[2 * j + 1]) (b.[2 * j], b.[2 * j + 1]) in
    eqm KQ (k_poly_mul a b).[2 * j] (169 * fst p) /\ eqm KQ (k_poly_mul a b).[2 * j + 1] (169 * snd p) /\
    -6656 <= (k_poly_mul a b).[2 * j] <= 6656 /\ -6656 <= (k_poly_mul a b).[2 * j + 1] <= 6656.
Proof.
  intros Hla Hlb Ha Hb.
  set (cell := fun i => let '(r0, r1) := k_basemul a.[4 * i] a.[4 * i + 1] b.[4 * i] b.[4 * i + 1] k_zetas.[64 + i] in
    let '(r2, r3) := k_basemul a.[4 * i + 2] a.[4 * i + 3] b.[4 * i + 2] b.[4 * i + 3] (i16 (- k_zetas.[64 + i])) in
    [r0; r1; r2; r3]).
  assert (Hc : forall i, length (cell i) = 4%nat).
  { intros i. unfold cell. by destruct (k_basemul _ _ _ _ _), (k_basemul _ _ _ _ _). }
  split; [unfold k_poly_mul; by apply (length_concat_tab 64 4)|].
  intros j Hj p.
  assert (G : forall k, (k < 4)%nat -> (k_poly_mul a b).[4 * (j / 2) + k] = (cell (j / 2)%nat).[k]).
  { intros k Hk. unfold k_poly_mul. fold cell. apply get_concat_tab; [done|done|lia]. }
  pose proof (k_zetas_range (64 + j / 2)) as Hz.
  pose proof (gamma_zeta j Hj) as Hg. unfold k_zeta in Hg.
  assert (P : forall zz, eqm KQ (Fips203.gamma j) (169 * zz) ->
    let p' := mulX2 (169 * zz) (a.[2 * j], a.[2 * j + 1]) (b.[2 * j], b.[2 * j + 1]) in
    eqm KQ (169 * fst p) (169 * fst p') /\ snd p = snd p').
  { intros zz Hzz. unfold p, mulX2. cbn [fst snd]. split; [by rewrite Hzz|done]. }
  destruct (Nat.even j) eqn:Ev.
  - apply Nat.even_spec in Ev as [h Eh].
    pose proof (G 0%nat ltac:(lia)) as G0. pose proof (G 1%nat ltac:(lia)) as G1. unfold cell in G0, G1.
    replace (4 * (j / 2) + 0)%nat with (2 * j)%nat in * by lia. replace (4 * (j / 2) + 1)%nat with (2 * j + 1)%nat in * by lia.
    replace (4 * (j / 2))%nat with (2 * j)%nat in * by lia.
    pose proof (k_basemul_spec _ _ _ _ k_zetas.[64 + j / 2] (Ha (2 * j)%nat) (Ha (2 * j + 1)%nat) (Hb (2 * j)%nat) (Hb (2 * j + 1)%nat) Hz) as S.
    destruct (k_basemul a.[2 * j] a.[2 * j + 1] b.[2 * j] b.[2 * j + 1] k_zetas.[64 + j / 2]) as [r0 r1].
    destruct (k_basemul _ _ _ _ _) as [r2 r3]. get_cells. rewrite get_cons_0 in G0. rewrite get_cons_S, get_cons_0 in G1.
    rewrite G0, G1. destruct S as (S0 & S1 & S2 & S3). destruct (P _ Hg) as [-> ->]. auto.
  - assert (Hodd : Nat.odd j = true) by (by rewrite <- Nat.negb_even, Ev). apply Nat.odd_spec in Hodd as [h Eh].
    pose proof (G 2%nat ltac:(lia)) as G0. pose proof (G 3%nat ltac:(lia)) as G1. unfold cell in G0, G1.
    replace (4 * (j / 2) + 2)%nat with (2 * j)%nat in * by lia. replace (4 * (j / 2) + 3)%nat with (2 * j + 1)%nat in * by lia.
    assert (Hz' : -1664 <= - k_zetas.[64 + j / 2] <= 1664) by lia.
    rewrite i16_id in G0, G1 by lia.
    pose proof (k_basemul_spec _ _ _ _ (- k_zetas.[64 + j / 2]) (Ha (2 * j)%nat) (Ha (2 * j + 1)%nat) (Hb (2 * j)%nat) (Hb (2 * j + 1)%nat) Hz') as S.
    destruct (k_basemul a.[2 * j] a.[2 * j + 1] b.[2 * j] b.[2 * j + 1] (- k_zetas.[64 + j / 2])) as [r0 r1].
    destruct (k_basemul _ _ _ _ _) as [r2 r3]. 
    rewrite !get_cons_S, get_cons_0 in G0. rewrite !get_cons_S, get_cons_0 in G1.
    rewrite G0, G1. destruct S as (S0 & S1 & S2 & S3).
    destruct (P (- k_zetas.[64 + j / 2])) as [-> ->]; [rewrite Hg; unfold eqm; f_equal; ring|]. auto.
Qed.

Lemma k_ntt_residues r j : small 9471 r -> (j < 128)%nat ->
  eqm KQ (k_ntt r).[2 * j] (fst (modX2 (Fips203.gamma j) r)) /\
  eqm KQ (k_ntt r).[2 * j + 1] (snd (modX2 (Fips203.gamma j) r)).
Proof.
  intros Hr Hj. destruct (k_ntt_near 9471 r r) as (_ & _ & H); [lia|lia|by apply small_near|].
  destruct (fwds_residues r j (proj1 Hr) Hj) as [E1 E2].
  destruct (H (2 * j)%nat ltac:(lia)) as [_ H1]. destruct (H (2 * j + 1)%nat ltac:(lia)) as [_ H2].
  split; [by rewrite H1|by rewrite H2].
Qed.

(** The in-place transform [k_ntt] (Montgomery multiplications, 16-bit
    butterflies over seven levels, a final Barrett pass) is the NTT of
    FIPS 203: for every input of 256 coefficients of absolute value at most
    9471 no 16-bit operation overflows, every output lies in [-1664, 1664],
    and outputs [2j], [2j + 1] are congruent to the input polynomial modulo
    [X^2 - 17^(2 BitRev7(j) + 1)]. *)
Theorem k_ntt_is_fips203 r :
  small 9471 r ->
  small 1664 (k_ntt r) /\
  forall j, (j < 128)%nat ->
    eqm KQ (k_ntt r).[2 * j] (fst (modX2 (Fips203.gamma j) r)) /\
    eqm KQ (k_ntt r).[2 * j + 1] (snd (modX2 (Fips203.gamma j) r)).
Proof.
  intros Hr. split; [|intros j Hj; by apply k_ntt_residues].
  eapply near_small, (k_ntt_near 9471); [lia|lia|by apply small_near].
Qed.

Lemma k_ntt_is_fips203_witness :
  small 1664 (k_ntt (tab 256 (fun i => Z.of_nat i * 74 - 9470))) /\
  forall j, (j < 128)%nat ->
    eqm KQ (k_ntt (tab 256 (fun i => Z.of_nat i * 74 - 9470))).[2 * j]
      (fst (modX2 (Fips203.gamma j) (tab 256 (fun i => Z.of_nat i * 74 - 9470)))) /\
    eqm KQ (k_ntt (tab 256 (fun i => Z.of_nat i * 74 - 9470))).[2 * j + 1]
      (snd (modX2 (Fips203.gamma j) (tab 256 (fun i => Z.of_nat i * 74 - 9470)))).
Proof. apply (k_ntt_is_fips203 (tab 256 (fun i => Z.of_nat i * 74 - 9470))). by apply small_check. Defined.

(** The residues at the 128 roots determine the exact transform. *)
Lemma fwds_of_residues r P c : length r = 256%nat -> length P = 256%nat ->
  (forall j, (j < 128)%nat -> eqm KQ P.[2 * j] (c * fst (modX2 (Fips203.gamma j) r)) /\
                              eqm KQ P.[2 * j + 1] (c * snd (modX2 (Fips203.gamma j) r))) ->
  forall i, (i < 256)%nat -> eqm KQ P.[i] (c * (fwds k_zeta k_lens r).[i]).
Proof.
  intros Hr HP H i Hi. destruct (H (i / 2)%nat ltac:(lia)) as [H1 H2].
  destruct (fwds_residues r (i / 2) Hr ltac:(lia)) as [E1 E2].
  destruct (Nat.eq_dec (i mod 2) 0).
  - replace i with (2 * (i / 2))%nat by lia. by rewrite H1, E1.
  - replace i with (2 * (i / 2) + 1)%nat by lia. by rewrite H2, E2.
Qed.

Lemma mulX2_eqm y a b a' b' : eqm KQ (fst a) (fst a') -> eqm KQ (snd a) (snd a') ->
  eqm KQ (fst b) (fst b') -> eqm KQ (snd b) (snd b') ->
  eqm KQ (fst (mulX2 y a b)) (fst (mulX2 y a' b')) /\ eqm KQ (snd (mulX2 y a b)) (snd (mulX2 y a' b')).
Proof. intros A0 A1 B0 B1. unfold mulX2. cbn [fst snd]. by rewrite A0, A1, B0, B1. Qed.

Lemma ntt_mul_near a b : small 9471 a -> small 9471 b ->
  near 6656 (k_poly_mul (k_ntt a) (k_ntt b)) (map (Z.mul 169) (fwds k_zeta k_lens (Negacyclic.mul a b))).
Proof.
  intros Ha Hb. pose proof (near_small _ _ _ (k_ntt_near 9471 a a ltac:(lia) ltac:(lia) (small_near _ _ Ha))) as Sa.
  pose proof (near_small _ _ _ (k_ntt_near 9471 b b ltac:(lia) ltac:(lia) (small_near _ _ Hb))) as Sb.
  pose proof (small_get 1664 _ ltac:(lia) Sa) as Ga. pose proof (small_get 1664 _ ltac:(lia) Sb) as Gb.
  destruct (k_poly_mul_spec (k_ntt a) (k_ntt b)) as [Hl Hp];
    [apply Sa|apply Sb|intros i; specialize (Ga i); lia|intros i; specialize (Gb i); lia|].
  assert (Hlm : length (Negacyclic.mul a b) = 256%nat).
  { rewrite length_mul; [apply Hb|]. intros ->. by destruct Hb. }
  split; [exact Hl|]. split; [by rewrite length_map, length_fwds|].
  intros i Hi. rewrite get_map_mul by (rewrite length_fwds; lia). split.
  - destruct (Hp (i / 2)%nat ltac:(lia)) as (_ & _ & R0 & R1).
    destruct (Nat.eq_dec (i mod 2) 0).
    + replace i with (2 * (i / 2))%nat by lia. exact R0.
    + replace i with (2 * (i / 2) + 1)%nat by lia. exact R1.
  - apply fwds_of_residues; [done|done| |done]. intros j Hj. destruct (Hp j Hj) as (E0 & E1 & _).
    destruct (k_ntt_residues a j Ha Hj) as [A0 A1]. destruct (k_ntt_residues b j Hb Hj) as [B0 B1].
    pose proof (gamma_root j Hj) as Hroot. destruct Hb as [Hlb _].
    destruct (mul_value (Fips203.gamma j) a b 127 ltac:(lia) Hroot) as [M0 M1].
    destruct (mulX2_eqm (Fips203.gamma j) ((k_ntt a).[2 * j], (k_ntt a).[2 * j + 1])
      ((k_ntt b).[2 * j], (k_ntt b).[2 * j + 1]) _ _ A0 A1 B0 B1) as [P0 P1].
    split; [by rewrite E0, P0, M0|by rewrite E1, P1, M1].
Qed.

(** C33. Multiplication through the transform is multiplication in
    [Z_q[X]/(X^256 + 1)]: for coefficients of absolute value at most 9471,
    [k_invntt (k_poly_mul (k_ntt a) (k_ntt b))] is, coefficient by
    coefficient, congruent modulo 3329 to the product of [a] and [b]
    (Horner's rule with [X^256 = -1]), the Montgomery factors of the three
    passes cancel, and the outputs lie in [-3328, 3328]; without the product,
    [k_invntt (k_ntt a)] is [2^16 a]. *)
Theorem k_ntt_multiplies a b :
  small 9471 a -> small 9471 b ->
  small 3328 (k_invntt (k_poly_mul (k_ntt a) (k_ntt b))) /\
  eqv KQ (k_invntt (k_poly_mul (k_ntt a) (k_ntt b))) (Negacyclic.mul a b) /\
  eqv KQ (k_invntt (k_ntt a)) (map (Z.mul 65536) a).
Proof.
  intros Ha Hb. pose proof (ntt_mul_near a b Ha Hb) as H. set (c := Negacyclic.mul a b) in *.
  assert (Hlc : length c = 256%nat) by (destruct H as (_ & H & _); by rewrite length_map, length_fwds in H).
  pose proof (k_invntt_near _ _ (near_le 6656 16383 _ _ ltac:(lia) H)) as HI.
  split; [by eapply near_small|].
  assert (Inv : forall r, length r = 256%nat -> eqv KQ (bwds k_zeta k_lens (fwds k_zeta k_lens r)) (map (Z.mul 128) r)).
  { intros r Hr. apply (bwds_fwds KQ k_zeta k_zeta k_lens r k_lens_good k_inverse_zetas Hr). }
  assert (Sc : forall u r s, eqv KQ r (map (Z.mul u) s) -> forall w, eqv KQ (map (Z.mul w) r) (map (Z.mul (w * u)) s)).
  { intros u r s [Hl Hc] w. rewrite <- map_mul_mul. rewrite length_map in Hl. split; [by rewrite !length_map|].
    intros i Hi. rewrite length_map in Hi. rewrite !get_map_mul by (rewrite ?length_map; lia).
    specialize (Hc i Hi). rewrite get_map_mul in Hc by lia. by rewrite Hc. }
  assert (One : forall u s, eqm KQ u 1 -> eqv KQ (map (Z.mul u) s) s).
  { intros u s Hu. split; [apply length_map|]. intros i Hi. rewrite length_map in Hi.
    rewrite get_map_mul, Hu by done. unfold eqm. f_equal. lia. }
  split.
  - etransitivity; [by eapply near_eqv|].
    pose proof (bwds_eqv KQ k_zeta k_zeta k_lens 169 (map (Z.mul 169) (fwds k_zeta k_lens c)) _ k_lens_good
      ltac:(rewrite length_map, length_fwds; exact Hlc) (reflexivity _)) as HB.
    etransitivity; [apply (Sc 169), HB|]. etransitivity; [apply (Sc 128), Inv, Hlc|].
    apply One. reflexivity.
  - pose proof (k_ntt_near 9471 a a ltac:(lia) ltac:(lia) (small_near _ _ Ha)) as HN.
    pose proof (k_invntt_near _ _ (near_le 1664 16383 _ _ ltac:(lia) HN)) as HI'.
    etransitivity; [by eapply near_eqv|]. etransitivity; [apply (Sc 128), Inv, Ha|].
    split; [by rewrite !length_map|]. intros i Hi. rewrite length_map in Hi.
    rewrite !get_map_mul by done. by apply (eqm_mul KQ).
Qed.

Lemma k_ntt_multiplies_witness :
  let a := tab 256 (fun i => Z.of_nat i * 74 - 9470) in
  let b := tab 256 (fun i => 3328 - Z.of_nat i * 13) in
  small 3328 (k_invntt (k_poly_mul (k_ntt a) (k_ntt b))) /\
  eqv KQ (k_invntt (k_poly_mul (k_ntt a) (k_ntt b))) (Negacyclic.mul a b) /\
  eqv KQ (k_invntt (k_ntt a)) (map (Z.mul 65536) a).
Proof.
  apply (k_ntt_multiplies (tab 256 (fun i => Z.of_nat i * 74 - 9470)) (tab 256 (fun i => 3328 - Z.of_nat i * 13)));
    by apply small_check.
Defined.

(** * Compression *)

(** The code replaces the division by [q] with a multiplication by a
    reciprocal: every input of the reduced range is checked. *)
Definition k_compress (d a : Z) : Z :=
  if d =? 4 then k_compress4 a else if d =? 10 then k_compress10 a else k_compress1 a.
Definition compress_ok (d a : Z) : bool :=
  let c := k_compress d a in
  let y := Fips203.decompress d c in
  (c =? Fips203.compress d (a mod KQ)) && (Z.abs (cmod (y - a) KQ) <=? (KQ + 2 ^ d) / 2 ^ (d + 1)).
Lemma compress_ok_all d : d = 1 \/ d = 4 \/ d = 10 -> forall a, -1664 <= a <= 1664 -> compress_ok d a = true.
Proof.
  intros Hd a Ha. refine (range_forall (compress_ok d) (-1664) 3329 _ a _); [|lia].
  destruct Hd as [->|[->| ->]]; vm_compute; reflexivity.
Qed.
Lemma decompress_ok d : d = 1 \/ d = 4 \/ d = 10 -> forall y, 0 <= y < 2 ^ d ->
  k_decompress y d = Fips203.decompress d y.
Proof.
  intros Hd y Hy. apply Z.eqb_eq.
  refine (range_forall (fun y => k_decompress y d =? Fips203.decompress d y) 0 (Z.to_nat (2 ^ d)) _ y _);
    [|destruct Hd as [->|[->| ->]]; lia].
  destruct Hd as [->|[->| ->]]; vm_compute; reflexivity.
Qed.

Lemma k_compress_range d a : d = 1 \/ d = 4 \/ d = 10 -> -1664 <= a <= 1664 -> 0 <= k_compress d a < 2 ^ d.
Proof.
  intros Hd Ha. pose proof (compress_ok_all d Hd a Ha) as H. unfold compress_ok in H.
  apply andb_prop in H as [H _]. apply Z.eqb_eq in H. rewrite H. unfold Fips203.compress.
  apply Z.mod_pos_bound. destruct Hd as [->|[->| ->]]; lia.
Qed.

(** Packing of 4- and 10-bit fields. *)
Lemma pack4_byte x y : 0 <= x < 16 -> 0 <= y < 16 ->
  Z.land (u8 (Z.lor x (Z.shiftl y 4))) 15 = x /\ Z.shiftr (u8 (Z.lor x (Z.shiftl y 4))) 4 = y.
Proof.
  intros Hx Hy. rewrite (lor_shiftl _ _ 4), (land_mod _ 4), Z.shiftr_div_pow2, u8_mod by lia. lia.
Qed.

Lemma pack10_bytes x0 x1 x2 x3 :
  0 <= x0 < 1024 -> 0 <= x1 < 1024 -> 0 <= x2 < 1024 -> 0 <= x3 < 1024 ->
  let b0 := u8 (Z.shiftr x0 0) in
  let b1 := u8 (Z.lor (Z.shiftr x0 8) (Z.shiftl x1 2)) in
  let b2 := u8 (Z.lor (Z.shiftr x1 6) (Z.shiftl x2 4)) in
  let b3 := u8 (Z.lor (Z.shiftr x2 4) (Z.shiftl x3 6)) in
  let b4 := u8 (Z.shiftr x3 2) in
  u16 (Z.lor b0 (Z.shiftl (Z.land b1 0x03) 8)) = x0 /\
  u16 (Z.lor (Z.shiftr b1 2) (Z.shiftl (Z.land b2 0x0f) 6)) = x1 /\
  u16 (Z.lor (Z.shiftr b2 4) (Z.shiftl (Z.land b3 0x3f) 4)) = x2 /\
  u16 (Z.lor (Z.shiftr b3 6) (Z.shiftl b4 2)) = x3.
Proof.
  intros H0 H1 H2 H3. cbv zeta.
  rewrite !Z.shiftr_div_pow2 by lia.
  rewrite (lor_shiftl (x0 / 2 ^ 8) x1 2), (lor_shiftl (x1 / 2 ^ 6) x2 4), (lor_shiftl (x2 / 2 ^ 4) x3 6) by lia.
  rewrite !u8_mod, (land_mod _ 2), (land_mod _ 4), (land_mod _ 6) by lia.
  rewrite (lor_shiftl _ _ 8), (lor_shiftl _ _ 6), (lor_shiftl _ _ 4), (lor_shiftl _ _ 2) by lia.
  rewrite !u16_mod. repeat split; lia.
Qed.

Definition codec_depth (d : Z) : Prop := d = 1 \/ d = 4 \/ d = 10.

Lemma codec4 a : length a = 256%nat -> (forall i, -1664 <= a.[i] <= 1664) ->
  k_poly_decompress (k_poly_compress a 4) 4 = map (fun x => k_decompress (k_compress 4 x) 4) a.
Proof.
  intros Hl Ha. unfold k_poly_decompress. cbn [Z.eqb Pos.eqb].
  apply (concat_tab_ext 128 2); [lia|done|by rewrite length_map|]. intros i k Hi Hk.
  rewrite get_map by lia.
  unfold k_poly_compress. cbn [Z.eqb Pos.eqb].
  assert (C : forall i', (i' < 256)%nat -> 0 <= k_compress 4 a.[i'] < 16)
    by (intros i' _; apply k_compress_range; [auto|apply Ha]).
  assert (E : (concat (tab 32 (fun i => k_pack4 (tab 8 (fun j => k_compress4 a.[8 * i + j]))))).[i] =
    u8 (Z.lor (k_compress 4 a.[2 * i]) (Z.shiftl (k_compress 4 a.[2 * i + 1]) 4))).
  { replace i with (4 * (i / 4) + i mod 4)%nat at 1 by (symmetry; apply Nat.div_mod; lia).
    rewrite get_concat_tab by (done || lia).
    assert (Hr : (i mod 4 < 4)%nat) by lia. assert (Ei : (i = 4 * (i / 4) + i mod 4)%nat) by lia.
    revert Hr Ei. generalize (i mod 4)%nat (i / 4)%nat. intros r q Hr ->. unfold k_pack4.
    do 4 (destruct r as [|r]; [get_cells; rewrite !get_tab by lia; unfold k_compress; cbn [Z.eqb Pos.eqb]; same_cells|]). lia. }
  rewrite E.
  destruct (pack4_byte (k_compress 4 a.[2 * i]) (k_compress 4 a.[2 * i + 1])) as [E1 E2]; [apply C; lia..|].
  destruct k as [|[|k]]; [| |lia]; get_cells.
  - rewrite E1. same_cells.
  - rewrite E2. done.
Qed.

Lemma codec10 a : length a = 256%nat -> (forall i, -1664 <= a.[i] <= 1664) ->
  k_poly_decompress (k_poly_compress a 10) 10 = map (fun x => k_decompress (k_compress 10 x) 10) a.
Proof.
  intros Hl Ha. unfold k_poly_decompress. cbn [Z.eqb Pos.eqb].
  apply (concat_tab_ext 64 4); [lia|intros; by rewrite length_map|by rewrite length_map|]. intros i k Hi Hk.
  rewrite (get_map (fun x => k_decompress (k_compress 10 x) 10)) by lia.
  assert (C : forall i', 0 <= k_compress 10 a.[i'] < 1024) by (intros; apply k_compress_range; [auto|apply Ha]).
  unfold k_poly_compress. cbn [Z.eqb Pos.eqb]. rewrite get_map by done.
  pose proof (pack10_bytes _ _ _ _ (C (4 * i)%nat) (C (4 * i + 1)%nat) (C (4 * i + 2)%nat) (C (4 * i + 3)%nat)) as P.
  cbv zeta in P. set (cells := concat (tab 64 _)).
  assert (E : forall b, (b < 5)%nat -> cells.[5 * i + b] = (k_pack10 (tab 4 (fun k => k_compress10 a.[4 * i + k]))).[b]).
  { intros b Hb. unfold cells. by rewrite get_concat_tab. }
  assert (E0 : cells.[5 * i] = cells.[5 * i + 0]) by (f_equal; lia). clearbody cells.
  assert (U : forall x, 0 <= x < 1024 -> i16 (Z.land x 0x3ff) = x)
    by (intros x Hx; rewrite (land_mod _ 10) by lia; rewrite i16_id; lia).
  unfold k_unpack10. rewrite E0, !E by lia. unfold k_pack10. get_cells. rewrite !get_tab by lia.
  change k_compress10 with (k_compress 10). replace (4 * i + 0)%nat with (4 * i)%nat by lia.
  destruct P as (P0 & P1 & P2 & P3).
  destruct k as [|[|[|[|k]]]]; [| | | |lia]; get_cells; rewrite ?P0, ?P1, ?P2, ?P3, U by apply C; same_cells.
Qed.

Lemma codec1 a : length a = 256%nat -> (forall i, -1664 <= a.[i] <= 1664) ->
  k_poly_decompress (k_poly_compress a 1) 1 = map (fun x => k_decompress (k_compress 1 x) 1) a.
Proof.
  intros Hl Ha. unfold k_poly_decompress, k_poly_compress. cbn [Z.eqb Pos.eqb].
  apply (concat_tab_ext 32 8); [lia|intros; apply length_tab|by rewrite length_map|]. intros i k Hi Hk.
  rewrite (get_map (fun x => k_decompress (k_compress 1 x) 1)), !get_tab by lia.
  destruct (or_bits (fun j => k_compress 1 a.[8 * i + j]) 8) as [_ B]; [lia| |].
  - intros j Hj. apply k_compress_range; [auto|apply Ha].
  - specialize (B k Hk). change k_compress1 with (k_compress 1). by rewrite B.
Qed.

Lemma k_poly_compress_bytes a d : codec_depth d ->
  (forall i, -1664 <= a.[i] <= 1664) ->
  bytes (k_poly_compress a d) /\ length (k_poly_compress a d) = Z.to_nat (32 * d).
Proof.
  intros Hd Ha. unfold k_poly_compress. destruct Hd as [->|[->| ->]]; cbn [Z.eqb Pos.eqb].
  - split; [|apply length_tab]. apply bytes_tab. intros i Hi.
    destruct (or_bits (fun j => k_compress 1 a.[8 * i + j]) 8) as [R _]; [lia| |exact R].
    intros j Hj. apply k_compress_range; [auto|apply Ha].
  - apply (byte_cells_pack 32 4); [|done]. intros i. unfold k_pack4. bytes_cells; apply isbyte_u8.
  - apply (byte_cells_pack 64 5); [|done]. intros i. unfold k_pack10. bytes_cells; apply isbyte_u8.
Qed.

(** Compression is rounding.  For the three depths of ML-KEM-768 (1 for
    the message, 4 and 10 for the ciphertext) and every polynomial with
    coefficients in the range [k_poly_reduce] leaves, compressing to
    [32 d] bytes and decompressing gives, coefficient by coefficient,
    [Decompress_d (Compress_d x)] of FIPS 203 section 4.2.1 although the code
    never divides by [q]; and the result is within [round (q / 2^(d+1))] of
    the input modulo [q]. *)
Theorem k_poly_compress_is_rounding d a :
  codec_depth d -> small 1664 a ->
  bytes (k_poly_compress a d) /\ length (k_poly_compress a d) = Z.to_nat (32 * d) /\
  k_poly_decompress (k_poly_compress a d) d =
    map (fun x => Fips203.decompress d (Fips203.compress d (x mod KQ))) a /\
  forall i, Z.abs (cmod ((k_poly_decompress (k_poly_compress a d) d).[i] - a.[i]) KQ) <= (KQ + 2 ^ d) / 2 ^ (d + 1).
Proof.
  intros Hd [Hl Ha]. pose proof (small_get 1664 a ltac:(lia) (conj Hl Ha)) as G. clear Ha.
  destruct (k_poly_compress_bytes a d Hd G) as [Hb Hlen]. split; [done|]. split; [done|].
  assert (V : forall x, -1664 <= x <= 1664 ->
    k_decompress (k_compress d x) d = Fips203.decompress d (Fips203.compress d (x mod KQ)) /\
    Z.abs (cmod (Fips203.decompress d (Fips203.compress d (x mod KQ)) - x) KQ) <= (KQ + 2 ^ d) / 2 ^ (d + 1)).
  { intros x Hx. rewrite decompress_ok by (done || by apply k_compress_range).
    pose proof (compress_ok_all d Hd x Hx) as H. unfold compress_ok in H. apply andb_prop in H as [H1 H2].
    apply Z.eqb_eq in H1. rewrite H1 in *. split; [done|]. by apply Z.leb_le. }
  assert (E : k_poly_decompress (k_poly_compress a d) d = map (fun x => k_decompress (k_compress d x) d) a)
    by (destruct Hd as [->|[->| ->]]; [by apply codec1|by apply codec4|by apply codec10]).
  assert (E' : k_poly_decompress (k_poly_compress a d) d =
    map (fun x => Fips203.decompress d (Fips203.compress d (x mod KQ))) a).
  { rewrite E. apply array_ext; [by rewrite !length_map|]. intros i Hi. rewrite length_map in Hi.
    rewrite !get_map by done. apply V, G. }
  split; [done|]. intros i. rewrite E'. destruct (Nat.lt_ge_cases i 256).
  - rewrite get_map by lia. apply V, G.
  - rewrite !get_overflow by (rewrite ?length_map; lia). destruct Hd as [->|[->| ->]]; vm_compute; discriminate.
Qed.
Lemma k_poly_compress_is_rounding_witness :
  let a := tab 256 (fun i => Z.of_nat i * 13 - 1664) in
  k_poly_decompress (k_poly_compress a 4) 4 = map (fun x => Fips203.decompress 4 (Fips203.compress 4 (x mod KQ))) a.
Proof.
  refine (proj1 (proj2 (proj2 (k_poly_compress_is_rounding 4 (tab 256 (fun i => Z.of_nat i * 13 - 1664)) _ _)))).
  - right. left. reflexivity.
  - by apply small_check.
Defined.

(** * Encodings *)

Lemma enc12_bytes t0 t1 : 0 <= t0 < 4096 -> 0 <= t1 < 4096 ->
  let b0 := u8 (Z.shiftr t0 0) in
  let b1 := u8 (Z.lor (Z.shiftr t0 8) (Z.shiftl t1 4)) in
  let b2 := u8 (Z.shiftr t1 4) in
  i16 (Z.land (Z.lor b0 (Z.shiftl b1 8)) 0xfff) = t0 /\
  i16 (Z.land (Z.lor (Z.shiftr b1 4) (Z.shiftl b2 4)) 0xfff) = t1.
Proof.
  intros H0 H1. cbv zeta. rewrite !Z.shiftr_div_pow2 by lia. rewrite (lor_shiftl (t0 / 2 ^ 8) t1 4) by lia.
  rewrite !u8_mod, !(land_mod _ 12) by lia. rewrite (lor_shiftl _ _ 8), (lor_shiftl _ _ 4) by lia.
  rewrite !i16_id by lia. lia.
Qed.
Lemma dec12_bytes b0 b1 b2 : isbyte b0 -> isbyte b1 -> isbyte b2 ->
  let t0 := Z.land (Z.lor b0 (Z.shiftl b1 8)) 0xfff in
  let t1 := Z.land (Z.lor (Z.shiftr b1 4) (Z.shiftl b2 4)) 0xfff in
  u8 (Z.shiftr t0 0) = b0 /\ u8 (Z.lor (Z.shiftr t0 8) (Z.shiftl t1 4)) = b1 /\ u8 (Z.shiftr t1 4) = b2 /\
  0 <= t0 < 4096 /\ 0 <= t1 < 4096.
Proof.
  unfold isbyte. intros H0 H1 H2. cbv zeta. rewrite !Z.shiftr_div_pow2, !(land_mod _ 12) by lia.
  rewrite (lor_shiftl _ _ 8), (lor_shiftl _ _ 4) by lia. rewrite (lor_shiftl _ _ 4) by lia. rewrite !u8_mod. lia.
Qed.

Lemma k_enc_coeff_spec a : - KQ <= a < KQ -> k_enc_coeff a = a mod KQ.
Proof.
  unfold KQ. intros Ha. unfold k_enc_coeff. destruct (Z.lt_ge_cases a 0).
  - assert (E : u16 a = a + 65536) by (rewrite u16_mod; lia). rewrite E.
    assert (Ei : i16 (a + 65536) = a) by (unfold i16; rewrite u16_mod; case (Z.ltb_spec ((a + 65536) mod 65536) 0x8000); lia).
    rewrite Ei, Z.shiftr_div_pow2 by lia. change (2 ^ 15) with 32768. replace (a / 32768) with (-1) by lia.
    rewrite Z.land_m1_l, u16_mod. unfold KQ. lia.
  - rewrite (u16_id a), i16_id, Z.shiftr_div_pow2 by lia. change (2 ^ 15) with 32768. replace (a / 32768) with 0 by lia.
    rewrite Z.land_0_l, u16_id by lia. lia.
Qed.
Lemma k_enc_coeff_pos a : 0 <= a < 32768 -> k_enc_coeff a = a.
Proof.
  intros Ha. unfold k_enc_coeff. rewrite (u16_id a), i16_id, Z.shiftr_div_pow2 by lia. change (2 ^ 15) with 32768.
  replace (a / 32768) with 0 by lia. rewrite Z.land_0_l, u16_id by lia. lia.
Qed.

(** The 12-bit encoding: [k_poly_encode12] writes the representatives in
    [0, q) of coefficients in [[-q, q)] and [k_poly_decode12] reads them
    back; and the 384 bytes of a stored polynomial are read and written back
    unchanged, whatever they are (a coefficient of 3329 to 4095 is kept:
    decoding does not reduce). *)
Theorem k_poly_encode12_roundtrip a b :
  length a = 256%nat -> (forall i, - KQ <= a.[i] < KQ) -> bytes b -> length b = 384%nat ->
  k_poly_decode12 (k_poly_encode12 a) = map (fun x => x mod KQ) a /\
  k_poly_encode12 (k_poly_decode12 b) = b.
Proof.
  intros Hl Ha Hb Hlb. split.
  - apply (concat_tab_ext 128 2); [lia|done|by rewrite length_map|]. intros i k Hi Hk. rewrite get_map by lia.
    assert (C : forall i, k_enc_coeff a.[i] = a.[i] mod KQ)
      by (intros j; exact (k_enc_coeff_spec a.[j] (Ha j))).
    assert (M : forall x, 0 <= x mod KQ < 4096) by (intros; unfold KQ; lia).
    destruct (enc12_bytes (a.[2 * i] mod KQ) (a.[2 * i + 1] mod KQ) (M _) (M _)) as [E1 E2].
    unfold k_poly_encode12. replace (3 * i)%nat with (3 * i + 0)%nat by lia.
    replace (3 * i + 0 + 1)%nat with (3 * i + 1)%nat by lia. replace (3 * i + 0 + 2)%nat with (3 * i + 2)%nat by lia.
    rewrite !get_concat_tab by (done || lia). get_cells. rewrite !C, E1, E2.
    destruct k as [|[|k]]; [| |lia]; get_cells; same_cells.
  - apply (concat_tab_ext 128 3); [lia|done|done|]. intros i k Hi Hk.
    destruct (dec12_bytes _ _ _ (bytes_get _ (3 * i) Hb) (bytes_get _ (3 * i + 1) Hb) (bytes_get _ (3 * i + 2) Hb))
      as (E0 & E1 & E2 & R0 & R1).
    unfold k_poly_decode12. replace (2 * i)%nat with (2 * i + 0)%nat by lia.
    replace (2 * i + 0 + 1)%nat with (2 * i + 1)%nat by lia.
    rewrite !get_concat_tab by (done || lia). get_cells. rewrite !i16_id by lia. rewrite !k_enc_coeff_pos by lia.
    rewrite E0, E1, E2. destruct k as [|[|[|k]]]; [| | |lia]; get_cells; same_cells.
Qed.
Lemma k_poly_encode12_roundtrip_witness :
  let a := tab 256 (fun i => Z.of_nat i * 26 - 3329) in
  let b := tab 384 (fun i => u8 (Z.of_nat i * 7)) in
  k_poly_decode12 (k_poly_encode12 a) = map (fun x => x mod KQ) a /\ k_poly_encode12 (k_poly_decode12 b) = b.
Proof.
  apply (k_poly_encode12_roundtrip (tab 256 (fun i => Z.of_nat i * 26 - 3329)) (tab 384 (fun i => u8 (Z.of_nat i * 7)))).
  - reflexivity.
  - intros i. unfold KQ. destruct (Nat.lt_ge_cases i 256); [rewrite get_tab by lia; lia|rewrite get_overflow; [lia|rewrite length_tab; lia]].
  - apply bytesb_ok. reflexivity.
  - reflexivity.
Defined.

(** The message bit survives an error below [q / 4]. *)
Lemma tomsg_bit b e : 0 <= b < 2 -> -831 <= e <= 831 -> forall x, -1664 <= x <= 1664 ->
  eqm KQ x (b * 1665 + e) -> k_compress 1 x = b.
Proof.
  intros Hb He x Hx E. unfold eqm, KQ in E.
  pose proof (compress_ok_all 1 ltac:(auto) x Hx) as H. unfold compress_ok in H. apply andb_prop in H as [H _].
  apply Z.eqb_eq in H. rewrite H. unfold Fips203.compress, KQ. change (2 ^ (1 + 1)) with 4. change (2 ^ 1) with 2.
  rewrite E. assert (Hb' : b = 0 \/ b = 1) by lia. destruct Hb' as [->| ->]; [|lia].
  destruct (Z.lt_ge_cases e 0); lia.
Qed.

(** Decoding a noisy message: [k_poly_tomsg] recovers the 32 message
    bytes from [k_poly_frommsg m] plus any error of absolute value at most
    831 per coefficient (modulo [q]); 832 is too much for a one bit. *)
Theorem k_poly_tomsg_corrects m p (e : nat -> Z) :
  bytes m -> length m = 32%nat -> small 1664 p ->
  (forall i, (i < 256)%nat -> -831 <= e i <= 831 /\ eqm KQ p.[i] ((k_poly_frommsg m).[i] + e i)) ->
  k_poly_tomsg p = m.
Proof.
  intros Hm Hl Hp He. unfold k_poly_tomsg, k_poly_compress. cbn [Z.eqb Pos.eqb].
  pose proof (small_get 1664 p ltac:(lia) Hp) as G.
  apply array_ext; [by rewrite length_tab|]. intros i Hi. rewrite length_tab in Hi. rewrite get_tab by done.
  destruct (or_bits (fun j => k_compress 1 p.[8 * i + j]) 8) as [R B]; [lia| |].
  { intros j Hj. apply k_compress_range; [auto|apply G]. }
  change k_compress1 with (k_compress 1). apply byte_of_bits; [exact R|by apply bytes_get|].
  intros j Hj. rewrite B by done. destruct (He (8 * i + j)%nat ltac:(lia)) as [Hb Heq].
  set (b := Z.land (Z.shiftr m.[i] (Z.of_nat j)) 1).
  assert (Hb2 : 0 <= b < 2) by (unfold b; rewrite (land_mod _ 1) by lia; lia).
  apply (tomsg_bit b (e (8 * i + j)%nat)); [done|done|apply G|]. rewrite Heq.
  unfold k_poly_frommsg. rewrite get_concat_tab by (try (intros; apply length_tab); lia). rewrite get_tab by done.
  fold b. clearbody b. unfold eqm. do 2 f_equal.
  assert (Hb' : b = 0 \/ b = 1) by lia. destruct Hb' as [->| ->]; reflexivity.
Qed.
Lemma k_poly_tomsg_corrects_witness :
  let m := tab 32 (fun i => u8 (Z.of_nat i * 37)) in
  k_poly_tomsg (k_poly_reduce (k_poly_add (k_poly_frommsg m) (tab 256 (fun i => 831 - Z.of_nat i * 6)))) = m.
Proof.
  cbv zeta. apply (k_poly_tomsg_corrects _ _ (fun i => 831 - Z.of_nat i * 6)).
  - apply bytesb_ok. reflexivity.
  - reflexivity.
  - apply small_check. reflexivity.
  - assert (H : forallb (fun i => (-831 <=? 831 - Z.of_nat i * 6) && (831 - Z.of_nat i * 6 <=? 831) &&
      ((k_poly_reduce (k_poly_add (k_poly_frommsg (tab 32 (fun i => u8 (Z.of_nat i * 37)))) (tab 256 (fun i => 831 - Z.of_nat i * 6)))).[i] mod KQ =?
       ((k_poly_frommsg (tab 32 (fun i => u8 (Z.of_nat i * 37)))).[i] + (831 - Z.of_nat i * 6)) mod KQ)) (seq 0 256) = true)
      by (vm_compute; reflexivity).
    rewrite forallb_forall in H. intros i Hi. specialize (H i ltac:(apply in_seq; lia)). unfold eqm.
    apply andb_prop in H as [H1 H2]. split; [lia|by apply Z.eqb_eq].
Defined.

(** * The KEM *)

Lemma k_poly_reduce_small p : (forall i, -32768 <= p.[i] < 32768) -> forall i, -1664 <= (k_poly_reduce p).[i] <= 1664.
Proof.
  intros H i. unfold k_poly_reduce. destruct (Nat.lt_ge_cases i 256).
  - rewrite get_tab by done. apply k_barrett_spec, H.
  - rewrite get_overflow by (by rewrite length_tab). lia.
Qed.
Lemma k_poly_add_i16 a b i : -32768 <= (k_poly_add a b).[i] < 32768.
Proof.
  unfold k_poly_add. destruct (Nat.lt_ge_cases i 256); [rewrite get_tab by done; apply i16_range|].
  rewrite get_overflow by (by rewrite length_tab). lia.
Qed.

Lemma kpke_encrypt_bytes pk m coins : forall c, kpke_encrypt pk m coins = Ret c -> bytes c /\ length c = 1088%nat.
Proof.
  intros c. unfold kpke_encrypt. destruct (k_pk_frombytes pk) as [pkpv rho].
  destruct (k_gen_matrix rho true) as [at_| |]; cbn [run_bind]; [|discriminate|discriminate].
  assert (P : forall d, codec_depth d -> forall a b,
    bytes (k_poly_compress (k_poly_reduce (k_poly_add a b)) d) /\
    length (k_poly_compress (k_poly_reduce (k_poly_add a b)) d) = Z.to_nat (32 * d)).
  { intros d Hd a b. apply k_poly_compress_bytes; [done|]. apply k_poly_reduce_small, k_poly_add_i16. }
  assert (G : forall x, Ret x = Ret c -> x = c) by congruence. cbv zeta. intros H%G. rewrite <- H. clear H G.
  match goal with |- bytes (concat (map ?g ?l) ++ ?w) /\ _ =>
    pose proof (concat_map_bytes g l 320) as Q; assert (W : bytes w /\ length w = 128%nat)
      by (apply (P 4); unfold codec_depth; auto);
    assert (Ll : length l = 3%nat) by apply length_tab; assert (F : Forall (fun p => bytes (g p) /\ length (g p) = 320%nat) l);
    [|set (u := concat (map g l)) in *; set (v := w) in *; clearbody u v] end.
  - apply Forall_tab. intros i _. apply (P 10). unfold codec_depth. auto.
  - destruct (Q F) as [Qb Ql]. destruct W as [Wb Wl]. rewrite bytes_app, length_app, Ql, Wl, Ll. done.
Qed.

(** The constant-time selection: the shared key when the ciphertext was
    honestly produced, the rejection key otherwise. *)
Lemma kem_select_spec ct cmp kr kbar :
  bytes ct -> bytes cmp -> length ct = 1088%nat -> length cmp = 1088%nat ->
  bytes kr -> (32 <= length kr)%nat -> bytes kbar -> length kbar = 32%nat ->
  kem_select ct cmp kr kbar = if decide (ct = cmp) then take 32 kr else kbar.
Proof.
  intros Hct Hcmp Lct Lcmp Hkr Lkr Hkb Lkb. unfold kem_select.
  destruct (ct_cmp_acc ct cmp 1088 0 Hct Hcmp ltac:(unfold isbyte; lia)) as [Hr Hz].
  set (f := for_ 0 1088 _ 0) in *. clearbody f.
  assert (E : decide (ct = cmp) = decide (ct = cmp)) by reflexivity. clear E.
  apply array_ext; [rewrite length_tab; case_decide; [rewrite length_take; lia|lia]|].
  intros i Hi. rewrite length_tab in Hi. rewrite get_tab by done.
  pose proof (bytes_get _ i Hkr) as Bk. pose proof (bytes_get _ i Hkb) as Bb. unfold isbyte in *.
  case_decide as D.
  - assert (f = 0) as -> by (apply Hz; split; [done|]; intros; by subst).
    change (u8 (Z.shiftr (- 0) 8)) with 0. change (Z.lnot 0) with (-1). rewrite Z.land_0_r, Z.land_m1_r, Z.lor_0_r.
    rewrite get_take by done. by apply u8_id.
  - assert (Hf : 0 < f < 256).
    { split; [|lia]. destruct (Z.eq_dec f 0) as [->|]; [|lia]. exfalso. apply D.
      apply array_ext; [lia|]. intros j Hj. apply Hz; [reflexivity|lia]. }
    assert (u8 (Z.shiftr (- f) 8) = 255) as -> by (rewrite Z.shiftr_div_pow2, u8_mod by lia; lia).
    assert (Z.land kr.[i] (Z.lnot 255) = 0) as ->.
    { apply Z.bits_inj'. intros n Hn. rewrite Z.land_spec, Z.lnot_spec, Z.bits_0 by lia. change 255 with (Z.ones 8).
      destruct (Z.lt_ge_cases n 8); [rewrite Z.ones_spec_low by lia; apply andb_false_r|].
      by rewrite (testbit_above _ 8). }
    rewrite Z.lor_0_l. fold (u8 kbar.[i]). rewrite (u8_id kbar.[i]) by lia. by apply u8_id.
Qed.

Lemma k_hex_load_bytes s n l : wf_str s -> k_hex_load s n = Some l -> bytes l /\ length l = n.
Proof.
  intros Hs. unfold k_hex_load. pose proof (bytes_sbytes s Hs) as Hb. pose proof (length_sbytes s) as Hl.
  unfold sbytes in *. destruct (sdata s) as [d|]; [|discriminate]. specialize (Hl d Hs eq_refl).
  destruct (slen s <? 0) eqn:E0; [discriminate|]. destruct (slen s =? Z.of_nat n) eqn:E1.
  - intros [= <-]. apply Z.eqb_eq in E1. rewrite E1, Nat2Z.id in *. split; [done|lia].
  - destruct (slen s =? Z.of_nat n * 2); [|discriminate]. intros H. apply hex_pairs_length in H. tauto.
Qed.

Lemma k_poly_decode12_ext a b : (forall i, (i < 384)%nat -> a.[i] = b.[i]) -> k_poly_decode12 a = k_poly_decode12 b.
Proof.
  intros H. unfold k_poly_decode12. f_equal. apply tab_ext. intros i Hi. by rewrite !H by lia.
Qed.
Lemma kpke_decrypt_take sk ct : kpke_decrypt (slice 0 1152 sk) ct = kpke_decrypt sk ct.
Proof.
  unfold kpke_decrypt. replace (k_sk_frombytes (slice 0 1152 sk)) with (k_sk_frombytes sk); [done|].
  unfold k_sk_frombytes. apply tab_ext. unfold KK. intros i Hi. apply k_poly_decode12_ext. intros j Hj.
  rewrite !get_drop, get_slice by lia. done.
Qed.
Lemma length_kpke_decrypt sk ct : length (kpke_decrypt sk ct) = 32%nat.
Proof. unfold kpke_decrypt, k_poly_tomsg, k_poly_compress. cbn [Z.eqb Pos.eqb]. apply length_tab. Qed.
