(* ===== verification/Kem203.v ===== *)
(** ML-KEM-768 against FIPS 203.

    [MlKem] models the code of [sec/pqc/mlkem/]; this file holds the
    algorithms of the standard (module [Alg]), written over the integers
    modulo [q] with no machine word, no Montgomery or Barrett reduction and
    no definition of [MlKem]'s operations, and proves that the code computes
    them.  From [MlKem] the standard takes the roots, the residues and the
    rounding of [Fips203]; from [Keccak] the sponge of FIPS 202.

    The proofs follow [near B r p]: the machine polynomial [r] is bounded by
    [B] and congruent to the reduced polynomial [p].  One lemma per routine
    carries it: encodings, sampling, transforms, product, rounding. *)
From S2P Require Import Prelude Str Hex Keccak Ntt MlKem.
From Stdlib Require Import Setoid Morphisms.
From Stdlib Require String.
Import (notations) String.
Open Scope Z_scope.

(** * The standard *)
Module Alg.
Definition q : Z := 3329.
Fixpoint sum (n : nat) (f : nat -> Z) : Z := match n with O => 0 | S n => sum n f + f n end.

(** Section 4.2.1.  The bits of [n] integers, [d] per integer and the lowest
    first; the value of [n] bits from position [o] on. *)
Definition bits (d n : nat) (F : nat -> Z) : list Z :=
  concat (tab n (fun i => tab d (fun j => (F i / 2 ^ Z.of_nat j) mod 2))).
Definition value (b : list Z) (o n : nat) : Z := sum n (fun j => b.[o + j] * 2 ^ Z.of_nat j).
Definition BytesToBits (B : list Z) : list Z := bits 8 (length B) (get B).
Definition BitsToBytes (b : list Z) : list Z := tab (length b / 8) (fun i => value b (8 * i) 8).
Definition ByteEncode (d : nat) (F : list Z) : list Z := BitsToBytes (bits d 256 (get F)).
Definition ByteDecode (d : nat) (B : list Z) : list Z :=
  tab 256 (fun i => value (BytesToBits B) (d * i) d mod (if (d =? 12)%nat then q else 2 ^ Z.of_nat d)).
Definition Compress (d : Z) (F : list Z) : list Z := map (Fips203.compress d) F.
Definition Decompress (d : Z) (F : list Z) : list Z := map (Fips203.decompress d) F.

(** Section 4.1: the hash functions, as sponges of FIPS 202. *)
Definition G (m : list Z) : list Z := Fips202.sponge 72 0x06 m 64.
Definition H (m : list Z) : list Z := Fips202.sponge 136 0x06 m 32.
Definition J (m : list Z) : list Z := Fips202.sponge 136 0x1f m 32.
Definition PRF (s : list Z) (b : Z) : list Z := Fips202.sponge 136 0x1f (s ++ [b]) 128.
Definition XOF (m : list Z) (n : nat) : list Z := Fips202.sponge 168 0x1f m n.

(** Algorithm 7: the pairs of 12-bit candidates of each three bytes; those
    below [q], in order.  [sampled] says that the first 840 bytes (five
    blocks) of the stream hold the 256 coefficients. *)
Fixpoint candidates (C : list Z) : list Z :=
  match C with
  | c0 :: c1 :: c2 :: C => (c0 + 256 * (c1 mod 16)) :: (c1 / 16 + 16 * c2) :: candidates C
  | _ => []
  end.
Definition accepted (seed : list Z) : list Z := List.filter (fun d => d <? q) (candidates (XOF seed 840)).
Definition sampled (seed : list Z) : bool := (256 <=? length (accepted seed))%nat.
Definition SampleNTT (seed : list Z) : list Z := take 256 (accepted seed).
(** Algorithm 8 with [eta = 2]. *)
Definition SamplePolyCBD (B : list Z) : list Z :=
  let b := BytesToBits B in
  tab 256 (fun i => (sum 2 (fun j => b.[4 * i + j]) - sum 2 (fun j => b.[4 * i + 2 + j])) mod q).

(** Section 4.3: the transform (the residues modulo every
    [X^2 - gamma j]), its inverse, and the product of transforms. *)
Definition NTT (f : list Z) : list Z :=
  concat (tab 128 (fun j => let r := Fips203.modX2 (Fips203.gamma j) f in [fst r mod q; snd r mod q])).
Definition NTT_inv (F : list Z) : list Z :=
  tab 256 (fun i => (3303 * sum 128 (fun j => F.[2 * j + i mod 2] * Fips203.gamma j ^ Z.of_nat (256 - i / 2))) mod q).
Definition MultiplyNTTs (F F' : list Z) : list Z :=
  concat (tab 128 (fun j =>
    let p := Fips203.mulX2 (Fips203.gamma j) (F.[2 * j], F.[2 * j + 1]) (F'.[2 * j], F'.[2 * j + 1]) in
    [fst p mod q; snd p mod q])).
Definition add (f g : list Z) : list Z := tab 256 (fun i => (f.[i] + g.[i]) mod q).
Definition sub (f g : list Z) : list Z := tab 256 (fun i => (f.[i] - g.[i]) mod q).
(** Vectors of [k = 3] polynomials are functions of the index. *)
Definition dot (u v : nat -> list Z) : list Z :=
  tab 256 (fun i => sum 3 (fun j => (MultiplyNTTs (u j) (v j)).[i]) mod q).

Definition index_seed (rho : list Z) (i j : nat) : list Z := rho ++ [Z.of_nat j; Z.of_nat i].
Definition A (rho : list Z) (i j : nat) : list Z := SampleNTT (index_seed rho i j).
Definition matrix_sampled (rho : list Z) : bool :=
  forallb (fun i => forallb (fun j => sampled (index_seed rho i j)) (seq 0 3)) (seq 0 3).
Definition noise (s : list Z) (N : nat) : list Z := SamplePolyCBD (PRF s (Z.of_nat N)).

(** Algorithms 13, 14 and 15: K-PKE. *)
Definition KeyGen_PKE (d : list Z) : list Z * list Z :=
  let g := G (d ++ [3]) in
  let rho := slice 0 32 g in
  let sigma := slice 32 32 g in
  let s i := NTT (noise sigma i) in
  let e i := NTT (noise sigma (i + 3)) in
  let t i := add (dot (A rho i) s) (e i) in
  (concat (tab 3 (fun i => ByteEncode 12 (t i))) ++ rho, concat (tab 3 (fun i => ByteEncode 12 (s i)))).
Definition Encrypt_PKE (ek m r : list Z) : list Z :=
  let t i := ByteDecode 12 (slice (384 * i) 384 ek) in
  let rho := slice 1152 32 ek in
  let y i := NTT (noise r i) in
  let e1 i := noise r (i + 3) in
  let e2 := noise r 6 in
  let u i := add (NTT_inv (dot (fun j => A rho j i) y)) (e1 i) in
  let mu := Decompress 1 (ByteDecode 1 m) in
  let v := add (add (NTT_inv (dot t y)) e2) mu in
  concat (tab 3 (fun i => ByteEncode 10 (Compress 10 (u i)))) ++ ByteEncode 4 (Compress 4 v).
Definition Decrypt_PKE (dk c : list Z) : list Z :=
  let u i := Decompress 10 (ByteDecode 10 (slice (320 * i) 320 c)) in
  let v := Decompress 4 (ByteDecode 4 (slice 960 128 c)) in
  let s i := ByteDecode 12 (slice (384 * i) 384 dk) in
  let w := sub v (NTT_inv (dot s (fun i => NTT (u i)))) in
  ByteEncode 1 (Compress 1 w).

(** Algorithms 16, 17 and 18: the KEM on explicit randomness. *)
Definition KeyGen (d z : list Z) : list Z * list Z :=
  let '(ek, dk) := KeyGen_PKE d in (ek, dk ++ ek ++ H ek ++ z).
Definition Encaps (ek m : list Z) : list Z * list Z :=
  let g := G (m ++ H ek) in (slice 0 32 g, Encrypt_PKE ek m (slice 32 32 g)).
Definition Decaps (dk c : list Z) : list Z :=
  let dkpke := slice 0 1152 dk in
  let ek := slice 1152 1184 dk in
  let h := slice 2336 32 dk in
  let z := slice 2368 32 dk in
  let m' := Decrypt_PKE dkpke c in
  let g := G (m' ++ h) in
  let c' := Encrypt_PKE ek m' (slice 32 32 g) in
  if decide (c = c') then slice 0 32 g else J (z ++ c).
End Alg.

(** * Sums, bit fields and encodings *)

Lemma sum_ext n f g : (forall j, (j < n)%nat -> f j = g j) -> Alg.sum n f = Alg.sum n g.
Proof. induction n as [|n IH]; intros H; [done|]. cbn [Alg.sum]. rewrite IH, H by auto with lia. done. Qed.
Lemma sum_app n m f : Alg.sum (n + m) f = Alg.sum n f + Alg.sum m (fun j => f (n + j)%nat).
Proof.
  induction m as [|m IH]; [rewrite Nat.add_0_r; cbn; lia|].
  replace (n + S m)%nat with (S (n + m)) by lia. cbn [Alg.sum]. rewrite IH. lia.
Qed.
Lemma sum_scale n c f : Alg.sum n (fun j => c * f j) = c * Alg.sum n f.
Proof. induction n as [|n IH]; cbn [Alg.sum]; [lia|]. rewrite IH. lia. Qed.

Lemma value_split b o n m : Alg.value b o (n + m) = Alg.value b o n + 2 ^ Z.of_nat n * Alg.value b (o + n) m.
Proof.
  unfold Alg.value. rewrite sum_app. f_equal. rewrite <- sum_scale. apply sum_ext. intros j _.
  rewrite Nat2Z.inj_add, Z.pow_add_r by lia. rewrite Nat.add_assoc. lia.
Qed.

(** [n] bits inside one field are a part of its integer. *)
Lemma field_bits x lo n :
  Alg.sum n (fun j => (x / 2 ^ Z.of_nat (lo + j)) mod 2 * 2 ^ Z.of_nat j) = (x / 2 ^ Z.of_nat lo) mod 2 ^ Z.of_nat n.
Proof.
  induction n as [|n IH]; [cbn; by rewrite Z.mod_1_r|]. cbn [Alg.sum]. rewrite IH.
  rewrite !Nat2Z.inj_add, Nat2Z.inj_succ, Z.pow_succ_r, Z.pow_add_r by lia.
  rewrite <- Z.div_div by lia. set (y := x / 2 ^ Z.of_nat lo). clearbody y.
  assert (Hp : 0 < 2 ^ Z.of_nat n) by lia. set (P := 2 ^ Z.of_nat n) in *. clearbody P.
  rewrite (Z.mul_comm 2 P), Z.rem_mul_r by lia. lia.
Qed.
Lemma bits_field d n F i j : (i < n)%nat -> (j < d)%nat ->
  (Alg.bits d n F).[d * i + j] = (F i / 2 ^ Z.of_nat j) mod 2.
Proof.
  intros Hi Hj. unfold Alg.bits. rewrite get_concat_tab by (done || (intros; apply length_tab)). by rewrite get_tab.
Qed.
Lemma value_field d n F i lo k o : (i < n)%nat -> (lo + k <= d)%nat -> o = (d * i + lo)%nat ->
  Alg.value (Alg.bits d n F) o k = (F i / 2 ^ Z.of_nat lo) mod 2 ^ Z.of_nat k.
Proof.
  intros Hi Hk ->. rewrite <- field_bits. unfold Alg.value. apply sum_ext. intros j Hj.
  rewrite <- Nat.add_assoc, bits_field by lia. done.
Qed.
(** A field that ends in the next integer. *)
Lemma value_field2 d N F i lo n m o : (S i < N)%nat -> (lo + n = d)%nat -> (m <= d)%nat -> o = (d * i + lo)%nat ->
  Alg.value (Alg.bits d N F) o (n + m) =
    (F i / 2 ^ Z.of_nat lo) mod 2 ^ Z.of_nat n + 2 ^ Z.of_nat n * (F (i + 1)%nat mod 2 ^ Z.of_nat m).
Proof.
  intros Hi Hn Hm ->. rewrite value_split. rewrite (value_field d N F i lo n), (value_field d N F (i + 1) 0 m) by lia.
  by rewrite Z.pow_0_r, Z.div_1_r.
Qed.
Lemma length_bits d n F : length (Alg.bits d n F) = (n * d)%nat.
Proof. apply length_concat_tab. intros. apply length_tab. Qed.
Lemma length_ByteEncode d F : length (Alg.ByteEncode d F) = (32 * d)%nat.
Proof.
  unfold Alg.ByteEncode, Alg.BitsToBytes. rewrite length_tab, length_bits.
  replace (256 * d)%nat with (32 * d * 8)%nat by lia. by rewrite Nat.div_mul.
Qed.
Lemma get_ByteEncode d F i : (i < 32 * d)%nat -> (Alg.ByteEncode d F).[i] = Alg.value (Alg.bits d 256 (get F)) (8 * i) 8.
Proof.
  intros Hi. unfold Alg.ByteEncode, Alg.BitsToBytes. rewrite length_bits. rewrite get_tab; [done|].
  replace (256 * d)%nat with (32 * d * 8)%nat by lia. by rewrite Nat.div_mul.
Qed.

(** ** Decoding: the code's shifts and masks against the bits *)

Lemma byte_field B o n i lo : (o = 8 * i + lo)%nat -> (i < length B)%nat -> (lo + n <= 8)%nat ->
  Alg.value (Alg.BytesToBits B) o n = (B.[i] / 2 ^ Z.of_nat lo) mod 2 ^ Z.of_nat n.
Proof. intros -> Hi Hn. unfold Alg.BytesToBits. by rewrite (value_field 8 _ _ i lo) by lia. Qed.
(** A field that ends in the next byte. *)
Lemma byte_field2 B o n i lo m : (o = 8 * i + lo)%nat -> (S i < length B)%nat -> (lo + n = 8)%nat -> (m <= 8)%nat ->
  Alg.value (Alg.BytesToBits B) o (n + m) = (B.[i] / 2 ^ Z.of_nat lo) mod 2 ^ Z.of_nat n + 2 ^ Z.of_nat n * (B.[i + 1] mod 2 ^ Z.of_nat m).
Proof.
  intros -> Hi Hn Hm. by apply value_field2.
Qed.
Lemma get_ByteDecode d B i : (i < 256)%nat ->
  (Alg.ByteDecode d B).[i] = Alg.value (Alg.BytesToBits B) (d * i) d mod (if (d =? 12)%nat then Alg.q else 2 ^ Z.of_nat d).
Proof. intros Hi. unfold Alg.ByteDecode. by rewrite get_tab. Qed.
Lemma length_ByteDecode d B : length (Alg.ByteDecode d B) = 256%nat.
Proof. apply length_tab. Qed.

Lemma decode4_ok c : bytes c -> length c = 128%nat ->
  k_poly_decompress c 4 = Alg.Decompress 4 (Alg.ByteDecode 4 c).
Proof.
  intros Hb Hl. unfold k_poly_decompress. cbn [Z.eqb Pos.eqb]. unfold Alg.Decompress.
  apply (concat_tab_ext 128 2); [lia|done|by rewrite length_map, length_ByteDecode|]. intros i k Hi Hk.
  rewrite get_map by (rewrite length_ByteDecode; lia). rewrite get_ByteDecode by lia. cbn [Nat.eqb].
  pose proof (bytes_get c i Hb) as Hc. unfold isbyte in Hc.
  rewrite (land_mod _ 4), Z.shiftr_div_pow2 by lia.
  assert (Hk' : (k = 0 \/ k = 1)%nat) by lia. destruct Hk' as [-> | ->]; get_cells.
  - rewrite (byte_field c _ 4 i 0) by lia. change (Z.of_nat 0) with 0. change (Z.of_nat 4) with 4.
    rewrite Z.pow_0_r, Z.div_1_r, Z.mod_mod by lia. apply decompress_ok; [auto|lia].
  - rewrite (byte_field c _ 4 i 4) by lia. change (Z.of_nat 4) with 4.
    rewrite Z.mod_mod, (Z.mod_small (c.[i] / 2 ^ 4)) by lia. apply decompress_ok; [auto|lia].
Qed.

Lemma decode10_ok c : bytes c -> length c = 320%nat ->
  k_poly_decompress c 10 = Alg.Decompress 10 (Alg.ByteDecode 10 c).
Proof.
  intros Hb Hl. unfold k_poly_decompress. cbn [Z.eqb Pos.eqb]. unfold Alg.Decompress.
  apply (concat_tab_ext 64 4); [lia|intros; by rewrite length_map|by rewrite length_map, length_ByteDecode|].
  intros i k Hi Hk. rewrite (get_map (Fips203.decompress 10)) by (rewrite length_ByteDecode; lia).
  rewrite get_ByteDecode by lia. cbn [Nat.eqb]. rewrite get_map by done.
  assert (D : forall t v, t = v /\ 0 <= v < 1024 -> k_decompress (i16 (Z.land t 0x3ff)) 10 = Fips203.decompress 10 (v mod 2 ^ Z.of_nat 10)).
  { intros t v [-> Hv]. rewrite (land_mod _ 10) by lia. change (Z.of_nat 10) with 10.
    rewrite (Z.mod_small v), i16_id by lia. apply decompress_ok; [auto|lia]. }
  unfold k_unpack10.
  pose proof (bytes_get c (5 * i) Hb) as B0. pose proof (bytes_get c (5 * i + 1) Hb) as B1.
  pose proof (bytes_get c (5 * i + 2) Hb) as B2. pose proof (bytes_get c (5 * i + 3) Hb) as B3.
  pose proof (bytes_get c (5 * i + 4) Hb) as B4. unfold isbyte in *.
  assert (Hk' : (k = 0 \/ k = 1 \/ k = 2 \/ k = 3)%nat) by lia.
  destruct Hk' as [-> |[-> |[-> | ->]]]; get_cells; apply D;
    [rewrite (byte_field2 c _ 8 (5 * i) 0 2) by lia
    |rewrite (byte_field2 c _ 6 (5 * i + 1) 2 4) by lia
    |rewrite (byte_field2 c _ 4 (5 * i + 2) 4 6) by lia
    |rewrite (byte_field2 c _ 2 (5 * i + 3) 6 8) by lia].
  all: try replace (5 * i + 1 + 1)%nat with (5 * i + 2)%nat by lia;
    try replace (5 * i + 2 + 1)%nat with (5 * i + 3)%nat by lia;
    try replace (5 * i + 3 + 1)%nat with (5 * i + 4)%nat by lia.
  all: change (Z.of_nat 0) with 0; change (Z.of_nat 2) with 2; change (Z.of_nat 4) with 4; change (Z.of_nat 6) with 6; change (Z.of_nat 8) with 8.
  all: rewrite ?Z.shiftr_div_pow2, ?(land_mod _ 2), ?(land_mod _ 4), ?(land_mod _ 6) by lia.
  all: rewrite lor_shiftl by lia; rewrite u16_mod; lia.
Qed.

Lemma decode12_ok b : bytes b -> length b = 384%nat ->
  near KQ 4095 (k_poly_decode12 b) (Alg.ByteDecode 12 b).
Proof.
  intros Hb Hl. split; [by apply (length_concat_tab 128 2)|]. split; [apply length_ByteDecode|]. intros i Hi.
  rewrite get_ByteDecode by done. cbn [Nat.eqb]. unfold k_poly_decode12.
  replace i with (2 * (i / 2) + i mod 2)%nat at 1 2 3 by lia. rewrite get_concat_tab by (done || lia).
  set (h := (i / 2)%nat). assert (Hh : (h < 128)%nat) by (unfold h; lia).
  pose proof (bytes_get b (3 * h) Hb) as B0. pose proof (bytes_get b (3 * h + 1) Hb) as B1.
  pose proof (bytes_get b (3 * h + 2) Hb) as B2. unfold isbyte in *.
  rewrite !(land_mod _ 12), !Z.shiftr_div_pow2 by lia. rewrite (lor_shiftl _ _ 8), (lor_shiftl _ _ 4) by lia.
  rewrite !i16_id by lia.
  assert (Hi' : (i = 2 * h + 0 \/ i = 2 * h + 1)%nat) by (unfold h; lia).
  assert (Hm : (i mod 2 = i - 2 * h)%nat) by (unfold h; lia). rewrite Hm. clearbody h.
  destruct Hi' as [-> | ->].
  - replace (2 * h + 0 - 2 * h)%nat with 0%nat by lia. get_cells.
    rewrite (byte_field2 b _ 8 (3 * h) 0 4) by lia. change (Z.of_nat 0) with 0. change (Z.of_nat 4) with 4. change (Z.of_nat 8) with 8.
    split; [lia|]. unfold eqm. change Alg.q with KQ. rewrite Z.mod_mod by (unfold KQ; lia). f_equal. lia.
  - replace (2 * h + 1 - 2 * h)%nat with 1%nat by lia. get_cells.
    rewrite (byte_field2 b _ 4 (3 * h + 1) 4 8) by lia. replace (3 * h + 1 + 1)%nat with (3 * h + 2)%nat by lia.
    change (Z.of_nat 4) with 4. change (Z.of_nat 8) with 8.
    split; [lia|]. unfold eqm. change Alg.q with KQ. rewrite Z.mod_mod by (unfold KQ; lia). f_equal. lia.
Qed.

Lemma frommsg_ok m : bytes m -> length m = 32%nat ->
  near KQ 1665 (k_poly_frommsg m) (Alg.Decompress 1 (Alg.ByteDecode 1 m)).
Proof.
  intros Hb Hl. split; [apply (length_concat_tab 32 8); intros; apply length_tab|].
  unfold Alg.Decompress. split; [by rewrite length_map, length_ByteDecode|]. intros i Hi.
  rewrite get_map by (rewrite length_ByteDecode; lia). rewrite get_ByteDecode by done. cbn [Nat.eqb].
  unfold k_poly_frommsg. replace i with (8 * (i / 8) + i mod 8)%nat at 1 2 3 by lia.
  rewrite get_concat_tab, get_tab by (lia || (intros; apply length_tab)).
  rewrite (byte_field m _ 1 (i / 8) (i mod 8)) by lia. change (Z.of_nat 1) with 1.
  rewrite Z.mod_mod, Z.shiftr_div_pow2, (land_mod _ 1) by lia.
  assert (Hv : 0 <= (m.[i / 8] / 2 ^ Z.of_nat (i mod 8)) mod 2 ^ 1 < 2) by lia.
  set (v := (m.[i / 8] / 2 ^ Z.of_nat (i mod 8)) mod 2 ^ 1) in *. clearbody v.
  assert (Hv' : v = 0 \/ v = 1) by lia. destruct Hv' as [-> | ->]; vm_compute; repeat split; discriminate.
Qed.

(** ** Encoding *)

Definition reduced (p : list Z) : Prop := forall i, p.[i] mod Alg.q = p.[i].

Lemma compress_cell d r p i : codec_depth d -> near KQ 1664 r p -> reduced p -> (i < 256)%nat ->
  k_compress d r.[i] = (Alg.Compress d p).[i] /\ 0 <= (Alg.Compress d p).[i] < 2 ^ d.
Proof.
  intros Hd (_ & Hp & H) Hred Hi. destruct (H i Hi) as [R E]. unfold Alg.Compress. rewrite get_map by lia.
  pose proof (compress_ok_all d Hd _ R) as C. unfold compress_ok in C. apply andb_prop in C as [C _].
  apply Z.eqb_eq in C. rewrite E, Hred in C. rewrite <- C. split; [done|]. by apply k_compress_range.
Qed.

Lemma encode4_ok r p : near KQ 1664 r p -> reduced p ->
  k_poly_compress r 4 = Alg.ByteEncode 4 (Alg.Compress 4 p).
Proof.
  intros H Hred. unfold k_poly_compress. cbn [Z.eqb Pos.eqb].
  apply (concat_tab_ext 32 4); [lia|done|by rewrite length_ByteEncode|]. intros i k Hi Hk.
  rewrite get_ByteEncode by lia. unfold k_pack4. rewrite !get_tab by lia. change k_compress4 with (k_compress 4).
  rewrite (value_field2 4 256 _ (8 * i + 2 * k) 0 4 4) by lia.
  change (Z.of_nat 0) with 0. change (Z.of_nat 4) with 4. rewrite Z.pow_0_r, Z.div_1_r.
  assert (C : forall j, (j < 8)%nat -> k_compress 4 r.[8 * i + j] = (Alg.Compress 4 p).[8 * i + j] /\
    0 <= (Alg.Compress 4 p).[8 * i + j] < 16) by (intros j Hj; apply compress_cell; [unfold codec_depth; auto|done|done|lia]).
  destruct (C (2 * k)%nat ltac:(lia)) as [E0 R0]. destruct (C (2 * k + 1)%nat ltac:(lia)) as [E1 R1].
  replace (8 * i + 2 * k + 1)%nat with (8 * i + (2 * k + 1))%nat by lia.
  transitivity (u8 (Z.lor (k_compress 4 r.[8 * i + 2 * k]) (Z.shiftl (k_compress 4 r.[8 * i + (2 * k + 1)]) 4))).
  - do 4 (destruct k as [|k]; [get_cells; same_cells|]). lia.
  - rewrite E0, E1, lor_shiftl, u8_mod by lia. lia.
Qed.

Lemma encode10_ok r p : near KQ 1664 r p -> reduced p ->
  k_poly_compress r 10 = Alg.ByteEncode 10 (Alg.Compress 10 p).
Proof.
  intros H Hred. unfold k_poly_compress. cbn [Z.eqb Pos.eqb].
  apply (concat_tab_ext 64 5); [lia|done|by rewrite length_ByteEncode|]. intros i k Hi Hk.
  rewrite get_ByteEncode by lia. unfold k_pack10. rewrite !get_tab by lia. change k_compress10 with (k_compress 10).
  assert (C : forall j, (j < 4)%nat -> k_compress 10 r.[4 * i + j] = (Alg.Compress 10 p).[4 * i + j] /\
    0 <= (Alg.Compress 10 p).[4 * i + j] < 1024) by (intros j Hj; apply compress_cell; [unfold codec_depth; auto|done|done|lia]).
  set (F := Alg.Compress 10 p) in *. clearbody F.
  destruct (C 0%nat ltac:(lia)) as [-> R0]. destruct (C 1%nat ltac:(lia)) as [-> R1].
  destruct (C 2%nat ltac:(lia)) as [-> R2]. destruct (C 3%nat ltac:(lia)) as [-> R3].
  assert (Hk' : (k = 0 \/ k = 1 \/ k = 2 \/ k = 3 \/ k = 4)%nat) by lia.
  destruct Hk' as [-> |[-> |[-> |[-> | ->]]]]; get_cells;
    [rewrite (value_field 10 256 _ (4 * i) 0 8) by lia
    |rewrite (value_field2 10 256 _ (4 * i) 8 2 6) by lia
    |rewrite (value_field2 10 256 _ (4 * i + 1) 6 4 4) by lia
    |rewrite (value_field2 10 256 _ (4 * i + 2) 4 6 2) by lia
    |rewrite (value_field 10 256 _ (4 * i + 3) 2 8) by lia].
  all: try replace (4 * i + 1 + 1)%nat with (4 * i + 2)%nat by lia; try replace (4 * i + 2 + 1)%nat with (4 * i + 3)%nat by lia;
    replace (4 * i + 0)%nat with (4 * i)%nat in * by lia.
  all: change (Z.of_nat 0) with 0; change (Z.of_nat 2) with 2; change (Z.of_nat 4) with 4; change (Z.of_nat 6) with 6; change (Z.of_nat 8) with 8.
  all: rewrite !Z.shiftr_div_pow2 by lia; try rewrite lor_shiftl by lia; rewrite u8_mod; lia.
Qed.

Lemma or_sum (c : nat -> Z) n : (n <= 8)%nat -> (forall j, (j < n)%nat -> 0 <= c j < 2) ->
  for_ 0 n (fun j r => Z.lor r (u8 (Z.shiftl (c j) (Z.of_nat j)))) 0 = Alg.sum n (fun j => c j * 2 ^ Z.of_nat j).
Proof.
  intros Hn Hc. induction n as [|n IH]; [done|]. rewrite for_last by lia. cbn [Alg.sum].
  destruct (or_bits c n) as [R _]; [lia|intros; apply Hc; lia|]. rewrite <- IH by (intros; try apply Hc; lia).
  set (r := for_ 0 n _ 0) in *. clearbody r. specialize (Hc n ltac:(lia)).
  assert (Hp : 0 < 2 ^ Z.of_nat n <= 128) by (split; [lia|]; change 128 with (2 ^ 7); apply Z.pow_le_mono_r; lia).
  rewrite u8_id by (rewrite Z.shiftl_mul_pow2 by lia; nia). by apply lor_shiftl; lia.
Qed.
Lemma encode1_ok r p : near KQ 1664 r p -> reduced p ->
  k_poly_compress r 1 = Alg.ByteEncode 1 (Alg.Compress 1 p).
Proof.
  intros H Hred. unfold k_poly_compress. cbn [Z.eqb Pos.eqb].
  apply array_ext; [by rewrite length_tab, length_ByteEncode|]. intros i Hi. rewrite length_tab in Hi.
  rewrite get_tab, get_ByteEncode by done. change k_compress1 with (k_compress 1).
  assert (C : forall j, (j < 8)%nat -> k_compress 1 r.[8 * i + j] = (Alg.Compress 1 p).[8 * i + j] /\
    0 <= (Alg.Compress 1 p).[8 * i + j] < 2) by (intros j Hj; apply compress_cell; [unfold codec_depth; auto|done|done|lia]).
  rewrite (or_sum (fun j => k_compress 1 r.[8 * i + j])) by (try done; intros j Hj; destruct (C j Hj) as [-> ?]; done).
  unfold Alg.value. apply sum_ext. intros j Hj. destruct (C j Hj) as [-> R].
  replace (8 * i + j)%nat with (1 * (8 * i + j) + 0)%nat at 2 by lia. rewrite bits_field by lia.
  change (Z.of_nat 0) with 0. rewrite Z.pow_0_r, Z.div_1_r, (Z.mod_small _ 2) by lia. done.
Qed.

Lemma encode12_ok r p : near KQ 1664 r p -> reduced p -> k_poly_encode12 r = Alg.ByteEncode 12 p.
Proof.
  intros (Hl & Hp & H) Hred. unfold k_poly_encode12.
  apply (concat_tab_ext 128 3); [lia|done|by rewrite length_ByteEncode|]. intros i k Hi Hk.
  rewrite get_ByteEncode by lia.
  assert (C : forall j, (j < 256)%nat -> k_enc_coeff r.[j] = p.[j] /\ 0 <= p.[j] < 3329).
  { intros j Hj. destruct (H j Hj) as [R E]. rewrite k_enc_coeff_spec by (unfold KQ; lia). unfold eqm in E.
    change KQ with Alg.q in E. rewrite Hred in E. split; [exact E|]. rewrite <- Hred. unfold Alg.q. lia. }
  destruct (C (2 * i)%nat ltac:(lia)) as [-> R0]. destruct (C (2 * i + 1)%nat ltac:(lia)) as [-> R1].
  assert (Hk' : (k = 0 \/ k = 1 \/ k = 2)%nat) by lia. destruct Hk' as [-> |[-> | ->]]; get_cells;
    [rewrite (value_field 12 256 _ (2 * i) 0 8) by lia
    |rewrite (value_field2 12 256 _ (2 * i) 8 4 4) by lia
    |rewrite (value_field 12 256 _ (2 * i + 1) 4 8) by lia].
  all: change (Z.of_nat 0) with 0; change (Z.of_nat 4) with 4; change (Z.of_nat 8) with 8.
  all: rewrite !Z.shiftr_div_pow2 by lia; try rewrite lor_shiftl by lia; rewrite u8_mod; lia.
Qed.

(** ** Sampling *)

Lemma shake128_spec m n : bytes m -> oo_shake128 m n = Alg.XOF m n.
Proof. intros. apply keccak_absorb_squeeze_spec; [lia|done|done|unfold isbyte; lia]. Qed.
Lemma shake256_spec m n : bytes m -> oo_shake256 m n = Fips202.sponge 136 0x1f m n.
Proof. intros. apply keccak_absorb_squeeze_spec; [lia|done|done|unfold isbyte; lia]. Qed.
Lemma sha3_512_spec m : bytes m -> oo_sha3_512_bytes m = Alg.G m.
Proof. intros. apply keccak_absorb_squeeze_spec; [lia|done|done|unfold isbyte; lia]. Qed.
Lemma sha3_256_spec m : bytes m -> oo_sha3_256_bytes m = Alg.H m.
Proof. intros. apply keccak_absorb_squeeze_spec; [lia|done|done|unfold isbyte; lia]. Qed.

Lemma drop_3 (l : list Z) o : (o + 3 <= length l)%nat -> drop o l = l.[o] :: l.[o + 1] :: l.[o + 2] :: drop (o + 3) l.
Proof.
  intros Ho. assert (D : forall k, (k < length l)%nat -> drop k l = l.[k] :: drop (S k) l).
  { intros k Hk. unfold get. rewrite nth_lookup. destruct (lookup_lt_is_Some_2 l k Hk) as [x Hx]. rewrite Hx. by apply drop_S. }
  rewrite (D o), (D (S o)), (D (S (S o))) by lia.
  replace (o + 1)%nat with (S o) by lia. replace (o + 2)%nat with (S (S o)) by lia. by replace (o + 3)%nat with (S (S (S o))) by lia.
Qed.
Lemma candidates_short l : (length l < 3)%nat -> Alg.candidates l = [].
Proof. destruct l as [|a [|b [|c l]]]; cbn; intros; try done; lia. Qed.

(** One candidate: the code appends what the specification keeps. *)
Lemma sample_one r d l : (length r <= 256)%nat ->
  let r' := if (d <? KQ) && (length r <? 256)%nat then r ++ [d] else r in
  (length r' <= 256)%nat /\
  take 256 (r' ++ l) = take 256 (r ++ (if d <? Alg.q then d :: l else l)).
Proof.
  intros Hr. change Alg.q with KQ. destruct (d <? KQ), (Nat.ltb_spec (length r) 256); cbn [andb]; cbv zeta.
  - rewrite length_app. cbn [length]. split; [lia|]. by rewrite <- app_assoc.
  - split; [lia|]. rewrite !take_app_ge by lia. by replace (256 - length r)%nat with 0%nat by lia.
  - done.
  - done.
Qed.

Lemma sample_loop_ok big : bytes big -> length big = 840%nat ->
  forall fuel off r, (840 < off + 3 * fuel)%nat -> (length r <= 256)%nat ->
  k_sample_loop fuel big off r =
    take 256 (r ++ List.filter (fun d => d <? Alg.q) (Alg.candidates (drop off big))).
Proof.
  intros Hb Hl. induction fuel as [|fuel IH]; intros off r Hf Hr.
  - cbn [k_sample_loop]. rewrite drop_ge by lia. cbn. rewrite app_nil_r. symmetry. by apply take_ge.
  - cbn [k_sample_loop]. destruct ((length r <? 256)%nat && (off + 3 <=? 840)%nat) eqn:Ec.
    + pose proof (bytes_get big off Hb) as B0. pose proof (bytes_get big (off + 1) Hb) as B1.
      pose proof (bytes_get big (off + 2) Hb) as B2. unfold isbyte in *.
      rewrite drop_3 by lia. cbn [Alg.candidates List.filter].
      assert (E1 : u16 (Z.lor big.[off] (Z.shiftl (Z.land big.[off + 1] 0x0f) 8)) = big.[off] + 256 * (big.[off + 1] mod 16)).
      { rewrite (land_mod _ 4), lor_shiftl, u16_mod by lia. lia. }
      assert (E2 : u16 (Z.lor (Z.shiftr big.[off + 1] 4) (Z.shiftl big.[off + 2] 4)) = big.[off + 1] / 16 + 16 * big.[off + 2]).
      { rewrite Z.shiftr_div_pow2, lor_shiftl, u16_mod by lia. lia. }
      rewrite E1, E2. rewrite !i16_id by lia.
      set (d1 := big.[off] + 256 * (big.[off + 1] mod 16)). set (d2 := big.[off + 1] / 16 + 16 * big.[off + 2]).
      set (rest := List.filter _ (Alg.candidates (drop (off + 3) big))).
      destruct (sample_one r d1 (if d2 <? Alg.q then d2 :: rest else rest) Hr) as [L1 <-]. 
      cbv zeta in *. set (r1 := if (d1 <? KQ) && _ then _ else r) in *.
      destruct (sample_one r1 d2 rest L1) as [L2 <-]. apply IH; [lia|exact L2].
    + destruct (Nat.lt_ge_cases (length r) 256).
      * rewrite candidates_short by (rewrite length_drop; lia). cbn. rewrite app_nil_r. symmetry. by apply take_ge.
      * rewrite take_app_le by lia. symmetry. by apply take_ge.
Qed.

Lemma sample_ntt_ok rho j i : bytes rho -> length rho = 32%nat -> (i < 3)%nat -> (j < 3)%nat ->
  k_sample_ntt (rho ++ [u8 (Z.of_nat j); u8 (Z.of_nat i)]) =
    if Alg.sampled (Alg.index_seed rho i j) then Ret (Alg.A rho i j) else Undefined.
Proof.
  intros Hb Hl Hi Hj. unfold k_sample_ntt. rewrite !u8_id by lia. fold (Alg.index_seed rho i j).
  assert (Ls : length (Alg.index_seed rho i j) = 34%nat) by (unfold Alg.index_seed; rewrite length_app, Hl; done).
  assert (Bs : bytes (Alg.index_seed rho i j)).
  { unfold Alg.index_seed. rewrite bytes_app. split; [done|]. bytes_cells; unfold isbyte; lia. }
  rewrite slice_all by done.
  rewrite sample_loop_ok by (try apply bytes_shake128; try apply length_shake128; cbn [length]; lia).
  rewrite drop_0, app_nil_l, shake128_spec by done. fold (Alg.accepted (Alg.index_seed rho i j)).
  rewrite length_take. unfold Alg.sampled, Alg.A, Alg.SampleNTT.
  destruct (Nat.leb_spec 256 (length (Alg.accepted (Alg.index_seed rho i j)))).
  - by rewrite Nat.min_l by lia.
  - rewrite Nat.min_r by lia. case_match; [lia|done].
Qed.

Lemma candidates_range C : bytes C -> Forall (fun d => 0 <= d < 4096) (Alg.candidates C).
Proof.
  revert C. fix IH 1. intros [|c0 [|c1 [|c2 C]]] Hb; try (constructor; fail). cbn [Alg.candidates].
  inversion Hb as [|? ? B0 Hb1]; inversion Hb1 as [|? ? B1 Hb2]; inversion Hb2 as [|? ? B2 Hb3]; subst. unfold isbyte in *.
  constructor; [lia|]. constructor; [lia|]. by apply IH.
Qed.
(** The entries of the matrix are reduced polynomials. *)
Lemma A_range rho i j : bytes rho -> (i < 3)%nat -> (j < 3)%nat -> Alg.sampled (Alg.index_seed rho i j) = true ->
  near KQ 3328 (Alg.A rho i j) (Alg.A rho i j).
Proof.
  intros Hb Hi Hj Hs. unfold Alg.sampled in Hs. apply Nat.leb_le in Hs.
  unfold Alg.A, Alg.SampleNTT. set (s := Alg.index_seed rho i j) in *.
  assert (F : Forall (fun d => 0 <= d < 3329) (take 256 (Alg.accepted s))).
  { apply Forall_take. unfold Alg.accepted. apply List.Forall_forall. intros d [Hd Hq]%filter_In.
    assert (Bs : bytes s) by (unfold s, Alg.index_seed; rewrite bytes_app; split; [done|]; bytes_cells; unfold isbyte; lia).
    assert (R : Forall (fun d => 0 <= d < 4096) (Alg.candidates (Alg.XOF s 840))).
    { apply candidates_range. rewrite <- shake128_spec by done. apply bytes_shake128. }
    rewrite List.Forall_forall in R. specialize (R d Hd). unfold Alg.q in Hq. lia. }
  apply near_refl; [rewrite length_take; lia|]. intros k Hk. rewrite Forall_lookup in F. unfold get. rewrite nth_lookup.
  destruct (take 256 (Alg.accepted s) !! k) as [x|] eqn:E; cbn; [|lia]. apply F in E. lia.
Qed.

(** The bit counting of [k_cbd2]: two masked additions add the even and the
    odd bits of every nibble side by side. *)
Fixpoint mask5 (k : nat) : Z := match k with O => 0 | S k => 5 + 16 * mask5 k end.
Definition pair_sums (k : nat) (t : Z) : Z := Z.land t (mask5 k) + Z.land (t / 2) (mask5 k).
Definition nibble_sums (n : Z) : Z := Z.land n 5 + Z.land (n / 2) 5.

Lemma land_nibble a m : Z.land a (5 + 16 * m) = Z.land (a mod 16) 5 + 16 * Z.land (a / 16) m.
Proof.
  replace (5 + 16 * m) with (5 + m * 2 ^ 4) by lia. rewrite <- lor_shiftl by lia. rewrite Z.land_lor_distr_r.
  assert (E5 : Z.land a 5 = Z.land (a mod 16) 5).
  { change 16 with (2 ^ 4). rewrite <- (land_mod _ 4) by lia. rewrite <- Z.land_assoc. done. }
  assert (Em : Z.land a (Z.shiftl m 4) = Z.shiftl (Z.land (a / 16) m) 4).
  { apply Z.bits_inj'. intros n Hn. rewrite Z.land_spec, !Z.shiftl_spec by done. destruct (Z.lt_ge_cases n 4).
    - rewrite !(Z.testbit_neg_r _ (n - 4)) by lia. apply andb_false_r.
    - change 16 with (2 ^ 4). rewrite <- Z.shiftr_div_pow2 by lia. rewrite Z.land_spec, Z.shiftr_spec by lia.
      by replace (n - 4 + 4) with n by lia. }
  rewrite E5, Em. assert (R : 0 <= a mod 16 < 16) by lia.
  assert (0 <= Z.land (a mod 16) 5 < 2 ^ 4).
  { pose proof (range_forall (fun r => (0 <=? Z.land r 5) && (Z.land r 5 <? 16)) 0 16 eq_refl (a mod 16) ltac:(lia)). cbn beta in *. lia. }
  rewrite lor_shiftl by lia. lia.
Qed.

Lemma nibble_sums_ok n : 0 <= n < 16 ->
  0 <= nibble_sums n < 16 /\ nibble_sums n mod 4 = n mod 2 + (n / 2) mod 2 /\
  nibble_sums n / 4 = (n / 4) mod 2 + (n / 8) mod 2.
Proof.
  intros Hn. assert (H : (let s := nibble_sums n in (0 <=? s) && (s <? 16) && (s mod 4 =? n mod 2 + (n / 2) mod 2) &&
    (s / 4 =? (n / 4) mod 2 + (n / 8) mod 2)) = true).
  { exact (range_forall (fun n => let s := nibble_sums n in (0 <=? s) && (s <? 16) && (s mod 4 =? n mod 2 + (n / 2) mod 2) &&
      (s / 4 =? (n / 4) mod 2 + (n / 8) mod 2)) 0 16 eq_refl n ltac:(lia)). }
  cbv zeta in H. lia.
Qed.
Lemma pair_sums_S k t : pair_sums (S k) t = nibble_sums (t mod 16) + 16 * pair_sums k (t / 16).
Proof.
  unfold pair_sums. cbn [mask5]. rewrite !land_nibble. replace (t / 2 / 16) with (t / 16 / 2) by lia.
  assert (E : Z.land ((t / 2) mod 16) 5 = Z.land (t mod 16 / 2) 5).
  { replace ((t / 2) mod 16) with (t mod 32 / 2) by lia. replace (t mod 16) with ((t mod 32) mod 16) by lia.
    apply Z.eqb_eq. exact (range_forall (fun r => Z.land (r / 2) 5 =? Z.land (r mod 16 / 2) 5) 0 32 eq_refl (t mod 32) ltac:(lia)). }
  rewrite E. unfold nibble_sums. lia.
Qed.
Lemma pair_sums_range k t : 0 <= pair_sums k t < 16 ^ Z.of_nat k.
Proof.
  revert t. induction k as [|k IH]; intros t; [unfold pair_sums; cbn; rewrite !Z.land_0_r; lia|].
  rewrite pair_sums_S, Nat2Z.inj_succ, Z.pow_succ_r by lia. specialize (IH (t / 16)).
  destruct (nibble_sums_ok (t mod 16)) as [R _]; lia.
Qed.
Lemma pair_sums_digit k j t : (j < k)%nat ->
  (pair_sums k t / 16 ^ Z.of_nat j) mod 16 = nibble_sums ((t / 16 ^ Z.of_nat j) mod 16).
Proof.
  revert j t. induction k as [|k IH]; intros j t Hj; [lia|]. rewrite pair_sums_S.
  destruct (nibble_sums_ok (t mod 16)) as [R _]; [lia|]. destruct j as [|j].
  - change (16 ^ Z.of_nat 0) with 1. rewrite !Z.div_1_r. lia.
  - rewrite Nat2Z.inj_succ, Z.pow_succ_r by lia. rewrite <- !Z.div_div by lia.
    replace ((nibble_sums (t mod 16) + 16 * pair_sums k (t / 16)) / 16) with (pair_sums k (t / 16)) by lia.
    apply IH. lia.
Qed.

(** The two counts the code reads from its word for nibble [j]. *)
Lemma cbd_counts t j : 0 <= t < 2 ^ 32 -> (j < 8)%nat ->
  let d := u32 (Z.land t 0x55555555 + Z.land (Z.shiftr t 1) 0x55555555) in
  let n := (t / 16 ^ Z.of_nat j) mod 16 in
  Z.land (Z.shiftr d (Z.of_nat (4 * j))) 3 = n mod 2 + (n / 2) mod 2 /\
  Z.land (Z.shiftr d (Z.of_nat (4 * j + 2))) 3 = (n / 4) mod 2 + (n / 8) mod 2.
Proof.
  intros Ht Hj d n. change 0x55555555 with (mask5 8) in d.
  assert (Ed : d = pair_sums 8 t).
  { unfold d. rewrite Z.shiftr_div_pow2 by lia. change (2 ^ 1) with 2. fold (pair_sums 8 t). apply u32_id.
    exact (pair_sums_range 8 t). }
  rewrite Ed. clear d Ed. pose proof (pair_sums_digit 8 j t Hj) as D. fold n in D.
  destruct (nibble_sums_ok n) as (_ & E1 & E2); [unfold n; lia|]. rewrite <- E1, <- E2, <- D. clear D E1 E2 n Ht.
  generalize (pair_sums 8 t). intros s. rewrite !Z.shiftr_div_pow2, !(land_mod _ 2) by lia.
  replace (Z.of_nat (4 * j)) with (4 * Z.of_nat j) by lia. replace (Z.of_nat (4 * j + 2)) with (4 * Z.of_nat j + 2) by lia.
  rewrite Z.pow_add_r, Z.pow_mul_r by lia. change (2 ^ 4) with 16. rewrite <- Z.div_div by (try apply Z.pow_pos_nonneg; lia).
  generalize (s / 16 ^ Z.of_nat j). clear. intros x. lia.
Qed.

Lemma le_word b0 b1 b2 b3 : isbyte b0 -> isbyte b1 -> isbyte b2 -> isbyte b3 ->
  Z.lor (Z.lor (Z.lor b0 (Z.shiftl b1 8)) (Z.shiftl b2 16)) (Z.shiftl b3 24) = b0 + 256 * b1 + 65536 * b2 + 16777216 * b3.
Proof. unfold isbyte. intros. rewrite (lor_shiftl b0 b1 8), (lor_shiftl _ b2 16), (lor_shiftl _ b3 24) by lia. lia. Qed.

(** Nibble [j] of the word is half of byte [j / 2]. *)
Lemma le_word_nibble b0 b1 b2 b3 j : isbyte b0 -> isbyte b1 -> isbyte b2 -> isbyte b3 -> (j < 8)%nat ->
  ((b0 + 256 * b1 + 65536 * b2 + 16777216 * b3) / 16 ^ Z.of_nat j) mod 16 =
    ([b0; b1; b2; b3].[j / 2] / 2 ^ Z.of_nat (4 * (j mod 2))) mod 16.
Proof.
  unfold isbyte. intros H0 H1 H2 H3 Hj.
  assert (Hj' : (j = 0 \/ j = 1 \/ j = 2 \/ j = 3 \/ j = 4 \/ j = 5 \/ j = 6 \/ j = 7)%nat) by lia. clear Hj.
  destruct Hj' as [-> |[-> |[-> |[-> |[-> |[-> |[-> | ->]]]]]]]; cbn [Nat.div Nat.modulo Nat.divmod fst snd Nat.sub]; get_cells;
    change (2 ^ Z.of_nat (4 * 0)) with 1; change (2 ^ Z.of_nat (4 * 1)) with 16.
  all: change (16 ^ Z.of_nat 0) with 1; change (16 ^ Z.of_nat 1) with 16; change (16 ^ Z.of_nat 2) with 256;
    change (16 ^ Z.of_nat 3) with 4096; change (16 ^ Z.of_nat 4) with 65536; change (16 ^ Z.of_nat 5) with 1048576;
    change (16 ^ Z.of_nat 6) with 16777216; change (16 ^ Z.of_nat 7) with 268435456.
  all: rewrite ?Z.div_1_r. all: lia.
Qed.
Lemma nibble_bit x k : (k < 4)%nat -> (x / 2 ^ Z.of_nat k) mod 2 = (x mod 16 / 2 ^ Z.of_nat k) mod 2.
Proof.
  intros Hk. assert (Hk' : (k = 0 \/ k = 1 \/ k = 2 \/ k = 3)%nat) by lia.
  destruct Hk' as [-> |[-> |[-> | ->]]];
    [change (2 ^ Z.of_nat 0) with 1|change (2 ^ Z.of_nat 1) with 2|change (2 ^ Z.of_nat 2) with 4|change (2 ^ Z.of_nat 3) with 8]; lia.
Qed.

Lemma byte_bit B o i lo : (o = 8 * i + lo)%nat -> (i < length B)%nat -> (lo < 8)%nat ->
  (Alg.BytesToBits B).[o] = (B.[i] / 2 ^ Z.of_nat lo) mod 2.
Proof. intros -> Hi Hlo. unfold Alg.BytesToBits. by rewrite bits_field. Qed.

Lemma cbd2_ok B : bytes B -> length B = 128%nat -> near KQ 2 (k_cbd2 B) (Alg.SamplePolyCBD B).
Proof.
  intros Hb Hl. split; [apply (length_concat_tab 32 8); intros; apply length_tab|].
  unfold Alg.SamplePolyCBD. split; [apply length_tab|]. intros c Hc. rewrite (get_tab 256) by done.
  unfold k_cbd2. replace c with (8 * (c / 8) + c mod 8)%nat at 1 2 3 by lia.
  rewrite get_concat_tab, get_tab by (lia || (intros; apply length_tab)).
  set (i := (c / 8)%nat). set (j := (c mod 8)%nat).
  assert (Hij : (c = 8 * i + j /\ i < 32 /\ j < 8)%nat) by (unfold i, j; lia). destruct Hij as (Ec & Hi & Hj). clearbody i j.
  pose proof (bytes_get B (4 * i) Hb) as B0. pose proof (bytes_get B (4 * i + 1) Hb) as B1.
  pose proof (bytes_get B (4 * i + 2) Hb) as B2. pose proof (bytes_get B (4 * i + 3) Hb) as B3.
  rewrite le_word by done. unfold isbyte in *.
  set (t := B.[4 * i] + 256 * B.[4 * i + 1] + 65536 * B.[4 * i + 2] + 16777216 * B.[4 * i + 3]).
  destruct (cbd_counts t j) as [E1 E2]; [unfold t; lia|done|]. cbv zeta in E1, E2. rewrite E1, E2. clear E1 E2.
  set (b := B.[4 * i + j / 2]). assert (En : (t / 16 ^ Z.of_nat j) mod 16 = (b / 2 ^ Z.of_nat (4 * (j mod 2))) mod 16).
  { unfold t. rewrite le_word_nibble by done. unfold b. do 2 f_equal.
    assert (Hj2 : (j / 2 < 4)%nat) by lia. generalize dependent (j / 2)%nat. intros k _ Hk.
    do 4 (destruct k as [|k]; [get_cells; f_equal; lia|]). lia. }
  rewrite En. set (n := (b / 2 ^ Z.of_nat (4 * (j mod 2))) mod 16).
  assert (Eb : forall k, (k < 4)%nat -> (Alg.BytesToBits B).[4 * c + k] = (n / 2 ^ Z.of_nat k) mod 2).
  { intros k Hk. rewrite (byte_bit B _ (4 * i + j / 2) (4 * (j mod 2) + k)) by lia. fold b. unfold n.
    rewrite Nat2Z.inj_add, Z.pow_add_r, <- Z.div_div by lia. by apply nibble_bit. }
  cbn [Alg.sum]. replace (4 * c + 2 + 0)%nat with (4 * c + 2)%nat by lia. replace (4 * c + 2 + 1)%nat with (4 * c + 3)%nat by lia.
  rewrite !Eb by lia. change (2 ^ Z.of_nat 0) with 1. change (2 ^ Z.of_nat 1) with 2. change (2 ^ Z.of_nat 2) with 4.
  change (2 ^ Z.of_nat 3) with 8. rewrite Z.div_1_r.
  assert (R : forall x, 0 <= x mod 2 < 2) by (intros; lia).
  generalize (n mod 2) (R n) ((n / 2) mod 2) (R (n / 2)) ((n / 4) mod 2) (R (n / 4)) ((n / 8) mod 2) (R (n / 8)).
  clear. intros x0 R0 x1 R1 x2 R2 x3 R3. rewrite (i16_id (x0 + x1)), (i16_id (x2 + x3)), i16_id by lia. split; [lia|].
  change KQ with Alg.q. unfold eqm. by rewrite Z.mod_mod by (unfold Alg.q; lia).
Qed.

(** * The transforms *)

Lemma sum_eqm n f g : (forall j, (j < n)%nat -> eqm KQ (f j) (g j)) -> eqm KQ (Alg.sum n f) (Alg.sum n g).
Proof. induction n as [|n IH]; intros H; [done|]. cbn [Alg.sum]. by rewrite IH, H by auto with lia. Qed.
Lemma sum_zero n : Alg.sum n (fun _ => 0) = 0.
Proof. induction n as [|n IH]; [done|]. cbn [Alg.sum]. lia. Qed.
Lemma sum_add n f g : Alg.sum n (fun j => f j + g j) = Alg.sum n f + Alg.sum n g.
Proof. induction n as [|n IH]; [done|]. cbn [Alg.sum]. lia. Qed.
Lemma sum_swap n m f : Alg.sum n (fun i => Alg.sum m (f i)) = Alg.sum m (fun j => Alg.sum n (fun i => f i j)).
Proof. induction n as [|n IH]; cbn [Alg.sum]; [by rewrite sum_zero|]. by rewrite IH, <- sum_add. Qed.
Lemma sum_delta n a k c : (k < n)%nat -> Alg.sum n (fun m => a m * (if (m =? k)%nat then c else 0)) = a k * c.
Proof.
  intros Hk. induction n as [|n IH]; [lia|]. cbn [Alg.sum]. destruct (Nat.eqb_spec n k) as [->|].
  - rewrite (sum_ext k _ (fun _ => 0)), sum_zero; [lia|]. intros j Hj. destruct (Nat.eqb_spec j k); lia.
  - rewrite IH by lia. lia.
Qed.
Lemma sum_S_l n f : Alg.sum (S n) f = f 0%nat + Alg.sum n (fun j => f (S j)).
Proof. induction n as [|n IH]; [cbn; lia|]. cbn [Alg.sum] in *. lia. Qed.

(** Sums of powers of the 128 roots, by tables of residues. *)
Definition next_powers (g v : list Z) : list Z := zip_with (fun x y => (x * y) mod KQ) v g.
Fixpoint power_sums (fuel : nat) (g v : list Z) : list Z :=
  match fuel with O => [] | S fuel => foldl Z.add 0 v mod KQ :: power_sums fuel g (next_powers g v) end.
Definition roots : list Z := tab 128 Fips203.gamma.
Definition powers (n : nat) : list Z := tab 128 (fun j => Fips203.gamma j ^ Z.of_nat n mod KQ).

Lemma zip_tab n (h : Z -> Z -> Z) f g : zip_with h (tab n f) (tab n g) = tab n (fun j => h (f j) (g j)).
Proof. unfold tab. induction (seq 0 n) as [|x l IH]; [done|]. cbn. by rewrite IH. Qed.
Lemma next_powers_ok n : next_powers roots (powers n) = powers (S n).
Proof.
  unfold next_powers, roots, powers. rewrite zip_tab. apply tab_ext. intros j _.
  rewrite Nat2Z.inj_succ, Z.pow_succ_r by lia. change (eqm KQ ((Fips203.gamma j ^ Z.of_nat n mod KQ) * Fips203.gamma j) (Fips203.gamma j * Fips203.gamma j ^ Z.of_nat n)).
  rewrite eqm_mod. by rewrite Z.mul_comm.
Qed.
Lemma foldl_tab n f a : foldl Z.add a (tab n f) = a + Alg.sum n f.
Proof.
  induction n as [|n IH]; [cbn; lia|]. unfold tab in *. rewrite seq_S, map_app, foldl_app, IH. cbn. lia.
Qed.
Lemma power_sums_ok fuel n i : (i < fuel)%nat ->
  (power_sums fuel roots (powers n)).[i] = Alg.sum 128 (fun j => Fips203.gamma j ^ Z.of_nat (n + i)) mod KQ.
Proof.
  revert n i. induction fuel as [|fuel IH]; intros n i Hi; [lia|]. cbn [power_sums]. destruct i as [|i].
  - rewrite get_cons_0. unfold powers. rewrite foldl_tab, Z.add_0_l, Nat.add_0_r. apply sum_eqm. intros j _. apply eqm_mod.
  - rewrite get_cons_S, next_powers_ok, IH by lia. f_equal. apply sum_ext. intros j _. do 2 f_equal. lia.
Qed.
Lemma root_sums n : (128 < n < 384)%nat ->
  eqm KQ (Alg.sum 128 (fun j => Fips203.gamma j ^ Z.of_nat n)) (if (n =? 256)%nat then 128 else 0).
Proof.
  intros Hn.
  assert (H : forallb (fun n => (power_sums 384 roots (powers 0)).[n] =? (if (n =? 256)%nat then 128 else 0)) (seq 129 255) = true).
  { assert (E : power_sums 384 roots (powers 0) = 128 :: zeros 127 ++ [3201] ++ zeros 127 ++ [128] ++ zeros 127) by (vm_compute; reflexivity).
    rewrite E. vm_compute. reflexivity. }
  rewrite forallb_forall in H. specialize (H n ltac:(apply in_seq; lia)). apply Z.eqb_eq in H.
  rewrite power_sums_ok in H by lia. unfold eqm. change (0 + n)%nat with n in H. rewrite H. by destruct (n =? 256)%nat.
Qed.

Lemma modX2_sum y m : forall l, length l = (2 * m)%nat ->
  fst (Fips203.modX2 y l) = Alg.sum m (fun k => l.[2 * k + 0] * y ^ Z.of_nat k) /\
  snd (Fips203.modX2 y l) = Alg.sum m (fun k => l.[2 * k + 1] * y ^ Z.of_nat k).
Proof.
  induction m as [|m IH]; intros l Hl; [by destruct l|].
  destruct l as [|a [|b l]]; [cbn in Hl; lia..|]. cbn [length] in Hl. destruct (IH l ltac:(lia)) as [E0 E1].
  cbn [Fips203.modX2]. destruct (Fips203.modX2 y l) as [e o]. cbn [fst snd] in *. subst. rewrite !sum_S_l.
  change (2 * 0)%nat with 0%nat. change (0 + 0)%nat with 0%nat. change (0 + 1)%nat with 1%nat. get_cells. change (Z.of_nat 0) with 0. rewrite Z.pow_0_r.
  rewrite <- !sum_scale. split; f_equal; try lia; apply sum_ext; intros k _; rewrite Nat2Z.inj_succ, Z.pow_succ_r by lia.
  - replace (2 * S k + 0)%nat with (S (S (2 * k + 0))) by lia. get_cells. ring.
  - replace (2 * S k + 1)%nat with (S (S (2 * k + 1))) by lia. get_cells. ring.
Qed.

(** The inverse of the standard is the one the code computes. *)
Lemma bwds_coeff F i : length F = 256%nat -> (i < 256)%nat ->
  eqm KQ (Alg.sum 128 (fun j => F.[2 * j + i mod 2] * Fips203.gamma j ^ Z.of_nat (256 - i / 2))) (bwds k_zeta k_lens F).[i].
Proof.
  intros HF Hi. set (B := bwds k_zeta k_lens F).
  assert (HB : length B = 256%nat) by (unfold B; by rewrite length_bwds).
  destruct (fwds_bwds KQ k_zeta k_zeta k_lens F k_lens_good k_inverse_zetas HF) as [_ HW]. fold B in HW.
  rewrite length_fwds, HB in HW. change (2 ^ Z.of_nat (length k_lens)) with 128 in HW.
  set (e := (i mod 2)%nat). set (k := (i / 2)%nat). assert (Hk : (k < 128)%nat) by (unfold k; lia).
  assert (R : forall j, (j < 128)%nat -> eqm KQ (128 * F.[2 * j + e]) (Alg.sum 128 (fun m => B.[2 * m + e] * Fips203.gamma j ^ Z.of_nat m))).
  { intros j Hj. destruct (fwds_residues B j HB Hj) as [E0 E1]. destruct (modX2_sum (Fips203.gamma j) 128 B HB) as [S0 S1].
    rewrite S0 in E0. rewrite S1 in E1.
    assert (He : (e = 0 \/ e = 1)%nat) by (unfold e; lia).
    specialize (HW (2 * j + e)%nat ltac:(lia)). rewrite get_map_mul in HW by lia. rewrite <- HW.
    destruct He as [-> | ->]; [|exact E1]. by replace (2 * j)%nat with (2 * j + 0)%nat in E0 by lia. }
  apply (eqm_cancel KQ 128 3303); [reflexivity|]. rewrite <- sum_scale.
  transitivity (Alg.sum 128 (fun m => B.[2 * m + e] * (if (m =? k)%nat then 128 else 0))).
  - transitivity (Alg.sum 128 (fun j => Alg.sum 128 (fun m => B.[2 * m + e] * Fips203.gamma j ^ Z.of_nat (m + (256 - k))))).
    + apply sum_eqm. intros j Hj. rewrite Z.mul_assoc, R by done. rewrite Z.mul_comm, <- sum_scale.
      apply sum_eqm. intros m _. rewrite Nat2Z.inj_add, Z.pow_add_r by lia. unfold eqm. f_equal. ring.
    + rewrite sum_swap. apply sum_eqm. intros m Hm. rewrite sum_scale, root_sums by lia.
      destruct (Nat.eqb_spec (m + (256 - k)) 256), (Nat.eqb_spec m k); try lia; done.
  - rewrite sum_delta by done. replace (2 * k + e)%nat with i by (unfold k, e; lia). unfold eqm. f_equal. ring.
Qed.

(** ** Every routine of the code against the standard's *)

Lemma reduced_tab f : reduced (tab 256 (fun i => f i mod Alg.q)).
Proof.
  intros i. destruct (Nat.lt_ge_cases i 256); [|rewrite get_overflow by (by rewrite length_tab); done].
  rewrite get_tab by done. by rewrite Z.mod_mod by (unfold Alg.q; lia).
Qed.
Lemma reduced_add f g : reduced (Alg.add f g).
Proof. apply reduced_tab. Qed.
Lemma reduced_sub f g : reduced (Alg.sub f g).
Proof. apply reduced_tab. Qed.

(** The two coefficients at each root. *)
Lemma pairs_eqm (c : Z) (f g : nat -> Z) r :
  (forall j, (j < 128)%nat -> eqm KQ r.[2 * j] (c * f j) /\ eqm KQ r.[2 * j + 1] (c * g j)) ->
  forall i, (i < 256)%nat -> eqm KQ r.[i] (c * (concat (tab 128 (fun j => [f j mod Alg.q; g j mod Alg.q]))).[i]).
Proof.
  intros H i Hi. destruct (H (i / 2)%nat ltac:(lia)) as [H0 H1]. change Alg.q with KQ.
  assert (Hi' : (i = 2 * (i / 2) + 0 \/ i = 2 * (i / 2) + 1)%nat) by lia.
  generalize dependent (i / 2)%nat. intros j H0 H1 Hi'. assert (Hj : (j < 128)%nat) by lia.
  destruct Hi' as [-> | ->]; rewrite get_concat_tab by (done || lia); get_cells; rewrite eqm_mod; [|exact H1].
  by rewrite Nat.add_0_r.
Qed.
Lemma length_pairs (f g : nat -> Z) : length (concat (tab 128 (fun j => [f j; g j]))) = 256%nat.
Proof. by apply (length_concat_tab 128 2). Qed.

Lemma near_trans B r p p' : near KQ B r p -> length p' = 256%nat ->
  (forall i, (i < 256)%nat -> eqm KQ p.[i] p'.[i]) -> near KQ B r p'.
Proof.
  intros (Hl & Hp & H) Hl' H'. split; [done|]. split; [done|]. intros i Hi. destruct (H i Hi) as [R E]. split; [done|].
  by rewrite E, H'.
Qed.

Lemma ntt_ok r p : near KQ 9471 r p -> near KQ 1664 (k_ntt r) (Alg.NTT p).
Proof.
  intros H. eapply near_trans; [apply (k_ntt_near 9471); [lia|lia|exact H]|apply length_pairs|].
  destruct H as (_ & Hp & _). intros i Hi. rewrite <- (Z.mul_1_l (Alg.NTT p).[i]).
  apply (pairs_eqm 1 (fun j => fst (Fips203.modX2 (Fips203.gamma j) p)) (fun j => snd (Fips203.modX2 (Fips203.gamma j) p))); [|done].
  intros j Hj. destruct (fwds_residues p j Hp Hj) as [E0 E1]. by rewrite !Z.mul_1_l.
Qed.

Lemma multiply_ok a b f g : near KQ 4095 a f -> near KQ 3328 b g ->
  near KQ 6656 (k_poly_mul a b) (map (Z.mul 169) (Alg.MultiplyNTTs f g)).
Proof.
  intros Ha Hb. pose proof (small_get 4095 a ltac:(lia) (near_small _ _ _ Ha)) as Ga.
  pose proof (small_get 3328 b ltac:(lia) (near_small _ _ _ Hb)) as Gb.
  destruct Ha as (La & Lf & Ha), Hb as (Lb & Lg & Hb).
  destruct (k_poly_mul_spec a b La Lb Ga Gb) as [Hl Hp].
  split; [done|]. split; [rewrite length_map; apply length_pairs|]. intros i Hi.
  rewrite get_map_mul by (unfold Alg.MultiplyNTTs; rewrite length_pairs; lia). split.
  - destruct (Hp (i / 2)%nat ltac:(lia)) as (_ & _ & R0 & R1).
    assert (Hi' : (i = 2 * (i / 2) \/ i = 2 * (i / 2) + 1)%nat) by lia. by destruct Hi' as [-> | ->].
  - apply (pairs_eqm 169 (fun j => fst (Fips203.mulX2 (Fips203.gamma j) (f.[2 * j], f.[2 * j + 1]) (g.[2 * j], g.[2 * j + 1])))
      (fun j => snd (Fips203.mulX2 (Fips203.gamma j) (f.[2 * j], f.[2 * j + 1]) (g.[2 * j], g.[2 * j + 1])))); [|done].
    intros j Hj. destruct (Hp j Hj) as (E0 & E1 & _). rewrite E0, E1.
    destruct (mulX2_eqm (Fips203.gamma j) (a.[2 * j], a.[2 * j + 1]) (b.[2 * j], b.[2 * j + 1])
      (f.[2 * j], f.[2 * j + 1]) (g.[2 * j], g.[2 * j + 1])) as [M0 M1];
      [apply Ha; lia|apply Ha; lia|apply Hb; lia|apply Hb; lia|]. by rewrite M0, M1.
Qed.

Lemma add_ok B B' a b f g : B + B' <= 32767 -> near KQ B a f -> near KQ B' b g ->
  near KQ (B + B') (k_poly_add a b) (Alg.add f g).
Proof.
  intros HB (La & Lf & Ha) (Lb & Lg & Hb). split; [apply length_tab|]. split; [apply length_tab|]. intros i Hi.
  unfold k_poly_add, Alg.add. rewrite !get_tab by done. destruct (Ha i Hi) as [Ra Ea]. destruct (Hb i Hi) as [Rb Eb].
  rewrite i16_id by lia. split; [lia|]. change Alg.q with KQ. by rewrite eqm_mod, Ea, Eb.
Qed.
Lemma sub_ok B B' a b f g : B + B' <= 32767 -> near KQ B a f -> near KQ B' b g ->
  near KQ (B + B') (k_poly_sub a b) (Alg.sub f g).
Proof.
  intros HB (La & Lf & Ha) (Lb & Lg & Hb). split; [apply length_tab|]. split; [apply length_tab|]. intros i Hi.
  unfold k_poly_sub, Alg.sub. rewrite !get_tab by done. destruct (Ha i Hi) as [Ra Ea]. destruct (Hb i Hi) as [Rb Eb].
  rewrite i16_id by lia. split; [lia|]. change Alg.q with KQ. by rewrite eqm_mod, Ea, Eb.
Qed.
Lemma reduce_ok B r p : B <= 32767 -> near KQ B r p -> near KQ 1664 (k_poly_reduce r) p.
Proof. apply k_barrett_near. Qed.

(** The accumulated product of two vectors. *)
Lemma dot_ok (a s : list poly) u v :
  (forall j, (j < 3)%nat -> near KQ 4095 (row [] a j) (u j)) -> (forall j, (j < 3)%nat -> near KQ 3328 (row [] s j) (v j)) ->
  near KQ 19968 (k_dot a s) (map (Z.mul 169) (Alg.dot u v)).
Proof.
  intros Ha Hs. unfold k_dot, for_, KK. cbn [foldl seq Nat.sub].
  pose proof (multiply_ok _ _ _ _ (Ha 0%nat ltac:(lia)) (Hs 0%nat ltac:(lia))) as H0.
  pose proof (multiply_ok _ _ _ _ (Ha 1%nat ltac:(lia)) (Hs 1%nat ltac:(lia))) as H1.
  pose proof (multiply_ok _ _ _ _ (Ha 2%nat ltac:(lia)) (Hs 2%nat ltac:(lia))) as H2.
  assert (HZ : near KQ 0 zero_poly zero_poly) by (apply near_refl; [done|]; intros i _; unfold zero_poly; rewrite get_zeros; lia).
  eapply near_trans; [apply (add_ok 13312 6656); [lia|apply (add_ok 6656 6656); [lia|apply (add_ok 0 6656); [lia|exact HZ|exact H0]|exact H1]|exact H2]| |].
  - rewrite length_map. apply length_tab.
  - intros i Hi. unfold Alg.add. rewrite !get_tab by done. change Alg.q with KQ. unfold zero_poly. rewrite get_zeros.
    rewrite !get_map_mul by (unfold Alg.MultiplyNTTs, Alg.dot; rewrite ?length_pairs, ?length_tab; lia).
    unfold Alg.dot. rewrite get_tab by done. cbn [Alg.sum]. change Alg.q with KQ. rewrite !eqm_mod. unfold eqm. f_equal. ring.
Qed.

Lemma invntt_ok r F : near KQ 16383 r (map (Z.mul 169) F) -> near KQ 3328 (k_invntt r) (Alg.NTT_inv F).
Proof.
  intros H. pose proof (k_invntt_near _ _ H) as HI. destruct H as (_ & HF & _). rewrite length_map in HF.
  eapply near_trans; [exact HI|apply length_tab|]. intros i Hi.
  assert (HB : eqv KQ (bwds k_zeta k_lens (map (Z.mul 169) F)) (map (Z.mul 169) (bwds k_zeta k_lens F)))
    by (exact (bwds_eqv KQ k_zeta k_zeta k_lens 169 (map (Z.mul 169) F) F k_lens_good ltac:(by rewrite length_map) (reflexivity _))).
  destruct HB as [_ HB]. rewrite length_bwds, length_map, HF in HB. specialize (HB i Hi).
  rewrite get_map_mul in HB by (rewrite length_bwds; lia).
  rewrite get_map_mul by (rewrite length_bwds, length_map; lia). rewrite HB.
  unfold Alg.NTT_inv. rewrite get_tab by done. change Alg.q with KQ. rewrite eqm_mod, bwds_coeff by done.
  rewrite Z.mul_assoc. change (169 * 1441 * 169) with 41156401. by apply (eqm_mul KQ).
Qed.
(** [k_invntt (k_poly_reduce (k_dot ...))]. *)
Lemma inner_ok (a s : list poly) u v :
  (forall j, (j < 3)%nat -> near KQ 4095 (row [] a j) (u j)) -> (forall j, (j < 3)%nat -> near KQ 3328 (row [] s j) (v j)) ->
  near KQ 3328 (k_invntt (k_poly_reduce (k_dot a s))) (Alg.NTT_inv (Alg.dot u v)).
Proof.
  intros Ha Hs. apply invntt_ok. apply (near_le 1664); [lia|]. apply (reduce_ok 19968); [lia|]. by apply dot_ok.
Qed.

(** The standard's inverse is an inverse: the transform of [NTT_inv F] is
    [F], for every array of 256 reduced entries. *)
Lemma NTT_NTT_inv F : length F = 256%nat -> reduced F -> Alg.NTT (Alg.NTT_inv F) = F.
Proof.
  intros HF Hred. apply array_ext; [rewrite HF; apply length_pairs|]. intros i Hi. unfold Alg.NTT in Hi. rewrite length_pairs in Hi.
  assert (Rn : (Alg.NTT (Alg.NTT_inv F)).[i] mod KQ = (Alg.NTT (Alg.NTT_inv F)).[i]).
  { unfold Alg.NTT. assert (Hi' : (i = 2 * (i / 2) + 0 \/ i = 2 * (i / 2) + 1)%nat) by lia.
    destruct Hi' as [-> | ->]; rewrite get_concat_tab by (done || lia); get_cells; apply Z.mod_mod; unfold Alg.q; lia. }
  rewrite <- Rn, <- Hred. change Alg.q with KQ. symmetry. change (eqm KQ F.[i] (Alg.NTT (Alg.NTT_inv F)).[i]).
  rewrite <- (Z.mul_1_l (Alg.NTT _).[i]).
  apply (pairs_eqm 1 (fun j => fst (Fips203.modX2 (Fips203.gamma j) (Alg.NTT_inv F))) (fun j => snd (Fips203.modX2 (Fips203.gamma j) (Alg.NTT_inv F)))); [|done].
  clear i Hi Rn. intros j Hj. set (P := Alg.NTT_inv F).
  assert (HP : eqv KQ P (map (Z.mul 3303) (bwds k_zeta k_lens F))).
  { split; [unfold P; rewrite length_map, length_bwds, HF; apply length_tab|]. unfold P at 1, Alg.NTT_inv. rewrite length_tab.
    intros i Hi. rewrite get_map_mul by (rewrite length_bwds; lia). unfold P, Alg.NTT_inv. rewrite get_tab by done.
    change Alg.q with KQ. by rewrite eqm_mod, bwds_coeff. }
  destruct (fwds_residues (bwds k_zeta k_lens F) j ltac:(by rewrite length_bwds) Hj) as [E0 E1].
  destruct (fwds_bwds KQ k_zeta k_zeta k_lens F k_lens_good k_inverse_zetas HF) as [_ HW]. rewrite length_fwds, length_bwds, HF in HW.
  pose proof (HW (2 * j)%nat ltac:(lia)) as W0. pose proof (HW (2 * j + 1)%nat ltac:(lia)) as W1.
  rewrite get_map_mul in W0, W1 by lia. change (2 ^ Z.of_nat (length k_lens)) with 128 in *.
  rewrite W0 in E0. rewrite W1 in E1.
  destruct (modX2_lin KQ (Fips203.gamma j) 3303 P (zeros 256) (bwds k_zeta k_lens F)) as [L0 L1];
    [by rewrite (proj1 HP), length_map, length_bwds, HF|by rewrite (proj1 HP), length_map|
     |].
  { destruct HP as [HlP HP]. intros i Hi. rewrite HP by done. rewrite HlP, length_map in Hi. rewrite get_map_mul, get_zeros by done. done. }
  rewrite !Z.mul_1_l, L0, L1, <- E0, <- E1.
  assert (Z0 : forall n y, Fips203.modX2 y (zeros n) = (0, 0)).
  { intros n y. induction n as [|n IH]; [done|]. unfold zeros in *. cbn [repeat Fips203.modX2]. rewrite IH. f_equal. lia. }
  rewrite Z0. cbn [fst snd]. rewrite !Z.add_0_l, !Z.mul_assoc. change (3303 * 128) with 422784.
  split; symmetry; rewrite <- (Z.mul_1_l F.[_]) at 2; by apply (eqm_mul KQ).
Qed.

(** * K-PKE *)

#[local] Opaque Alg.sampled Alg.A Fips202.sponge keccak_absorb_squeeze.

Lemma reduced_NTT p : reduced (Alg.NTT p).
Proof.
  intros i. destruct (Nat.lt_ge_cases i 256) as [Hi|]; [|rewrite get_overflow by (unfold Alg.NTT; by rewrite length_pairs); done].
  unfold Alg.NTT. assert (Hi' : (i = 2 * (i / 2) + 0 \/ i = 2 * (i / 2) + 1)%nat) by lia.
  destruct Hi' as [-> | ->]; rewrite get_concat_tab by (done || lia); get_cells; apply Z.mod_mod; unfold Alg.q; lia.
Qed.

(** A loop of calls of which each returns or is undefined. *)
Lemma run_map_guard {A B} (f : A -> run B) (p : A -> bool) (g : A -> B) l :
  (forall x, In x l -> f x = if p x then Ret (g x) else Undefined) ->
  run_map f l = if forallb p l then Ret (map g l) else Undefined.
Proof.
  induction l as [|x l IH]; intros H; [done|]. cbn [run_map forallb map]. rewrite H by (by left).
  destruct (p x); cbn [run_bind andb]; [|done]. rewrite IH by (intros; apply H; by right). by destruct (forallb p l).
Qed.
Lemma forallb_swap {A} (p : A -> A -> bool) l :
  forallb (fun x => forallb (p x) l) l = forallb (fun x => forallb (fun y => p y x) l) l.
Proof.
  apply eq_true_iff_eq. rewrite !forallb_forall. setoid_rewrite forallb_forall. firstorder.
Qed.

Lemma gen_matrix_ok rho (tr : bool) : bytes rho -> length rho = 32%nat ->
  k_gen_matrix rho tr = if Alg.matrix_sampled rho
    then Ret (tab 3 (fun i => tab 3 (fun j => if tr then Alg.A rho j i else Alg.A rho i j))) else Undefined.
Proof.
  intros Hb Hl. unfold k_gen_matrix. change KK with 3%nat. rewrite slice_all by done.
  rewrite (run_map_guard _ (fun i => forallb (fun j => Alg.sampled (if tr then Alg.index_seed rho j i else Alg.index_seed rho i j)) (seq 0 3))
    (fun i => tab 3 (fun j => if tr then Alg.A rho j i else Alg.A rho i j))).
  - destruct tr; [|reflexivity].
    assert (E : forallb (fun i => forallb (fun j => Alg.sampled (Alg.index_seed rho j i)) (seq 0 3)) (seq 0 3) = Alg.matrix_sampled rho)
      by exact (forallb_swap (fun i j => Alg.sampled (Alg.index_seed rho j i)) (seq 0 3)).
    rewrite E. reflexivity.
  - intros i Hi%in_seq. rewrite (run_map_guard _ (fun j => Alg.sampled (if tr then Alg.index_seed rho j i else Alg.index_seed rho i j))
      (fun j => if tr then Alg.A rho j i else Alg.A rho i j)); [done|].
    intros j Hj%in_seq. destruct tr; apply sample_ntt_ok; (done || lia).
Qed.
Lemma gen_matrix_near rho i j : bytes rho -> Alg.matrix_sampled rho = true -> (i < 3)%nat -> (j < 3)%nat ->
  near KQ 4095 (Alg.A rho i j) (Alg.A rho i j).
Proof.
  intros Hb Hs Hi Hj. apply (near_le 3328); [lia|]. apply A_range; [done|done|done|]. unfold Alg.matrix_sampled in Hs.
  rewrite forallb_forall in Hs. specialize (Hs i ltac:(apply in_seq; lia)). rewrite forallb_forall in Hs.
  apply Hs, in_seq. lia.
Qed.

Lemma noise_ok s n : bytes s -> length s = 32%nat -> (n < 256)%nat ->
  near KQ 2 (k_getnoise_eta1 s (u8 (Z.of_nat n))) (Alg.noise s n).
Proof.
  intros Hb Hl Hn. unfold k_getnoise_eta1, k_prf, Alg.noise, Alg.PRF. rewrite slice_all, u8_id by (done || lia).
  assert (Bs : bytes (s ++ [Z.of_nat n])) by (rewrite bytes_app; split; [done|]; bytes_cells; unfold isbyte; lia).
  rewrite <- shake256_spec by done. apply cbd2_ok; [apply bytes_shake256|apply length_shake256].
Qed.

Lemma k_row_tab {A} n (d : A) (f : nat -> A) i : (i < n)%nat -> row d (tab n f) i = f i.
Proof. apply nth_tab. Qed.

Lemma k_poly_decompress10_ext a b : (forall i, (i < 320)%nat -> a.[i] = b.[i]) -> k_poly_decompress a 10 = k_poly_decompress b 10.
Proof.
  intros H. unfold k_poly_decompress. cbn [Z.eqb Pos.eqb]. f_equal. apply tab_ext. intros i Hi. f_equal.
  unfold k_unpack10. by rewrite !H by lia.
Qed.
Lemma decode12_slice b i n : bytes b -> (384 * i + 384 <= length b)%nat -> n = (i * 384)%nat ->
  near KQ 4095 (k_poly_decode12 (drop n b)) (Alg.ByteDecode 12 (slice (384 * i) 384 b)).
Proof.
  intros Hb Hl ->. rewrite (k_poly_decode12_ext _ (slice (384 * i) 384 b)).
  - apply decode12_ok; [by apply bytes_slice|by apply length_slice].
  - intros j Hj. rewrite get_drop, get_slice by done. f_equal. lia.
Qed.
Lemma decode10_slice b i n : bytes b -> (320 * i + 320 <= length b)%nat -> n = (i * 320)%nat ->
  k_poly_decompress (drop n b) 10 = Alg.Decompress 10 (Alg.ByteDecode 10 (slice (320 * i) 320 b)).
Proof.
  intros Hb Hl ->. rewrite (k_poly_decompress10_ext _ (slice (320 * i) 320 b)).
  - apply decode10_ok; [by apply bytes_slice|by apply length_slice].
  - intros j Hj. rewrite get_drop, get_slice by done. f_equal. lia.
Qed.
(** Decompressed coefficients are at most [q]. *)
Lemma decompress_near d B : (d = 4 \/ d = 10)%nat ->
  near KQ 3329 (Alg.Decompress (Z.of_nat d) (Alg.ByteDecode d B)) (Alg.Decompress (Z.of_nat d) (Alg.ByteDecode d B)).
Proof.
  intros Hd. unfold Alg.Decompress. apply near_refl; [by rewrite length_map, length_ByteDecode|]. intros i Hi.
  rewrite get_map by (rewrite length_ByteDecode; lia). rewrite get_ByteDecode by done. unfold Fips203.decompress, KQ.
  destruct Hd as [-> | ->]; cbn [Nat.eqb]; generalize (Alg.value (Alg.BytesToBits B) (4 * i) 4), (Alg.value (Alg.BytesToBits B) (10 * i) 10);
    intros x y; [change (Z.of_nat 4) with 4|change (Z.of_nat 10) with 10].
  - change (2 ^ (4 + 1)) with 32. change (2 ^ 4) with 16. lia.
  - change (2 ^ (10 + 1)) with 2048. change (2 ^ 10) with 1024. lia.
Qed.

Lemma kpke_encrypt_ok pk m r : bytes pk -> length pk = 1184%nat -> bytes m -> length m = 32%nat -> bytes r -> length r = 32%nat ->
  kpke_encrypt pk m r = if Alg.matrix_sampled (slice 1152 32 pk) then Ret (Alg.Encrypt_PKE pk m r) else Undefined.
Proof.
  intros Hpk Lpk Hm Lm Hr Lr. unfold kpke_encrypt, k_pk_frombytes. change (KK * 384)%nat with 1152%nat.
  set (rho := slice 1152 32 pk). assert (Hrho : bytes rho) by (by apply bytes_slice).
  assert (Lrho : length rho = 32%nat) by (apply length_slice; lia).
  rewrite gen_matrix_ok by done. destruct (Alg.matrix_sampled rho) eqn:Es; cbn [run_bind]; [|done].
  apply (f_equal Ret). unfold Alg.Encrypt_PKE. fold rho. change KK with 3%nat. rewrite !map_tab. unfold k_getnoise_eta2.
  set (y := fun i => Alg.NTT (Alg.noise r i)).
  assert (Hy : forall j, (j < 3)%nat -> near KQ 3328 (row [] (tab 3 (fun i => k_ntt (k_getnoise_eta1 r (u8 (Z.of_nat i))))) j) (y j)).
  { intros j Hj. rewrite k_row_tab by done. apply (near_le 1664); [lia|]. apply ntt_ok, (near_le 2); [lia|]. apply noise_ok; (done || lia). }
  apply (f_equal2 (@app Z)).
  - apply (f_equal (@concat Z)). apply tab_ext. intros i Hi. apply encode10_ok; [|apply reduced_add].
    rewrite (k_row_tab 3 [] (fun i => k_getnoise_eta1 r _)) by done. apply (reduce_ok 3330); [lia|]. apply (add_ok 3328 2); [lia| |apply noise_ok; (done || lia)].
    apply inner_ok; [|exact Hy]. intros j Hj. rewrite !k_row_tab by done. by apply gen_matrix_near.
  - apply encode4_ok; [|apply reduced_add]. apply (reduce_ok 4995); [lia|]. apply (add_ok 3330 1665); [lia| |by apply frommsg_ok].
    apply (add_ok 3328 2); [lia| |apply (noise_ok r 6); (done || lia)].
    apply inner_ok; [|exact Hy]. intros j Hj. rewrite k_row_tab by done. apply decode12_slice; [done|lia|done].
Qed.

Lemma kpke_decrypt_ok dk c : bytes dk -> length dk = 1152%nat -> bytes c -> length c = 1088%nat ->
  kpke_decrypt dk c = Alg.Decrypt_PKE dk c.
Proof.
  intros Hdk Ldk Hc Lc. unfold kpke_decrypt, Alg.Decrypt_PKE, k_poly_tomsg, k_sk_frombytes. change KK with 3%nat. rewrite map_tab.
  apply encode1_ok; [|apply reduced_sub]. apply (reduce_ok 6657); [lia|].
  apply (sub_ok 3329 3328); [lia| |].
  - change KDV with 4. change (3 * 320)%nat with 960%nat.
    replace (drop 960 c) with (slice 960 128 c) by (unfold slice; apply take_ge; rewrite length_drop; lia).
    rewrite decode4_ok; [apply (decompress_near 4); auto|by apply bytes_slice|apply length_slice; lia].
  - apply (inner_ok _ _ (fun i => Alg.ByteDecode 12 (slice (384 * i) 384 dk))
      (fun i => Alg.NTT (Alg.Decompress 10 (Alg.ByteDecode 10 (slice (320 * i) 320 c))))).
    + intros j Hj. rewrite k_row_tab by done. apply decode12_slice; [done|lia|lia].
    + intros j Hj. rewrite k_row_tab by done. apply (near_le 1664); [lia|]. apply ntt_ok, (near_le 3329); [lia|].
      change KDU with 10. rewrite (decode10_slice c j) by (done || lia). apply (decompress_near 10). auto.
Qed.

Lemma tomont_ok r F : near KQ 1664 r (map (Z.mul 169) F) -> near KQ 3328 (k_poly_tomont r) F.
Proof.
  intros (Hl & HF & H). rewrite length_map in HF. split; [apply length_tab|]. split; [done|]. intros i Hi.
  unfold k_poly_tomont. change (i16 (2 ^ 32 mod KQ)) with 1353. rewrite get_tab by done.
  destruct (H i Hi) as [R E]. rewrite get_map_mul in E by lia.
  destruct (k_montgomery_eqm (r.[i] * 1353)) as [M RM]; [unfold KQ; lia|]. split; [exact RM|]. rewrite M, E.
  replace (169 * (169 * F.[i] * 1353)) with (38643033 * F.[i]) by ring. rewrite <- (Z.mul_1_l F.[i]) at 2. by apply (eqm_mul KQ).
Qed.

Lemma kpke_keygen_ok d : bytes d -> length d = 32%nat ->
  kpke_keygen d = if Alg.matrix_sampled (slice 1152 32 (fst (Alg.KeyGen_PKE d))) then Ret (Alg.KeyGen_PKE d) else Undefined.
Proof.
  intros Hd Ld. unfold kpke_keygen. rewrite (slice_all 32 d) by done. change (u8 (Z.of_nat KK)) with 3.
  assert (Bd : bytes (d ++ [3])) by (rewrite bytes_app; split; [done|]; bytes_cells; unfold isbyte; lia).
  assert (Lg : length (oo_sha3_512_bytes (d ++ [3])) = 64%nat) by apply length_sha3_512.
  assert (Bg : bytes (oo_sha3_512_bytes (d ++ [3]))) by apply bytes_sha3_512.
  unfold Alg.KeyGen_PKE. pose proof (sha3_512_spec _ Bd) as E. rewrite E in Lg, Bg |- *. clear E. cbv zeta. cbn [fst].
  set (g := Alg.G (d ++ [3])) in *. clearbody g.
  set (rho := slice 0 32 g). set (sigma := slice 32 32 g).
  assert (Hrho : bytes rho) by (by apply bytes_slice). assert (Lrho : length rho = 32%nat) by (apply length_slice; lia).
  assert (Hsig : bytes sigma) by (by apply bytes_slice). assert (Lsig : length sigma = 32%nat) by (apply length_slice; lia).
  clearbody rho sigma. rewrite gen_matrix_ok by done.
  set (s := fun i => Alg.NTT (Alg.noise sigma i)).
  assert (Es : forall t : nat -> list Z, slice 1152 32 (concat (tab 3 (fun i => Alg.ByteEncode 12 (t i))) ++ rho) = rho).
  { intros t. rewrite <- (app_nil_r rho) at 1. apply slice_app_exact; [|done].
    apply (length_concat_tab 3 384). intros. apply length_ByteEncode. }
  rewrite Es. destruct (Alg.matrix_sampled rho) eqn:Em; cbn [run_bind]; [|done].
  apply (f_equal Ret). change KK with 3%nat. rewrite !map_tab.
  assert (Hs : forall j, (j < 3)%nat -> near KQ 1664 (k_poly_reduce (k_ntt (k_getnoise_eta1 sigma (u8 (Z.of_nat j))))) (s j)).
  { intros j Hj. apply (reduce_ok 1664); [lia|]. apply ntt_ok, (near_le 2); [lia|]. apply noise_ok; (done || lia). }
  apply (f_equal2 pair).
  - apply (f_equal (fun x => x ++ rho)), (f_equal (@concat Z)). apply tab_ext. intros i Hi.
    apply encode12_ok; [|apply reduced_add]. apply (reduce_ok 4992); [lia|]. apply (add_ok 3328 1664); [lia| |].
    + apply tomont_ok, (reduce_ok 19968); [lia|]. apply dot_ok.
      * intros j Hj. rewrite !k_row_tab by done. by apply gen_matrix_near.
      * intros j Hj. rewrite k_row_tab by done. apply (near_le 1664); [lia|]. by apply Hs.
    + rewrite k_row_tab by done. apply ntt_ok, (near_le 2); [lia|]. apply noise_ok; (done || lia).
  - apply (f_equal (@concat Z)). apply tab_ext. intros i Hi. apply encode12_ok; [by apply Hs|apply reduced_NTT].
Qed.

(** * The KEM *)

Lemma bits_range d n F o : 0 <= (Alg.bits d n F).[o] < 2.
Proof.
  assert (H : Forall (fun b => 0 <= b < 2) (Alg.bits d n F)).
  { apply Forall_concat, Forall_tab. intros i _. apply Forall_tab. intros j _. lia. }
  destruct (Nat.lt_ge_cases o (length (Alg.bits d n F))); [|rewrite get_overflow by done; lia].
  unfold get. rewrite List.Forall_forall in H. by apply H, nth_In.
Qed.
Lemma bytes_ByteEncode d F : bytes (Alg.ByteEncode d F).
Proof.
  apply bytes_tab. intros i _. unfold Alg.value.
  assert (R : forall n, 0 <= Alg.sum n (fun j => (Alg.bits d 256 (get F)).[8 * i + j] * 2 ^ Z.of_nat j) < 2 ^ Z.of_nat n).
  { induction n as [|n IH]; [cbn; lia|]. cbn [Alg.sum]. rewrite Nat2Z.inj_succ, Z.pow_succ_r by lia.
    pose proof (bits_range d 256 (get F) (8 * i + n)). nia. }
  exact (R 8%nat).
Qed.

Lemma slice_drop {A} n m (l : list A) : (length l <= n + m)%nat -> slice n m l = drop n l.
Proof. intros H. unfold slice. apply take_ge. rewrite length_drop. lia. Qed.

Lemma kpke_keygen_take s : kpke_keygen s = kpke_keygen (slice 0 32 s).
Proof. unfold kpke_keygen. unfold slice. by rewrite !drop_0, take_take. Qed.
Lemma KeyGen_PKE_bytes d : bytes d -> length d = 32%nat -> bytes (fst (Alg.KeyGen_PKE d)).
Proof.
  intros Hd Ld. unfold Alg.KeyGen_PKE. cbv zeta. cbn [fst]. rewrite bytes_app. split.
  - apply Forall_concat, Forall_tab. intros i _. apply bytes_ByteEncode.
  - apply bytes_slice. rewrite <- sha3_512_spec; [apply bytes_sha3_512|].
    rewrite bytes_app. split; [done|]. bytes_cells; unfold isbyte; lia.
Qed.

(** [kem_kr] and the two halves of its 64 bytes. *)
Lemma kem_kr_ok m h : bytes m -> length m = 32%nat -> bytes h ->
  kem_kr m h = Alg.G (m ++ h) /\ bytes (Alg.G (m ++ h)) /\ length (Alg.G (m ++ h)) = 64%nat.
Proof.
  intros Hm Lm Hh. unfold kem_kr. rewrite slice_all by done.
  assert (Hb : bytes (m ++ h)) by by rewrite bytes_app. rewrite <- (sha3_512_spec _ Hb).
  split; [done|]. split; [apply bytes_sha3_512|apply length_sha3_512].
Qed.

Lemma keygen_ok s : bytes s -> length s = 64%nat ->
  (let* keys := kpke_keygen s in
   let '(pk, skc) := keys in
   let h := oo_sha3_256_bytes pk in
   let sk := skc ++ pk ++ h ++ slice 32 32 s in
   Ret (k_pqc_hex_out_cat pk 1184 sk 2400)) =
  let k := Alg.KeyGen (slice 0 32 s) (slice 32 32 s) in
  if Alg.matrix_sampled (slice 1152 32 (fst k)) then Ret (k_pqc_hex_out_cat (fst k) 1184 (snd k) 2400) else Undefined.
Proof.
  intros Hs Ls. rewrite kpke_keygen_take. unfold Alg.KeyGen.
  rewrite kpke_keygen_ok by (try apply bytes_slice; try apply length_slice; (done || lia)).
  pose proof (KeyGen_PKE_bytes (slice 0 32 s) ltac:(by apply bytes_slice) ltac:(apply length_slice; lia)) as Bk.
  destruct (Alg.KeyGen_PKE (slice 0 32 s)) as [pk skc]. cbn [fst snd] in *.
  destruct (Alg.matrix_sampled (slice 1152 32 pk)); cbn [run_bind]; [|done]. by rewrite sha3_256_spec.
Qed.

Lemma encaps_ok e m : bytes e -> length e = 1184%nat -> bytes m -> length m = 32%nat ->
  (let kr := kem_kr m (oo_sha3_256_bytes e) in
   let* ct := kpke_encrypt e m (drop 32 kr) in Ret (k_pqc_hex_out_cat ct 1088 kr 32)) =
  let k := Alg.Encaps e m in
  if Alg.matrix_sampled (slice 1152 32 e) then Ret (k_pqc_hex_out_cat (snd k) 1088 (fst k) 32) else Undefined.
Proof.
  intros He Le Hm Lm. cbv zeta. unfold Alg.Encaps.
  destruct (kem_kr_ok m (oo_sha3_256_bytes e) Hm Lm (bytes_sha3_256 e)) as (-> & Bg & Lg).
  rewrite (sha3_256_spec e) in * by done. set (g := Alg.G (m ++ Alg.H e)) in *. clearbody g.
  rewrite <- (slice_drop 32 32 g) by lia.
  rewrite kpke_encrypt_ok by (try apply bytes_slice; try apply length_slice; (done || lia)).
  destruct (Alg.matrix_sampled (slice 1152 32 e)); cbn [run_bind fst snd]; [|done].
  apply (f_equal Ret). unfold k_pqc_hex_out_cat. apply (f_equal str_of), (f_equal2 (@app Z)); [done|]. apply hex_of_ext.
  intros i Hi. by rewrite get_slice.
Qed.

Lemma decaps_ok sk c : bytes sk -> length sk = 2400%nat -> bytes c -> length c = 1088%nat ->
  (let m := kpke_decrypt sk c in
   let kr := kem_kr m (slice (1152 + 1184) 32 sk) in
   let* cmp := kpke_encrypt (slice 1152 1184 sk) m (drop 32 kr) in
   Ret (kem_select c cmp kr (oo_shake256 (slice 0 32 (drop (1152 + 1184 + 32) sk) ++ c) 32))) =
  if Alg.matrix_sampled (slice 2304 32 sk) then Ret (Alg.Decaps sk c) else Undefined.
Proof.
  intros Hsk Lsk Hc Lc. cbv zeta. rewrite <- kpke_decrypt_take.
  rewrite kpke_decrypt_ok by (try apply bytes_slice; try apply length_slice; (done || lia)).
  unfold Alg.Decaps. cbv zeta. change (1152 + 1184)%nat with 2336%nat. change (2336 + 32)%nat with 2368%nat.
  assert (Bm : bytes (Alg.Decrypt_PKE (slice 0 1152 sk) c)) by apply bytes_ByteEncode.
  assert (Lm : length (Alg.Decrypt_PKE (slice 0 1152 sk) c) = 32%nat) by apply (length_ByteEncode 1).
  set (m := Alg.Decrypt_PKE (slice 0 1152 sk) c) in *. clearbody m.
  destruct (kem_kr_ok m (slice 2336 32 sk) Bm Lm ltac:(by apply bytes_slice)) as (-> & Bg & Lg).
  set (g := Alg.G (m ++ slice 2336 32 sk)) in *. clearbody g.
  rewrite <- (slice_drop 32 32 g) by lia.
  assert (Le : length (slice 1152 1184 sk) = 1184%nat) by (apply length_slice; lia).
  assert (Be : bytes (slice 1152 1184 sk)) by (by apply bytes_slice).
  rewrite kpke_encrypt_ok by (try apply bytes_slice; try apply length_slice; (done || lia)).
  assert (Er : slice 1152 32 (slice 1152 1184 sk) = slice 2304 32 sk).
  { apply array_ext; [rewrite !length_slice by lia; done|]. rewrite length_slice by lia. intros i Hi.
    rewrite !get_slice by lia. f_equal. }
  pose proof (kpke_encrypt_bytes (slice 1152 1184 sk) m (slice 32 32 g)) as Hct.
  rewrite kpke_encrypt_ok in Hct by (try apply bytes_slice; try apply length_slice; (done || lia)).
  rewrite Er in *. destruct (Alg.matrix_sampled (slice 2304 32 sk)); cbn [run_bind]; [|done].
  destruct (Hct _ eq_refl) as [Bc' Lc']. set (c' := Alg.Encrypt_PKE _ _ _) in *. clearbody c'. clear Hct.
  apply (f_equal Ret). rewrite kem_select_spec; [|done|done|done|done|done|lia|apply bytes_shake256|apply length_shake256].
  assert (S0 : forall l : list Z, take 32 l = slice 0 32 l) by (intros l; unfold slice; by rewrite drop_0).
  rewrite S0. destruct (decide (c = c')); [done|]. unfold Alg.J.
  change (slice 0 32 (drop 2368 sk)) with (take 32 (drop 0 (drop 2368 sk))). rewrite drop_0.
  apply shake256_spec. rewrite bytes_app. split; [apply bytes_take, bytes_drop, Hsk|done].
Qed.

(** C32. The three operations of ML-KEM-768 are those of FIPS 203
    ([Alg.KeyGen], [Alg.Encaps], [Alg.Decaps]: algorithms 16, 17 and 18 over
    13 to 15, with the encodings, the sampling, the transforms, the rounding
    and the hash functions of the standard).  On operands of the right sizes
    (raw bytes or hexadecimal) the key pair, the ciphertext with the key, and
    the decapsulated key are the standard's, in hexadecimal: decapsulation
    gives the shared key when re-encryption reproduces the ciphertext and
    [SHAKE256 (z || c)] otherwise, by a comparison and a choice without
    branches.  Any other operand gives the empty string.  The one difference
    is the sampling of the matrix: where five blocks of the stream do not
    hold 256 coefficients the standard squeezes on and the code reads
    coefficients it never wrote ([Undefined]). *)
Theorem mlkem768_is_fips203 dz ek m dk c : wf_str dz -> wf_str ek -> wf_str m -> wf_str dk -> wf_str c ->
  crypto_mlkem768_keygen_internal dz =
    match k_hex_load dz 64 with
    | Some s => let k := Alg.KeyGen (slice 0 32 s) (slice 32 32 s) in
        if Alg.matrix_sampled (slice 1152 32 (fst k)) then Ret (k_pqc_hex_out_cat (fst k) 1184 (snd k) 2400) else Undefined
    | None => Ret (oo_str_lit "")
    end /\
  crypto_mlkem768_encaps_internal ek m =
    match k_hex_load ek 1184, k_hex_load m 32 with
    | Some e, Some m => let k := Alg.Encaps e m in
        if Alg.matrix_sampled (slice 1152 32 e) then Ret (k_pqc_hex_out_cat (snd k) 1088 (fst k) 32) else Undefined
    | _, _ => Ret (oo_str_lit "")
    end /\
  crypto_mlkem768_decaps_internal dk c =
    match k_hex_load dk 2400, k_hex_load c 1088 with
    | Some d, Some c =>
        if Alg.matrix_sampled (slice 2304 32 d) then Ret (k_pqc_hex_out (Alg.Decaps d c) 32) else Undefined
    | _, _ => Ret (oo_str_lit "")
    end.
Proof.
  intros Hdz Hek Hm Hdk Hc. split; [|split].
  - unfold crypto_mlkem768_keygen_internal. destruct (k_hex_load dz 64) as [s|] eqn:E; [|done].
    apply k_hex_load_bytes in E as [Bs Ls]; [|done]. by apply keygen_ok.
  - unfold crypto_mlkem768_encaps_internal. destruct (k_hex_load ek 1184) as [e|] eqn:Ee; [|done].
    destruct (k_hex_load m 32) as [t|] eqn:Et; [|done].
    apply k_hex_load_bytes in Ee as [Be Le]; [|done]. apply k_hex_load_bytes in Et as [Bt Lt]; [|done]. by apply encaps_ok.
  - unfold crypto_mlkem768_decaps_internal. destruct (k_hex_load dk 2400) as [d|] eqn:Ed; [|done].
    destruct (k_hex_load c 1088) as [ct|] eqn:Ec; [|done].
    apply k_hex_load_bytes in Ed as [Bd Ld]; [|done]. apply k_hex_load_bytes in Ec as [Bc Lc]; [|done].
    pose proof (decaps_ok d ct Bd Ld Bc Lc) as H. cbv zeta in *.
    destruct (Alg.matrix_sampled (slice 2304 32 d)); destruct (kpke_encrypt _ _ _); cbn [run_bind] in *; congruence.
Qed.
(** The matrix of the all-zero seed is sampled from its 840 bytes. *)
Lemma zero_matrix_sampled : Alg.matrix_sampled (zeros 32) = true.
Proof.
  assert (E : forall i j, (i < 3)%nat -> (j < 3)%nat -> Alg.sampled (Alg.index_seed (zeros 32) i j) =
    (256 <=? length (List.filter (fun d => (d <? Alg.q)%Z) (Alg.candidates (oo_shake128 (Alg.index_seed (zeros 32) i j) 840))))%nat).
  { intros i j Hi Hj. rewrite shake128_spec; [done|]. unfold Alg.index_seed. rewrite bytes_app.
    split; [apply bytes_zeros|]. bytes_cells; unfold isbyte; lia. }
  unfold Alg.matrix_sampled. cbn [seq forallb]. rewrite !E by lia. vm_compute. reflexivity.
Qed.
Lemma mlkem768_is_fips203_witness :
  crypto_mlkem768_keygen_internal (str_of (zeros 64)) =
    (let k := Alg.KeyGen (zeros 32) (zeros 32) in
     if Alg.matrix_sampled (slice 1152 32 (fst k)) then Ret (k_pqc_hex_out_cat (fst k) 1184 (snd k) 2400) else Undefined) /\
  crypto_mlkem768_encaps_internal (str_of (zeros 1184)) (str_of (zeros 32)) =
    Ret (k_pqc_hex_out_cat (snd (Alg.Encaps (zeros 1184) (zeros 32))) 1088 (fst (Alg.Encaps (zeros 1184) (zeros 32))) 32) /\
  crypto_mlkem768_decaps_internal (str_of (zeros 2400)) (str_of (zeros 1088)) =
    Ret (k_pqc_hex_out (Alg.Decaps (zeros 2400) (zeros 1088)) 32).
Proof.
  assert (W : forall n, wf_str (str_of (zeros n))) by (intros; apply wf_str_of, bytes_zeros).
  destruct (mlkem768_is_fips203 (str_of (zeros 64)) (str_of (zeros 1184)) (str_of (zeros 32)) (str_of (zeros 2400)) (str_of (zeros 1088))
    (W 64%nat) (W 1184%nat) (W 32%nat) (W 2400%nat) (W 1088%nat)) as (Hk & He & Hd).
  assert (L64 : k_hex_load (str_of (zeros 64)) 64 = Some (zeros 64)) by reflexivity.
  assert (L1184 : k_hex_load (str_of (zeros 1184)) 1184 = Some (zeros 1184)) by reflexivity.
  assert (L32 : k_hex_load (str_of (zeros 32)) 32 = Some (zeros 32)) by reflexivity.
  assert (L2400 : k_hex_load (str_of (zeros 2400)) 2400 = Some (zeros 2400)) by reflexivity.
  assert (L1088 : k_hex_load (str_of (zeros 1088)) 1088 = Some (zeros 1088)) by reflexivity.
  assert (S0 : slice 0 32 (zeros 64) = zeros 32) by reflexivity. assert (S1 : slice 32 32 (zeros 64) = zeros 32) by reflexivity.
  assert (S2 : slice 1152 32 (zeros 1184) = zeros 32) by reflexivity. assert (S3 : slice 2304 32 (zeros 2400) = zeros 32) by reflexivity.
  rewrite L64, S0, S1 in Hk. rewrite L1184, L32, S2, zero_matrix_sampled in He. rewrite L2400, L1088, S3, zero_matrix_sampled in Hd.
  split; [exact Hk|]. split; [exact He|exact Hd].
Defined.
