(* ===== verification/MlDsa.v ===== *)
(** ML-DSA-65 ([sec/pqc/mldsa/]): field arithmetic, the number-theoretic
    transform, rounding and hints ([mldsa_ntt.c]).

    Coefficients are [int32_t]; every operation is written with its conversion
    back ([i32]), and the bounds below show that none of them wraps, except the
    product in [d_mont_reduce], which is meant to. *)
From S2P Require Import Prelude Str Ntt.
Open Scope Z_scope.

Definition DQ : Z := 8380417.
Definition DK : nat := 6.
Definition DL : nat := 5.
Definition DTAU : nat := 49.
Definition DETA : Z := 4.
Definition DBETA : Z := 196.
Definition DGAMMA1 : Z := 524288.
Definition DGAMMA2 : Z := 261888.
Definition DOMEGA : nat := 55.
Definition DD : Z := 13.
Definition DCTILDE : nat := 48.
Definition DQINV : Z := 58728449.

Definition d_zetas : list Z := [
  0; 25847; (-2608894); (-518909); 237124; (-777960); (-876248); 466468;
  1826347; 2353451; (-359251); (-2091905); 3119733; (-2884855); 3111497; 2680103;
  2725464; 1024112; (-1079900); 3585928; (-549488); (-1119584); 2619752; (-2108549);
  (-2118186); (-3859737); (-1399561); (-3277672); 1757237; (-19422); 4010497; 280005;
  2706023; 95776; 3077325; 3530437; (-1661693); (-3592148); (-2537516); 3915439;
  (-3861115); (-3043716); 3574422; (-2867647); 3539968; (-300467); 2348700; (-539299);
  (-1699267); (-1643818); 3505694; (-3821735); 3507263; (-2140649); (-1600420); 3699596;
  811944; 531354; 954230; 3881043; 3900724; (-2556880); 2071892; (-2797779);
  (-3930395); (-1528703); (-3677745); (-3041255); (-1452451); 3475950; 2176455; (-1585221);
  (-1257611); 1939314; (-4083598); (-1000202); (-3190144); (-3157330); (-3632928); 126922;
  3412210; (-983419); 2147896; 2715295; (-2967645); (-3693493); (-411027); (-2477047);
  (-671102); (-1228525); (-22981); (-1308169); (-381987); 1349076; 1852771; (-1430430);
  (-3343383); 264944; 508951; 3097992; 44288; (-1100098); 904516; 3958618;
  (-3724342); (-8578); 1653064; (-3249728); 2389356; (-210977); 759969; (-1316856);
  189548; (-3553272); 3159746; (-1851402); (-2409325); (-177440); 1315589; 1341330;
  1285669; (-1584928); (-812732); (-1439742); (-3019102); (-3881060); (-3628969); 3839961;
  2091667; 3407706; 2316500; 3817976; (-3342478); 2244091; (-2446433); (-3562462);
  266997; 2434439; (-1235728); 3513181; (-3520352); (-3759364); (-1197226); (-3193378);
  900702; 1859098; 909542; 819034; 495491; (-1613174); (-43260); (-522500);
  (-655327); (-3122442); 2031748; 3207046; (-3556995); (-525098); (-768622); (-3595838);
  342297; 286988; (-2437823); 4108315; 3437287; (-3342277); 1735879; 203044;
  2842341; 2691481; (-2590150); 1265009; 4055324; 1247620; 2486353; 1595974;
  (-3767016); 1250494; 2635921; (-3548272); (-2994039); 1869119; 1903435; (-1050970);
  (-1333058); 1237275; (-3318210); (-1430225); (-451100); 1312455; 3306115; (-1962642);
  (-1279661); 1917081; (-2546312); (-1374803); 1500165; 777191; 2235880; 3406031;
  (-542412); (-2831860); (-1671176); (-1846953); (-2584293); (-3724270); 594136; (-3776993);
  (-2013608); 2432395; 2454455; (-164721); 1957272; 3369112; 185531; (-1207385);
  (-3183426); 162844; 1616392; 3014001; 810149; 1652634; (-3694233); (-1799107);
  (-3038916); 3523897; 3866901; 269760; 2213111; (-975884); 1717735; 472078;
  (-426683); 1723600; (-1803090); 1910376; (-1667432); (-1104333); (-260646); (-3833893);
  (-2939036); (-2235985); (-420899); (-2286327); 183443; (-976891); 1612842; (-3545687);
  (-554416); 3919660; (-48306); (-1362209); 3937738; 1400424; (-846154); 1976782].

(** * Field arithmetic *)

Definition d_mont_reduce (a : Z) : Z :=
  let t := i32 (i32 a * DQINV) in
  i32 (Z.shiftr (i64 (a - t * DQ)) 32).
Definition d_reduce32 (a : Z) : Z :=
  let t := Z.shiftr (i32 (a + Z.shiftl 1 22)) 23 in
  i32 (a - i32 (t * DQ)).
Definition d_caddq (a : Z) : Z := i32 (a + Z.land (Z.shiftr a 31) DQ).

(** * The transforms

    The loop over [start] of one level: [n] blocks of [2 * len] cells; the
    state is the array and [k]. *)
Definition d_ntt_level (len : nat) (ak : list Z * nat) : list Z * nat :=
  for_ 0 (256 / (2 * len)) (fun b '(a, k) =>
    let start := (b * (2 * len))%nat in
    let k := S k in
    let zeta := d_zetas.[k] in
    (for_ start (start + len) (fun j a =>
       let t := d_mont_reduce (zeta * a.[j + len]) in
       let a := a.[j + len <- i32 (a.[j] - t)] in
       a.[j <- i32 (a.[j] + t)]) a, k)) ak.
(** [for (len = 128; len > 0; len >>= 1)]. *)
Definition d_ntt (a : list Z) : list Z :=
  fst (foldl (fun ak len => d_ntt_level len ak) (a, 0%nat) [128; 64; 32; 16; 8; 4; 2; 1]%nat).

Definition d_invntt_level (len : nat) (ak : list Z * nat) : list Z * nat :=
  for_ 0 (256 / (2 * len)) (fun b '(a, k) =>
    let start := (b * (2 * len))%nat in
    let k := (k - 1)%nat in
    let zeta := i32 (- d_zetas.[k]) in
    (for_ start (start + len) (fun j a =>
       let t := a.[j] in
       let a := a.[j <- i32 (t + a.[j + len])] in
       let a := a.[j + len <- i32 (t - a.[j + len])] in
       a.[j + len <- d_mont_reduce (zeta * a.[j + len])]) a, k)) ak.
Definition d_invntt (a : list Z) : list Z :=
  let '(a, _) := foldl (fun ak len => d_invntt_level len ak) (a, 256%nat) [1; 2; 4; 8; 16; 32; 64; 128]%nat in
  tab 256 (fun j => d_mont_reduce (41978 * a.[j])).

(** * Polynomials *)

Definition d_poly_reduce (a : list Z) : list Z := tab 256 (fun i => d_reduce32 a.[i]).
Definition d_poly_caddq (a : list Z) : list Z := tab 256 (fun i => d_caddq a.[i]).
Definition d_poly_add (a b : list Z) : list Z := tab 256 (fun i => i32 (a.[i] + b.[i])).
Definition d_poly_sub (a b : list Z) : list Z := tab 256 (fun i => i32 (a.[i] - b.[i])).
Definition d_poly_shiftl (a : list Z) : list Z := tab 256 (fun i => i32 (Z.shiftl a.[i] DD)).
Definition d_poly_pointwise (a b : list Z) : list Z := tab 256 (fun i => d_mont_reduce (a.[i] * b.[i])).

(** * Rounding and hints

    The two results are [(a1, a0)]. *)
Definition d_power2round (a : Z) : Z * Z :=
  let a1 := Z.shiftr (i32 (i32 (a + Z.shiftl 1 (DD - 1)) - 1)) DD in
  (a1, i32 (a - i32 (Z.shiftl a1 DD))).
Definition d_decompose (a : Z) : Z * Z :=
  let a1 := Z.shiftr (i32 (a + 127)) 7 in
  let a1 := Z.shiftr (i32 (i32 (a1 * 1025) + Z.shiftl 1 21)) 22 in
  let a1 := Z.land a1 15 in
  let a0 := i32 (a - i32 (i32 (a1 * 2) * DGAMMA2)) in
  (a1, i32 (a0 - Z.land (Z.shiftr (i32 ((DQ - 1) / 2 - a0)) 31) DQ)).
Definition d_make_hint (a0 a1 : Z) : Z :=
  let sum := u32 (i32 (a0 + DGAMMA2)) in
  let eq_neg := u32 (1 - Z.shiftr (Z.lor sum (u32 (0 - sum))) 31) in
  let a1_nz := Z.shiftr (Z.lor (u32 a1) (u32 (i32 (- a1)))) 31 in
  let gt := Z.land (Z.shiftr (u32 (i32 (DGAMMA2 - a0))) 31) 1 in
  let lt := Z.land (Z.shiftr (u32 (i32 (a0 + DGAMMA2))) 31) 1 in
  Z.land (Z.lor (Z.lor gt lt) (Z.land eq_neg a1_nz)) 1.
Definition d_use_hint (a hint : Z) : Z :=
  let '(a1, a0) := d_decompose a in
  let hbit := Z.land hint 1 in
  let hmask := u32 (0 - hbit) in
  let a0_pos := Z.land (u32 (0 - Z.shiftr (u32 (i32 (a0 - 1))) 31)) 1 in
  let a0_mask := u32 (0 - a0_pos) in
  let v_pos := Z.land (i32 (a1 + 1)) 15 in
  let v_neg := u32 (Z.land (i32 (a1 - 1)) 15) in
  let sel_step := Z.lor (Z.land a0_mask v_pos) (Z.land (u32 (Z.lnot a0_mask)) v_neg) in
  let sel := Z.lor (Z.land hmask sel_step) (Z.land (u32 (Z.lnot hmask)) (u32 a1)) in
  i32 (Z.land sel 15).

Definition d_chknorm (a : list Z) (B : Z) : bool :=
  if (DQ - 1) / 8 <? B then true
  else existsb (fun i =>
    let t := Z.shiftr a.[i] 31 in
    let t := i32 (a.[i] - Z.land t (i32 (2 * a.[i]))) in
    B <=? t) (seq 0 256).

(** * Field arithmetic: what the reductions compute *)

Lemma i32_cong a : exists k, i32 a = a + k * 4294967296.
Proof. destruct (i32_eqm a) as (k & E & _). by exists k. Qed.
Lemma i32_range a : -2147483648 <= i32 a < 2147483648.
Proof. by destruct (i32_eqm a) as (_ & _ & H). Qed.

(** [2^-32] modulo [q]. *)
Definition RINV : Z := 8265825.

(** Montgomery reduction divides by [2^32] modulo [q]. *)
Lemma d_mont_spec a : - (2147483648 * DQ) <= a <= 2147483647 * DQ ->
  eqm DQ (d_mont_reduce a) (RINV * a) /\ -8380416 <= d_mont_reduce a <= 8380416 /\
  exists t, d_mont_reduce a * 4294967296 = a - t * DQ /\ -2147483648 <= t < 2147483648.
Proof.
  unfold DQ, RINV. intros Ha. unfold d_mont_reduce, DQ, DQINV.
  destruct (i32_cong a) as [k1 E1]. destruct (i32_cong (i32 a * 58728449)) as [k2 E2].
  pose proof (i32_range (i32 a * 58728449)) as Ht. set (t := i32 (i32 a * 58728449)) in *.
  assert (Hdiv : a - t * 8380417 = 4294967296 * (- 114592 * a - k1 * 58728449 * 8380417 - k2 * 8380417)) by (rewrite E2, E1; lia).
  rewrite i64_id by lia. rewrite Z.shiftr_div_pow2 by lia. change (2 ^ 32) with 4294967296.
  rewrite Hdiv. set (m := - 114592 * a - k1 * 58728449 * 8380417 - k2 * 8380417) in *. clearbody m t.
  replace (4294967296 * m / 4294967296) with m by lia. rewrite i32_id by lia.
  split; [|split; [lia|exists t; lia]]. apply (eqm_mult _ _ _ (- 4236238847 * m - 8265825 * t)). lia.
Qed.

Lemma d_reduce32_spec a : -2147483648 <= a < 2143289344 ->
  eqm DQ (d_reduce32 a) a /\ -6291200 <= d_reduce32 a <= 6291200.
Proof.
  intros Ha. unfold d_reduce32. change (Z.shiftl 1 22) with 4194304. rewrite (i32_id (a + _)) by lia.
  rewrite Z.shiftr_div_pow2 by lia. change (2 ^ 23) with 8388608. unfold DQ.
  set (t := (a + 4194304) / 8388608). assert (Ht : -256 <= t <= 255 /\ t * 8388608 <= a + 4194304 < t * 8388608 + 8388608) by (unfold t; lia).
  clearbody t. rewrite (i32_id (t * _)), i32_id by lia. split; [|lia]. apply (eqm_mult _ _ _ (- t)). lia.
Qed.
(** Small values stay as they are. *)
Lemma d_reduce32_small a : -4194304 <= a < 4194304 -> d_reduce32 a = a.
Proof.
  intros Ha. unfold d_reduce32. change (Z.shiftl 1 22) with 4194304. rewrite (i32_id (a + _)) by lia.
  rewrite Z.shiftr_div_pow2 by lia. change (2 ^ 23) with 8388608. replace ((a + 4194304) / 8388608) with 0 by lia.
  change (i32 (0 * DQ)) with 0. rewrite i32_id; lia.
Qed.

Lemma shiftr31 a : -2147483648 <= a < 2147483648 -> Z.shiftr a 31 = if a <? 0 then -1 else 0.
Proof. intros Ha. rewrite Z.shiftr_div_pow2 by lia. change (2 ^ 31) with 2147483648. destruct (Z.ltb_spec a 0); lia. Qed.
Lemma d_caddq_spec a : -8380417 <= a < 2147483648 - 8380417 -> d_caddq a = if a <? 0 then a + DQ else a.
Proof.
  intros Ha. unfold d_caddq. rewrite shiftr31 by lia. destruct (a <? 0).
  - rewrite Z.land_m1_l. unfold DQ. apply i32_id. lia.
  - rewrite Z.land_0_l. rewrite i32_id; lia.
Qed.
Lemma d_caddq_mod a : - DQ <= a < DQ -> d_caddq a = a mod DQ.
Proof. unfold DQ. intros Ha. rewrite d_caddq_spec by lia. unfold DQ. destruct (Z.ltb_spec a 0); lia. Qed.

Lemma d_zetas_range k : -4190208 <= d_zetas.[k] <= 4190208.
Proof.
  assert (H : forallb (fun x => (-4190208 <=? x) && (x <=? 4190208)) d_zetas = true) by reflexivity.
  destruct (Nat.lt_ge_cases k (length d_zetas)) as [Hk|Hk]; [|rewrite get_overflow by done; lia].
  rewrite forallb_forall in H. specialize (H d_zetas.[k]). unfold get in *. specialize (H (nth_In _ _ Hk)). lia.
Qed.

(** The zetas in the plain domain. *)
Definition d_zeta (k : nat) : Z := RINV * d_zetas.[k].

Lemma d_zeta_mul k y : -2147483648 <= y <= 2147483647 ->
  eqm DQ (d_mont_reduce (d_zetas.[k] * y)) (d_zeta k * y) /\ -8380416 <= d_mont_reduce (d_zetas.[k] * y) <= 8380416.
Proof.
  intros Hy. pose proof (d_zetas_range k). destruct (d_mont_spec (d_zetas.[k] * y)) as (E & R & _); [unfold DQ; nia|].
  split; [|done]. rewrite E. unfold d_zeta, eqm. f_equal. ring.
Qed.
Lemma d_zeta_neg k y : -2147483648 <= y <= 2147483647 ->
  eqm DQ (d_mont_reduce (i32 (- d_zetas.[k]) * y)) (- d_zeta k * y) /\ -8380416 <= d_mont_reduce (i32 (- d_zetas.[k]) * y) <= 8380416.
Proof.
  intros Hy. pose proof (d_zetas_range k). rewrite i32_id by lia. destruct (d_mont_spec (- d_zetas.[k] * y)) as (E & R & _); [unfold DQ; nia|].
  split; [|done]. rewrite E. unfold d_zeta, eqm. f_equal. ring.
Qed.

(** * The loops as levels *)

Definition ntt_lo (k b : nat) (x y : Z) : Z := i32 (x + d_mont_reduce (d_zetas.[S (k + b)] * y)).
Definition ntt_hi (k b : nat) (x y : Z) : Z := i32 (x - d_mont_reduce (d_zetas.[S (k + b)] * y)).
Definition inv_lo (k b : nat) (x y : Z) : Z := i32 (x + y).
Definition inv_hi (k b : nat) (x y : Z) : Z := d_mont_reduce (i32 (- d_zetas.[(k - b) - 1]) * i32 (x - y)).

Lemma d_ntt_level_spec len n r k : (0 < len)%nat -> (256 / (2 * len) = n)%nat -> length r = (n * (2 * len))%nat ->
  d_ntt_level len (r, k) = (level (ntt_lo k) (ntt_hi k) len r, (k + n)%nat).
Proof.
  intros Hlen Hn Hr. unfold d_ntt_level. rewrite Hn. replace (k + n)%nat with (Nat.iter n S k) by apply iter_S.
  apply (level_loop _ _ _ S); [done|done|].
  intros b s Hb Hs. rewrite iter_S. f_equal. rewrite <- Hs.
  pose proof (block_fits b n len Hb). apply block_loop; [lia|]. intros j s' Hj Hs'. cbv zeta.
  rewrite get_upd_ne by lia. reflexivity.
Qed.
Lemma d_invntt_level_spec len n r k : (0 < len)%nat -> (256 / (2 * len) = n)%nat -> length r = (n * (2 * len))%nat ->
  d_invntt_level len (r, k) = (level (inv_lo k) (inv_hi k) len r, (k - n)%nat).
Proof.
  intros Hlen Hn Hr. unfold d_invntt_level. rewrite Hn. replace (k - n)%nat with (Nat.iter n (fun k => (k - 1)%nat) k) by apply iter_pred.
  apply (level_loop _ _ _ (fun k => (k - 1)%nat)); [done|done|].
  intros b s Hb Hs. rewrite iter_pred. f_equal. rewrite <- Hs.
  pose proof (block_fits b n len Hb). apply block_loop; [lia|]. intros j s' Hj Hs'. cbv zeta.
  rewrite (get_upd_ne _ j (j + len)), get_upd_eq by (rewrite ?length_upd; lia).
  unfold upd. rewrite list_insert_insert_eq. rewrite list_insert_insert_ne by lia. reflexivity.
Qed.

#[local] Abbreviation near := (Ntt.near DQ).
Definition d_lens : list nat := [128; 64; 32; 16; 8; 4; 2; 1]%nat.
Lemma d_lens_good : Forall good_len d_lens.
Proof. repeat constructor. Qed.

Lemma d_ntt_level_near B len n r p : good_len len -> (256 / (2 * len) = n)%nat -> (128 / len = n)%nat ->
  near B r p -> 0 <= B -> B + 8380416 <= 2147483647 ->
  exists r', d_ntt_level len (r, n - 1)%nat = (r', n + n - 1)%nat /\ near (B + 8380416) r' (fwd d_zeta len p).
Proof.
  intros [Hlen Hg] Hn Hn' (Hr & Hp & H) HB0 HB. rewrite Hn' in Hg.
  rewrite (d_ntt_level_spec len n) by lia. eexists. split; [f_equal; lia|].
  split; [by rewrite length_level|]. split; [unfold fwd; by rewrite length_level|].
  unfold fwd. rewrite Hn', <- Hr. apply (level_rel (fun x y => - B <= x <= B /\ eqm DQ x y)
    (fun x y => - (B + 8380416) <= x <= B + 8380416 /\ eqm DQ x y) _ _ _ _ len n);
    [done|lia|lia|by rewrite Hr|].
  intros b x y x' y' Hb [Rx Ex] [Ry Ey]. unfold ntt_lo, ntt_hi. replace (S (n - 1 + b)) with (n + b)%nat by lia.
  destruct (d_zeta_mul (n + b) y) as [E R]; [lia|].
  rewrite !i32_id by lia. repeat split; try lia; by rewrite E, Ex, Ey.
Qed.

Lemma d_invntt_level_near B len n r p : good_len len -> (256 / (2 * len) = n)%nat -> (128 / len = n)%nat ->
  near B r p -> 8380416 <= 2 * B <= 2147483647 ->
  exists r', d_invntt_level len (r, 2 * n)%nat = (r', 2 * n - n)%nat /\ near (2 * B) r' (bwd d_zeta len p).
Proof.
  intros [Hlen Hg] Hn Hn' (Hr & Hp & H) HB. rewrite Hn' in Hg.
  rewrite (d_invntt_level_spec len n) by lia. eexists. split; [reflexivity|].
  split; [by rewrite length_level|]. split; [unfold bwd; by rewrite length_level|].
  unfold bwd. rewrite Hn', <- Hr. apply (level_rel (fun x y => - B <= x <= B /\ eqm DQ x y)
    (fun x y => - (2 * B) <= x <= 2 * B /\ eqm DQ x y) _ _ _ _ len n);
    [done|lia|lia|by rewrite Hr|].
  intros b x y x' y' Hb [Rx Ex] [Ry Ey]. unfold inv_lo, inv_hi. replace (2 * n - b - 1)%nat with (2 * n - 1 - b)%nat by lia.
  rewrite (i32_id (x + y)), (i32_id (x - y)) by lia. destruct (d_zeta_neg (2 * n - 1 - b) (x - y)) as [E2 R2]; [lia|].
  repeat split; try lia.
  - by rewrite Ex, Ey.
  - rewrite E2, Ex, Ey. unfold eqm. f_equal. ring.
Qed.

(** The transform computes the exact one, and no addition wraps, on inputs
    of absolute value up to [2^31 - 1 - 8 (q - 1)]. *)
Lemma d_ntt_near B r p : 0 <= B -> B + 8 * 8380416 <= 2147483647 -> near B r p ->
  near (B + 8 * 8380416) (d_ntt r) (fwds d_zeta d_lens p).
Proof.
  intros HB0 HB H. unfold d_ntt. cbn [foldl].
  destruct (d_ntt_level_near B 128 1 r p) as (r1 & E1 & H1); [repeat constructor|done|done|done|lia|lia|].
  destruct (d_ntt_level_near _ 64 2 _ _ ltac:(repeat constructor) eq_refl eq_refl H1 ltac:(lia) ltac:(lia)) as (r2 & E2 & H2).
  destruct (d_ntt_level_near _ 32 4 _ _ ltac:(repeat constructor) eq_refl eq_refl H2 ltac:(lia) ltac:(lia)) as (r3 & E3 & H3).
  destruct (d_ntt_level_near _ 16 8 _ _ ltac:(repeat constructor) eq_refl eq_refl H3 ltac:(lia) ltac:(lia)) as (r4 & E4 & H4).
  destruct (d_ntt_level_near _ 8 16 _ _ ltac:(repeat constructor) eq_refl eq_refl H4 ltac:(lia) ltac:(lia)) as (r5 & E5 & H5).
  destruct (d_ntt_level_near _ 4 32 _ _ ltac:(repeat constructor) eq_refl eq_refl H5 ltac:(lia) ltac:(lia)) as (r6 & E6 & H6).
  destruct (d_ntt_level_near _ 2 64 _ _ ltac:(repeat constructor) eq_refl eq_refl H6 ltac:(lia) ltac:(lia)) as (r7 & E7 & H7).
  destruct (d_ntt_level_near _ 1 128 _ _ ltac:(repeat constructor) eq_refl eq_refl H7 ltac:(lia) ltac:(lia)) as (r8 & E8 & H8).
  cbn [Nat.add Nat.sub] in *. rewrite E1, E2, E3, E4, E5, E6, E7, E8. cbn [fst]. eapply near_le; [|exact H8]. lia.
Qed.

Lemma d_invntt_near r p : near 8380416 r p ->
  near 4211200 (d_invntt r) (map (Z.mul (RINV * 41978)) (bwds d_zeta d_lens p)).
Proof.
  intros H. unfold d_invntt. cbn [foldl].
  destruct (d_invntt_level_near _ 1 128 r p ltac:(repeat constructor) eq_refl eq_refl H ltac:(lia)) as (r1 & E1 & H1).
  destruct (d_invntt_level_near _ 2 64 _ _ ltac:(repeat constructor) eq_refl eq_refl H1 ltac:(lia)) as (r2 & E2 & H2).
  destruct (d_invntt_level_near _ 4 32 _ _ ltac:(repeat constructor) eq_refl eq_refl H2 ltac:(lia)) as (r3 & E3 & H3).
  destruct (d_invntt_level_near _ 8 16 _ _ ltac:(repeat constructor) eq_refl eq_refl H3 ltac:(lia)) as (r4 & E4 & H4).
  destruct (d_invntt_level_near _ 16 8 _ _ ltac:(repeat constructor) eq_refl eq_refl H4 ltac:(lia)) as (r5 & E5 & H5).
  destruct (d_invntt_level_near _ 32 4 _ _ ltac:(repeat constructor) eq_refl eq_refl H5 ltac:(lia)) as (r6 & E6 & H6).
  destruct (d_invntt_level_near _ 64 2 _ _ ltac:(repeat constructor) eq_refl eq_refl H6 ltac:(lia)) as (r7 & E7 & H7).
  destruct (d_invntt_level_near _ 128 1 _ _ ltac:(repeat constructor) eq_refl eq_refl H7 ltac:(lia)) as (r8 & E8 & H8).
  cbn [Nat.mul Nat.add Nat.sub] in *. rewrite E1, E2, E3, E4, E5, E6, E7, E8.
  change (bwd d_zeta 128 (bwd d_zeta 64 (bwd d_zeta 32 (bwd d_zeta 16 (bwd d_zeta 8 (bwd d_zeta 4 (bwd d_zeta 2 (bwd d_zeta 1 p))))))))
    with (bwds d_zeta d_lens p) in H8.
  destruct H8 as (Hl & Hp & H8). split; [apply length_tab|]. split; [by rewrite length_map|].
  intros i Hi. rewrite get_tab, get_map_mul by lia. destruct (H8 i Hi) as [R E].
  destruct (d_mont_spec (41978 * r8.[i])) as (E' & _ & t & Et & Rt); [unfold DQ; lia|]. unfold DQ in Et. split; [lia|].
  rewrite E', E. unfold eqm. f_equal. ring.
Qed.

(** The inverse transform undoes the transform. *)
Lemma d_inverse_zetas : inverse_zetas DQ d_zeta d_zeta d_lens.
Proof.
  assert (H : forallb (fun len => forallb (fun b =>
    ((d_zeta (128 / len + b) * d_zeta (2 * (128 / len) - 1 - b)) mod DQ =? (-1) mod DQ)) (seq 0 (128 / len))) d_lens = true)
    by (vm_compute; reflexivity).
  intros len b Hlen Hb. rewrite forallb_forall in H. specialize (H len Hlen). rewrite forallb_forall in H.
  specialize (H b ltac:(apply in_seq; lia)). by apply Z.eqb_eq in H.
Qed.

(** * FIPS 204: the ring, the transform, rounding and hints *)
Module Fips204.
(** Bit reversal of eight bits and the roots [1753^(2 BitRev8(j) + 1)]. *)
Definition bitrev8 (j : nat) : nat :=
  fold_left (fun acc i => 2 * acc + (j / 2 ^ i) mod 2)%nat (seq 0 8) 0%nat.
Definition gamma (j : nat) : Z := 1753 ^ (2 * Z.of_nat (bitrev8 j) + 1) mod DQ.
(** The value of a polynomial. *)
Fixpoint eval (y : Z) (l : list Z) : Z := match l with [] => 0 | x :: l => x + y * eval y l end.
(** [Decompose] (algorithm 36) and the hints (algorithms 39 and 40). *)
Definition decompose (r : Z) : Z * Z :=
  let rp := r mod DQ in
  let r0 := let c := rp mod (2 * DGAMMA2) in if c <=? DGAMMA2 then c else c - 2 * DGAMMA2 in
  if rp - r0 =? DQ - 1 then (0, r0 - 1) else ((rp - r0) / (2 * DGAMMA2), r0).
Definition high_bits (r : Z) : Z := fst (decompose r).
Definition make_hint (z r : Z) : Z := if high_bits r =? high_bits (r + z) then 0 else 1.
Definition use_hint (h r : Z) : Z :=
  let m := (DQ - 1) / (2 * DGAMMA2) in
  let '(r1, r0) := decompose r in
  if (h =? 1) && (0 <? r0) then (r1 + 1) mod m else if (h =? 1) && (r0 <=? 0) then (r1 - 1) mod m else r1.
(** [Power2Round] (algorithm 35). *)
Definition power2round (r : Z) : Z * Z :=
  let rp := r mod DQ in
  let r0 := let c := rp mod 2 ^ DD in if c <=? 2 ^ (DD - 1) then c else c - 2 ^ DD in
  ((rp - r0) / 2 ^ DD, r0).
End Fips204.

(** ** The exact transform evaluates at the roots *)

Lemma eval_app y : forall l1 l2 m, length l1 = (1 * m)%nat ->
  Fips204.eval y (l1 ++ l2) = Fips204.eval y l1 + y ^ Z.of_nat m * Fips204.eval y l2.
Proof.
  induction l1 as [|x l1 IH]; intros l2 m Hm; cbn [length app Fips204.eval] in *.
  - replace m with 0%nat by lia. rewrite Z.pow_0_r. lia.
  - destruct m as [|m]; [lia|]. rewrite (IH l2 m) by lia. rewrite Nat2Z.inj_succ, Z.pow_succ_r by lia. ring.
Qed.
Lemma eval_lin q y c : forall l l1 l2, length l1 = length l -> length l2 = length l ->
  (forall i, (i < length l)%nat -> eqm q l.[i] (l1.[i] + c * l2.[i])) ->
  eqm q (Fips204.eval y l) (Fips204.eval y l1 + c * Fips204.eval y l2).
Proof.
  induction l as [|x l IH]; intros [|x1 l1] [|x2 l2] H1 H2 H; try discriminate; cbn [Fips204.eval] in *; [unfold eqm; f_equal; lia|].
  pose proof (H 0%nat ltac:(cbn; lia)) as H0. rewrite !get_cons_0 in H0. rewrite H0.
  rewrite (IH l1 l2) by (cbn in *; try lia; intros i Hi; apply (H (S i)); cbn; lia). unfold eqm. f_equal. ring.
Qed.
Lemma eval_eqv q y l l' : eqv q l l' -> eqm q (Fips204.eval y l) (Fips204.eval y l').
Proof.
  intros [Hl H]. rewrite (eval_lin q y 0 l l' l') by (try done; intros i Hi; rewrite H by done; unfold eqm; f_equal; lia).
  unfold eqm. f_equal. lia.
Qed.

(** The code's zetas are the powers of the roots along every path: the
    powers of 1753 are tabulated, and each zeta of a path squares to the next. *)
Fixpoint pows (n : nat) (x : Z) : list Z := match n with O => [] | S n => x :: pows n (x * 1753 mod DQ) end.
Lemma pows_get n : forall x i, (i < n)%nat -> eqm DQ (pows n x).[i] (x * 1753 ^ Z.of_nat i).
Proof.
  induction n as [|n IH]; intros x i Hi; [lia|]. cbn [pows]. destruct i as [|i].
  - rewrite get_cons_0, Z.pow_0_r. unfold eqm. f_equal. lia.
  - rewrite get_cons_S, IH by lia. rewrite eqm_mod. rewrite Nat2Z.inj_succ, Z.pow_succ_r by lia. unfold eqm. f_equal. ring.
Qed.
Definition path_zeta (j len : nat) : Z :=
  let c := (j / len)%nat in if Nat.even c then d_zeta (128 / len + c / 2) else - d_zeta (128 / len + c / 2).
Definition path_ok (t : list Z) (j : nat) : bool :=
  (t.[2 * Fips204.bitrev8 j + 1] =? path_zeta j 1 mod DQ) &&
  forallb (fun len => (path_zeta j len * path_zeta j len) mod DQ =? path_zeta j (2 * len) mod DQ) [1; 2; 4; 8; 16; 32; 64]%nat.
Lemma paths_checked : forallb (path_ok (pows 512 1)) (seq 0 256) = true.
Proof. vm_compute. reflexivity. Qed.
Lemma bitrev8_lt j : (Fips204.bitrev8 j < 256)%nat.
Proof.
  unfold Fips204.bitrev8. cbn [seq fold_left]. repeat match goal with |- context [(?x mod 2)%nat] => pose proof (Nat.mod_upper_bound x 2 ltac:(lia)); generalize dependent (x mod 2)%nat; intros end. lia.
Qed.
Lemma path_checked j : (j < 256)%nat -> eqm DQ (Fips204.gamma j) (path_zeta j 1) /\
  forall len, In len [1; 2; 4; 8; 16; 32; 64]%nat -> eqm DQ (path_zeta j len * path_zeta j len) (path_zeta j (2 * len)).
Proof.
  intros Hj. assert (Hlt : (2 * Fips204.bitrev8 j + 1 < 512)%nat) by (pose proof (bitrev8_lt j); lia).
  pose proof paths_checked as H. rewrite forallb_forall in H. specialize (H j ltac:(apply in_seq; lia)).
  unfold path_ok in H. apply andb_prop in H as [H0 H]. split.
  - apply Z.eqb_eq in H0. pose proof (pows_get 512 1 (2 * Fips204.bitrev8 j + 1) Hlt) as Q. rewrite H0, eqm_mod in Q. rewrite Q.
    unfold Fips204.gamma. rewrite eqm_mod. unfold eqm. f_equal. rewrite Z.mul_1_l. f_equal. clear. lia.
  - rewrite forallb_forall in H. intros len Hl. specialize (H len Hl). by apply Z.eqb_eq in H.
Qed.
Lemma path_powers j len : (j < 256)%nat -> In len [1; 2; 4; 8; 16; 32; 64; 128]%nat -> eqm DQ (Fips204.gamma j ^ Z.of_nat len) (path_zeta j len).
Proof.
  intros Hj. destruct (path_checked j Hj) as [G S]. generalize dependent (Fips204.gamma j). intros g G.
  assert (N : forall len, In len [1; 2; 4; 8; 16; 32; 64]%nat -> eqm DQ (g ^ Z.of_nat len) (path_zeta j len) -> eqm DQ (g ^ Z.of_nat (2 * len)) (path_zeta j (2 * len))).
  { intros l Hl E. replace (Z.of_nat (2 * l)) with (Z.of_nat l + Z.of_nat l) by (clear; lia). rewrite Z.pow_add_r by (clear; lia). rewrite E. by apply S. }
  assert (P1 : eqm DQ (g ^ Z.of_nat 1) (path_zeta j 1)) by (change (Z.of_nat 1) with 1; by rewrite Z.pow_1_r).
  clear G S. pose proof (N 1%nat ltac:(cbn; tauto) P1) as P2. pose proof (N 2%nat ltac:(cbn; tauto) P2) as P4. pose proof (N 4%nat ltac:(cbn; tauto) P4) as P8.
  pose proof (N 8%nat ltac:(cbn; tauto) P8) as P16. pose proof (N 16%nat ltac:(cbn; tauto) P16) as P32. pose proof (N 32%nat ltac:(cbn; tauto) P32) as P64.
  pose proof (N 64%nat ltac:(cbn; tauto) P64) as P128. clear N. cbn [Nat.mul Nat.add] in *.
  intros [<-|[<-|[<-|[<-|[<-|[<-|[<-|[<-|[]]]]]]]]]; assumption.
Qed.
Lemma d_leaf_zetas j : (j < 256)%nat ->
  leaf_zetas DQ d_zeta 1 (fun m => Fips204.gamma j ^ Z.of_nat m) j d_lens.
Proof.
  intros Hj len Hlen. cbv zeta. rewrite Nat.div_1_r, Nat.mul_1_r. apply (path_powers j len Hj). cbn in *. tauto.
Qed.
Definition hat (p : list Z) : list Z := fwds d_zeta d_lens p.
Lemma length_hat p : length (hat p) = length p.
Proof. apply length_fwds. Qed.
Lemma hat_values r j : length r = 256%nat -> (j < 256)%nat -> eqm DQ (hat r).[j] (Fips204.eval (Fips204.gamma j) r).
Proof.
  intros Hr Hj. set (y := Fips204.gamma j) in *.
  assert (Hs : slice (j * 1) 1 (hat r) = [(hat r).[j]]).
  { apply array_ext; [by rewrite length_slice by (rewrite length_hat; lia)|]. rewrite length_slice by (rewrite length_hat; lia).
    intros i Hi. rewrite get_slice by done. replace i with 0%nat by lia. rewrite get_cons_0. f_equal. lia. }
  assert (H0 : slice (j * 1 / 256 * 256) 256 r = r).
  { rewrite Nat.div_small by lia. by apply slice_all. }
  pose proof (fwds_value DQ d_zeta 1 (Fips204.eval y) (fun m => y ^ Z.of_nat m) (eval_app y)
    (fun l l1 l2 c H1 H2 H => eval_lin DQ y c l l1 l2 H1 H2 H)
    j d_lens 256 r ltac:(lia) ltac:(repeat split) (d_leaf_zetas j Hj) d_lens_good ltac:(repeat constructor) Hr ltac:(lia) ltac:(lia)) as He.
  fold (hat r) in He. rewrite Hs, H0 in He. cbn [Fips204.eval] in He. rewrite <- He. unfold eqm. f_equal. lia.
Qed.

(** ** Multiplication *)

Lemma d_gamma_root j : (j < 256)%nat -> eqm DQ (Fips204.gamma j ^ 256) (-1).
Proof.
  intros Hj. pose proof (path_powers j 128 Hj ltac:(cbn; tauto)) as P.
  change 256 with (Z.of_nat 128 + Z.of_nat 128). rewrite Z.pow_add_r by lia. rewrite P. clear P.
  unfold path_zeta. assert (E : (j / 128 = 0 \/ j / 128 = 1)%nat) by lia. by destruct E as [-> | ->].
Qed.
Lemma mulX_eval y b : b <> [] -> eqm DQ (y ^ Z.of_nat (length b)) (-1) ->
  eqm DQ (Fips204.eval y (Negacyclic.mulX b)) (y * Fips204.eval y b).
Proof.
  intros Hb Hy. destruct b as [|x b _] using rev_ind; [done|]. unfold Negacyclic.mulX. rewrite last_last, removelast_last.
  rewrite length_app in Hy. cbn [length] in Hy. rewrite (eval_app y b [x] (length b)) by lia. cbn [Fips204.eval].
  replace (y * (Fips204.eval y b + y ^ Z.of_nat (length b) * (x + y * 0))) with (y * Fips204.eval y b + y ^ Z.of_nat (length b + 1) * x).
  - rewrite Hy. unfold eqm. f_equal. lia.
  - rewrite Nat2Z.inj_add, Z.pow_add_r, Z.pow_1_r by lia. ring.
Qed.
Lemma eval_zeros y n : Fips204.eval y (zeros n) = 0.
Proof. induction n as [|n IH]; [done|]. rewrite zeros_S. cbn [Fips204.eval]. rewrite IH. lia. Qed.
(** Evaluation at a root is a ring homomorphism. *)
Lemma mul_eval y a b : b <> [] -> eqm DQ (y ^ Z.of_nat (length b)) (-1) ->
  eqm DQ (Fips204.eval y (Negacyclic.mul a b)) (Fips204.eval y a * Fips204.eval y b).
Proof.
  intros Hb Hy. induction a as [|x a IH]; cbn [Negacyclic.mul Fips204.eval].
  - rewrite map_zeros, eval_zeros. unfold eqm. f_equal.
  - assert (Hlm : length (Negacyclic.mul a b) = length b) by (by apply length_mul).
    assert (Hm : Negacyclic.mul a b <> []) by (intros E; rewrite E in Hlm; by destruct b).
    rewrite (eval_lin DQ y x _ (Negacyclic.mulX (Negacyclic.mul a b)) b).
    + rewrite mulX_eval by (by rewrite ?Hlm). rewrite IH. unfold eqm. f_equal. ring.
    + unfold Negacyclic.add. by rewrite length_tab.
    + unfold Negacyclic.add. by rewrite length_tab, length_mulX.
    + intros i Hi. unfold Negacyclic.add in *. rewrite length_tab, length_mulX in Hi by done. rewrite get_tab by (by rewrite length_mulX).
      rewrite get_map_mul by lia. unfold eqm. f_equal. lia.
Qed.
Lemma hat_mul a b i : length a = 256%nat -> length b = 256%nat -> (i < 256)%nat ->
  eqm DQ (hat (Negacyclic.mul a b)).[i] ((hat a).[i] * (hat b).[i]).
Proof.
  intros Ha Hb Hi. assert (Nb : b <> []) by (intros ->; done).
  rewrite hat_values by (rewrite ?length_mul; done). rewrite !hat_values by done. apply mul_eval; [done|]. rewrite Hb. by apply d_gamma_root.
Qed.

(** ** The machine's transforms *)

Definition unhat (x : list Z) : list Z := map (Z.mul (RINV * 41978)) (bwds d_zeta d_lens x).
Lemma length_unhat x : length (unhat x) = length x.
Proof. unfold unhat. by rewrite length_map, length_bwds. Qed.
Lemma unhat_eqv x y : length x = 256%nat -> eqv DQ x y -> eqv DQ (unhat x) (unhat y).
Proof.
  intros Hx E. assert (Hy : length y = 256%nat) by (destruct E; lia).
  pose proof (bwds_eqv DQ d_zeta d_zeta d_lens 1 x y d_lens_good Hx) as B.
  destruct B as [Hl B].
  { split; [rewrite length_map; apply E|]. intros i Hi. rewrite get_map_mul by lia. rewrite (proj2 E) by done. unfold eqm. f_equal. lia. }
  rewrite length_map in Hl. split; [by rewrite !length_unhat; destruct E|]. rewrite length_unhat. intros i Hi. unfold unhat.
  rewrite !get_map_mul by (rewrite ?length_bwds; lia). rewrite B by (rewrite length_bwds; lia). rewrite get_map_mul by (rewrite length_bwds; lia).
  unfold eqm. f_equal. ring.
Qed.
(** The inverse transform undoes [R^-1] times the transform. *)
Lemma unhat_hat x p : length p = 256%nat -> eqv DQ x (map (Z.mul RINV) (hat p)) -> eqv DQ (unhat x) p.
Proof.
  intros Hp E. assert (Hx : length x = 256%nat) by (destruct E as [E _]; rewrite length_map, length_hat in E; lia).
  destruct (bwds_eqv DQ d_zeta d_zeta d_lens RINV x (hat p) d_lens_good Hx E) as [Hl B].
  destruct (bwds_fwds DQ d_zeta d_zeta d_lens p d_lens_good d_inverse_zetas Hp) as [Hl2 B2]. fold (hat p) in *.
  split; [rewrite length_unhat; lia|]. rewrite length_unhat. intros i Hi. unfold unhat.
  assert (Lh : length (bwds d_zeta d_lens (hat p)) = 256%nat) by (by rewrite length_bwds, length_hat).
  rewrite get_map_mul by (rewrite length_bwds; lia). rewrite B by (rewrite length_bwds; lia). rewrite get_map_mul by lia.
  rewrite B2 by lia. rewrite get_map_mul by lia. change (2 ^ Z.of_nat (length d_lens)) with 256.
  replace (RINV * 41978 * (RINV * (256 * p.[i]))) with (p.[i] + (RINV * 41978 * RINV * 256 - 1) / DQ * p.[i] * DQ) by (unfold RINV, DQ; cbn [Z.mul]; change ((8265825 * 41978 * 8265825 * 256 - 1) / 8380417) with 87612988021247; lia).
  symmetry. apply (eqm_mult _ _ _ (- ((RINV * 41978 * RINV * 256 - 1) / DQ * p.[i]))). lia.
Qed.
Lemma hat_unhat x i : length x = 256%nat -> (i < 256)%nat -> eqm DQ (RINV * (hat (unhat x)).[i]) x.[i].
Proof.
  intros Hx Hi. destruct (fwds_bwds DQ d_zeta d_zeta d_lens x d_lens_good d_inverse_zetas Hx) as [Hl B].
  rewrite (fwds_lin DQ d_zeta d_zeta d_lens (RINV * 41978) 0 (unhat x) (bwds d_zeta d_lens x) (bwds d_zeta d_lens x) d_lens_good);
    rewrite ?length_unhat, ?length_bwds; try done.
  - rewrite B by (rewrite length_fwds, length_bwds; lia). rewrite get_map_mul by lia. change (2 ^ Z.of_nat (length d_lens)) with 256.
    apply (eqm_mult _ _ _ ((RINV * 41978 * RINV * 256 - 1) / DQ * x.[i])). unfold RINV, DQ. change ((8265825 * 41978 * 8265825 * 256 - 1) / 8380417) with 87612988021247. lia.
  - intros j Hj. unfold unhat. rewrite get_map_mul by (rewrite length_bwds; lia). unfold eqm. f_equal. ring.
Qed.

Lemma d_ntt_hat B p : 0 <= B -> B + 8 * 8380416 <= 2147483647 -> small B p -> near (B + 8 * 8380416) (d_ntt p) (hat p).
Proof. intros HB HB' H. by apply d_ntt_near; [..|apply small_near]. Qed.
Lemma pointwise_near Ba Bb ra rb pa pb : 0 <= Ba -> 0 <= Bb -> Ba * Bb <= 2147483647 * DQ -> near Ba ra pa -> near Bb rb pb ->
  near 8380416 (d_poly_pointwise ra rb) (tab 256 (fun i => RINV * (pa.[i] * pb.[i]))).
Proof.
  intros H0 H0' HB (La & La' & A) (Lb & Lb' & B). split; [apply length_tab|]. split; [apply length_tab|]. intros i Hi.
  unfold d_poly_pointwise. rewrite !get_tab by done. destruct (A i Hi) as [Ra Ea]. destruct (B i Hi) as [Rb Eb].
  destruct (d_mont_spec (ra.[i] * rb.[i])) as (E & R & _); [unfold DQ in *; nia|]. split; [exact R|]. by rewrite E, Ea, Eb.
Qed.
Lemma near_ext B r p p' : eqv DQ p p' -> near B r p -> near B r p'.
Proof. intros [Hl E] (Lr & Lp & H). split; [done|]. split; [lia|]. intros i Hi. destruct (H i Hi) as [R Ei]. split; [done|]. by rewrite Ei, E by lia. Qed.

Lemma hat_product a b : length a = 256%nat -> length b = 256%nat ->
  eqv DQ (tab 256 (fun i => RINV * ((hat a).[i] * (hat b).[i]))) (map (Z.mul RINV) (hat (Negacyclic.mul a b))).
Proof.
  intros Ha Hb. assert (Nb : b <> []) by (intros ->; done).
  assert (Lm : length (hat (Negacyclic.mul a b)) = 256%nat) by (by rewrite length_hat, length_mul).
  split; [by rewrite length_tab, length_map|]. rewrite length_tab. intros i Hi. rewrite get_tab, get_map_mul by lia.
  by rewrite hat_mul.
Qed.
Lemma ntt_product_near a b : small 8380416 a -> small 8380416 b ->
  near 8380416 (d_poly_pointwise (d_ntt a) (d_ntt b)) (map (Z.mul RINV) (hat (Negacyclic.mul a b))).
Proof.
  intros Ha Hb. eapply near_ext; [by apply hat_product; [apply Ha|apply Hb]|].
  apply (pointwise_near 75423744 75423744); [lia|lia|by compute| |]; by apply (d_ntt_hat 8380416).
Qed.
Lemma d_invntt_unhat r p : length p = 256%nat -> near 8380416 r (map (Z.mul RINV) (hat p)) -> near 4211200 (d_invntt r) p.
Proof.
  intros Hp H. apply (near_ext _ _ (unhat (map (Z.mul RINV) (hat p)))); [by apply unhat_hat|]. by apply d_invntt_near.
Qed.

(** C34. Multiplication through the transform is multiplication in
    [Z_q[X]/(X^256 + 1)].  For coefficients of absolute value below [q],
    [d_invntt (d_poly_pointwise (d_ntt a) (d_ntt b))] is congruent to the
    product of [a] and [b] coefficient by coefficient: the Montgomery factors
    of the passes cancel with the scaling by 41978, and no sum of the
    sixteen levels wraps (the outputs are at most 4211200). *)
Theorem d_ntt_multiplies a b : small (DQ - 1) a -> small (DQ - 1) b ->
  let c := d_invntt (d_poly_pointwise (d_ntt a) (d_ntt b)) in
  small 4211200 c /\ eqv DQ c (Negacyclic.mul a b).
Proof.
  intros Ha Hb. cbv zeta. assert (Hc : near 4211200 (d_invntt (d_poly_pointwise (d_ntt a) (d_ntt b))) (Negacyclic.mul a b)).
  { apply d_invntt_unhat; [|by apply ntt_product_near]. rewrite length_mul; [apply Hb|]. intros ->. by destruct Hb. }
  split; [by eapply near_small|by eapply near_eqv].
Qed.
Lemma d_ntt_multiplies_witness :
  let a := tab 256 (fun i => Z.of_nat i * 32000 - 8380416) in let b := tab 256 (fun i => 8380416 - Z.of_nat i * 2) in
  let c := d_invntt (d_poly_pointwise (d_ntt a) (d_ntt b)) in small 4211200 c /\ eqv DQ c (Negacyclic.mul a b).
Proof.
  apply (d_ntt_multiplies (tab 256 (fun i => Z.of_nat i * 32000 - 8380416)) (tab 256 (fun i => 8380416 - Z.of_nat i * 2))); by apply small_check.
Defined.

(** * Rounding and hints *)

Lemma d_power2round_spec a : - DQ <= a <= DQ + 4 -> let '(a1, a0) := d_power2round a in
  a = a1 * 2 ^ DD + a0 /\ - 4096 < a0 <= 4096 /\ (0 <= a < DQ -> 0 <= a1 < 1024).
Proof.
  unfold DQ, d_power2round, DD. intros Ha. change (Z.shiftl 1 (13 - 1)) with 4096. change (2 ^ 13) with 8192.
  rewrite (i32_id (a + _)), (i32_id (a + _ - _)) by lia. rewrite Z.shiftr_div_pow2, Z.shiftl_mul_pow2 by lia. change (2 ^ 13) with 8192.
  rewrite (i32_id (_ * 8192)), i32_id by lia. lia.
Qed.
(** [a1] and [a0] by cases on the sixteen values of [a1]. *)
Lemma d_decompose_cases a : 0 <= a < DQ -> exists c, 0 <= c <= 16 /\ - DGAMMA2 < a - c * 523776 <= DGAMMA2 /\
  d_decompose a = if c =? 16 then (0, a - DQ) else (c, a - c * 523776).
Proof.
  unfold DQ, DGAMMA2. intros Ha. exists (((a + 127) / 128 * 1025 + 2097152) / 4194304).
  set (b := (a + 127) / 128). assert (Hb : 128 * b - 128 < a <= 128 * b) by (unfold b; lia). 
  set (c := (b * 1025 + 2097152) / 4194304). assert (Hc : 4194304 * c <= b * 1025 + 2097152 < 4194304 * c + 4194304) by (unfold c; lia).
  assert (R : 0 <= c <= 16) by lia.
  assert (I : -261888 < a - c * 523776 <= 261888).
  { assert (K : c = 0 \/ c = 1 \/ c = 2 \/ c = 3 \/ c = 4 \/ c = 5 \/ c = 6 \/ c = 7 \/ c = 8 \/ c = 9 \/ c = 10 \/ c = 11 \/ c = 12 \/ c = 13 \/ c = 14 \/ c = 15 \/ c = 16) by lia.
    clearbody b c. repeat (destruct K as [-> | K]; [lia|]). subst c. lia. }
  split; [exact R|]. split; [exact I|]. unfold d_decompose, DQ, DGAMMA2. rewrite (i32_id (a + 127)) by lia.
  rewrite (Z.shiftr_div_pow2 _ 7), (Z.shiftr_div_pow2 _ 22) by lia. change (2 ^ 7) with 128. change (2 ^ 22) with 4194304. change (Z.shiftl 1 21) with 2097152. fold b.
  rewrite (i32_id (b * 1025)), (i32_id (_ + 2097152)) by lia. fold c. rewrite (land_mod _ 4) by lia. change (2 ^ 4) with 16.
  change ((8380417 - 1) / 2) with 4190208. clearbody b c. destruct (Z.eqb_spec c 16) as [->|N].
  - change (16 mod 16) with 0. change (i32 (i32 (0 * 2) * 261888)) with 0. rewrite (i32_id (a - 0)), (i32_id (4190208 - _)) by lia.
    rewrite shiftr31 by lia. destruct (Z.ltb_spec (4190208 - (a - 0)) 0); [|lia]. rewrite Z.land_m1_l, i32_id by lia. f_equal. lia.
  - replace (c mod 16) with c by lia. rewrite (i32_id (c * 2)), (i32_id (c * 2 * _)), (i32_id (a - _)), (i32_id (4190208 - _)) by lia.
    replace (a - c * 2 * 261888) with (a - c * 523776) by lia. rewrite shiftr31 by lia.
    destruct (Z.ltb_spec (4190208 - (a - c * 523776)) 0); [lia|]. rewrite Z.land_0_l, i32_id by lia. f_equal. lia.
Qed.

Lemma d_decompose_fips a : 0 <= a < DQ -> d_decompose a = Fips204.decompose a.
Proof.
  intros Ha. destruct (d_decompose_cases a Ha) as (c & Hc & R & ->). unfold Fips204.decompose. rewrite (Z.mod_small a) by done.
  unfold DQ, DGAMMA2 in *. change (2 * 261888) with 523776. change (8380417 - 1) with 8380416.
  set (r := a mod 523776). assert (Hr : r = a - c * 523776 \/ r = a - c * 523776 + 523776).
  { destruct (Z.le_gt_cases 0 (a - c * 523776)); [left; symmetry; apply (Z.mod_unique _ _ c); lia|right; symmetry; apply (Z.mod_unique _ _ (c - 1)); lia]. }
  assert (Hr0 : (if r <=? 261888 then r else r - 523776) = a - c * 523776).
  { assert (0 <= r < 523776) by (apply Z.mod_pos_bound; lia). destruct (Z.leb_spec r 261888); lia. }
  rewrite Hr0. clear Hr Hr0. clearbody r. cbv zeta. replace (a - (a - c * 523776)) with (c * 523776) by lia.
  destruct (Z.eqb_spec c 16) as [->|N].
  - change (16 * 523776 =? 8380416) with true. cbn match. f_equal. lia.
  - destruct (Z.eqb_spec (c * 523776) 8380416); [lia|]. by rewrite Z.div_mul.
Qed.
Lemma d_decompose_range a : 0 <= a < DQ -> let '(a1, a0) := d_decompose a in 0 <= a1 < 16 /\ - DGAMMA2 <= a0 <= DGAMMA2.
Proof.
  intros Ha. destruct (d_decompose_cases a Ha) as (c & Hc & R & ->). unfold DQ, DGAMMA2 in *. destruct (Z.eqb_spec c 16) as [->|N]; lia.
Qed.
(** The two halves again. *)
Lemma d_decompose_join a : 0 <= a < DQ -> let '(a1, a0) := d_decompose a in eqm DQ a (a1 * 523776 + a0).
Proof.
  intros Ha. destruct (d_decompose_cases a Ha) as (c & Hc & R & ->). destruct (Z.eqb_spec c 16) as [->|N].
  - apply (eqm_mult _ _ _ 1). lia.
  - unfold eqm. f_equal. lia.
Qed.
(** The interval around a multiple of [2 gamma2] determines the high part. *)
Lemma d_decompose_at r c : 0 <= r < DQ -> 0 <= c <= 16 -> - DGAMMA2 < r - c * 523776 <= DGAMMA2 ->
  d_decompose r = if c =? 16 then (0, r - DQ) else (c, r - c * 523776).
Proof.
  intros Hr Hc R. destruct (d_decompose_cases r Hr) as (c' & Hc' & R' & ->). unfold DGAMMA2 in *. by replace c' with c by lia.
Qed.

Lemma nonzero31 x : 0 <= x < 4294967296 -> Z.shiftr (Z.lor x (u32 (0 - x))) 31 = if x =? 0 then 0 else 1.
Proof.
  intros Hx. rewrite Z.shiftr_lor, !Z.shiftr_div_pow2 by lia. change (2 ^ 31) with 2147483648. rewrite u32_mod.
  destruct (Z.eqb_spec x 0) as [->|N]; [done|]. replace ((0 - x) mod 4294967296) with (4294967296 - x) by lia.
  assert (E : x / 2147483648 = 0 \/ x / 2147483648 = 1) by lia.
  assert (E' : (4294967296 - x) / 2147483648 = 0 \/ (4294967296 - x) / 2147483648 = 1) by lia.
  destruct E as [E|E], E' as [E'|E']; rewrite E, E'; try done. lia.
Qed.
Lemma sign31 x : -2147483648 <= x < 2147483648 -> Z.land (Z.shiftr (u32 (i32 x)) 31) 1 = if x <? 0 then 1 else 0.
Proof.
  intros Hx. rewrite i32_id by lia. rewrite Z.shiftr_div_pow2, u32_mod by lia. change (2 ^ 31) with 2147483648.
  destruct (Z.ltb_spec x 0).
  - replace (x mod 4294967296 / 2147483648) with 1 by lia. done.
  - replace (x mod 4294967296 / 2147483648) with 0 by lia. done.
Qed.

Definition hint_flag (a0 a1 : Z) : bool := (DGAMMA2 <? a0) || (a0 <? - DGAMMA2) || ((a0 =? - DGAMMA2) && negb (a1 =? 0)).
Lemma d_make_hint_spec a0 a1 : -1073741824 <= a0 <= 1073741824 -> 0 <= a1 < 16 ->
  d_make_hint a0 a1 = if hint_flag a0 a1 then 1 else 0.
Proof.
  unfold d_make_hint, hint_flag, DGAMMA2. intros H0 H1. rewrite !sign31 by lia. rewrite nonzero31 by apply u32_range.
  rewrite (i32_id (a0 + _)), (i32_id (- a1)) by lia. replace (u32 (- a1)) with (u32 (0 - u32 a1)) by (rewrite !u32_mod; lia).
  rewrite nonzero31 by apply u32_range. rewrite (u32_id a1) by lia.
  assert (E : (u32 (a0 + 261888) =? 0) = (a0 =? - 261888)).
  { rewrite u32_mod. destruct (Z.eqb_spec a0 (-261888)), (Z.eqb_spec ((a0 + 261888) mod 4294967296) 0); lia. }
  rewrite E. clear E. replace (261888 - a0 <? 0) with (261888 <? a0) by lia. replace (a0 + 261888 <? 0) with (a0 <? -261888) by lia.
  change (- (261888)) with (-261888). by destruct (261888 <? a0), (a0 <? -261888), (a0 =? -261888), (a1 =? 0).
Qed.

(** The hint bit picks a neighbour, and the sign of [a0] picks the wrong one. *)
Lemma d_use_hint_spec a h : 0 <= a < DQ -> h = 0 \/ h = 1 ->
  let '(a1, a0) := d_decompose a in
  d_use_hint a h = if h =? 0 then a1 else if 0 <? a0 then (a1 - 1) mod 16 else (a1 + 1) mod 16.
Proof.
  intros Ha Hh. unfold d_use_hint. pose proof (d_decompose_range a Ha) as R. destruct (d_decompose a) as [a1 a0]. unfold DGAMMA2 in R.
  destruct R as [R1 R0].
  assert (P : Z.land (u32 (0 - Z.shiftr (u32 (i32 (a0 - 1))) 31)) 1 = if 0 <? a0 then 0 else 1).
  { rewrite i32_id by lia. rewrite Z.shiftr_div_pow2, (u32_mod (a0 - 1)) by lia. change (2 ^ 31) with 2147483648. destruct (Z.ltb_spec 0 a0).
    - replace ((a0 - 1) mod 4294967296 / 2147483648) with 0 by lia. done.
    - replace ((a0 - 1) mod 4294967296 / 2147483648) with 1 by lia. done. }
  rewrite P. clear P R0.
  assert (K : a1 = 0 \/ a1 = 1 \/ a1 = 2 \/ a1 = 3 \/ a1 = 4 \/ a1 = 5 \/ a1 = 6 \/ a1 = 7 \/ a1 = 8 \/ a1 = 9 \/ a1 = 10 \/ a1 = 11 \/ a1 = 12 \/ a1 = 13 \/ a1 = 14 \/ a1 = 15) by lia.
  clear R1. repeat (destruct K as [-> | K]; [destruct Hh as [-> | ->], (0 <? a0); reflexivity|]). subst a1. destruct Hh as [-> | ->], (0 <? a0); reflexivity.
Qed.

(** The hint of a signature is applied the wrong way round.  Without a
    hint [d_use_hint] returns the high part as FIPS 204 asks (algorithm 40);
    with one it steps in the opposite direction, so its result is never the
    standard's. *)
Theorem use_hint_is_inverted a : 0 <= a < DQ ->
  d_decompose a = Fips204.decompose a /\ d_use_hint a 0 = Fips204.use_hint 0 a /\
  d_use_hint a 1 = (2 * Fips204.high_bits a - Fips204.use_hint 1 a) mod 16 /\ d_use_hint a 1 <> Fips204.use_hint 1 a.
Proof.
  intros Ha. rewrite (d_decompose_fips a Ha). split; [done|]. pose proof (d_use_hint_spec a 0 Ha (or_introl eq_refl)) as H0.
  pose proof (d_use_hint_spec a 1 Ha (or_intror eq_refl)) as H1. pose proof (d_decompose_range a Ha) as R.
  rewrite (d_decompose_fips a Ha) in *. unfold Fips204.use_hint, Fips204.high_bits. destruct (Fips204.decompose a) as [a1 a0].
  change ((DQ - 1) / (2 * DGAMMA2)) with 16. cbn [fst] in *. cbn [Z.eqb Pos.eqb andb] in *. rewrite H0, H1. clear H0 H1 Ha. destruct R as [R _].
  split; [done|]. destruct (Z.ltb_spec 0 a0), (Z.leb_spec a0 0); try lia.
Qed.
Lemma use_hint_is_inverted_witness :
  d_decompose 600000 = Fips204.decompose 600000 /\ d_use_hint 600000 0 = Fips204.use_hint 0 600000 /\
  d_use_hint 600000 1 = (2 * Fips204.high_bits 600000 - Fips204.use_hint 1 600000) mod 16 /\ d_use_hint 600000 1 <> Fips204.use_hint 1 600000.
Proof. apply (use_hint_is_inverted 600000). unfold DQ. lia. Defined.

(** Where [x] moved a value by at most almost [2 gamma2], the hint leads the
    standard's [UseHint] back to the old high part; the code's finds it only
    when there is no hint. *)
Lemma hint_recovers w1 x r : 0 <= w1 < 16 -> -523578 <= x <= 523578 -> 0 <= r < DQ -> eqm DQ r (w1 * 523776 + x) ->
  let h := d_make_hint x w1 in
  (h = 0 \/ h = 1) /\ Fips204.use_hint h r = w1 /\ (h = 0 -> d_use_hint r h = w1) /\ (h = 1 -> d_use_hint r h <> w1) /\ 0 <= d_use_hint r h < 16.
Proof.
  intros Hw Hx Hr E h. assert (Hh : h = 0 \/ h = 1) by (unfold h; rewrite d_make_hint_spec by lia; destruct (hint_flag x w1); auto).
  split; [done|]. pose proof (d_use_hint_spec r h Hr Hh) as HU. unfold Fips204.use_hint. rewrite <- (d_decompose_fips r Hr).
  change ((DQ - 1) / (2 * DGAMMA2)) with 16.
  apply eqm_inv in E as [k E]; [|done]. assert (K : k = 0 \/ k = 1 \/ k = -1) by (unfold DQ in *; lia).
  assert (D : exists c, 0 <= c <= 16 /\ - DGAMMA2 < r - c * 523776 <= DGAMMA2 /\ d_decompose r = if c =? 16 then (0, r - DQ) else (c, r - c * 523776)) by (by apply d_decompose_cases).
  destruct D as (c & Hc & Rc & D). rewrite D in *. clear D. unfold h in *. rewrite (d_make_hint_spec x w1) in * by lia.
  unfold hint_flag, DGAMMA2, DQ in *. change (- (261888)) with (-261888) in *. clear h.
  destruct (Z.ltb_spec 261888 x), (Z.ltb_spec x (-261888)), (Z.eqb_spec x (-261888)), (Z.eqb_spec w1 0), (Z.eqb_spec c 16); cbn [orb andb negb Z.eqb Pos.eqb] in *; try lia;
    rewrite HU; clear HU.
  all: try (destruct (Z.ltb_spec 0 (r - 8380417)), (Z.leb_spec (r - 8380417) 0); try lia).
  all: try (destruct (Z.ltb_spec 0 (r - c * 523776)), (Z.leb_spec (r - c * 523776) 0); try lia).
Qed.
