(* ===== verification/DsaPack.v ===== *)
(** ML-DSA-65 ([sec/pqc/mldsa/]): sampling and the byte encodings
    ([mldsa_poly.c], the first half of [mldsa_sample.c]), with the round trips
    of the encodings and of the signature.

    The encoders work group by group: [groups n m g a] is the concatenation of
    [g] on the [n] groups of [m] cells of [a]. *)
From S2P Require Import Prelude Str Keccak MlDsa.
Open Scope Z_scope.

(** * Sampling *)

Section sampling.
Context `{Shake}.

(** [while (ctr < len && pos + 3 <= buflen)]: the accepted coefficients. *)
Fixpoint d_rej_uniform (len : nat) (buf : list Z) (a : list Z) : list Z :=
  match buf with
  | b0 :: b1 :: b2 :: buf =>
      if (length a <? len)%nat then
        let t := u32 (Z.land (Z.lor (Z.lor b0 (u32 (Z.shiftl b1 8))) (u32 (Z.shiftl b2 16))) 0x7FFFFF) in
        d_rej_uniform len buf (if t <? DQ then a ++ [i32 t] else a)
      else a
  | _ => a
  end.
(** [while (ctr < 256)]: every draw squeezes again from the start. *)
Fixpoint d_uniform_refill (fuel : nat) (inp a : list Z) : list Z :=
  match fuel with
  | O => a
  | S fuel =>
      if (length a <? 256)%nat then
        let need := (256 - length a)%nat in
        if (168 <? need * 3)%nat then a
        else
          let got := d_rej_uniform need (shake128 inp 168) [] in
          if (length got =? 0)%nat then a else d_uniform_refill fuel inp (a ++ got)
      else a
  end.
Definition nonce_bytes (nonce : Z) : list Z := [u8 nonce; u8 (Z.shiftr nonce 8)].
Definition d_poly_uniform (seed : list Z) (nonce : Z) : run (list Z) :=
  let inp := slice 0 32 seed ++ nonce_bytes nonce in
  let a := d_rej_uniform 256 (shake128 inp 1344) [] in
  let a := d_uniform_refill 256 inp a in
  if (length a <? 256)%nat then Exited 1 else Ret a.

Fixpoint d_rej_eta (len : nat) (buf : list Z) (a : list Z) : list Z :=
  match buf with
  | [] => a
  | b :: buf =>
      if (length a <? len)%nat then
        let t0 := Z.land b 0x0F in
        let t1 := Z.shiftr b 4 in
        let a := if t0 <? 9 then a ++ [i32 (4 - t0)] else a in
        let a := if (t1 <? 9) && (length a <? len)%nat then a ++ [i32 (4 - t1)] else a in
        d_rej_eta len buf a
      else a
  end.
(** [Undefined] when the 544 bytes hold fewer than 256 accepted values: the
    rest of the array is then never written. *)
Definition d_poly_uniform_eta (seed : list Z) (nonce : Z) : run (list Z) :=
  let a := d_rej_eta 256 (shake256 (slice 0 64 seed ++ nonce_bytes nonce) 544) [] in
  if (length a =? 256)%nat then Ret a else Undefined.

(** [do { b = buf[pos++]; } while (b > i)]: the byte and the rest of the
    buffer; [None] past its end. *)
Fixpoint d_draw (i : Z) (buf : list Z) : option (Z * list Z) :=
  match buf with
  | [] => None
  | b :: buf => if i <? b then d_draw i buf else Some (b, buf)
  end.
Fixpoint challenge_loop (ixs : list nat) (buf : list Z) (signs : Z) (c : list Z) : run (list Z) :=
  match ixs with
  | [] => Ret c
  | i :: ixs =>
      match d_draw (Z.of_nat i) buf with
      | None => Undefined
      | Some (b, buf) =>
          let c := c.[i <- c.[Z.to_nat b]] in
          let c := c.[Z.to_nat b <- i32 (1 - 2 * Z.land signs 1)] in
          challenge_loop ixs buf (Z.shiftr signs 1) c
      end
  end.
Definition d_poly_challenge (seed : list Z) : run (list Z) :=
  let buf := shake256 (slice 0 48 seed) 544 in
  let signs := for_ 0 8 (fun i s => Z.lor s (u64 (Z.shiftl buf.[i] (Z.of_nat (8 * i))))) 0 in
  challenge_loop (seq (256 - DTAU) DTAU) (drop 8 buf) signs (zeros 256).
End sampling.

(** * Byte encodings *)

Definition groups (n m : nat) (g : list Z -> list Z) (a : list Z) : list Z :=
  concat (tab n (fun i => g (slice (m * i) m a))).

Definition eta_pack (a : list Z) : list Z :=
  let t0 := u8 (DETA - a.[0]) in let t1 := u8 (DETA - a.[1]) in [u8 (Z.lor t0 (Z.shiftl t1 4))].
Definition eta_unpack (b : list Z) : list Z := [i32 (DETA - Z.land b.[0] 0x0F); i32 (DETA - Z.shiftr b.[0] 4)].
Definition d_polyeta_pack (a : list Z) : list Z := groups 128 2 eta_pack a.
Definition d_polyeta_unpack (b : list Z) : list Z := groups 128 1 eta_unpack b.

Definition t1_pack (a : list Z) : list Z :=
  [u8 (Z.shiftr a.[0] 0); u8 (Z.lor (Z.shiftr a.[0] 8) (i32 (Z.shiftl a.[1] 2)));
   u8 (Z.lor (Z.shiftr a.[1] 6) (i32 (Z.shiftl a.[2] 4))); u8 (Z.lor (Z.shiftr a.[2] 4) (i32 (Z.shiftl a.[3] 6)));
   u8 (Z.shiftr a.[3] 2)].
Definition t1_unpack (b : list Z) : list Z :=
  [i32 (Z.land (Z.lor (Z.shiftr b.[0] 0) (Z.shiftl b.[1] 8)) 0x3FF); i32 (Z.land (Z.lor (Z.shiftr b.[1] 2) (Z.shiftl b.[2] 6)) 0x3FF);
   i32 (Z.land (Z.lor (Z.shiftr b.[2] 4) (Z.shiftl b.[3] 4)) 0x3FF); i32 (Z.land (Z.lor (Z.shiftr b.[3] 6) (Z.shiftl b.[4] 2)) 0x3FF)].
Definition d_polyt1_pack (a : list Z) : list Z := groups 64 4 t1_pack a.
Definition d_polyt1_unpack (b : list Z) : list Z := groups 64 5 t1_unpack b.

Definition t0_pack (a : list Z) : list Z :=
  let t k := u32 (i32 (Z.shiftl 1 (DD - 1) - a.[k])) in
  [u8 (t 0%nat);
   Z.lor (u8 (Z.shiftr (t 0%nat) 8)) (u8 (u32 (Z.shiftl (t 1%nat) 5)));
   u8 (Z.shiftr (t 1%nat) 3);
   Z.lor (u8 (Z.shiftr (t 1%nat) 11)) (u8 (u32 (Z.shiftl (t 2%nat) 2)));
   Z.lor (u8 (Z.shiftr (t 2%nat) 6)) (u8 (u32 (Z.shiftl (t 3%nat) 7)));
   u8 (Z.shiftr (t 3%nat) 1);
   Z.lor (u8 (Z.shiftr (t 3%nat) 9)) (u8 (u32 (Z.shiftl (t 4%nat) 4)));
   u8 (Z.shiftr (t 4%nat) 4);
   Z.lor (u8 (Z.shiftr (t 4%nat) 12)) (u8 (u32 (Z.shiftl (t 5%nat) 1)));
   Z.lor (u8 (Z.shiftr (t 5%nat) 7)) (u8 (u32 (Z.shiftl (t 6%nat) 6)));
   u8 (Z.shiftr (t 6%nat) 2);
   Z.lor (u8 (Z.shiftr (t 6%nat) 10)) (u8 (u32 (Z.shiftl (t 7%nat) 3)));
   u8 (Z.shiftr (t 7%nat) 5)].
Definition t0_unpack (b : list Z) : list Z :=
  map (fun r => i32 (Z.shiftl 1 (DD - 1) - Z.land r 0x1FFF))
  [Z.lor b.[0] (Z.shiftl b.[1] 8);
   Z.lor (Z.lor (Z.shiftr b.[1] 5) (Z.shiftl b.[2] 3)) (Z.shiftl b.[3] 11);
   Z.lor (Z.shiftr b.[3] 2) (Z.shiftl b.[4] 6);
   Z.lor (Z.lor (Z.shiftr b.[4] 7) (Z.shiftl b.[5] 1)) (Z.shiftl b.[6] 9);
   Z.lor (Z.lor (Z.shiftr b.[6] 4) (Z.shiftl b.[7] 4)) (Z.shiftl b.[8] 12);
   Z.lor (Z.shiftr b.[8] 1) (Z.shiftl b.[9] 7);
   Z.lor (Z.lor (Z.shiftr b.[9] 6) (Z.shiftl b.[10] 2)) (Z.shiftl b.[11] 10);
   Z.lor (Z.shiftr b.[11] 3) (Z.shiftl b.[12] 5)].
Definition d_polyt0_pack (a : list Z) : list Z := groups 32 8 t0_pack a.
Definition d_polyt0_unpack (b : list Z) : list Z := groups 32 13 t0_unpack b.

Definition z_pack (a : list Z) : list Z :=
  let t0 := u32 (i32 (DGAMMA1 - a.[0])) in let t1 := u32 (i32 (DGAMMA1 - a.[1])) in
  [u8 t0; u8 (Z.shiftr t0 8); Z.lor (u8 (Z.shiftr t0 16)) (u8 (u32 (Z.shiftl t1 4))); u8 (Z.shiftr t1 4); u8 (Z.shiftr t1 12)].
Definition z_unpack (b : list Z) : list Z :=
  [i32 (DGAMMA1 - Z.land (Z.lor (Z.lor b.[0] (Z.shiftl b.[1] 8)) (Z.shiftl b.[2] 16)) 0xFFFFF);
   i32 (DGAMMA1 - Z.lor (Z.lor (Z.shiftr b.[2] 4) (Z.shiftl b.[3] 4)) (Z.shiftl b.[4] 12))].
Definition d_polyz_pack (a : list Z) : list Z := groups 128 2 z_pack a.
Definition d_polyz_unpack (b : list Z) : list Z := groups 128 5 z_unpack b.

Definition w1_pack (a : list Z) : list Z := [u8 (Z.lor a.[0] (i32 (Z.shiftl a.[1] 4)))].
Definition d_polyw1_pack (a : list Z) : list Z := groups 128 2 w1_pack a.

Definition d_poly_uniform_gamma1 `{Shake} (seed : list Z) (nonce : Z) : list Z :=
  d_polyz_unpack (shake256 (slice 0 64 seed ++ nonce_bytes nonce) 816).

(** * Keys and signatures *)

Abbreviation poly := (list Z).
Definition row {A} (d : A) (l : list A) (i : nat) : A := nth i l d.

Definition d_pack_pk (rho : list Z) (t1 : list poly) : list Z := slice 0 32 rho ++ concat (map d_polyt1_pack t1).
Definition d_pack_sk (rho tr key : list Z) (t0 s1 s2 : list poly) : list Z :=
  slice 0 32 rho ++ slice 0 32 key ++ slice 0 64 tr ++
  concat (map d_polyeta_pack s1) ++ concat (map d_polyeta_pack s2) ++ concat (map d_polyt0_pack t0).
Definition d_unpack_pk (pk : list Z) : list Z * list poly :=
  (slice 0 32 pk, tab DK (fun i => d_polyt1_unpack (slice (32 + i * 320) 320 pk))).
(** [rho], [tr], [key], [t0], [s1], [s2]. *)
Definition d_unpack_sk (sk : list Z) : list Z * list Z * list Z * list poly * list poly * list poly :=
  (slice 0 32 sk, slice 64 64 sk, slice 32 32 sk,
   tab DK (fun i => d_polyt0_unpack (slice (128 + DL * 128 + DK * 128 + i * 416) 416 sk)),
   tab DL (fun i => d_polyeta_unpack (slice (128 + i * 128) 128 sk)),
   tab DK (fun i => d_polyeta_unpack (slice (128 + DL * 128 + i * 128) 128 sk))).

(** The hint bytes: the state is [hs] and [k]. *)
Definition hint_step (h : poly) (j : nat) (s : list Z * nat) : list Z * nat :=
  let '(hs, k) := s in
  let set := Z.shiftr (Z.lor (u32 h.[j]) (u32 (i32 (- h.[j])))) 31 in
  let mask := u32 (0 - set) in
  let new_val := Z.lor (Z.land mask (u8 (Z.of_nat j))) (Z.land (u32 (Z.lnot mask)) hs.[k]) in
  (hs.[k <- u8 (Z.land new_val 0xFF)], (k + Z.to_nat (Z.land set 1))%nat).
Definition pack_hints (h : list poly) : list Z :=
  fst (for_ 0 DK (fun i s =>
    let '(hs, k) := for_ 0 256 (hint_step (row [] h i)) s in
    (hs.[DOMEGA + i <- u8 (Z.of_nat k)], k)) (zeros (DOMEGA + DK), 0%nat)).
Definition d_pack_sig (c : list Z) (z h : list poly) : list Z :=
  slice 0 DCTILDE c ++ concat (map d_polyz_pack z) ++ pack_hints h.

(** [for (j = k; j < n; ++j)] of one row; [None] is the return of 1. *)
Fixpoint hint_row (m : nat) (hs : list Z) (k j : nat) (h : poly) : option poly :=
  match m with
  | O => Some h
  | S m =>
      if (k <? j)%nat && (hs.[j] <=? hs.[j - 1]) then None
      else hint_row m hs k (S j) h.[Z.to_nat hs.[j] <- 1]
  end.
Fixpoint hint_rows (m i : nat) (hs : list Z) (k : nat) : option (list poly * nat) :=
  match m with
  | O => Some ([], k)
  | S m =>
      let n := hs.[DOMEGA + i] in
      if (n <? Z.of_nat k) || (Z.of_nat DOMEGA <? n) then None
      else
        match hint_row (Z.to_nat n - k) hs k k (zeros 256) with
        | None => None
        | Some h => match hint_rows m (S i) hs (Z.to_nat n) with None => None | Some (hr, k) => Some (h :: hr, k) end
        end
  end.
Definition unpack_hints (hs : list Z) : option (list poly) :=
  match hint_rows DK 0 hs 0 with
  | None => None
  | Some (h, k) => if existsb (fun j => negb (hs.[j] =? 0)) (seq k (DOMEGA - k)) then None else Some h
  end.
Definition d_unpack_sig (sig : list Z) : option (list Z * list poly * list poly) :=
  let c := slice 0 DCTILDE sig in
  let z := tab DL (fun i => d_polyz_unpack (slice (DCTILDE + i * 640) 640 sig)) in
  match unpack_hints (drop (DCTILDE + DL * 640) sig) with None => None | Some h => Some (c, z, h) end.

(** * Group codecs *)

Lemma slice_concat_tab n m (f : nat -> list Z) i : (forall i, length (f i) = m) -> (i < n)%nat -> slice (m * i) m (concat (tab n f)) = f i.
Proof.
  intros Hf Hi. assert (L : length (concat (tab n f)) = (n * m)%nat) by (by apply length_concat_tab).
  assert (m * i + m <= n * m)%nat by nia.
  apply array_ext; [rewrite length_slice by lia; by rewrite Hf|]. rewrite length_slice by lia. intros k Hk.
  rewrite get_slice by done. by apply get_concat_tab.
Qed.
Lemma length_groups n m k g a : (forall l, length (g l) = k) -> length (groups n m g a) = (n * k)%nat.
Proof. intros H. by apply length_concat_tab. Qed.
Lemma bytes_groups n m g a : (forall l, bytes (g l)) -> bytes (groups n m g a).
Proof. intros H. unfold groups, tab. apply Forall_concat, Forall_map, Forall_forall. intros; apply H. Qed.
Lemma groups_roundtrip n m k g u (P : Z -> Prop) a : (0 < m)%nat -> (forall l, length (g l) = k) -> (forall l, length (u l) = m) ->
  (forall l, length l = m -> Forall P l -> u (g l) = l) -> length a = (n * m)%nat -> Forall P a -> groups n k u (groups n m g a) = a.
Proof.
  intros Hm Hg Hu H La Pa. unfold groups at 1. apply (concat_tab_ext n m); [done|intros; apply Hu|done|]. intros i j Hi Hj.
  unfold groups. rewrite (slice_concat_tab n k (fun i => g (slice (m * i) m a))) by (try done; intros; apply Hg).
  assert (m * i + m <= n * m)%nat by nia.
  rewrite H; [by rewrite get_slice|apply length_slice; lia|by apply Forall_take, Forall_drop].
Qed.

(** The machine's shifts by halves of a byte. *)
Lemma lor_u8 a b k : 0 <= k <= 8 -> 0 <= a < 2 ^ k -> 0 <= b -> Z.lor a (u8 (u32 (Z.shiftl b k))) = a + b mod 2 ^ (8 - k) * 2 ^ k.
Proof.
  intros Hk Ha Hb. rewrite Z.shiftl_mul_pow2 by lia.
  assert (E : u8 (u32 (b * 2 ^ k)) = b mod 2 ^ (8 - k) * 2 ^ k).
  { rewrite u8_mod, u32_mod. change 4294967296 with (256 * 16777216).
    rewrite <- Z.mul_mod_distr_r by lia. replace (2 ^ (8 - k) * 2 ^ k) with 256 by (rewrite <- Z.pow_add_r by lia; by replace (8 - k + k) with 8 by lia).
    apply Z.mod_mod_divide. by exists 16777216. }
  rewrite E. apply lor_add; lia.
Qed.

Ltac cells l H := repeat (destruct l as [|? l]; [cbn in H; lia|]); destruct l; [|cbn in H; lia]; clear H.
Ltac ranges H := repeat (let R := fresh "R" in apply List.Forall_cons_iff in H as [R H]); clear H; cbv beta in *.

Lemma eta_roundtrip l : length l = 2%nat -> Forall (fun x => -4 <= x <= 4) l -> eta_unpack (eta_pack l) = l.
Proof.
  intros Hl H. cells l Hl. ranges H. unfold eta_unpack, eta_pack, DETA. get_cells.
  rewrite !(u8_id (4 - _)) by lia. rewrite lor_shiftl by lia. rewrite u8_id by lia. rewrite (land_mod _ 4), Z.shiftr_div_pow2 by lia.
  rewrite !i32_id by lia. change (2 ^ 4) with 16. repeat f_equal; lia.
Qed.
Lemma t1_roundtrip l : length l = 4%nat -> Forall (fun x => 0 <= x < 1024) l -> t1_unpack (t1_pack l) = l.
Proof.
  intros Hl H. cells l Hl. ranges H. unfold t1_unpack, t1_pack. get_cells.
  rewrite !(i32_id (Z.shiftl _ _)) by (rewrite Z.shiftl_mul_pow2 by lia; lia).
  rewrite !Z.shiftr_div_pow2 by lia. 
  rewrite (lor_shiftl (z / _)), (lor_shiftl (z0 / _)), (lor_shiftl (z1 / _)) by lia.
  rewrite !u8_mod, !(land_mod _ 10) by lia.
  rewrite !lor_shiftl by lia. rewrite !i32_id by lia. repeat f_equal; lia.
Qed.
Lemma z_roundtrip l : length l = 2%nat -> Forall (fun x => - DGAMMA1 < x <= DGAMMA1) l -> z_unpack (z_pack l) = l.
Proof.
  unfold DGAMMA1. intros Hl H. cells l Hl. ranges H. unfold z_unpack, z_pack, DGAMMA1. get_cells.
  rewrite !(i32_id (524288 - z)), !(i32_id (524288 - z0)) by lia. rewrite !(u32_id (524288 - _)) by lia.
  rewrite !Z.shiftr_div_pow2 by lia. rewrite lor_u8 by (rewrite ?u8_mod; lia). rewrite !u8_mod, !(land_mod _ 20) by lia.
  rewrite (lor_shiftl _ _ 8) by lia. rewrite (lor_shiftl _ _ 16) by lia. rewrite (lor_shiftl _ _ 4) by lia. rewrite (lor_shiftl _ _ 12) by lia. rewrite !i32_id by lia. repeat f_equal; lia.
Qed.
Lemma w1_byte l : length l = 2%nat -> Forall (fun x => 0 <= x < 16) l -> w1_pack l = [l.[0] + 16 * l.[1]].
Proof.
  intros Hl H. cells l Hl. ranges H. unfold w1_pack. get_cells. rewrite i32_id by (rewrite Z.shiftl_mul_pow2 by lia; lia).
  rewrite lor_shiftl by lia. rewrite u8_id by lia. f_equal. lia.
Qed.

(** The thirteen bytes of eight 13-bit values. *)
Lemma t0_roundtrip l : length l = 8%nat -> Forall (fun x => - 4096 < x <= 4096) l -> t0_unpack (t0_pack l) = l.
Proof.
  intros Hl H. cells l Hl. ranges H.
  assert (X : forall z, -4096 < z <= 4096 -> exists t, z = 4096 - t /\ 0 <= t < 8192) by (intros x ?; exists (4096 - x); lia).
  repeat match goal with R : _ < ?z <= _ |- _ => apply X in R as (? & -> & R) end. clear X.
  unfold t0_unpack, t0_pack, DD. get_cells. change (Z.shiftl 1 (13 - 1)) with 4096.
  assert (T : forall t, 0 <= t < 8192 -> u32 (i32 (4096 - (4096 - t))) = t) by (intros t Ht; replace (4096 - (4096 - t)) with t by lia; rewrite i32_id, u32_id; lia).
  rewrite !T by assumption. clear T. cbn [map].
  assert (W : forall r t, 0 <= t < 8192 -> r mod 8192 = t -> i32 (4096 - Z.land r 8191) = 4096 - t).
  { intros r t Ht E. change 8191 with (2 ^ 13 - 1). rewrite land_mod by lia. change (2 ^ 13) with 8192. rewrite E, i32_id; lia. }
  rewrite !Z.shiftr_div_pow2 by lia. rewrite !lor_u8 by (rewrite ?u8_mod; lia). rewrite !u8_mod.
  repeat apply (f_equal2 (@cons Z)); try reflexivity; (apply W; [assumption|]); clear W.
  all: change (2 ^ (8 - 5)) with 8; change (2 ^ (8 - 2)) with 64; change (2 ^ (8 - 7)) with 2; change (2 ^ (8 - 4)) with 16; change (2 ^ (8 - 1)) with 128; change (2 ^ (8 - 6)) with 4; change (2 ^ (8 - 3)) with 32.
  - rewrite lor_shiftl by lia. lia.
  - rewrite (lor_shiftl _ _ 3) by lia. rewrite lor_shiftl by lia. lia.
  - rewrite lor_shiftl by lia. lia.
  - rewrite (lor_shiftl _ _ 1) by lia. rewrite lor_shiftl by lia. lia.
  - rewrite (lor_shiftl _ _ 4) by lia. rewrite lor_shiftl by lia. lia.
  - rewrite lor_shiftl by lia. lia.
  - rewrite (lor_shiftl _ _ 2) by lia. rewrite lor_shiftl by lia. lia.
  - rewrite lor_shiftl by lia. lia.
Qed.

(** * Polynomials *)

(** The coefficient ranges of the encodings. *)
Definition poly_in (lo hi : Z) (a : list Z) : Prop := length a = 256%nat /\ Forall (fun x => lo <= x <= hi) a.
Lemma poly_in_get lo hi a i : poly_in lo hi a -> (i < 256)%nat -> lo <= a.[i] <= hi.
Proof.
  intros [Hl H] Hi. rewrite List.Forall_forall in H. apply H. unfold get. apply nth_In. lia.
Qed.
Lemma poly_in_of lo hi a : length a = 256%nat -> (forall i, (i < 256)%nat -> lo <= a.[i] <= hi) -> poly_in lo hi a.
Proof.
  intros Hl H. split; [done|]. apply List.Forall_forall. intros x Hx. apply (In_nth _ _ 0) in Hx as (i & Hi & <-). apply H. lia.
Qed.

Lemma polyeta_roundtrip a : poly_in (-4) 4 a -> d_polyeta_unpack (d_polyeta_pack a) = a.
Proof. intros [Hl H]. by apply (groups_roundtrip 128 2 1 eta_pack eta_unpack _ a ltac:(lia) ltac:(done) ltac:(done) eta_roundtrip). Qed.
Lemma polyt1_roundtrip a : poly_in 0 1023 a -> d_polyt1_unpack (d_polyt1_pack a) = a.
Proof.
  intros [Hl H]. apply (groups_roundtrip 64 4 5 t1_pack t1_unpack _ a ltac:(lia) ltac:(done) ltac:(done) t1_roundtrip); [done|].
  eapply List.Forall_impl; [|exact H]. cbv beta. lia.
Qed.
Lemma polyt0_roundtrip a : poly_in (-4095) 4096 a -> d_polyt0_unpack (d_polyt0_pack a) = a.
Proof.
  intros [Hl H]. apply (groups_roundtrip 32 8 13 t0_pack t0_unpack _ a ltac:(lia) ltac:(done) ltac:(done) t0_roundtrip); [done|].
  eapply List.Forall_impl; [|exact H]. cbv beta. lia.
Qed.
Lemma polyz_roundtrip a : poly_in (1 - DGAMMA1) DGAMMA1 a -> d_polyz_unpack (d_polyz_pack a) = a.
Proof.
  intros [Hl H]. apply (groups_roundtrip 128 2 5 z_pack z_unpack _ a ltac:(lia) ltac:(done) ltac:(done) z_roundtrip); [done|].
  eapply List.Forall_impl; [|exact H]. cbv beta. lia.
Qed.
Lemma length_polyeta a : length (d_polyeta_pack a) = 128%nat.
Proof. by apply (length_groups 128 2 1). Qed.
Lemma length_polyt1 a : length (d_polyt1_pack a) = 320%nat.
Proof. by apply (length_groups 64 4 5). Qed.
Lemma length_polyt0 a : length (d_polyt0_pack a) = 416%nat.
Proof. by apply (length_groups 32 8 13). Qed.
Lemma length_polyz a : length (d_polyz_pack a) = 640%nat.
Proof. by apply (length_groups 128 2 5). Qed.
Lemma length_polyw1 a : length (d_polyw1_pack a) = 128%nat.
Proof. by apply (length_groups 128 2 1). Qed.
Lemma length_polyz_unpack b : length (d_polyz_unpack b) = 256%nat.
Proof. by apply (length_groups 128 5 2). Qed.

(** The encoding of the high parts tells polynomials apart. *)
Lemma polyw1_inj a b : poly_in 0 15 a -> poly_in 0 15 b -> d_polyw1_pack a = d_polyw1_pack b -> a = b.
Proof.
  intros Ha Hb E. apply array_ext; [destruct Ha, Hb; lia|]. rewrite (proj1 Ha). intros i Hi.
  assert (C : forall p, poly_in 0 15 p -> (d_polyw1_pack p).[1 * (i / 2) + 0] = p.[2 * (i / 2)] + 16 * p.[2 * (i / 2) + 1]).
  { intros p Hp. unfold d_polyw1_pack, groups. rewrite get_concat_tab by (done || lia). destruct Hp as [Hl Hp]. rewrite w1_byte.
    - rewrite get_cons_0, !get_slice by lia. repeat f_equal; lia.
    - apply length_slice. lia.
    - apply Forall_take, Forall_drop. eapply List.Forall_impl; [|exact Hp]. cbv beta. lia. }
  pose proof (C a Ha) as Ca. pose proof (C b Hb) as Cb. rewrite E in Ca. clear C E.
  pose proof (poly_in_get _ _ _ (2 * (i / 2))%nat Ha ltac:(lia)). pose proof (poly_in_get _ _ _ (2 * (i / 2) + 1)%nat Ha ltac:(lia)).
  pose proof (poly_in_get _ _ _ (2 * (i / 2))%nat Hb ltac:(lia)). pose proof (poly_in_get _ _ _ (2 * (i / 2) + 1)%nat Hb ltac:(lia)).
  destruct (Nat.eq_dec (i mod 2) 0).
  - replace i with (2 * (i / 2))%nat by lia. lia.
  - replace i with (2 * (i / 2) + 1)%nat by lia. lia.
Qed.

(** ** Sequences of encodings *)

Lemma slice_pieces {A} (pre post : list Z) (f : A -> list Z) (l : list A) d i off k : length pre = off -> (forall x, length (f x) = k) -> (i < length l)%nat ->
  slice (off + i * k) k (pre ++ concat (map f l) ++ post) = f (row d l i).
Proof.
  intros Hp Hf. revert pre off Hp i. induction l as [|x l IH]; intros pre off Hp i Hi; [cbn in Hi; lia|]. cbn [map concat]. destruct i as [|i].
  - rewrite Nat.add_0_r. rewrite <- app_assoc. rewrite slice_app_exact by (done || apply Hf). done.
  - rewrite <- app_assoc, app_assoc. replace (off + S i * k)%nat with (off + k + i * k)%nat by lia.
    rewrite (IH (pre ++ f x) (off + k)%nat); [done|rewrite length_app, Hf; lia|cbn in Hi; lia].
Qed.
Lemma tab_row {A} (d : A) l n : length l = n -> tab n (row d l) = l.
Proof.
  intros <-. unfold tab, row. induction l as [|x l IH]; [done|]. cbn [length seq map]. f_equal. rewrite <- seq_shift, map_map. exact IH.
Qed.
Lemma pieces_roundtrip (u : list Z -> poly) (g : poly -> list Z) (P : poly -> Prop) pre post l n off k :
  length pre = off -> (forall x, length (g x) = k) -> (forall x, P x -> u (g x) = x) -> length l = n -> Forall P l ->
  tab n (fun i => u (slice (off + i * k) k (pre ++ concat (map g l) ++ post))) = l.
Proof.
  intros Hp Hg Hu Hl HP. transitivity (tab n (row [] l)); [|by apply tab_row]. apply tab_ext. intros i Hi.
  rewrite (slice_pieces pre post g l [] i off k) by (done || lia). apply Hu. rewrite List.Forall_forall in HP. apply HP. unfold row. apply nth_In. lia.
Qed.
Lemma length_pieces {A} (f : A -> list Z) l k : (forall x, length (f x) = k) -> length (concat (map f l)) = (length l * k)%nat.
Proof. intros H. induction l as [|x l IH]; [done|]. cbn [map concat length]. rewrite length_app, IH, H. lia. Qed.
Definition vec (n : nat) (P : poly -> Prop) (v : list poly) : Prop := length v = n /\ Forall P v.

Lemma pk_roundtrip rho t1 : length rho = 32%nat -> vec DK (poly_in 0 1023) t1 ->
  d_unpack_pk (d_pack_pk rho t1) = (rho, t1) /\ length (d_pack_pk rho t1) = 1952%nat.
Proof.
  intros Hr [Hl Ht]. unfold d_unpack_pk, d_pack_pk. rewrite (slice_all 32 rho) by done. split.
  - f_equal; [rewrite <- (app_nil_l (rho ++ _)); by apply (slice_app_exact [] rho)|]. rewrite <- (app_nil_r (concat _)).
    by apply (pieces_roundtrip _ _ _ _ _ _ _ _ _ Hr length_polyt1 polyt1_roundtrip).
  - rewrite length_app, Hr, (length_pieces _ _ _ length_polyt1), Hl. done.
Qed.
Lemma sk_roundtrip rho tr key t0 s1 s2 : length rho = 32%nat -> length key = 32%nat -> length tr = 64%nat ->
  vec DK (poly_in (-4095) 4096) t0 -> vec DL (poly_in (-4) 4) s1 -> vec DK (poly_in (-4) 4) s2 ->
  d_unpack_sk (d_pack_sk rho tr key t0 s1 s2) = (rho, tr, key, t0, s1, s2) /\ length (d_pack_sk rho tr key t0 s1 s2) = 4032%nat.
Proof.
  intros Hr Hk Htr [L0 H0] [L1 H1] [L2 H2]. unfold d_unpack_sk, d_pack_sk. rewrite (slice_all 32 rho), (slice_all 32 key), (slice_all 64 tr) by done.
  set (e1 := concat (map d_polyeta_pack s1)). set (e2 := concat (map d_polyeta_pack s2)). set (e0 := concat (map d_polyt0_pack t0)).
  assert (Le1 : length e1 = (DL * 128)%nat) by (unfold e1; by rewrite (length_pieces _ _ _ length_polyeta), L1).
  assert (Le2 : length e2 = (DK * 128)%nat) by (unfold e2; by rewrite (length_pieces _ _ _ length_polyeta), L2).
  assert (Le0 : length e0 = (DK * 416)%nat) by (unfold e0; by rewrite (length_pieces _ _ _ length_polyt0), L0).
  split; [|rewrite !length_app, Hr, Hk, Htr, Le1, Le2, Le0; done]. repeat f_equal.
  - by apply (slice_app_exact [] rho).
  - rewrite app_assoc. apply slice_app_exact; [rewrite length_app; lia|done].
  - by apply slice_app_exact.
  - replace (rho ++ key ++ tr ++ e1 ++ e2 ++ e0) with ((rho ++ key ++ tr ++ e1 ++ e2) ++ e0 ++ []) by (rewrite app_nil_r, <- !app_assoc; done).
    apply (pieces_roundtrip d_polyt0_unpack d_polyt0_pack _ (rho ++ key ++ tr ++ e1 ++ e2) [] t0 DK (128 + DL * 128 + DK * 128) 416 ltac:(rewrite !length_app, Hr, Hk, Htr, Le1, Le2; reflexivity) length_polyt0 polyt0_roundtrip); done.
  - replace (rho ++ key ++ tr ++ e1 ++ e2 ++ e0) with ((rho ++ key ++ tr) ++ e1 ++ (e2 ++ e0)) by (rewrite <- !app_assoc; done).
    apply (pieces_roundtrip d_polyeta_unpack d_polyeta_pack _ (rho ++ key ++ tr) (e2 ++ e0) s1 DL 128 128 ltac:(rewrite !length_app, Hr, Hk, Htr; reflexivity) length_polyeta polyeta_roundtrip); done.
  - replace (rho ++ key ++ tr ++ e1 ++ e2 ++ e0) with ((rho ++ key ++ tr ++ e1) ++ e2 ++ e0) by (rewrite <- !app_assoc; done).
    apply (pieces_roundtrip d_polyeta_unpack d_polyeta_pack _ (rho ++ key ++ tr ++ e1) e0 s2 DK (128 + DL * 128) 128 ltac:(rewrite !length_app, Hr, Hk, Htr, Le1; reflexivity) length_polyeta polyeta_roundtrip); done.
Qed.

(** * Hints

    The positions of the ones of a row, in order. *)
Fixpoint ones (h : poly) (n : nat) : list Z :=
  match n with O => [] | S n => ones h n ++ (if h.[n] =? 1 then [Z.of_nat n] else []) end.
Definition hint_poly (h : poly) : Prop := length h = 256%nat /\ forall i, (i < 256)%nat -> h.[i] = 0 \/ h.[i] = 1.
Definition hint_count (h : list poly) : nat := length (concat (map (fun p => ones p 256) h)).

Lemma ones_range h n : Forall (fun p => 0 <= p < Z.of_nat n) (ones h n).
Proof.
  induction n as [|n IH]; [constructor|]. cbn [ones]. apply Forall_app. split.
  - eapply List.Forall_impl; [|exact IH]. cbv beta. lia.
  - case_match; repeat constructor; lia.
Qed.
Lemma ones_get h n t : (t < length (ones h n))%nat -> 0 <= (ones h n).[t] < Z.of_nat n.
Proof. intros Ht. pose proof (ones_range h n) as H. rewrite List.Forall_forall in H. apply H. unfold get. by apply nth_In. Qed.
Lemma ones_sorted h n t : (S t < length (ones h n))%nat -> (ones h n).[t] < (ones h n).[S t].
Proof.
  induction n as [|n IH]; cbn [ones]; [cbn; lia|]. rewrite length_app. intros Ht.
  destruct (Nat.lt_ge_cases (S t) (length (ones h n))).
  - rewrite !get_app_l by lia. by apply IH.
  - case_match; [|cbn in Ht; lia]. cbn in Ht. rewrite get_app_l by lia. rewrite (get_app_r _ _ (S t)) by lia.
    replace (S t - length (ones h n))%nat with 0%nat by lia. rewrite get_cons_0. by apply ones_get; lia.
Qed.
Lemma length_ones_le h n : (length (ones h n) <= n)%nat.
Proof. induction n as [|n IH]; cbn [ones]; [done|]. rewrite length_app. case_match; cbn; lia. Qed.

(** ** Packing *)

Lemma hint_step_zero h j hs k : h.[j] = 0 -> (k < length hs)%nat -> bytes hs -> hint_step h j (hs, k) = (hs, k).
Proof.
  intros E Hk Hb. unfold hint_step. rewrite E. change (Z.shiftr (Z.lor (u32 0) (u32 (i32 (- 0)))) 31) with 0.
  change (u32 (0 - 0)) with 0. rewrite Z.land_0_l, Z.lor_0_l. pose proof (bytes_get hs k Hb) as B. unfold isbyte in B.
  replace (Z.land (u32 (Z.lnot 0)) hs.[k]) with hs.[k] by (rewrite Z.land_comm; symmetry; apply u32_id; lia).
  change (Z.land hs.[k] 255) with (u8 hs.[k]). rewrite !(u8_id hs.[k]) by lia. change (Z.to_nat (Z.land 0 1)) with 0%nat. rewrite Nat.add_0_r. f_equal.
  apply array_ext; [apply length_upd|]. intros i Hi. destruct (Nat.eq_dec i k) as [->|N]; [by rewrite get_upd_eq|by rewrite get_upd_ne].
Qed.
Lemma hint_step_one h j hs k : h.[j] = 1 -> (j < 256)%nat -> 0 <= hs.[k] < 256 -> hint_step h j (hs, k) = (hs.[k <- Z.of_nat j], S k).
Proof.
  intros E Hj B. unfold hint_step. rewrite E. change (Z.shiftr (Z.lor (u32 1) (u32 (i32 (- 1)))) 31) with 1.
  change (u32 (Z.lnot (u32 (0 - 1)))) with 0. rewrite Z.land_0_l, Z.lor_0_r. change (u32 (0 - 1)) with 0xffffffff.
  rewrite (u8_id (Z.of_nat j)) by lia. rewrite (Z.land_comm 0xffffffff). change (Z.land (Z.of_nat j) 0xffffffff) with (u32 (Z.of_nat j)).
  rewrite u32_id by lia. change (Z.land (Z.of_nat j) 255) with (u8 (Z.of_nat j)). rewrite !(u8_id (Z.of_nat j)) by lia.
  change (Z.to_nat (Z.land 1 1)) with 1%nat. by rewrite Nat.add_1_r.
Qed.
Lemma bytes_ones h n : (n <= 256)%nat -> bytes (ones h n).
Proof. intros Hn. eapply List.Forall_impl; [|apply ones_range]. cbv beta. unfold isbyte. lia. Qed.

(** One row: its positions go where the zeros were. *)
Lemma hint_row_pack h P m T n : hint_poly h -> bytes P -> bytes T -> T <> [] -> (n <= 256)%nat -> (length (ones h n) <= m)%nat ->
  for_ 0 n (hint_step h) (P ++ zeros m ++ T, length P) = ((P ++ ones h n) ++ zeros (m - length (ones h n)) ++ T, length (P ++ ones h n)).
Proof.
  intros [Hl Hh] HP HT HT0 Hn. induction n as [|n IH]; intros Hm.
  - rewrite for_empty by lia. cbn [ones length]. by rewrite app_nil_r, Nat.sub_0_r.
  - cbn [ones] in *. rewrite length_app in Hm. rewrite for_last, IH by lia. clear IH. set (O := ones h n) in *.
    assert (BO : bytes O) by (apply bytes_ones; lia).
    assert (BS : bytes ((P ++ O) ++ zeros (m - length O) ++ T)) by (rewrite !bytes_app; repeat split; try done; apply bytes_zeros).
    destruct (Hh n ltac:(lia)) as [E|E].
    + rewrite hint_step_zero; [|done| |done].
      * rewrite E. cbn [Z.eqb]. by rewrite app_nil_r.
      * rewrite !length_app, length_zeros. destruct T; [done|]. cbn [length]. lia.
    + rewrite E in *. cbn [Z.eqb Pos.eqb length] in *. rewrite hint_step_one; [|done|lia|by apply bytes_get].
      f_equal; [|rewrite !length_app; cbn; lia]. destruct (m - length O)%nat as [|m'] eqn:Em; [lia|].
      rewrite !app_assoc. rewrite <- (app_assoc (P ++ O)). unfold upd. rewrite insert_app_r_alt by lia. rewrite Nat.sub_diag.
      rewrite zeros_S. cbn [app insert list_insert]. rewrite !length_app. cbn [length].
      replace (m - (length O + 1))%nat with m' by lia. by rewrite <- !app_assoc.
Qed.

(** All rows: the positions, the zeros and the running counts. *)
Definition positions (h : list poly) : list Z := concat (map (fun p => ones p 256) h).
Definition counts (h : list poly) (n : nat) : list Z := tab n (fun t => Z.of_nat (length (positions (take (S t) h)))).
Lemma positions_app a b : positions (a ++ b) = positions a ++ positions b.
Proof. unfold positions. by rewrite map_app, concat_app. Qed.
Lemma bytes_positions h : bytes (positions h).
Proof. unfold positions. induction h as [|p h IH]; [constructor|]. cbn [map concat]. apply bytes_app. split; [by apply bytes_ones|done]. Qed.
Lemma take_row (h : list poly) i : (i < length h)%nat -> take (S i) h = take i h ++ [row [] h i].
Proof.
  intros Hi. unfold row. rewrite (take_S_r h i (nth i h [])); [done|]. rewrite nth_lookup.
  destruct (lookup_lt_is_Some_2 h i Hi) as [x E]. by rewrite E.
Qed.
Lemma counts_S h i : counts h (S i) = counts h i ++ [Z.of_nat (length (positions (take (S i) h)))].
Proof. unfold counts, tab. rewrite seq_S, map_app. done. Qed.
Lemma length_counts h n : length (counts h n) = n.
Proof. apply length_tab. Qed.
Lemma positions_le h i : (length (positions (take i h)) <= length (positions h))%nat.
Proof. rewrite <- (take_drop i h) at 2. rewrite positions_app, length_app. lia. Qed.
Lemma bytes_counts h n : (length (positions h) <= 55)%nat -> bytes (counts h n).
Proof. intros H. apply bytes_tab. intros i _. pose proof (positions_le h (S i)). unfold isbyte. lia. Qed.

Lemma pack_hints_spec h : vec DK hint_poly h -> (hint_count h <= DOMEGA)%nat ->
  pack_hints h = positions h ++ zeros (DOMEGA - length (positions h)) ++ counts h DK.
Proof.
  unfold hint_count. fold (positions h). unfold DOMEGA, DK. intros [Hl Hh] Hn. unfold pack_hints.
  set (st := for_ _ _ _ _).
  assert (H : st = (positions (take 6 h) ++ zeros (55 - length (positions (take 6 h))) ++ counts h 6 ++ zeros (6 - 6), length (positions (take 6 h)))).
  { unfold st. clear st. apply (for_ind (fun i s => s = (positions (take i h) ++ zeros (55 - length (positions (take i h))) ++ counts h i ++ zeros (6 - i), length (positions (take i h))))); [unfold DK; lia|done|].
    intros i s Hi ->. unfold DK in Hi. pose proof (positions_le h (S i)) as LS. pose proof (take_row h i ltac:(lia)) as TR.
    assert (Hp : hint_poly (row [] h i)) by (rewrite List.Forall_forall in Hh; apply Hh; unfold row; apply nth_In; lia).
    assert (PS : positions (take (S i) h) = positions (take i h) ++ ones (row [] h i) 256) by (rewrite TR, positions_app; unfold positions; cbn [map concat]; by rewrite app_nil_r).
    rewrite PS in LS. rewrite length_app in LS.
    rewrite hint_row_pack; [|done|apply bytes_positions|apply bytes_app; split; [by apply bytes_counts|apply bytes_zeros]| |lia|lia].
    2: { destruct (6 - i)%nat eqn:E; [lia|]. rewrite zeros_S. intros X%app_eq_nil. by destruct X. }
    rewrite <- PS. replace (55 - length (positions (take i h)) - length (ones (row [] h i) 256))%nat with (55 - length (positions (take (S i) h)))%nat by (rewrite PS, length_app; lia).
    pose proof (positions_le h (S i)) as LS2. rewrite u8_id by lia. f_equal. unfold DOMEGA, upd.
    rewrite app_assoc. rewrite insert_app_r_alt by (rewrite length_app, length_zeros; lia). rewrite length_app, length_zeros.
    rewrite insert_app_r_alt by (rewrite length_counts; lia). rewrite length_counts.
    replace (55 + i - (length (positions (take (S i) h)) + (55 - length (positions (take (S i) h)))) - i)%nat with 0%nat by lia.
    destruct (6 - i)%nat as [|m] eqn:E; [lia|]. replace (6 - S i)%nat with m by lia. rewrite zeros_S, counts_S. cbn [insert list_insert].
    by rewrite <- !app_assoc. }
  rewrite H. cbn [fst]. rewrite (take_ge h 6) by lia. change (zeros (6 - 6)) with ([] : list Z). by rewrite app_nil_r.
Qed.

(** ** Unpacking *)

Definition set_ones (Q : list Z) (h : poly) : poly := foldl (fun h p => h.[Z.to_nat p <- 1]) h Q.
Lemma set_ones_ones h n : hint_poly h -> (n <= 256)%nat -> set_ones (ones h n) (zeros 256) = take n h ++ zeros (256 - n).
Proof.
  intros [Hl Hh]. induction n as [|n IH]; intros Hn; [done|]. cbn [ones]. unfold set_ones in *. rewrite foldl_app, IH by lia. clear IH.
  assert (Lt : length (take n h) = n) by (rewrite length_take; lia).
  assert (T : take (S n) h = take n h ++ [h.[n]]).
  { rewrite (take_S_r h n h.[n]); [done|]. unfold get. rewrite nth_lookup. destruct (lookup_lt_is_Some_2 h n ltac:(lia)) as [x E]. by rewrite E. }
  rewrite T, <- app_assoc. replace (256 - n)%nat with (S (256 - S n)) by lia. rewrite zeros_S. destruct (Hh n ltac:(lia)) as [E|E]; rewrite E; [done|].
  cbn [Z.eqb Pos.eqb foldl]. rewrite Nat2Z.id. unfold upd. rewrite insert_app_r_alt by lia. rewrite Lt, Nat.sub_diag. done.
Qed.
Lemma hint_row_spec hs k Q : forall j h, (k <= j)%nat -> (forall t, (t < length Q)%nat -> hs.[j + t] = Q.[t]) ->
  (forall t, (S t < length Q)%nat -> Q.[t] < Q.[S t]) -> ((k < j)%nat -> (0 < length Q)%nat -> hs.[j - 1] < Q.[0]) ->
  hint_row (length Q) hs k j h = Some (set_ones Q h).
Proof.
  induction Q as [|p Q IH]; intros j h Hk HQ HS H0; [done|]. cbn [length hint_row].
  assert (Ej : hs.[j] = p) by (specialize (HQ 0%nat ltac:(cbn; lia)); by rewrite Nat.add_0_r in HQ).
  assert (G : (k <? j)%nat && (hs.[j] <=? hs.[j - 1]) = false).
  { destruct (Nat.ltb_spec k j); [|done]. cbn [andb]. specialize (H0 ltac:(done) ltac:(cbn; lia)). rewrite get_cons_0 in H0. rewrite Ej. lia. }
  rewrite G, Ej. rewrite IH; [done|lia| | |].
  - intros t Ht. specialize (HQ (S t) ltac:(cbn; lia)). rewrite get_cons_S in HQ. rewrite <- HQ. f_equal. lia.
  - intros t Ht. apply (HS (S t)). cbn. lia.
  - intros _ HL. replace (S j - 1)%nat with j by lia. rewrite Ej. apply (HS 0%nat). cbn. lia.
Qed.

Section unpack.
Context (h : list poly).
Hypothesis Hh : vec DK hint_poly h.
Hypothesis Hn : (hint_count h <= DOMEGA)%nat.
Let hs := positions h ++ zeros (DOMEGA - length (positions h)) ++ counts h DK.

Lemma hs_count i : (i < DK)%nat -> hs.[DOMEGA + i] = Z.of_nat (length (positions (take (S i) h))).
Proof.
  intros Hi. change (hint_count h) with (length (positions h)) in Hn. unfold hs. rewrite app_assoc.
  rewrite get_app_r by (rewrite length_app, length_zeros; lia). rewrite length_app, length_zeros.
  replace (DOMEGA + i - _)%nat with i by lia. unfold counts. by rewrite get_tab.
Qed.
Lemma hs_row i t : (i < DK)%nat -> (t < length (ones (row [] h i) 256))%nat -> hs.[length (positions (take i h)) + t] = (ones (row [] h i) 256).[t].
Proof.
  intros Hi Ht. destruct Hh as [Hl _]. unfold hs.
  assert (E : positions h = positions (take i h) ++ ones (row [] h i) 256 ++ positions (drop (S i) h)).
  { rewrite <- (take_drop (S i) h) at 1. rewrite positions_app, take_row by lia. rewrite positions_app, <- app_assoc. unfold positions at 2. cbn [map concat].
    by rewrite app_nil_r. }
  rewrite E, <- !app_assoc. rewrite get_app_r by lia. rewrite get_app_l by lia. f_equal. lia.
Qed.
Lemma hint_rows_spec m i : (i + m = DK)%nat -> hint_rows m i hs (length (positions (take i h))) = Some (drop i h, length (positions h)).
Proof.
  destruct Hh as [Hl HF]. change (hint_count h) with (length (positions h)) in Hn. revert i. induction m as [|m IH]; intros i Hi.
  - cbn [hint_rows]. rewrite (take_ge h i), (drop_ge h i) by lia. done.
  - cbn [hint_rows]. rewrite hs_count by lia. pose proof (positions_le h (S i)) as L.
    assert (PS : positions (take (S i) h) = positions (take i h) ++ ones (row [] h i) 256) by (rewrite take_row, positions_app by lia; unfold positions; cbn [map concat]; by rewrite app_nil_r).
    assert (Hp : hint_poly (row [] h i)) by (rewrite List.Forall_forall in HF; apply HF; unfold row; apply nth_In; lia).
    assert (LP : length (positions (take (S i) h)) = (length (positions (take i h)) + length (ones (row [] h i) 256))%nat) by (by rewrite PS, length_app).
    destruct (Z.ltb_spec (Z.of_nat (length (positions (take (S i) h)))) (Z.of_nat (length (positions (take i h))))); [lia|].
    destruct (Z.ltb_spec (Z.of_nat DOMEGA) (Z.of_nat (length (positions (take (S i) h))))); [lia|]. cbn [orb]. rewrite Nat2Z.id.
    replace (length (positions (take (S i) h)) - length (positions (take i h)))%nat with (length (ones (row [] h i) 256)) by lia.
    rewrite hint_row_spec; [|lia| |by apply ones_sorted|lia].
    + rewrite IH by lia. rewrite set_ones_ones by done. rewrite take_ge by (destruct Hp; lia). rewrite Nat.sub_diag, app_nil_r.
      do 2 f_equal. symmetry. apply drop_S. unfold row. rewrite nth_lookup. destruct (lookup_lt_is_Some_2 h i ltac:(lia)) as [x E]. by rewrite E.
    + intros t Ht. apply hs_row; [lia|done].
Qed.
Lemma unpack_pack_hints : unpack_hints (pack_hints h) = Some h.
Proof.
  rewrite pack_hints_spec by done. fold hs. unfold unpack_hints. pose proof (hint_rows_spec DK 0 eq_refl) as E.
  change (length (positions (take 0 h))) with 0%nat in E. change (drop 0 h) with h in E. rewrite E.
  change (hint_count h) with (length (positions h)) in Hn.
  destruct (existsb _ _) eqn:X; [|done]. apply existsb_exists in X as (j & Hj%in_seq & X). exfalso. apply negb_true_iff, Z.eqb_neq in X. apply X.
  unfold hs. rewrite get_app_r by lia. rewrite get_app_l by (rewrite length_zeros; lia). apply get_zeros.
Qed.
End unpack.

Lemma sig_parts c z hs : length c = DCTILDE -> vec DL (poly_in (1 - DGAMMA1) DGAMMA1) z ->
  let sig := c ++ concat (map d_polyz_pack z) ++ hs in
  slice 0 DCTILDE sig = c /\ tab DL (fun i => d_polyz_unpack (slice (DCTILDE + i * 640) 640 sig)) = z /\ drop (DCTILDE + DL * 640) sig = hs.
Proof.
  intros Hc [Lz Hz]. cbv zeta. split; [|split].
  - by apply (slice_app_exact [] c).
  - by apply (pieces_roundtrip d_polyz_unpack d_polyz_pack _ c hs z DL DCTILDE 640 Hc length_polyz polyz_roundtrip).
  - rewrite app_assoc. apply drop_app_length'. by rewrite length_app, (length_pieces _ _ _ length_polyz), Hc, Lz.
Qed.
(** C31. A signature is read back as it was written.  For a challenge of 48
    bytes, five response polynomials in [(-gamma1, gamma1]] and hints of zeros
    and ones, at most 55 of them, [d_unpack_sig] accepts the bytes of
    [d_pack_sig] and returns the three parts, and there are 3309 = 48 + 5 * 640 + 55 + 6 bytes. *)
Theorem signature_roundtrip c z h : length c = DCTILDE -> vec DL (poly_in (1 - DGAMMA1) DGAMMA1) z -> vec DK hint_poly h -> (hint_count h <= DOMEGA)%nat ->
  d_unpack_sig (d_pack_sig c z h) = Some (c, z, h) /\ length (d_pack_sig c z h) = (DCTILDE + DL * 640 + DOMEGA + DK)%nat.
Proof.
  intros Hc Hz Hh Hn. unfold d_unpack_sig, d_pack_sig. rewrite (slice_all DCTILDE c) by done.
  destruct (sig_parts c z (pack_hints h) Hc Hz) as (-> & -> & ->). rewrite unpack_pack_hints by done. split; [done|].
  rewrite pack_hints_spec by done. rewrite !length_app, length_zeros, length_counts, Hc, (length_pieces _ _ _ length_polyz), (proj1 Hz).
  change (length (positions h) <= DOMEGA)%nat in Hn. lia.
Qed.
Definition wit_hints : list poly := tab DK (fun i => (zeros 256).[i + 7 <- 1].[200 <- 1]).
Lemma signature_roundtrip_witness :
  d_unpack_sig (d_pack_sig (zeros 48) (tab DL (fun i => tab 256 (fun j => Z.of_nat (j * 2000) - 524287 + Z.of_nat i))) wit_hints)
  = Some (zeros 48, tab DL (fun i => tab 256 (fun j => Z.of_nat (j * 2000) - 524287 + Z.of_nat i)), wit_hints).
Proof.
  apply (signature_roundtrip (zeros 48) (tab DL (fun i => tab 256 (fun j => Z.of_nat (j * 2000) - 524287 + Z.of_nat i))) wit_hints).
  - done.
  - split; [done|]. apply Forall_tab. intros i Hi. unfold DL in Hi. apply poly_in_of; [done|]. intros j Hj. rewrite get_tab by done. unfold DGAMMA1. lia.
  - split; [done|]. apply Forall_tab. intros i Hi. unfold DK in Hi. split; [by rewrite !length_upd|]. intros j Hj.
    destruct (Nat.eq_dec j 200) as [->|N]; [rewrite get_upd_eq by (rewrite length_upd, length_zeros; lia); by right|]. rewrite get_upd_ne by done.
    destruct (Nat.eq_dec j (i + 7)) as [->|N']; [rewrite get_upd_eq by (rewrite length_zeros; lia); by right|]. rewrite get_upd_ne, get_zeros by done. by left.
  - apply Nat.leb_le. vm_compute. reflexivity.
Defined.
