(* ===== verification/DsaSign.v ===== *)
(** ML-DSA-65 ([sec/pqc/mldsa/]): key generation, signing and verification
    ([mldsa_sample.c], [mldsa.c], [mldsa_sign.c], [mldsa_verify.c]).

    The retry loop of signing has the code's own bound of 10000.  Verification
    is written over the function that applies a hint, so that the standard's
    can be put in the place of [d_use_hint].  Allocation succeeds. *)
From S2P Require Import Prelude Str Hex Sha2 Keccak Ntt MlDsa DsaPack.
From Stdlib Require String.
Import (notations) String.
Open Scope Z_scope.

Definition DPK : nat := 1952.
Definition DSK : nat := 4032.
Definition DSIG : nat := 3309.

Section scheme.
Context `{X : Shake}.

Definition d_expand_a (rho : list Z) : run (list (list poly)) :=
  run_map (fun i => run_map (fun j => d_poly_uniform rho (u16 (Z.shiftl (Z.of_nat i) 8 + Z.of_nat j))) (seq 0 DL)) (seq 0 DK).
Definition d_matrix_pointwise (mat : list (list poly)) (v : list poly) : list poly :=
  tab DK (fun i =>
    for_ 1 DL (fun j t => d_poly_add t (d_poly_pointwise (row [] (row [] mat i) j) (row [] v j)))
      (d_poly_pointwise (row [] (row [] mat i) 0) (row [] v 0))).

(** * Key generation *)

(** From [memcpy (s1hat, s1)] on. *)
Definition keygen_t (mat : list (list poly)) (s1 s2 : list poly) (i : nat) : poly :=
  d_poly_caddq (d_poly_add (d_invntt (d_poly_reduce (row [] (d_matrix_pointwise mat (map d_ntt s1)) i))) (row [] s2 i)).
Definition keygen_keys (rho key : list Z) (mat : list (list poly)) (s1 s2 : list poly) : list Z * list Z :=
  let t := tab DK (keygen_t mat s1 s2) in
  let t1 := map (map (fun x => fst (d_power2round x))) t in
  let t0 := map (map (fun x => snd (d_power2round x))) t in
  let pk := d_pack_pk rho t1 in
  let tr := shake256 pk 64 in
  (pk, d_pack_sk rho tr key t0 s1 s2).
Definition d_keygen (xi : list Z) : run (list Z * list Z) :=
  let out := shake256 (slice 0 32 xi ++ [u8 (Z.of_nat DK); u8 (Z.of_nat DL)]) 128 in
  let rho := slice 0 32 out in
  let rhoprime := slice 32 64 out in
  let key := slice 96 32 out in
  let* mat := d_expand_a rho in
  let* s1 := run_map (fun i => d_poly_uniform_eta rhoprime (u16 (Z.of_nat i))) (seq 0 DL) in
  let* s2 := run_map (fun i => d_poly_uniform_eta rhoprime (u16 (Z.of_nat (DL + i)))) (seq 0 DK) in
  Ret (keygen_keys rho key mat s1 s2).

(** * Signing *)

(** What the retry loop reads. *)
Record signer := mkSigner { g_mat : list (list poly); g_s1 : list poly; g_s2 : list poly; g_t0 : list poly; g_mu : list Z; g_rho : list Z }.
Definition d_sign_setup (m rnd sk : list Z) : run signer :=
  let '(rho, tr, key, t0, s1, s2) := d_unpack_sk sk in
  let mu := shake256 (slice 0 64 tr ++ m) 64 in
  let rhoprime := shake256 (slice 0 32 key ++ slice 0 32 rnd ++ slice 0 64 mu) 64 in
  let* mat := d_expand_a rho in
  Ret (mkSigner mat (map d_ntt s1) (map d_ntt s2) (map d_ntt t0) mu rhoprime).
(** [n += h[i][j]] *)
Definition add_ones (h : poly) (n : Z) : Z := for_ 0 256 (fun j n => u32 (n + h.[j])) n.
(** The third loop, with its [break]: the hints and their number. *)
Fixpoint hint_loop (ixs : list nat) (cp : poly) (t0 w0 w1 : list poly) (n : Z) : option (list poly * Z) :=
  match ixs with
  | [] => Some ([], n)
  | i :: ixs =>
      let h := d_poly_reduce (d_invntt (d_poly_pointwise cp (row [] t0 i))) in
      if d_chknorm h DGAMMA2 then None
      else
        let w := d_poly_add (row [] w0 i) h in
        let h := tab 256 (fun j => i32 (d_make_hint w.[j] (row [] w1 i).[j])) in
        match hint_loop ixs cp t0 w0 w1 (add_ones h n) with None => None | Some (hs, n) => Some (h :: hs, n) end
  end.
(** One attempt; [None] is [continue]. *)
Definition d_sign_try (g : signer) (nonce : Z) : run (option (list Z)) :=
  let y := tab DL (fun i => d_poly_uniform_gamma1 (g_rho g) (u16 (nonce + Z.of_nat i))) in
  let w := map (fun p => d_poly_caddq (d_invntt (d_poly_reduce p))) (d_matrix_pointwise (g_mat g) (map d_ntt y)) in
  let w0 := map (map (fun x => snd (d_decompose x))) w in
  let w1 := map (map (fun x => fst (d_decompose x))) w in
  let c := shake256 (slice 0 64 (g_mu g) ++ concat (map d_polyw1_pack w1)) DCTILDE in
  let* cp := d_poly_challenge c in
  let cp := d_ntt cp in
  let z := tab DL (fun i => d_poly_reduce (d_poly_add (d_invntt (d_poly_pointwise cp (row [] (g_s1 g) i))) (row [] y i))) in
  if existsb (fun p => d_chknorm p (DGAMMA1 - DBETA)) z then Ret None
  else
    let w0 := tab DK (fun i => d_poly_reduce (d_poly_sub (row [] w0 i) (d_invntt (d_poly_pointwise cp (row [] (g_s2 g) i))))) in
    if existsb (fun p => d_chknorm p (DGAMMA2 - DBETA)) w0 then Ret None
    else
      match hint_loop (seq 0 DK) cp (g_t0 g) w0 w1 0 with
      | None => Ret None
      | Some (h, n) => if Z.of_nat DOMEGA <? n then Ret None else Ret (Some (d_pack_sig c z h))
      end.
Fixpoint d_sign_loop (tries : nat) (g : signer) (nonce : Z) : run (option (list Z)) :=
  match tries with
  | O => Ret None
  | S tries =>
      let* r := d_sign_try g nonce in
      match r with Some sig => Ret (Some sig) | None => d_sign_loop tries g (u16 (nonce + Z.of_nat DL)) end
  end.
(** [None] is the result -1. *)
Definition d_sign_internal (m rnd sk : list Z) : run (option (list Z)) :=
  let* g := d_sign_setup m rnd sk in d_sign_loop (Z.to_nat 10000) g 0.

(** * Verification *)

Definition verify_with (use_hint : Z -> Z -> Z) (sig m pk : list Z) : run Z :=
  let '(rho, t1) := d_unpack_pk pk in
  match d_unpack_sig sig with
  | None => Ret (-1)
  | Some (c, z, h) =>
      if existsb (fun p => d_chknorm p (DGAMMA1 - DBETA)) z then Ret (-1)
      else
        let tr := shake256 pk 64 in
        let mu := shake256 (slice 0 64 tr ++ m) 64 in
        let* cp := d_poly_challenge c in
        let* mat := d_expand_a rho in
        let w := d_matrix_pointwise mat (map d_ntt z) in
        let cp := d_ntt cp in
        let w1 := tab DK (fun i =>
          let t := d_poly_pointwise cp (d_ntt (d_poly_shiftl (row [] t1 i))) in
          let r := d_poly_caddq (d_invntt (d_poly_reduce (d_poly_sub (row [] w i) t))) in
          tab 256 (fun j => use_hint r.[j] (row [] h i).[j])) in
        let c2 := shake256 (slice 0 64 mu ++ concat (map d_polyw1_pack w1)) DCTILDE in
        Ret (if crypto_ct_cmp (Some c) (Some c2) DCTILDE =? 0 then 0 else -1)
  end.
Definition d_verify_internal (sig m pk : list Z) : run Z := verify_with d_use_hint sig m pk.

(** * Entry points *)

Definition crypto_mldsa65_keygen_internal (seed : OoStr) : run OoStr :=
  match d_hex_load seed 32 with
  | None => Ret (oo_str_lit "")
  | Some xi => let* keys := d_keygen xi in let '(pk, sk) := keys in Ret (d_hex_out_cat pk DPK sk DSK)
  end.
(** A hedge of 64 characters that is not hex leaves what was read of it. *)
Fixpoint hex_partial (i n : nat) (d : list Z) : list Z :=
  match n with
  | O => []
  | S m =>
      let hi := d_hex_digit d.[2 * i] in
      let lo := d_hex_digit d.[2 * i + 1] in
      if (hi <? 0) || (lo <? 0) then zeros n else u8 (Z.lor (Z.shiftl hi 4) lo) :: hex_partial (S i) m d
  end.
Definition rnd_bytes (rnd : OoStr) : list Z :=
  match sdata rnd with
  | None => zeros 32
  | Some d =>
      if slen rnd =? 32 then take 32 d
      else if slen rnd =? 64 then hex_partial 0 32 d
      else zeros 32
  end.
Definition crypto_mldsa65_sign_internal (sk msg rnd : OoStr) : run OoStr :=
  match d_hex_load sk DSK with
  | None => Ret (oo_str_lit "")
  | Some skb =>
      match d_load_msg msg 4096 with
      | None => Ret (oo_str_lit "")
      | Some m =>
          let* r := d_sign_internal m (rnd_bytes rnd) skb in
          match r with None => Ret (oo_str_lit "") | Some sig => Ret (d_hex_out sig DSIG) end
      end
  end.
Definition crypto_mldsa65_verify_internal (pk msg sig : OoStr) : run OoStr :=
  match d_hex_load pk DPK with
  | None => Ret (oo_str_lit "")
  | Some pkb =>
      match d_hex_load sig DSIG with
      | None => Ret (oo_str_lit "")
      | Some sigb =>
          match d_load_msg msg 4096 with
          | None => Ret (oo_str_lit "")
          | Some m => let* ok := d_verify_internal sigb m pkb in Ret (oo_str_lit (if ok =? 0 then "OK" else ""))
          end
      end
  end.
End scheme.

(** * Ranges of what is sampled *)

Lemma rej_uniform_ok len : forall n buf a, (length buf <= n)%nat -> bytes buf -> (length a <= len)%nat -> Forall (fun x => 0 <= x <= DQ - 1) a ->
  (length (d_rej_uniform len buf a) <= len)%nat /\ Forall (fun x => 0 <= x <= DQ - 1) (d_rej_uniform len buf a).
Proof.
  induction n as [|n IH]; intros buf a Hn Hb Hl Ha; [destruct buf; [done|cbn in Hn; lia]|].
  destruct buf as [|b0 [|b1 [|b2 buf]]]; cbn [d_rej_uniform]; try done. cbn [length] in Hn. destruct (Nat.ltb_spec (length a) len); [|done].
  apply List.Forall_cons_iff in Hb as [_ Hb]. apply List.Forall_cons_iff in Hb as [_ Hb]. apply List.Forall_cons_iff in Hb as [_ Hb].
  set (t := u32 _). assert (Ht : 0 <= t < 4294967296) by apply u32_range. clearbody t. apply IH; [lia|done| |].
  - case_match; [rewrite length_app; cbn; lia|lia].
  - destruct (Z.ltb_spec t DQ); [|done]. apply Forall_app. split; [done|]. unfold DQ in *. repeat constructor; rewrite i32_id; lia.
Qed.
Lemma refill_ok `{Shake} inp fuel : forall a, (length a <= 256)%nat -> Forall (fun x => 0 <= x <= DQ - 1) a ->
  (length (d_uniform_refill fuel inp a) <= 256)%nat /\ Forall (fun x => 0 <= x <= DQ - 1) (d_uniform_refill fuel inp a).
Proof.
  induction fuel as [|fuel IH]; intros a Hl Ha; cbn [d_uniform_refill]; [done|]. destruct (Nat.ltb_spec (length a) 256); [|done].
  case_match; [done|]. destruct (rej_uniform_ok (256 - length a) _ (shake128 inp 168) [] (Nat.le_refl _) (bytes_128 _ _) ltac:(cbn; lia) ltac:(constructor)) as [L R].
  case_match; [done|]. apply IH; [rewrite length_app; lia|]. by apply Forall_app.
Qed.
Lemma uniform_range `{Shake} seed nonce a : d_poly_uniform seed nonce = Ret a -> poly_in 0 (DQ - 1) a.
Proof.
  unfold d_poly_uniform. intros E. set (inp := slice 0 32 seed ++ _) in *.
  destruct (rej_uniform_ok 256 _ (shake128 inp 1344) [] (Nat.le_refl _) (bytes_128 _ _) ltac:(cbn; lia) ltac:(constructor)) as [L R].
  destruct (refill_ok inp 256 _ L R) as [L' R']. revert E L' R'. generalize (d_uniform_refill 256 inp (d_rej_uniform 256 (shake128 inp 1344) [])) as r.
  clear. intros r E L' R'. destruct (Nat.ltb_spec (length r) 256); [done|]. injection E as <-. split; [lia|done].
Qed.

Lemma rej_eta_ok len : forall buf a, (length a <= len)%nat -> Forall (fun x => -4 <= x <= 4) a -> bytes buf ->
  Forall (fun x => -4 <= x <= 4) (d_rej_eta len buf a).
Proof.
  induction buf as [|b buf IH]; intros a Hl Ha Hb; cbn [d_rej_eta]; [done|]. apply List.Forall_cons_iff in Hb as [B Hb]. unfold isbyte in B.
  destruct (Nat.ltb_spec (length a) len); [|done]. change 15 with (2 ^ 4 - 1). rewrite land_mod, Z.shiftr_div_pow2 by lia. change (2 ^ 4) with 16.
  assert (S : forall t c, 0 <= t < 16 -> forall a, Forall (fun x => -4 <= x <= 4) a -> Forall (fun x => -4 <= x <= 4) (if (t <? 9) && c then a ++ [i32 (4 - t)] else a)).
  { intros t c Ht a' Ha'. destruct (Z.ltb_spec t 9), c; cbn [andb]; try done. apply Forall_app. split; [done|]. repeat constructor; rewrite i32_id; lia. }
  set (a1 := if b mod 16 <? 9 then _ else _). assert (H1 : Forall (fun x => -4 <= x <= 4) a1).
  { pose proof (S (b mod 16) true ltac:(lia) a Ha) as H1. by rewrite andb_true_r in H1. }
  assert (L1 : (length a1 <= len)%nat) by (unfold a1; case_match; [rewrite length_app; cbn; lia|lia]). clearbody a1.
  apply IH; [|by apply S; [lia|]|done]. destruct (b / 16 <? 9), (Nat.ltb_spec (length a1) len); cbn [andb]; try lia. rewrite length_app. cbn. lia.
Qed.
Lemma eta_range `{Shake} seed nonce a : d_poly_uniform_eta seed nonce = Ret a -> poly_in (-4) 4 a.
Proof.
  unfold d_poly_uniform_eta. pose proof (rej_eta_ok 256 (shake256 (slice 0 64 seed ++ nonce_bytes nonce) 544) [] ltac:(cbn; lia) ltac:(constructor) (bytes_256 _ _)) as R.
  revert R. generalize (d_rej_eta 256 (shake256 (slice 0 64 seed ++ nonce_bytes nonce) 544) []) as r. clear. intros r R E.
  destruct (Nat.eqb_spec (length r) 256); [|done]. injection E as <-. by split.
Qed.
Lemma gamma1_range `{Shake} seed nonce : poly_in (1 - DGAMMA1) DGAMMA1 (d_poly_uniform_gamma1 seed nonce).
Proof.
  unfold d_poly_uniform_gamma1. set (b := shake256 _ _). assert (Hb : bytes b) by apply bytes_256. clearbody b. split; [apply length_polyz_unpack|].
  unfold d_polyz_unpack, groups, tab. apply Forall_concat, Forall_map, Forall_forall. intros i _. unfold z_unpack.
  assert (B : forall k, isbyte (slice (5 * i) 5 b).[k]) by (intros; apply bytes_get; by apply bytes_slice). set (s := slice (5 * i) 5 b) in *. clearbody s.
  pose proof (B 2%nat) as B2. pose proof (B 3%nat) as B3. pose proof (B 4%nat) as B4. unfold isbyte, DGAMMA1 in *. clear B Hb.
  change 0xFFFFF with (2 ^ 20 - 1). rewrite land_mod by lia. rewrite Z.shiftr_div_pow2 by lia. rewrite (lor_shiftl _ _ 4) by lia. rewrite (lor_shiftl _ _ 12) by lia.
  set (v := Z.lor (Z.lor _ _) _). clearbody v. repeat constructor; rewrite i32_id; lia.
Qed.
Lemma challenge_loop_range ixs : forall buf signs c p, poly_in (-1) 1 c -> challenge_loop ixs buf signs c = Ret p -> poly_in (-1) 1 p.
Proof.
  induction ixs as [|i ixs IH]; intros buf signs c p Hc E; cbn [challenge_loop] in E; [by injection E as <-|].
  destruct (d_draw (Z.of_nat i) buf) as [[b buf']|]; [|done]. revert E. apply IH. destruct Hc as [Hl Hc].
  assert (U : forall (l : list Z) k v, Forall (fun x => -1 <= x <= 1) l -> -1 <= v <= 1 -> Forall (fun x => -1 <= x <= 1) l.[k <- v])
    by (intros l k v Hl' Hv; apply Forall_insert; done).
  split; [by rewrite !length_upd|]. apply U; [apply U; [done|]|].
  - destruct (Nat.lt_ge_cases (Z.to_nat b) (length c)); [|rewrite get_overflow by done; lia].
    rewrite List.Forall_forall in Hc. apply Hc. unfold get. by apply nth_In.
  - assert (B : Z.land signs 1 = signs mod 2) by exact (land_mod signs 1 ltac:(lia)). rewrite B, i32_id; lia.
Qed.
Lemma challenge_range `{Shake} c p : d_poly_challenge c = Ret p -> poly_in (-1) 1 p.
Proof. apply challenge_loop_range. split; [done|]. apply List.Forall_forall. intros x Hx%repeat_spec. lia. Qed.

Lemma chknorm_spec a B : (forall i, (i < 256)%nat -> -1073741824 < a.[i] < 1073741824) -> B <= 1047552 -> d_chknorm a B = false ->
  forall i, (i < 256)%nat -> - B < a.[i] < B.
Proof.
  intros Ha HB E i Hi. unfold d_chknorm in E. change ((DQ - 1) / 8) with 1047552 in E. destruct (Z.ltb_spec 1047552 B); [lia|].
  assert (N : (B <=? i32 (a.[i] - Z.land (Z.shiftr a.[i] 31) (i32 (2 * a.[i])))) = false).
  { destruct (B <=? _) eqn:F; [|done]. rewrite <- not_true_iff_false in E. exfalso. apply E, existsb_exists. exists i. split; [apply in_seq; lia|exact F]. }
  specialize (Ha i Hi). rewrite shiftr31 in N by lia. destruct (Z.ltb_spec a.[i] 0).
  - rewrite Z.land_m1_l in N. rewrite !i32_id in N by (try rewrite i32_id; lia). lia.
  - rewrite Z.land_0_l, i32_id in N by lia. lia.
Qed.
Lemma poly_in_small lo hi B a : poly_in lo hi a -> - B <= lo -> hi <= B -> small B a.
Proof. intros H Hlo Hhi. split; [apply H|]. intros i Hi. pose proof (poly_in_get _ _ _ _ H Hi). lia. Qed.

(** * The scheme in the transform domain

    [hat p] holds the values of [p] at the 256 roots ([hat_values]); a
    polynomial is determined by them. *)

#[local] Abbreviation near := (Ntt.near DQ).

Lemma hat_comb c1 c2 p p1 p2 : length p = 256%nat -> length p1 = 256%nat -> length p2 = 256%nat ->
  (forall i, (i < 256)%nat -> eqm DQ p.[i] (c1 * p1.[i] + c2 * p2.[i])) ->
  forall i, (i < 256)%nat -> eqm DQ (hat p).[i] (c1 * (hat p1).[i] + c2 * (hat p2).[i]).
Proof. apply (fwds_lin DQ d_zeta d_zeta d_lens c1 c2 p p1 p2 d_lens_good). Qed.
Lemma hat_eqm p p1 : length p = 256%nat -> length p1 = 256%nat -> (forall i, (i < 256)%nat -> eqm DQ p.[i] p1.[i]) ->
  forall i, (i < 256)%nat -> eqm DQ (hat p).[i] (hat p1).[i].
Proof.
  intros Hp H1 H i Hi. rewrite (hat_comb 1 0 p p1 p1) by (try done; intros j Hj; rewrite H by done; unfold eqm; f_equal; lia).
  unfold eqm. f_equal. lia.
Qed.
Lemma hat_inj p p1 : length p = 256%nat -> length p1 = 256%nat -> (forall i, (i < 256)%nat -> eqm DQ (hat p).[i] (hat p1).[i]) ->
  forall i, (i < 256)%nat -> eqm DQ p.[i] p1.[i].
Proof.
  intros Hp H1 H i Hi.
  assert (E : eqv DQ (map (Z.mul RINV) (hat p)) (map (Z.mul RINV) (hat p1))).
  { split; [by rewrite !length_map, !length_hat, Hp, H1|]. rewrite length_map, length_hat, Hp. intros j Hj.
    rewrite !get_map_mul by (rewrite length_hat; lia). by rewrite H. }
  destruct (unhat_hat _ p Hp (Equivalence_Reflexive _)) as [La A]. destruct (unhat_hat _ p1 H1 (Equivalence_Reflexive _)) as [Lb B].
  destruct (unhat_eqv (map (Z.mul RINV) (hat p)) _ ltac:(by rewrite length_map, length_hat) E) as [_ C].
  rewrite <- A by (rewrite La; lia). rewrite C by (rewrite La; lia). apply B. rewrite Lb. lia.
Qed.
Lemma RINV_cancel a b : eqm DQ (RINV * a) (RINV * b) -> eqm DQ a b.
Proof. apply (eqm_cancel DQ RINV 4294967296). reflexivity. Qed.
(** What the inverse transform leaves has the values it was given. *)
Lemma d_invntt_hat r Y : length Y = 256%nat -> near 8380416 r (map (Z.mul RINV) Y) ->
  small 4211200 (d_invntt r) /\ forall i, (i < 256)%nat -> eqm DQ (hat (d_invntt r)).[i] Y.[i].
Proof.
  intros HY H. pose proof (d_invntt_near _ _ H) as N. fold (unhat (map (Z.mul RINV) Y)) in N. pose proof (near_small _ _ _ N) as S. split; [done|].
  intros i Hi. apply RINV_cancel. assert (LY : length (map (Z.mul RINV) Y) = 256%nat) by (by rewrite length_map).
  transitivity (RINV * (hat (unhat (map (Z.mul RINV) Y))).[i]).
  - apply eqm_mul; [done|]. apply hat_eqm; [apply S|by rewrite length_unhat| |done]. intros j Hj. destruct N as (_ & _ & N). by apply N.
  - rewrite hat_unhat by done. rewrite get_map_mul by lia. done.
Qed.

(** Row [i] of the matrix product, at value [k]. *)
Definition dot (m v : list poly) (k : nat) : Z :=
  (row [] m 0).[k] * (row [] v 0).[k] + (row [] m 1).[k] * (row [] v 1).[k] + (row [] m 2).[k] * (row [] v 2).[k] +
  (row [] m 3).[k] * (row [] v 3).[k] + (row [] m 4).[k] * (row [] v 4).[k].
Definition mat_ok (mat : list (list poly)) : Prop := length mat = DK /\ Forall (vec DL (poly_in 0 (DQ - 1))) mat.

Lemma row_map {A B} (f : A -> B) d d' l i : (i < length l)%nat -> row d' (map f l) i = f (row d l i).
Proof. intros Hi. unfold row. rewrite (nth_indep _ d' (f d)) by (by rewrite length_map). apply map_nth. Qed.
Lemma row_tab {A} (d : A) n f i : (i < n)%nat -> row d (tab n f) i = f i.
Proof. apply nth_tab. Qed.
Lemma row_in {A} (P : A -> Prop) d l i : Forall P l -> (i < length l)%nat -> P (row d l i).
Proof. intros H Hi. rewrite List.Forall_forall in H. apply H. by apply nth_In. Qed.

Lemma poly_add_near Ba Bb ra rb pa pb : Ba + Bb <= 2147483647 -> near Ba ra pa -> near Bb rb pb ->
  near (Ba + Bb) (d_poly_add ra rb) (tab 256 (fun i => pa.[i] + pb.[i])).
Proof.
  intros HB (La & La' & A) (Lb & Lb' & B). split; [apply length_tab|]. split; [apply length_tab|]. intros i Hi.
  unfold d_poly_add. rewrite !get_tab by done. destruct (A i Hi) as [Ra Ea]. destruct (B i Hi) as [Rb Eb]. rewrite i32_id by lia.
  split; [lia|]. by rewrite Ea, Eb.
Qed.
Lemma poly_sub_near Ba Bb ra rb pa pb : Ba + Bb <= 2147483647 -> near Ba ra pa -> near Bb rb pb ->
  near (Ba + Bb) (d_poly_sub ra rb) (tab 256 (fun i => pa.[i] - pb.[i])).
Proof.
  intros HB (La & La' & A) (Lb & Lb' & B). split; [apply length_tab|]. split; [apply length_tab|]. intros i Hi.
  unfold d_poly_sub. rewrite !get_tab by done. destruct (A i Hi) as [Ra Ea]. destruct (B i Hi) as [Rb Eb]. rewrite i32_id by lia.
  split; [lia|]. by rewrite Ea, Eb.
Qed.
Lemma poly_reduce_near B r p : B < 2143289344 -> near B r p -> near 6291200 (d_poly_reduce r) p.
Proof.
  intros HB (Lr & Lp & H). split; [apply length_tab|]. split; [done|]. intros i Hi. unfold d_poly_reduce. rewrite get_tab by done.
  destruct (H i Hi) as [R E]. destruct (d_reduce32_spec r.[i]) as [E' R']; [lia|]. split; [lia|]. by rewrite E'.
Qed.
Lemma near_cells B r p p' : length p' = 256%nat -> (forall i, (i < 256)%nat -> eqm DQ p.[i] p'.[i]) -> near B r p -> near B r p'.
Proof. intros Hl E H. pose proof H as (_ & Lp & _). apply (near_ext _ _ p); [split; [lia|rewrite Lp; exact E]|exact H]. Qed.

Lemma matrix_near mat v pv B i : mat_ok mat -> 0 <= B <= 2147483647 -> (forall j, (j < DL)%nat -> near B (row [] v j) (row [] pv j)) -> (i < DK)%nat ->
  near (5 * 8380416) (row [] (d_matrix_pointwise mat v) i) (map (Z.mul RINV) (tab 256 (dot (row [] mat i) pv))).
Proof.
  intros [Lm Hm] HB Hv Hi. unfold d_matrix_pointwise. rewrite row_tab by done. set (m := row [] mat i).
  assert (Vm : vec DL (poly_in 0 (DQ - 1)) m) by (apply row_in; [done|lia]). destruct Vm as [Ll Hl]. clearbody m. clear Hm Lm.
  assert (P : forall j, (j < DL)%nat -> near 8380416 (d_poly_pointwise (row [] m j) (row [] v j)) (tab 256 (fun k => RINV * ((row [] m j).[k] * (row [] pv j).[k])))).
  { intros j Hj. apply (pointwise_near (DQ - 1) B); [unfold DQ; lia|lia|unfold DQ; nia| |by apply Hv]. apply small_near.
    eapply poly_in_small; [apply row_in; [exact Hl|lia]|unfold DQ; lia|lia]. }
  change (for_ 1 DL ?f ?s) with (f 4%nat (f 3%nat (f 2%nat (f 1%nat s)))). cbv beta.
  pose proof (poly_add_near 8380416 8380416 _ _ _ _ ltac:(lia) (P 0%nat ltac:(unfold DL; lia)) (P 1%nat ltac:(unfold DL; lia))) as A1.
  pose proof (poly_add_near (8380416 + 8380416) 8380416 _ _ _ _ ltac:(lia) A1 (P 2%nat ltac:(unfold DL; lia))) as A2.
  pose proof (poly_add_near (8380416 + 8380416 + 8380416) 8380416 _ _ _ _ ltac:(lia) A2 (P 3%nat ltac:(unfold DL; lia))) as A3.
  pose proof (poly_add_near (8380416 + 8380416 + 8380416 + 8380416) 8380416 _ _ _ _ ltac:(lia) A3 (P 4%nat ltac:(unfold DL; lia))) as A4.
  eapply near_le; [|eapply near_cells; [| |exact A4]]; [lia|by rewrite length_map, length_tab|].
  intros k Hk. rewrite !get_tab by done. rewrite get_map_mul by (by rewrite length_tab). rewrite get_tab by done. unfold dot, eqm. f_equal. ring.
Qed.
(** The product, transformed back: its values are those of the matrix times
    the vector. *)
Lemma matrix_back mat v ps B i : mat_ok mat -> 0 <= B -> B + 8 * 8380416 <= 2147483647 -> length v = DL -> length ps = DL ->
  (forall j, (j < DL)%nat -> row [] v j = d_ntt (row [] ps j) /\ small B (row [] ps j)) -> (i < DK)%nat ->
  let r := d_poly_reduce (row [] (d_matrix_pointwise mat v) i) in
  near 8380416 r (map (Z.mul RINV) (tab 256 (dot (row [] mat i) (map hat ps)))).
Proof.
  intros Hm HB HB' Lv Lp H Hi. cbv zeta. eapply near_le; [|eapply poly_reduce_near; [|apply (matrix_near mat v (map hat ps) (B + 8 * 8380416))]]; [lia|lia|done|lia| |done].
  intros j Hj. destruct (H j Hj) as [-> S]. rewrite (row_map hat []) by lia. by apply d_ntt_hat.
Qed.

(** * Keys *)

Lemma run_map_all {A B} (f : A -> run B) (P : B -> Prop) l ys : (forall x y, f x = Ret y -> P y) -> run_map f l = Ret ys -> length ys = length l /\ Forall P ys.
Proof.
  intros H E. pose proof (run_map_Ret f (fun _ y => P y) l ys H E) as F. split; [symmetry; by eapply Forall2_length|].
  clear E. induction F; constructor; auto.
Qed.
Lemma expand_a_ok `{Shake} rho mat : d_expand_a rho = Ret mat -> mat_ok mat.
Proof.
  apply (run_map_all _ (vec DL (poly_in 0 (DQ - 1)))). intros i v E. refine (run_map_all _ (poly_in 0 (DQ - 1)) (seq 0 DL) v _ E).
  intros j p. apply uniform_range.
Qed.

Lemma length_matrix_pointwise mat v : length (d_matrix_pointwise mat v) = DK.
Proof. apply length_tab. Qed.

#[local] Opaque d_expand_a d_poly_uniform d_poly_uniform_eta d_poly_uniform_gamma1 d_poly_challenge d_ntt d_invntt d_matrix_pointwise
  d_pack_pk d_pack_sk d_unpack_pk d_unpack_sk d_pack_sig d_unpack_sig.

(** The equation of a key pair: [t1 * 2^13 + t0 = A s1 + s2], at every root. *)
Definition joined (t1 t0 : poly) : poly := tab 256 (fun k => t1.[k] * 2 ^ DD + t0.[k]).
Record key_pair (mat : list (list poly)) (t1 t0 s1 s2 : list poly) : Prop := {
  kp_mat : mat_ok mat; kp_t1 : vec DK (poly_in 0 1023) t1; kp_t0 : vec DK (poly_in (-4095) 4096) t0;
  kp_s1 : vec DL (poly_in (-4) 4) s1; kp_s2 : vec DK (poly_in (-4) 4) s2;
  kp_eq : forall i k, (i < DK)%nat -> (k < 256)%nat ->
    eqm DQ (hat (joined (row [] t1 i) (row [] t0 i))).[k] (dot (row [] mat i) (map hat s1) k + (hat (row [] s2 i)).[k]) }.

Lemma ntt_rows (l : list poly) lo hi B n : vec n (poly_in lo hi) l -> - B <= lo -> hi <= B ->
  forall j, (j < n)%nat -> row [] (map d_ntt l) j = d_ntt (row [] l j) /\ small B (row [] l j).
Proof.
  intros [Hl H] Hlo Hhi j Hj. split; [by apply row_map; lia|]. eapply poly_in_small; [apply row_in; [exact H|lia]|done|done].
Qed.
Lemma length_row lo hi n (l : list poly) i : vec n (poly_in lo hi) l -> (i < n)%nat -> length (row [] l i) = 256%nat.
Proof. intros [Hl H] Hi. apply (row_in (poly_in lo hi)); [done|lia]. Qed.

(** The polynomial that key generation rounds. *)
Lemma keygen_t_spec mat s1 s2 i : mat_ok mat -> vec DL (poly_in (-4) 4) s1 -> vec DK (poly_in (-4) 4) s2 -> (i < DK)%nat ->
  let t := keygen_t mat s1 s2 i in
  poly_in 0 (DQ - 1) t /\ forall k, (k < 256)%nat -> eqm DQ (hat t).[k] (dot (row [] mat i) (map hat s1) k + (hat (row [] s2 i)).[k]).
Proof.
  intros Hm H1 H2 Hi. cbv zeta. unfold keygen_t.
  pose proof (matrix_back mat (map d_ntt s1) s1 4 i Hm ltac:(lia) ltac:(lia) ltac:(rewrite length_map; apply H1) (proj1 H1)
    (ntt_rows s1 (-4) 4 4 DL H1 ltac:(lia) ltac:(lia)) Hi) as N. cbv zeta in N.
  apply d_invntt_hat in N as [S N]; [|by rewrite length_tab]. set (w := d_invntt _) in *. clearbody w.
  pose proof (length_row _ _ _ _ i H2 Hi) as L2.
  assert (R2 : forall k, (k < 256)%nat -> -4 <= (row [] s2 i).[k] <= 4) by (intros k Hk; apply poly_in_get; [apply row_in; [apply H2|destruct H2; lia]|done]).
  assert (C : forall k, (k < 256)%nat -> (d_poly_caddq (d_poly_add w (row [] s2 i))).[k] = (w.[k] + (row [] s2 i).[k]) mod DQ).
  { intros k Hk. unfold d_poly_caddq, d_poly_add. rewrite !get_tab by done. destruct S as [_ S]. specialize (S k Hk). specialize (R2 k Hk).
    rewrite i32_id by lia. apply d_caddq_mod. unfold DQ. lia. }
  split.
  - apply poly_in_of; [apply length_tab|]. intros k Hk. rewrite C by done. unfold DQ. lia.
  - intros k Hk. rewrite (hat_comb 1 1 _ w (row [] s2 i)); [|apply length_tab|apply S|done| |done].
    + rewrite N by done. rewrite get_tab by done. unfold eqm. f_equal. lia.
    + intros j Hj. rewrite C by done. rewrite eqm_mod. unfold eqm. f_equal. lia.
Qed.
Lemma power2round_poly t : poly_in 0 (DQ - 1) t ->
  let t1 := map (fun x => fst (d_power2round x)) t in let t0 := map (fun x => snd (d_power2round x)) t in
  poly_in 0 1023 t1 /\ poly_in (-4095) 4096 t0 /\ joined t1 t0 = t.
Proof.
  intros Ht. cbv zeta. assert (P : forall k, (k < 256)%nat -> t.[k] = fst (d_power2round t.[k]) * 2 ^ DD + snd (d_power2round t.[k]) /\
    0 <= fst (d_power2round t.[k]) <= 1023 /\ -4095 <= snd (d_power2round t.[k]) <= 4096).
  { intros k Hk. pose proof (poly_in_get _ _ _ k Ht Hk) as R. pose proof (d_power2round_spec t.[k]) as S. unfold DQ in *. specialize (S ltac:(lia)).
    destruct (d_power2round t.[k]). cbn [fst snd]. lia. }
  destruct Ht as [Hl _]. split; [|split].
  - apply poly_in_of; [by rewrite length_map|]. intros k Hk. rewrite (get_map (fun x => fst (d_power2round x))) by lia. by apply P.
  - apply poly_in_of; [by rewrite length_map|]. intros k Hk. rewrite (get_map (fun x => snd (d_power2round x))) by lia. by apply P.
  - apply array_ext; [unfold joined; by rewrite length_tab|]. unfold joined. rewrite length_tab. intros k Hk. rewrite get_tab by done.
    rewrite (get_map (fun x => fst (d_power2round x))), (get_map (fun x => snd (d_power2round x))) by lia. symmetry. by apply P.
Qed.

Lemma vec_tab n P f : (forall i, (i < n)%nat -> P (f i)) -> vec n P (tab n f).
Proof. intros H. split; [apply length_tab|by apply Forall_tab]. Qed.

Lemma keys_spec `{Shake} rho key mat s1 s2 : length rho = 32%nat -> length key = 32%nat -> mat_ok mat -> vec DL (poly_in (-4) 4) s1 -> vec DK (poly_in (-4) 4) s2 ->
  let '(pk, sk) := keygen_keys rho key mat s1 s2 in exists tr t1 t0,
  d_unpack_pk pk = (rho, t1) /\ d_unpack_sk sk = (rho, tr, key, t0, s1, s2) /\ tr = shake256 pk 64 /\ key_pair mat t1 t0 s1 s2.
Proof.
  intros Lr Lk Hm H1 H2. unfold keygen_keys. cbv zeta. rewrite !map_tab.
  pose proof (fun i Hi => keygen_t_spec mat s1 s2 i Hm H1 H2 Hi) as T. cbv zeta in T. set (t := keygen_t mat s1 s2) in *. clearbody t.
  set (t1 := tab DK (fun i => map (fun x => fst (d_power2round x)) (t i))). set (t0 := tab DK (fun i => map (fun x => snd (d_power2round x)) (t i))).
  assert (V1 : vec DK (poly_in 0 1023) t1) by (apply vec_tab; intros i Hi; by apply power2round_poly, T).
  assert (V0 : vec DK (poly_in (-4095) 4096) t0) by (apply vec_tab; intros i Hi; by apply power2round_poly, T).
  assert (KP : key_pair mat t1 t0 s1 s2).
  { split; try done. intros i k Hi Hk. unfold t1, t0. rewrite !row_tab by done. destruct (T i Hi) as [Rt Et].
    destruct (power2round_poly (t i) Rt) as (_ & _ & ->). by apply Et. }
  clearbody t1 t0. clear T.
  exists (shake256 (d_pack_pk rho t1) 64), t1, t0. split; [exact (proj1 (pk_roundtrip rho t1 Lr V1))|].
  split; [|by split]. exact (proj1 (sk_roundtrip rho _ key t0 s1 s2 Lr Lk (length_256 _ _) V0 H1 H2)).
Qed.
Lemma keygen_run `{Shake} xi pk sk : d_keygen xi = Ret (pk, sk) -> exists rho key mat s1 s2, (pk, sk) = keygen_keys rho key mat s1 s2 /\
  length rho = 32%nat /\ length key = 32%nat /\ d_expand_a rho = Ret mat /\ vec DL (poly_in (-4) 4) s1 /\ vec DK (poly_in (-4) 4) s2 /\
  bytes rho /\ bytes key.
Proof.
  intros E. unfold d_keygen in E. set (out := shake256 _ 128) in E. assert (Lo : length out = 128%nat) by apply length_256.
  assert (Bo : bytes out) by apply bytes_256. clearbody out. cbv zeta in E.
  destruct (d_expand_a (slice 0 32 out)) as [mat| |] eqn:Em; cbn [run_bind] in E; [|done|done].
  destruct (run_map _ (seq 0 DL)) as [s1| |] eqn:E1; cbn [run_bind] in E; [|done|done].
  destruct (run_map _ (seq 0 DK)) as [s2| |] eqn:E2; cbn [run_bind] in E; [|done|done].
  exists (slice 0 32 out), (slice 96 32 out), mat, s1, s2. split; [symmetry; exact (Ret_inj _ _ E)|].
  split; [apply length_slice; lia|]. split; [apply length_slice; lia|]. split; [exact Em|]. split; [|split; [|split; by apply bytes_slice]].
  - refine (run_map_all _ (poly_in (-4) 4) (seq 0 DL) s1 _ E1). intros j p. apply eta_range.
  - refine (run_map_all _ (poly_in (-4) 4) (seq 0 DK) s2 _ E2). intros j p. apply eta_range.
Qed.
Lemma keygen_spec `{Shake} xi pk sk : d_keygen xi = Ret (pk, sk) -> exists rho tr key t1 t0 s1 s2 mat,
  d_unpack_pk pk = (rho, t1) /\ d_unpack_sk sk = (rho, tr, key, t0, s1, s2) /\ tr = shake256 pk 64 /\
  d_expand_a rho = Ret mat /\ key_pair mat t1 t0 s1 s2.
Proof.
  intros E. destruct (keygen_run xi pk sk E) as (rho & key & mat & s1 & s2 & K & Lr & Lk & Em & H1 & H2 & _).
  pose proof (keys_spec rho key mat s1 s2 Lr Lk (expand_a_ok _ _ Em) H1 H2) as S. rewrite <- K in S. destruct S as (tr & t1 & t0 & S1 & S2 & S3 & S4).
  by exists rho, tr, key, t1, t0, s1, s2, mat.
Qed.

(** * Signing *)

(** A small polynomial times the challenge, through the transform. *)
Lemma scaled_near B cp p : poly_in (-1) 1 cp -> 0 <= B <= 8380416 -> small B p ->
  near 8380416 (d_poly_pointwise (d_ntt cp) (d_ntt p)) (map (Z.mul RINV) (tab 256 (fun k => (hat cp).[k] * (hat p).[k]))).
Proof.
  intros Hc HB Hp.
  pose proof (d_ntt_hat 1 cp ltac:(lia) ltac:(lia) (poly_in_small _ _ 1 _ Hc ltac:(lia) ltac:(lia))) as N1.
  pose proof (d_ntt_hat B p ltac:(lia) ltac:(lia) Hp) as N2.
  eapply near_cells; [by rewrite length_map, length_tab| |exact (pointwise_near (1 + 8 * 8380416) (B + 8 * 8380416) _ _ _ _ ltac:(lia) ltac:(lia) ltac:(unfold DQ; nia) N1 N2)].
  intros k Hk. rewrite get_tab by done. rewrite get_map_mul by (by rewrite length_tab). by rewrite get_tab.
Qed.
Lemma scaled_hat B cp p : poly_in (-1) 1 cp -> 0 <= B <= 8380416 -> small B p ->
  let u := d_invntt (d_poly_pointwise (d_ntt cp) (d_ntt p)) in
  small 4211200 u /\ forall k, (k < 256)%nat -> eqm DQ (hat u).[k] ((hat cp).[k] * (hat p).[k]).
Proof.
  intros Hc HB Hp. cbv zeta. destruct (d_invntt_hat _ _ (length_tab 256 _) (scaled_near B cp p Hc HB Hp)) as [S E]. split; [done|].
  intros k Hk. rewrite E by done. by rewrite get_tab.
Qed.
Lemma hat_sum p p1 p2 : length p = 256%nat -> length p1 = 256%nat -> length p2 = 256%nat -> (forall k, (k < 256)%nat -> eqm DQ p.[k] (p1.[k] + p2.[k])) ->
  forall k, (k < 256)%nat -> eqm DQ (hat p).[k] ((hat p1).[k] + (hat p2).[k]).
Proof.
  intros L L1 L2 H k Hk. rewrite (hat_comb 1 1 p p1 p2) by (try done; intros j Hj; rewrite H by done; unfold eqm; f_equal; lia). unfold eqm. f_equal. lia.
Qed.
Lemma hat_diff p p1 p2 : length p = 256%nat -> length p1 = 256%nat -> length p2 = 256%nat -> (forall k, (k < 256)%nat -> eqm DQ p.[k] (p1.[k] - p2.[k])) ->
  forall k, (k < 256)%nat -> eqm DQ (hat p).[k] ((hat p1).[k] - (hat p2).[k]).
Proof.
  intros L L1 L2 H k Hk. rewrite (hat_comb 1 (-1) p p1 p2) by (try done; intros j Hj; rewrite H by done; unfold eqm; f_equal; lia). unfold eqm. f_equal. lia.
Qed.

(** [invntt] then [caddq]: canonical coefficients with the same values. *)
Lemma canonical r Y : length Y = 256%nat -> near 8380416 r (map (Z.mul RINV) Y) ->
  poly_in 0 (DQ - 1) (d_poly_caddq (d_invntt r)) /\ forall k, (k < 256)%nat -> eqm DQ (hat (d_poly_caddq (d_invntt r))).[k] Y.[k].
Proof.
  intros HY H. destruct (d_invntt_hat r Y HY H) as [S E].
  assert (C : forall k, (k < 256)%nat -> (d_poly_caddq (d_invntt r)).[k] = (d_invntt r).[k] mod DQ).
  { intros k Hk. unfold d_poly_caddq. rewrite get_tab by done. destruct S as [_ S]. specialize (S k Hk). apply d_caddq_mod. unfold DQ. lia. }
  split; [apply poly_in_of; [apply length_tab|]; intros k Hk; rewrite C by done; unfold DQ; lia|].
  intros k Hk. rewrite <- E by done. apply hat_eqm; [apply length_tab|apply S| |done]. intros j Hj. rewrite C by done. apply eqm_mod.
Qed.
Lemma sum_poly Ba Bb a b : small Ba a -> small Bb b -> Ba + Bb <= 2143289343 ->
  let s := d_poly_reduce (d_poly_add a b) in small 6291200 s /\ forall k, (k < 256)%nat -> eqm DQ s.[k] (a.[k] + b.[k]).
Proof.
  intros [La Ha] [Lb Hb] HB. cbv zeta. unfold d_poly_reduce, d_poly_add. 
  assert (C : forall k, (k < 256)%nat -> eqm DQ (d_reduce32 (i32 (a.[k] + b.[k]))) (a.[k] + b.[k]) /\ -6291200 <= d_reduce32 (i32 (a.[k] + b.[k])) <= 6291200).
  { intros k Hk. specialize (Ha k Hk). specialize (Hb k Hk). rewrite i32_id by lia. apply d_reduce32_spec. lia. }
  split; [split; [apply length_tab|]|]; intros k Hk; rewrite !get_tab by done; by apply C.
Qed.
Lemma diff_poly Ba Bb a b : small Ba a -> small Bb b -> Ba + Bb <= 2143289343 ->
  let s := d_poly_reduce (d_poly_sub a b) in small 6291200 s /\ forall k, (k < 256)%nat -> eqm DQ s.[k] (a.[k] - b.[k]).
Proof.
  intros [La Ha] [Lb Hb] HB. cbv zeta. unfold d_poly_reduce, d_poly_sub. 
  assert (C : forall k, (k < 256)%nat -> eqm DQ (d_reduce32 (i32 (a.[k] - b.[k]))) (a.[k] - b.[k]) /\ -6291200 <= d_reduce32 (i32 (a.[k] - b.[k])) <= 6291200).
  { intros k Hk. specialize (Ha k Hk). specialize (Hb k Hk). rewrite i32_id by lia. apply d_reduce32_spec. lia. }
  split; [split; [apply length_tab|]|]; intros k Hk; rewrite !get_tab by done; by apply C.
Qed.
Lemma chknorm_small a B : small 6291200 a -> B <= 1047552 -> d_chknorm a B = false -> small (B - 1) a.
Proof.
  intros [Hl H] HB E. split; [done|]. intros k Hk. pose proof (chknorm_spec a B ltac:(intros j Hj; specialize (H j Hj); lia) HB E k Hk). lia.
Qed.

(** The rounded commitment. *)
Lemma decompose_poly w : poly_in 0 (DQ - 1) w ->
  let w1 := map (fun x => fst (d_decompose x)) w in let w0 := map (fun x => snd (d_decompose x)) w in
  poly_in 0 15 w1 /\ small DGAMMA2 w0 /\ forall k, (k < 256)%nat -> eqm DQ w.[k] (w1.[k] * 523776 + w0.[k]).
Proof.
  intros Hw. cbv zeta. assert (P : forall k, (k < 256)%nat -> eqm DQ w.[k] (fst (d_decompose w.[k]) * 523776 + snd (d_decompose w.[k])) /\
    0 <= fst (d_decompose w.[k]) <= 15 /\ - DGAMMA2 <= snd (d_decompose w.[k]) <= DGAMMA2).
  { intros k Hk. pose proof (poly_in_get _ _ _ k Hw Hk) as R. pose proof (d_decompose_join w.[k]) as J. pose proof (d_decompose_range w.[k]) as D.
    unfold DQ in R. specialize (J ltac:(unfold DQ; lia)). specialize (D ltac:(unfold DQ; lia)). destruct (d_decompose w.[k]). cbn [fst snd]. split; [done|lia]. }
  destruct Hw as [Hl _]. split; [|split].
  - apply poly_in_of; [by rewrite length_map|]. intros k Hk. rewrite (get_map (fun x => fst (d_decompose x))) by lia. by apply P.
  - split; [by rewrite length_map|]. intros k Hk. rewrite (get_map (fun x => snd (d_decompose x))) by lia. by apply P.
  - intros k Hk. rewrite (get_map (fun x => fst (d_decompose x))), (get_map (fun x => snd (d_decompose x))) by lia. by apply P.
Qed.

(** Counting hints. *)
Lemma add_ones_spec h n : hint_poly h -> 0 <= n <= 1000000 -> add_ones h n = n + Z.of_nat (length (ones h 256)).
Proof.
  intros [Hl H] Hn. unfold add_ones. apply (for_ind (fun j s => s = n + Z.of_nat (length (ones h j)))); [lia|cbn; lia|].
  intros j s Hj ->. pose proof (length_ones_le h j). cbn [ones]. rewrite length_app. destruct (H j ltac:(lia)) as [E|E]; rewrite E; cbn [Z.eqb Pos.eqb length]; rewrite u32_id; lia.
Qed.
Lemma hint_count_cons h hs : hint_count (h :: hs) = (length (ones h 256) + hint_count hs)%nat.
Proof. unfold hint_count. cbn [map concat]. by rewrite length_app. Qed.
