(* ===== verification/DsaVerify.v ===== *)
(** ML-DSA-65: what a signature is, and what verification makes of it.

    [is_signature] is the equation that every output of [d_sign_internal]
    satisfies.  With the standard's [UseHint] such a signature verifies; with
    [d_use_hint] it verifies when it carries no hint, and a hinted one only
    where SHAKE256 gives one digest to two different inputs, which
    [verify_input] computes.  [Toy] is an instance of the XOF on which
    keys and signatures are computed. *)
From S2P Require Import Prelude Str Hex Sha2 Keccak Ntt MlDsa DsaPack DsaSign.
From Stdlib Require String.
Import (notations) String.
Open Scope Z_scope.

#[local] Abbreviation near := (Ntt.near DQ).
#[local] Opaque d_expand_a d_poly_uniform d_poly_uniform_eta d_poly_uniform_gamma1 d_poly_challenge d_ntt d_invntt d_matrix_pointwise
  d_pack_pk d_pack_sk d_unpack_pk d_unpack_sk d_pack_sig d_unpack_sig.

(** One row of [z], of [w], and of [w0 - c s2 + c t0], at the roots. *)
Lemma z_row cp s y : poly_in (-1) 1 cp -> poly_in (-4) 4 s -> poly_in (1 - DGAMMA1) DGAMMA1 y ->
  let z := d_poly_reduce (d_poly_add (d_invntt (d_poly_pointwise (d_ntt cp) (d_ntt s))) y) in
  small 6291200 z /\ forall k, (k < 256)%nat -> eqm DQ (hat z).[k] ((hat cp).[k] * (hat s).[k] + (hat y).[k]).
Proof.
  intros Hc Hs Hy. cbv zeta. destruct (scaled_hat 4 cp s Hc ltac:(lia) (poly_in_small _ _ 4 _ Hs ltac:(lia) ltac:(lia))) as [Su Eu].
  set (u := d_invntt _) in *. clearbody u. pose proof (poly_in_small _ _ DGAMMA1 _ Hy ltac:(unfold DGAMMA1; lia) ltac:(lia)) as Sy.
  destruct (sum_poly _ _ u y Su Sy ltac:(unfold DGAMMA1; lia)) as [Sz Ez]. split; [done|]. intros k Hk.
  rewrite (hat_sum _ u y (proj1 Sz) (proj1 Su) (proj1 Sy) Ez k Hk). by rewrite Eu.
Qed.
Lemma w_row mat ys i : mat_ok mat -> vec DL (poly_in (1 - DGAMMA1) DGAMMA1) ys -> (i < DK)%nat ->
  let w := d_poly_caddq (d_invntt (d_poly_reduce (row [] (d_matrix_pointwise mat (map d_ntt ys)) i))) in
  poly_in 0 (DQ - 1) w /\ forall k, (k < 256)%nat -> eqm DQ (hat w).[k] (dot (row [] mat i) (map hat ys) k).
Proof.
  intros Hm Hy Hi. cbv zeta. pose proof (matrix_back mat (map d_ntt ys) ys DGAMMA1 i Hm ltac:(unfold DGAMMA1; lia) ltac:(unfold DGAMMA1; lia)
    ltac:(rewrite length_map; apply Hy) (proj1 Hy) (ntt_rows ys _ _ DGAMMA1 DL Hy ltac:(unfold DGAMMA1; lia) ltac:(unfold DGAMMA1; lia)) Hi) as N.
  cbv zeta in N. destruct (canonical _ _ (length_tab 256 _) N) as [R E]. split; [done|]. intros k Hk. rewrite E by done. by rewrite get_tab.
Qed.
Lemma reduce_poly B a : small B a -> B <= 2143289343 ->
  small 6291200 (d_poly_reduce a) /\ forall k, (k < 256)%nat -> eqm DQ (d_poly_reduce a).[k] a.[k].
Proof.
  intros [La Ha] HB. unfold d_poly_reduce.
  assert (C : forall k, (k < 256)%nat -> eqm DQ (d_reduce32 a.[k]) a.[k] /\ -6291200 <= d_reduce32 a.[k] <= 6291200)
    by (intros k Hk; specialize (Ha k Hk); apply d_reduce32_spec; lia).
  split; [split; [apply length_tab|]|]; intros k Hk; rewrite get_tab by done; by apply C.
Qed.
Definition times (cp p : poly) : poly := d_invntt (d_poly_pointwise cp p).
Lemma x_row cp w0 s2 t0 : poly_in (-1) 1 cp -> small DGAMMA2 w0 -> poly_in (-4) 4 s2 -> poly_in (-4095) 4096 t0 ->
  let w := d_poly_reduce (d_poly_sub w0 (times (d_ntt cp) (d_ntt s2))) in let t := d_poly_reduce (times (d_ntt cp) (d_ntt t0)) in
  d_chknorm w (DGAMMA2 - DBETA) = false -> d_chknorm t DGAMMA2 = false ->
  small 523578 (d_poly_add w t) /\
  forall k, (k < 256)%nat -> eqm DQ (hat (d_poly_add w t)).[k] ((hat w0).[k] - (hat cp).[k] * (hat s2).[k] + (hat cp).[k] * (hat t0).[k]).
Proof.
  intros Hc Hw Hs Ht. cbv zeta. unfold times.
  destruct (scaled_hat 4 cp s2 Hc ltac:(lia) (poly_in_small _ _ 4 _ Hs ltac:(lia) ltac:(lia))) as [Su Eu].
  destruct (scaled_hat 4096 cp t0 Hc ltac:(lia) (poly_in_small _ _ 4096 _ Ht ltac:(lia) ltac:(lia))) as [Sv Ev].
  set (u := d_invntt (d_poly_pointwise (d_ntt cp) (d_ntt s2))) in *. set (v := d_invntt (d_poly_pointwise (d_ntt cp) (d_ntt t0))) in *. clearbody u v.
  destruct (diff_poly _ _ w0 u Hw Su ltac:(unfold DGAMMA2; lia)) as [Sd Ed]. destruct (reduce_poly _ v Sv ltac:(lia)) as [St Et].
  set (w := d_poly_reduce (d_poly_sub w0 u)) in *. set (t := d_poly_reduce v) in *. clearbody w t. intros Nw Nt.
  apply chknorm_small in Nw as [Lw Rw]; [|done|unfold DGAMMA2, DBETA; lia]. apply chknorm_small in Nt as [Lt Rt]; [|done|unfold DGAMMA2; lia].
  assert (C : forall k, (k < 256)%nat -> (d_poly_add w t).[k] = w.[k] + t.[k] /\ -523578 <= w.[k] + t.[k] <= 523578).
  { intros k Hk. specialize (Rw k Hk). specialize (Rt k Hk). unfold d_poly_add. rewrite get_tab by done. unfold DGAMMA2, DBETA in *. rewrite i32_id by lia. lia. }
  split; [split; [apply length_tab|]; intros k Hk; destruct (C k Hk); lia|]. intros k Hk.
  assert (Es : forall j, (j < 256)%nat -> eqm DQ (d_poly_add w t).[j] (w.[j] + t.[j])) by (intros j Hj; by rewrite (proj1 (C j Hj))).
  rewrite (hat_sum (d_poly_add w t) w t (length_tab 256 _) Lw Lt Es k Hk).
  rewrite (hat_diff w w0 u Lw (proj1 Hw) (proj1 Su) Ed k Hk), Eu by done. rewrite (hat_eqm t v Lt (proj1 Sv) Et k Hk), Ev by done. done.
Qed.

(** The loop that makes the hints. *)
Definition hint_of (cp : poly) (t0 w0 w1 : list poly) (i : nat) : poly :=
  let w := d_poly_add (row [] w0 i) (d_poly_reduce (times cp (row [] t0 i))) in tab 256 (fun j => i32 (d_make_hint w.[j] (row [] w1 i).[j])).
Lemma hint_loop_spec cp t0 w0 w1 ixs : (forall i, In i ixs -> d_chknorm (d_poly_reduce (times cp (row [] t0 i))) DGAMMA2 = false -> hint_poly (hint_of cp t0 w0 w1 i)) ->
  forall n hs n', 0 <= n -> n + 256 * Z.of_nat (length ixs) <= 1000000 -> hint_loop ixs cp t0 w0 w1 n = Some (hs, n') ->
  hs = map (hint_of cp t0 w0 w1) ixs /\ (forall i, In i ixs -> d_chknorm (d_poly_reduce (times cp (row [] t0 i))) DGAMMA2 = false) /\ n' = n + Z.of_nat (hint_count hs).
Proof.
  unfold times. induction ixs as [|i ixs IH]; intros Hp n hs n' Hn Hl E; cbn [hint_loop] in E.
  - apply (f_equal (fun o => match o with Some p => p | None => ([], 0) end)) in E. apply pair_equal_spec in E as [<- <-]. split; [done|]. split; [done|]. change (hint_count []) with 0%nat. clear; lia.
  - destruct (d_chknorm _ DGAMMA2) eqn:C; [done|]. fold (times cp (row [] t0 i)) in *. change (tab 256 _) with (hint_of cp t0 w0 w1 i) in E.
    specialize (Hp i (or_introl eq_refl) C) as Hi. pose proof (length_ones_le (hint_of cp t0 w0 w1 i) 256) as L. cbn [length] in Hl.
    rewrite (add_ones_spec _ n Hi ltac:(lia)) in E. destruct (hint_loop ixs _ _ _ _ _) as [[hs' n1]|] eqn:E'; [|done]. injection E as <- <-.
    destruct (IH (fun j Hj => Hp j (or_intror Hj)) (n + Z.of_nat (length (ones (hint_of cp t0 w0 w1 i) 256))) hs' n1 ltac:(lia) ltac:(lia) E') as (-> & C' & ->). split; [done|]. split.
    + intros j [->|Hj]; [exact C|by apply C'].
    + cbn [map]. rewrite hint_count_cons. lia.
Qed.

(** One attempt, from the mask [ys] and the challenge [cp] on: the names of
    the locals of [d_sign_try]. *)
Definition try_w (mat : list (list poly)) (ys : list poly) : list poly := map (fun p => d_poly_caddq (d_invntt (d_poly_reduce p))) (d_matrix_pointwise mat (map d_ntt ys)).
Definition try_w1 (w : list poly) : list poly := map (map (fun x => fst (d_decompose x))) w.
Definition try_z (cp : poly) (s1 ys : list poly) : list poly :=
  tab DL (fun i => d_poly_reduce (d_poly_add (times cp (row [] s1 i)) (row [] ys i))).
Definition try_w0 (cp : poly) (s2 w : list poly) : list poly :=
  tab DK (fun i => d_poly_reduce (d_poly_sub (row [] (map (map (fun x => snd (d_decompose x))) w) i) (times cp (row [] s2 i)))).

(** What a signature must be for the standard's verification to find [w1]. *)
Record accepted (mat : list (list poly)) (t1 t0 : list poly) (cp : poly) (w1 z h : list poly) : Prop := {
  ac_c : poly_in (-1) 1 cp; ac_w1 : vec DK (poly_in 0 15) w1; ac_h : vec DK hint_poly h;
  ac_z : length z = DL /\ Forall (fun p => small 6291200 p /\ d_chknorm p (DGAMMA1 - DBETA) = false) z;
  ac_row : forall i, (i < DK)%nat -> exists x, small 523578 x /\
    (forall k, (k < 256)%nat -> (row [] h i).[k] = d_make_hint x.[k] (row [] w1 i).[k]) /\
    (forall k, (k < 256)%nat -> eqm DQ (hat (tab 256 (fun k => (row [] w1 i).[k] * 523776 + x.[k]))).[k]
      (dot (row [] mat i) (map hat z) k - (hat cp).[k] * ((hat (joined (row [] t1 i) (row [] t0 i))).[k] - (hat (row [] t0 i)).[k]))) }.

Lemma make_hint_bit a0 a1 : -1073741824 <= a0 <= 1073741824 -> 0 <= a1 < 16 -> d_make_hint a0 a1 = 0 \/ d_make_hint a0 a1 = 1.
Proof. intros H0 H1. rewrite d_make_hint_spec by done. destruct (hint_flag a0 a1); auto. Qed.
Lemma existsb_row (f : poly -> bool) l i : existsb f l = false -> (i < length l)%nat -> f (row [] l i) = false.
Proof.
  intros E Hi. destruct (f (row [] l i)) eqn:F; [|done]. rewrite <- not_true_iff_false in E. exfalso. apply E, existsb_exists.
  exists (row [] l i). split; [by apply nth_In|done].
Qed.

Section attempt.
Context (mat : list (list poly)) (t1 t0 s1 s2 : list poly) (K : key_pair mat t1 t0 s1 s2).
Context (cp : poly) (ys : list poly) (Hc : poly_in (-1) 1 cp) (Hy : vec DL (poly_in (1 - DGAMMA1) DGAMMA1) ys).

#[local] Abbreviation w := (try_w mat ys).
#[local] Abbreviation z := (try_z (d_ntt cp) (map d_ntt s1) ys).
#[local] Abbreviation w0 := (try_w0 (d_ntt cp) (map d_ntt s2) w).
#[local] Abbreviation hint := (hint_of (d_ntt cp) (map d_ntt t0) w0 (try_w1 w)).

Lemma try_w_row i : (i < DK)%nat -> poly_in 0 (DQ - 1) (row [] w i) /\
  forall k, (k < 256)%nat -> eqm DQ (hat (row [] w i)).[k] (dot (row [] mat i) (map hat ys) k).
Proof.
  intros Hi. unfold try_w. rewrite (row_map _ []) by (rewrite length_matrix_pointwise; done). apply w_row; [apply K|done|done].
Qed.
Lemma try_z_row j : (j < DL)%nat -> small 6291200 (row [] z j) /\
  forall k, (k < 256)%nat -> eqm DQ (hat (row [] z j)).[k] ((hat cp).[k] * (hat (row [] s1 j)).[k] + (hat (row [] ys j)).[k]).
Proof.
  intros Hj. destruct (kp_s1 _ _ _ _ _ K) as [L1 F1]. unfold try_z, times. rewrite row_tab by done. rewrite (row_map _ []) by lia.
  apply z_row; [done| |]; apply row_in; try done; [lia|apply Hy|rewrite (proj1 Hy); done].
Qed.
Lemma w0_row i : (i < DK)%nat ->
  row [] w0 i = d_poly_reduce (d_poly_sub (map (fun x => snd (d_decompose x)) (row [] w i)) (times (d_ntt cp) (d_ntt (row [] s2 i)))).
Proof.
  intros Hi. destruct (kp_s2 _ _ _ _ _ K) as [L2 F2]. unfold try_w0. rewrite row_tab by done. rewrite (row_map d_ntt []) by lia.
  rewrite (row_map (map (fun x => snd (d_decompose x))) []); [done|]. unfold try_w. rewrite length_map, length_matrix_pointwise. done.
Qed.
Lemma t_row i : (i < DK)%nat -> row [] (map d_ntt t0) i = d_ntt (row [] t0 i).
Proof. intros Hi. destruct (kp_t0 _ _ _ _ _ K) as [L2 F2]. rewrite (row_map d_ntt []); [done|lia]. Qed.
Lemma w1_row i : (i < DK)%nat -> row [] (try_w1 w) i = map (fun x => fst (d_decompose x)) (row [] w i).
Proof.
  intros Hi. unfold try_w1. rewrite (row_map (map (fun x => fst (d_decompose x))) []); [done|]. unfold try_w. rewrite length_map, length_matrix_pointwise. done.
Qed.

Lemma dot_z i k : (i < DK)%nat -> (k < 256)%nat ->
  eqm DQ (dot (row [] mat i) (map hat z) k) ((hat cp).[k] * dot (row [] mat i) (map hat s1) k + dot (row [] mat i) (map hat ys) k).
Proof.
  intros Hi Hk. assert (R : forall j l, (j < DL)%nat -> length l = DL -> row [] (map hat l) j = hat (row [] l j)) by (intros j l Hj Hl; apply row_map; lia).
  assert (Lz : length z = DL) by apply length_tab. pose proof (proj1 (kp_s1 _ _ _ _ _ K)) as L1. pose proof (proj1 Hy) as Ly.
  assert (Z : forall j, (j < DL)%nat -> eqm DQ (row [] (map hat z) j).[k] ((hat cp).[k] * (row [] (map hat s1) j).[k] + (row [] (map hat ys) j).[k]))
    by (intros j Hj; rewrite !R by done; by apply try_z_row).
  unfold dot. rewrite (Z 0%nat), (Z 1%nat), (Z 2%nat), (Z 3%nat), (Z 4%nat) by (unfold DL; lia). unfold eqm. f_equal. ring.
Qed.

Hypothesis N0 : existsb (fun p => d_chknorm p (DGAMMA2 - DBETA)) w0 = false.
#[local] Abbreviation small_t i := (d_chknorm (d_poly_reduce (times (d_ntt cp) (row [] (map d_ntt t0) i))) DGAMMA2 = false).

Definition try_x (i : nat) : poly := d_poly_add (row [] w0 i) (d_poly_reduce (times (d_ntt cp) (d_ntt (row [] t0 i)))).
Lemma try_x_spec i : (i < DK)%nat -> small_t i -> small 523578 (try_x i) /\
  forall k, (k < 256)%nat -> eqm DQ (hat (try_x i)).[k] ((hat (map (fun x => snd (d_decompose x)) (row [] w i))).[k] -
    (hat cp).[k] * (hat (row [] s2 i)).[k] + (hat cp).[k] * (hat (row [] t0 i)).[k]).
Proof.
  intros Hi CT. unfold try_x. pose proof (existsb_row _ _ i N0 ltac:(unfold try_w0; rewrite length_tab; done)) as C0.
  rewrite w0_row in * by done. rewrite t_row in CT by done. destruct (try_w_row i Hi) as [Rw _]. destruct (decompose_poly _ Rw) as (_ & S0 & _).
  destruct (kp_s2 _ _ _ _ _ K) as [L2 F2]. destruct (kp_t0 _ _ _ _ _ K) as [L0 F0].
  exact (x_row cp _ _ _ Hc S0 (row_in _ [] s2 i F2 ltac:(lia)) (row_in _ [] t0 i F0 ltac:(lia)) C0 CT).
Qed.
Lemma try_hint_row i : (i < DK)%nat -> small_t i -> hint_poly (hint i) /\ forall k, (k < 256)%nat -> (hint i).[k] = d_make_hint (try_x i).[k] (row [] (try_w1 w) i).[k].
Proof.
  intros Hi NT. destruct (try_x_spec i Hi NT) as [[Lx Sx] _]. destruct (try_w_row i Hi) as [Rw _]. destruct (decompose_poly _ Rw) as (S1 & _ & _).
  assert (B : forall k, (k < 256)%nat -> d_make_hint (try_x i).[k] (row [] (try_w1 w) i).[k] = 0 \/ d_make_hint (try_x i).[k] (row [] (try_w1 w) i).[k] = 1).
  { intros k Hk. specialize (Sx k Hk). apply make_hint_bit; [lia|]. rewrite w1_row by done. pose proof (poly_in_get _ _ _ k S1 Hk). lia. }
  assert (E : hint i = tab 256 (fun j => i32 (d_make_hint (try_x i).[j] (row [] (try_w1 w) i).[j]))) by (unfold hint_of, try_x; by rewrite t_row).
  split; [split; [apply length_tab|]|]; intros k Hk; rewrite E, get_tab by done; destruct (B k Hk) as [-> | ->]; auto.
Qed.
(** [w1 * 2 gamma2 + x] is [A z - c t1 2^d]. *)
Lemma try_row_eq i k : (i < DK)%nat -> small_t i -> (k < 256)%nat ->
  eqm DQ (hat (tab 256 (fun k => (row [] (try_w1 w) i).[k] * 523776 + (try_x i).[k]))).[k]
    (dot (row [] mat i) (map hat z) k - (hat cp).[k] * ((hat (joined (row [] t1 i) (row [] t0 i))).[k] - (hat (row [] t0 i)).[k])).
Proof.
  intros Hi NT Hk. rewrite (dot_z i k Hi Hk). rewrite (kp_eq _ _ _ _ _ K i k Hi Hk). destruct (try_x_spec i Hi NT) as [Sx Ex]. destruct (try_w_row i Hi) as [Rw Ew].
  destruct (decompose_poly _ Rw) as (S1 & S0 & D). rewrite w1_row by done. set (w1 := map (fun x => fst (d_decompose x)) _) in *.
  set (w0 := map (fun x => snd (d_decompose x)) _) in *. clearbody w1 w0.
  set (d := tab 256 (fun k => (try_x i).[k] - w0.[k])). assert (Ed : forall j, (j < 256)%nat -> eqm DQ d.[j] ((try_x i).[j] - w0.[j])) by (intros j Hj; unfold d; by rewrite get_tab).
  rewrite (hat_sum _ (row [] w i) d (length_tab 256 _) (proj1 Rw) (length_tab 256 _)); [|intros j Hj|done].
  - rewrite (hat_diff d (try_x i) w0 (length_tab 256 _) (proj1 Sx) (proj1 S0) Ed k Hk), Ex, Ew by done. unfold eqm. f_equal. ring.
  - rewrite get_tab, D, Ed by done. unfold eqm. f_equal. ring.
Qed.
Lemma attempt_accepted : existsb (fun p => d_chknorm p (DGAMMA1 - DBETA)) z = false -> (forall i, (i < DK)%nat -> small_t i) -> accepted mat t1 t0 cp (try_w1 w) z (map hint (seq 0 DK)).
Proof.
  intros NZ NT. split; [done|..].
  - split; [unfold try_w1, try_w; by rewrite !length_map, length_matrix_pointwise|]. unfold try_w1. apply Forall_map, List.Forall_forall. intros p Hp.
    apply (In_nth _ _ []) in Hp as (i & Hi & <-). unfold try_w in Hi. rewrite length_map, length_matrix_pointwise in Hi. by apply decompose_poly, try_w_row.
  - split; [by rewrite length_map|]. apply Forall_map, List.Forall_forall. intros i Hi%in_seq. assert (i < DK)%nat by lia. apply try_hint_row; auto.
  - split; [apply length_tab|]. apply List.Forall_forall. intros p Hp. apply (In_nth _ _ []) in Hp as (j & Hj & <-).
    split; [apply try_z_row; unfold try_z in Hj; by rewrite length_tab in Hj|by apply (existsb_row (fun p => d_chknorm p (DGAMMA1 - DBETA)))].
  - intros i Hi. exists (try_x i). split; [exact (proj1 (try_x_spec i Hi (NT i Hi)))|].
    assert (E : row [] (map hint (seq 0 DK)) i = hint i) by exact (row_tab [] DK hint i Hi). rewrite E.
    split; [exact (proj2 (try_hint_row i Hi (NT i Hi)))|intros k Hk; exact (try_row_eq i k Hi (NT i Hi) Hk)].
Qed.
End attempt.

Lemma d_sign_try_eq `{X : Shake} mat s1 s2 t0 mu rho nonce :
  d_sign_try (mkSigner mat s1 s2 t0 mu rho) nonce =
  (let ys := tab DL (fun i => d_poly_uniform_gamma1 rho (u16 (nonce + Z.of_nat i))) in
   let w := try_w mat ys in
   let c := shake256 (slice 0 64 mu ++ concat (map d_polyw1_pack (try_w1 w))) DCTILDE in
   let* cp := d_poly_challenge c in
   if existsb (fun p => d_chknorm p (DGAMMA1 - DBETA)) (try_z (d_ntt cp) s1 ys) then Ret None
   else if existsb (fun p => d_chknorm p (DGAMMA2 - DBETA)) (try_w0 (d_ntt cp) s2 w) then Ret None
   else match hint_loop (seq 0 DK) (d_ntt cp) t0 (try_w0 (d_ntt cp) s2 w) (try_w1 w) 0 with
        | None => Ret None
        | Some (h, n) => if Z.of_nat DOMEGA <? n then Ret None else Ret (Some (d_pack_sig c (try_z (d_ntt cp) s1 ys) h))
        end).
Proof. reflexivity. Qed.
Lemma mask_ok `{X : Shake} rho nonce : vec DL (poly_in (1 - DGAMMA1) DGAMMA1) (tab DL (fun i => d_poly_uniform_gamma1 rho (u16 (nonce + Z.of_nat i)))).
Proof. apply vec_tab. intros i _. apply gamma1_range. Qed.

(** What a signature of the key [(t1, t0)] for the message digest [mu] is. *)
Definition is_signature `{X : Shake} (mat : list (list poly)) (t1 t0 : list poly) (mu sig : list Z) : Prop :=
  exists c cp w1 z h, c = shake256 (slice 0 64 mu ++ concat (map d_polyw1_pack w1)) DCTILDE /\ d_poly_challenge c = Ret cp /\
    accepted mat t1 t0 cp w1 z h /\ (hint_count h <= DOMEGA)%nat /\ sig = d_pack_sig c z h.

Lemma d_sign_try_spec `{X : Shake} mat t1 t0 s1 s2 mu rho nonce sig : key_pair mat t1 t0 s1 s2 ->
  d_sign_try (mkSigner mat (map d_ntt s1) (map d_ntt s2) (map d_ntt t0) mu rho) nonce = Ret (Some sig) -> is_signature mat t1 t0 mu sig.
Proof.
  intros K. rewrite d_sign_try_eq. pose proof (mask_ok rho nonce) as Hy. set (ys := tab DL _) in *. clearbody ys. cbv zeta. set (c := shake256 _ _).
  destruct (d_poly_challenge c) as [cp| |] eqn:Ec; cbn [run_bind]; [|done|done]. pose proof (challenge_range _ _ Ec) as Hc.
  destruct (existsb _ (try_z _ _ _)) eqn:NZ; [by intros E%Ret_inj|]. destruct (existsb _ (try_w0 _ _ _)) eqn:N0; [by intros E%Ret_inj|].
  destruct (hint_loop _ _ _ _ _ _) as [[h n]|] eqn:EH; [|by intros E%Ret_inj].
  destruct (Z.ltb_spec (Z.of_nat DOMEGA) n) as [|Hn]; [by intros E%Ret_inj|]. intros E%Ret_inj. injection E as <-.
  assert (HP : forall i, In i (seq 0 DK) -> d_chknorm (d_poly_reduce (times (d_ntt cp) (row [] (map d_ntt t0) i))) DGAMMA2 = false ->
    hint_poly (hint_of (d_ntt cp) (map d_ntt t0) (try_w0 (d_ntt cp) (map d_ntt s2) (try_w mat ys)) (try_w1 (try_w mat ys)) i)).
  { intros i Hi%in_seq NT. exact (proj1 (try_hint_row mat t1 t0 s1 s2 K cp ys Hc Hy N0 i ltac:(lia) NT)). }
  destruct (hint_loop_spec _ _ _ _ _ HP 0 h n ltac:(lia) ltac:(rewrite length_seq; unfold DK; lia) EH) as (-> & NT & ->).
  exists c, cp, (try_w1 (try_w mat ys)), (try_z (d_ntt cp) (map d_ntt s1) ys), (map (hint_of (d_ntt cp) (map d_ntt t0) (try_w0 (d_ntt cp) (map d_ntt s2) (try_w mat ys)) (try_w1 (try_w mat ys))) (seq 0 DK)).
  split; [done|]. split; [done|]. split; [|split; [lia|done]].
  apply (attempt_accepted mat t1 t0 s1 s2 K cp ys Hc Hy N0 NZ). intros i Hi. apply NT, in_seq. lia.
Qed.

(** * Verification *)

(** The left side of the check, row [i]: [A z - c t1 2^d], canonical. *)
Definition verify_u (mat : list (list poly)) (cp : poly) (z t1 : list poly) (i : nat) : poly :=
  d_poly_reduce (d_poly_sub (row [] (d_matrix_pointwise mat (map d_ntt z)) i) (d_poly_pointwise (d_ntt cp) (d_ntt (d_poly_shiftl (row [] t1 i))))).
Definition verify_r (mat : list (list poly)) (cp : poly) (z t1 : list poly) (i : nat) : poly := d_poly_caddq (d_invntt (verify_u mat cp z t1 i)).
Lemma shiftl_poly p : poly_in 0 1023 p -> small 8380416 (d_poly_shiftl p) /\ forall k, (k < 256)%nat -> (d_poly_shiftl p).[k] = p.[k] * 2 ^ DD.
Proof.
  intros Hp. assert (C : forall k, (k < 256)%nat -> (d_poly_shiftl p).[k] = p.[k] * 2 ^ DD /\ 0 <= p.[k] <= 1023).
  { intros k Hk. pose proof (poly_in_get _ _ _ k Hp Hk). split; [|done]. unfold d_poly_shiftl. rewrite get_tab by done.
    rewrite Z.shiftl_mul_pow2 by (unfold DD; lia). unfold DD. rewrite i32_id; lia. }
  split; [split; [apply length_tab|]|]; intros k Hk; destruct (C k Hk) as [-> ?]; [unfold DD; lia|done].
Qed.
Lemma near_diff a b f g : near (5 * 8380416) a (map (Z.mul RINV) (tab 256 f)) -> near 8380416 b (map (Z.mul RINV) (tab 256 g)) ->
  near 8380416 (d_poly_reduce (d_poly_sub a b)) (map (Z.mul RINV) (tab 256 (fun k => f k - g k))).
Proof.
  intros A B. pose proof (poly_reduce_near (5 * 8380416 + 8380416) _ _ ltac:(lia) (poly_sub_near (5 * 8380416) 8380416 _ _ _ _ ltac:(lia) A B)) as R.
  eapply near_le; [|eapply near_cells; [| |exact R]]; [lia|by rewrite length_map, length_tab|]. intros k Hk. rewrite get_tab by done.
  rewrite !get_map_mul by (by rewrite length_tab). rewrite !get_tab by done. unfold eqm. f_equal. ring.
Qed.
Lemma ntt_row_near z j : length z = DL -> (j < DL)%nat -> small 6291200 (row [] z j) ->
  near (6291200 + 8 * 8380416) (row [] (map d_ntt z) j) (row [] (map hat z) j).
Proof. intros Lz Hj Hz. rewrite (row_map d_ntt []), (row_map hat []) by lia. apply d_ntt_hat; [lia|lia|done]. Qed.
Lemma verify_u_near mat cp z t1 i : mat_ok mat -> poly_in (-1) 1 cp -> length z = DL -> (forall j, (j < DL)%nat -> small 6291200 (row [] z j)) ->
  vec DK (poly_in 0 1023) t1 -> (i < DK)%nat ->
  near 8380416 (verify_u mat cp z t1 i)
    (map (Z.mul RINV) (tab 256 (fun k => dot (row [] mat i) (map hat z) k - (hat cp).[k] * (hat (d_poly_shiftl (row [] t1 i))).[k]))).
Proof.
  intros Hm Hc Lz Hz [L1 H1] Hi. destruct (shiftl_poly _ (row_in _ [] t1 i H1 ltac:(lia))) as [Ss _].
  apply (near_diff _ _ (dot (row [] mat i) (map hat z)) (fun k => (hat cp).[k] * (hat (d_poly_shiftl (row [] t1 i))).[k])).
  - apply (matrix_near mat _ _ (6291200 + 8 * 8380416)); [done|lia| |done]. intros j Hj. apply ntt_row_near; [done|done|by apply Hz].
  - apply (scaled_near 8380416); [done|lia|exact Ss].
Qed.
Lemma verify_r_spec mat cp z t1 t0 i : mat_ok mat -> poly_in (-1) 1 cp -> length z = DL -> (forall j, (j < DL)%nat -> small 6291200 (row [] z j)) ->
  vec DK (poly_in 0 1023) t1 -> vec DK (poly_in (-4095) 4096) t0 -> (i < DK)%nat ->
  poly_in 0 (DQ - 1) (verify_r mat cp z t1 i) /\ forall k, (k < 256)%nat -> eqm DQ (hat (verify_r mat cp z t1 i)).[k]
    (dot (row [] mat i) (map hat z) k - (hat cp).[k] * ((hat (joined (row [] t1 i) (row [] t0 i))).[k] - (hat (row [] t0 i)).[k])).
Proof.
  intros Hm Hc Lz Hz H1 H0 Hi. pose proof (verify_u_near mat cp z t1 i Hm Hc Lz Hz H1 Hi) as N. unfold verify_r.
  set (u := verify_u mat cp z t1 i) in *. clearbody u. destruct (canonical u _ (length_tab 256 _) N) as [C E]. split; [exact C|]. intros k Hk.
  rewrite (E k Hk). rewrite get_tab by done. clear E C N Hz. destruct H1 as [L1 H1]. destruct H0 as [L0 H0].
  assert (P1 : poly_in 0 1023 (row [] t1 i)) by (apply row_in; [done|lia]). destruct (shiftl_poly _ P1) as [Ss Es].
  assert (P0 : length (row [] t0 i) = 256%nat) by (apply (row_in (poly_in (-4095) 4096)); [done|lia]).
  set (sh := d_poly_shiftl (row [] t1 i)) in *. clearbody sh.
  assert (Ed : forall j, (j < 256)%nat -> eqm DQ sh.[j] ((joined (row [] t1 i) (row [] t0 i)).[j] - (row [] t0 i).[j]))
    by (intros j Hj; rewrite Es by done; unfold joined; rewrite get_tab by done; unfold eqm; f_equal; lia).
  rewrite (hat_diff sh _ _ (proj1 Ss) (length_tab 256 _) P0 Ed k Hk). reflexivity.
Qed.
(** The canonical row is [w1 * 2 gamma2 + x], so the hints lead back to [w1]. *)
Lemma accepted_row mat t1 t0 cp w1 z h i k : mat_ok mat -> vec DK (poly_in 0 1023) t1 -> vec DK (poly_in (-4095) 4096) t0 ->
  accepted mat t1 t0 cp w1 z h -> (i < DK)%nat -> (k < 256)%nat -> let a := (verify_r mat cp z t1 i).[k] in let b := (row [] h i).[k] in
  Fips204.use_hint b a = (row [] w1 i).[k] /\ (b = 0 -> d_use_hint a b = (row [] w1 i).[k]) /\ (b = 1 -> d_use_hint a b <> (row [] w1 i).[k]) /\
  0 <= d_use_hint a b < 16.
Proof.
  intros Hm H1 H0 [Hc Hw [Lh Hh] [Lz Hz] HR] Hi Hk. cbv zeta. destruct (HR i Hi) as (x & [Lx Sx] & Eh & EW). clear HR.
  assert (Sz : forall j, (j < DL)%nat -> small 6291200 (row [] z j)) by (intros j Hj; rewrite <- Lz in Hj; exact (proj1 (row_in _ [] z j Hz Hj))).
  destruct (verify_r_spec mat cp z t1 t0 i Hm Hc Lz Sz H1 H0 Hi) as [R ER].
  set (r := verify_r mat cp z t1 i) in *. clearbody r.
  assert (E : eqm DQ r.[k] ((row [] w1 i).[k] * 523776 + x.[k])).
  { transitivity ((tab 256 (fun k => (row [] w1 i).[k] * 523776 + x.[k])).[k]); [|by rewrite get_tab].
    apply (hat_inj r _ (proj1 R) (length_tab 256 _)); [|done]. intros j Hj. by rewrite ER, EW. }
  rewrite (Eh k Hk). pose proof (poly_in_get _ _ _ k R Hk) as Rk. assert (W : poly_in 0 15 (row [] w1 i)) by (apply row_in; [apply Hw|rewrite (proj1 Hw); done]).
  pose proof (poly_in_get _ _ _ k W Hk). specialize (Sx k Hk).
  apply (hint_recovers (row [] w1 i).[k] x.[k] r.[k]); [lia|lia|lia|done].
Qed.

(** [mu] *)
Definition message_digest `{X : Shake} (pk m : list Z) : list Z := shake256 (slice 0 64 (shake256 pk 64) ++ m) 64.
Definition verify_w1 (uh : Z -> Z -> Z) (mat : list (list poly)) (cp : poly) (z t1 h : list poly) : list poly :=
  tab DK (fun i => tab 256 (fun j => uh (verify_r mat cp z t1 i).[j] (row [] h i).[j])).
Lemma verify_eq `{X : Shake} uh sig m pk rho t1 mat c z h cp : d_unpack_pk pk = (rho, t1) -> d_unpack_sig sig = Some (c, z, h) ->
  existsb (fun p => d_chknorm p (DGAMMA1 - DBETA)) z = false -> d_poly_challenge c = Ret cp -> d_expand_a rho = Ret mat ->
  verify_with uh sig m pk = Ret (if crypto_ct_cmp (Some c)
    (Some (shake256 (slice 0 64 (message_digest pk m) ++ concat (map d_polyw1_pack (verify_w1 uh mat cp z t1 h))) DCTILDE)) DCTILDE =? 0 then 0 else -1).
Proof. intros E1 E2 E3 E4 E5. unfold verify_with, verify_w1, verify_r, verify_u, message_digest. rewrite E1, E2, E3, E4, E5. reflexivity. Qed.

(** What verification hashes to compare with the challenge, with [uh] for
    [UseHint]. *)
Definition verify_input `{X : Shake} (uh : Z -> Z -> Z) (sig m pk : list Z) : run (list Z) :=
  let '(rho, t1) := d_unpack_pk pk in
  match d_unpack_sig sig with
  | None => Undefined
  | Some (c, z, h) =>
      let* cp := d_poly_challenge c in
      let* mat := d_expand_a rho in
      Ret (slice 0 64 (message_digest pk m) ++ concat (map d_polyw1_pack (verify_w1 uh mat cp z t1 h)))
  end.

Lemma d_sign_loop_spec `{X : Shake} g sig tries : forall nonce, d_sign_loop tries g nonce = Ret (Some sig) -> exists nonce', d_sign_try g nonce' = Ret (Some sig).
Proof.
  induction tries as [|tries IH]; intros nonce E; cbn [d_sign_loop] in E; [by apply Ret_inj in E|].
  destruct (d_sign_try g nonce) as [[s|]| |] eqn:T; cbn [run_bind] in E; try done; [|by eapply IH].
  exists nonce. rewrite T. exact E.
Qed.
Lemma sign_internal_spec `{X : Shake} xi pk sk m rnd sig : d_keygen xi = Ret (pk, sk) -> d_sign_internal m rnd sk = Ret (Some sig) ->
  exists rho mat t1 t0, d_unpack_pk pk = (rho, t1) /\ d_expand_a rho = Ret mat /\ mat_ok mat /\ vec DK (poly_in 0 1023) t1 /\
    vec DK (poly_in (-4095) 4096) t0 /\ is_signature mat t1 t0 (message_digest pk m) sig.
Proof.
  intros (rho & tr & key & t1 & t0 & s1 & s2 & mat & Epk & Esk & -> & Em & K)%keygen_spec E. unfold d_sign_internal, d_sign_setup in E.
  rewrite Esk, Em in E. cbn [run_bind] in E. apply d_sign_loop_spec in E as [nonce E]. exists rho, mat, t1, t0.
  split; [done|]. split; [done|]. split; [apply K|]. split; [apply K|]. split; [apply K|]. exact (d_sign_try_spec _ _ _ _ _ _ _ _ _ K E).
Qed.

(** The parts of a signature, as verification reads them. *)
Lemma is_signature_parts `{X : Shake} mat t1 t0 mu sig : is_signature mat t1 t0 mu sig ->
  exists c cp w1 z h, d_unpack_sig sig = Some (c, z, h) /\ existsb (fun p => d_chknorm p (DGAMMA1 - DBETA)) z = false /\
    c = shake256 (slice 0 64 mu ++ concat (map d_polyw1_pack w1)) DCTILDE /\ d_poly_challenge c = Ret cp /\ accepted mat t1 t0 cp w1 z h.
Proof.
  intros (c & cp & w1 & z & h & Ec & Ecp & A & N & ->). exists c, cp, w1, z, h. destruct (ac_z _ _ _ _ _ _ _ A) as [Lz Hz].
  split; [|split; [|done]].
  - apply signature_roundtrip; [rewrite Ec; apply length_256| |apply A|done]. split; [done|]. eapply List.Forall_impl; [|exact Hz].
    intros p [Sp Cp]. apply chknorm_small in Cp; [|done|unfold DGAMMA1, DBETA; lia]. destruct Cp as [Lp Rp]. apply poly_in_of; [done|].
    intros k Hk. specialize (Rp k Hk). unfold DGAMMA1, DBETA in *. lia.
  - destruct (existsb _ z) eqn:F; [|done]. apply existsb_exists in F as (p & Hp & F). rewrite List.Forall_forall in Hz. destruct (Hz p Hp) as [_ C].
    by rewrite C in F.
Qed.
Lemma row_ext (a b : list poly) n : length a = n -> length b = n -> (forall i, (i < n)%nat -> row [] a i = row [] b i) -> a = b.
Proof. intros La Lb H. apply (nth_ext _ _ [] []); [lia|]. intros i Hi. apply H. lia. Qed.
Lemma verify_w1_eq uh mat cp z t1 h w1 : vec DK (poly_in 0 15) w1 ->
  (forall i k, (i < DK)%nat -> (k < 256)%nat -> uh (verify_r mat cp z t1 i).[k] (row [] h i).[k] = (row [] w1 i).[k]) -> verify_w1 uh mat cp z t1 h = w1.
Proof.
  intros [Lw Hw] H. apply (row_ext _ _ DK); [apply length_tab|done|]. intros i Hi. unfold verify_w1. rewrite row_tab by done.
  assert (Li : length (row [] w1 i) = 256%nat) by (apply (row_in (poly_in 0 15)); [done|lia]).
  apply array_ext; [by rewrite length_tab|]. rewrite length_tab. intros k Hk. rewrite get_tab by done. by apply H.
Qed.
Lemma challenge_match `{X : Shake} m : (crypto_ct_cmp (Some (shake256 m DCTILDE)) (Some (shake256 m DCTILDE)) DCTILDE =? 0) = true.
Proof. apply Z.eqb_eq, crypto_ct_cmp_zero; try apply bytes_256; try apply length_256; done. Qed.

Lemma concat_pack_inj : forall a b, length a = length b -> Forall (poly_in 0 15) a -> Forall (poly_in 0 15) b ->
  concat (map d_polyw1_pack a) = concat (map d_polyw1_pack b) -> a = b.
Proof.
  induction a as [|x a IH]; intros [|y b] L Ha Hb E; try done. apply List.Forall_cons_iff in Ha as [Hx Ha]. apply List.Forall_cons_iff in Hb as [Hy Hb].
  cbn [map concat] in E. apply app_inj_1 in E as [E1 E2]; [|by rewrite !length_polyw1]. apply polyw1_inj in E1 as ->; try done. f_equal. apply IH; try done. by injection L.
Qed.
Lemma vec_row_in {P} n v i : vec n P v -> (i < n)%nat -> P (row [] v i).
Proof. intros [L F] Hi. apply row_in; [done|lia]. Qed.
Lemma has_hint : forall h, Forall hint_poly h -> hint_count h <> 0%nat -> exists i k, (i < length h)%nat /\ (k < 256)%nat /\ (row [] h i).[k] = 1.
Proof.
  assert (Z : forall p, hint_poly p -> forall n, (n <= 256)%nat -> ones p n <> [] -> exists k, (k < 256)%nat /\ p.[k] = 1).
  { intros p [Lp Hp]. induction n as [|n IH]; intros Hn N; [done|]. cbn [ones] in N. destruct (Hp n ltac:(lia)) as [E|E].
    - rewrite E in N. cbn [Z.eqb] in N. rewrite app_nil_r in N. apply IH; [lia|done].
    - exists n. split; [lia|done]. }
  induction h as [|p h IH]; intros Hh N; [done|]. apply List.Forall_cons_iff in Hh as [Hp Hh]. rewrite hint_count_cons in N.
  destruct (ones p 256) eqn:E.
  - destruct (IH Hh) as (i & k & Hi & Hk & Ek); [exact N|]. exists (S i), k. split; [cbn; lia|]. split; [done|exact Ek].
  - destruct (Z p Hp 256%nat) as (k & Hk & Ek); [lia|by rewrite E|]. exists 0%nat, k. split; [cbn; lia|done].
Qed.
Lemma no_hint h i k : vec DK hint_poly h -> hint_count h = 0%nat -> (i < DK)%nat -> (k < 256)%nat -> (row [] h i).[k] = 0.
Proof.
  intros V N Hi Hk. destruct (proj2 (vec_row_in _ _ i V Hi) k Hk) as [E|E]; [done|]. exfalso.
  assert (P : forall p n, (k < n)%nat -> p.[k] = 1 -> ones p n <> []).
  { intros p n. induction n as [|n IH]; [lia|]. intros Hn Ep. cbn [ones]. destruct (Nat.eq_dec n k) as [->|D].
    - rewrite Ep. cbn. by destruct (ones p k).
    - specialize (IH ltac:(lia) Ep). by destruct (ones p n). }
  destruct V as [L F]. clear F. revert i Hi E. rewrite <- L. clear L. induction h as [|p h IH]; intros i Hi E; [cbn in Hi; lia|]. rewrite hint_count_cons in N.
  destruct i as [|i]; [destruct (ones p 256) eqn:Ep; [by apply (P p 256%nat Hk E)|cbn in N; lia]|]. apply (IH ltac:(lia) i); [cbn in Hi; lia|exact E].
Qed.

(** C8. Signatures of the code are signatures of the standard: what
    [d_sign_internal] returns for the key pair of [d_keygen], on any message
    and hedge, passes verification done with the standard's [UseHint]. *)
Theorem signature_verifies `{X : Shake} xi pk sk m rnd sig : d_keygen xi = Ret (pk, sk) -> d_sign_internal m rnd sk = Ret (Some sig) ->
  verify_with (fun a h => Fips204.use_hint h a) sig m pk = Ret 0.
Proof.
  intros K S. destruct (sign_internal_spec _ _ _ _ _ _ K S) as (rho & mat & t1 & t0 & Epk & Em & Hm & H1 & H0 & P).
  destruct (is_signature_parts _ _ _ _ _ P) as (c & cp & w1 & z & h & Es & Nz & Ec & Ecp & A).
  rewrite (verify_eq _ _ _ _ _ _ _ _ _ _ _ Epk Es Nz Ecp Em). rewrite (verify_w1_eq _ _ _ _ _ _ w1 (ac_w1 _ _ _ _ _ _ _ A)).
  - by rewrite Ec, challenge_match.
  - intros i k Hi Hk. by apply (accepted_row mat t1 t0 cp w1 z h i k).
Qed.

(** What the code's verification makes of a signature of the code: [a] is what
    signing hashed for the challenge, [b] is what the code hashes to compare. *)
Lemma verify_signed `{X : Shake} xi pk sk m rnd sig : d_keygen xi = Ret (pk, sk) -> d_sign_internal m rnd sk = Ret (Some sig) ->
  exists c z h a b, d_unpack_sig sig = Some (c, z, h) /\
    verify_input (fun a h => Fips204.use_hint h a) sig m pk = Ret a /\ verify_input d_use_hint sig m pk = Ret b /\
    c = shake256 a DCTILDE /\ length a = length b /\ (a = b <-> hint_count h = 0%nat) /\
    d_verify_internal sig m pk = Ret (if decide (shake256 a DCTILDE = shake256 b DCTILDE) then 0 else -1).
Proof.
  intros K S. destruct (sign_internal_spec _ _ _ _ _ _ K S) as (rho & mat & t1 & t0 & Epk & Em & Hm & H1 & H0 & P).
  destruct (is_signature_parts _ _ _ _ _ P) as (c & cp & w1 & z & h & Es & Nz & Ec & Ecp & A).
  pose proof (fun i k => accepted_row mat t1 t0 cp w1 z h i k Hm H1 H0 A) as R. pose proof (ac_w1 _ _ _ _ _ _ _ A) as Hw.
  set (v := verify_w1 d_use_hint mat cp z t1 h). set (pre := slice 0 64 (message_digest pk m)) in *.
  assert (Hv : vec DK (poly_in 0 15) v).
  { apply vec_tab. intros i Hi. apply poly_in_of; [apply length_tab|]. intros k Hk. rewrite get_tab by done. destruct (R i k Hi Hk) as (_ & _ & _ & B). lia. }
  assert (Ew : verify_w1 (fun a h => Fips204.use_hint h a) mat cp z t1 h = w1) by (apply verify_w1_eq; [done|]; intros i k Hi Hk; by apply (R i k)).
  exists c, z, h, (pre ++ concat (map d_polyw1_pack w1)), (pre ++ concat (map d_polyw1_pack v)).
  split; [done|]. unfold verify_input. rewrite Epk, Es, Ecp. cbn [run_bind]. rewrite Em. cbn [run_bind]. rewrite Ew. split; [done|]. split; [done|]. split; [done|].
  split; [rewrite !length_app, !(length_pieces _ _ _ length_polyw1), (proj1 Hw), (proj1 Hv); done|]. split; [split|].
  - intros B. apply app_inv_head in B. apply concat_pack_inj in B; [|rewrite (proj1 Hw), (proj1 Hv); done|apply Hw|apply Hv].
    destruct (Nat.eq_dec (hint_count h) 0) as [|N]; [done|exfalso]. destruct (has_hint h) as (i & k & Hi & Hk & Eh); [apply A|done|].
    rewrite (proj1 (ac_h _ _ _ _ _ _ _ A)) in Hi. destruct (R i k Hi Hk) as (_ & _ & R1 & _). apply (R1 Eh). rewrite B. unfold v, verify_w1. by rewrite row_tab, get_tab by done.
  - intros N. do 3 f_equal. symmetry. apply (verify_w1_eq _ _ _ _ _ _ w1 Hw). intros i k Hi Hk. destruct (R i k Hi Hk) as (_ & R0 & _). apply R0. by apply no_hint; [apply A|..].
  - unfold d_verify_internal. rewrite (verify_eq _ _ _ _ _ _ _ _ _ _ _ Epk Es Nz Ecp Em). fold v pre. rewrite Ec at 1. fold pre. f_equal.
    set (x := shake256 (pre ++ concat (map d_polyw1_pack w1)) DCTILDE). set (y := shake256 _ DCTILDE).
    pose proof (crypto_ct_cmp_zero x y DCTILDE ltac:(apply bytes_256) ltac:(apply bytes_256) ltac:(apply length_256) ltac:(apply length_256)) as C.
    destruct (Z.eqb_spec (crypto_ct_cmp (Some x) (Some y) DCTILDE) 0) as [Q|Q]; case_decide as D; tauto.
Qed.

(** C12. What the code's own verification makes of the code's signatures.  Let
    [a] be the bytes that the standard's [UseHint] gives verification to hash,
    whose digest is the challenge, and [b] those that the code's [d_use_hint]
    gives: the two are the same exactly when the signature carries no hint, and
    the code accepts exactly when their digests are the same.  So it accepts
    every signature without hints, and accepts one with a hint only where
    SHAKE256 sends these two different inputs, of one length, to one digest. *)
Theorem hinted_signature_rejected `{X : Shake} xi pk sk m rnd sig : d_keygen xi = Ret (pk, sk) -> d_sign_internal m rnd sk = Ret (Some sig) ->
  exists c z h a b, d_unpack_sig sig = Some (c, z, h) /\
    verify_input (fun a h => Fips204.use_hint h a) sig m pk = Ret a /\ verify_input d_use_hint sig m pk = Ret b /\
    c = shake256 a DCTILDE /\ length a = length b /\ (a = b <-> hint_count h = 0%nat) /\
    d_verify_internal sig m pk = Ret (if decide (shake256 a DCTILDE = shake256 b DCTILDE) then 0 else -1).
Proof. exact (verify_signed xi pk sk m rnd sig). Qed.

(** C30. The equation of a key pair: the two keys unpack to each other's parts,
    the secret key carries the hash of the public key, the secrets are in
    [-4..4], and [t1 2^13 + t0 = A s1 + s2] at each of the 256 roots of
    [X^256 + 1] (the matrix is sampled as values at the roots). *)
Theorem keygen_equation `{X : Shake} xi pk sk : d_keygen xi = Ret (pk, sk) -> exists rho tr key t1 t0 s1 s2 mat,
  d_unpack_pk pk = (rho, t1) /\ d_unpack_sk sk = (rho, tr, key, t0, s1, s2) /\ tr = shake256 pk 64 /\ d_expand_a rho = Ret mat /\
  vec DK (poly_in 0 1023) t1 /\ vec DK (poly_in (-4095) 4096) t0 /\ vec DL (poly_in (-4) 4) s1 /\ vec DK (poly_in (-4) 4) s2 /\
  forall i j, (i < DK)%nat -> (j < 256)%nat ->
    eqm DQ (Fips204.eval (Fips204.gamma j) (joined (row [] t1 i) (row [] t0 i)))
      (dot (row [] mat i) (map (fun p => tab 256 (fun j => Fips204.eval (Fips204.gamma j) p)) s1) j + Fips204.eval (Fips204.gamma j) (row [] s2 i)).
Proof.
  intros (rho & tr & key & t1 & t0 & s1 & s2 & mat & Epk & Esk & Etr & Em & [Hm H1 H0 Hs1 Hs2 E])%keygen_spec.
  exists rho, tr, key, t1, t0, s1, s2, mat. split; [done|]. split; [done|]. split; [done|]. split; [done|]. split; [done|]. split; [done|]. split; [done|]. split; [done|].
  intros i j Hi Hj. specialize (E i j Hi Hj). rewrite <- !hat_values; [|exact (length_row _ _ _ _ _ Hs2 Hi)|done|apply length_tab|done]. rewrite E.
  assert (R : forall l, (l < DL)%nat -> eqm DQ (row [] (map hat s1) l).[j] (row [] (map (fun p => tab 256 (fun j => Fips204.eval (Fips204.gamma j) p)) s1) l).[j]).
  { intros l Hl. destruct Hs1 as [L1 F1]. rewrite (row_map hat []), (row_map (fun p => tab 256 _) []) by lia. rewrite get_tab by done.
    apply hat_values; [|done]. apply (row_in (poly_in (-4) 4)); [done|lia]. }
  unfold dot. by rewrite (R 0%nat), (R 1%nat), (R 2%nat), (R 3%nat), (R 4%nat) by (unfold DL; lia).
Qed.

(** * A concrete instance

    An extendable-output function that does not look at its input, chosen so
    that everything sampled is zero but the challenge. *)
Module Toy.
Definition mask : list Z := concat (repeat [0; 0; 8; 0; 128] 128) ++ zeros 176.
Definition xof (n : nat) : list Z := if Nat.eqb n 544 then repeat 0x44 n else if Nat.eqb n 816 then mask else zeros n.
Lemma length_xof n : length (xof n) = n.
Proof. unfold xof. destruct (Nat.eqb_spec n 544); [by rewrite repeat_length|]. destruct (Nat.eqb_spec n 816) as [->|]; [done|apply length_zeros]. Qed.
Lemma bytes_xof n : bytes (xof n).
Proof.
  unfold xof. destruct (Nat.eqb n 544); [apply List.Forall_forall; intros x ->%repeat_spec; unfold isbyte; lia|].
  destruct (Nat.eqb n 816); [by apply bytesb_ok|apply bytes_zeros].
Qed.
Lemma prefix_zeros k n : (k <= n)%nat -> zeros k = take k (zeros n).
Proof.
  intros H. replace n with (k + (n - k))%nat by lia. unfold zeros. rewrite repeat_app. rewrite <- (repeat_length 0 k) at 2. by rewrite take_app_length.
Qed.
Definition shake : Shake := {| shake128 := fun _ => zeros; shake256 := fun _ => xof; length_128 := fun _ => length_zeros; length_256 := fun _ => length_xof;
  bytes_128 := fun _ => bytes_zeros; bytes_256 := fun _ => bytes_xof; prefix_128 := fun _ => prefix_zeros |}.
#[local] Existing Instance shake.
#[local] Transparent d_expand_a d_matrix_pointwise.

#[local] Abbreviation nil_poly := (zeros 256).
Definition zvec (n : nat) : list poly := repeat nil_poly n.
Lemma uniform_zero seed nonce : d_poly_uniform seed nonce = Ret nil_poly.
Proof. vm_compute. reflexivity. Qed.
Lemma eta_zero seed nonce : d_poly_uniform_eta seed nonce = Ret nil_poly.
Proof. vm_compute. reflexivity. Qed.
Lemma gamma1_zero seed nonce : d_poly_uniform_gamma1 seed nonce = nil_poly.
Proof. vm_compute. reflexivity. Qed.
Lemma ntt_zero : d_ntt nil_poly = nil_poly.
Proof. vm_compute. reflexivity. Qed.
Lemma invntt_zero : d_invntt nil_poly = nil_poly.
Proof. vm_compute. reflexivity. Qed.
Lemma add_zero : d_poly_add nil_poly nil_poly = nil_poly.
Proof. vm_compute. reflexivity. Qed.
Lemma sub_zero : d_poly_sub nil_poly nil_poly = nil_poly.
Proof. vm_compute. reflexivity. Qed.
Lemma reduce_zero : d_poly_reduce nil_poly = nil_poly.
Proof. vm_compute. reflexivity. Qed.
Lemma caddq_zero : d_poly_caddq nil_poly = nil_poly.
Proof. vm_compute. reflexivity. Qed.
Lemma pointwise_zero p : d_poly_pointwise p nil_poly = nil_poly.
Proof.
  apply array_ext; [apply length_tab|]. unfold d_poly_pointwise. rewrite length_tab. intros i Hi. rewrite get_tab, get_zeros by done. by rewrite Z.mul_0_r.
Qed.
Lemma times_zero p : times p nil_poly = nil_poly.
Proof. unfold times. by rewrite pointwise_zero, invntt_zero. Qed.
Lemma row_zvec n i : (i < n)%nat -> row [] (zvec n) i = nil_poly.
Proof. intros H. unfold row, zvec. rewrite (nth_indep _ [] nil_poly) by (by rewrite repeat_length). apply nth_repeat. Qed.
Lemma map_zvec (f : poly -> poly) n : f nil_poly = nil_poly -> map f (zvec n) = zvec n.
Proof. intros E. unfold zvec. by rewrite map_repeat, E. Qed.
Lemma tab_zvec n f : (forall i, (i < n)%nat -> f i = nil_poly) -> tab n f = zvec n.
Proof. intros H. apply (row_ext _ _ n); [apply length_tab|apply repeat_length|]. intros i Hi. by rewrite row_tab, row_zvec, H by done. Qed.

Lemma run_map_const {A B} (f : A -> run B) b l : (forall x, f x = Ret b) -> run_map f l = Ret (repeat b (length l)).
Proof. intros H. induction l as [|x l IH]; [done|]. cbn [run_map length repeat]. by rewrite H, IH. Qed.
Lemma expand_zero rho : d_expand_a rho = Ret (repeat (zvec DL) DK).
Proof. apply run_map_const. intros i. apply run_map_const. intros j. apply uniform_zero. Qed.
Lemma matrix_zero mat : d_matrix_pointwise mat (zvec DL) = zvec DK.
Proof.
  apply tab_zvec. intros i Hi. change (for_ 1 DL ?f ?s) with (f 4%nat (f 3%nat (f 2%nat (f 1%nat s)))). cbv beta.
  rewrite !row_zvec by (unfold DL; lia). by rewrite !pointwise_zero, !add_zero.
Qed.

Definition t1 : list poly := zvec DK.
Definition pk : list Z := d_pack_pk (zeros 32) t1.
Definition sk : list Z := d_pack_sk (zeros 32) (zeros 64) (zeros 32) (zvec DK) (zvec DL) (zvec DK).
Lemma keygen_t_zero i : (i < DK)%nat -> keygen_t (repeat (zvec DL) DK) (zvec DL) (zvec DK) i = nil_poly.
Proof.
  intros Hi. unfold keygen_t. rewrite map_zvec by apply ntt_zero. rewrite matrix_zero, !row_zvec by done. by rewrite reduce_zero, invntt_zero, add_zero, caddq_zero.
Qed.
Lemma keys_zero : keygen_keys (zeros 32) (zeros 32) (repeat (zvec DL) DK) (zvec DL) (zvec DK) = (pk, sk).
Proof.
  unfold keygen_keys, pk, sk, t1. rewrite (tab_zvec DK _ keygen_t_zero). rewrite !map_zvec by reflexivity.
  generalize (d_pack_pk (zeros 32) (zvec DK)) as p. intros p. reflexivity.
Qed.
Lemma sample_zero key (ixs : list nat) (nonce : nat -> Z) : run_map (fun i => d_poly_uniform_eta key (nonce i)) ixs = Ret (zvec (length ixs)).
Proof. apply run_map_const. intros i. apply eta_zero. Qed.
Lemma keygen_zero xi : d_keygen xi = Ret (pk, sk).
Proof.
  unfold d_keygen. generalize (slice 0 32 xi ++ [u8 (Z.of_nat DK); u8 (Z.of_nat DL)]) as m. intros m. change (shake256 m 128) with (zeros 128).
  cbv zeta. rewrite expand_zero. cbn [run_bind]. rewrite !sample_zero. cbn [run_bind]. rewrite !length_seq. rewrite <- keys_zero. reflexivity.
Qed.
Lemma zvec_in n lo hi : lo <= 0 <= hi -> vec n (poly_in lo hi) (zvec n).
Proof.
  intros H. split; [apply repeat_length|]. apply List.Forall_forall. intros p ->%repeat_spec. apply poly_in_of; [done|]. intros i _. by rewrite get_zeros.
Qed.
Lemma setup_zero m rnd : d_sign_setup m rnd sk = Ret (mkSigner (repeat (zvec DL) DK) (zvec DL) (zvec DK) (zvec DK) (zeros 64) (zeros 64)).
Proof.
  unfold d_sign_setup, sk. rewrite (proj1 (sk_roundtrip (zeros 32) (zeros 64) (zeros 32) (zvec DK) (zvec DL) (zvec DK) eq_refl eq_refl eq_refl
    (zvec_in DK (-4095) 4096 ltac:(lia)) (zvec_in DL (-4) 4 ltac:(lia)) (zvec_in DK (-4) 4 ltac:(lia)))). cbv zeta. rewrite expand_zero. cbn [run_bind].
  rewrite !map_zvec by apply ntt_zero. reflexivity.
Qed.
Definition cp : poly := match d_poly_challenge (zeros 48) with Ret p => p | _ => [] end.
Lemma challenge_zero : d_poly_challenge (zeros 48) = Ret cp.
Proof. vm_compute. reflexivity. Qed.
Definition sig : list Z := d_pack_sig (zeros 48) (zvec DL) (zvec DK).
Lemma hint_zero cp ixs : (forall i, In i ixs -> (i < DK)%nat) -> hint_loop ixs cp (zvec DK) (zvec DK) (zvec DK) 0 = Some (zvec (length ixs), 0).
Proof.
  induction ixs as [|i ixs IH]; intros H; [done|]. cbn [hint_loop]. fold (times cp (row [] (zvec DK) i)). rewrite !row_zvec by (apply H; by left).
  rewrite times_zero, reduce_zero, add_zero. change (d_chknorm nil_poly DGAMMA2) with false. cbv iota.
  replace (tab 256 _) with nil_poly by reflexivity. change (add_ones nil_poly 0) with 0. rewrite IH by (intros j Hj; apply H; by right). done.
Qed.
Lemma try_zero nonce : d_sign_try (mkSigner (repeat (zvec DL) DK) (zvec DL) (zvec DK) (zvec DK) (zeros 64) (zeros 64)) nonce = Ret (Some sig).
Proof.
  rewrite d_sign_try_eq. rewrite (tab_zvec DL) by (intros; apply gamma1_zero). cbv zeta. unfold try_w. rewrite map_zvec by apply ntt_zero. rewrite matrix_zero.
  rewrite map_zvec by (by rewrite reduce_zero, invntt_zero, caddq_zero).
  change (shake256 _ DCTILDE) with (zeros 48). rewrite challenge_zero. cbn [run_bind].
  assert (Ez : try_z (d_ntt cp) (zvec DL) (zvec DL) = zvec DL).
  { apply tab_zvec. intros i Hi. by rewrite !row_zvec, times_zero, add_zero, reduce_zero by done. }
  assert (E0 : try_w0 (d_ntt cp) (zvec DK) (zvec DK) = zvec DK).
  { apply tab_zvec. intros i Hi. rewrite map_zvec by reflexivity. by rewrite !row_zvec, times_zero, sub_zero, reduce_zero by done. }
  rewrite Ez, E0. unfold try_w1. rewrite map_zvec by reflexivity. rewrite hint_zero by (intros i Hi%in_seq; lia). reflexivity.
Qed.
Lemma sign_zero m rnd : d_sign_internal m rnd sk = Ret (Some sig).
Proof.
  unfold d_sign_internal. rewrite setup_zero. cbn [run_bind]. replace (Z.to_nat 10000) with (S (Z.to_nat 9999)) by reflexivity.
  cbn [d_sign_loop]. by rewrite try_zero.
Qed.
End Toy.

Lemma keygen_equation_witness : exists rho tr key t1 t0 s1 s2 mat,
  d_unpack_pk Toy.pk = (rho, t1) /\ d_unpack_sk Toy.sk = (rho, tr, key, t0, s1, s2) /\ tr = shake256 (Shake := Toy.shake) Toy.pk 64 /\
  d_expand_a (X := Toy.shake) rho = Ret mat /\
  vec DK (poly_in 0 1023) t1 /\ vec DK (poly_in (-4095) 4096) t0 /\ vec DL (poly_in (-4) 4) s1 /\ vec DK (poly_in (-4) 4) s2 /\
  forall i j, (i < DK)%nat -> (j < 256)%nat ->
    eqm DQ (Fips204.eval (Fips204.gamma j) (joined (row [] t1 i) (row [] t0 i)))
      (dot (row [] mat i) (map (fun p => tab 256 (fun j => Fips204.eval (Fips204.gamma j) p)) s1) j + Fips204.eval (Fips204.gamma j) (row [] s2 i)).
Proof. apply (keygen_equation (X := Toy.shake) (zeros 32) Toy.pk Toy.sk). apply Toy.keygen_zero. Defined.
Lemma signature_verifies_witness : verify_with (X := Toy.shake) (fun a h => Fips204.use_hint h a) Toy.sig [1; 2; 3] Toy.pk = Ret 0.
Proof. apply (signature_verifies (X := Toy.shake) (zeros 32) Toy.pk Toy.sk [1; 2; 3] (zeros 32)); [apply Toy.keygen_zero|apply Toy.sign_zero]. Defined.
Lemma hinted_signature_rejected_witness : exists c z h a b, d_unpack_sig Toy.sig = Some (c, z, h) /\
  verify_input (X := Toy.shake) (fun a h => Fips204.use_hint h a) Toy.sig [1; 2; 3] Toy.pk = Ret a /\ verify_input (X := Toy.shake) d_use_hint Toy.sig [1; 2; 3] Toy.pk = Ret b /\
  c = shake256 (Shake := Toy.shake) a DCTILDE /\ length a = length b /\ (a = b <-> hint_count h = 0%nat) /\
  d_verify_internal (X := Toy.shake) Toy.sig [1; 2; 3] Toy.pk = Ret (if decide (shake256 (Shake := Toy.shake) a DCTILDE = shake256 (Shake := Toy.shake) b DCTILDE) then 0 else -1).
Proof.
  apply (hinted_signature_rejected (X := Toy.shake) (zeros 32) Toy.pk Toy.sk [1; 2; 3] (zeros 32)); [apply Toy.keygen_zero|apply Toy.sign_zero].
Defined.
