(* ===== verification/Seccomp.v ===== *)
(** Seccomp filters ([sec/cap/cap.c], [sec/landlock/sandbox/sandbox_config.c]):
    the classic-BPF programs the runtime builds, the machine that runs them,
    and the state of the capability filter.

    System-call numbers and flag values come from the platform's headers: an
    [abi] record carries them, with [None] where the header lacks the number
    (the [#ifdef __NR_...] of the code). *)
From S2P Require Import Prelude.
From stdpp Require Import relations.
Open Scope Z_scope.

(** * Filter programs *)

(** The word a [BPF_LD | BPF_W | BPF_ABS] statement loads: [nr], [arch], or
    the low half of an argument (a little-endian machine). *)
Inductive field := FNr | FArch | FArg (i : nat).
Inductive insn :=
  | LdAbs (f : field)
  | Jeq (k : Z) (jt jf : nat)
  | Jset (k : Z) (jt jf : nat)
  | RetK (k : Z).
#[global] Instance insn_eq : EqDecision insn.
Proof. unfold EqDecision, Decision. repeat decide equality. Defined.

(** [struct seccomp_data] as the kernel fills it. *)
Record seccomp_data := mkData { sd_nr : Z; sd_arch : Z; sd_args : list Z }.
Definition bpf_load (d : seccomp_data) (f : field) : Z :=
  match f with FNr => sd_nr d | FArch => sd_arch d | FArg i => u32 (sd_args d).[i] end.

(** The classic-BPF machine: [skip] instructions are jumped over; [None] when
    control leaves the program. *)
Fixpoint bpf (p : list insn) (skip : nat) (A : Z) (d : seccomp_data) : option Z :=
  match p with
  | [] => None
  | i :: p =>
      match skip with
      | S n => bpf p n A d
      | O => match i with
             | LdAbs f => bpf p 0 (bpf_load d f) d
             | Jeq k jt jf => bpf p (if A =? k then jt else jf) A d
             | Jset k jt jf => bpf p (if Z.land A k =? 0 then jf else jt) A d
             | RetK k => Some k
             end
      end
  end.

Definition SECCOMP_RET_ALLOW : Z := 0x7fff0000.
Definition SECCOMP_RET_ERRNO : Z := 0x00050000.
Definition SECCOMP_RET_KILL_PROCESS : Z := 0x80000000.
Definition CLONE_THREAD : Z := 0x00010000.

Record abi := mkAbi {
  audit_arch : option Z;
  nr_socket : option Z; nr_connect : option Z; nr_bind : option Z;
  nr_fork : option Z; nr_vfork : option Z; nr_execve : option Z; nr_execveat : option Z;
  nr_clone3 : option Z; nr_clone : option Z; nr_openat : option Z; nr_open : option Z;
  open_write_bits : Z; errno_ENOSYS : Z; errno_EPERM : Z }.

(** [F_JUMP (JEQ nr, 0, 1); F_STMT (RET act)] under [#ifdef]. *)
Definition gate (nr : option Z) (act : Z) : list insn :=
  match nr with Some n => [Jeq n 0 1; RetK act] | None => [] end.
(** The thread-creating [clone] passes. *)
Definition clone_gate (nr : option Z) (proc_act : Z) : list insn :=
  match nr with
  | Some n => [Jeq n 0 4; LdAbs (FArg 0); Jset CLONE_THREAD 0 1; RetK SECCOMP_RET_ALLOW; RetK proc_act]
  | None => []
  end.
Definition open_gate (nr : option Z) (flags : nat) (write_bits : Z) : list insn :=
  match nr with
  | Some n => [Jeq n 0 4; LdAbs (FArg flags); Jset (u32 write_bits) 0 1; RetK SECCOMP_RET_KILL_PROCESS; RetK SECCOMP_RET_ALLOW]
  | None => []
  end.

(** The statements shared by both filters: the architecture check, then one
    gate per system call. *)
Definition arch_gate (arch : Z) : list insn :=
  [LdAbs FArch; Jeq arch 1 0; RetK SECCOMP_RET_KILL_PROCESS; LdAbs FNr].
Definition call_gates (a : abi) (net_act proc_act clone3_act : Z) : list insn :=
  gate (nr_socket a) net_act ++ gate (nr_connect a) net_act ++ gate (nr_bind a) net_act ++
  gate (nr_fork a) proc_act ++ gate (nr_vfork a) proc_act ++
  gate (nr_execve a) proc_act ++ gate (nr_execveat a) proc_act ++
  gate (nr_clone3 a) clone3_act ++ clone_gate (nr_clone a) proc_act.

(** The program [capf_install] builds; [None] when the build has no
    [OO_AUDIT_ARCH] and nothing is installed. *)
Definition capf_program (a : abi) (net_act proc_act clone3_act : Z) (fsw_ok : bool) : option (list insn) :=
  match audit_arch a with
  | None => None
  | Some arch =>
      Some (arch_gate arch ++ call_gates a net_act proc_act clone3_act ++
            (if fsw_ok then [] else open_gate (nr_openat a) 2 (open_write_bits a) ++ open_gate (nr_open a) 1 (open_write_bits a)) ++
            [RetK SECCOMP_RET_ALLOW])
  end.

(** The kernel's answers while a filter is installed: [Some errno] is a
    failing call.  [__NR_seccomp] may be missing. *)
Record install_env := mkInstall {
  no_new_privs : option Z; has_seccomp_call : bool; seccomp_call : bool; prctl_seccomp : option Z;
  E_NOSYS : Z; E_PERM : Z; E_INVAL : Z }.

(** Return code, and whether the kernel took the program. *)
Definition prctl_refused (e : install_env) (err : Z) : bool := (err =? E_NOSYS e) || (err =? E_INVAL e).
Definition capf_load (e : install_env) (p : list insn) : Z * bool :=
  if (64 <? length p)%nat then (-2, false)
  else if match no_new_privs e with Some err => prctl_refused e err | None => false end then (-1, false)
  else if has_seccomp_call e && seccomp_call e then (0, true)
  else match prctl_seccomp e with
       | None => (0, true)
       | Some err => if prctl_refused e err || (err =? E_PERM e) then (-1, false) else (-2, false)
       end.
Definition capf_install (a : abi) (e : install_env) (net_act proc_act clone3_act : Z) (fsw_ok : bool) : Z * list (list insn) :=
  match capf_program a net_act proc_act clone3_act fsw_ok with
  | None => (-1, [])
  | Some p => let '(rc, taken) := capf_load e p in (rc, if taken then [p] else [])
  end.

(** ** The capability filter's state *)

Definition OODAR_CAP_NET : Z := 1.
Definition OODAR_CAP_PROCESS : Z := 2.
Definition OODAR_CAP_FSWRITE : Z := 4.
Definition OODAR_CAP_SYS : Z := 16.
Definition OODAR_CAP_FS : Z := 32.

Definition proc_ok (mask : Z) : bool := negb (Z.land mask (Z.lor OODAR_CAP_PROCESS OODAR_CAP_SYS) =? 0).
Definition fsw_ok (mask : Z) : bool := negb (Z.land mask (Z.lor OODAR_CAP_FSWRITE OODAR_CAP_FS) =? 0).
Definition net_act (mask : Z) : Z :=
  if negb (Z.land mask OODAR_CAP_NET =? 0) then SECCOMP_RET_ALLOW else SECCOMP_RET_KILL_PROCESS.
Definition proc_act (mask : Z) : Z := if proc_ok mask then SECCOMP_RET_ALLOW else SECCOMP_RET_KILL_PROCESS.
Definition clone3_act (a : abi) (mask : Z) : Z :=
  if proc_ok mask then SECCOMP_RET_ALLOW else Z.lor SECCOMP_RET_ERRNO (errno_ENOSYS a).

(** [g_capf_*], and the filters the kernel holds for the process. *)
Record capf := mkCapf { g_capf_mask : Z; g_capf_tok : list Z; g_capf_on : bool; g_capf_avail : Z; filters : list (list insn) }.
Definition capf_start : capf := mkCapf 0 (zeros 32) false (-1) [].

Definition oodar_cap_init (s : capf) : capf := mkCapf 0 (zeros 32) false (g_capf_avail s) (filters s).
Definition oodar_cap_drop (s : capf) : capf := mkCapf 0 (zeros 32) false (g_capf_avail s) (filters s).
Definition oodar_cap_is_sandboxed (s : capf) : bool := g_capf_on s.
Definition oodar_cap_apply_seccomp_filter (a : abi) (e : install_env) (mask : Z) (s : capf) : Z * capf :=
  if g_capf_on s then (0, s)
  else
    let tok := le_bytes 4 mask ++ drop 4 (g_capf_tok s) in
    let '(rc, new) := capf_install a e (net_act mask) (proc_act mask) (clone3_act a mask) (fsw_ok mask) in
    let on := if rc =? 0 then true else g_capf_on s in
    let avail := if rc =? 0 then 1 else if rc =? -1 then 0 else g_capf_avail s in
    (rc, mkCapf mask tok on avail (filters s ++ new)).

(** ** The legacy filter ([sand_install_seccomp]) *)

Definition sand_program (a : abi) (net_act proc_act clone3_act : Z) : option (list insn) :=
  match audit_arch a with
  | None => None
  | Some arch => Some (arch_gate arch ++ call_gates a net_act proc_act clone3_act ++ [RetK SECCOMP_RET_ALLOW])
  end.
Definition sand_install_seccomp (a : abi) (e : install_env) (net_act proc_act clone3_act : Z) : Z * list (list insn) :=
  match sand_program a net_act proc_act clone3_act with
  | None => (-1, [])
  | Some p =>
      if match no_new_privs e with Some err => prctl_refused e err | None => false end then (-1, [])
      else match prctl_seccomp e with
           | None => (0, [p])
           | Some err => (if prctl_refused e err || (err =? E_PERM e) then -1 else -2, [])
           end
  end.

(** * What a filter decides *)

Module Policy.
(** One rule per system call; the first that names the call decides. *)
Definition hits (nr : option Z) (n : Z) : bool := match nr with Some k => n =? k | None => false end.
Definition calls (a : abi) (net proc clone3 : Z) (rest : Z) (d : seccomp_data) : Z :=
  let n := sd_nr d in
  if hits (nr_socket a) n || hits (nr_connect a) n || hits (nr_bind a) n then net
  else if hits (nr_fork a) n || hits (nr_vfork a) n || hits (nr_execve a) n || hits (nr_execveat a) n then proc
  else if hits (nr_clone3 a) n then clone3
  else if hits (nr_clone a) n then
    if Z.testbit (sd_args d).[0] 16 then SECCOMP_RET_ALLOW else proc
  else rest.
Definition writes (a : abi) (d : seccomp_data) : bool :=
  hits (nr_openat a) (sd_nr d) && negb (Z.land (u32 (sd_args d).[2]) (u32 (open_write_bits a)) =? 0) ||
  negb (hits (nr_openat a) (sd_nr d)) && hits (nr_open a) (sd_nr d) &&
    negb (Z.land (u32 (sd_args d).[1]) (u32 (open_write_bits a)) =? 0).
(** The decision of the capability filter for a mask. *)
Definition caps (a : abi) (mask : Z) (d : seccomp_data) : Z :=
  if match audit_arch a with Some k => sd_arch d =? k | None => false end then
    calls a (net_act mask) (proc_act mask) (clone3_act a mask)
      (if negb (fsw_ok mask) && writes a d then SECCOMP_RET_KILL_PROCESS else SECCOMP_RET_ALLOW) d
  else SECCOMP_RET_KILL_PROCESS.
End Policy.
Import Policy.

(** The kernel runs every filter and obeys the most restrictive answer: a
    call proceeds when all of them allow it. *)
Definition allowed (fs : list (list insn)) (d : seccomp_data) : Prop :=
  Forall (fun p => bpf p 0 0 d = Some SECCOMP_RET_ALLOW) fs.

(** * The machine on the building blocks *)

Lemma bpf_skip p q n A d : length p = n -> bpf (p ++ q) n A d = bpf q 0 A d.
Proof. revert n. induction p as [|i p IH]; intros n <-; [done|]. cbn [app length bpf]. by apply IH. Qed.

Lemma bpf_gate nr act q A d : bpf (gate nr act ++ q) 0 A d = if hits nr A then Some act else bpf q 0 A d.
Proof. destruct nr as [n|]; [|done]. cbn [gate app bpf hits]. by destruct (A =? n). Qed.

Lemma clone_thread_bit x : (Z.land (u32 x) CLONE_THREAD =? 0) = negb (Z.testbit x 16).
Proof.
  assert (E : Z.land (u32 x) CLONE_THREAD = if Z.testbit x 16 then CLONE_THREAD else 0).
  { apply Z.bits_inj'. intros n Hn. unfold u32, CLONE_THREAD. change 0x00010000 with (2 ^ 16). change 0xffffffff with (Z.ones 32).
    rewrite !Z.land_spec, Z.pow2_bits_eqb by lia. destruct (Z.eqb_spec 16 n) as [<-|Hne].
    - rewrite Z.ones_spec_low by lia. destruct (Z.testbit x 16); [by rewrite Z.pow2_bits_eqb by lia|by rewrite Z.bits_0].
    - rewrite andb_false_r. destruct (Z.testbit x 16); [|by rewrite Z.bits_0].
      rewrite Z.pow2_bits_eqb by lia. symmetry. by apply Z.eqb_neq. }
  rewrite E. by destruct (Z.testbit x 16).
Qed.

Lemma bpf_clone_gate nr act q A d : bpf (clone_gate nr act ++ q) 0 A d =
  if hits nr A then Some (if Z.testbit (sd_args d).[0] 16 then SECCOMP_RET_ALLOW else act) else bpf q 0 A d.
Proof.
  destruct nr as [n|]; [|done]. cbn [clone_gate app bpf hits bpf_load]. rewrite clone_thread_bit.
  destruct (A =? n); [|done]. by destruct (Z.testbit (sd_args d).[0] 16).
Qed.
Lemma bpf_open_gate nr i w q A d : bpf (open_gate nr i w ++ q) 0 A d =
  if hits nr A then Some (if Z.land (u32 (sd_args d).[i]) (u32 w) =? 0 then SECCOMP_RET_ALLOW else SECCOMP_RET_KILL_PROCESS)
  else bpf q 0 A d.
Proof.
  destruct nr as [n|]; [|done]. cbn [open_gate app bpf hits bpf_load].
  destruct (A =? n); [|done]. by destruct (Z.land _ _ =? 0).
Qed.
Lemma bpf_arch arch q d : bpf (arch_gate arch ++ q) 0 0 d =
  if sd_arch d =? arch then bpf q 0 (sd_nr d) d else Some SECCOMP_RET_KILL_PROCESS.
Proof. cbn [arch_gate app bpf bpf_load]. by destruct (sd_arch d =? arch). Qed.

Lemma bpf_calls a na pa ca q rest d :
  bpf q 0 (sd_nr d) d = Some rest ->
  bpf (call_gates a na pa ca ++ q) 0 (sd_nr d) d = Some (calls a na pa ca rest d).
Proof.
  intros Hq. unfold call_gates, calls. rewrite <- !app_assoc, !bpf_gate, bpf_clone_gate, Hq.
  repeat (match goal with |- context [hits ?x ?y] => destruct (hits x y) end; cbn [orb]; try reflexivity).
Qed.

Lemma length_gate nr act : (length (gate nr act) <= 2)%nat.
Proof. destruct nr; cbn; lia. Qed.
Lemma length_clone_gate nr act : (length (clone_gate nr act) <= 5)%nat.
Proof. destruct nr; cbn; lia. Qed.
Lemma length_open_gate nr i w : (length (open_gate nr i w) <= 5)%nat.
Proof. destruct nr; cbn; lia. Qed.
Lemma length_call_gates a x y z : (length (call_gates a x y z) <= 21)%nat.
Proof.
  unfold call_gates. rewrite !length_app.
  pose proof (length_gate (nr_socket a) x). pose proof (length_gate (nr_connect a) x). pose proof (length_gate (nr_bind a) x).
  pose proof (length_gate (nr_fork a) y). pose proof (length_gate (nr_vfork a) y). pose proof (length_gate (nr_execve a) y).
  pose proof (length_gate (nr_execveat a) y). pose proof (length_gate (nr_clone3 a) z).
  pose proof (length_clone_gate (nr_clone a) y). lia.
Qed.

Lemma capf_program_caps a arch mask d : audit_arch a = Some arch ->
  bpf (arch_gate arch ++ call_gates a (net_act mask) (proc_act mask) (clone3_act a mask) ++
    (if fsw_ok mask then [] else open_gate (nr_openat a) 2 (open_write_bits a) ++ open_gate (nr_open a) 1 (open_write_bits a)) ++
    [RetK SECCOMP_RET_ALLOW]) 0 0 d = Some (caps a mask d).
Proof.
  intros Ha. rewrite bpf_arch. unfold caps. rewrite Ha. destruct (sd_arch d =? arch); [|done].
  apply bpf_calls. destruct (fsw_ok mask); cbn [negb andb]; [done|].
  rewrite <- app_assoc, !bpf_open_gate. unfold writes.
  destruct (hits (nr_openat a) (sd_nr d)); cbn [andb negb orb].
  - rewrite orb_false_r. by destruct (Z.land _ _ =? 0).
  - destruct (hits (nr_open a) (sd_nr d)); cbn [andb]; [|done]. by destruct (Z.land _ _ =? 0).
Qed.

Lemma capf_program_spec a arch mask :
  audit_arch a = Some arch ->
  exists p, capf_program a (net_act mask) (proc_act mask) (clone3_act a mask) (fsw_ok mask) = Some p /\
    (length p <= 64)%nat /\ forall d, bpf p 0 0 d = Some (caps a mask d).
Proof.
  intros Ha. unfold capf_program. rewrite Ha. eexists. split; [reflexivity|]. split.
  - rewrite !length_app. pose proof (length_call_gates a (net_act mask) (proc_act mask) (clone3_act a mask)).
    pose proof (length_open_gate (nr_openat a) 2 (open_write_bits a)). pose proof (length_open_gate (nr_open a) 1 (open_write_bits a)).
    destruct (fsw_ok mask); cbn [arch_gate length]; rewrite ?length_app; lia.
  - intros d. by apply capf_program_caps.
Qed.

(** C4. The filter built for a capability mask is the policy: on every
    platform whose architecture is known, [capf_install]'s program fits its
    64-instruction array (the bounds check that follows the writes never
    fires), never runs off its end, and answers every system call of every
    architecture with [Policy.caps]: kill on a foreign architecture, the
    network action for socket/connect/bind, the process action for
    fork/vfork/execve/execveat and for [clone] without [CLONE_THREAD], the
    [clone3] action, kill for [openat]/[open] with a write flag unless a
    write capability is in the mask, allow otherwise. *)
Theorem capf_program_is_policy a arch mask :
  audit_arch a = Some arch ->
  exists p, capf_program a (net_act mask) (proc_act mask) (clone3_act a mask) (fsw_ok mask) = Some p /\
    (length p <= 64)%nat /\ forall d, bpf p 0 0 d = Some (caps a mask d).
Proof. exact (capf_program_spec a arch mask). Qed.

(** Two platforms. *)
Definition abi_x86_64 : abi :=
  mkAbi (Some 0xC000003E) (Some 41) (Some 42) (Some 49) (Some 57) (Some 58) (Some 59) (Some 322) (Some 435) (Some 56)
    (Some 257) (Some 2) 1603 38 1.
Definition abi_aarch64 : abi :=
  mkAbi (Some 0xC00000B7) (Some 198) (Some 203) (Some 200) None None (Some 221) (Some 281) (Some 435) (Some 220)
    (Some 56) None 1603 38 1.

Lemma capf_program_is_policy_witness :
  exists p, capf_program abi_aarch64 (net_act 1) (proc_act 1) (clone3_act abi_aarch64 1) (fsw_ok 1) = Some p /\
    (length p <= 64)%nat /\ forall d, bpf p 0 0 d = Some (caps abi_aarch64 1 d).
Proof. apply (capf_program_is_policy abi_aarch64 0xC00000B7 1). reflexivity. Defined.

(** The legacy filter decides the same calls, without the write gates. *)
Lemma sand_program_decides a arch na pa ca p d : audit_arch a = Some arch -> sand_program a na pa ca = Some p ->
  bpf p 0 0 d = Some (if sd_arch d =? arch then calls a na pa ca SECCOMP_RET_ALLOW d else SECCOMP_RET_KILL_PROCESS).
Proof.
  intros Ha. unfold sand_program. rewrite Ha. intros H.
  assert (Inj : forall x, Some x = Some p -> x = p) by congruence. apply Inj in H as <-. rewrite bpf_arch.
  destruct (sd_arch d =? arch); [|done]. by apply bpf_calls.
Qed.

(** * Reachable states of the capability filter *)

Inductive capf_step (a : abi) : capf -> capf -> Prop :=
  | step_init s : capf_step a s (oodar_cap_init s)
  | step_drop s : capf_step a s (oodar_cap_drop s)
  | step_apply s e mask : capf_step a s (snd (oodar_cap_apply_seccomp_filter a e mask s)).
Definition capf_reachable (a : abi) : capf -> Prop := rtc (capf_step a) capf_start.

(** A flag that is up is backed by a filter of the recorded mask. *)
Definition capf_inv (a : abi) (s : capf) : Prop :=
  g_capf_on s = true -> exists p, In p (filters s) /\ forall d, bpf p 0 0 d = Some (caps a (g_capf_mask s) d).

Lemma capf_install_rc0 a e mask rc new :
  capf_install a e (net_act mask) (proc_act mask) (clone3_act a mask) (fsw_ok mask) = (rc, new) -> rc = 0 ->
  exists p, new = [p] /\ forall d, bpf p 0 0 d = Some (caps a mask d).
Proof.
  unfold capf_install. destruct (audit_arch a) as [arch|] eqn:Ha; [|unfold capf_program; rewrite Ha; intros [= <- _]; discriminate].
  destruct (capf_program_spec a arch mask Ha) as (p & -> & Hl & Hp). unfold capf_load.
  intros H ->. exists p. split; [|exact Hp].
  repeat (case_match; try discriminate); simplify_eq; done.
Qed.

Lemma capf_step_inv a s s' : capf_step a s s' -> capf_inv a s -> capf_inv a s'.
Proof.
  intros [s0|s0|s0 e mask] Hs; unfold capf_inv in *; [done|done|].
  unfold oodar_cap_apply_seccomp_filter. destruct (g_capf_on s0) eqn:On; [intros _; by apply Hs|].
  destruct (capf_install _ _ _ _ _ _) as [rc new] eqn:E. cbn [snd g_capf_on g_capf_mask filters].
  destruct (Z.eqb_spec rc 0) as [Hrc|]; [|discriminate]. intros _.
  destruct (capf_install_rc0 a e mask rc new E Hrc) as (p & -> & Hp). exists p.
  split; [apply in_or_app; right; by left|exact Hp].
Qed.
Lemma capf_reachable_inv a s : capf_reachable a s -> capf_inv a s.
Proof.
  intros H. assert (H0 : capf_inv a capf_start) by discriminate. revert H0.
  induction H as [s|s1 s2 s3 Hs _ IH]; [done|]. intros H0. apply IH. by eapply capf_step_inv.
Qed.
Lemma capf_filters_grow a s s' : rtc (capf_step a) s s' -> exists l, filters s' = filters s ++ l.
Proof.
  induction 1 as [s|s1 s2 s3 Hs _ [l IH]]; [by exists []; rewrite app_nil_r|]. rewrite IH.
  assert (H : exists l', filters s2 = filters s1 ++ l').
  { destruct Hs as [s0|s0|s0 e mask]; [by exists []; rewrite app_nil_r..|].
    unfold oodar_cap_apply_seccomp_filter. destruct (g_capf_on s0); [by exists []; rewrite app_nil_r|].
    destruct (capf_install _ _ _ _ _ _) as [rc new]. by exists new. }
  destruct H as [l' ->]. exists (l' ++ l). by rewrite app_assoc.
Qed.

(** C38. The sandbox flag tells the truth, and authority never grows.  In every
    state reachable by any sequence of [oodar_cap_init], [oodar_cap_drop] and
    [oodar_cap_apply_seccomp_filter] (with any kernel answers): when
    [oodar_cap_is_sandboxed] returns 1, a system call the kernel lets through
    is one [Policy.caps] allows for the recorded mask; so without the process
    capabilities no fork, vfork, execve or execveat runs and [clone] only
    makes threads, and without the network capability no socket is made.  And
    whatever is done later, a call refused now is refused for good. *)
Theorem capf_sandboxed_enforces a arch s s' d :
  audit_arch a = Some arch -> capf_reachable a s -> rtc (capf_step a) s s' ->
  (oodar_cap_is_sandboxed s = true -> allowed (filters s) d ->
     caps a (g_capf_mask s) d = SECCOMP_RET_ALLOW /\ sd_arch d = arch /\
     (proc_ok (g_capf_mask s) = false ->
        calls a SECCOMP_RET_ALLOW SECCOMP_RET_KILL_PROCESS SECCOMP_RET_ALLOW SECCOMP_RET_ALLOW d = SECCOMP_RET_ALLOW) /\
     (Z.testbit (g_capf_mask s) 0 = false ->
        hits (nr_socket a) (sd_nr d) || hits (nr_connect a) (sd_nr d) || hits (nr_bind a) (sd_nr d) = false)) /\
  (allowed (filters s') d -> allowed (filters s) d).
Proof.
  intros Ha Hr Hs. split.
  - intros On Hall. destruct (capf_reachable_inv a s Hr On) as (p & Hin & Hp).
    unfold allowed in Hall. rewrite List.Forall_forall in Hall. specialize (Hall p Hin). rewrite Hp in Hall. injection Hall as E.
    split; [exact E|]. unfold caps in E. rewrite Ha in E. destruct (Z.eqb_spec (sd_arch d) arch); [|discriminate].
    split; [done|]. unfold calls in *.
    assert (Net : Z.testbit (g_capf_mask s) 0 = false -> net_act (g_capf_mask s) = SECCOMP_RET_KILL_PROCESS).
    { intros H0. unfold net_act, OODAR_CAP_NET. rewrite (land_mod _ 1), <- Z.bit0_mod, H0 by lia. done. }
    assert (Proc : proc_ok (g_capf_mask s) = false -> proc_act (g_capf_mask s) = SECCOMP_RET_KILL_PROCESS)
      by (intros H0; unfold proc_act; by rewrite H0).
    destruct (hits (nr_socket a) _ || _ || _) eqn:Hn.
    + split; [done|]. intros H0. rewrite Net in E by done. discriminate.
    + split; [|done]. intros H0. rewrite Proc in E by done.
      destruct (hits (nr_fork a) _ || _ || _ || _); [discriminate|].
      destruct (hits (nr_clone3 a) _); [done|]. by destruct (hits (nr_clone a) _).
  - destruct (capf_filters_grow a s s' Hs) as [l ->]. unfold allowed. rewrite Forall_app. tauto.
Qed.

Definition ok_env : install_env := mkInstall None true true None 38 1 22.
Definition capf_net_only : capf := snd (oodar_cap_apply_seccomp_filter abi_x86_64 ok_env 1 capf_start).
Lemma capf_sandboxed_enforces_witness :
  let s := capf_net_only in let s' := oodar_cap_drop s in
  let d := mkData 41 0xC000003E [] in
  (oodar_cap_is_sandboxed s = true -> allowed (filters s) d ->
     caps abi_x86_64 (g_capf_mask s) d = SECCOMP_RET_ALLOW /\ sd_arch d = 0xC000003E /\
     (proc_ok (g_capf_mask s) = false ->
        calls abi_x86_64 SECCOMP_RET_ALLOW SECCOMP_RET_KILL_PROCESS SECCOMP_RET_ALLOW SECCOMP_RET_ALLOW d = SECCOMP_RET_ALLOW) /\
     (Z.testbit (g_capf_mask s) 0 = false ->
        hits (nr_socket abi_x86_64) (sd_nr d) || hits (nr_connect abi_x86_64) (sd_nr d) || hits (nr_bind abi_x86_64) (sd_nr d) = false)) /\
  (allowed (filters s') d -> allowed (filters s) d).
Proof.
  apply (capf_sandboxed_enforces abi_x86_64 0xC000003E capf_net_only (oodar_cap_drop capf_net_only) (mkData 41 0xC000003E [])).
  - reflexivity.
  - apply rtc_once. exact (step_apply abi_x86_64 capf_start ok_env 1).
  - apply rtc_once. apply step_drop.
Defined.

(** Applying a filter, branch by branch.  Once a filter is on, a further
    request returns success and changes nothing, also when it asks for fewer
    capabilities; otherwise the mask and its little-endian token bytes are
    recorded, and the result is 0 exactly when the kernel took the program
    (then the flag and the availability are 1), -1 when the platform or the
    kernel lacks seccomp (availability 0), -2 on another kernel error; on
    failure nothing is installed and the flag stays down. *)
Theorem capf_apply_outcomes a e mask s :
  let '(rc, s') := oodar_cap_apply_seccomp_filter a e mask s in
  if g_capf_on s then rc = 0 /\ s' = s
  else
    g_capf_mask s' = mask /\ slice 0 4 (g_capf_tok s') = le_bytes 4 mask /\
    (rc = 0 /\ g_capf_on s' = true /\ g_capf_avail s' = 1 /\
       (exists arch p, audit_arch a = Some arch /\
          capf_program a (net_act mask) (proc_act mask) (clone3_act a mask) (fsw_ok mask) = Some p /\
          filters s' = filters s ++ [p]) \/
     rc = -1 /\ g_capf_on s' = false /\ g_capf_avail s' = 0 /\ filters s' = filters s \/
     rc = -2 /\ g_capf_on s' = false /\ g_capf_avail s' = g_capf_avail s /\ filters s' = filters s).
Proof.
  unfold oodar_cap_apply_seccomp_filter. destruct (g_capf_on s) eqn:On; [done|].
  unfold capf_install. destruct (audit_arch a) as [arch|] eqn:Ha.
  - destruct (capf_program_spec a arch mask Ha) as (p & Ep & Hl & _). rewrite Ep.
    assert (L : capf_load e p = (0, true) \/ capf_load e p = (-1, false) \/ capf_load e p = (-2, false)).
    { unfold capf_load. destruct (64 <? length p)%nat eqn:E64; [lia|].
      repeat case_match; auto. }
    destruct L as [->|[->| ->]]; cbn [Z.eqb Pos.eqb g_capf_mask g_capf_tok g_capf_on g_capf_avail filters];
      (split; [done|]); (split; [reflexivity|]).
    + left. repeat split. exists arch, p. done.
    + right; left. rewrite app_nil_r. done.
    + right; right. rewrite app_nil_r. done.
  - unfold capf_program. rewrite Ha. cbn. split; [done|]. split; [reflexivity|]. right; left.
    rewrite app_nil_r. done.
Qed.

(** What the filter does not see.  The gates compare native call numbers
    only: on x86-64, where the x32 calls carry the same architecture word and
    a number with bit 30 set, every x32 call is allowed whatever the mask,
    and so are [creat] (85) and [openat2] (437). *)
Theorem capf_unnamed_calls_pass mask d :
  sd_arch d = 0xC000003E -> 0x40000000 <= sd_nr d \/ sd_nr d = 85 \/ sd_nr d = 437 ->
  exists p, capf_program abi_x86_64 (net_act mask) (proc_act mask) (clone3_act abi_x86_64 mask) (fsw_ok mask) = Some p /\
    bpf p 0 0 d = Some SECCOMP_RET_ALLOW.
Proof.
  intros Ha Hn. destruct (capf_program_spec abi_x86_64 0xC000003E mask eq_refl) as (p & Ep & _ & Hp).
  exists p. split; [exact Ep|]. rewrite Hp. f_equal. unfold caps. cbn [audit_arch abi_x86_64]. rewrite Ha. cbn [Z.eqb Pos.eqb].
  assert (H : forall k, 0 <= k < 0x40000000 -> k <> 85 -> k <> 437 -> hits (Some k) (sd_nr d) = false)
    by (intros k K1 K2 K3; unfold hits; apply Z.eqb_neq; lia).
  unfold calls, writes. cbn [nr_socket nr_connect nr_bind nr_fork nr_vfork nr_execve nr_execveat nr_clone3 nr_clone nr_openat nr_open abi_x86_64].
  rewrite !H by lia. cbn. by rewrite andb_false_r.
Qed.
Lemma capf_unnamed_calls_pass_witness :
  exists p, capf_program abi_x86_64 (net_act 0) (proc_act 0) (clone3_act abi_x86_64 0) (fsw_ok 0) = Some p /\
    bpf p 0 0 (mkData (0x40000000 + 41) 0xC000003E []) = Some SECCOMP_RET_ALLOW.
Proof. apply (capf_unnamed_calls_pass 0 (mkData (0x40000000 + 41) 0xC000003E [])); [reflexivity|left; cbn; lia]. Defined.
