(* ===== verification/Caps.v ===== *)
(** Capability tokens ([sec/cap/]): the token stores and their lazy, fail-closed
    initialisation, the issuers, the checkers with their two independent
    tests (the token comparison and the rights table), and the diagnostic
    accessors.

    One [cstate] holds the globals of caps.c, cap_grant.c, cap_alloc.c,
    cap_time.c, cap_ffi.c and cap_ocap_bridge.c.  A [None] store is one whose
    [pthread_once] has not run; its token globals are then 0.  The operating
    system's entropy and [atexit] are the class [Entropy]. *)
From S2P Require Import Prelude Str.
From stdpp Require Import relations.
From Stdlib Require String.
Import (notations) String.
Open Scope Z_scope.

(** [getentropy k n]: the answer to the [k]-th call, for [n] bytes; [None] is
    a failure (also a platform without the call). *)
Class Entropy := { getentropy : nat -> nat -> option (list Z); atexit_ok : nat -> bool }.
(** The call fills the buffer it was given. *)
Class EntropyFills (E : Entropy) := entropy_fills : forall k n l, getentropy k n = Some l -> List.length l = n /\ bytes l.

(** * State *)

Record tokens := mkTokens {
  g_tok_fs : Z; g_tok_sys : Z; g_tok_env : Z; g_tok_net : Z; g_tok_sign : Z; g_tok_process : Z;
  g_tok_tcp : Z; g_tok_udp : Z; g_tok_bind : Z; g_tok_audio : Z; g_tok_camera : Z; g_tok_usb : Z;
  g_tok_hid : Z; g_tok_window : Z; g_tok_frame : Z; g_tok_fsread : Z; g_tok_fswrite : Z; g_tok_arena : Z;
  g_tok_thread : Z; g_tok_gpu : Z; g_tok_compiler_read : Z; g_tok_metrics : Z;
  g_kernel_hmac_key : list Z }.

Record cstate := mkC {
  n_entropy : nat; n_atexit : nat;
  store : option tokens;
  alloc_tok : option Z; time_rand_tok : option (Z * Z); ffi_tok : option Z;
  g_process_handed : bool;
  g_sand_net : bool; g_sand_proc : bool;
  g_ocap_rights : option (list Z); g_test_force_fail : bool }.
Definition cstart : cstate := mkC 0 0 None None None None false false false None false.

(** A call on the globals. *)
Definition M (A : Type) : Type := ST cstate A.

Definition with_store (t : tokens) (s : cstate) : cstate :=
  mkC (n_entropy s) (n_atexit s) (Some t) (alloc_tok s) (time_rand_tok s) (ffi_tok s) (g_process_handed s) (g_sand_net s) (g_sand_proc s) (g_ocap_rights s) (g_test_force_fail s).
Definition with_alloc (z : Z) (s : cstate) : cstate :=
  mkC (n_entropy s) (n_atexit s) (store s) (Some z) (time_rand_tok s) (ffi_tok s) (g_process_handed s) (g_sand_net s) (g_sand_proc s) (g_ocap_rights s) (g_test_force_fail s).
Definition with_time_rand (z : Z * Z) (s : cstate) : cstate :=
  mkC (n_entropy s) (n_atexit s) (store s) (alloc_tok s) (Some z) (ffi_tok s) (g_process_handed s) (g_sand_net s) (g_sand_proc s) (g_ocap_rights s) (g_test_force_fail s).
Definition with_ffi (z : Z) (s : cstate) : cstate :=
  mkC (n_entropy s) (n_atexit s) (store s) (alloc_tok s) (time_rand_tok s) (Some z) (g_process_handed s) (g_sand_net s) (g_sand_proc s) (g_ocap_rights s) (g_test_force_fail s).
Definition with_handed (s : cstate) : cstate :=
  mkC (n_entropy s) (n_atexit s) (store s) (alloc_tok s) (time_rand_tok s) (ffi_tok s) true (g_sand_net s) (g_sand_proc s) (g_ocap_rights s) (g_test_force_fail s).
Definition oo_sandbox_note_net (s : cstate) : cstate :=
  mkC (n_entropy s) (n_atexit s) (store s) (alloc_tok s) (time_rand_tok s) (ffi_tok s) (g_process_handed s) true (g_sand_proc s) (g_ocap_rights s) (g_test_force_fail s).
Definition oo_sandbox_note_proc (s : cstate) : cstate :=
  mkC (n_entropy s) (n_atexit s) (store s) (alloc_tok s) (time_rand_tok s) (ffi_tok s) (g_process_handed s) (g_sand_net s) true (g_ocap_rights s) (g_test_force_fail s).
Definition with_rights (r : list Z) (s : cstate) : cstate :=
  mkC (n_entropy s) (n_atexit s) (store s) (alloc_tok s) (time_rand_tok s) (ffi_tok s) (g_process_handed s) (g_sand_net s) (g_sand_proc s) (Some r) (g_test_force_fail s).
Definition with_force_fail (b : bool) (s : cstate) : cstate :=
  mkC (n_entropy s) (n_atexit s) (store s) (alloc_tok s) (time_rand_tok s) (ffi_tok s) (g_process_handed s) (g_sand_net s) (g_sand_proc s) (g_ocap_rights s) b.

(** * Token derivation *)

Definition make_cap_tok (b : list Z) : Z :=
  let ent := for_ 0 8 (fun i ent => u64 (Z.lor (u64 (Z.shiftl ent 8)) b.[i])) 0 in
  let tok := i64 ent in
  if (tok =? 0x4F4F4653) || (tok =? 0x4F4F5359) || (tok =? 0x4F4F454E) || (tok =? 0x4F4F4E54)
  then Z.lxor tok 0x11111111 else tok.

Definition derive_tokens (b key : list Z) : tokens :=
  mkTokens
    (make_cap_tok (drop 0 b)) (make_cap_tok (drop 7 b)) (make_cap_tok (drop 14 b)) (make_cap_tok (drop 21 b))
    (make_cap_tok (drop 28 b)) (make_cap_tok (drop 35 b)) (make_cap_tok (drop 63 b)) (make_cap_tok (drop 70 b))
    (make_cap_tok (drop 77 b)) (make_cap_tok (drop 84 b)) (make_cap_tok (drop 91 b)) (make_cap_tok (drop 98 b))
    (make_cap_tok (drop 105 b)) (make_cap_tok (drop 112 b)) (make_cap_tok (drop 119 b)) (make_cap_tok (drop 126 b))
    (make_cap_tok (drop 133 b)) (make_cap_tok (drop 140 b)) (make_cap_tok (drop 147 b)) (make_cap_tok (drop 154 b))
    (make_cap_tok (drop 161 b)) (make_cap_tok (drop 168 b))
    key.

(** The exit handlers of the four stores ([caps_zeroize] and its siblings). *)
Definition zero_tokens : tokens := mkTokens 0 0 0 0 0 0 0 0 0 0 0 0 0 0 0 0 0 0 0 0 0 0 (zeros 32).
Definition caps_zeroize (s : cstate) : cstate := match store s with Some _ => with_store zero_tokens s | None => s end.
Definition alloc_zeroize (s : cstate) : cstate := match alloc_tok s with Some _ => with_alloc 0 s | None => s end.
Definition tr_zeroize (s : cstate) : cstate := match time_rand_tok s with Some _ => with_time_rand (0, 0) s | None => s end.
Definition ffi_zeroize (s : cstate) : cstate := match ffi_tok s with Some _ => with_ffi 0 s | None => s end.

Section entropy.
Context {E : Entropy}.

(** The next answer of [getentropy]; a failure aborts. *)
Definition entropy_or_abort (n : nat) : M (list Z) := fun s =>
  match getentropy (n_entropy s) n with
  | None => Exited ABRT
  | Some l => Ret (l, mkC (S (n_entropy s)) (n_atexit s) (store s) (alloc_tok s) (time_rand_tok s) (ffi_tok s) (g_process_handed s) (g_sand_net s) (g_sand_proc s) (g_ocap_rights s) (g_test_force_fail s))
  end.
Definition atexit_or_abort : M unit := fun s =>
  if atexit_ok (n_atexit s)
  then Ret (tt, mkC (n_entropy s) (S (n_atexit s)) (store s) (alloc_tok s) (time_rand_tok s) (ffi_tok s) (g_process_handed s) (g_sand_net s) (g_sand_proc s) (g_ocap_rights s) (g_test_force_fail s))
  else Exited ABRT.

(** ** The four stores *)

Definition caps_once_init : M tokens :=
  let! b := entropy_or_abort 184 in
  let! key := entropy_or_abort 32 in
  let t := derive_tokens b key in
  let! _ := set_state (with_store t) in
  let! _ := atexit_or_abort in
  ret t.
Definition oo_caps_init : M tokens := fun s => match store s with Some t => Ret (t, s) | None => caps_once_init s end.

Definition OO_CLASSIC_ALLOC : Z := 0x4F4F414C.
(** Eight big-endian bytes of entropy as a signed word. *)
Definition be64 (b : list Z) : Z :=
  i64 (Z.lor (Z.lor (Z.lor (Z.lor (Z.lor (Z.lor (Z.lor (Z.shiftl b.[0] 56) (Z.shiftl b.[1] 48)) (Z.shiftl b.[2] 40))
    (Z.shiftl b.[3] 32)) (Z.shiftl b.[4] 24)) (Z.shiftl b.[5] 16)) (Z.shiftl b.[6] 8)) b.[7]).
Definition alloc_init_once : M Z :=
  let! b := entropy_or_abort 8 in
  let t := be64 b in
  let t := if t =? OO_CLASSIC_ALLOC then Z.lxor t 0x11111111 else t in
  let t := if t =? 0 then 1 else t in
  let! _ := set_state (with_alloc t) in
  let! _ := atexit_or_abort in
  ret t.
Definition oo_alloc_init : M Z := fun s => match alloc_tok s with Some t => Ret (t, s) | None => alloc_init_once s end.

Definition tr_once_init : M (Z * Z) :=
  let! b := entropy_or_abort 16 in
  let ent0 := for_ 0 8 (fun i e => u64 (Z.lor (u64 (Z.shiftl e 8)) b.[i])) 0 in
  let ent1 := for_ 0 8 (fun i e => u64 (Z.lor (u64 (Z.shiftl e 8)) b.[8 + i])) 0 in
  let t := i64 ent0 in let r := i64 ent1 in
  let t := if t =? 0 then 1 else t in
  let r := if r =? 0 then 1 else r in
  let t := if t =? 0x4F4F544D then Z.lxor t 0x11111111 else t in
  let r := if r =? 0x4F4F524E then Z.lxor r 0x11111111 else r in
  let! _ := set_state (with_time_rand (t, r)) in
  let! _ := atexit_or_abort in
  ret (t, r).
Definition oo_tr_init : M (Z * Z) := fun s => match time_rand_tok s with Some t => Ret (t, s) | None => tr_once_init s end.

Definition ffi_once_init : M Z :=
  let! b := entropy_or_abort 8 in
  let t := be64 b in
  let t := if t =? 0x4F4F4649 then Z.lxor t 0x11111111 else t in
  let t := if t =? 0 then 1 else t in
  let! _ := set_state (with_ffi t) in
  let! _ := atexit_or_abort in
  ret t.
Definition oo_ffi_init : M Z := fun s => match ffi_tok s with Some t => Ret (t, s) | None => ffi_once_init s end.

(** ** Issuers ([cap_grant.c] and the sub-stores) *)

Definition oo_cap_grant_fs : M Z := let! t := oo_caps_init in ret (g_tok_fs t).
Definition oo_cap_grant_sys : M Z := let! t := oo_caps_init in let! _ := set_state oo_sandbox_note_proc in ret (g_tok_sys t).
Definition oo_cap_grant_env : M Z := let! t := oo_caps_init in ret (g_tok_env t).
Definition oo_cap_grant_net : M Z := let! t := oo_caps_init in let! _ := set_state oo_sandbox_note_net in ret (g_tok_net t).
Definition oo_cap_grant_sign : M Z := let! t := oo_caps_init in ret (g_tok_sign t).
Definition oo_cap_grant_process : M Z := let! t := oo_caps_init in let! _ := set_state oo_sandbox_note_proc in let! _ := set_state with_handed in ret (g_tok_process t).
Definition oo_cap_process_handed : M bool := let! _ := oo_caps_init in let! s := get_state in ret (g_process_handed s).
Definition oo_cap_grant_tcp : M Z := let! t := oo_caps_init in let! _ := set_state oo_sandbox_note_net in ret (g_tok_tcp t).
Definition oo_cap_grant_udp : M Z := let! t := oo_caps_init in let! _ := set_state oo_sandbox_note_net in ret (g_tok_udp t).
Definition oo_cap_grant_bind : M Z := let! t := oo_caps_init in let! _ := set_state oo_sandbox_note_net in ret (g_tok_bind t).
Definition oo_cap_grant_audio : M Z := let! t := oo_caps_init in ret (g_tok_audio t).
Definition oo_cap_grant_camera : M Z := let! t := oo_caps_init in ret (g_tok_camera t).
Definition oo_cap_grant_usb : M Z := let! t := oo_caps_init in ret (g_tok_usb t).
Definition oo_cap_grant_hid : M Z := let! t := oo_caps_init in ret (g_tok_hid t).
Definition oo_cap_grant_window : M Z := let! t := oo_caps_init in ret (g_tok_window t).
Definition oo_cap_grant_frame : M Z := let! t := oo_caps_init in ret (g_tok_frame t).
Definition oo_cap_grant_fsread : M Z := let! t := oo_caps_init in ret (g_tok_fsread t).
Definition oo_cap_grant_fswrite : M Z := let! t := oo_caps_init in ret (g_tok_fswrite t).
Definition oo_cap_grant_arena : M Z := let! t := oo_caps_init in ret (g_tok_arena t).
Definition oo_cap_grant_thread : M Z := let! t := oo_caps_init in ret (g_tok_thread t).
Definition oo_cap_grant_gpu : M Z := let! t := oo_caps_init in ret (g_tok_gpu t).
Definition oo_cap_grant_compiler_read : M Z := let! t := oo_caps_init in ret (g_tok_compiler_read t).
Definition oo_cap_grant_metrics : M Z := let! t := oo_caps_init in ret (g_tok_metrics t).
Definition oo_cap_grant_alloc : M Z := oo_alloc_init.
Definition oo_cap_grant_time : M Z := let! t := oo_tr_init in ret (fst t).
Definition oo_cap_grant_rand : M Z := let! t := oo_tr_init in ret (snd t).
Definition oo_cap_grant_ffi : M Z := oo_ffi_init.

Definition CAP_TOKENS : list (tokens -> Z) :=
  [g_tok_fs; g_tok_sys; g_tok_env; g_tok_net; g_tok_sign; g_tok_process;
   g_tok_tcp; g_tok_udp; g_tok_bind; g_tok_audio; g_tok_camera; g_tok_usb;
   g_tok_hid; g_tok_window; g_tok_frame; g_tok_fsread; g_tok_fswrite; g_tok_arena;
   g_tok_thread; g_tok_gpu; g_tok_compiler_read; g_tok_metrics].
Definition oo_cap_self_token (which : Z) : M Z :=
  if (which <? 0) || (26 <=? which) then ret 0
  else
    let! t := oo_caps_init in
    if which =? 22 then oo_cap_grant_alloc
    else if which =? 23 then oo_cap_grant_time
    else if which =? 24 then oo_cap_grant_rand
    else if which =? 25 then oo_cap_grant_ffi
    else ret (nth (Z.to_nat which) CAP_TOKENS g_tok_fs t).

(** ** The rights table ([cap_bridge_emitted.c], [cap_ocap_bridge.c]) *)

Record OCapRow := mkRow { row_name : String.string; row_token : String.string; row_mask : Z }.
Definition ROWS : list OCapRow :=
  [mkRow "FsReadCap" "fsread" 1;
   mkRow "FsWriteCap" "fswrite" 3;
   mkRow "NetCap" "net" 3;
   mkRow "TcpCap" "tcp" 3;
   mkRow "UdpCap" "udp" 3;
   mkRow "SysCap" "sys" 7;
   mkRow "ProcessCap" "process" 7;
   mkRow "EnvCap" "env" 1;
   mkRow "TimeCap" "time" 1;
   mkRow "RandCap" "rand" 1;
   mkRow "AllocCap" "alloc" 3;
   mkRow "ThreadCap" "thread" 7;
   mkRow "GpuCap" "gpu" 7;
   mkRow "FfiCap" "ffi" 7;
   mkRow "FsCap" "fs" 31;
   mkRow "ArenaCap" "arena" 11;
   mkRow "MetricsCap" "metrics" 1;
   mkRow "SignCap" "sign" 3;
   mkRow "BindCap" "bind" 3;
   mkRow "CompilerReadCap" "compiler_read" 1].
Definition find_row (name : OoStr) : option OCapRow :=
  match sdata name with
  | None => None
  | Some d =>
      if slen name <? 0 then None
      else List.find (fun r => (Z.of_nat (List.length (ascii_bytes (row_name r))) =? slen name) &&
                               bool_decide (take (List.length (ascii_bytes (row_name r))) d = ascii_bytes (row_name r))) ROWS
  end.
Definition ocap_to_oodar_rights_for_name (name : OoStr) : Z :=
  match find_row name with Some r => row_mask r | None => 0 end.
Definition ocap_to_oodar_has_permission (name : OoStr) (required : Z) : bool :=
  Z.land (ocap_to_oodar_rights_for_name name) required =? required.
Record OCapBridgeRecord := mkRecord { cap_name : OoStr; language_token : OoStr; rights_mask : Z }.
Definition record_from_row (r : option OCapRow) : OCapBridgeRecord :=
  match r with
  | None => mkRecord (oo_str_lit "") (oo_str_lit "") 0
  | Some r => mkRecord (oo_str_lit (row_name r)) (oo_str_lit (row_token r)) (row_mask r)
  end.
Definition ocap_to_oodar_record_for (name : OoStr) : OCapBridgeRecord := record_from_row (find_row name).

Definition SUBSTRATE_TO_LANGUAGE : list String.string :=
  ["FsCap"; "SysCap"; "EnvCap"; "NetCap"; "SignCap"; "ProcessCap";
   "TcpCap"; "UdpCap"; "BindCap"; "FsReadCap"; "FsReadCap"; "FsReadCap";
   "FsReadCap"; "FsReadCap"; "FsReadCap"; "FsReadCap"; "FsWriteCap"; "ArenaCap";
   "ThreadCap"; "GpuCap"; "CompilerReadCap"; "MetricsCap"; "AllocCap"; "TimeCap";
   "RandCap"; "FfiCap"]%string.
Definition ocap_init_once : list Z := map (fun l => ocap_to_oodar_rights_for_name (oo_str_lit l)) SUBSTRATE_TO_LANGUAGE.
Definition ocap_rights : M (list Z) := fun s =>
  match g_ocap_rights s with Some r => Ret (r, s) | None => Ret (ocap_init_once, with_rights ocap_init_once s) end.

(** The first of the 26 tokens equal to [cap], from index [i]. *)
Fixpoint find_substrate_from (n : nat) (i : Z) (cap : Z) : M Z :=
  match n with
  | O => ret (-1)
  | S n => let! t := oo_cap_self_token i in if t =? cap then ret i else find_substrate_from n (i + 1) cap
  end.
Definition find_substrate_index (cap : Z) : M Z := find_substrate_from 26 0 cap.

Definition oo_cap_check_with_ocap (cap required_rights : Z) : M bool :=
  let! s := get_state in
  if g_test_force_fail s then let! _ := set_state (with_force_fail false) in ret false
  else if cap =? 0 then ret false
  else
    let! rights := ocap_rights in
    let! idx := find_substrate_index cap in
    if idx <? 0 then ret false
    else ret (Z.land rights.[Z.to_nat idx] required_rights =? required_rights).
Definition oo_cap_bridge_set_test_force_fail (on : Z) : M unit := set_state (with_force_fail (negb (on =? 0))).
Definition oo_cap_ocap_rights_at (which : Z) : M Z :=
  if (which <? 0) || (26 <=? which) then ret (-1)
  else let! rights := ocap_rights in ret rights.[Z.to_nat which].

(** ** Checkers ([cap_require.c]).  The token globals of a gate are read before
    the store is initialised. *)

Definition global (f : tokens -> Z) : M Z := fun s => Ret (match store s with Some t => f t | None => 0 end, s).

Definition oo_cap_require (got want : Z) : M unit :=
  let! _ := oo_caps_init in
  if (got =? 0) || negb (got =? want) then die 1 else ret tt.
Definition dual_check (got want alt required_rights : Z) : M unit :=
  let! _ := oo_caps_init in
  if (got =? 0) || (negb (got =? want) && negb (got =? alt)) then die 1
  else
    let! ok := oo_cap_check_with_ocap got required_rights in
    if ok then ret tt else die 2.
Definition gate1 (f : tokens -> Z) (got : Z) : M unit := let! want := global f in dual_check got want 0 1.
Definition gate2 (f g : tokens -> Z) (got : Z) : M unit :=
  let! want := global f in let! alt := global g in dual_check got want alt 1.

Definition oo_cap_require_fs : Z -> M unit := gate1 g_tok_fs.
Definition oo_cap_require_sys : Z -> M unit := gate1 g_tok_sys.
Definition oo_cap_require_env : Z -> M unit := gate1 g_tok_env.
Definition oo_cap_require_net : Z -> M unit := gate1 g_tok_net.
Definition oo_cap_require_sign : Z -> M unit := gate1 g_tok_sign.
Definition oo_cap_require_audio : Z -> M unit := gate1 g_tok_audio.
Definition oo_cap_require_camera : Z -> M unit := gate1 g_tok_camera.
Definition oo_cap_require_usb : Z -> M unit := gate1 g_tok_usb.
Definition oo_cap_require_hid : Z -> M unit := gate1 g_tok_hid.
Definition oo_cap_require_window : Z -> M unit := gate1 g_tok_window.
Definition oo_cap_require_frame : Z -> M unit := gate1 g_tok_frame.
Definition oo_cap_require_arena : Z -> M unit := gate1 g_tok_arena.
Definition oo_cap_require_thread : Z -> M unit := gate1 g_tok_thread.
Definition oo_cap_require_gpu : Z -> M unit := gate1 g_tok_gpu.
Definition oo_cap_require_compiler_read : Z -> M unit := gate1 g_tok_compiler_read.
Definition oo_cap_require_metrics : Z -> M unit := gate1 g_tok_metrics.
Definition oo_cap_require_tcp : Z -> M unit := gate2 g_tok_tcp g_tok_net.
Definition oo_cap_require_udp : Z -> M unit := gate2 g_tok_udp g_tok_net.
Definition oo_cap_require_bind : Z -> M unit := gate2 g_tok_bind g_tok_net.
Definition oo_cap_require_fsread : Z -> M unit := gate2 g_tok_fsread g_tok_fs.
Definition oo_cap_require_fswrite : Z -> M unit := gate2 g_tok_fswrite g_tok_fs.
Definition oo_cap_require_process : Z -> M unit := gate2 g_tok_process g_tok_sys.
Definition oo_cap_is_arena (got : Z) : M bool := let! t := oo_caps_init in ret (got =? g_tok_arena t).

Definition oo_cap_require_alloc (got : Z) : M unit :=
  let! t := oo_alloc_init in if (got =? 0) || negb (got =? t) then die 1 else ret tt.
Definition oo_cap_is_alloc (got : Z) : M bool := let! t := oo_alloc_init in ret (got =? t).
Definition oo_cap_require_time (got : Z) : M unit :=
  let! t := oo_tr_init in if (got =? 0) || negb (got =? fst t) then die 1 else ret tt.
Definition oo_cap_require_rand (got : Z) : M unit :=
  let! t := oo_tr_init in if (got =? 0) || negb (got =? snd t) then die 1 else ret tt.
Definition oo_cap_require_ffi (got : Z) : M unit :=
  let! t := oo_ffi_init in if (got =? 0) || negb (got =? t) then die 1 else ret tt.

(** Each gate with its token and its alias. *)
Definition gates : list ((Z -> M unit) * (tokens -> Z) * option (tokens -> Z)) :=
  [(oo_cap_require_fs, g_tok_fs, None);
   (oo_cap_require_sys, g_tok_sys, None);
   (oo_cap_require_env, g_tok_env, None);
   (oo_cap_require_net, g_tok_net, None);
   (oo_cap_require_sign, g_tok_sign, None);
   (oo_cap_require_audio, g_tok_audio, None);
   (oo_cap_require_camera, g_tok_camera, None);
   (oo_cap_require_usb, g_tok_usb, None);
   (oo_cap_require_hid, g_tok_hid, None);
   (oo_cap_require_window, g_tok_window, None);
   (oo_cap_require_frame, g_tok_frame, None);
   (oo_cap_require_arena, g_tok_arena, None);
   (oo_cap_require_thread, g_tok_thread, None);
   (oo_cap_require_gpu, g_tok_gpu, None);
   (oo_cap_require_compiler_read, g_tok_compiler_read, None);
   (oo_cap_require_metrics, g_tok_metrics, None);
   (oo_cap_require_tcp, g_tok_tcp, Some g_tok_net);
   (oo_cap_require_udp, g_tok_udp, Some g_tok_net);
   (oo_cap_require_bind, g_tok_bind, Some g_tok_net);
   (oo_cap_require_fsread, g_tok_fsread, Some g_tok_fs);
   (oo_cap_require_fswrite, g_tok_fswrite, Some g_tok_fs);
   (oo_cap_require_process, g_tok_process, Some g_tok_sys)].
End entropy.

(** * Token derivation *)

Lemma make_cap_tok_value b : bytes b ->
  make_cap_tok b =
    let tok := i64 (be_join (tab 8 (get b))) in
    if (tok =? 0x4F4F4653) || (tok =? 0x4F4F5359) || (tok =? 0x4F4F454E) || (tok =? 0x4F4F4E54)
    then Z.lxor tok 0x11111111 else tok.
Proof.
  intros Hb. unfold make_cap_tok.
  assert (H : forall n, (n <= 8)%nat ->
    for_ 0 n (fun i ent => u64 (Z.lor (u64 (Z.shiftl ent 8)) b.[i])) 0 = be_join (tab n (get b)) /\
    0 <= be_join (tab n (get b)) < 256 ^ Z.of_nat n).
  { induction n as [|n IH]; intros Hn; [by rewrite for_empty by lia|].
    rewrite for_last by lia. destruct IH as [-> R]; [lia|].
    unfold tab. rewrite seq_S, map_app, Nat.add_0_l. cbn [map]. rewrite be_join_app. fold (tab n (get b)).
    set (v := be_join (tab n (get b))) in *. clearbody v. pose proof (bytes_get b n Hb) as Bn. unfold isbyte in Bn.
    assert (P : 256 ^ Z.of_nat n <= 256 ^ 7) by (apply Z.pow_le_mono_r; lia). change (256 ^ 7) with 72057594037927936 in P.
    rewrite Nat2Z.inj_succ, Z.pow_succ_r by lia. rewrite Z.shiftl_mul_pow2 by lia. change (2 ^ 8) with 256.
    rewrite (u64_id (v * 256)) by lia. rewrite Z.lor_comm. change (v * 256) with (v * 2 ^ 8). rewrite lor_add by lia.
    change (2 ^ 8) with 256. rewrite u64_id by lia. lia. }
  by destruct (H 8%nat ltac:(lia)) as [-> _].
Qed.

(** A derived token is the big-endian word of its eight bytes, and never
    one of the four classic forgeable words: those are moved away. *)
Theorem make_cap_tok_not_classic b :
  bytes b ->
  ~ In (make_cap_tok b) [0x4F4F4653; 0x4F4F5359; 0x4F4F454E; 0x4F4F4E54] /\
  (~ In (i64 (be_join (tab 8 (get b)))) [0x4F4F4653; 0x4F4F5359; 0x4F4F454E; 0x4F4F4E54] ->
     make_cap_tok b = i64 (be_join (tab 8 (get b)))).
Proof.
  intros Hb. rewrite make_cap_tok_value by done. cbv zeta. set (tok := i64 _). clearbody tok. cbn [In].
  destruct (Z.eqb_spec tok 0x4F4F4653) as [->|]; [cbn; split; [intuition discriminate|tauto]|].
  destruct (Z.eqb_spec tok 0x4F4F5359) as [->|]; [cbn; split; [intuition discriminate|tauto]|].
  destruct (Z.eqb_spec tok 0x4F4F454E) as [->|]; [cbn; split; [intuition discriminate|tauto]|].
  destruct (Z.eqb_spec tok 0x4F4F4E54) as [->|]; [cbn; split; [intuition discriminate|tauto]|].
  cbn [orb]. split; [|done]. intros [|[|[|[|[]]]]]; by subst.
Qed.
Lemma make_cap_tok_not_classic_witness :
  ~ In (make_cap_tok [0; 0; 0; 0; 0x4F; 0x4F; 0x46; 0x53]) [0x4F4F4653; 0x4F4F5359; 0x4F4F454E; 0x4F4F4E54].
Proof. refine (proj1 (make_cap_tok_not_classic [0; 0; 0; 0; 0x4F; 0x4F; 0x46; 0x53] _)). apply bytesb_ok. reflexivity. Defined.

(** The derivation strides by seven bytes over eight-byte tokens: the low
    byte of the FsCap token is the high byte of the SysCap token (and so on
    along the store), unless a classic word was moved away. *)
Theorem adjacent_tokens_share_a_byte b key :
  bytes b ->
  let fs := g_tok_fs (derive_tokens b key) in
  let sys := g_tok_sys (derive_tokens b key) in
  fs = i64 (be_join (tab 8 (get b))) -> sys = i64 (be_join (tab 8 (get (drop 7 b)))) ->
  u8 fs = b.[7] /\ u8 (Z.shiftr (u64 sys) 56) = b.[7].
Proof.
  intros Hb fs sys -> ->. rewrite !be_join_rev. unfold tab. cbn [seq map rev app].
  rewrite !get_drop. cbn [Nat.add].
  assert (B : forall i, isbyte b.[i]) by (intros; by apply bytes_get).
  pose proof (B 0%nat). pose proof (B 1%nat). pose proof (B 2%nat). pose proof (B 3%nat). pose proof (B 4%nat). pose proof (B 5%nat).
  pose proof (B 6%nat). pose proof (B 7%nat). pose proof (B 8%nat). pose proof (B 9%nat). pose proof (B 10%nat).
  pose proof (B 11%nat). pose proof (B 12%nat). pose proof (B 13%nat). pose proof (B 14%nat). clear B.
  unfold isbyte in *. rewrite !le_join_cons by (unfold isbyte; lia). cbn [le_join].
  assert (S : forall x, exists k, i64 x = x + k * 2 ^ 64).
  { intros x. unfold i64. rewrite u64_mod. case (Z.ltb_spec (x mod 18446744073709551616) 0x8000000000000000); intros;
      [exists (- (x / 18446744073709551616))|exists (- (x / 18446744073709551616) - 1)]; lia. }
  match goal with |- u8 (i64 ?x) = _ /\ u8 (Z.shiftr (u64 (i64 ?y)) 56) = _ =>
    destruct (S x) as [k1 ->]; destruct (S y) as [k2 ->] end.
  rewrite Z.shiftr_div_pow2, !u8_mod, u64_mod by lia. change (2 ^ 64) with 18446744073709551616. change (2 ^ 56) with 72057594037927936.
  split; [lia|].
  match goal with |- ((?y + k2 * _) mod _ / _) mod _ = _ => replace ((y + k2 * 18446744073709551616) mod 18446744073709551616) with y end; lia.
Qed.

(** * What the gates decide *)

Lemma ocap_masks : ocap_init_once = [31; 7; 1; 3; 3; 7; 3; 3; 3; 1; 1; 1; 1; 1; 1; 1; 3; 11; 7; 7; 1; 1; 3; 1; 1; 7].
Proof. vm_compute. reflexivity. Qed.

(** The rights table, once built, is the one of the source. *)
Definition rights_ok (s : cstate) : Prop := g_ocap_rights s = None \/ g_ocap_rights s = Some ocap_init_once.

(** Tokens of a gate are tokens of the store. *)
Ltac in_tokens := unfold CAP_TOKENS; cbn [In]; repeat first [left; reflexivity | right].

Section gate_lemmas.
Context {E : Entropy}.

Lemma oo_caps_init_ready s t : store s = Some t -> oo_caps_init s = Ret (t, s).
Proof. intros H. unfold oo_caps_init. by rewrite H. Qed.

Lemma self_token_ready s t i : store s = Some t -> (i < 22)%nat ->
  oo_cap_self_token (Z.of_nat i) s = Ret (nth i CAP_TOKENS g_tok_fs t, s).
Proof.
  intros Hs Hi. unfold oo_cap_self_token. replace ((Z.of_nat i <? 0) || (26 <=? Z.of_nat i)) with false by lia.
  unfold bind. rewrite (oo_caps_init_ready s t Hs). cbn [run_bind].
  replace (Z.of_nat i =? 22) with false by lia. replace (Z.of_nat i =? 23) with false by lia.
  replace (Z.of_nat i =? 24) with false by lia. replace (Z.of_nat i =? 25) with false by lia.
  by rewrite Nat2Z.id.
Qed.

(** The scan stops at the first equal token, before the sub-stores. *)
Lemma find_substrate_ready s t cap n i k : store s = Some t -> (i <= k < i + n)%nat -> (k < 22)%nat ->
  nth k CAP_TOKENS g_tok_fs t = cap ->
  exists j, (j < 22)%nat /\ find_substrate_from n (Z.of_nat i) cap s = Ret (Z.of_nat j, s).
Proof.
  intros Hs. revert i. induction n as [|n IH]; intros i Hk Hk2 Hc; [lia|]. cbn [find_substrate_from].
  unfold bind at 1. rewrite (self_token_ready s t i Hs) by lia. cbn [run_bind].
  destruct (Z.eqb_spec (nth i CAP_TOKENS g_tok_fs t) cap); [by exists i; split; [lia|]|].
  replace (Z.of_nat i + 1) with (Z.of_nat (S i)) by lia. apply IH; [|done|done].
  destruct (Nat.eq_dec i k) as [->|]; [done|lia].
Qed.

Definition after_check (s : cstate) : cstate :=
  match g_ocap_rights s with Some _ => s | None => with_rights ocap_init_once s end.

Lemma check_with_ocap_ready s t f got : store s = Some t -> rights_ok s -> In f CAP_TOKENS -> got = f t -> got <> 0 ->
  oo_cap_check_with_ocap got 1 s =
    if g_test_force_fail s then Ret (false, with_force_fail false s) else Ret (true, after_check s).
Proof.
  intros Hs Hr Hf -> Hnz. unfold oo_cap_check_with_ocap, bind at 1, get_state. cbn [run_bind].
  destruct (g_test_force_fail s); [done|]. apply Z.eqb_neq in Hnz. rewrite Hnz.
  assert (Er : ocap_rights s = Ret (ocap_init_once, after_check s)).
  { unfold ocap_rights, after_check. destruct Hr as [-> | ->]; done. }
  unfold bind at 1. rewrite Er. cbn [run_bind].
  assert (Hs' : store (after_check s) = Some t) by (unfold after_check; by destruct (g_ocap_rights s)).
  apply (In_nth _ _ g_tok_fs) in Hf as (k & Hk & Ek).
  destruct (find_substrate_ready (after_check s) t (f t) 26 0 k Hs') as (j & Hj & Ej).
  - change (List.length CAP_TOKENS) with 22%nat in Hk. lia.
  - exact Hk.
  - by rewrite Ek.
  - unfold bind, find_substrate_index. change 0 with (Z.of_nat 0) at 1. rewrite Ej. cbn [run_bind].
    replace (Z.of_nat j <? 0) with false by lia. rewrite Nat2Z.id. rewrite ocap_masks.
    do 22 (destruct j as [|j]; [done|]). lia.
Qed.

Definition gate_ok (got want alt : Z) : bool := negb (got =? 0) && ((got =? want) || (got =? alt)).

Lemma dual_check_ready s t got f alt : store s = Some t -> rights_ok s -> In f CAP_TOKENS ->
  (alt = 0 \/ exists g, In g CAP_TOKENS /\ alt = g t) ->
  dual_check got (f t) alt 1 s =
    if gate_ok got (f t) alt then if g_test_force_fail s then Exited 2 else Ret (tt, after_check s) else Exited 1.
Proof.
  intros Hs Hr Hf Ha. unfold dual_check, bind at 1. rewrite (oo_caps_init_ready s t Hs). cbn [run_bind].
  unfold gate_ok. destruct (Z.eqb_spec got 0) as [->|Hnz]; [done|]. cbn [orb negb andb].
  assert (C : forall h, In h CAP_TOKENS -> got = h t ->
    (let! ok := oo_cap_check_with_ocap got 1 in if ok then ret tt else die 2) s =
    if g_test_force_fail s then Exited 2 else Ret (tt, after_check s)).
  { intros h Hh Eh. unfold bind. rewrite (check_with_ocap_ready s t h got) by done. by destruct (g_test_force_fail s). }
  destruct (Z.eqb_spec got (f t)) as [Ef|_]; [cbn [negb andb orb]; by apply (C f)|].
  destruct (Z.eqb_spec got alt) as [Eg|_]; [|done]. cbn [negb andb orb].
  destruct Ha as [->|(g & Hg & ->)]; [done|by apply (C g)].
Qed.

Definition gate_spec (got : Z) (s : cstate) (t : tokens) (g : (Z -> M unit) * (tokens -> Z) * option (tokens -> Z)) : Prop :=
  let '(require, tok, alias) := g in
  require got s =
    if gate_ok got (tok t) (match alias with Some a => a t | None => 0 end)
    then if g_test_force_fail s then Exited 2 else Ret (tt, after_check s)
    else Exited 1.

Lemma gate1_spec got s t f : store s = Some t -> rights_ok s -> In f CAP_TOKENS -> gate_spec got s t (gate1 f, f, None).
Proof.
  intros Hs Hr Hf. unfold gate_spec, gate1, bind at 1, global. rewrite Hs. cbn [run_bind].
  apply dual_check_ready; auto.
Qed.
Lemma gate2_spec got s t f g : store s = Some t -> rights_ok s -> In f CAP_TOKENS -> In g CAP_TOKENS ->
  gate_spec got s t (gate2 f g, f, Some g).
Proof.
  intros Hs Hr Hf Hg. unfold gate_spec, gate2, bind at 1, global. rewrite Hs. cbn [run_bind].
  unfold bind. rewrite Hs. cbn [run_bind]. apply dual_check_ready; eauto.
Qed.

Lemma gates_spec s t got :
  store s = Some t -> rights_ok s -> Forall (gate_spec got s t) gates.
Proof.
  intros Hs Hr. unfold gates.
  repeat (apply List.Forall_cons;
    [match goal with
     | |- gate_spec _ _ _ (?r, ?f, None) => exact (gate1_spec got s t f Hs Hr ltac:(in_tokens))
     | |- gate_spec _ _ _ (?r, ?f, Some ?g) => exact (gate2_spec got s t f g Hs Hr ltac:(in_tokens) ltac:(in_tokens))
     end|]).
  apply List.Forall_nil.
Qed.

(** C1. The 22 gates.  With an initialised store, each [oo_cap_require_X]
    returns exactly when the caller's word is non-zero and is the X token (or
    the token X is subsumed by: tcp, udp and bind by net, fsread and fswrite
    by fs, process by sys); any other word ends the process with status 1.
    The second, rights-table test never disagrees with the first: only the
    test hook makes a genuine token end the process, with status 2. *)
Theorem gates_decide s t got :
  store s = Some t -> rights_ok s -> Forall (gate_spec got s t) gates.
Proof. exact (gates_spec s t got). Qed.

Definition gate_closed (got : Z) (s : cstate) (g : (Z -> M unit) * (tokens -> Z) * option (tokens -> Z)) : Prop :=
  let '(require, _, _) := g in exists code, require got s = Exited code /\ (code = 1 \/ code = ABRT).

(** Before the store exists no word opens a gate: the expected token is
    read as 0 before the initialisation, so the first use of a gate in a
    process that was never granted a token ends it, with the abort status
    when entropy fails and with status 1 otherwise. *)
Theorem gates_closed_before_grant s got :
  store s = None -> Forall (gate_closed got s) gates.
Proof.
  intros Hs.
  assert (D : exists code, dual_check got 0 0 1 s = Exited code /\ (code = 1 \/ code = ABRT)).
  { unfold dual_check, bind at 1, oo_caps_init. rewrite Hs. unfold caps_once_init, bind, entropy_or_abort, set_state, atexit_or_abort, ret.
    destruct (getentropy (n_entropy s) 184) as [b|]; cbn [run_bind]; [|by exists ABRT; auto].
    cbn [n_entropy]. destruct (getentropy (S (n_entropy s)) 32) as [key|]; cbn [run_bind]; [|by exists ABRT; auto].
    cbn [n_atexit with_store]. destruct (atexit_ok (n_atexit s)); cbn [run_bind]; [|by exists ABRT; auto].
    destruct (Z.eqb_spec got 0); cbn [orb negb andb]; exists 1; auto. }
  assert (G1 : forall f, exists code, gate1 f got s = Exited code /\ (code = 1 \/ code = ABRT)).
  { intros f. unfold gate1, bind, global. rewrite Hs. exact D. }
  assert (G2 : forall f g, exists code, gate2 f g got s = Exited code /\ (code = 1 \/ code = ABRT)).
  { intros f g. unfold gate2, bind, global. rewrite Hs. cbn [run_bind]. rewrite Hs. exact D. }
  unfold gates.
  repeat (apply List.Forall_cons;
    [match goal with
     | |- gate_closed _ _ (?r, ?f, None) => exact (G1 f)
     | |- gate_closed _ _ (?r, ?f, Some ?g) => exact (G2 f g)
     end|]).
  apply List.Forall_nil.
Qed.
(** After the exit handlers have run no word opens anything: all 22
    gates and the alloc, time, rand and ffi checks end the process with
    status 1 whatever they are given, the 22 stored tokens read as 0 and the
    MAC key as zeros. *)
Theorem zeroized_stores_open_nothing s got :
  store s <> None -> alloc_tok s <> None -> time_rand_tok s <> None -> ffi_tok s <> None -> rights_ok s ->
  let z := ffi_zeroize (tr_zeroize (alloc_zeroize (caps_zeroize s))) in
  Forall (fun '(require, _, _) => require got z = Exited 1) gates /\
  Forall (fun require => require got z = Exited 1) [oo_cap_require_alloc; oo_cap_require_time; oo_cap_require_rand; oo_cap_require_ffi] /\
  (forall i, (i < 22)%nat -> oo_cap_self_token (Z.of_nat i) z = Ret (0, z)) /\
  option_map g_kernel_hmac_key (store z) = Some (zeros 32).
Proof.
  intros Hs Ha Ht Hf Hr. cbv zeta.
  destruct s as [ne na [t|] [a|] [[t1 t2]|] [f|] ph gn gp ro ff]; cbn in Hs, Ha, Ht, Hf; try done. clear Hs Ha Ht Hf.
  change (ffi_zeroize _) with (mkC ne na (Some zero_tokens) (Some 0) (Some (0, 0)) (Some 0) ph gn gp ro ff).
  set (z := mkC ne na (Some zero_tokens) _ _ _ ph gn gp ro ff).
  assert (Hz : store z = Some zero_tokens) by done. assert (Hrz : rights_ok z) by exact Hr.
  assert (No : gate_ok got 0 0 = false) by (unfold gate_ok; destruct (got =? 0); done).
  split; [|split; [|split; [|done]]].
  - pose proof (gates_spec z zero_tokens got Hz Hrz) as G. unfold gates in *.
    repeat (apply List.Forall_cons; [apply List.Forall_inv in G; unfold gate_spec in G; rewrite G; cbn [zero_tokens g_tok_fs]; exact (f_equal (fun b : bool => if b then _ else Exited 1) No)|apply List.Forall_inv_tail in G]).
    apply List.Forall_nil.
  - assert (N2 : (got =? 0) || negb (got =? 0) = true) by (destruct (got =? 0); done).
    repeat (apply List.Forall_cons; [unfold oo_cap_require_alloc, oo_cap_require_time, oo_cap_require_rand, oo_cap_require_ffi, bind, oo_alloc_init, oo_tr_init, oo_ffi_init; cbn [run_bind z alloc_tok time_rand_tok ffi_tok fst snd]; rewrite N2; reflexivity|]).
    apply List.Forall_nil.
  - intros i Hi. rewrite (self_token_ready z zero_tokens i Hz Hi). do 22 (destruct i as [|i]; [done|]). lia.
Qed.
End gate_lemmas.

(** * Tokens never change *)

(** [s'] knows everything [s] knew: an initialised token, the notes taken by
    the issuers. *)
Record knows (s s' : cstate) : Prop := mkKnows {
  kn_store : forall t, store s = Some t -> store s' = Some t;
  kn_alloc : forall t, alloc_tok s = Some t -> alloc_tok s' = Some t;
  kn_time_rand : forall t, time_rand_tok s = Some t -> time_rand_tok s' = Some t;
  kn_ffi : forall t, ffi_tok s = Some t -> ffi_tok s' = Some t;
  kn_handed : g_process_handed s = true -> g_process_handed s' = true;
  kn_net : g_sand_net s = true -> g_sand_net s' = true;
  kn_proc : g_sand_proc s = true -> g_sand_proc s' = true;
  kn_rights : rights_ok s -> rights_ok s' }.
#[global] Instance knows_preorder : PreOrder knows.
Proof.
  split; [by intros s; split|]. intros s1 s2 s3 [] []. split; auto.
Qed.

Section stability.
Context {E : Entropy}.

Definition mono {A} (m : M A) : Prop := forall s a s', m s = Ret (a, s') -> knows s s'.

Lemma mono_ret {A} (a : A) : mono (ret a).
Proof. intros s b s' [= _ <-]. reflexivity. Qed.
Lemma mono_die {A} c : mono (@die cstate A c).
Proof. intros s b s'. discriminate. Qed.
Lemma mono_bind {A B} (m : M A) (f : A -> M B) : mono m -> (forall a, mono (f a)) -> mono (bind m f).
Proof.
  intros Hm Hf s b s' H. unfold bind in H. destruct (m s) as [[a s1]| |] eqn:E1; cbn [run_bind] in H; try discriminate.
  transitivity s1; [by eapply Hm|by eapply Hf].
Qed.
Lemma mono_get_state : mono get_state.
Proof. intros s b s' [= _ <-]. reflexivity. Qed.
Lemma mono_set_state f : (forall s, knows s (f s)) -> mono (set_state f).
Proof. intros Hf s b s' [= _ <-]. apply Hf. Qed.
Lemma mono_if {A} (b : bool) (m1 m2 : M A) : mono m1 -> mono m2 -> mono (if b then m1 else m2).
Proof. by destruct b. Qed.
Lemma mono_global f : mono (global f).
Proof. intros s b s' [= _ <-]. reflexivity. Qed.
Lemma knows_note_net s : knows s (oo_sandbox_note_net s).
Proof. by split. Qed.
Lemma knows_note_proc s : knows s (oo_sandbox_note_proc s).
Proof. by split. Qed.
Lemma knows_handed s : knows s (with_handed s).
Proof. by split. Qed.
Lemma knows_force b s : knows s (with_force_fail b s).
Proof. by split. Qed.

(** The lazy initialisations: nothing was known of the store they fill. *)
Lemma ret_state {A} (a b : A) (s s' : cstate) : Ret (a, s) = Ret (b, s') -> s' = s.
Proof. congruence. Qed.
Lemma mono_caps_init : mono oo_caps_init.
Proof.
  intros s a s'. unfold oo_caps_init. destruct (store s) eqn:Hs; [by intros [= _ <-]|].
  unfold caps_once_init, bind, entropy_or_abort, set_state, atexit_or_abort, ret.
  destruct (getentropy _ 184) as [b|]; cbn [run_bind n_entropy]; [|discriminate].
  destruct (getentropy _ 32) as [key|]; cbn [run_bind n_atexit with_store]; [|discriminate].
  destruct (atexit_ok _); cbn [run_bind]; [|discriminate].
  intros H. apply ret_state in H. subst s'. split; cbn; try done. intros t Ht. by rewrite Hs in Ht.
Qed.
Lemma mono_alloc_init : mono oo_alloc_init.
Proof.
  intros s a s'. unfold oo_alloc_init. destruct (alloc_tok s) eqn:Hs; [by intros [= _ <-]|].
  unfold alloc_init_once, bind, entropy_or_abort, set_state, atexit_or_abort, ret.
  destruct (getentropy _ 8) as [b|]; cbn [run_bind n_atexit with_alloc]; [|discriminate].
  destruct (atexit_ok _); cbn [run_bind]; [|discriminate].
  intros H. apply ret_state in H. subst s'. split; cbn; try done. intros t Ht. by rewrite Hs in Ht.
Qed.
Lemma mono_tr_init : mono oo_tr_init.
Proof.
  intros s a s'. unfold oo_tr_init. destruct (time_rand_tok s) eqn:Hs; [by intros [= _ <-]|].
  unfold tr_once_init, bind, entropy_or_abort, set_state, atexit_or_abort, ret.
  destruct (getentropy _ 16) as [b|]; cbn [run_bind n_atexit with_time_rand]; [|discriminate].
  destruct (atexit_ok _); cbn [run_bind]; [|discriminate].
  intros H. apply ret_state in H. subst s'. split; cbn; try done. intros t Ht. by rewrite Hs in Ht.
Qed.
Lemma mono_ffi_init : mono oo_ffi_init.
Proof.
  intros s a s'. unfold oo_ffi_init. destruct (ffi_tok s) eqn:Hs; [by intros [= _ <-]|].
  unfold ffi_once_init, bind, entropy_or_abort, set_state, atexit_or_abort, ret.
  destruct (getentropy _ 8) as [b|]; cbn [run_bind n_atexit with_ffi]; [|discriminate].
  destruct (atexit_ok _); cbn [run_bind]; [|discriminate].
  intros H. apply ret_state in H. subst s'. split; cbn; try done. intros t Ht. by rewrite Hs in Ht.
Qed.
Lemma mono_ocap_rights : mono ocap_rights.
Proof.
  intros s a s'. unfold ocap_rights. destruct (g_ocap_rights s) eqn:Hr; intros [= _ <-]; [reflexivity|].
  split; cbn; try done. intros _. by right.
Qed.
End stability.
(** One rule per shape of call. *)
Ltac mono_step :=
  match goal with
  | |- forall _, _ => intros ?
  | |- mono (bind _ _) => apply mono_bind; [|intros ?]
  | |- mono (if _ then _ else _) => apply mono_if
  | |- mono (ret _) => apply mono_ret
  | |- mono (die _) => apply mono_die
  | |- mono get_state => apply mono_get_state
  | |- mono (global _) => apply mono_global
  | |- mono oo_caps_init => apply mono_caps_init
  | |- mono oo_alloc_init => apply mono_alloc_init
  | |- mono oo_tr_init => apply mono_tr_init
  | |- mono oo_ffi_init => apply mono_ffi_init
  | |- mono ocap_rights => apply mono_ocap_rights
  | |- mono (set_state oo_sandbox_note_net) => apply mono_set_state; exact knows_note_net
  | |- mono (set_state oo_sandbox_note_proc) => apply mono_set_state; exact knows_note_proc
  | |- mono (set_state with_handed) => apply mono_set_state; exact knows_handed
  | |- mono (set_state (with_force_fail ?b)) => apply mono_set_state; exact (knows_force b)
  end.
Ltac mono := repeat mono_step.

Section api.
Context {E : Entropy}.

Lemma mono_self_token i : mono (oo_cap_self_token i).
Proof.
  unfold oo_cap_self_token, oo_cap_grant_alloc, oo_cap_grant_time, oo_cap_grant_rand, oo_cap_grant_ffi. mono.
Qed.
Lemma mono_find n i cap : mono (find_substrate_from n i cap).
Proof.
  revert i. induction n as [|n IH]; intros i; cbn [find_substrate_from]; [mono|].
  apply mono_bind; [apply mono_self_token|]. intros a. apply mono_if; [mono|apply IH].
Qed.
Lemma mono_check cap r : mono (oo_cap_check_with_ocap cap r).
Proof.
  unfold oo_cap_check_with_ocap, find_substrate_index.
  apply mono_bind; [mono|]. intros s. apply mono_if; [mono|]. apply mono_if; [mono|].
  apply mono_bind; [mono|]. intros rights. apply mono_bind; [apply mono_find|]. mono.
Qed.
Lemma mono_dual got want alt r : mono (dual_check got want alt r).
Proof.
  unfold dual_check. apply mono_bind; [mono|]. intros _. apply mono_if; [mono|].
  apply mono_bind; [apply mono_check|]. mono.
Qed.
Lemma mono_gate1 f got : mono (gate1 f got).
Proof. unfold gate1. apply mono_bind; [mono|]. intros. apply mono_dual. Qed.
Lemma mono_gate2 f g got : mono (gate2 f g got).
Proof.
  unfold gate2. apply mono_bind; [mono|]. intros. apply mono_bind; [mono|]. intros. apply mono_dual.
Qed.

(** Each issuer with its checker and the token it hands out. *)
Definition issued : list (M Z * (Z -> M unit) * (tokens -> Z)) :=
  [(oo_cap_grant_fs, oo_cap_require_fs, g_tok_fs);
   (oo_cap_grant_sys, oo_cap_require_sys, g_tok_sys);
   (oo_cap_grant_env, oo_cap_require_env, g_tok_env);
   (oo_cap_grant_net, oo_cap_require_net, g_tok_net);
   (oo_cap_grant_sign, oo_cap_require_sign, g_tok_sign);
   (oo_cap_grant_process, oo_cap_require_process, g_tok_process);
   (oo_cap_grant_tcp, oo_cap_require_tcp, g_tok_tcp);
   (oo_cap_grant_udp, oo_cap_require_udp, g_tok_udp);
   (oo_cap_grant_bind, oo_cap_require_bind, g_tok_bind);
   (oo_cap_grant_audio, oo_cap_require_audio, g_tok_audio);
   (oo_cap_grant_camera, oo_cap_require_camera, g_tok_camera);
   (oo_cap_grant_usb, oo_cap_require_usb, g_tok_usb);
   (oo_cap_grant_hid, oo_cap_require_hid, g_tok_hid);
   (oo_cap_grant_window, oo_cap_require_window, g_tok_window);
   (oo_cap_grant_frame, oo_cap_require_frame, g_tok_frame);
   (oo_cap_grant_fsread, oo_cap_require_fsread, g_tok_fsread);
   (oo_cap_grant_fswrite, oo_cap_require_fswrite, g_tok_fswrite);
   (oo_cap_grant_arena, oo_cap_require_arena, g_tok_arena);
   (oo_cap_grant_thread, oo_cap_require_thread, g_tok_thread);
   (oo_cap_grant_gpu, oo_cap_require_gpu, g_tok_gpu);
   (oo_cap_grant_compiler_read, oo_cap_require_compiler_read, g_tok_compiler_read);
   (oo_cap_grant_metrics, oo_cap_require_metrics, g_tok_metrics)].

(** A call of the capability interface that returned. *)
Inductive api_call : cstate -> cstate -> Prop :=
  | call_grant m req tok v s s' : In (m, req, tok) issued -> m s = Ret (v, s') -> api_call s s'
  | call_grant_sub m v s s' : In m [oo_cap_grant_alloc; oo_cap_grant_time; oo_cap_grant_rand; oo_cap_grant_ffi] ->
      m s = Ret (v, s') -> api_call s s'
  | call_require req tok alias got s s' : In (req, tok, alias) gates -> req got s = Ret (tt, s') -> api_call s s'
  | call_require_sub req got s s' : In req [oo_cap_require_alloc; oo_cap_require_time; oo_cap_require_rand; oo_cap_require_ffi] ->
      req got s = Ret (tt, s') -> api_call s s'
  | call_require_legacy got want s s' : oo_cap_require got want s = Ret (tt, s') -> api_call s s'
  | call_is_arena got b s s' : oo_cap_is_arena got s = Ret (b, s') -> api_call s s'
  | call_is_alloc got b s s' : oo_cap_is_alloc got s = Ret (b, s') -> api_call s s'
  | call_handed b s s' : oo_cap_process_handed s = Ret (b, s') -> api_call s s'
  | call_self_token i v s s' : oo_cap_self_token i s = Ret (v, s') -> api_call s s'
  | call_check cap r b s s' : oo_cap_check_with_ocap cap r s = Ret (b, s') -> api_call s s'
  | call_rights_at i v s s' : oo_cap_ocap_rights_at i s = Ret (v, s') -> api_call s s'
  | call_force on s s' : oo_cap_bridge_set_test_force_fail on s = Ret (tt, s') -> api_call s s'.

Lemma mono_issuer m req tok : In (m, req, tok) issued -> mono m.
Proof.
  intros H. repeat (destruct H as [H|H]; [apply (f_equal (fun p => fst (fst p))) in H; cbn [fst] in H; subst m|]); [..|destruct H].
  all: unfold oo_cap_grant_fs, oo_cap_grant_sys, oo_cap_grant_env, oo_cap_grant_net, oo_cap_grant_sign, oo_cap_grant_process, oo_cap_grant_tcp, oo_cap_grant_udp, oo_cap_grant_bind, oo_cap_grant_audio, oo_cap_grant_camera,
    oo_cap_grant_usb, oo_cap_grant_hid, oo_cap_grant_window, oo_cap_grant_frame, oo_cap_grant_fsread, oo_cap_grant_fswrite, oo_cap_grant_arena, oo_cap_grant_thread, oo_cap_grant_gpu, oo_cap_grant_compiler_read, oo_cap_grant_metrics; mono.
Qed.
Definition mono_gate (g : (Z -> M unit) * (tokens -> Z) * option (tokens -> Z)) : Prop :=
  let '(require, _, _) := g in forall got, mono (require got).
Lemma mono_gates : Forall mono_gate gates.
Proof.
  unfold gates.
  repeat (apply List.Forall_cons;
    [match goal with
     | |- mono_gate (?r, ?f, None) => exact (mono_gate1 f)
     | |- mono_gate (?r, ?f, Some ?g) => exact (mono_gate2 f g)
     end|]).
  apply List.Forall_nil.
Qed.
Lemma mono_requirer req tok alias got : In (req, tok, alias) gates -> mono (req got).
Proof. intros H. pose proof mono_gates as G. rewrite List.Forall_forall in G. exact (G _ H got). Qed.

Lemma api_call_knows s s' : api_call s s' -> knows s s'.
Proof.
  intros [m req tok v s1 s2 Hin H|m v s1 s2 Hin H|req tok alias got s1 s2 Hin H|req got s1 s2 Hin H|got want s1 s2 H|
    got b s1 s2 H|got b s1 s2 H|b s1 s2 H|i v s1 s2 H|cap r b s1 s2 H|i v s1 s2 H|on s1 s2 H]; revert H.
  - apply (mono_issuer m req tok Hin).
  - cbn [In] in Hin. destruct Hin as [<-|[<-|[<-|[<-|[]]]]]; [apply mono_alloc_init| | |apply mono_ffi_init];
      [enough (Hm : mono oo_cap_grant_time) by apply Hm|enough (Hm : mono oo_cap_grant_rand) by apply Hm];
      unfold oo_cap_grant_time, oo_cap_grant_rand; mono.
  - apply (mono_requirer req tok alias got Hin).
  - assert (Hm : mono (req got)).
    { cbn [In] in Hin. destruct Hin as [<-|[<-|[<-|[<-|[]]]]];
        unfold oo_cap_require_alloc, oo_cap_require_time, oo_cap_require_rand, oo_cap_require_ffi; mono. }
    apply Hm.
  - enough (Hm : mono (oo_cap_require got want)) by apply Hm. unfold oo_cap_require. mono.
  - enough (Hm : mono (oo_cap_is_arena got)) by apply Hm. unfold oo_cap_is_arena. mono.
  - enough (Hm : mono (oo_cap_is_alloc got)) by apply Hm. unfold oo_cap_is_alloc. mono.
  - enough (Hm : mono oo_cap_process_handed) by apply Hm. unfold oo_cap_process_handed. mono.
  - apply mono_self_token.
  - apply mono_check.
  - enough (Hm : mono (oo_cap_ocap_rights_at i)) by apply Hm. unfold oo_cap_ocap_rights_at. mono.
  - enough (Hm : mono (oo_cap_bridge_set_test_force_fail on)) by apply Hm. unfold oo_cap_bridge_set_test_force_fail. mono.
Qed.
Lemma api_calls_know s s' : rtc api_call s s' -> knows s s'.
Proof. induction 1 as [s|s1 s2 s3 H _ IH]; [reflexivity|]. transitivity s2; [by apply api_call_knows|done]. Qed.
End api.

(** * A granted token keeps opening its gate *)

Section liveness.
Context {E : Entropy}.

Lemma caps_init_store s t s' : oo_caps_init s = Ret (t, s') -> store s' = Some t.
Proof.
  unfold oo_caps_init. destruct (store s) as [t0|] eqn:Hs; [intros H; injection H as <- <-; exact Hs|].
  unfold caps_once_init, bind, entropy_or_abort, set_state, atexit_or_abort, ret.
  destruct (getentropy _ 184) as [b|]; cbn [run_bind n_entropy]; [|discriminate].
  destruct (getentropy _ 32) as [key|]; cbn [run_bind n_atexit with_store]; [|discriminate].
  destruct (atexit_ok _); cbn [run_bind]; [|discriminate].
  generalize (derive_tokens b key). intros t1 H. by injection H as <- <-.
Qed.

Definition issues (m : M Z) (tok : tokens -> Z) : Prop :=
  (forall s v s', m s = Ret (v, s') -> exists t, store s' = Some t /\ v = tok t) /\
  (forall s t, store s = Some t -> exists s', m s = Ret (tok t, s')).
Definition keeps_store (f : cstate -> cstate) : Prop := forall s, store (f s) = store s.

Lemma issues_after (k : tokens -> M Z) tok :
  (forall t s, store s = Some t -> exists s', k t s = Ret (tok t, s') /\ store s' = Some t) ->
  issues (bind oo_caps_init k) tok.
Proof.
  intros Hk. split.
  - intros s v s' H. unfold bind in H. destruct (oo_caps_init s) as [[t s1]| |] eqn:E1; cbn [run_bind] in H; try discriminate.
    apply caps_init_store in E1. destruct (Hk t s1 E1) as (s2 & E2 & H2). rewrite E2 in H.
    injection H as <- <-. by exists t.
  - intros s t Hs. destruct (Hk t s Hs) as (s' & E' & _). exists s'. unfold bind. by rewrite (oo_caps_init_ready s t Hs).
Qed.
Lemma issues0 tok : issues (let! t := oo_caps_init in ret (tok t)) tok.
Proof. apply issues_after. intros t s Hs. by exists s. Qed.
Lemma issues1 f tok : keeps_store f -> issues (let! t := oo_caps_init in let! _ := set_state f in ret (tok t)) tok.
Proof. intros Hf. apply issues_after. intros t s Hs. exists (f s). split; [done|by rewrite Hf]. Qed.
Lemma issues2 f g tok : keeps_store f -> keeps_store g ->
  issues (let! t := oo_caps_init in let! _ := set_state f in let! _ := set_state g in ret (tok t)) tok.
Proof. intros Hf Hg. apply issues_after. intros t s Hs. exists (g (f s)). split; [done|by rewrite Hg, Hf]. Qed.

Definition issued_ok (i : M Z * (Z -> M unit) * (tokens -> Z)) : Prop :=
  let '(m, req, tok) := i in issues m tok /\ exists alias, In (req, tok, alias) gates.
Ltac in_gates := unfold gates; cbn [In]; repeat first [left; reflexivity | right].
Lemma issued_all : Forall issued_ok issued.
Proof.
  unfold issued.
  repeat (apply List.Forall_cons;
    [match goal with
     | |- issued_ok (?m, ?r, ?f) =>
         split;
         [first [exact (issues0 f)
                | exact (issues1 oo_sandbox_note_net f (fun _ => eq_refl))
                | exact (issues1 oo_sandbox_note_proc f (fun _ => eq_refl))
                | exact (issues2 oo_sandbox_note_proc with_handed f (fun _ => eq_refl) (fun _ => eq_refl))]
         |first [exists None; solve [in_gates] | exists (Some g_tok_net); solve [in_gates] | exists (Some g_tok_fs); solve [in_gates] | exists (Some g_tok_sys); solve [in_gates]]]
     end|]).
  apply List.Forall_nil.
Qed.

(** C18. A token that was granted stays good: whatever calls of the interface
    follow a grant (grants, checks, accessors, in any order, by any caller),
    the issuer hands out the same word again and, unless that word is 0 or
    the test hook is armed, its gate returns; nothing can revoke or change
    it.  The network and process notes of the sandbox are never cleared. *)
Theorem granted_token_opens m req tok v s0 s1 s2 :
  In (m, req, tok) issued -> rights_ok s0 -> m s0 = Ret (v, s1) -> rtc api_call s1 s2 ->
  (exists s3, m s2 = Ret (v, s3)) /\
  (v <> 0 -> g_test_force_fail s2 = false -> req v s2 = Ret (tt, after_check s2)) /\
  (g_sand_net s1 = true -> g_sand_net s2 = true) /\ (g_sand_proc s1 = true -> g_sand_proc s2 = true).
Proof.
  intros Hin Hr Hm Hs. pose proof issued_all as All. rewrite List.Forall_forall in All.
  destruct (All _ Hin) as [[I1 I2] [alias Hg]]. destruct (I1 _ _ _ Hm) as (t & Ht & ->).
  pose proof (api_calls_know s1 s2 Hs) as K. pose proof (mono_issuer m req tok Hin _ _ _ Hm) as K0.
  pose proof (kn_store _ _ K t Ht) as Ht2. split; [by apply I2|]. split; [|split; [apply (kn_net _ _ K)|apply (kn_proc _ _ K)]].
  intros Hnz Hf. pose proof (gates_spec s2 t (tok t) Ht2 (kn_rights _ _ K (kn_rights _ _ K0 Hr))) as G.
  rewrite List.Forall_forall in G. specialize (G _ Hg). cbn [gate_spec] in G. rewrite G.
  unfold gate_ok. rewrite Z.eqb_refl. apply Z.eqb_neq in Hnz. rewrite Hnz, Hf. done.
Qed.
End liveness.

(** A deterministic machine for the witnesses. *)
Definition wit_entropy : Entropy :=
  {| getentropy := fun k n => Some (tab n (fun i => u8 (Z.of_nat (S k) * 37 + Z.of_nat i * 101 + 11))); atexit_ok := fun _ => true |}.
Definition wit_state (m : @M Z) : cstate := match m cstart with Ret (_, s) => s | _ => cstart end.
Definition wit_granted : cstate := Eval vm_compute in wit_state (@oo_cap_grant_sign wit_entropy).
Definition wit_sign : Z := Eval vm_compute in match store wit_granted with Some t => g_tok_sign t | None => 0 end.
Definition wit_tokens : tokens := Eval vm_compute in match store wit_granted with Some t => t | None => derive_tokens [] [] end.

Definition wit_all : cstate := Eval vm_compute in
  match (let! _ := @oo_alloc_init wit_entropy in let! _ := @oo_tr_init wit_entropy in let! _ := @oo_ffi_init wit_entropy in @oo_caps_init wit_entropy) cstart with Ret (_, s) => s | _ => cstart end.

Lemma gates_decide_witness : Forall (gate_spec wit_sign wit_granted wit_tokens) (@gates wit_entropy).
Proof. apply (@gates_decide wit_entropy wit_granted wit_tokens wit_sign); [reflexivity|by left]. Defined.
Lemma gates_closed_before_grant_witness : Forall (gate_closed 5 cstart) (@gates wit_entropy).
Proof. apply (@gates_closed_before_grant wit_entropy cstart 5). reflexivity. Defined.
Lemma granted_token_opens_witness :
  @oo_cap_require_sign wit_entropy wit_sign wit_granted = Ret (tt, after_check wit_granted).
Proof.
  refine (proj1 (proj2 (@granted_token_opens wit_entropy oo_cap_grant_sign oo_cap_require_sign g_tok_sign wit_sign
    cstart wit_granted wit_granted _ _ _ _)) _ _).
  - unfold issued. cbn [In]. do 4 right. left. reflexivity.
  - by left.
  - vm_compute. reflexivity.
  - apply rtc_refl.
  - discriminate.
  - reflexivity.
Defined.
Lemma adjacent_tokens_share_a_byte_witness :
  let b := tab 184 (fun i => u8 (Z.of_nat i * 5 + 3)) in
  u8 (g_tok_fs (derive_tokens b [])) = b.[7] /\ u8 (Z.shiftr (u64 (g_tok_sys (derive_tokens b []))) 56) = b.[7].
Proof.
  apply (adjacent_tokens_share_a_byte (tab 184 (fun i => u8 (Z.of_nat i * 5 + 3))) []).
  - apply bytesb_ok. vm_compute. reflexivity.
  - vm_compute. reflexivity.
  - vm_compute. reflexivity.
Defined.
Lemma zeroized_stores_open_nothing_witness :
  @oo_cap_require_sign wit_entropy wit_sign (ffi_zeroize (tr_zeroize (alloc_zeroize (caps_zeroize wit_all)))) = Exited 1.
Proof.
  pose proof (proj1 (@zeroized_stores_open_nothing wit_entropy wit_all wit_sign ltac:(discriminate) ltac:(discriminate)
    ltac:(discriminate) ltac:(discriminate) ltac:(by left))) as H.
  unfold gates in H. do 4 apply List.Forall_inv_tail in H. exact (List.Forall_inv H).
Defined.
