(* ===== verification/Event.v ===== *)
(** The event bus and the runtime counters ([core/event/]).

    Producers emit named events; the bus runs the listeners subscribed to the
    name; five listeners are the counters of [metrics.c], which are behind the
    MetricsCap gate like every external caller.  [estate] holds the globals
    of both files and the token stores. *)
From S2P Require Import Prelude Str Caps.
From Stdlib Require String.
Import (notations) String.
Open Scope Z_scope.

Definition OO_EVENT_MAX_SUBSCRIBERS : nat := 32.
Definition OO_EVENT_MAX_NAME : Z := 32.
Definition OO_EVENT_MAX_EVENTS : nat := 32.
Definition METRICS_MAX : nat := 64.
Definition METRICS_NAME_MAX : Z := 32.

(** A callback: a listener of [metrics.c], or one of the application's. *)
Inductive listener := on_cap_attenuate | on_pq_sign | on_pq_verify | on_aead_seal | on_aead_open | External (id : nat).
#[global] Instance listener_eq : EqDecision listener.
Proof. unfold EqDecision, Decision. decide equality. apply Nat.eq_dec. Defined.

(** Names are the bytes copied into a zeroed array. *)
Record event_slot := mkSlot { ev_name : list Z; ev_fns : list listener }.
Record metrics_slot := mkCounter { m_name : list Z; m_value : Z; m_in_use : bool }.
Record estate := mkE {
  caps : cstate;
  g_events : list event_slot;
  g_metrics : list metrics_slot;
  g_metrics_self_cap : Z; metrics_once : bool; metrics_sub_once : bool }.
Definition free_counter : metrics_slot := mkCounter [] 0 false.
Definition estart : estate := mkE cstart [] (repeat free_counter METRICS_MAX) 0 false false.

Definition with_caps (c : cstate) (s : estate) : estate :=
  mkE c (g_events s) (g_metrics s) (g_metrics_self_cap s) (metrics_once s) (metrics_sub_once s).
Definition with_events (l : list event_slot) (s : estate) : estate :=
  mkE (caps s) l (g_metrics s) (g_metrics_self_cap s) (metrics_once s) (metrics_sub_once s).
Definition with_metrics (l : list metrics_slot) (s : estate) : estate :=
  mkE (caps s) (g_events s) l (g_metrics_self_cap s) (metrics_once s) (metrics_sub_once s).
Definition with_self_cap (c : Z) (s : estate) : estate :=
  mkE (caps s) (g_events s) (g_metrics s) c true (metrics_sub_once s).
Definition with_subscribed (s : estate) : estate :=
  mkE (caps s) (g_events s) (g_metrics s) (g_metrics_self_cap s) (metrics_once s) true.
Definition on_caps {A} (m : ST cstate A) : ST estate A := lift caps with_caps m.

(** [strncmp (a, b, n) == 0], from index [i]. *)
Fixpoint strn_eq (n : nat) (i : nat) (a b : list Z) : bool :=
  match n with
  | O => true
  | S n => if negb (a.[i] =? b.[i]) then false else if a.[i] =? 0 then true else strn_eq n (S i) a b
  end.
(** The test of both tables: equal up to [len] and ending there. *)
Definition same_name (slot name : list Z) (len : nat) : bool := strn_eq len 0 slot name && (slot.[len] =? 0).

(** * The bus ([event.c]) *)

Definition find_event (l : list event_slot) (name : list Z) (len : nat) : option nat :=
  fst <$> list_find (fun sl => same_name (ev_name sl) name len = true) l.
Definition event_name_ok (name : OoStr) : option (list Z * nat) :=
  match sdata name with
  | None => None
  | Some d => if (slen name <=? 0) || (OO_EVENT_MAX_NAME <=? slen name) then None else Some (d, Z.to_nat (slen name))
  end.
Definition add_listener (fn : listener) (sl : event_slot) : event_slot :=
  if (length (ev_fns sl) <? OO_EVENT_MAX_SUBSCRIBERS)%nat then mkSlot (ev_name sl) (ev_fns sl ++ [fn]) else sl.
Definition bus_subscribe (name : OoStr) (fn : option listener) (l : list event_slot) : list event_slot :=
  match fn with
  | None => l
  | Some fn =>
      match event_name_ok name with
      | None => l
      | Some (d, n) =>
          match find_event l d n with
          | Some i => alter (add_listener fn) i l
          | None => if (OO_EVENT_MAX_EVENTS <=? length l)%nat then l else l ++ [add_listener fn (mkSlot (take n d) [])]
          end
      end
  end.
Definition oo_event_subscribe (name : OoStr) (fn : option listener) : ST estate unit :=
  set_state (fun s => with_events (bus_subscribe name fn (g_events s)) s).

Definition bus_listeners (name : OoStr) (l : list event_slot) : list listener :=
  match event_name_ok name with
  | None => []
  | Some (d, n) => match find_event l d n with Some i => from_option ev_fns [] (l !! i) | None => [] end
  end.

(** * Counters ([metrics.c]) *)

Section runtime.
Context {E : Entropy}.

Definition metrics_init_once : ST estate unit :=
  let! c := on_caps oo_cap_grant_metrics in set_state (with_self_cap c).
Definition oo_metrics_init : ST estate unit :=
  let! s := get_state in if metrics_once s then ret tt else metrics_init_once.

Definition safe_char (c : Z) : bool :=
  (97 <=? c) && (c <=? 122) || (65 <=? c) && (c <=? 90) || (48 <=? c) && (c <=? 57) || (c =? 95) || (c =? 45).
Definition name_is_safe (name : OoStr) : bool :=
  match sdata name with
  | None => false
  | Some d => negb ((slen name <=? 0) || (METRICS_NAME_MAX <=? slen name)) && forallb safe_char (take (Z.to_nat (slen name)) d)
  end.

Definition find_used (l : list metrics_slot) (name : list Z) (len : nat) : option nat :=
  fst <$> list_find (fun sl => m_in_use sl && same_name (m_name sl) name len = true) l.
Definition find_slot_unlocked (l : list metrics_slot) (name : list Z) (len : nat) (create : bool) : option nat * list metrics_slot :=
  match find_used l name len with
  | Some i => (Some i, l)
  | None =>
      if create then
        match list_find (fun sl => m_in_use sl = false) l with
        | Some (i, _) => (Some i, <[i := mkCounter (take len name) 0 true]> l)
        | None => (None, l)
        end
      else (None, l)
  end.
Definition name_bytes (name : OoStr) : list Z := from_option id [] (sdata name).
Definition name_len (name : OoStr) : nat := Z.to_nat (slen name).
Definition bump (sl : metrics_slot) : metrics_slot := mkCounter (m_name sl) (m_value sl + 1) (m_in_use sl).
Definition clear_counter (sl : metrics_slot) : metrics_slot := mkCounter (m_name sl) 0 (m_in_use sl).

(** [s->value++] of the largest [long long] is undefined. *)
Definition oo_metrics_incr (cap : Z) (name : OoStr) : ST estate bool :=
  let! _ := on_caps (oo_cap_require_metrics cap) in
  if negb (name_is_safe name) then ret false
  else
    let! _ := oo_metrics_init in
    let! s := get_state in
    match find_slot_unlocked (g_metrics s) (name_bytes name) (name_len name) true with
    | (None, _) => ret false
    | (Some i, l) =>
        if bool_decide (m_value <$> l !! i = Some LLONG_MAX) then undef
        else let! _ := set_state (with_metrics (alter bump i l)) in ret true
    end.
Definition oo_metrics_get (cap : Z) (name : OoStr) : ST estate Z :=
  let! _ := on_caps (oo_cap_require_metrics cap) in
  if negb (name_is_safe name) then ret (-1)
  else
    let! _ := oo_metrics_init in
    let! s := get_state in
    match fst (find_slot_unlocked (g_metrics s) (name_bytes name) (name_len name) false) with
    | Some i => ret (from_option m_value 0 (g_metrics s !! i))
    | None => ret 0
    end.
Definition oo_metrics_reset (cap : Z) (name : OoStr) : ST estate bool :=
  let! _ := on_caps (oo_cap_require_metrics cap) in
  if negb (name_is_safe name) then ret false
  else
    let! _ := oo_metrics_init in
    let! s := get_state in
    match fst (find_slot_unlocked (g_metrics s) (name_bytes name) (name_len name) false) with
    | Some i => let! _ := set_state (with_metrics (alter clear_counter i (g_metrics s))) in ret true
    | None => ret true
    end.

(** [strlen] of a counter's name. *)
Fixpoint c_str (l : list Z) : list Z :=
  match l with [] => [] | c :: l => if c =? 0 then [] else c :: c_str l end.
Definition export_total (l : list metrics_slot) : nat :=
  foldl (fun n sl => if m_in_use sl then n + length (c_str (m_name sl)) + 24 else n)%nat 16%nat l.
(** [,"name":value] for each counter in use, no comma before the first. *)
Definition export_counter (first : bool) (sl : metrics_slot) : list Z :=
  (if first then [] else [44]) ++ [34] ++ c_str (m_name sl) ++ [34; 58] ++ dec (m_value sl).
Fixpoint export_counters (first : bool) (l : list metrics_slot) : list Z :=
  match l with
  | [] => []
  | sl :: l => if m_in_use sl then export_counter first sl ++ export_counters false l else export_counters first l
  end.
Definition export_text (l : list metrics_slot) : list Z :=
  [123; 34; 99; 111; 117; 110; 116; 101; 114; 115; 34; 58; 123] ++ export_counters true l ++ [125; 125].
(** Writing past the [total + 1] bytes of the payload is undefined. *)
Definition oo_metrics_export (cap : Z) : ST estate OoStr :=
  let! _ := on_caps (oo_cap_require_metrics cap) in
  let! _ := oo_metrics_init in
  let! s := get_state in
  let out := export_text (g_metrics s) in
  if (length out <=? export_total (g_metrics s))%nat then ret (str_of out) else undef.

(** [name] followed by a double quote and [injection]. *)
Definition injection_name : OoStr := str_of (ascii_bytes "name" ++ [34] ++ ascii_bytes "injection").
Definition oo_metrics_self_test (cap : Z) : ST estate bool :=
  let! _ := on_caps (oo_cap_require_metrics cap) in
  let nm := oo_str_lit "self_test_counter" in
  let! _ := oo_metrics_reset cap nm in
  let! v0 := oo_metrics_get cap nm in
  if negb (v0 =? 0) then ret false
  else
    let! _ := oo_metrics_incr cap nm in
    let! _ := oo_metrics_incr cap nm in
    let! _ := oo_metrics_incr cap nm in
    let! v3 := oo_metrics_get cap nm in
    if negb (v3 =? 3) then ret false
    else
      let! b := oo_metrics_incr cap (oo_str_lit "name with spaces") in
      if b then ret false
      else
        let! b := oo_metrics_incr cap injection_name in
        if b then ret false
        else
          let! ex := oo_metrics_export cap in
          let! _ := oo_metrics_reset cap nm in
          ret (match sdata ex with Some _ => 0 <? slen ex | None => false end).

(** ** Listeners and dispatch *)

(** What an application's callback does. *)
Variable external_call : nat -> ST estate unit.

Definition self_incr (name : String.string) : ST estate unit :=
  let! s := get_state in
  let! _ := oo_metrics_incr (g_metrics_self_cap s) (oo_str_lit name) in ret tt.
Definition run_listener (fn : listener) : ST estate unit :=
  match fn with
  | on_cap_attenuate => self_incr "cap_attenuate"
  | on_pq_sign => self_incr "pq_sign"
  | on_pq_verify => self_incr "pq_verify"
  | on_aead_seal => self_incr "aead_seal"
  | on_aead_open => self_incr "aead_open"
  | External k => external_call k
  end.
Fixpoint run_listeners (l : list listener) : ST estate unit :=
  match l with [] => ret tt | fn :: l => let! _ := run_listener fn in run_listeners l end.

Definition metrics_sub_once_init : ST estate unit :=
  let! _ := oo_event_subscribe (oo_str_lit "cap.attenuate") (Some on_cap_attenuate) in
  let! _ := oo_event_subscribe (oo_str_lit "pq.sign") (Some on_pq_sign) in
  let! _ := oo_event_subscribe (oo_str_lit "pq.verify") (Some on_pq_verify) in
  let! _ := oo_event_subscribe (oo_str_lit "aead.seal") (Some on_aead_seal) in
  oo_event_subscribe (oo_str_lit "aead.open") (Some on_aead_open).
Definition oo_metrics_ensure_subscribed : ST estate unit :=
  let! s := get_state in
  if metrics_sub_once s then ret tt
  else let! _ := metrics_sub_once_init in set_state with_subscribed.

Definition oo_event_emit (name : OoStr) : ST estate unit :=
  let! _ := oo_metrics_ensure_subscribed in
  let! s := get_state in
  run_listeners (bus_listeners name (g_events s)).
Definition oo_event_self_test : ST estate Z :=
  let n := oo_str_lit "self_test_event" in
  let! _ := oo_event_emit n in
  let! _ := oo_event_subscribe n None in
  let! _ := oo_event_emit n in ret 1.
End runtime.

(** * Names *)

(** A name without NUL; the tables hold such names. *)
Definition clean (l : list Z) : Prop := Forall (fun c => c <> 0) l.

Lemma strn_eq_spec n i a b : (forall k, (i <= k < i + n)%nat -> b.[k] <> 0) ->
  strn_eq n i a b = true <-> (forall k, (i <= k < i + n)%nat -> a.[k] = b.[k]).
Proof.
  revert i. induction n as [|n IH]; intros i Hb; cbn [strn_eq]; [split; [intros _ k Hk; lia|done]|].
  pose proof (Hb i ltac:(lia)) as Hi. destruct (Z.eqb_spec a.[i] b.[i]) as [E|E]; cbn [negb].
  - destruct (Z.eqb_spec a.[i] 0); [congruence|]. rewrite IH by (intros; apply Hb; lia). split; intros H k Hk.
    + destruct (Nat.eq_dec k i) as [->|]; [done|]. apply H. lia.
    + apply H. lia.
  - split; [discriminate|]. intros H. exfalso. apply E, H. lia.
Qed.

Lemma clean_get l i : clean l -> (i < length l)%nat -> l.[i] <> 0.
Proof.
  intros Hc Hi. unfold clean in Hc. rewrite List.Forall_forall in Hc. apply Hc. unfold get. by apply nth_In.
Qed.

(** Two NUL-free names are the same exactly when their bytes are. *)
Lemma same_name_clean slot d n : clean slot -> clean (take n d) -> (n <= length d)%nat ->
  same_name slot d n = true <-> slot = take n d.
Proof.
  intros Hs Hd Hn. unfold same_name. rewrite andb_true_iff, Z.eqb_eq.
  rewrite (strn_eq_spec n 0) by (intros k Hk; rewrite <- (get_take n) by lia; apply clean_get; [done|rewrite length_take; lia]).
  split.
  - intros [H Hz]. assert (L : length slot = n).
    { destruct (Nat.lt_trichotomy (length slot) n) as [L|[L|L]]; [|done|].
      - exfalso. specialize (H (length slot) ltac:(lia)). rewrite get_overflow in H by lia.
        pose proof (clean_get (take n d) (length slot) Hd) as C. rewrite length_take, get_take in C by lia.
        apply C; [lia|congruence].
      - exfalso. by apply (clean_get slot n Hs). }
    apply array_ext; [rewrite length_take; lia|]. intros i Hi. rewrite get_take by lia. apply H. lia.
  - intros ->. split; [intros k Hk; apply get_take; lia|]. apply get_overflow. rewrite length_take. lia.
Qed.

(** * The bus is a bounded table *)

Record bus_ok (l : list event_slot) : Prop := mkBusOk {
  bus_size : (length l <= OO_EVENT_MAX_EVENTS)%nat;
  bus_slots : Forall (fun sl => clean (ev_name sl) /\ (length (ev_fns sl) <= OO_EVENT_MAX_SUBSCRIBERS)%nat /\
                                (0 < length (ev_name sl) < 32)%nat) l;
  bus_names : NoDup (map ev_name l) }.

(** The bytes of a name the bus accepts. *)
Definition bus_name (name : OoStr) (nm : list Z) : Prop := exists d n, event_name_ok name = Some (d, n) /\ nm = take n d /\ clean nm /\ (n <= length d)%nat.
(** What the table holds for a name. *)
Fixpoint listeners_of (nm : list Z) (l : list event_slot) : option (list listener) :=
  match l with
  | [] => None
  | sl :: l => if decide (ev_name sl = nm) then Some (ev_fns sl) else listeners_of nm l
  end.

Lemma find_event_spec l d n : bus_ok l -> clean (take n d) -> (n <= length d)%nat ->
  match find_event l d n with
  | Some i => exists sl, l !! i = Some sl /\ ev_name sl = take n d /\ listeners_of (take n d) l = Some (ev_fns sl)
  | None => listeners_of (take n d) l = None
  end.
Proof.
  intros [_ Hs Hd] Hc Hn. unfold find_event. clear Hd. induction l as [|sl l IH]; [done|]. cbn [list_find listeners_of].
  apply Forall_cons_1 in Hs as [(Hsl & _) Hs]. specialize (IH Hs).
  pose proof (same_name_clean (ev_name sl) d n Hsl Hc Hn) as SN.
  destruct (decide (same_name (ev_name sl) d n = true)) as [D|D]; cbn.
  - exists sl. destruct (decide (ev_name sl = take n d)) as [|X]; [done|by apply SN in D].
  - destruct (decide (ev_name sl = take n d)) as [X|_]; [by apply SN in X|].
    destruct (list_find _ l) as [[i x]|]; cbn in *; exact IH.
Qed.

Lemma listeners_of_alter fn nm l i sl : NoDup (map ev_name l) -> l !! i = Some sl -> ev_name sl = nm ->
  listeners_of nm (alter (add_listener fn) i l) = Some (ev_fns (add_listener fn sl)) /\
  (forall nm', nm' <> nm -> listeners_of nm' (alter (add_listener fn) i l) = listeners_of nm' l).
Proof.
  assert (N : forall x, ev_name (add_listener fn x) = ev_name x) by (intros x; unfold add_listener; by case_match).
  revert i. induction l as [|x l IH]; intros i Hd Hi Hn; [done|]. destruct i as [|i].
  - cbn in Hi. injection Hi as ->. cbn. rewrite N. split; [by rewrite decide_True|]. intros nm' Hne.
    rewrite !decide_False; congruence.
  - cbn in Hi. inversion Hd; subst. destruct (IH i) as [E1 E2]; [done|done|done|]. cbn. split.
    + destruct (decide (ev_name x = ev_name sl)) as [X|_]; [|done]. exfalso. match goal with H : _ ∉ _ |- _ => apply H end.
      rewrite X. apply list_elem_of_fmap. exists sl. split; [done|]. by eapply list_elem_of_lookup_2.
    + intros nm' Hne. destruct (decide _); [done|]. by apply E2.
Qed.

Lemma listeners_of_app nm l x : listeners_of nm (l ++ [x]) =
  match listeners_of nm l with Some f => Some f | None => if decide (ev_name x = nm) then Some (ev_fns x) else None end.
Proof. induction l as [|y l IH]; cbn; [done|]. destruct (decide (ev_name y = nm)); done. Qed.
Lemma listeners_of_none nm l : listeners_of nm l = None -> nm ∉ map ev_name l.
Proof.
  induction l as [|x l IH]; cbn; [intros _ H; inversion H|]. destruct (decide _); [done|].
  intros H. rewrite elem_of_cons. intros [->|Hin]; [done|by apply IH].
Qed.

Lemma map_alter_name fn i l : map ev_name (alter (add_listener fn) i l) = map ev_name l.
Proof.
  revert i. induction l as [|x l IH]; intros [|i]; cbn; [done|done| |by rewrite IH].
  f_equal. unfold add_listener. by case_match.
Qed.
Lemma Forall_alter_slot (P : event_slot -> Prop) f i l : (forall x, P x -> P (f x)) -> Forall P l -> Forall P (alter f i l).
Proof.
  intros Hf H. revert i. induction H as [|x l Hx Hl IH]; intros [|i]; cbn; constructor; auto.
Qed.

(** The bus.  Subscribing keeps the tables within their fixed sizes (32
    events of 32 listeners), whatever is asked.  For a NUL-free name of 1 to
    31 bytes, the listeners of the name become the old ones with the new one
    last, the other names keep theirs, and [oo_event_emit] runs exactly those
    listeners in subscription order; a full event (32 listeners) or a full
    table (32 events) drops the subscription without a word. *)
Theorem bus_subscribe_appends name nm fn l :
  bus_ok l -> bus_name name nm ->
  let l' := bus_subscribe name (Some fn) l in
  let old := default [] (listeners_of nm l) in
  bus_ok l' /\ bus_listeners name l = old /\
  default [] (listeners_of nm l') =
    (if (match listeners_of nm l with Some _ => false | None => (OO_EVENT_MAX_EVENTS <=? length l)%nat end) ||
        (OO_EVENT_MAX_SUBSCRIBERS <=? length old)%nat then old else old ++ [fn]) /\
  forall nm', nm' <> nm -> listeners_of nm' l' = listeners_of nm' l.
Proof.
  intros Hok (d & n & En & -> & Hc & Hn). cbv zeta. unfold bus_subscribe, bus_listeners. rewrite En.
  pose proof (find_event_spec l d n Hok Hc Hn) as F. pose proof Hok as [Hz Hs Hd].
  assert (Len : (0 < n < 32)%nat).
  { unfold event_name_ok in En. destruct (sdata name); [|done]. destruct (_ || _) eqn:B; [done|].
    injection En as -> <-. unfold OO_EVENT_MAX_NAME in B. lia. }
  assert (Add : forall sl, (length (ev_fns sl) <= OO_EVENT_MAX_SUBSCRIBERS)%nat ->
    (length (ev_fns (add_listener fn sl)) <= OO_EVENT_MAX_SUBSCRIBERS)%nat /\
    ev_fns (add_listener fn sl) = if (OO_EVENT_MAX_SUBSCRIBERS <=? length (ev_fns sl))%nat then ev_fns sl else ev_fns sl ++ [fn]).
  { intros sl Hsl. unfold add_listener. destruct (Nat.ltb_spec (length (ev_fns sl)) OO_EVENT_MAX_SUBSCRIBERS) as [L|L]; cbn [ev_fns].
    - rewrite length_app. cbn [length]. rewrite (proj2 (Nat.leb_gt _ _) L). split; [lia|done].
    - rewrite (proj2 (Nat.leb_le _ _) L). done. }
  destruct (find_event l d n) as [i|].
  - destruct F as (sl & Hi & Hnm & Hl). rewrite Hl, Hi. cbn [default from_option id orb].
    destruct (listeners_of_alter fn (take n d) l i sl Hd Hi Hnm) as [L1 L2]. split; [|split; [done|split; [|exact L2]]].
    + split; [by rewrite length_alter| |by rewrite map_alter_name].
      apply Forall_alter_slot; [|done]. intros x (X1 & X2 & X3).
      assert (N : ev_name (add_listener fn x) = ev_name x) by (unfold add_listener; by case_match).
      rewrite N. split; [done|]. split; [by apply Add|done].
    + rewrite L1. cbn. apply Add. rewrite List.Forall_forall in Hs. apply (Hs sl), list_elem_of_In. by eapply list_elem_of_lookup_2.
  - rewrite F. cbn [default from_option id length]. change (OO_EVENT_MAX_SUBSCRIBERS <=? 0)%nat with false. rewrite orb_false_r.
    destruct (Nat.leb_spec OO_EVENT_MAX_EVENTS (length l)) as [L|L]; [by rewrite F|].
    assert (An : add_listener fn (mkSlot (take n d) []) = mkSlot (take n d) [fn]) by done. rewrite An.
    split; [|split; [done|split]].
    + split.
      * rewrite length_app. cbn. lia.
      * apply Forall_app. split; [done|]. constructor; [|constructor]. cbn. rewrite length_take. unfold OO_EVENT_MAX_SUBSCRIBERS. split; [done|lia].
      * rewrite map_app. apply list.NoDup_app. split; [done|]. split; [|apply NoDup_singleton].
        intros x Hx. cbn. rewrite list_elem_of_singleton. intros ->. by apply listeners_of_none in F.
    + rewrite listeners_of_app, F. cbn. by rewrite decide_True.
    + intros nm' Hne. rewrite listeners_of_app. cbn. destruct (listeners_of nm' l); [done|]. rewrite decide_False; congruence.
Qed.
Lemma bus_subscribe_appends_witness :
  default [] (listeners_of (ascii_bytes "pq.sign") (bus_subscribe (oo_str_lit "pq.sign") (Some on_pq_sign) [])) = [on_pq_sign].
Proof.
  refine (proj1 (proj2 (proj2 (bus_subscribe_appends (oo_str_lit "pq.sign") (ascii_bytes "pq.sign") on_pq_sign [] _ _)))).
  - split; [cbn; unfold OO_EVENT_MAX_EVENTS; lia|constructor|constructor].
  - exists (ascii_bytes "pq.sign"), 7%nat. split; [reflexivity|]. split; [reflexivity|]. split; [|cbn; lia].
    repeat (constructor; [discriminate|]). constructor.
Defined.

(** * The counters *)

Definition safe_name (nm : list Z) : Prop := (0 < length nm < 32)%nat /\ Forall (fun c => safe_char c = true) nm.
Lemma safe_clean nm : safe_name nm -> clean nm.
Proof. intros [_ H]. unfold clean. eapply List.Forall_impl; [|exact H]. cbn. intros c Hc ->. discriminate. Qed.

(** Names in use are safe and distinct, values are 64-bit. *)
Definition used_names (l : list metrics_slot) : list (list Z) := map m_name (List.filter m_in_use l).
Record metrics_ok (l : list metrics_slot) : Prop := mkMetricsOk {
  metrics_size : length l = METRICS_MAX;
  metrics_slots : Forall (fun sl => m_in_use sl = true -> safe_name (m_name sl) /\ LLONG_MIN <= m_value sl <= LLONG_MAX) l;
  metrics_names : NoDup (used_names l) }.

(** The value the table holds for a name. *)
Fixpoint counter (nm : list Z) (l : list metrics_slot) : option Z :=
  match l with
  | [] => None
  | sl :: l => if m_in_use sl then if decide (m_name sl = nm) then Some (m_value sl) else counter nm l else counter nm l
  end.
Definition full (l : list metrics_slot) : Prop := Forall (fun sl => m_in_use sl = true) l.

Lemma counter_none nm l : counter nm l = None <-> nm ∉ used_names l.
Proof.
  unfold used_names. induction l as [|x l IH]; cbn; [split; [intros _ H; inversion H|done]|].
  destruct (m_in_use x); [|exact IH]. cbn [map]. destruct (decide (m_name x = nm)) as [<-|Hne].
  - split; [discriminate|]. intros H. exfalso. apply H. by left.
  - rewrite IH, elem_of_cons. split; [intros H [->|]; [done|by apply H]|tauto].
Qed.

Definition slots_clean (l : list metrics_slot) : Prop := Forall (fun sl => m_in_use sl = true -> clean (m_name sl)) l.
Lemma find_used_spec l d n : slots_clean l -> clean (take n d) -> (n <= length d)%nat ->
  match find_used l d n with
  | Some i => exists sl, l !! i = Some sl /\ m_in_use sl = true /\ m_name sl = take n d /\ counter (take n d) l = Some (m_value sl)
  | None => counter (take n d) l = None
  end.
Proof.
  intros Hs Hc Hn. unfold find_used. induction l as [|sl l IH]; [done|]. cbn [list_find counter].
  apply Forall_cons_1 in Hs as [Hsl Hs]. specialize (IH Hs).
  destruct (m_in_use sl) eqn:Hu; cbn [andb].
  - pose proof (same_name_clean (m_name sl) d n (Hsl eq_refl) Hc Hn) as SN.
    destruct (decide (same_name (m_name sl) d n = true)) as [D|D]; cbn.
    + exists sl. destruct (decide (m_name sl = take n d)) as [|X]; [done|by apply SN in D].
    + destruct (decide (m_name sl = take n d)) as [X|_]; [by apply SN in X|].
      destruct (list_find _ l) as [[i x]|]; cbn in *; exact IH.
  - cbn. destruct (list_find _ l) as [[i x]|]; cbn in *; exact IH.
Qed.

(** Changing the value of a used slot. *)
Lemma counter_alter (f : metrics_slot -> metrics_slot) nm l i sl :
  (forall x, m_name (f x) = m_name x /\ m_in_use (f x) = m_in_use x) ->
  NoDup (used_names l) -> l !! i = Some sl -> m_in_use sl = true -> m_name sl = nm ->
  counter nm (alter f i l) = Some (m_value (f sl)) /\
  (forall nm', nm' <> nm -> counter nm' (alter f i l) = counter nm' l) /\ used_names (alter f i l) = used_names l.
Proof.
  intros Hf. revert i. unfold used_names. induction l as [|x l IH]; intros i Hd Hi Hu Hn; [done|].
  destruct i as [|i]; cbn in Hi.
  - injection Hi as ->. cbn. destruct (Hf sl) as [-> ->]. rewrite Hu. cbn. destruct (Hf sl) as [-> _].
    rewrite decide_True by done. split; [done|]. split; [|done]. intros nm' Hne. rewrite !decide_False; congruence.
  - cbn. cbn in Hd. destruct (m_in_use x) eqn:Ux; cbn in *.
    + inversion Hd as [|? ? Hnot Hd']; subst. destruct (IH i Hd' Hi Hu eq_refl) as (E1 & E2 & E3). split; [|split].
      * destruct (decide (m_name x = m_name sl)) as [X|_]; [|done]. exfalso. apply Hnot. rewrite X.
        apply list_elem_of_fmap. exists sl. split; [done|]. apply list_elem_of_In, filter_In. split; [|done].
        apply list_elem_of_In. by eapply list_elem_of_lookup_2.
      * intros nm' Hne. destruct (decide _); [done|]. by apply E2.
      * by f_equal.
    + by apply IH.
Qed.

(** Taking a free slot. *)
Lemma counter_take nm l i x : counter nm l = None -> l !! i = Some x -> m_in_use x = false ->
  counter nm (<[i := mkCounter nm 0 true]> l) = Some 0 /\
  (forall nm', nm' <> nm -> counter nm' (<[i := mkCounter nm 0 true]> l) = counter nm' l) /\
  (forall v, NoDup (used_names l) -> NoDup (used_names (<[i := mkCounter nm v true]> l))).
Proof.
  unfold used_names. revert i. induction l as [|y l IH]; intros i Hc Hi Hx; [done|]. destruct i as [|i]; cbn in Hi.
  - injection Hi as ->. cbn in *. rewrite Hx in *. rewrite decide_True by done. split; [done|]. split.
    + intros nm' Hne. rewrite decide_False; congruence.
    + intros v Hd. constructor; [|done]. by apply counter_none in Hc.
  - cbn in *. destruct (m_in_use y); cbn in *.
    + destruct (decide (m_name y = nm)) as [|Hne]; [done|]. destruct (IH i Hc Hi Hx) as (E1 & E2 & E3). split; [done|]. split.
      * intros nm' Hne'. destruct (decide _); [done|]. by apply E2.
      * intros v Hd. inversion Hd as [|? ? Hnot Hd']; subst. constructor; [|by apply E3].
        assert (C : forall k, k ∉ map m_name (List.filter m_in_use l) -> k <> nm ->
          k ∉ map m_name (List.filter m_in_use (<[i := mkCounter nm v true]> l))).
        { clear -Hx Hi. intros k. revert i Hi. induction l as [|z l IH]; intros i Hi Hk Hkn; [done|]. destruct i as [|i]; cbn in *.
          - injection Hi as ->. rewrite Hx in Hk. rewrite elem_of_cons. intros [|]; [done|by apply Hk].
          - destruct (m_in_use z); cbn in *; [|by apply IH]. rewrite elem_of_cons in *. intros [->|H]; [apply Hk; by left|].
            revert H. apply (IH i Hi); [|done]. intros H. apply Hk. by right. }
        by apply C.
    + by apply IH.
Qed.

Lemma bump_fields x : m_name (bump x) = m_name x /\ m_in_use (bump x) = m_in_use x.
Proof. done. Qed.
Lemma clear_fields x : m_name (clear_counter x) = m_name x /\ m_in_use (clear_counter x) = m_in_use x.
Proof. done. Qed.
Lemma metrics_clean l : metrics_ok l -> slots_clean l.
Proof. intros [_ H _]. eapply List.Forall_impl; [|exact H]. cbn. intros x Hx U. apply safe_clean, Hx, U. Qed.
Lemma name_is_safe_spec name : wf_str name -> name_is_safe name = true ->
  safe_name (take (name_len name) (name_bytes name)) /\ (name_len name <= length (name_bytes name))%nat.
Proof.
  intros Hw H. unfold name_is_safe, name_len, name_bytes in *. destruct (sdata name) as [d|] eqn:Ed; [|done].
  pose proof (length_sbytes name d Hw Ed) as L. unfold sbytes in L. rewrite Ed in L. rewrite length_take in L.
  apply andb_true_iff in H as [H1 H2]. unfold METRICS_NAME_MAX in H1. cbn. split; [split; [rewrite length_take; lia|]|lia].
  apply List.Forall_forall. exact (proj1 (forallb_forall _ _) H2).
Qed.

(** What [find_slot_unlocked] finds or takes. *)
Definition slot_for (nm : list Z) (l l' : list metrics_slot) (i : nat) : Prop :=
  exists sl, l' !! i = Some sl /\ m_in_use sl = true /\ m_name sl = nm /\ m_value sl = default 0 (counter nm l) /\
    metrics_ok l' /\ forall nm', nm' <> nm -> counter nm' l' = counter nm' l.

Lemma Forall_insert_slot (P : metrics_slot -> Prop) i x l : P x -> Forall P l -> Forall P (<[i := x]> l).
Proof. intros Hx H. revert i. induction H as [|y l Hy Hl IH]; intros [|i]; cbn; constructor; auto. Qed.

Lemma find_slot_spec l d n create : metrics_ok l -> safe_name (take n d) -> (n <= length d)%nat ->
  match find_slot_unlocked l d n create with
  | (Some i, l') => slot_for (take n d) l l' i /\ (create = false -> l' = l /\ counter (take n d) l <> None)
  | (None, l') => l' = l /\ counter (take n d) l = None /\ (create = true -> full l)
  end.
Proof.
  intros Hok Hsafe Hn. unfold find_slot_unlocked.
  pose proof (find_used_spec l d n (metrics_clean l Hok) (safe_clean _ Hsafe) Hn) as F.
  destruct (find_used l d n) as [i|].
  - destruct F as (sl & Hi & Hu & Hm & Hc). split; [|rewrite Hc; done].
    exists sl. rewrite Hc. do 5 (split; [done|]). done.
  - destruct create; [|done]. destruct (list_find (fun sl => m_in_use sl = false) l) as [[i x]|] eqn:L.
    + apply list_find_Some in L as (Hi & Hx & _). destruct (counter_take _ l i x F Hi Hx) as (C1 & C2 & C3).
      split; [|done]. exists (mkCounter (take n d) 0 true). rewrite F. destruct Hok as [Hz Hs Hd].
      split; [apply list_lookup_insert_eq; by eapply lookup_lt_Some|]. split; [done|]. split; [done|]. split; [done|].
      split; [|exact C2]. split; [by rewrite length_insert| |by apply C3].
      apply Forall_insert_slot; [|done]. intros _. split; [done|]. cbn. unfold LLONG_MIN, LLONG_MAX. lia.
    + split; [done|]. split; [done|]. intros _. apply list_find_None in L. unfold full.
      eapply List.Forall_impl; [|exact L]. cbn. intros x Hx. by destruct (m_in_use x).
Qed.

(** Changing the value of the slot keeps the table well formed. *)
Lemma slot_alter (f : metrics_slot -> metrics_slot) nm l l' i :
  (forall x, m_name (f x) = m_name x /\ m_in_use (f x) = m_in_use x) ->
  (forall x, l' !! i = Some x -> m_in_use x = true -> LLONG_MIN <= m_value x <= LLONG_MAX -> LLONG_MIN <= m_value (f x) <= LLONG_MAX) ->
  slot_for nm l l' i ->
  metrics_ok (alter f i l') /\
  (exists sl, m_value sl = default 0 (counter nm l) /\ counter nm (alter f i l') = Some (m_value (f sl))) /\
  forall nm', nm' <> nm -> counter nm' (alter f i l') = counter nm' l.
Proof.
  intros Hf Hv (sl & Hi & Hu & Hm & Hc & [Hz Hs Hd] & Ho).
  destruct (counter_alter f nm l' i sl Hf Hd Hi Hu Hm) as (E1 & E2 & E3). split; [|split].
  - split; [by rewrite length_alter| |by rewrite E3].
    clear -Hs Hf Hv. revert i Hv. induction Hs as [|x l Hx Hl IH]; intros [|i] Hv; cbn; constructor; auto.
    destruct (Hf x) as [-> ->]. intros U. destruct (Hx U). split; [done|by apply Hv].
  - exists sl. done.
  - intros nm' Hne. by rewrite E2, Ho.
Qed.

(** ** The counters refine a map

    A state in which the counters are initialised and [cap] opens their gate. *)
Record metrics_ready (cap : Z) (s : estate) : Prop := mkReady {
  ready_open : exists t, store (caps s) = Some t /\ gate_ok cap (g_tok_metrics t) 0 = true;
  ready_rights : rights_ok (caps s);
  ready_hook : g_test_force_fail (caps s) = false;
  ready_once : metrics_once s = true;
  ready_ok : metrics_ok (g_metrics s) }.

Section counters.
Context {E : Entropy}.

Lemma gate_passes cap s : metrics_ready cap s ->
  on_caps (oo_cap_require_metrics cap) s = Ret (tt, with_caps (after_check (caps s)) s).
Proof.
  intros [(t & Ht & Hg) Hr Hh _ _]. unfold on_caps, lift.
  assert (G : gate_spec cap (caps s) t (oo_cap_require_metrics, g_tok_metrics, None)).
  { apply gate1_spec; [done|done|in_tokens]. }
  unfold gate_spec in G. rewrite Hg, Hh in G. rewrite G. done.
Qed.
Lemma init_done s : metrics_once s = true -> oo_metrics_init s = Ret (tt, s).
Proof. intros H. unfold oo_metrics_init, bind, get_state. cbn [run_bind]. by rewrite H. Qed.

Lemma incr_spec cap name s :
  metrics_ready cap s -> wf_str name -> name_is_safe name = true ->
  let nm := take (name_len name) (name_bytes name) in
  let old := counter nm (g_metrics s) in
  let checked := with_caps (after_check (caps s)) s in
  if decide (old = None /\ full (g_metrics s)) then oo_metrics_incr cap name s = Ret (false, checked)
  else if decide (old = Some LLONG_MAX) then oo_metrics_incr cap name s = Undefined
  else exists l, oo_metrics_incr cap name s = Ret (true, with_metrics l checked) /\
     metrics_ok l /\ counter nm l = Some (default 0 old + 1) /\
     forall nm', nm' <> nm -> counter nm' l = counter nm' (g_metrics s).
Proof.
  intros Hr Hw Hsafe. cbv zeta. pose proof (gate_passes cap s Hr) as G. destruct Hr as [_ _ _ Ho Hok].
  destruct (name_is_safe_spec name Hw Hsafe) as [Hn Hl].
  set (nm := take (name_len name) (name_bytes name)) in *. set (s1 := with_caps (after_check (caps s)) s) in *.
  assert (I1 : oo_metrics_init s1 = Ret (tt, s1)) by (by apply init_done).
  assert (M1 : g_metrics s1 = g_metrics s) by done.
  pose proof (find_slot_spec (g_metrics s) (name_bytes name) (name_len name) true Hok Hn Hl) as F1. fold nm in F1.
  assert (Ei : oo_metrics_incr cap name s = match find_slot_unlocked (g_metrics s) (name_bytes name) (name_len name) true with
    | (None, _) => Ret (false, s1) 
    | (Some i, l) => if bool_decide (m_value <$> l !! i = Some LLONG_MAX) then Undefined else Ret (true, with_metrics (alter bump i l) s1) end).
  { unfold oo_metrics_incr, bind at 1. rewrite G. cbn [run_bind]. rewrite Hsafe. cbn [negb].
    unfold bind at 1. rewrite I1. cbn [run_bind]. unfold bind at 1, get_state. cbn [run_bind]. rewrite M1.
    destruct (find_slot_unlocked _ _ _ true) as [[i|] l']; [|done]. by case_bool_decide. }
  rewrite Ei. clear Ei. destruct (find_slot_unlocked _ _ _ true) as [[i|] l'] eqn:Ef.
  + destruct F1 as [F _].
    destruct (decide _) as [[Hnone Hfull]|_].
    * exfalso. unfold find_slot_unlocked in Ef.
      pose proof (find_used_spec _ _ _ (metrics_clean _ Hok) (safe_clean _ Hn) Hl) as FU. fold nm in FU.
      destruct (find_used _ _ _); [destruct FU as (x & _ & _ & _ & X); congruence|].
      destruct (list_find _ _) as [[j x]|] eqn:L; [|done]. apply list_find_Some in L as (Hj & Hx & _).
      unfold full in Hfull. rewrite List.Forall_forall in Hfull. rewrite (Hfull x) in Hx; [done|].
      apply list_elem_of_In. by eapply list_elem_of_lookup_2.
    * pose proof F as (sl & Hi & Hu & _ & Hv & _). set (old := counter nm (g_metrics s)) in *.
      assert (D : bool_decide (m_value <$> l' !! i = Some LLONG_MAX) = bool_decide (old = Some LLONG_MAX)).
      { apply bool_decide_ext. rewrite Hi. cbn. rewrite Hv. destruct old as [v|]; cbn; [done|unfold LLONG_MAX; split; discriminate]. }
      rewrite D. clear D. case_bool_decide as Q; [by rewrite decide_True by done|rewrite decide_False by done].
      destruct (slot_alter bump nm (g_metrics s) l' i bump_fields) as (A1 & (sl' & Hv' & A2) & A3); [|exact F|].
      { intros x Hx _ R. rewrite Hi in Hx. injection Hx as <-. cbn. assert (m_value sl <> LLONG_MAX); [|unfold LLONG_MIN, LLONG_MAX in *; lia].
        rewrite Hv. destruct old as [v|]; cbn; [by intros ->|done]. }
      exists (alter bump i l'). split; [done|]. split; [done|]. split; [|done]. rewrite A2. cbn. by rewrite Hv'.
  + destruct F1 as (-> & Hc & Hf). rewrite decide_True by auto. done.
Qed.

(** C19. The counters are a map of at most 64 names to 64-bit integers.  For a
    safe name and a caller the gate accepts, [oo_metrics_get] returns the
    name's count (0 if it has none), [oo_metrics_incr] adds one, and
    [oo_metrics_reset] sets it to 0 if it exists; no other name's count moves,
    and the table stays well formed.  The only refusal is an increment of a new
    name when all 64 slots are taken, which changes nothing; incrementing
    2^63 - 1 overflows, which C leaves undefined. *)
Theorem metrics_refine_map cap name s :
  metrics_ready cap s -> wf_str name -> name_is_safe name = true ->
  let nm := take (name_len name) (name_bytes name) in
  let old := counter nm (g_metrics s) in
  let agree l := forall nm', nm' <> nm -> counter nm' l = counter nm' (g_metrics s) in
  let checked := with_caps (after_check (caps s)) s in
  oo_metrics_get cap name s = Ret (default 0 old, checked) /\
  (exists l, oo_metrics_reset cap name s = Ret (true, with_metrics l checked) /\
     metrics_ok l /\ counter nm l = (fun _ => 0) <$> old /\ agree l) /\
  (if decide (old = None /\ full (g_metrics s)) then oo_metrics_incr cap name s = Ret (false, checked)
   else if decide (old = Some LLONG_MAX) then oo_metrics_incr cap name s = Undefined
   else exists l, oo_metrics_incr cap name s = Ret (true, with_metrics l checked) /\
     metrics_ok l /\ counter nm l = Some (default 0 old + 1) /\ agree l).
Proof.
  intros Hr Hw Hsafe. cbv zeta. pose proof Hr as Hr0. pose proof (gate_passes cap s Hr) as G. destruct Hr as [_ _ _ Ho Hok].
  destruct (name_is_safe_spec name Hw Hsafe) as [Hn Hl].
  set (nm := take (name_len name) (name_bytes name)) in *. set (s1 := with_caps (after_check (caps s)) s) in *.
  assert (I1 : oo_metrics_init s1 = Ret (tt, s1)) by (by apply init_done).
  assert (M1 : g_metrics s1 = g_metrics s) by done.
  pose proof (find_slot_spec (g_metrics s) (name_bytes name) (name_len name) false Hok Hn Hl) as F0.
  fold nm in F0.
  split; [|split].
  - unfold oo_metrics_get, bind at 1. rewrite G. cbn [run_bind]. rewrite Hsafe. cbn [negb].
    unfold bind at 1. rewrite I1. cbn [run_bind]. unfold bind, get_state. cbn [run_bind]. rewrite M1.
    destruct (find_slot_unlocked _ _ _ false) as [[i|] l']; cbn [fst].
    + destruct F0 as [(sl & Hi & Hu & Hm & Hv & _) F0]. destruct (F0 eq_refl) as [-> _]. rewrite Hi. cbn. by rewrite Hv.
    + destruct F0 as (-> & -> & _). done.
  - unfold oo_metrics_reset, bind at 1. rewrite G. cbn [run_bind]. rewrite Hsafe. cbn [negb].
    unfold bind at 1. rewrite I1. cbn [run_bind]. unfold bind, get_state. cbn [run_bind]. rewrite M1.
    destruct (find_slot_unlocked _ _ _ false) as [[i|] l']; cbn [fst].
    + destruct F0 as [F F0]. destruct (F0 eq_refl) as [-> Hc].
      destruct (slot_alter clear_counter nm _ _ i clear_fields ltac:(intros; cbn; unfold LLONG_MIN, LLONG_MAX; lia) F) as (A1 & (sl & _ & A2) & A3).
      exists (alter clear_counter i (g_metrics s)). split; [done|]. split; [done|]. split; [|done].
      rewrite A2. destruct (counter nm (g_metrics s)); done.
    + destruct F0 as (-> & Hc & _). exists (g_metrics s). split; [by destruct s|]. rewrite Hc. done.
  - exact (incr_spec cap name s Hr0 Hw Hsafe).
Qed.

(** ** The exported text *)

Lemma c_str_clean l : clean l -> c_str l = l.
Proof. induction 1 as [|c l Hc Hl IH]; [done|]. cbn. destruct (Z.eqb_spec c 0); [done|]. by rewrite IH. Qed.

Lemma dec_chars z : LLONG_MIN <= z <= LLONG_MAX -> Forall (fun c => c = 45 \/ 48 <= c <= 57) (dec z).
Proof.
  unfold LLONG_MIN, LLONG_MAX. intros Hz. unfold dec.
  assert (D : forall n, 0 <= n < 10 ^ Z.of_nat 20 -> Forall (fun c => c = 45 \/ 48 <= c <= 57) (dec_digits 20 n [])).
  { intros n Hn. destruct (dec_digits_spec 20 n Hn ltac:(lia)) as (_ & _ & D).
    eapply List.Forall_impl; [|exact D]. cbn. intros; lia. }
  destruct (Z.ltb_spec z 0); [constructor; [lia|]|]; apply D; change (10 ^ Z.of_nat 20) with 100000000000000000000; lia.
Qed.

Definition quotes (l : list Z) : nat := length (List.filter (Z.eqb 34) l).
Lemma quotes_app a b : quotes (a ++ b) = (quotes a + quotes b)%nat.
Proof. unfold quotes. rewrite List.filter_app, length_app. done. Qed.
Lemma quotes_none l : Forall (fun c => c <> 34) l -> quotes l = 0%nat.
Proof. unfold quotes. induction 1 as [|c l Hc Hl IH]; [done|]. cbn [List.filter]. destruct (Z.eqb_spec 34 c); [congruence|done]. Qed.
(** Printable ASCII. *)
Definition text (l : list Z) : Prop := Forall (fun c => 32 <= c < 127) l.

Lemma safe_name_chars nm : safe_name nm -> text nm /\ quotes nm = 0%nat.
Proof.
  intros [_ H]. split; [|apply quotes_none]; eapply List.Forall_impl; try exact H; cbn; unfold safe_char; intros c Hc; lia.
Qed.
Lemma export_counter_spec first sl : safe_name (m_name sl) -> LLONG_MIN <= m_value sl <= LLONG_MAX ->
  (length (export_counter first sl) <= length (c_str (m_name sl)) + (if first then 23 else 24))%nat /\
  text (export_counter first sl) /\ quotes (export_counter first sl) = 2%nat.
Proof.
  intros Hs Hv. unfold export_counter. rewrite c_str_clean by (by apply safe_clean).
  destruct (safe_name_chars _ Hs) as [Ht Hq]. pose proof (length_dec _ Hv) as L. pose proof (dec_chars _ Hv) as D.
  assert (Dt : text (dec (m_value sl))) by (eapply List.Forall_impl; [|exact D]; cbn; lia).
  assert (Dq : quotes (dec (m_value sl)) = 0%nat) by (apply quotes_none; eapply List.Forall_impl; [|exact D]; cbn; lia).
  split; [|split].
  - rewrite !length_app. destruct first; cbn [length]; lia.
  - unfold text in *. rewrite !Forall_app. split; [destruct first; repeat constructor; lia|]. split; [repeat constructor; lia|].
    split; [done|]. split; [repeat constructor; lia|done].
  - rewrite !quotes_app, Hq, Dq. by destruct first.
Qed.

Definition export_size (l : list metrics_slot) : nat :=
  list_sum (map (fun sl => length (c_str (m_name sl)) + 24)%nat (List.filter m_in_use l)).
Lemma export_total_sum l : export_total l = (16 + export_size l)%nat.
Proof.
  unfold export_total.
  assert (F : forall n k l, foldl (fun n sl => if m_in_use sl then n + length (c_str (m_name sl)) + k else n)%nat n l =
    (n + list_sum (map (fun sl => length (c_str (m_name sl)) + k)%nat (List.filter m_in_use l)))%nat).
  { clear l. intros n k l. revert n. induction l as [|sl l IH]; intros n; [cbn; lia|]. cbn [foldl]. rewrite IH.
    cbn [List.filter]. destruct (m_in_use sl); [|lia]. unfold list_sum. cbn [map fold_right]. lia. }
  apply F.
Qed.
Lemma export_counters_spec first l :
  Forall (fun sl => m_in_use sl = true -> safe_name (m_name sl) /\ LLONG_MIN <= m_value sl <= LLONG_MAX) l ->
  (length (export_counters first l) <= export_size l)%nat /\
  text (export_counters first l) /\ quotes (export_counters first l) = (2 * length (used_names l))%nat.
Proof.
  unfold export_size, used_names. intros H. revert first. induction H as [|sl l Hs Hl IH]; intros first; cbn [export_counters List.filter];
    [by split; [|split; [constructor|]]|].
  destruct (m_in_use sl); [|apply IH]. destruct (Hs eq_refl) as [Hsn Hv]. cbn [map list_sum length].
  destruct (export_counter_spec first sl Hsn Hv) as (L & T & Q). destruct (IH false) as (L' & T' & Q').
  rewrite length_app, quotes_app, Q, Q'. unfold text in *. rewrite Forall_app. split; [|split; [done|lia]].
  cbn [list_sum fold_right]. unfold list_sum in L'. destruct first; lia.
Qed.

(** Exporting never overruns the payload it sized: the text fits the
    [total] bytes counted by the first pass, whatever the counters hold.  It
    is printable ASCII, and a name cannot break out of its quotes: the text
    has the two quotes of the word counters and two for each counter. *)
Theorem metrics_export_fits cap s : metrics_ready cap s ->
  exists out, oo_metrics_export cap s = Ret (str_of out, with_caps (after_check (caps s)) s) /\
    (length out <= export_total (g_metrics s))%nat /\ text out /\ quotes out = (2 + 2 * length (used_names (g_metrics s)))%nat.
Proof.
  intros Hr. pose proof (gate_passes cap s Hr) as G. destruct Hr as [_ _ _ Ho [_ Hs _]].
  destruct (export_counters_spec true (g_metrics s) Hs) as (L & T & Q).
  assert (Lt : (length (export_text (g_metrics s)) <= export_total (g_metrics s))%nat).
  { rewrite export_total_sum. unfold export_text. rewrite !length_app. cbn [length]. lia. }
  exists (export_text (g_metrics s)). split; [|split; [done|split]].
  - unfold oo_metrics_export, bind at 1. rewrite G. cbn [run_bind]. unfold bind at 1.
    rewrite init_done by done. cbn [run_bind]. unfold bind, get_state. cbn [run_bind].
    change (g_metrics (with_caps (after_check (caps s)) s)) with (g_metrics s).
    by rewrite (proj2 (Nat.leb_le _ _) Lt).
  - unfold export_text, text in *. rewrite !Forall_app. split; [repeat constructor; lia|]. split; [done|repeat constructor; lia].
  - unfold export_text. rewrite !quotes_app, Q. cbn. lia.
Qed.

(** ** From an event to its counter *)

Variable external_call : nat -> ST estate unit.
Definition counted : list (String.string * String.string) :=
  [("cap.attenuate", "cap_attenuate"); ("pq.sign", "pq_sign"); ("pq.verify", "pq_verify");
   ("aead.seal", "aead_seal"); ("aead.open", "aead_open")]%string.
Definition subscribed : list event_slot :=
  Eval vm_compute in
  map (fun '(e, f) => mkSlot (ascii_bytes e) [f])
      [("cap.attenuate"%string, on_cap_attenuate); ("pq.sign"%string, on_pq_sign); ("pq.verify"%string, on_pq_verify);
       ("aead.seal"%string, on_aead_seal); ("aead.open"%string, on_aead_open)].

Lemma ensure_fresh s : g_events s = [] -> metrics_sub_once s = false ->
  oo_metrics_ensure_subscribed s = Ret (tt, with_subscribed (with_events subscribed s)).
Proof. intros H1 H2. destruct s as [c ev m sc o so]. cbn in H1, H2. subst. reflexivity. Qed.

Lemma emit_fresh ev cn s : In (ev, cn) counted -> g_events s = [] -> metrics_sub_once s = false ->
  let s1 := with_subscribed (with_events subscribed s) in
  oo_event_emit external_call (oo_str_lit ev) s = (let! _ := self_incr cn in ret tt) s1.
Proof.
  intros Hin H1 H2. cbv zeta. unfold oo_event_emit, bind at 1. rewrite (ensure_fresh s H1 H2). cbn [run_bind].
  unfold counted in Hin. cbn [In] in Hin.
  repeat (destruct Hin as [Hin|Hin]; [injection Hin as <- <-; reflexivity|]). done.
Qed.

Lemma counted_safe ev cn : In (ev, cn) counted ->
  wf_str (oo_str_lit cn) /\ name_is_safe (oo_str_lit cn) = true /\
  take (name_len (oo_str_lit cn)) (name_bytes (oo_str_lit cn)) = ascii_bytes cn.
Proof.
  unfold counted. cbn [In]. intros Hin.
  repeat (destruct Hin as [Hin|Hin]; [injection Hin as <- <-; split; [apply wf_str_of, bytesb_ok; reflexivity|by split]|]). done.
Qed.

(** The first emission of a counted event.  In a process whose counters
    were initialised with the caller's grant, it adds one to the event's
    counter, if it is not at its largest, and to no other, unless the table is
    full.  In a process whose
    counters were not, the listener presents the word 0 to the MetricsCap
    gate, and the emission ends the process. *)
Theorem first_emit_counts_or_exits ev cn s :
  In (ev, cn) counted -> g_events s = [] -> metrics_sub_once s = false ->
  (metrics_ready (g_metrics_self_cap s) s -> counter (ascii_bytes cn) (g_metrics s) <> Some LLONG_MAX ->
     exists s', oo_event_emit external_call (oo_str_lit ev) s = Ret (tt, s') /\
       let old := counter (ascii_bytes cn) (g_metrics s) in
       (counter (ascii_bytes cn) (g_metrics s') = Some (default 0 old + 1) \/
        old = None /\ full (g_metrics s) /\ g_metrics s' = g_metrics s) /\
       forall nm, nm <> ascii_bytes cn -> counter nm (g_metrics s') = counter nm (g_metrics s)) /\
  (g_metrics_self_cap s = 0 -> (exists t, store (caps s) = Some t) -> rights_ok (caps s) ->
     oo_event_emit external_call (oo_str_lit ev) s = Exited 1).
Proof.
  intros Hin H1 H2. pose proof (emit_fresh ev cn s Hin H1 H2) as Ee. cbv zeta in Ee.
  destruct (counted_safe ev cn Hin) as (Hw & Hsafe & Hnm).
  set (s1 := with_subscribed (with_events subscribed s)) in *. split.
  - intros Hr Hm. assert (Hr1 : metrics_ready (g_metrics_self_cap s) s1) by (destruct Hr; by split).
    pose proof (incr_spec (g_metrics_self_cap s) (oo_str_lit cn) s1 Hr1 Hw Hsafe) as I. cbv zeta in I. rewrite Hnm in I.
    change (g_metrics s1) with (g_metrics s) in I. rewrite Ee. unfold self_incr, bind, get_state. cbn [run_bind].
    change (g_metrics_self_cap s1) with (g_metrics_self_cap s).
    destruct (decide _) as [[Ho Hf]|_].
    + rewrite I. eexists. split; [reflexivity|]. cbn. split; [by right|done].
    + rewrite decide_False in I by done. destruct I as (l & -> & _ & Hc & Ha). eexists. split; [reflexivity|]. cbn. split; [by left|done].
  - intros H0 (t & Ht) Hrt. rewrite Ee. unfold self_incr, bind at 2, get_state. unfold bind at 1. cbn [run_bind].
    change (g_metrics_self_cap s1) with (g_metrics_self_cap s). rewrite H0.
    unfold oo_metrics_incr, bind, on_caps, lift.
    assert (G : gate_spec 0 (caps s) t (oo_cap_require_metrics, g_tok_metrics, None)).
    { apply gate1_spec; [done|done|in_tokens]. }
    unfold gate_spec in G. change (caps s1) with (caps s). rewrite G. done.
Qed.
End counters.

(** * Witnesses *)

Definition wit_metrics : estate := Eval vm_compute in match @oo_metrics_init wit_entropy estart with Ret (_, s) => s | _ => estart end.
Definition wit_self : Z := Eval vm_compute in g_metrics_self_cap wit_metrics.
Lemma empty_counters : metrics_ok (repeat free_counter METRICS_MAX).
Proof.
  split; [reflexivity| |constructor]. apply List.Forall_forall. intros sl H. apply repeat_spec in H. subst. discriminate.
Qed.
Lemma wit_ready : metrics_ready wit_self wit_metrics.
Proof.
  split; [|by left|reflexivity|reflexivity|exact empty_counters].
  eexists. split; [reflexivity|]. vm_compute. reflexivity.
Qed.

Lemma metrics_refine_map_witness :
  @oo_metrics_get wit_entropy wit_self (oo_str_lit "pq_sign") wit_metrics =
    Ret (0, with_caps (after_check (caps wit_metrics)) wit_metrics).
Proof.
  refine (proj1 (@metrics_refine_map wit_entropy wit_self (oo_str_lit "pq_sign") wit_metrics wit_ready _ _)).
  - apply wf_str_of, bytesb_ok. reflexivity.
  - reflexivity.
Defined.
Lemma metrics_export_fits_witness : exists out, @oo_metrics_export wit_entropy wit_self wit_metrics =
    Ret (str_of out, with_caps (after_check (caps wit_metrics)) wit_metrics) /\ quotes out = 2%nat.
Proof.
  destruct (@metrics_export_fits wit_entropy wit_self wit_metrics wit_ready) as (out & H & _ & _ & Q).
  exists out. split; [exact H|exact Q].
Defined.
Lemma first_emit_counts_or_exits_witness :
  exists s', @oo_event_emit wit_entropy (fun _ => ret tt) (oo_str_lit "pq.sign") wit_metrics = Ret (tt, s') /\
  forall nm, nm <> ascii_bytes "pq_sign" -> counter nm (g_metrics s') = counter nm (g_metrics wit_metrics).
Proof.
  destruct (proj1 (@first_emit_counts_or_exits wit_entropy (fun _ => ret tt) "pq.sign"%string "pq_sign"%string wit_metrics
    ltac:(right; left; reflexivity) ltac:(reflexivity) ltac:(reflexivity)) wit_ready ltac:(discriminate)) as (s' & H & _ & Ho).
  exists s'. split; [exact H|exact Ho].
Defined.
