(* ===== verification/PqSig.v ===== *)
(** Post-quantum seals ([sec/pqc/pq_sig/]): [pq_hmac.c], [pq_aead_seal.c],
    [pq_aead_open.c] over the glue of [pq_sig.c] (in [Hex]).

    They compose ML-DSA ([DsaSign]), AES-GCM ([Gcm]), the event bus ([Event])
    and the kernel's entropy.  The state is the one of the bus; the kernel and
    the application's callbacks are arguments. *)
From S2P Require Import Prelude Str Hex Sha2 Keccak Aes Gcm MlDsa DsaPack DsaSign DsaVerify Caps Event.
From Stdlib Require String.
Import (notations) String.
Open Scope Z_scope.

(** The kernel unfolds the sequencing of calls before the calls. *)
#[local] Strategy expand [run_bind bind].
#[local] Opaque d_expand_a d_poly_uniform d_poly_uniform_eta d_poly_uniform_gamma1 d_poly_challenge d_ntt d_invntt d_matrix_pointwise.

Definition PQ_SEED_LEN : Z := 32.
Definition PQ_PK_LEN : nat := 1952.
Definition PQ_SK_LEN : nat := 4032.
Definition PQ_SIG_LEN : nat := 3309.
Definition PQ_SEAL_HEX_LEN : Z := 10522.
Definition AEAD_KEY_LEN : Z := 16.
Definition AEAD_NONCE_LEN : nat := 12.
Definition AEAD_TAG_LEN : nat := 16.
Definition CONF_SEAL_OVERHEAD : Z := 5289.

(** A computation without state among the calls that have one. *)
Definition pure {S A} (m : run A) : ST S A := fun s => let* a := m in Ret (a, s).

Section composites.
Context {X : Shake} {E : Entropy}.
Variable external_call : nat -> ST estate unit.

(** [!k.data || (k.len != n && k.len != 2 * n)], negated. *)
Definition operand_ok (k : OoStr) (n : Z) : bool :=
  match sdata k with None => false | Some _ => (slen k =? n) || (slen k =? n * 2) end.
(** [n] raw bytes or [2n] digits into a buffer. *)
Definition load_raw (k : OoStr) (n : nat) : option (list Z) :=
  match sdata k with
  | None => None
  | Some d => if slen k =? Z.of_nat n then Some (take n d) else hex_load_n (Some d) (Z.to_nat (slen k)) n
  end.
(** The key pair out of the digits of [crypto_mldsa65_keygen_internal]. *)
Definition keys_ok (kp : OoStr) : bool := slen kp =? Z.of_nat (PQ_PK_LEN + PQ_SK_LEN) * 2.
Definition load_pk (kp : OoStr) : option (list Z) :=
  match sdata kp with
  | None => None
  | Some d => if negb (keys_ok kp) then None else hex_load_n (Some d) (PQ_PK_LEN * 2) PQ_PK_LEN
  end.
Definition load_keys (kp : OoStr) : option (list Z * list Z) :=
  match sdata kp with
  | None => None
  | Some d =>
      if negb (keys_ok kp) then None
      else
        pk ← hex_load_n (Some d) (PQ_PK_LEN * 2) PQ_PK_LEN;
        sk ← hex_load_n (Some (drop (PQ_PK_LEN * 2) d)) (PQ_SK_LEN * 2) PQ_SK_LEN;
        Some (pk, sk)
  end.
Definition sig_ok (sig : OoStr) : bool := match sdata sig with None => false | Some _ => slen sig =? Z.of_nat PQ_SIG_LEN * 2 end.
(** [vr.data && vr.len == 2 && vr.data[0] == 'O' && vr.data[1] == 'K'] *)
Definition says_ok (vr : OoStr) : bool :=
  match sdata vr with None => false | Some d => (slen vr =? 2) && (d.[0] =? 79) && (d.[1] =? 75) end.

(** * Signature seals ([pq_hmac.c]) *)

(** The seal under the keys [kp]. *)
Definition pq_hmac_seal (msg kp : OoStr) : run OoStr :=
  match load_keys kp with
  | None => Ret (oo_str_lit "")
  | Some (pk, sk) =>
      let* sig := crypto_mldsa65_sign_internal (str_of sk) msg (oo_str_lit "") in
      if negb (sig_ok sig) then Ret (oo_str_lit "")
      else Ret (str_of (sbytes (hex_out_n pk PQ_PK_LEN) ++ sbytes sig))
  end.
Definition pq_hmac_seed (key : OoStr) (kd : list Z) : option (list Z) :=
  if slen key =? PQ_SEED_LEN then Some (take 32 kd)
  else if slen key =? PQ_SEED_LEN * 2 then hex_load_n (Some kd) (Z.to_nat (slen key)) 32
  else None.
Definition crypto_pq_hmac_sha256_internal (key msg : OoStr) : run OoStr :=
  match sdata key, sdata msg with
  | Some kd, Some _ =>
      if (slen key <=? 0) || (slen msg <? 0) then Ret (oo_str_lit "")
      else
        match pq_hmac_seed key kd with
        | None => Ret (oo_str_lit "")
        | Some seed => let* kp := crypto_mldsa65_keygen_internal (str_of seed) in pq_hmac_seal msg kp
        end
  | _, _ => Ret (oo_str_lit "")
  end.
Definition crypto_pq_hmac_sha256_verify_internal (seal msg : OoStr) : run Z :=
  match sdata seal, sdata msg with
  | Some d, Some _ =>
      if negb (slen seal =? PQ_SEAL_HEX_LEN) || (slen msg <? 0) then Ret 0
      else
        match hex_load_n (Some d) (PQ_PK_LEN * 2) PQ_PK_LEN, hex_load_n (Some (drop (PQ_PK_LEN * 2) d)) (PQ_SIG_LEN * 2) PQ_SIG_LEN with
        | Some pk, Some sig =>
            let* vr := crypto_mldsa65_verify_internal (str_of pk) msg (str_of sig) in Ret (if says_ok vr then 1 else 0)
        | _, _ => Ret 0
        end
  | _, _ => Ret 0
  end.
Definition crypto_pq_hmac_self_test : run Z :=
  let* kp := crypto_mldsa65_keygen_internal (str_of (tab 32 (fun i => u8 (Z.lxor 0x42 (Z.of_nat i))))) in
  match load_keys kp with
  | None => Ret 0
  | Some (pk, sk) =>
      let msg := oo_str_lit "self_test_message" in
      let* sig := crypto_mldsa65_sign_internal (str_of sk) msg (oo_str_lit "") in
      if negb (sig_ok sig) then Ret 0
      else let* vr := crypto_mldsa65_verify_internal (str_of pk) msg sig in Ret (if says_ok vr then 1 else 0)
  end.

(** * Confidential seals *)

(** [getentropy (nonce, 12)]; [None] is a failure. *)
Definition draw_nonce : M (option (list Z)) := fun s =>
  Ret (getentropy (n_entropy s) AEAD_NONCE_LEN,
    mkC (S (n_entropy s)) (n_atexit s) (store s) (alloc_tok s) (time_rand_tok s) (ffi_tok s) (g_process_handed s) (g_sand_net s) (g_sand_proc s) (g_ocap_rights s) (g_test_force_fail s)).
(** The ciphertext and the tag out of the digits of
    [crypto_aes_gcm_seal_internal]. *)
Definition decode_sealed (out : OoStr) : option (list Z * list Z) :=
  match sdata out with
  | None => None
  | Some d =>
      if slen out <? Z.of_nat AEAD_TAG_LEN then None
      else
        let ct_hex_len := u64 (slen out - Z.of_nat (AEAD_TAG_LEN * 2)) in
        ct ← hex_pairs hex_digit 0 (Z.to_nat (ct_hex_len / 2)) d;
        tag ← hex_pairs hex_digit 0 AEAD_TAG_LEN (drop (Z.to_nat ct_hex_len) d);
        Some (ct, tag)
  end.
Definition crypto_pq_aead_seal_internal (cap_key32 aead_key16 plaintext : OoStr) : ST estate OoStr :=
  if negb (operand_ok cap_key32 PQ_SEED_LEN) || negb (operand_ok aead_key16 AEAD_KEY_LEN) ||
     match sdata plaintext with None => true | Some _ => slen plaintext <? 0 end then ret (oo_str_lit "")
  else
    match load_raw aead_key16 16 with
    | None => ret (oo_str_lit "")
    | Some aead_key_raw =>
        let! kp := pure (crypto_mldsa65_keygen_internal cap_key32) in
        match load_keys kp with
        | None => ret (oo_str_lit "")
        | Some (pk, sk) =>
            let! nonce := on_caps draw_nonce in
            match nonce with
            | None => ret (oo_str_lit "")
            | Some nonce =>
                let! aead_out := pure (crypto_aes_gcm_seal_internal (str_of aead_key_raw) (str_of nonce) plaintext (str_of pk)) in
                let! _ := oo_event_emit external_call (oo_str_lit "aead.seal") in
                match decode_sealed aead_out with
                | None => ret (oo_str_lit "")
                | Some (ct, tag) =>
                    let! sig := pure (crypto_mldsa65_sign_internal (str_of sk) (str_of (pk ++ nonce ++ ct ++ tag)) (oo_str_lit "")) in
                    let! _ := oo_event_emit external_call (oo_str_lit "pq.sign") in
                    if negb (sig_ok sig) then ret (oo_str_lit "")
                    else
                      match hex_load_n (sdata sig) (Z.to_nat (slen sig)) PQ_SIG_LEN with
                      | None => ret (oo_str_lit "")
                      | Some sigbin => ret (str_of (pk ++ nonce ++ ct ++ tag ++ sigbin))
                      end
                end
            end
        end
    end.
Definition crypto_pq_aead_open_internal (cap_key32 aead_key16 seal : OoStr) : ST estate OoStr :=
  match sdata seal with
  | None => ret (oo_str_lit "")
  | Some p =>
      if negb (operand_ok cap_key32 PQ_SEED_LEN) || negb (operand_ok aead_key16 AEAD_KEY_LEN) || (slen seal <? CONF_SEAL_OVERHEAD) then ret (oo_str_lit "")
      else
        let ct_len := Z.to_nat (slen seal - CONF_SEAL_OVERHEAD) in
        let nonce := slice PQ_PK_LEN AEAD_NONCE_LEN p in
        let ct := slice (PQ_PK_LEN + AEAD_NONCE_LEN) ct_len p in
        let tag := slice (PQ_PK_LEN + AEAD_NONCE_LEN + ct_len) AEAD_TAG_LEN p in
        let sigbin := slice (PQ_PK_LEN + AEAD_NONCE_LEN + ct_len + AEAD_TAG_LEN) PQ_SIG_LEN p in
        let! kp := pure (crypto_mldsa65_keygen_internal cap_key32) in
        match load_pk kp with
        | None => ret (oo_str_lit "")
        | Some pk =>
            if negb (crypto_ct_cmp (Some pk) (Some p) PQ_PK_LEN =? 0) then ret (oo_str_lit "")
            else
              let! vr := pure (crypto_mldsa65_verify_internal (str_of pk) (str_of (pk ++ nonce ++ ct ++ tag)) (str_of sigbin)) in
              let! _ := oo_event_emit external_call (oo_str_lit "pq.verify") in
              if negb (says_ok vr) then ret (oo_str_lit "")
              else
                let! kp2 := pure (crypto_mldsa65_keygen_internal cap_key32) in
                match load_pk kp2 with
                | None => ret (oo_str_lit "")
                | Some pk2 =>
                    match load_raw aead_key16 16 with
                    | None => ret (oo_str_lit "")
                    | Some aead_key_raw =>
                        let! pt := pure (crypto_aes_gcm_open_internal (str_of aead_key_raw) (str_of nonce) (str_of ct) (str_of tag) (str_of pk2)) in
                        let! _ := oo_event_emit external_call (oo_str_lit "aead.open") in
                        match sdata pt with None => ret (oo_str_lit "") | Some _ => ret pt end
                    end
                end
        end
  end.
End composites.

(** * Bytes of keys and signatures *)

Lemma bytes_pieces {A} (f : A -> list Z) l : (forall x, bytes (f x)) -> bytes (concat (map f l)).
Proof. intros H. apply Forall_concat, Forall_map, List.Forall_forall. intros x _. apply H. Qed.
Lemma bytes_polyt1 a : bytes (d_polyt1_pack a).
Proof. apply bytes_groups. intros l. unfold t1_pack. bytes_cells; auto with oo_bytes. Qed.
Lemma bytes_polyt0 a : bytes (d_polyt0_pack a).
Proof. apply bytes_groups. intros l. unfold t0_pack. bytes_cells; auto with oo_bytes. Qed.
Lemma bytes_polyeta a : bytes (d_polyeta_pack a).
Proof. apply bytes_groups. intros l. unfold eta_pack. bytes_cells; auto with oo_bytes. Qed.
Lemma bytes_polyz a : bytes (d_polyz_pack a).
Proof. apply bytes_groups. intros l. unfold z_pack. bytes_cells; auto with oo_bytes. Qed.
#[local] Hint Resolve bytes_polyt1 bytes_polyt0 bytes_polyeta bytes_polyz bytes_pieces : oo_bytes.

(** Keys and signatures have their sizes and are bytes. *)
Definition sized (n : nat) (l : list Z) : Prop := length l = n /\ bytes l.
Lemma pack_pk_sized rho t1 : sized 32 rho -> length t1 = DK -> sized PQ_PK_LEN (d_pack_pk rho t1).
Proof.
  intros [Lr Br] L1. unfold d_pack_pk. rewrite (slice_all 32 rho) by done. split.
  - by rewrite length_app, (length_pieces _ _ _ length_polyt1), Lr, L1.
  - rewrite bytes_app. split; [done|apply bytes_pieces, bytes_polyt1].
Qed.
Lemma pack_sk_sized rho tr key t0 s1 s2 : sized 32 rho -> sized 64 tr -> sized 32 key -> length t0 = DK -> length s1 = DL -> length s2 = DK ->
  sized PQ_SK_LEN (d_pack_sk rho tr key t0 s1 s2).
Proof.
  intros [Lr Br] [Lt Bt] [Lk Bk] L0 L1 L2. unfold d_pack_sk. rewrite (slice_all 32 rho), (slice_all 32 key), (slice_all 64 tr) by done. split.
  - by rewrite !length_app, !(length_pieces _ _ _ length_polyeta), (length_pieces _ _ _ length_polyt0), Lr, Lt, Lk, L0, L1, L2.
  - rewrite !bytes_app. split; [done|]. split; [done|]. split; [done|].
    split; [apply bytes_pieces, bytes_polyeta|]. split; [apply bytes_pieces, bytes_polyeta|apply bytes_pieces, bytes_polyt0].
Qed.
Lemma keygen_sized `{X : Shake} xi pk sk : d_keygen xi = Ret (pk, sk) -> sized PQ_PK_LEN pk /\ sized PQ_SK_LEN sk.
Proof.
  intros (rho & key & mat & s1 & s2 & K & Lr & Lk & Em & [L1 _] & [L2 _] & Br & Bk)%keygen_run. unfold keygen_keys in K. cbv zeta in K.
  apply pair_equal_spec in K as [-> ->]. rewrite !map_tab.
  split; [apply pack_pk_sized; [by split|apply length_tab]|].
  apply pack_sk_sized; [by split|split; [apply length_256|apply bytes_256]|by split|apply length_tab|done|done].
Qed.
Lemma sign_sized `{X : Shake} xi pk sk m rnd sig : d_keygen xi = Ret (pk, sk) -> d_sign_internal m rnd sk = Ret (Some sig) -> sized PQ_SIG_LEN sig.
Proof.
  intros K S. destruct (sign_internal_spec _ _ _ _ _ _ K S) as (rho & mat & t1 & t0 & _ & _ & _ & _ & _ & c & cp & w1 & z & h & Ec & _ & A & N & ->).
  destruct (ac_z _ _ _ _ _ _ _ A) as [Lz _]. pose proof (ac_h _ _ _ _ _ _ _ A) as Hh. unfold d_pack_sig. rewrite (slice_all DCTILDE c) by (rewrite Ec; apply length_256).
  rewrite (pack_hints_spec h Hh N). unfold hint_count in N. fold (positions h) in N. split.
  - rewrite !length_app, (length_pieces _ _ _ length_polyz), length_zeros, length_counts, Lz, Ec, length_256. unfold DOMEGA in *. unfold PQ_SIG_LEN, DCTILDE, DL, DK. lia.
  - rewrite !bytes_app. split; [rewrite Ec; apply bytes_256|]. split; [apply bytes_pieces, bytes_polyz|]. split; [apply bytes_positions|]. split; [apply bytes_zeros|by apply bytes_counts].
Qed.

(** * The entry points of ML-DSA on the operands the seals give them *)

Lemma length_str_hex p q n m : length (hex_of p n ++ hex_of q m) = (2 * (n + m))%nat.
Proof. rewrite length_app, !length_hex_of. lia. Qed.
Lemma hex_pairs_app p n r : sized n p -> hex_pairs hex_digit 0 n (hex_of p n ++ r) = Some p.
Proof.
  intros [Hn Hp]. rewrite (hex_pairs_hex_of p _ n n 0); [f_equal; by apply tab_get|done|]. intros j Hj.
  split; [by apply bytes_get|]. rewrite !get_app_l by (rewrite length_hex_of; lia). done.
Qed.
Lemma hex_load_n_app p n r k : sized n p -> k = (n * 2)%nat -> hex_load_n (Some (hex_of p n ++ r)) k n = Some p.
Proof. intros H ->. unfold hex_load_n. rewrite Nat.eqb_refl. by apply hex_pairs_app. Qed.
Lemma drop_hex p n k r : k = (n * 2)%nat -> drop k (hex_of p n ++ r) = r.
Proof. intros ->. apply drop_app_length'. rewrite length_hex_of. lia. Qed.
Lemma keys_ok_hex pk sk : keys_ok (str_of (hex_of pk PQ_PK_LEN ++ hex_of sk PQ_SK_LEN)) = true.
Proof. unfold keys_ok, str_of. cbn [slen]. rewrite length_str_hex. apply Z.eqb_eq. lia. Qed.
Lemma load_keys_gen kp d pk sk : sdata kp = Some d -> keys_ok kp = true -> hex_load_n (Some d) (PQ_PK_LEN * 2) PQ_PK_LEN = Some pk ->
  hex_load_n (Some (drop (PQ_PK_LEN * 2) d)) (PQ_SK_LEN * 2) PQ_SK_LEN = Some sk -> load_keys kp = Some (pk, sk) /\ load_pk kp = Some pk.
Proof. intros E K H1 H2. unfold load_keys, load_pk. rewrite E, K. cbn [negb]. rewrite H1, H2. done. Qed.
Lemma load_keys_of pk sk : sized PQ_PK_LEN pk -> sized PQ_SK_LEN sk ->
  let kp := d_hex_out_cat pk DPK sk DSK in load_keys kp = Some (pk, sk) /\ load_pk kp = Some pk.
Proof.
  intros Hp Hs. apply (load_keys_gen _ (hex_of pk PQ_PK_LEN ++ hex_of sk PQ_SK_LEN)).
  - reflexivity.
  - apply keys_ok_hex.
  - by apply hex_load_n_app.
  - rewrite (drop_hex pk PQ_PK_LEN) by done. rewrite <- (app_nil_r (hex_of sk PQ_SK_LEN)). by apply hex_load_n_app.
Qed.

Lemma keygen_entry `{X : Shake} seed xi : d_hex_load seed 32 = Some xi ->
  crypto_mldsa65_keygen_internal seed = (let* keys := d_keygen xi in let '(pk, sk) := keys in Ret (d_hex_out_cat pk DPK sk DSK)).
Proof. intros E. unfold crypto_mldsa65_keygen_internal. by rewrite E. Qed.
Lemma sign_entry `{X : Shake} sk msg m : sized PQ_SK_LEN sk -> d_load_msg msg 4096 = Some m ->
  crypto_mldsa65_sign_internal (str_of sk) msg (oo_str_lit "") =
  (let* r := d_sign_internal m (zeros 32) sk in match r with None => Ret (oo_str_lit "") | Some sig => Ret (d_hex_out sig DSIG) end).
Proof. intros [Ls _] Em. unfold crypto_mldsa65_sign_internal. rewrite (d_hex_load_raw sk DSK Ls), Em. reflexivity. Qed.
Lemma verify_entry `{X : Shake} pk msg sig m : sized PQ_PK_LEN pk -> sized PQ_SIG_LEN sig -> d_load_msg msg 4096 = Some m ->
  crypto_mldsa65_verify_internal (str_of pk) msg (str_of sig) =
  (let* ok := d_verify_internal sig m pk in Ret (oo_str_lit (if ok =? 0 then "OK" else ""))).
Proof. intros [Lp _] [Ls _] Em. unfold crypto_mldsa65_verify_internal. rewrite (d_hex_load_raw pk DPK Lp), (d_hex_load_raw sig DSIG Ls), Em. reflexivity. Qed.
Lemma sig_ok_of sig : sized PQ_SIG_LEN sig -> sig_ok (d_hex_out sig DSIG) = true /\ hex_load_n (sdata (d_hex_out sig DSIG)) (Z.to_nat (slen (d_hex_out sig DSIG))) PQ_SIG_LEN = Some sig.
Proof.
  intros H. unfold sig_ok, d_hex_out, str_of. cbn [sdata slen]. rewrite length_hex_of, Nat2Z.id. split; [reflexivity|].
  rewrite <- (app_nil_r (hex_of sig DSIG)). by apply hex_load_n_app.
Qed.
Lemma load_msg_total msg : wf_str msg -> slen msg <= 4096 -> exists m, d_load_msg msg 4096 = Some m.
Proof.
  intros [H0 _] H. unfold d_load_msg. destruct (sdata msg); [|by exists []]. destruct (slen msg <? 0); [by exists []|].
  case_match; [by eexists|]. destruct (Z.ltb_spec 4096 (slen msg)); [lia|by eexists].
Qed.

Lemma load_msg_bound l m : d_load_msg (str_of l) 4096 = Some m -> Z.of_nat (length l) <= 8193.
Proof.
  unfold d_load_msg, str_of. cbn [sdata slen]. destruct (Z.ltb_spec (Z.of_nat (length l)) 0); [lia|].
  destruct (_ && _) eqn:C; [apply andb_prop in C as [C _]; intros _; lia|]. destruct (Z.ltb_spec 4096 (Z.of_nat (length l))); [done|]. intros _. lia.
Qed.
Lemma fill_raw k n : length k = n -> aead_fill (str_of k) n = Some k.
Proof. intros H. unfold aead_fill, str_of. cbn [sdata slen]. case_match; [|lia]. by rewrite take_ge by lia. Qed.
Lemma decode_sealed_of ct tag : sized (length ct) ct -> sized AEAD_TAG_LEN tag -> Z.of_nat (length ct) <= 8193 ->
  decode_sealed (aead_hex_cat ct (length ct) tag 16) = Some (ct, tag).
Proof.
  intros Hc Ht L. unfold decode_sealed, aead_hex_cat, str_of. cbn [sdata slen]. rewrite length_str_hex. change (Z.of_nat (AEAD_TAG_LEN * 2)) with 32. change (Z.of_nat AEAD_TAG_LEN) with 16.
  replace (Z.of_nat (2 * (length ct + 16)) - 32) with (Z.of_nat (2 * length ct)) by lia. rewrite u64_id by lia.
  destruct (Z.ltb_spec (Z.of_nat (2 * (length ct + 16))) 16); [lia|].
  replace (Z.to_nat (Z.of_nat (2 * length ct) / 2)) with (length ct) by lia. rewrite Nat2Z.id. rewrite hex_pairs_app by done. cbn [mbind option_bind].
  rewrite drop_hex by lia. rewrite <- (app_nil_r (hex_of tag 16)), hex_pairs_app by done. done.
Qed.

(** The parts of a confidential seal. *)
Lemma seal_parts pk nonce ct tag sig : length pk = PQ_PK_LEN -> length nonce = AEAD_NONCE_LEN -> length tag = AEAD_TAG_LEN -> length sig = PQ_SIG_LEN ->
  let p := pk ++ nonce ++ ct ++ tag ++ sig in let n := length ct in
  Z.to_nat (slen (str_of p) - CONF_SEAL_OVERHEAD) = n /\ (slen (str_of p) <? CONF_SEAL_OVERHEAD) = false /\ take PQ_PK_LEN p = pk /\
  slice PQ_PK_LEN AEAD_NONCE_LEN p = nonce /\ slice (PQ_PK_LEN + AEAD_NONCE_LEN) n p = ct /\
  slice (PQ_PK_LEN + AEAD_NONCE_LEN + n) AEAD_TAG_LEN p = tag /\ slice (PQ_PK_LEN + AEAD_NONCE_LEN + n + AEAD_TAG_LEN) PQ_SIG_LEN p = sig.
Proof.
  intros Lp Ln Lt Ls. cbv zeta. assert (L : slen (str_of (pk ++ nonce ++ ct ++ tag ++ sig)) = Z.of_nat (length ct) + CONF_SEAL_OVERHEAD).
  { unfold str_of. cbn [slen]. rewrite !length_app, Lp, Ln, Lt, Ls. unfold PQ_PK_LEN, AEAD_NONCE_LEN, AEAD_TAG_LEN, PQ_SIG_LEN, CONF_SEAL_OVERHEAD. lia. }
  rewrite L. split; [unfold CONF_SEAL_OVERHEAD; lia|]. split; [unfold CONF_SEAL_OVERHEAD; lia|].
  split; [rewrite <- Lp; apply take_app_length|]. rewrite <- Lp, <- Ln, <- Lt, <- Ls. split; [by apply slice_app_exact|].
  split; [rewrite app_assoc; apply slice_app_exact; [by rewrite length_app|done]|].
  split; [rewrite !(app_assoc pk), (app_assoc (pk ++ nonce)); apply slice_app_exact; [by rewrite !length_app|done]|].
  rewrite <- (app_nil_r sig) at 2. rewrite !(app_assoc pk), (app_assoc (pk ++ nonce)), (app_assoc ((pk ++ nonce) ++ ct)). apply slice_app_exact; [by rewrite !length_app|done].
Qed.

Lemma says_ok_verdict (b : bool) : says_ok (oo_str_lit (if b then "OK" else "")) = b.
Proof. by destruct b. Qed.

Lemma hmac_verify_gen `{X : Shake} seal d pk sig msg m md : sized PQ_PK_LEN pk -> sized PQ_SIG_LEN sig -> sdata seal = Some d -> slen seal = PQ_SEAL_HEX_LEN ->
  hex_load_n (Some d) (PQ_PK_LEN * 2) PQ_PK_LEN = Some pk -> hex_load_n (Some (drop (PQ_PK_LEN * 2) d)) (PQ_SIG_LEN * 2) PQ_SIG_LEN = Some sig ->
  sdata msg = Some md -> (slen msg <? 0) = false -> d_load_msg msg 4096 = Some m ->
  crypto_pq_hmac_sha256_verify_internal seal msg = (let* ok := d_verify_internal sig m pk in Ret (if ok =? 0 then 1 else 0)).
Proof.
  intros Hp Hs Ed El H1 H2 Emd Lm Em. unfold crypto_pq_hmac_sha256_verify_internal. rewrite Ed, Emd, El, Lm. rewrite Z.eqb_refl. cbn [negb orb].
  rewrite H1, H2, (verify_entry pk msg sig m Hp Hs Em). destruct (d_verify_internal sig m pk); cbn [run_bind]; [|done|done]. by rewrite says_ok_verdict.
Qed.
Lemma hmac_verify_of `{X : Shake} pk sig msg m md : sized PQ_PK_LEN pk -> sized PQ_SIG_LEN sig ->
  sdata msg = Some md -> (slen msg <? 0) = false -> d_load_msg msg 4096 = Some m ->
  crypto_pq_hmac_sha256_verify_internal (str_of (hex_of pk PQ_PK_LEN ++ hex_of sig PQ_SIG_LEN)) msg =
  (let* ok := d_verify_internal sig m pk in Ret (if ok =? 0 then 1 else 0)).
Proof.
  intros Hp Hs Emd Lm Em. apply (hmac_verify_gen _ (hex_of pk PQ_PK_LEN ++ hex_of sig PQ_SIG_LEN) pk sig msg m md Hp Hs); [reflexivity| | | |done|done|done].
  - unfold str_of. cbn [slen]. rewrite length_str_hex. unfold PQ_SEAL_HEX_LEN, PQ_PK_LEN, PQ_SIG_LEN. lia.
  - by apply hex_load_n_app.
  - rewrite drop_hex by done. rewrite <- (app_nil_r (hex_of sig PQ_SIG_LEN)). by apply hex_load_n_app.
Qed.

Lemma seal_size pk sig : slen (str_of (hex_of pk PQ_PK_LEN ++ hex_of sig PQ_SIG_LEN)) = PQ_SEAL_HEX_LEN.
Proof. unfold str_of. cbn [slen]. rewrite length_str_hex. unfold PQ_SEAL_HEX_LEN, PQ_PK_LEN, PQ_SIG_LEN. lia. Qed.
(** What the seal is made of. *)
Lemma pq_hmac_seal_run `{X : Shake} msg kp pk sk seal : load_keys kp = Some (pk, sk) -> sized PQ_SK_LEN sk ->
  (forall m sig, d_sign_internal m (zeros 32) sk = Ret (Some sig) -> sized PQ_SIG_LEN sig) ->
  pq_hmac_seal msg kp = Ret seal -> slen seal <> 0 ->
  exists m sig, d_load_msg msg 4096 = Some m /\ d_sign_internal m (zeros 32) sk = Ret (Some sig) /\ seal = str_of (hex_of pk PQ_PK_LEN ++ hex_of sig PQ_SIG_LEN).
Proof.
  intros Ekp Hs Hsig E N. unfold pq_hmac_seal in E. rewrite Ekp in E. destruct (d_load_msg msg 4096) as [m|] eqn:Em; cycle 1.
  { unfold crypto_mldsa65_sign_internal in E. rewrite (d_hex_load_raw sk DSK (proj1 Hs)), Em in E. cbn [run_bind] in E. by apply Ret_inj in E as <-. }
  rewrite (sign_entry sk msg m Hs Em) in E. destruct (d_sign_internal m (zeros 32) sk) as [[sig|]| |] eqn:S; cbn [run_bind] in E; [|by apply (Ret_inj (oo_str_lit "")) in E as <-|done|done].
  specialize (Hsig m sig S). destruct (sig_ok_of sig Hsig) as [Eok _]. rewrite Eok in E. cbn [negb] in E. apply Ret_inj in E.
  exists m, sig. split; [done|]. split; [done|]. rewrite <- E. unfold hex_out_n, d_hex_out. by rewrite !sbytes_str_of.
Qed.
Lemma pq_hmac_seed_length key kd seed : wf_str key -> sdata key = Some kd -> pq_hmac_seed key kd = Some seed -> length seed = 32%nat.
Proof.
  intros [_ Wk] Ek Es. rewrite Ek in Wk. unfold pq_hmac_seed, PQ_SEED_LEN in Es. destruct (Z.eqb_spec (slen key) 32).
  - injection Es as <-. rewrite length_take. lia.
  - destruct (slen key =? 32 * 2); [|done]. unfold hex_load_n in Es. destruct (negb _); [done|]. exact (proj1 (hex_pairs_length _ _ _ _ _ Es)).
Qed.
Lemma pq_hmac_run `{X : Shake} key msg seal : wf_str key -> crypto_pq_hmac_sha256_internal key msg = Ret seal -> slen seal <> 0 ->
  exists seed pk sk m md sig, length seed = 32%nat /\ d_keygen seed = Ret (pk, sk) /\ d_load_msg msg 4096 = Some m /\ sdata msg = Some md /\ (slen msg <? 0) = false /\
    d_sign_internal m (zeros 32) sk = Ret (Some sig) /\ seal = str_of (hex_of pk PQ_PK_LEN ++ hex_of sig PQ_SIG_LEN).
Proof.
  intros Wk E N. unfold crypto_pq_hmac_sha256_internal in E. destruct (sdata key) as [kd|] eqn:Ek; [|by apply Ret_inj in E as <-].
  destruct (sdata msg) as [md|] eqn:Emd; [|by apply Ret_inj in E as <-]. destruct (_ || _) eqn:G; [by apply Ret_inj in E as <-|]. apply orb_false_iff in G as [_ G].
  destruct (pq_hmac_seed key kd) as [seed|] eqn:Es; [|by apply Ret_inj in E as <-]. pose proof (pq_hmac_seed_length key kd seed Wk Ek Es) as Ls.
  rewrite (keygen_entry _ seed (d_hex_load_raw seed 32 Ls)) in E. destruct (d_keygen seed) as [[pk sk]| |] eqn:K; cbn [run_bind] in E; [|done|done].
  destruct (keygen_sized _ _ _ K) as [Hp Hs]. destruct (load_keys_of pk sk Hp Hs) as [EK _].
  destruct (pq_hmac_seal_run msg _ pk sk seal EK Hs (fun m sig => sign_sized _ _ _ m _ sig K) E N) as (m & sig & Em & S & ES). clear E EK Hs Hp.
  exists seed, pk, sk, m, md, sig. do 6 (split; [assumption || reflexivity|]). exact ES.
Qed.

(** A signature seal made by the code.  When [crypto_pq_hmac_sha256_internal]
    returns anything but the empty string for a key and a message, that is the
    10522 digits of a generated public key and of a signature of the message
    under it.  The code's own check then answers 1 or 0 as the digests of the two
    inputs of [hinted_signature_rejected] agree or not; they are one input
    exactly when the signature carries no hint. *)
Theorem pq_seal_checks `{X : Shake} key msg seal : wf_str key ->
  crypto_pq_hmac_sha256_internal key msg = Ret seal -> slen seal <> 0 ->
  exists seed pk sk m sig c z h a b, length seed = 32%nat /\ d_keygen seed = Ret (pk, sk) /\ d_load_msg msg 4096 = Some m /\
    d_sign_internal m (zeros 32) sk = Ret (Some sig) /\
    seal = str_of (hex_of pk PQ_PK_LEN ++ hex_of sig PQ_SIG_LEN) /\ slen seal = PQ_SEAL_HEX_LEN /\ d_unpack_sig sig = Some (c, z, h) /\
    verify_input (fun a h => Fips204.use_hint h a) sig m pk = Ret a /\ verify_input d_use_hint sig m pk = Ret b /\ (a = b <-> hint_count h = 0%nat) /\
    crypto_pq_hmac_sha256_verify_internal seal msg = Ret (if decide (shake256 a DCTILDE = shake256 b DCTILDE) then 1 else 0).
Proof.
  intros Wk E N. destruct (pq_hmac_run key msg seal Wk E N) as (seed & pk & sk & m & md & sig & Ls & K & Em & Emd & G & S & ->). clear E N.
  destruct (keygen_sized _ _ _ K) as [Hp _]. pose proof (sign_sized _ _ _ _ _ _ K S) as Hsig. destruct (verify_signed _ _ _ _ _ _ K S) as (c & z & h & a & b & Eu & Ea & Eb & _ & _ & Hab & V).
  exists seed, pk, sk, m, sig, c, z, h, a, b. do 5 (split; [done|]). split; [apply seal_size|]. do 4 (split; [done|]).
  rewrite (hmac_verify_of pk sig msg m md Hp Hsig Emd G Em), V. by case_decide.
Qed.

(** * Confidential seals *)

Section confidential.
Context {X : Shake} {E : Entropy}.
Variable external_call : nat -> ST estate unit.
#[local] Abbreviation emit x := (oo_event_emit external_call (oo_str_lit x)).

Lemma ct_cmp_take x y n : crypto_ct_cmp (Some x) (Some y) n = crypto_ct_cmp (Some x) (Some (take n y)) n.
Proof. cbn [crypto_ct_cmp]. apply for_ext. intros i d Hi. by rewrite get_take by lia. Qed.
Lemma ct_cmp_take_zero x y n : sized n x -> bytes y -> (n <= length y)%nat -> crypto_ct_cmp (Some x) (Some y) n = 0 <-> x = take n y.
Proof. intros [Lx Bx] By Ly. rewrite ct_cmp_take. apply crypto_ct_cmp_zero; [done|by apply bytes_take|done|by rewrite length_take_le]. Qed.
Lemma bind_pure_Ret {S A B} (a : A) (f : A -> ST S B) s : bind (pure (Ret a)) f s = f a s.
Proof. reflexivity. Qed.

Lemma bind_ext {S A B} (m : ST S A) (f g : A -> ST S B) s : (forall a s, f a s = g a s) -> bind m f s = bind m g s.
Proof. intros H. unfold bind. destruct (m s) as [[a t]| |]; cbn [run_bind]; [apply H|done|done]. Qed.
(** The operands of a seal or an opening, and what they stand for. *)
Record sealing (cap_key aead_key : OoStr) (xi kb pk sk : list Z) : Prop := {
  sl_cap : operand_ok cap_key PQ_SEED_LEN = true; sl_seed : d_hex_load cap_key 32 = Some xi;
  sl_aead : operand_ok aead_key AEAD_KEY_LEN = true; sl_key : load_raw aead_key 16 = Some kb; sl_kb : sized 16 kb;
  sl_gen : d_keygen xi = Ret (pk, sk) }.
(** The associated data is the public key as [aead_load] reads it. *)
Definition gcm_parts (kb pk nonce p ct tag : list Z) : Prop :=
  exists a, aead_load (str_of pk) = Some a /\ ct = gcm_crypt (aead_aes_expand kb) nonce p /\ tag = gcm_tag (aead_aes_expand kb) nonce a ct.

Lemma sealing_keys ck ak xi kb pk sk : sealing ck ak xi kb pk sk ->
  crypto_mldsa65_keygen_internal ck = Ret (d_hex_out_cat pk DPK sk DSK).
Proof. intros H. rewrite (keygen_entry ck xi (sl_seed _ _ _ _ _ _ H)), (sl_gen _ _ _ _ _ _ H). reflexivity. Qed.
Lemma gcm_parts_sized kb pk nonce p ct tag : sized 16 kb -> sized PQ_PK_LEN pk -> sized 12 nonce -> bytes p -> gcm_parts kb pk nonce p ct tag ->
  sized (length ct) ct /\ sized AEAD_TAG_LEN tag.
Proof.
  intros Hk Hp [Ln Bn] Bp (a & Ea & -> & ->). assert (Ba : bytes a) by (eapply aead_load_bytes; [|exact Ea]; apply wf_str_of, Hp).
  assert (B : bytes (gcm_crypt (aead_aes_expand kb) nonce p)) by by apply bytes_gcm_crypt. split; [by split|]. by apply block_gcm_tag.
Qed.
Lemma gcm_seal_value kb pk nonce pt p ct tag : sized 16 kb -> sized 12 nonce -> aead_load pt = Some p -> gcm_parts kb pk nonce p ct tag ->
  crypto_aes_gcm_seal_internal (str_of kb) (str_of nonce) pt (str_of pk) = Ret (aead_hex_cat ct (length ct) tag 16).
Proof.
  intros [Lk _] [Ln _] Ep (a & Ea & -> & ->). unfold crypto_aes_gcm_seal_internal. by rewrite (fill_raw kb 16 Lk), (fill_raw nonce 12 Ln), Ep, Ea.
Qed.
Lemma gcm_open_value kb pk nonce p ct tag : sized 16 kb -> sized PQ_PK_LEN pk -> sized 12 nonce -> bytes p -> gcm_parts kb pk nonce p ct tag ->
  aead_load (str_of ct) = Some ct ->
  crypto_aes_gcm_open_internal (str_of kb) (str_of nonce) (str_of ct) (str_of tag) (str_of pk) = Ret (str_of p).
Proof.
  intros Hk Hpk Hn Bp G Ect. destruct (gcm_parts_sized _ _ _ _ _ _ Hk Hpk Hn Bp G) as [[_ Bc] [Lt Bt]]. destruct G as (a & Ea & E1 & E2).
  unfold crypto_aes_gcm_open_internal. rewrite (fill_raw kb 16 (proj1 Hk)), (fill_raw nonce 12 (proj1 Hn)), (fill_raw tag 16 Lt), Ect, Ea. cbn [of_option run_bind].
  rewrite <- E2. rewrite (proj2 (crypto_ct_cmp_zero tag tag 16 Bt Bt Lt Lt) eq_refl). cbn [Z.eqb negb].
  assert (D : gcm_crypt (aead_aes_expand kb) nonce ct = p) by (rewrite E1; apply gcm_crypt_twice; [apply Hk|apply Hn|apply Hn|done]).
  rewrite D. unfold aead_bin. rewrite take_ge; [done|]. rewrite E1. by rewrite length_gcm_crypt.
Qed.

Lemma seal_value ck ak pt s xi kb pk sk p nonce s1 ct tag m sig : sealing ck ak xi kb pk sk ->
  wf_str pt -> sdata pt <> None -> aead_load pt = Some p -> on_caps draw_nonce s = Ret (Some nonce, s1) -> sized 12 nonce ->
  gcm_parts kb pk nonce p ct tag -> d_load_msg (str_of (pk ++ nonce ++ ct ++ tag)) 4096 = Some m -> d_sign_internal m (zeros 32) sk = Ret (Some sig) ->
  crypto_pq_aead_seal_internal external_call ck ak pt s =
  (let! _ := emit "aead.seal" in let! _ := emit "pq.sign" in ret (str_of (pk ++ nonce ++ ct ++ tag ++ sig))) s1.
Proof.
  intros H W Npt Ep En Hn G Em S. pose proof (sealing_keys _ _ _ _ _ _ H) as EK. destruct H as [H1 H2 H3 H4 Hk K].
  destruct (keygen_sized _ _ _ K) as [Hp Hs]. pose proof (sign_sized _ _ _ _ _ _ K S) as Hsig.
  destruct (gcm_parts_sized kb pk nonce p ct tag Hk Hp Hn (aead_load_bytes _ _ W Ep) G) as [Hc Ht].
  assert (Lc : Z.of_nat (length ct) <= 8193) by (apply load_msg_bound in Em; rewrite !length_app in Em; lia).
  unfold crypto_pq_aead_seal_internal. rewrite H1, H3. cbn [negb orb]. destruct (sdata pt) as [d|]; [|done]. destruct W as [W _]. destruct (Z.ltb_spec (slen pt) 0); [lia|].
  rewrite H4, EK, bind_pure_Ret, (proj1 (load_keys_of pk sk Hp Hs)). unfold bind at 1. rewrite En. cbn [run_bind].
  rewrite (gcm_seal_value kb pk nonce pt p ct tag Hk Hn Ep G), bind_pure_Ret. apply bind_ext. intros _ s2.
  rewrite (decode_sealed_of ct tag Hc Ht Lc), (sign_entry sk _ m Hs Em), S. cbn [run_bind]. rewrite bind_pure_Ret. apply bind_ext. intros _ s3.
  destruct (sig_ok_of sig Hsig) as [-> ->]. reflexivity.
Qed.

(** The parts of a seal, as opening cuts them. *)
Record cut (seal : OoStr) (nonce ct tag sig p : list Z) : Prop := {
  ct_data : sdata seal = Some p; ct_long : (slen seal <? CONF_SEAL_OVERHEAD) = false;
  ct_nonce : nonce = slice PQ_PK_LEN AEAD_NONCE_LEN p;
  ct_ct : ct = slice (PQ_PK_LEN + AEAD_NONCE_LEN) (Z.to_nat (slen seal - CONF_SEAL_OVERHEAD)) p;
  ct_tag : tag = slice (PQ_PK_LEN + AEAD_NONCE_LEN + Z.to_nat (slen seal - CONF_SEAL_OVERHEAD)) AEAD_TAG_LEN p;
  ct_sig : sig = slice (PQ_PK_LEN + AEAD_NONCE_LEN + Z.to_nat (slen seal - CONF_SEAL_OVERHEAD) + AEAD_TAG_LEN) PQ_SIG_LEN p }.
Lemma cut_of pk nonce ct tag sig : length pk = PQ_PK_LEN -> length nonce = AEAD_NONCE_LEN -> length tag = AEAD_TAG_LEN -> length sig = PQ_SIG_LEN ->
  let p := pk ++ nonce ++ ct ++ tag ++ sig in cut (str_of p) nonce ct tag sig p /\ take PQ_PK_LEN p = pk.
Proof.
  intros Lp Ln Lt Ls. cbv zeta. destruct (seal_parts pk nonce ct tag sig Lp Ln Lt Ls) as (P0 & P1 & P2 & P3 & P4 & P5 & P6). split; [|done].
  split; rewrite ?P0; try done; symmetry; assumption.
Qed.

(** What opening does once the keys are there. *)
Definition open_tail (kb pk nonce ct tag sig m : list Z) : ST estate OoStr :=
  let! ok := pure (d_verify_internal sig m pk) in
  let! _ := emit "pq.verify" in
  if negb (ok =? 0) then ret (oo_str_lit "")
  else
    let! pt := pure (crypto_aes_gcm_open_internal (str_of kb) (str_of nonce) (str_of ct) (str_of tag) (str_of pk)) in
    let! _ := emit "aead.open" in
    match sdata pt with None => ret (oo_str_lit "") | Some _ => ret pt end.
Lemma open_value ck ak seal s xi kb pk sk nonce ct tag sig p m : sealing ck ak xi kb pk sk -> cut seal nonce ct tag sig p -> take PQ_PK_LEN p = pk ->
  sized PQ_SIG_LEN sig -> d_load_msg (str_of (pk ++ nonce ++ ct ++ tag)) 4096 = Some m ->
  crypto_pq_aead_open_internal external_call ck ak seal s = open_tail kb pk nonce ct tag sig m s.
Proof.
  intros H [Ep P1 P3 P4 P5 P6] P2 Hsig Em. pose proof (sealing_keys _ _ _ _ _ _ H) as EK. destruct H as [H1 H2 H3 H4 Hk K].
  destruct (keygen_sized _ _ _ K) as [Hp Hs].
  unfold crypto_pq_aead_open_internal. rewrite Ep, H1, H3, P1. cbn [negb orb]. cbv zeta.
  rewrite <- P3, <- P4, <- P5, <- P6, EK, bind_pure_Ret, (proj2 (load_keys_of pk sk Hp Hs)).
  assert (C : (crypto_ct_cmp (Some pk) (Some p) PQ_PK_LEN =? 0) = true).
  { apply Z.eqb_eq. rewrite ct_cmp_take, P2. apply crypto_ct_cmp_zero; [apply Hp|apply Hp|apply Hp|apply Hp|done]. }
  rewrite C. cbn [negb]. rewrite (verify_entry pk _ sig m Hp Hsig Em). unfold open_tail.
  destruct (d_verify_internal sig m pk) as [ok| |]; cbn [run_bind]; [|done|done]. rewrite !bind_pure_Ret. apply bind_ext. intros _ s2. rewrite says_ok_verdict.
  destruct (ok =? 0); cbn [negb]; [|done]. rewrite bind_pure_Ret, (proj2 (load_keys_of pk sk Hp Hs)), H4. reflexivity.
Qed.

Lemma open_sealed ck ak s xi kb pk sk p nonce ct tag m sig : sealing ck ak xi kb pk sk -> bytes p -> sized 12 nonce ->
  gcm_parts kb pk nonce p ct tag -> d_load_msg (str_of (pk ++ nonce ++ ct ++ tag)) 4096 = Some m -> sized PQ_SIG_LEN sig ->
  crypto_pq_aead_open_internal external_call ck ak (str_of (pk ++ nonce ++ ct ++ tag ++ sig)) s = open_tail kb pk nonce ct tag sig m s /\
  (d_verify_internal sig m pk = Ret 0 -> aead_load (str_of ct) = Some ct ->
   open_tail kb pk nonce ct tag sig m s = (let! _ := emit "pq.verify" in let! _ := emit "aead.open" in ret (str_of p)) s).
Proof.
  intros H Bp Hn G Em Hsig. pose proof (sl_kb _ _ _ _ _ _ H) as Hk. destruct (keygen_sized _ _ _ (sl_gen _ _ _ _ _ _ H)) as [Hp _].
  destruct (gcm_parts_sized kb pk nonce p ct tag Hk Hp Hn Bp G) as [Hc Ht].
  destruct (cut_of pk nonce ct tag sig (proj1 Hp) (proj1 Hn) (proj1 Ht) (proj1 Hsig)) as [C P].
  split; [exact (open_value ck ak _ s xi kb pk sk nonce ct tag sig _ m H C P Hsig Em)|]. intros V Ect.
  unfold open_tail. rewrite V, bind_pure_Ret. apply bind_ext. intros _ s3. cbn [Z.eqb negb].
  by rewrite (gcm_open_value kb pk nonce p ct tag Hk Hp Hn Bp G Ect), bind_pure_Ret.
Qed.

(** C15. A confidential seal made by the code.  For operands that load, a nonce
    from the kernel, a message that ML-DSA takes (at most 4096 bytes, so a
    plaintext of at most 2116) and a signing loop that ends,
    [crypto_pq_aead_seal_internal] emits its two events and returns the public
    key, the nonce, the ciphertext, the tag and the signature.  Opening these
    with the same keys, in any state, gives the plaintext back as the AEAD read
    it when the code's verification accepts the signature and the ciphertext is
    not itself hexadecimal text, and the empty string when it does not accept.
    It accepts exactly when the two inputs of [hinted_signature_rejected] have
    one digest; they are one input exactly when the signature carries no hint. *)
Theorem pq_aead_open_seal ck ak pt s xi kb pk sk p nonce s1 ct tag m sig : sealing ck ak xi kb pk sk ->
  wf_str pt -> sdata pt <> None -> aead_load pt = Some p -> on_caps draw_nonce s = Ret (Some nonce, s1) -> sized 12 nonce ->
  gcm_parts kb pk nonce p ct tag -> d_load_msg (str_of (pk ++ nonce ++ ct ++ tag)) 4096 = Some m -> d_sign_internal m (zeros 32) sk = Ret (Some sig) ->
  let seal := str_of (pk ++ nonce ++ ct ++ tag ++ sig) in
  crypto_pq_aead_seal_internal external_call ck ak pt s = (let! _ := emit "aead.seal" in let! _ := emit "pq.sign" in ret seal) s1 /\
  exists c z h a b, d_unpack_sig sig = Some (c, z, h) /\
    verify_input (fun a h => Fips204.use_hint h a) sig m pk = Ret a /\ verify_input d_use_hint sig m pk = Ret b /\ (a = b <-> hint_count h = 0%nat) /\
    (shake256 a DCTILDE = shake256 b DCTILDE -> aead_load (str_of ct) = Some ct -> forall s,
      crypto_pq_aead_open_internal external_call ck ak seal s = (let! _ := emit "pq.verify" in let! _ := emit "aead.open" in ret (str_of p)) s) /\
    (shake256 a DCTILDE <> shake256 b DCTILDE -> forall s,
      crypto_pq_aead_open_internal external_call ck ak seal s = (let! _ := emit "pq.verify" in ret (oo_str_lit "")) s).
Proof.
  intros H W Npt Ep En Hn G Em S seal. split; [exact (seal_value ck ak pt s xi kb pk sk p nonce s1 ct tag m sig H W Npt Ep En Hn G Em S)|].
  pose proof (sl_gen _ _ _ _ _ _ H) as K. pose proof (fun s => open_sealed ck ak s xi kb pk sk p nonce ct tag m sig H (aead_load_bytes _ _ W Ep) Hn G Em (sign_sized _ _ _ _ _ _ K S)) as O.
  destruct (verify_signed _ _ _ _ _ _ K S) as (c & z & h & a & b & Eu & Ea & Eb & _ & _ & Hab & V). exists c, z, h, a, b. do 4 (split; [done|]). split; intros N.
  - rewrite decide_True in V by done. intros Ect s2. etransitivity; [exact (proj1 (O s2))|]. exact (proj2 (O s2) V Ect).
  - rewrite decide_False in V by done. intros s2. etransitivity; [exact (proj1 (O s2))|]. unfold open_tail. rewrite V, bind_pure_Ret. apply bind_ext. intros _ s3. done.
Qed.

Lemma bind_inv {S A B} (m : ST S A) (f : A -> ST S B) s r : bind m f s = Ret r -> exists a s2, m s = Ret (a, s2) /\ f a s2 = Ret r.
Proof. unfold bind. destruct (m s) as [[a s2]| |]; cbn [run_bind]; [|done|done]. intros H. by exists a, s2. Qed.
Lemma ret_inv {S A} (a : A) (s : S) r s' : ret a s = Ret (r, s') -> r = a.
Proof. intros H. by apply Ret_inj, pair_equal_spec in H as [-> _]. Qed.
Lemma load_raw_sized k n b : wf_str k -> load_raw k n = Some b -> sized n b.
Proof.
  intros [_ W] E'. unfold load_raw in E'. destruct (sdata k) as [d|]; [|done]. destruct W as [Ld Bd]. destruct (Z.eqb_spec (slen k) (Z.of_nat n)).
  - injection E' as <-. split; [rewrite length_take; lia|by apply bytes_take].
  - unfold hex_load_n in E'. destruct (negb _); [done|]. by apply hex_pairs_length in E'.
Qed.

#[local] Opaque gcm_tag gcm_crypt aead_aes_expand aead_load crypto_ct_cmp aead_fill.
Lemma gcm_open_inv kb pk nonce ct tag pt : sized 16 kb -> sized PQ_PK_LEN pk -> sized 12 nonce -> sized AEAD_TAG_LEN tag -> bytes ct ->
  crypto_aes_gcm_open_internal (str_of kb) (str_of nonce) (str_of ct) (str_of tag) (str_of pk) = Ret pt ->
  sdata pt <> None /\ (slen pt <> 0 -> exists a c, aead_load (str_of pk) = Some a /\ aead_load (str_of ct) = Some c /\
    tag = gcm_tag (aead_aes_expand kb) nonce a c /\ pt = str_of (gcm_crypt (aead_aes_expand kb) nonce c)).
Proof.
  intros Hk Hp Hn [Lt Bt] Bc O. destruct (aead_load_some (str_of pk) (wf_str_of _ (proj2 Hp))) as [a Ea]. destruct (aead_load_some (str_of ct) (wf_str_of _ Bc)) as [c Ec].
  pose proof (aead_load_bytes _ _ (wf_str_of _ (proj2 Hp)) Ea) as Ba. pose proof (aead_load_bytes _ _ (wf_str_of _ Bc) Ec) as Bc'.
  destruct (block_gcm_tag kb Hk nonce a c (proj1 Hn) (proj2 Hn) Ba Bc') as [Lg Bg].
  unfold crypto_aes_gcm_open_internal in O. rewrite (fill_raw kb 16 (proj1 Hk)), (fill_raw nonce 12 (proj1 Hn)), (fill_raw tag 16 Lt), Ec, Ea in O.
  cbn [of_option run_bind] in O. pose proof (length_gcm_crypt kb nonce c) as Lx.
  set (tg := gcm_tag (aead_aes_expand kb) nonce a c) in *. set (x := gcm_crypt (aead_aes_expand kb) nonce c) in *.
  destruct (Z.eqb_spec (crypto_ct_cmp (Some tg) (Some tag) 16) 0) as [Q|Q]; cbn [negb] in O; apply Ret_inj in O; subst pt.
  - split; [discriminate|]. intros _. exists a, c. apply crypto_ct_cmp_zero in Q; [|done|done|done|done]. do 3 (split; [done|]). unfold aead_bin. by rewrite take_ge by lia.
  - split; [discriminate|]. intros N. by destruct N.
Qed.
(** Opening, step by step: it returns data only from its last step. *)
Lemma open_tail_inv kb pk nonce ct tag sig m s r s' : sized 16 kb -> sized PQ_PK_LEN pk -> sized 12 nonce -> sized AEAD_TAG_LEN tag -> bytes ct ->
  open_tail kb pk nonce ct tag sig m s = Ret (r, s') -> slen r <> 0 ->
  d_verify_internal sig m pk = Ret 0 /\ exists a c, aead_load (str_of pk) = Some a /\ aead_load (str_of ct) = Some c /\
    tag = gcm_tag (aead_aes_expand kb) nonce a c /\ r = str_of (gcm_crypt (aead_aes_expand kb) nonce c).
Proof.
  intros Hk Hp Hn Ht Bc O N. unfold open_tail in O. destruct (d_verify_internal sig m pk) as [ok| |]; [|done|done]. rewrite bind_pure_Ret in O.
  apply bind_inv in O as (_ & s2 & _ & O). destruct (Z.eqb_spec ok 0) as [->|]; cbn [negb] in O; [|apply ret_inv in O as ->; done]. split; [done|].
  destruct (crypto_aes_gcm_open_internal _ _ _ _ _) as [pt| |] eqn:G in O; [|done|done]. rewrite bind_pure_Ret in O. apply bind_inv in O as (_ & s4 & _ & O).
  destruct (gcm_open_inv kb pk nonce ct tag pt Hk Hp Hn Ht Bc G) as [D F]. destruct (sdata pt) as [d|]; [|done]. apply ret_inv in O as ->. by apply F.
Qed.

Lemma not_empty {S A} (s0 : S) r s' : ret (oo_str_lit "") s0 = Ret (r, s') -> slen r <> 0 -> A.
Proof. intros Q N. apply ret_inv in Q as ->. by destruct N. Qed.
(** Opening once the seal is long enough and the key pair is there. *)
Lemma open_front ck ak seal s xi pk sk nonce ct tag sig p : operand_ok ck PQ_SEED_LEN = true -> operand_ok ak AEAD_KEY_LEN = true ->
  d_hex_load ck 32 = Some xi -> d_keygen xi = Ret (pk, sk) -> cut seal nonce ct tag sig p ->
  crypto_pq_aead_open_internal external_call ck ak seal s =
  (if negb (crypto_ct_cmp (Some pk) (Some p) PQ_PK_LEN =? 0) then ret (oo_str_lit "")
   else
     let! vr := pure (crypto_mldsa65_verify_internal (str_of pk) (str_of (pk ++ nonce ++ ct ++ tag)) (str_of sig)) in
     let! _ := emit "pq.verify" in
     if negb (says_ok vr) then ret (oo_str_lit "")
     else
       match load_raw ak 16 with
       | None => ret (oo_str_lit "")
       | Some kb =>
           let! pt := pure (crypto_aes_gcm_open_internal (str_of kb) (str_of nonce) (str_of ct) (str_of tag) (str_of pk)) in
           let! _ := emit "aead.open" in
           match sdata pt with None => ret (oo_str_lit "") | Some _ => ret pt end
       end) s.
Proof.
  intros H1 H3 Ex K [Ep P1 P3 P4 P5 P6]. destruct (keygen_sized _ _ _ K) as [Hp Hs]. pose proof (proj2 (load_keys_of pk sk Hp Hs)) as LK.
  assert (EK : crypto_mldsa65_keygen_internal ck = Ret (d_hex_out_cat pk DPK sk DSK)) by (by rewrite (keygen_entry ck xi Ex), K).
  unfold crypto_pq_aead_open_internal. rewrite Ep, H1, H3, P1. cbn [negb orb]. cbv zeta. rewrite <- P3, <- P4, <- P5, <- P6, EK, bind_pure_Ret, LK.
  destruct (negb _); [done|]. apply bind_ext. intros vr s2. apply bind_ext. intros _ s3. destruct (negb _); [done|]. rewrite bind_pure_Ret, LK. done.
Qed.
(** The guards before the keys. *)
Lemma open_guards ck ak seal s r s' : crypto_pq_aead_open_internal external_call ck ak seal s = Ret (r, s') -> slen r <> 0 ->
  exists p xi pk sk, sdata seal = Some p /\ operand_ok ck PQ_SEED_LEN = true /\ operand_ok ak AEAD_KEY_LEN = true /\ (slen seal <? CONF_SEAL_OVERHEAD) = false /\ d_hex_load ck 32 = Some xi /\ d_keygen xi = Ret (pk, sk).
Proof.
  intros O N.
  unfold crypto_pq_aead_open_internal in O. destruct (sdata seal) as [p|]; [|exact (not_empty _ _ _ O N)].
  destruct (_ || _) eqn:G; [exact (not_empty _ _ _ O N)|]. apply orb_false_iff in G as [G G3]. apply orb_false_iff in G as [G1 G2]. apply negb_false_iff in G1, G2.
  exists p. cbv zeta in O. apply bind_inv in O as (kp & s2 & O1 & O2). unfold pure in O1. unfold crypto_mldsa65_keygen_internal in O1.
  destruct (d_hex_load ck 32) as [xi|]; cycle 1.
  { exfalso. cbn [run_bind] in O1. apply Ret_inj, pair_equal_spec in O1 as [<- _]. exact (not_empty _ _ _ O2 N). }
  exists xi. destruct (d_keygen xi) as [[pk sk]| |] eqn:K; [|done|done]. exists pk, sk. done.
Qed.
Lemma cut_sized seal p : wf_str seal -> sdata seal = Some p -> (slen seal <? CONF_SEAL_OVERHEAD) = false ->
  bytes p /\ (PQ_PK_LEN <= length p)%nat /\ exists nonce ct tag sig, cut seal nonce ct tag sig p /\ sized AEAD_NONCE_LEN nonce /\ bytes ct /\ sized AEAD_TAG_LEN tag /\ sized PQ_SIG_LEN sig.
Proof.
  intros [L0 W] Ep G. rewrite Ep in W. destruct W as [Lp Bp]. pose proof (Z.ltb_ge (slen seal) CONF_SEAL_OVERHEAD) as [G' _]. specialize (G' G). unfold CONF_SEAL_OVERHEAD in G'.
  split; [done|]. split; [unfold PQ_PK_LEN; lia|]. eexists _, _, _, _. split; [by split|].
  assert (LP : (PQ_PK_LEN + AEAD_NONCE_LEN + Z.to_nat (slen seal - CONF_SEAL_OVERHEAD) + AEAD_TAG_LEN + PQ_SIG_LEN <= length p)%nat).
  { unfold PQ_PK_LEN, AEAD_NONCE_LEN, AEAD_TAG_LEN, PQ_SIG_LEN, CONF_SEAL_OVERHEAD. lia. }
  split; [split; [apply length_slice; lia|by apply bytes_slice]|]. split; [by apply bytes_slice|].
  split; split; try (by apply bytes_slice); apply length_slice; lia.
Qed.
Lemma open_signed ck ak pk nonce ct tag sig s p r s' : sized PQ_PK_LEN pk -> sized PQ_SIG_LEN sig -> bytes p -> (PQ_PK_LEN <= length p)%nat ->
  (if negb (crypto_ct_cmp (Some pk) (Some p) PQ_PK_LEN =? 0) then ret (oo_str_lit "")
   else
     let! vr := pure (crypto_mldsa65_verify_internal (str_of pk) (str_of (pk ++ nonce ++ ct ++ tag)) (str_of sig)) in
     let! _ := emit "pq.verify" in
     if negb (says_ok vr) then ret (oo_str_lit "")
     else match load_raw ak 16 with None => ret (oo_str_lit "") | Some kb => ck kb end) s = Ret (r, s') -> slen r <> 0 ->
  take PQ_PK_LEN p = pk /\ exists m kb, d_load_msg (str_of (pk ++ nonce ++ ct ++ tag)) 4096 = Some m /\ load_raw ak 16 = Some kb.
Proof.
  intros Hp Hsig Bp Lp O N.
  destruct (Z.eqb_spec (crypto_ct_cmp (Some pk) (Some p) PQ_PK_LEN) 0) as [Q|Q]; cbn [negb] in O; [|exact (not_empty _ _ _ O N)].
  apply (ct_cmp_take_zero pk p PQ_PK_LEN Hp Bp Lp) in Q. split; [done|].
  apply bind_inv in O as (vr & s2 & O1 & O). apply bind_inv in O as (_ & s3 & _ & O). unfold pure in O1.
  destruct (d_load_msg (str_of (pk ++ nonce ++ ct ++ tag)) 4096) as [m|] eqn:Em; cycle 1.
  { exfalso. unfold crypto_mldsa65_verify_internal in O1. rewrite (d_hex_load_raw pk DPK (proj1 Hp)), (d_hex_load_raw sig DSIG (proj1 Hsig)), Em in O1.
    cbn [run_bind] in O1. apply Ret_inj, pair_equal_spec in O1 as [<- _]. exact (not_empty _ _ _ O N). }
  exists m. clear O1. destruct (negb _); [exact (not_empty _ _ _ O N)|]. destruct (load_raw ak 16) as [kb|]; [by exists kb|exact (not_empty _ _ _ O N)].
Qed.

(** C9. Opening is authenticated.  When [crypto_pq_aead_open_internal] returns
    anything but the empty string, the seal starts with the public key that
    the capability key generates, its signature verifies over the key, the
    nonce, the ciphertext and the tag, the tag is the GCM tag of the public
    key and the ciphertext, and the result is the decryption. *)
Theorem pq_aead_open_authentic ck ak seal s r s' : wf_str ak -> wf_str seal ->
  crypto_pq_aead_open_internal external_call ck ak seal s = Ret (r, s') -> slen r <> 0 ->
  exists xi kb pk sk nonce ct tag sig p m a c, sealing ck ak xi kb pk sk /\ cut seal nonce ct tag sig p /\ take PQ_PK_LEN p = pk /\
    d_load_msg (str_of (pk ++ nonce ++ ct ++ tag)) 4096 = Some m /\ d_verify_internal sig m pk = Ret 0 /\
    aead_load (str_of pk) = Some a /\ aead_load (str_of ct) = Some c /\
    tag = gcm_tag (aead_aes_expand kb) nonce a c /\ r = str_of (gcm_crypt (aead_aes_expand kb) nonce c).
Proof.
  intros Wa Ws O N. destruct (open_guards ck ak seal s r s' O N) as (p & xi & pk & sk & Ep & H1 & H3 & G & Ex & K). destruct (keygen_sized _ _ _ K) as [Hp Hs].
  destruct (cut_sized seal p Ws Ep G) as (Bp & Lp & nonce & ct & tag & sig & C & Hn & Bc & Ht & Hsig).
  pose proof O as O'. rewrite (open_front ck ak seal s xi pk sk nonce ct tag sig p H1 H3 Ex K C) in O'.
  destruct (open_signed _ ak pk nonce ct tag sig s p r s' Hp Hsig Bp Lp O' N) as (P & m & kb & Em & Ek). clear O'. pose proof (load_raw_sized ak 16 kb Wa Ek) as Hkb.
  assert (H : sealing ck ak xi kb pk sk) by (by split). rewrite (open_value ck ak seal s xi kb pk sk nonce ct tag sig p m H C P Hsig Em) in O.
  destruct (open_tail_inv kb pk nonce ct tag sig m s r s' Hkb Hp Hn Ht Bc O N) as (V & a & c & Ea & Ec & Et & Er).
  exists xi, kb, pk, sk, nonce, ct, tag, sig, p, m, a, c. by repeat (split; [assumption || done|]).
Qed.
End confidential.

(** * Witnesses *)

Definition wit_cap : OoStr := Eval vm_compute in str_of (zeros 32).
Definition wit_key : OoStr := Eval vm_compute in str_of (zeros 16).
Definition wit_text : OoStr := Eval vm_compute in str_of [1; 2; 3].
Definition wit_nonce : list Z := tab 12 (fun i => u8 (Z.of_nat (S (n_entropy (caps wit_metrics))) * 37 + Z.of_nat i * 101 + 11)).
Definition wit_drawn : estate := Eval vm_compute in match on_caps (@draw_nonce wit_entropy) wit_metrics with Ret (_, s) => s | _ => wit_metrics end.
Definition wit_call : nat -> ST estate unit := fun _ => ret tt.
Definition wit_opened (x y : String.string) (r : OoStr) (s : estate) : run (OoStr * estate) :=
  (let! _ := @oo_event_emit wit_entropy wit_call (oo_str_lit x) in let! _ := @oo_event_emit wit_entropy wit_call (oo_str_lit y) in ret r) s.

Lemma wit_pk_sized : sized PQ_PK_LEN Toy.pk.
Proof. exact (proj1 (keygen_sized (X := Toy.shake) (zeros 32) _ _ (Toy.keygen_zero _))). Qed.
Lemma wit_sk_sized : sized PQ_SK_LEN Toy.sk.
Proof. exact (proj2 (keygen_sized (X := Toy.shake) (zeros 32) _ _ (Toy.keygen_zero _))). Qed.
Lemma wit_nonce_sized : sized 12 wit_nonce.
Proof. split; [reflexivity|by apply bytesb_ok]. Qed.
Lemma wit_sealing : sealing (X := Toy.shake) wit_cap wit_key (zeros 32) (zeros 16) Toy.pk Toy.sk.
Proof.
  split; [reflexivity|reflexivity|reflexivity|reflexivity| |apply Toy.keygen_zero]. split; [reflexivity|by apply bytesb_ok].
Qed.
(** An odd number of bytes is read as it is. *)
Lemma aead_load_odd l : Z.rem (Z.of_nat (length l)) 2 <> 0 -> aead_load (str_of l) = Some l.
Proof.
  intros H. unfold aead_load, aead_all_hex, str_of. cbn [sdata slen]. destruct (Z.ltb_spec (Z.of_nat (length l)) 0); [lia|].
  rewrite (proj2 (Z.eqb_neq _ _) H). cbn [negb]. rewrite orb_true_r. cbn iota. rewrite Nat2Z.id, take_ge by lia. destruct l; [by destruct H|]. by case_match.
Qed.
Lemma wit_parts : exists ct tag m, gcm_parts (zeros 16) Toy.pk wit_nonce [1; 2; 3] ct tag /\ d_load_msg (str_of (Toy.pk ++ wit_nonce ++ ct ++ tag)) 4096 = Some m /\ aead_load (str_of ct) = Some ct.
Proof.
  assert (Hk : sized 16 (zeros 16)) by (split; [reflexivity|by apply bytesb_ok]).
  destruct (aead_load_some (str_of Toy.pk) (wf_str_of _ (proj2 wit_pk_sized))) as [a Ea].
  assert (G : gcm_parts (zeros 16) Toy.pk wit_nonce [1; 2; 3] (gcm_crypt (aead_aes_expand (zeros 16)) wit_nonce [1; 2; 3])
    (gcm_tag (aead_aes_expand (zeros 16)) wit_nonce a (gcm_crypt (aead_aes_expand (zeros 16)) wit_nonce [1; 2; 3]))) by (exists a; done).
  assert (L3 : length (gcm_crypt (aead_aes_expand (zeros 16)) wit_nonce [1; 2; 3]) = 3%nat) by apply length_gcm_crypt.
  destruct (gcm_parts_sized _ _ _ _ _ _ Hk wit_pk_sized wit_nonce_sized (bytesb_ok [1; 2; 3] eq_refl) G) as [[_ Bc] [Lt Bt]].
  revert G L3 Bc Lt Bt. generalize (gcm_crypt (aead_aes_expand (zeros 16)) wit_nonce [1; 2; 3]) as ct. intros ct.
  generalize (gcm_tag (aead_aes_expand (zeros 16)) wit_nonce a ct) as tag. intros tag G L3 Bc Lt Bt.
  destruct (load_msg_total (str_of (Toy.pk ++ wit_nonce ++ ct ++ tag))) as [m Em].
  - apply wf_str_of. rewrite !bytes_app. exact (conj (proj2 wit_pk_sized) (conj (proj2 wit_nonce_sized) (conj Bc Bt))).
  - unfold str_of. cbn [slen]. rewrite !length_app, L3, Lt, (proj1 wit_pk_sized), (proj1 wit_nonce_sized). unfold PQ_PK_LEN, AEAD_TAG_LEN. lia.
  - exists ct, tag, m. split; [exact G|]. split; [exact Em|]. apply aead_load_odd. by rewrite L3.
Qed.
Lemma pq_aead_open_seal_witness : exists ct tag, let seal := str_of (Toy.pk ++ wit_nonce ++ ct ++ tag ++ Toy.sig) in
  crypto_pq_aead_seal_internal (X := Toy.shake) (E := wit_entropy) wit_call wit_cap wit_key wit_text wit_metrics = wit_opened "aead.seal" "pq.sign" seal wit_drawn /\
  forall s, crypto_pq_aead_open_internal (X := Toy.shake) (E := wit_entropy) wit_call wit_cap wit_key seal s = wit_opened "pq.verify" "aead.open" wit_text s.
Proof.
  destruct wit_parts as (ct & tag & m & G & Em & Ec). exists ct, tag.
  destruct (pq_aead_open_seal (X := Toy.shake) (E := wit_entropy) wit_call wit_cap wit_key wit_text wit_metrics (zeros 32) (zeros 16) Toy.pk Toy.sk [1; 2; 3]
    wit_nonce wit_drawn ct tag m Toy.sig wit_sealing (wf_str_of _ (bytesb_ok [1; 2; 3] eq_refl)) ltac:(discriminate) eq_refl ltac:(vm_compute; reflexivity) wit_nonce_sized G Em
    (Toy.sign_zero _ _)) as (H1 & c & z & h & a & b & _ & _ & _ & _ & H2 & _).
  split; [exact H1|]. intros s. exact (H2 eq_refl Ec s).
Defined.

Definition wit_after : estate := Eval vm_compute in match wit_opened "pq.verify" "aead.open" wit_text wit_metrics with Ret (_, s) => s | _ => wit_metrics end.
Lemma wit_verifies m : d_verify_internal (X := Toy.shake) Toy.sig m Toy.pk = Ret 0.
Proof.
  destruct (verify_signed (X := Toy.shake) _ _ _ _ _ _ (Toy.keygen_zero (zeros 32)) (Toy.sign_zero m (zeros 32))) as (c & z & h & a & b & _ & _ & _ & _ & _ & _ & V).
  rewrite V. by rewrite decide_True by reflexivity.
Qed.
Lemma wit_opens : exists ct tag, gcm_parts (zeros 16) Toy.pk wit_nonce [1; 2; 3] ct tag /\
  crypto_pq_aead_open_internal (X := Toy.shake) (E := wit_entropy) wit_call wit_cap wit_key (str_of (Toy.pk ++ wit_nonce ++ ct ++ tag ++ Toy.sig)) wit_metrics = Ret (wit_text, wit_after).
Proof.
  destruct wit_parts as (ct & tag & m & G & Em & Ec). exists ct, tag. split; [exact G|].
  destruct (open_sealed (X := Toy.shake) (E := wit_entropy) wit_call wit_cap wit_key wit_metrics (zeros 32) (zeros 16) Toy.pk Toy.sk [1; 2; 3] wit_nonce ct tag m Toy.sig wit_sealing
    (bytesb_ok [1; 2; 3] eq_refl) wit_nonce_sized G Em (sign_sized (X := Toy.shake) _ _ _ _ _ _ (Toy.keygen_zero (zeros 32)) (Toy.sign_zero m (zeros 32)))) as [E1 E2].
  rewrite E1, (E2 (wit_verifies m) Ec). vm_compute. reflexivity.
Qed.
Lemma pq_aead_open_authentic_witness : exists seal, exists xi kb pk sk nonce ct tag sig p m a c, sealing (X := Toy.shake) wit_cap wit_key xi kb pk sk /\ cut seal nonce ct tag sig p /\
  take PQ_PK_LEN p = pk /\ d_load_msg (str_of (pk ++ nonce ++ ct ++ tag)) 4096 = Some m /\ d_verify_internal (X := Toy.shake) sig m pk = Ret 0 /\
  aead_load (str_of pk) = Some a /\ aead_load (str_of ct) = Some c /\
  tag = gcm_tag (aead_aes_expand kb) nonce a c /\ wit_text = str_of (gcm_crypt (aead_aes_expand kb) nonce c).
Proof.
  destruct wit_opens as (ct & tag & G & O). exists (str_of (Toy.pk ++ wit_nonce ++ ct ++ tag ++ Toy.sig)).
  apply (pq_aead_open_authentic (X := Toy.shake) (E := wit_entropy) wit_call wit_cap wit_key _ wit_metrics wit_text wit_after).
  - apply (wf_str_of (zeros 16)). by apply bytesb_ok.
  - apply wf_str_of. destruct (gcm_parts_sized (zeros 16) _ _ _ _ _ (conj eq_refl (bytesb_ok (zeros 16) eq_refl)) wit_pk_sized wit_nonce_sized (bytesb_ok [1; 2; 3] eq_refl) G) as [[_ Bc] [_ Bt]].
    rewrite !bytes_app. exact (conj (proj2 wit_pk_sized) (conj (proj2 wit_nonce_sized) (conj Bc (conj Bt (proj2 (sign_sized (X := Toy.shake) _ _ _ [] _ _ (Toy.keygen_zero (zeros 32)) (Toy.sign_zero _ (zeros 32)))))))).
  - exact O.
  - discriminate.
Defined.

Lemma wit_seals : crypto_pq_hmac_sha256_internal (X := Toy.shake) wit_cap wit_text = Ret (str_of (hex_of Toy.pk PQ_PK_LEN ++ hex_of Toy.sig PQ_SIG_LEN)).
Proof.
  assert (S : sized PQ_SIG_LEN Toy.sig) by exact (sign_sized (X := Toy.shake) _ _ _ [] _ _ (Toy.keygen_zero (zeros 32)) (Toy.sign_zero _ (zeros 32))).
  unfold crypto_pq_hmac_sha256_internal. change (sdata wit_cap) with (Some (zeros 32)). change (sdata wit_text) with (Some [1; 2; 3]). cbn iota.
  change (pq_hmac_seed wit_cap (zeros 32)) with (Some (zeros 32)). change ((slen wit_cap <=? 0) || (slen wit_text <? 0)) with false. cbn iota.
  rewrite (keygen_entry (X := Toy.shake) (str_of (zeros 32)) (zeros 32) eq_refl), Toy.keygen_zero. cbn [run_bind]. unfold pq_hmac_seal.
  rewrite (proj1 (load_keys_of Toy.pk Toy.sk wit_pk_sized wit_sk_sized)), (sign_entry (X := Toy.shake) Toy.sk wit_text [1; 2; 3] wit_sk_sized eq_refl), Toy.sign_zero.
  cbn [run_bind]. rewrite (proj1 (sig_ok_of Toy.sig S)). cbn [negb]. unfold d_hex_out, hex_out_n. by rewrite !sbytes_str_of.
Qed.
Lemma pq_seal_checks_witness : let seal := str_of (hex_of Toy.pk PQ_PK_LEN ++ hex_of Toy.sig PQ_SIG_LEN) in
  exists seed pk sk m sig c z h a b, length seed = 32%nat /\ d_keygen (X := Toy.shake) seed = Ret (pk, sk) /\ d_load_msg wit_text 4096 = Some m /\
    d_sign_internal (X := Toy.shake) m (zeros 32) sk = Ret (Some sig) /\
    seal = str_of (hex_of pk PQ_PK_LEN ++ hex_of sig PQ_SIG_LEN) /\ slen seal = PQ_SEAL_HEX_LEN /\ d_unpack_sig sig = Some (c, z, h) /\
    verify_input (X := Toy.shake) (fun a h => Fips204.use_hint h a) sig m pk = Ret a /\ verify_input (X := Toy.shake) d_use_hint sig m pk = Ret b /\ (a = b <-> hint_count h = 0%nat) /\
    crypto_pq_hmac_sha256_verify_internal (X := Toy.shake) seal wit_text = Ret (if decide (shake256 (Shake := Toy.shake) a DCTILDE = shake256 (Shake := Toy.shake) b DCTILDE) then 1 else 0).
Proof.
  apply (pq_seal_checks (X := Toy.shake) wit_cap wit_text).
  - apply (wf_str_of (zeros 32)). by apply bytesb_ok.
  - exact wit_seals.
  - rewrite seal_size. discriminate.
Defined.
