(* ===== verification/Attenuate.v ===== *)
(** Capability attenuation ([sec/cap/cap_attenuate_hmac.c],
    [sec/cap/cap_attenuate_path.c]): rights sealed by HMAC, and read
    capabilities bound to a path prefix. *)
From S2P Require Import Prelude Str Hex Sha2 Caps Event.
From Stdlib Require String.
Import (notations) String.
Open Scope Z_scope.

(** * Sealed rights ([cap_attenuate_hmac.c]) *)

Definition cap_empty_str : OoStr := str_of [].

(** At most sixteen characters are read; a signed word holds the value. *)
Fixpoint parse_digits (n i : nat) (r : Z) (d : list Z) : option Z :=
  match n with
  | O => Some r
  | S n => if hex_digit d.[i] <? 0 then None else parse_digits n (S i) (i64 (Z.lor (Z.shiftl r 4) (hex_digit d.[i]))) d
  end.
Definition cap_parse_rights (s : OoStr) : option Z :=
  match sdata s with
  | None => None
  | Some d => if slen s <=? 0 then None else parse_digits (Nat.min (Z.to_nat (slen s)) 16) 0 0 d
  end.
(** The tests both entry points make before the MAC. *)
Definition attenuation_allowed (parent_hmac parent_rights child_rights : OoStr) : bool :=
  match sdata parent_hmac with
  | None => false
  | Some _ =>
      if slen parent_hmac <=? 0 then false
      else match cap_parse_rights parent_rights, cap_parse_rights child_rights with
           | Some pr, Some cr => Z.land cr (Z.lnot pr) =? 0
           | _, _ => false
           end
  end.

(** * Path capabilities ([cap_attenuate_path.c]) *)

Definition OO_PATH_CAP_MAX_PREFIX : Z := 4096.
Record OoPathCap := mkPathCap { parent_cap : Z; prefix : OoStr; mac : list Z }.
Definition empty_pathcap : OoPathCap := mkPathCap 0 str_null (zeros 32).

(** [sscanf (hex, "%2x")] on two characters of which the first is not a
    blank, a sign or the start of a 0x prefix. *)
Definition scan2x (a b : Z) : option Z :=
  if hex_digit a <? 0 then None
  else if hex_digit b <? 0 then Some (hex_digit a)
  else Some (u8 (Z.lor (Z.shiftl (hex_digit a) 4) (hex_digit b))).
Fixpoint scan_pairs (i n : nat) (hex : list Z) : option (list Z) :=
  match n with
  | O => Some []
  | S n => match scan2x hex.[2 * i] hex.[2 * i + 1] with
           | None => None
           | Some b => option_map (cons b) (scan_pairs (S i) n hex)
           end
  end.
Definition oo_path_cap_hex_decode (hex : list Z) : list Z :=
  match scan_pairs 0 32 hex with Some l => l | None => zeros 32 end.

Definition oo_path_prefix_nests (prefix path : OoStr) : bool :=
  match sdata prefix, sdata path with
  | Some p, Some q =>
      if (slen prefix <=? 0) || (slen path <=? 0) then false
      else if negb (p.[0] =? 47) || negb (q.[0] =? 47) then false
      else if slen prefix =? 1 then true
      else if slen path <? slen prefix then false
      else if negb (bool_decide (take (Z.to_nat (slen prefix)) q = take (Z.to_nat (slen prefix)) p)) then false
      else if slen path =? slen prefix then true
      else q.[Z.to_nat (slen prefix)] =? 47
  | _, _ => false
  end.

(** The message: the parent word, big-endian, then the prefix. *)
Definition path_cap_msg (cap : Z) (pre : list Z) : list Z :=
  tab 8 (fun i => u8 (Z.shiftr (u64 cap) (Z.of_nat (7 - i) * 8))) ++ pre.
Definition path_cap_mac (key : list Z) (cap : Z) (pre : list Z) : OoStr :=
  crypto_hmac_sha256_internal (mkStr (Some key) 32) (str_of (path_cap_msg cap pre)).
(** The 64 digits of a MAC. *)
Definition mac_digits (m : OoStr) : option (list Z) :=
  match sdata m with None => None | Some d => if slen m =? 64 then Some d else None end.

Section attenuate.
Context {E : Entropy}.

Definition oo_attenuate_fsread_to_path (cap : Z) (pre : OoStr) : M OoPathCap :=
  let! t := oo_caps_init in
  let! _ := oo_cap_require_fsread cap in
  match sdata pre with
  | None => die 1
  | Some d =>
      if (slen pre <=? 0) || negb (d.[0] =? 47) then die 1
      else if OO_PATH_CAP_MAX_PREFIX <? slen pre then die 1
      else
        let p := take (Z.to_nat (slen pre)) d in
        match mac_digits (path_cap_mac (g_kernel_hmac_key t) cap p) with
        | None => die 1
        | Some hex => ret (mkPathCap cap (str_of p) (oo_path_cap_hex_decode hex))
        end
  end.

Definition oo_path_cap_check (pc : OoPathCap) (path : OoStr) : M bool :=
  let! t := oo_caps_init in
  match sdata (prefix pc) with
  | None => ret false
  | Some d =>
      if (slen (prefix pc) <=? 0) || negb (d.[0] =? 47) then ret false
      else if parent_cap pc =? 0 then ret false
      else if OO_PATH_CAP_MAX_PREFIX <? slen (prefix pc) then ret false
      else
        match mac_digits (path_cap_mac (g_kernel_hmac_key t) (parent_cap pc) (take (Z.to_nat (slen (prefix pc))) d)) with
        | None => ret false
        | Some hex =>
            if negb (crypto_ct_cmp (Some (oo_path_cap_hex_decode hex)) (Some (mac pc)) 32 =? 0) then ret false
            else match sdata path with
                 | None => ret false
                 | Some _ => if slen path <=? 0 then ret false else ret (oo_path_prefix_nests (prefix pc) path)
                 end
        end
  end.

Definition oo_attenuate_pathcap_to_path (parent : OoPathCap) (child : OoStr) : M OoPathCap :=
  let! ok := oo_path_cap_check parent (prefix parent) in
  if negb ok then ret empty_pathcap
  else if negb (oo_path_prefix_nests (prefix parent) child) then ret empty_pathcap
  else oo_attenuate_fsread_to_path (parent_cap parent) child.

Definition cap_mac_v2 (parent_hmac parent_rights child_rights : OoStr) : M OoStr :=
  let! t := oo_caps_init in
  ret (crypto_hmac_sha256_internal (mkStr (Some (g_kernel_hmac_key t)) 32)
         (str_of (sbytes parent_hmac ++ sbytes parent_rights ++ sbytes child_rights))).

Variable external_call : nat -> ST estate unit.
Definition oo_cap_attenuate_v2 (parent_hmac parent_rights child_rights : OoStr) : ST estate OoStr :=
  if negb (attenuation_allowed parent_hmac parent_rights child_rights) then ret cap_empty_str
  else
    let! _ := oo_event_emit external_call (oo_str_lit "cap.attenuate") in
    on_caps (cap_mac_v2 parent_hmac parent_rights child_rights).
Definition oo_cap_attenuate_v2_ok (parent_hmac parent_rights child_rights : OoStr) : M bool :=
  if negb (attenuation_allowed parent_hmac parent_rights child_rights) then ret false
  else let! h := cap_mac_v2 parent_hmac parent_rights child_rights in ret (slen h =? 64).
End attenuate.

(** The first version refuses everything. *)
Definition oo_cap_attenuate (parent_hmac child_rights : OoStr) : OoStr := cap_empty_str.
Definition oo_cap_attenuate_ok (parent_hmac child_rights : OoStr) : bool := false.

(** * Lemmas *)

(** The rights a text denotes: the value of its first sixteen digits. *)
Lemma parse_digits_ext n i r d e : (forall k, (i <= k < i + n)%nat -> d.[k] = e.[k]) -> parse_digits n i r d = parse_digits n i r e.
Proof.
  revert i r. induction n as [|n IH]; intros i r H; [done|]. cbn [parse_digits]. rewrite (H i) by lia.
  destruct (hex_digit e.[i] <? 0); [done|]. apply IH. intros. apply H. lia.
Qed.

(** The child's word has no bit its parent lacks. *)
Definition sub_rights (c p : Z) : Prop := forall n, Z.testbit c n = true -> Z.testbit p n = true.
Lemma land_lnot_sub c p : Z.land c (Z.lnot p) = 0 <-> sub_rights c p.
Proof.
  split.
  - intros H n Hc. destruct (Z.lt_ge_cases n 0) as [Hn|Hn]; [by rewrite Z.testbit_neg_r in Hc|].
    apply (f_equal (fun x => Z.testbit x n)) in H. rewrite Z.land_spec, Z.lnot_spec, Hc, Z.bits_0 in H by done.
    by destruct (Z.testbit p n).
  - intros H. apply Z.bits_inj'. intros n Hn. rewrite Z.land_spec, Z.lnot_spec, Z.bits_0 by done.
    destruct (Z.testbit c n) eqn:Hc; [|done]. by rewrite (H n Hc).
Qed.

Definition allowed (ph pr cr : OoStr) : Prop :=
  0 < slen ph /\ sdata ph <> None /\
  exists p c, cap_parse_rights pr = Some p /\ cap_parse_rights cr = Some c /\ sub_rights c p.
Lemma attenuation_allowed_spec ph pr cr : attenuation_allowed ph pr cr = true <-> allowed ph pr cr.
Proof.
  unfold attenuation_allowed, allowed. destruct (sdata ph) as [d|]; [|split; [done|tauto]].
  destruct (Z.leb_spec (slen ph) 0); [split; [done|lia]|].
  destruct (cap_parse_rights pr) as [p|]; [|split; [done|intros (_ & _ & p & c & H1 & _); done]].
  destruct (cap_parse_rights cr) as [c|]; [|split; [done|intros (_ & _ & ? & c & _ & H2 & _); done]].
  rewrite Z.eqb_eq, land_lnot_sub. split.
  - intros S. split; [lia|]. split; [done|]. by exists p, c.
  - intros (_ & _ & p' & c' & [= <-] & [= <-] & S). exact S.
Qed.

(** The length of every MAC is 64. *)
Lemma hmac_length key msg : 0 <= slen key -> 0 <= slen msg ->
  crypto_hmac_sha256_internal key msg = str_of (hex_of (hmac_from_block (hmac_key_block key) (hash_operand msg)) 32).
Proof.
  intros H1 H2. unfold crypto_hmac_sha256_internal. rewrite (proj2 (Z.ltb_ge _ _) H1), (proj2 (Z.ltb_ge _ _) H2). done.
Qed.
Lemma slen_hex l : slen (str_of (hex_of l 32)) = 64.
Proof. unfold str_of. cbn [slen]. by rewrite length_hex_of. Qed.
Lemma bytes_hmac k m : bytes (hmac_from_block k m) /\ length (hmac_from_block k m) = 32%nat.
Proof. unfold hmac_from_block. split; [apply bytes_sha256|apply length_sha256]. Qed.

Lemma scan_pairs_hex i n d l : hex_pairs hex_digit i n d = Some l -> scan_pairs i n d = Some l.
Proof.
  revert i l. induction n as [|n IH]; intros i l; cbn [hex_pairs scan_pairs]; [done|]. unfold scan2x.
  destruct (hex_digit d.[2 * i] <? 0); [done|]. destruct (hex_digit d.[2 * i + 1] <? 0); [done|]. cbn [orb].
  destruct (hex_pairs hex_digit (S i) n d) as [r|] eqn:Er; cbn [mbind option_bind]; [|done].
  rewrite (IH (S i) r Er). cbn [option_map]. done.
Qed.
Lemma hex_decode_encode m : bytes m -> length m = 32%nat -> oo_path_cap_hex_decode (hex_of m 32) = m.
Proof.
  intros Hb Hl. unfold oo_path_cap_hex_decode. by rewrite (scan_pairs_hex 0 32 _ m) by (by apply hex_pairs_encode).
Qed.

(** The MAC of a path capability, as bytes. *)
Definition pathcap_mac_bytes (key : list Z) (cap : Z) (pre : list Z) : list Z :=
  hmac_from_block (hmac_key_block (mkStr (Some key) 32)) (path_cap_msg cap pre).
Lemma mac_digits_path key cap pre :
  mac_digits (path_cap_mac key cap pre) = Some (hex_of (pathcap_mac_bytes key cap pre) 32).
Proof.
  unfold path_cap_mac, pathcap_mac_bytes. rewrite hmac_length by (cbn; lia).
  unfold mac_digits. rewrite slen_hex. cbn [sdata str_of].
  change (hash_operand (str_of (path_cap_msg cap pre))) with (sbytes (str_of (path_cap_msg cap pre))).
  rewrite sbytes_str_of. done.
Qed.

(** ** Nesting of paths *)

(** [q] is [p] itself or lies below it; everything absolute lies below [/]. *)
Definition below (p q : list Z) : Prop :=
  p.[0] = 47 /\ q.[0] = 47 /\ q <> [] /\ (p = [47] \/ q = p \/ exists r, q = p ++ 47 :: r).

Lemma nests_spec pre path p q :
  wf_str pre -> wf_str path -> sdata pre = Some p -> sdata path = Some q -> 0 < slen pre -> 0 < slen path ->
  oo_path_prefix_nests pre path = true <-> below (sbytes pre) (sbytes path).
Proof.
  intros Hw Hv Ep Eq Lp Lq. unfold oo_path_prefix_nests, sbytes. rewrite Ep, Eq.
  destruct Hw as [_ Hw], Hv as [_ Hv]. rewrite Ep in Hw. rewrite Eq in Hv. destruct Hw as [Hp _], Hv as [Hq _].
  set (n := Z.to_nat (slen pre)). set (m := Z.to_nat (slen path)).
  assert (Zn : slen pre = Z.of_nat n) by lia. assert (Zm : slen path = Z.of_nat m) by lia. rewrite Zn, Zm in *. clearbody n m. clear Zn Zm.
  assert (G0 : forall l k, (0 < k)%nat -> (take k l).[0] = l.[0]) by (intros; by apply get_take).
  unfold below. rewrite !G0 by lia.
  destruct (Z.leb_spec (Z.of_nat n) 0); [lia|]. destruct (Z.leb_spec (Z.of_nat m) 0); [lia|]. cbn [orb].
  destruct (Z.eqb_spec p.[0] 47) as [P0|]; [|cbn; split; [done|tauto]]. destruct (Z.eqb_spec q.[0] 47) as [Q0|]; [|cbn; split; [done|tauto]]. cbn [negb orb].
  assert (Ln : length (take n p) = n) by (rewrite length_take; lia). assert (Lm : length (take m q) = m) by (rewrite length_take; lia).
  assert (Ne : take m q <> []) by (intros X; rewrite X in Lm; cbn in Lm; lia).
  destruct (Z.eqb_spec (Z.of_nat n) 1) as [N1|N1].
  - split; [intros _|done]. split; [done|]. split; [done|]. split; [done|]. left. assert (n = 1%nat) as -> by lia.
    destruct p as [|x p]; [cbn in Hp; lia|]. cbn in P0 |- *. unfold get in P0. cbn in P0. by subst.
  - assert (Np : take n p <> [47]) by (intros X; rewrite X in Ln; cbn in Ln; lia).
    destruct (Z.ltb_spec (Z.of_nat m) (Z.of_nat n)) as [Lt|Ge].
    + split; [done|]. intros (_ & _ & _ & [X|[X|(r & X)]]); [done| |];
        apply (f_equal length) in X; rewrite ?length_app in X; rewrite Ln, Lm in X; cbn in X; lia.
    + assert (Split : take m q = take n q ++ take (m - n) (drop n q)).
      { rewrite <- (take_drop n (take m q)). rewrite take_take, skipn_firstn_comm. by replace (n `min` m)%nat with n by lia. }
      destruct (bool_decide (take n q = take n p)) eqn:B; cbn [negb].
      * apply bool_decide_eq_true in B. destruct (Z.eqb_spec (Z.of_nat m) (Z.of_nat n)) as [M|M].
        -- split; [intros _|done]. do 3 (split; [done|]). right. left. by replace m with n by lia.
        -- assert (Hd : take (m - n) (drop n q) = q.[n] :: take (m - n - 1) (drop (S n) q)).
           { destruct (drop n q) as [|x r] eqn:D; [apply (f_equal length) in D; rewrite length_drop in D; cbn in D; lia|].
             assert (X : x = q.[n]) by (pose proof (get_drop n q 0) as G; rewrite D, Nat.add_0_r in G; exact G).
             assert (R : r = drop (S n) q) by (replace (S n) with (n + 1)%nat by lia; rewrite <- drop_drop, D; done).
             replace (m - n)%nat with (S (m - n - 1)) by lia. cbn [take]. rewrite X, R. f_equal. f_equal. lia. }
           rewrite Z.eqb_eq. split.
           ++ intros C. do 3 (split; [done|]). right. right. exists (take (m - n - 1) (drop (S n) q)). by rewrite Split, B, Hd, C.
           ++ intros (_ & _ & _ & [X|[X|(r & X)]]); [done| |].
              ** apply (f_equal length) in X. rewrite Ln, Lm in X. lia.
              ** rewrite Split, B, Hd in X. apply app_inv_head in X. congruence.
      * apply bool_decide_eq_false in B. split; [done|]. intros (_ & _ & _ & [X|[X|(r & X)]]); [done| |]; exfalso; apply B.
        -- rewrite Split in X. apply (f_equal (take n)) in X. rewrite take_app_length' in X by (rewrite length_take; lia).
           rewrite X, take_take. by rewrite Nat.min_id.
        -- rewrite Split in X. apply (f_equal (take n)) in X. rewrite !take_app_length' in X by (rewrite ?length_take; lia). done.
Qed.

Lemma below_trans p q r : below p q -> below q r -> below p r.
Proof.
  intros (P0 & Q0 & _ & A) (_ & R0 & Rn & B). split; [done|]. split; [done|]. split; [done|].
  destruct A as [->|[->|(x & ->)]]; [by left|exact B|].
  destruct B as [X|[->|(y & ->)]].
  - exfalso. apply (f_equal length) in X. rewrite length_app in X. cbn in X. destruct p; [cbn in P0; unfold get in P0; done|cbn in X; lia].
  - right. right. by exists x.
  - right. right. exists (x ++ 47 :: y). by rewrite <- app_assoc.
Qed.

(** * What a path capability grants *)

(** A capability made under the process's key. *)
Definition genuine (t : tokens) (pc : OoPathCap) : Prop :=
  0 < slen (prefix pc) <= OO_PATH_CAP_MAX_PREFIX /\ (sbytes (prefix pc)).[0] = 47 /\ parent_cap pc <> 0 /\
  mac pc = pathcap_mac_bytes (g_kernel_hmac_key t) (parent_cap pc) (sbytes (prefix pc)).
(** The paths it opens. *)
Definition opens (t : tokens) (pc : OoPathCap) (path : OoStr) : Prop :=
  genuine t pc /\ below (sbytes (prefix pc)) (sbytes path).
Record wf_pathcap (pc : OoPathCap) : Prop := mkWfPathcap {
  wf_prefix : wf_str (prefix pc); wf_mac : bytes (mac pc); wf_mac_length : length (mac pc) = 32%nat }.

Lemma sbytes_nonempty s : wf_str s -> sbytes s <> [] <-> exists d, sdata s = Some d /\ 0 < slen s.
Proof.
  intros [Hz Hw]. unfold sbytes. destruct (sdata s) as [d|]; [|split; [done|by intros (d & ? & _)]].
  destruct Hw as [Hl _]. split.
  - intros H. exists d. split; [done|]. destruct (Z.to_nat (slen s)) eqn:E; [done|lia].
  - intros (d' & _ & H) X. apply (f_equal length) in X. rewrite length_take in X. cbn in X. lia.
Qed.
Lemma below_nonempty p q : below p q -> p <> [] /\ q <> [].
Proof. intros (H & _ & Hq & _). split; [|done]. intros ->. by unfold get in H. Qed.

Lemma nests_below a b : wf_str a -> wf_str b -> oo_path_prefix_nests a b = true <-> below (sbytes a) (sbytes b).
Proof.
  intros Ha Hb. split.
  - intros H. pose proof H as H'. unfold oo_path_prefix_nests in H'. destruct (sdata a) as [p|] eqn:Ep; [|done].
    destruct (sdata b) as [q|] eqn:Eq; [|done]. destruct (Z.leb_spec (slen a) 0); [done|]. destruct (Z.leb_spec (slen b) 0); [done|].
    by apply (nests_spec a b p q).
  - intros H. destruct (below_nonempty _ _ H) as [Na Nb].
    apply sbytes_nonempty in Na as (p & Ep & Lp); [|done]. apply sbytes_nonempty in Nb as (q & Eq & Lq); [|done].
    by apply (nests_spec a b p q).
Qed.

Section paths.
Context {E : Entropy}.

Lemma path_cap_check_spec pc path s t :
  store s = Some t -> wf_pathcap pc -> wf_str path ->
  exists b, oo_path_cap_check pc path s = Ret (b, s) /\ (b = true <-> opens t pc path).
Proof.
  intros Hs [Hw Hb Hl] Hp. unfold oo_path_cap_check, bind at 1. rewrite (oo_caps_init_ready s t Hs). cbn [run_bind].
  unfold opens, genuine.
  assert (No : forall (P : Prop), ~ P -> exists b, ret (S := cstate) false s = Ret (b, s) /\ (b = true <-> P)).
  { intros P HP. exists false. split; [done|]. split; [done|tauto]. }
  destruct (sdata (prefix pc)) as [d|] eqn:Ed; cycle 1.
  { apply No. intros ((_ & H & _) & _). unfold sbytes in H. by rewrite Ed in H. }
  destruct (Z.leb_spec (slen (prefix pc)) 0); cbn [orb]; [apply No; lia|].
  assert (S0 : (sbytes (prefix pc)).[0] = d.[0]) by (unfold sbytes; rewrite Ed; apply get_take; lia). rewrite S0.
  destruct (Z.eqb_spec d.[0] 47) as [E0|]; cbn [negb]; [|apply No; tauto].
  destruct (Z.eqb_spec (parent_cap pc) 0) as [|En]; [apply No; tauto|].
  destruct (Z.ltb_spec OO_PATH_CAP_MAX_PREFIX (slen (prefix pc))) as [|Lx]; [apply No; lia|].
  assert (Sb : take (Z.to_nat (slen (prefix pc))) d = sbytes (prefix pc)) by (unfold sbytes; by rewrite Ed). rewrite Sb.
  rewrite mac_digits_path. set (m := pathcap_mac_bytes _ _ _).
  assert (Hm : bytes m /\ length m = 32%nat) by apply bytes_hmac. rewrite hex_decode_encode by tauto.
  pose proof (crypto_ct_cmp_zero m (mac pc) 32 (proj1 Hm) Hb (proj2 Hm) Hl) as C.
  destruct (Z.eqb_spec (crypto_ct_cmp (Some m) (Some (mac pc)) 32) 0) as [Ez|Ez]; cbn [negb]; cycle 1.
  { apply No. intros ((_ & _ & _ & X) & _). apply Ez, C. by rewrite X. }
  apply C in Ez. destruct (sdata path) as [q|] eqn:Eq; cycle 1.
  { apply No. intros (_ & X). apply below_nonempty in X as [_ X]. unfold sbytes in X. by rewrite Eq in X. }
  destruct (Z.leb_spec (slen path) 0); [apply No; intros (_ & X); apply below_nonempty in X as [_ X];
    apply sbytes_nonempty in X as (? & _ & ?); [lia|done]|].
  eexists. split; [reflexivity|]. rewrite (nests_below (prefix pc) path) by done. split; [|tauto].
  intros B. split; [|done]. do 3 (split; [done || lia|]). done.
Qed.

Lemma fsread_spec cap s t : store s = Some t -> rights_ok s -> gate_spec cap s t (oo_cap_require_fsread, g_tok_fsread, Some g_tok_fs).
Proof. intros Hs Hr. exact (gate2_spec cap s t g_tok_fsread g_tok_fs Hs Hr ltac:(in_tokens) ltac:(in_tokens)). Qed.
Lemma fsread_gate cap s t : store s = Some t -> rights_ok s -> g_test_force_fail s = false ->
  gate_ok cap (g_tok_fsread t) (g_tok_fs t) = true -> oo_cap_require_fsread cap s = Ret (tt, after_check s).
Proof.
  intros Hs Hr Hh Hg. pose proof (fsread_spec cap s t Hs Hr) as G. unfold gate_spec in G. rewrite Hg, Hh in G. exact G.
Qed.

Definition good_prefix (pre : OoStr) : Prop := 0 < slen pre <= OO_PATH_CAP_MAX_PREFIX /\ (sbytes pre).[0] = 47.
(** The capability made from a token and a prefix. *)
Definition made (t : tokens) (cap : Z) (pre : OoStr) : OoPathCap :=
  mkPathCap cap (str_of (sbytes pre)) (pathcap_mac_bytes (g_kernel_hmac_key t) cap (sbytes pre)).

Lemma attenuate_made cap pre s t :
  store s = Some t -> rights_ok s -> g_test_force_fail s = false -> wf_str pre ->
  oo_attenuate_fsread_to_path cap pre s =
    if gate_ok cap (g_tok_fsread t) (g_tok_fs t)
    then if decide (good_prefix pre) then Ret (made t cap pre, after_check s) else Exited 1
    else Exited 1.
Proof.
  intros Hs Hr Hh Hw. unfold oo_attenuate_fsread_to_path, bind at 1. rewrite (oo_caps_init_ready s t Hs). cbn [run_bind].
  unfold bind. destruct (gate_ok cap _ _) eqn:Hg; cycle 1.
  { pose proof (fsread_spec cap s t Hs Hr) as G. unfold gate_spec in G. rewrite Hg in G. rewrite G. reflexivity. }
  rewrite (fsread_gate cap s t Hs Hr Hh Hg). cbn [run_bind].
  assert (No : ~ good_prefix pre -> (if decide (good_prefix pre) then Ret (made t cap pre, after_check s) else Exited 1) = Exited 1)
    by (intros; by rewrite decide_False).
  unfold good_prefix in *. destruct (sdata pre) as [d|] eqn:Ed; cycle 1.
  { rewrite No; [done|]. intros (_ & X). unfold sbytes in X. by rewrite Ed in X. }
  destruct (Z.leb_spec (slen pre) 0); cbn [orb]; [rewrite No; [done|lia]|].
  assert (S0 : (sbytes pre).[0] = d.[0]) by (unfold sbytes; rewrite Ed; apply get_take; lia).
  destruct (Z.eqb_spec d.[0] 47); cbn [negb]; [|rewrite No; [done|rewrite S0; tauto]].
  destruct (Z.ltb_spec OO_PATH_CAP_MAX_PREFIX (slen pre)); [rewrite No; [done|lia]|].
  rewrite decide_True by (rewrite S0; split; [lia|done]).
  assert (Sb : take (Z.to_nat (slen pre)) d = sbytes pre) by (unfold sbytes; by rewrite Ed). rewrite Sb, mac_digits_path.
  unfold made. rewrite hex_decode_encode by apply bytes_hmac. done.
Qed.

Lemma made_wf t cap pre : wf_str pre -> wf_pathcap (made t cap pre).
Proof. intros Hw. split; cbn [made prefix mac]; [apply wf_str_of, bytes_sbytes, Hw|exact (proj1 (bytes_hmac _ _))|exact (proj2 (bytes_hmac _ _))]. Qed.
Lemma made_opens t cap pre path : cap <> 0 -> good_prefix pre -> wf_str pre ->
  opens t (made t cap pre) path <-> below (sbytes pre) (sbytes path).
Proof.
  intros Hc [Hl H0] Hw. unfold opens, genuine. cbn [made prefix parent_cap mac].
  rewrite sbytes_str_of. split; [tauto|]. intros B. split; [|done]. split; [|done]. cbn [slen str_of].
  destruct (below_nonempty _ _ B) as [Ne _]. apply sbytes_nonempty in Ne as (d & Ed & _); [|done].
  rewrite (length_sbytes pre d) by done. lia.
Qed.

(** C5. Who passes the check.  With the process's stores initialised and the
    inputs well formed, [oo_path_cap_check] returns, changing nothing, and
    answers 1 exactly when the capability's MAC is the HMAC under the process
    key of its parent word and prefix, the parent is not 0, the prefix is
    absolute and of at most 4096 bytes, and the path is the prefix or lies
    below it at a directory boundary. *)
Theorem path_cap_check_decides pc path s t :
  store s = Some t -> wf_pathcap pc -> wf_str path ->
  exists b, oo_path_cap_check pc path s = Ret (b, s) /\ (b = true <-> opens t pc path).
Proof. exact (path_cap_check_spec pc path s t). Qed.

(** A capability made by [oo_attenuate_fsread_to_path] passes its own
    check for exactly the paths at or below the prefix it was asked for; the
    call ends the process with status 1 for any word that is not the fsread
    or fs token, and for a prefix that is empty, relative or longer than 4096
    bytes. *)
Theorem path_cap_roundtrip cap pre path s t :
  store s = Some t -> rights_ok s -> g_test_force_fail s = false -> wf_str pre -> wf_str path ->
  (gate_ok cap (g_tok_fsread t) (g_tok_fs t) = true /\ good_prefix pre ->
     exists pc b s', oo_attenuate_fsread_to_path cap pre s = Ret (pc, s') /\
       oo_path_cap_check pc path s' = Ret (b, s') /\ (b = true <-> below (sbytes pre) (sbytes path))) /\
  (~ (gate_ok cap (g_tok_fsread t) (g_tok_fs t) = true /\ good_prefix pre) ->
     oo_attenuate_fsread_to_path cap pre s = Exited 1).
Proof.
  intros Hs Hr Hh Hw Hp. rewrite (attenuate_made cap pre s t) by done. split.
  - intros [Hg Hpre]. rewrite Hg, decide_True by done.
    assert (Hc : cap <> 0) by (intros ->; unfold gate_ok in Hg; discriminate).
    assert (Hs' : store (after_check s) = Some t) by (unfold after_check; by destruct (g_ocap_rights s)).
    destruct (path_cap_check_spec (made t cap pre) path (after_check s) t Hs' (made_wf t cap pre Hw) Hp) as (b & Eb & Hb).
    exists (made t cap pre), b, (after_check s). split; [done|]. split; [done|]. rewrite Hb. by apply made_opens.
  - intros Hno. destruct (gate_ok cap _ _); [|done]. rewrite decide_False; [done|]. tauto.
Qed.

(** C13. Attenuation of a path capability never widens.  Whatever capability
    (genuine or forged) and child prefix are given, if the call returns a
    capability that opens a path, then the parent is genuine and opens that
    path too; from a genuine parent and a child prefix inside it, the result
    opens exactly the paths at or below the child prefix; a parent that fails
    its check, or a child prefix outside it, yields the zero capability, which
    opens nothing. *)
Theorem pathcap_attenuation_monotone parent child pc s s' t :
  store s = Some t -> rights_ok s -> g_test_force_fail s = false -> wf_pathcap parent -> wf_str child ->
  oo_attenuate_pathcap_to_path parent child s = Ret (pc, s') ->
  (forall path, opens t pc path -> opens t parent path) /\
  (genuine t parent /\ below (sbytes (prefix parent)) (sbytes child) -> forall path, opens t pc path <-> below (sbytes child) (sbytes path)) /\
  (~ (genuine t parent /\ below (sbytes (prefix parent)) (sbytes child)) -> pc = empty_pathcap /\ forall path, ~ opens t pc path).
Proof.
  intros Hs Hr Hh Hp Hc Ha. unfold oo_attenuate_pathcap_to_path, bind at 1 in Ha.
  destruct (path_cap_check_spec parent (prefix parent) s t Hs Hp (wf_prefix _ Hp)) as (b & Eb & Hb). rewrite Eb in Ha. cbn [run_bind] in Ha.
  assert (Z0 : forall path, ~ opens t empty_pathcap path) by (intros path [(_ & _ & X & _) _]; exact (X eq_refl)).
  assert (Empty : forall x, Ret (empty_pathcap, s) = Ret (x, s') -> x = empty_pathcap) by congruence.
  assert (Done : ~ (genuine t parent /\ below (sbytes (prefix parent)) (sbytes child)) -> Ret (empty_pathcap, s) = Ret (pc, s') ->
    (forall path, opens t pc path -> opens t parent path) /\
    (genuine t parent /\ below (sbytes (prefix parent)) (sbytes child) -> forall path, opens t pc path <-> below (sbytes child) (sbytes path)) /\
    (~ (genuine t parent /\ below (sbytes (prefix parent)) (sbytes child)) -> pc = empty_pathcap /\ forall path, ~ opens t pc path)).
  { intros No X. apply Empty in X. rewrite X. split; [intros path O; destruct (Z0 path O)|]. split; [intros Y; destruct (No Y)|auto]. }
  destruct b; cbn [negb] in Ha; cycle 1.
  { apply Done; [|exact Ha]. intros [G B]. assert (X : false = true); [|discriminate]. apply Hb. split; [exact G|]. pose proof (below_nonempty _ _ B) as [N _].
    destruct B as (B0 & _). repeat split; [done|done|done|by right; left]. }
  pose proof (proj1 (proj1 Hb eq_refl)) as G. pose proof (nests_below (prefix parent) child (wf_prefix _ Hp) Hc) as NB.
  destruct (oo_path_prefix_nests (prefix parent) child) eqn:N; cbn [negb] in Ha; [|apply Done; [|exact Ha]; intros [_ B]; by apply NB in B].
  pose proof (proj1 NB eq_refl) as B.
  rewrite (attenuate_made _ child s t) in Ha by done.
  destruct (gate_ok _ _ _); [|discriminate Ha]. destruct (decide (good_prefix child)) as [Gc|]; [|discriminate Ha].
  assert (Made : forall (x y : OoPathCap) (u v : cstate), Ret (x, u) = Ret (y, v) -> y = x) by congruence.
  apply Made in Ha. rewrite Ha. pose proof (fun path => made_opens t (parent_cap parent) child path (proj1 (proj2 (proj2 G))) Gc Hc) as O.
  split; [|split; [intros _; exact O|tauto]]. intros path Op. split; [exact G|]. apply O in Op. exact (below_trans _ _ _ B Op).
Qed.
End paths.

(** * Sealed rights *)

Section seals.
Context {E : Entropy}.
Variable external_call : nat -> ST estate unit.

(** The seal: HMAC under the process key of the three texts in a row. *)
Definition seal (t : tokens) (ph pr cr : OoStr) : OoStr :=
  crypto_hmac_sha256_internal (mkStr (Some (g_kernel_hmac_key t)) 32) (str_of (sbytes ph ++ sbytes pr ++ sbytes cr)).

(** Rights only shrink.  [oo_cap_attenuate_v2] seals the child exactly
    when the parent's seal is not empty, both rights parse (hexadecimal, the
    first sixteen characters) and no bit of the child is missing from the
    parent; the event is emitted first, and the seal has 64 digits.  Otherwise
    it returns the empty string and nothing is emitted.
    [oo_cap_attenuate_v2_ok] answers 1 in exactly the same cases. *)
Theorem attenuate_v2_seals ph pr cr s s1 t :
  store (caps s) = Some t -> store (caps s1) = Some t ->
  oo_event_emit external_call (oo_str_lit "cap.attenuate") s = Ret (tt, s1) ->
  (allowed ph pr cr ->
     oo_cap_attenuate_v2 external_call ph pr cr s = Ret (seal t ph pr cr, s1) /\ slen (seal t ph pr cr) = 64 /\
     oo_cap_attenuate_v2_ok ph pr cr (caps s) = Ret (true, caps s)) /\
  (~ allowed ph pr cr ->
     oo_cap_attenuate_v2 external_call ph pr cr s = Ret (cap_empty_str, s) /\
     oo_cap_attenuate_v2_ok ph pr cr (caps s) = Ret (false, caps s)).
Proof.
  intros Hs Hs1 He. unfold oo_cap_attenuate_v2, oo_cap_attenuate_v2_ok. rewrite <- attenuation_allowed_spec.
  assert (L : slen (seal t ph pr cr) = 64) by (unfold seal; rewrite hmac_length by (cbn [slen str_of]; lia); apply slen_hex).
  assert (Mac : forall c, store c = Some t -> cap_mac_v2 ph pr cr c = Ret (seal t ph pr cr, c)).
  { intros c Hc. unfold cap_mac_v2, bind. rewrite (oo_caps_init_ready c t Hc). reflexivity. }
  split; intros A.
  - rewrite A. cbn [negb]. split; [|split; [exact L|]].
    + unfold bind. rewrite He. cbn [run_bind]. unfold on_caps, lift. rewrite (Mac (caps s1) Hs1). cbn [run_bind]. by destruct s1.
    + unfold bind. rewrite (Mac (caps s) Hs). cbn [run_bind]. by rewrite L.
  - apply not_true_is_false in A. rewrite A. split; reflexivity.
Qed.

(** The seal does not say where the parent's rights end and the child's
    begin: the texts are hashed in a row with no separator.  Whatever the
    parent's seal, the child right f0 under the parent rights ff and the
    child right 0 under the parent rights fff get the same seal. *)
Theorem attenuate_seal_is_ambiguous ph s :
  oo_cap_attenuate_v2 external_call ph (oo_str_lit "ff") (oo_str_lit "f0") s =
  oo_cap_attenuate_v2 external_call ph (oo_str_lit "fff") (oo_str_lit "0") s.
Proof.
  unfold oo_cap_attenuate_v2.
  assert (A : attenuation_allowed ph (oo_str_lit "ff") (oo_str_lit "f0") = attenuation_allowed ph (oo_str_lit "fff") (oo_str_lit "0")).
  { unfold attenuation_allowed. destruct (sdata ph); [|reflexivity]. destruct (slen ph <=? 0); reflexivity. }
  rewrite A. destruct (attenuation_allowed _ _ _); reflexivity.
Qed.
End seals.

(** * Witnesses *)

Definition wit_fsread : Z := Eval vm_compute in g_tok_fsread wit_tokens.
Lemma path_cap_check_decides_witness :
  exists b, @oo_path_cap_check wit_entropy empty_pathcap (oo_str_lit "/tmp") wit_granted = Ret (b, wit_granted) /\
    (b = true <-> opens wit_tokens empty_pathcap (oo_str_lit "/tmp")).
Proof.
  apply (@path_cap_check_decides wit_entropy empty_pathcap (oo_str_lit "/tmp") wit_granted wit_tokens).
  - reflexivity.
  - split; [split; [cbn; lia|exact I]|apply bytes_zeros|reflexivity].
  - apply wf_str_of, bytesb_ok. reflexivity.
Defined.
Lemma path_cap_roundtrip_witness : exists pc b s',
  @oo_attenuate_fsread_to_path wit_entropy wit_fsread (oo_str_lit "/srv") wit_granted = Ret (pc, s') /\
  @oo_path_cap_check wit_entropy pc (oo_str_lit "/srv/a") s' = Ret (b, s') /\
  (b = true <-> below (sbytes (oo_str_lit "/srv")) (sbytes (oo_str_lit "/srv/a"))).
Proof.
  refine (proj1 (@path_cap_roundtrip wit_entropy wit_fsread (oo_str_lit "/srv") (oo_str_lit "/srv/a") wit_granted wit_tokens _ _ _ _ _) _).
  - reflexivity.
  - by left.
  - reflexivity.
  - apply wf_str_of, bytesb_ok. reflexivity.
  - apply wf_str_of, bytesb_ok. reflexivity.
  - split; [reflexivity|]. split; [split; reflexivity || discriminate|reflexivity].
Defined.
(** From a genuine capability for /srv: one for /srv/a opens /srv/a/b and not
    /srv/b, and /srv/a/b was open to the parent; none is made for /etc. *)
Definition wit_parent : OoPathCap := made wit_tokens wit_fsread (oo_str_lit "/srv").
Definition wit_child : OoPathCap := made wit_tokens wit_fsread (oo_str_lit "/srv/a").
Lemma wit_lit_wf s : bytesb (ascii_bytes s) = true -> wf_str (oo_str_lit s).
Proof. intros H. by apply wf_str_of, bytesb_ok. Qed.
Lemma wit_genuine : genuine wit_tokens wit_parent.
Proof. apply (made_opens wit_tokens wit_fsread (oo_str_lit "/srv") (oo_str_lit "/srv")); [done|by split|by apply wit_lit_wf|]. repeat split; [done|by right; left]. Qed.
Lemma wit_attenuates child : wf_str child -> @oo_attenuate_pathcap_to_path wit_entropy wit_parent child wit_granted =
  if oo_path_prefix_nests (prefix wit_parent) child then @oo_attenuate_fsread_to_path wit_entropy wit_fsread child wit_granted else Ret (empty_pathcap, wit_granted).
Proof.
  intros W. pose proof (made_wf wit_tokens wit_fsread (oo_str_lit "/srv") (wit_lit_wf "/srv" eq_refl)) as Wp. fold wit_parent in Wp.
  unfold oo_attenuate_pathcap_to_path, bind. destruct (@path_cap_check_spec wit_entropy wit_parent (prefix wit_parent) wit_granted wit_tokens eq_refl Wp (wf_prefix _ Wp)) as (b & Eb & Hb).
  assert (b = true) as ->. { apply Hb. split; [exact wit_genuine|]. repeat split; [discriminate|by right; left]. }
  rewrite Eb. cbn [run_bind negb]. by destruct (oo_path_prefix_nests _ _).
Qed.
Lemma pathcap_attenuation_monotone_witness :
  @oo_attenuate_pathcap_to_path wit_entropy wit_parent (oo_str_lit "/srv/a") wit_granted = Ret (wit_child, after_check wit_granted) /\
  opens wit_tokens wit_child (oo_str_lit "/srv/a/b") /\ ~ opens wit_tokens wit_child (oo_str_lit "/srv/b") /\ opens wit_tokens wit_parent (oo_str_lit "/srv/a/b") /\
  @oo_attenuate_pathcap_to_path wit_entropy wit_parent (oo_str_lit "/etc") wit_granted = Ret (empty_pathcap, wit_granted).
Proof.
  pose proof (made_wf wit_tokens wit_fsread (oo_str_lit "/srv") (wit_lit_wf "/srv" eq_refl)) as Wp.
  assert (R : @oo_attenuate_pathcap_to_path wit_entropy wit_parent (oo_str_lit "/srv/a") wit_granted = Ret (wit_child, after_check wit_granted)).
  { rewrite wit_attenuates by (by apply wit_lit_wf). change (oo_path_prefix_nests _ _) with true. cbn iota.
    rewrite (attenuate_made wit_fsread _ wit_granted wit_tokens) by (done || by left || by apply wit_lit_wf). 
    change (gate_ok _ _ _) with true. cbn iota. by rewrite decide_True by (by split). }
  assert (B : below (sbytes (prefix wit_parent)) (sbytes (oo_str_lit "/srv/a"))).
  { apply nests_below; [exact (wf_prefix _ Wp)|by apply wit_lit_wf|reflexivity]. }
  destruct (@pathcap_attenuation_monotone wit_entropy wit_parent (oo_str_lit "/srv/a") wit_child wit_granted _ wit_tokens eq_refl (or_introl eq_refl) eq_refl Wp (wit_lit_wf "/srv/a" eq_refl) R) as (M & X & _).
  specialize (X (conj wit_genuine B)). assert (O : opens wit_tokens wit_child (oo_str_lit "/srv/a/b")).
  { apply X, nests_below; [by apply wit_lit_wf|by apply wit_lit_wf|reflexivity]. }
  split; [exact R|]. split; [exact O|]. split; [|split; [exact (M _ O)|]].
  - intros Y. apply X, nests_below in Y; [discriminate Y|by apply wit_lit_wf|by apply wit_lit_wf].
  - rewrite wit_attenuates by (by apply wit_lit_wf). change (oo_path_prefix_nests _ _) with false. reflexivity.
Defined.
Definition wit_subscribed : estate := wit_metrics.
Definition wit_emitted : estate := Eval vm_compute in
  match @oo_event_emit wit_entropy (fun _ => ret tt) (oo_str_lit "cap.attenuate") wit_subscribed with Ret (_, s) => s | _ => estart end.
Definition wit_metrics_tokens : tokens := Eval vm_compute in match store (caps wit_subscribed) with Some t => t | None => derive_tokens [] [] end.
Lemma attenuate_v2_seals_witness :
  @oo_cap_attenuate_v2 wit_entropy (fun _ => ret tt) (oo_str_lit "p") (oo_str_lit "7") (oo_str_lit "9") wit_subscribed = Ret (cap_empty_str, wit_subscribed).
Proof.
  refine (proj1 (proj2 (@attenuate_v2_seals wit_entropy (fun _ => ret tt) (oo_str_lit "p") (oo_str_lit "7") (oo_str_lit "9")
    wit_subscribed wit_emitted wit_metrics_tokens _ _ _) _)).
  - reflexivity.
  - reflexivity.
  - vm_compute. reflexivity.
  - rewrite <- attenuation_allowed_spec. vm_compute. discriminate.
Defined.
