(* ===== verification/Landlock.v ===== *)
(** Filesystem confinement ([sec/landlock/landlock/landlock.c],
    [landlock_restrict.c]): the walk over a colon-separated path list, the
    access bits, and the branches of [oo_landlock_restrict].

    The kernel is a parameter: an [ll_kernel] holds its answers during one
    call, and the rulesets it enforces for the process are part of the state. *)
From S2P Require Import Prelude Str Caps.
From Stdlib Require String.
Import (notations) String.
Open Scope Z_scope.

(** A result with an [ERR] text: the word ERR, the area and the message,
    separated by tabs. *)
Definition oo_err (area msg : String.string) : OoResS :=
  mkResS false (str_of (ascii_bytes "ERR" ++ [9] ++ ascii_bytes area ++ [9] ++ ascii_bytes msg)).
Definition oo_ok (msg : String.string) : OoResS := mkResS true (oo_str_lit msg).
#[global] Arguments oo_err (area msg)%_string_scope.
#[global] Arguments oo_ok msg%_string_scope.
Definition ll_err (msg : String.string) : OoResS := oo_err "landlock" msg.
#[global] Arguments ll_err msg%_string_scope.

(** * Path lists

    [sand_validate_paths] of [sandbox_config.c] and [ll_each_dir] walk the
    list in the same way; the second calls a function on each entry. *)

Definition PATH_MAX : Z := 4096.

(** The end of the entry that starts before [i]: the next colon or the end
    of the list; [None] at a NUL. *)
Fixpoint entry_end (fuel : nat) (p : list Z) (n i : nat) : option nat :=
  match fuel with
  | O => Some i
  | S fuel =>
      if (i <? n)%nat && negb (p.[i] =? 58) then if p.[i] =? 0 then None else entry_end fuel p n (S i) else Some i
  end.

Section walk.
Context {St : Type}.
Variable max_len : Z.
Variable fn : list Z -> St -> option St.

(** Result code, number of entries, and the callee's state. *)
Fixpoint walk_dirs (fuel : nat) (p : list Z) (n i : nat) (count : Z) (st : St) : Z * Z * St :=
  match fuel with
  | O => (0, count, st)
  | S fuel =>
      if (n <? i)%nat then (0, count, st)
      else
        match entry_end (n - i) p n i with
        | None => (-1, count, st)
        | Some j =>
            let next count st := if (n <=? j)%nat then (0, count, st) else walk_dirs fuel p n (S j) count st in
            if (j <=? i)%nat then next count st
            else if max_len <=? Z.of_nat (j - i) then (-2, count, st)
            else if negb (p.[i] =? 47) then (-3, count, st)
            else match fn (slice i (j - i) p) st with
                 | None => (-4, count, st)
                 | Some st => next (count + 1) st
                 end
        end
  end.
End walk.

(** The length the walk uses: 0 for a NULL pointer or a negative length. *)
Definition dirs_len (dirs : OoStr) : nat := match sdata dirs with None => 0 | Some _ => Z.to_nat (slen dirs) end.
Definition dirs_bytes (dirs : OoStr) : list Z := from_option id [] (sdata dirs).

Definition ll_each_dir {St} (dirs : OoStr) (fn : list Z -> St -> option St) (st : St) : Z * Z * St :=
  walk_dirs PATH_MAX fn (S (dirs_len dirs)) (dirs_bytes dirs) (dirs_len dirs) 0 0 st.
Definition ll_count_dirs (dirs : OoStr) : Z * Z := fst (ll_each_dir dirs (fun _ st => Some st) tt).
Definition sand_validate_paths (dirs : OoStr) : Z * Z :=
  fst (walk_dirs 4096 (fun _ st => Some st) (S (dirs_len dirs)) (dirs_bytes dirs) (dirs_len dirs) 0 0 tt).

(** * Access rights *)

Definition LL_FS_EXECUTE : Z := Z.shiftl 1 0.
Definition LL_FS_WRITE_FILE : Z := Z.shiftl 1 1.
Definition LL_FS_READ_FILE : Z := Z.shiftl 1 2.
Definition LL_FS_READ_DIR : Z := Z.shiftl 1 3.
Definition LL_FS_REMOVE_DIR : Z := Z.shiftl 1 4.
Definition LL_FS_REMOVE_FILE : Z := Z.shiftl 1 5.
Definition LL_FS_MAKE_CHAR : Z := Z.shiftl 1 6.
Definition LL_FS_MAKE_DIR : Z := Z.shiftl 1 7.
Definition LL_FS_MAKE_REG : Z := Z.shiftl 1 8.
Definition LL_FS_MAKE_SOCK : Z := Z.shiftl 1 9.
Definition LL_FS_MAKE_FIFO : Z := Z.shiftl 1 10.
Definition LL_FS_MAKE_BLOCK : Z := Z.shiftl 1 11.
Definition LL_FS_MAKE_SYM : Z := Z.shiftl 1 12.
Definition LL_FS_REFER : Z := Z.shiftl 1 13.
Definition LL_FS_TRUNCATE : Z := Z.shiftl 1 14.
Definition LL_FS_IOCTL_DEV : Z := Z.shiftl 1 15.
Definition bits (l : list Z) : Z := foldl Z.lor 0 l.
Definition LL_FS_ABI1 : Z := bits
  [LL_FS_EXECUTE; LL_FS_WRITE_FILE; LL_FS_READ_FILE; LL_FS_READ_DIR; LL_FS_REMOVE_DIR; LL_FS_REMOVE_FILE;
   LL_FS_MAKE_CHAR; LL_FS_MAKE_DIR; LL_FS_MAKE_REG; LL_FS_MAKE_SOCK; LL_FS_MAKE_FIFO; LL_FS_MAKE_BLOCK; LL_FS_MAKE_SYM].
Definition LL_MAX_DIRS : Z := 64.

Definition ll_handled_fs (abi : Z) : Z :=
  let a := LL_FS_ABI1 in
  let a := if 2 <=? abi then Z.lor a LL_FS_REFER else a in
  let a := if 3 <=? abi then Z.lor a LL_FS_TRUNCATE else a in
  if 5 <=? abi then Z.lor a LL_FS_IOCTL_DEV else a.
Definition ll_read_bits : Z := bits [LL_FS_EXECUTE; LL_FS_READ_FILE; LL_FS_READ_DIR].
Definition ll_write_bits (abi : Z) : Z :=
  let a := bits [LL_FS_WRITE_FILE; LL_FS_REMOVE_DIR; LL_FS_REMOVE_FILE; LL_FS_MAKE_CHAR; LL_FS_MAKE_DIR;
                 LL_FS_MAKE_REG; LL_FS_MAKE_SOCK; LL_FS_MAKE_FIFO; LL_FS_MAKE_BLOCK; LL_FS_MAKE_SYM] in
  let a := Z.lor a ll_read_bits in
  let a := if 2 <=? abi then Z.lor a LL_FS_REFER else a in
  if 3 <=? abi then Z.lor a LL_FS_TRUNCATE else a.
(** Rights that mean nothing on a file. *)
Definition ll_dir_only : Z := bits
  [LL_FS_READ_DIR; LL_FS_REMOVE_DIR; LL_FS_REMOVE_FILE; LL_FS_MAKE_CHAR; LL_FS_MAKE_DIR; LL_FS_MAKE_REG;
   LL_FS_MAKE_SOCK; LL_FS_MAKE_FIFO; LL_FS_MAKE_BLOCK; LL_FS_MAKE_SYM; LL_FS_REFER].

(** * Rulesets *)

(** What [open (O_PATH)] and [fstat] find: a directory, a device, another
    file; or the [fstat] fails. *)
Inductive fkind := KDir | KDevice | KFile | KStatFails.
(** The kernel's answers during one call. *)
Record ll_kernel := mkKernel {
  k_has_landlock : bool;                   (* the call numbers are known *)
  k_version : Z;                           (* the version query *)
  k_cmdline : option (list Z);             (* what the read of /proc/self/cmdline gives *)
  k_create_ruleset : bool;
  k_open : list Z -> option fkind;
  k_add_rule : list Z -> Z -> bool;
  k_no_new_privs : bool;
  k_restrict_self : bool }.

Record ll_rule := mkRule { r_path : list Z; r_access : Z }.
(** A ruleset the process is restricted by. *)
Record ll_layer := mkLayer { handled_access_fs : Z; rules : list ll_rule }.
Record llstate := mkLl { ll_caps : cstate; g_ll_applied : bool; layers : list ll_layer }.
Definition ll_with_caps (c : cstate) (s : llstate) : llstate := mkLl c (g_ll_applied s) (layers s).

Definition ll_abi_version (k : ll_kernel) : Z := if k_has_landlock k then if k_version k <? 1 then 0 else k_version k else 0.
Definition oo_landlock_is_available (k : ll_kernel) : bool := 0 <? ll_abi_version k.
Definition oo_landlock_is_applied (s : llstate) : bool := g_ll_applied s.
(** [landlock_restrict_self] has succeeded with this ruleset. *)
Definition oo_landlock_mark_applied (l : ll_layer) (s : llstate) : llstate := mkLl (ll_caps s) true (layers s ++ [l]).

(** The rights a rule on [kind] carries. *)
Definition ll_rule_access (abi access : Z) (kind : fkind) : Z :=
  let file := Z.land access (Z.lnot ll_dir_only) in
  match kind with
  | KDir | KStatFails => access
  | KFile => file
  | KDevice => let a := Z.lor file LL_FS_WRITE_FILE in if 5 <=? abi then Z.lor a LL_FS_IOCTL_DEV else a
  end.
Definition ll_add_one (k : ll_kernel) (abi access : Z) (path : list Z) (rs : list ll_rule) : option (list ll_rule) :=
  match k_open k path with
  | None => None
  | Some kind =>
      let allowed := ll_rule_access abi access kind in
      if k_add_rule k path allowed then Some (rs ++ [mkRule path allowed]) else None
  end.

(** The second word of the command line is update or upgrade.  [buf] is what
    one read of at most 511 bytes gave. *)
Definition ll_update_word (buf : list Z) : bool :=
  let fix skip (l : list Z) : option (list Z) :=
    match l with [] => None | c :: l => if c =? 0 then Some l else skip l end in
  match skip buf with
  | None => false
  | Some [] => false
  | Some rest =>
      let fix word (l : list Z) : list Z := match l with [] => [] | c :: l => if c =? 0 then [] else c :: word l end in
      bool_decide (word rest = ascii_bytes "update") || bool_decide (word rest = ascii_bytes "upgrade")
  end.
Definition ll_is_update_cmd (k : ll_kernel) : bool :=
  match k_cmdline k with None => false | Some buf => ll_update_word (take 511 buf) end.

Section restrict.
Context {E : Entropy}.

(** The rules of one list; the walk stops at the first entry that fails. *)
Definition ll_add_dirs (k : ll_kernel) (abi access : Z) (n : Z) (dirs : OoStr) (rs : list ll_rule) : option (list ll_rule) :=
  if 0 <? n then
    let '(rc, _, rs) := ll_each_dir dirs (ll_add_one k abi access) rs in if rc =? 0 then Some rs else None
  else Some rs.

Definition oo_landlock_restrict (k : ll_kernel) (cap : Z) (read_dirs write_dirs : OoStr) : ST llstate OoResS :=
  let! _ := lift ll_caps ll_with_caps (oo_cap_require_sys cap) in
  if ll_is_update_cmd k then ret (oo_ok "OK_LANDLOCK_UPDATE_BYPASS")
  else
    let '(pr, nread) := ll_count_dirs read_dirs in
    let '(pw, nwrite) := ll_count_dirs write_dirs in
    if (pr =? -3) || (pw =? -3) then ret (ll_err "path not absolute")
    else if (pr =? -2) || (pw =? -2) then ret (ll_err "path too long")
    else if (pr =? -1) || (pw =? -1) then ret (ll_err "embedded NUL in path")
    else if negb (pr =? 0) || negb (pw =? 0) then ret (ll_err "invalid path list")
    else if LL_MAX_DIRS <? nread + nwrite then ret (ll_err "too many paths")
    else if negb (k_has_landlock k) then ret (ll_err "not_supported_on_this_kernel")
    else
      let abi := ll_abi_version k in
      if abi <? 1 then ret (ll_err "not_supported_on_this_kernel")
      else
        let handled := ll_handled_fs abi in
        if negb (k_create_ruleset k) then ret (ll_err "create_ruleset failed")
        else
          match ll_add_dirs k abi (Z.land ll_read_bits handled) nread read_dirs [] with
          | None => ret (ll_err "add_rule read path failed")
          | Some rs =>
              match ll_add_dirs k abi (Z.land (ll_write_bits abi) handled) nwrite write_dirs rs with
              | None => ret (ll_err "add_rule write path failed")
              | Some rs =>
                  if negb (k_no_new_privs k) then ret (ll_err "failed to set PR_SET_NO_NEW_PRIVS")
                  else if negb (k_restrict_self k) then ret (ll_err "restrict_self failed")
                  else
                    let! _ := set_state (oo_landlock_mark_applied (mkLayer handled rs)) in
                    ret (oo_ok "OK_LANDLOCK_ENFORCED")
              end
          end.
End restrict.

(** * Path lists, as a reference *)

Module PathList.
Fixpoint split_colon (l : list Z) : list (list Z) :=
  match l with
  | [] => [[]]
  | c :: l =>
      if c =? 58 then [] :: split_colon l
      else match split_colon l with [] => [[c]] | e :: es => (c :: e) :: es end
  end.
Section each.
Context {St : Type}.
Variable max_len : Z.
Variable fn : list Z -> St -> option St.
(** Entries in order; empty ones are skipped, the first bad one stops. *)
Fixpoint each (es : list (list Z)) (count : Z) (st : St) : Z * Z * St :=
  match es with
  | [] => (0, count, st)
  | e :: es =>
      if existsb (Z.eqb 0) e then (-1, count, st)
      else if bool_decide (e = []) then each es count st
      else if max_len <=? Z.of_nat (length e) then (-2, count, st)
      else if negb (e.[0] =? 47) then (-3, count, st)
      else match fn e st with None => (-4, count, st) | Some st => each es (count + 1) st end
  end.
End each.
(** The entries of a list. *)
Definition entries (l : list Z) : list (list Z) := List.filter (fun e => negb (bool_decide (e = []))) (split_colon l).
End PathList.
Import PathList.

Lemma split_colon_one e : ~ In 58 e -> split_colon e = [e].
Proof.
  induction e as [|c e IH]; intros H; [done|]. cbn [split_colon]. destruct (Z.eqb_spec c 58) as [->|]; [exfalso; apply H; by left|].
  rewrite IH; [done|]. intros X. apply H. by right.
Qed.
Lemma split_colon_app e r : ~ In 58 e -> split_colon (e ++ 58 :: r) = e :: split_colon r.
Proof.
  induction e as [|c e IH]; intros H; [done|]. cbn [app split_colon]. destruct (Z.eqb_spec c 58) as [->|]; [exfalso; apply H; by left|].
  rewrite IH; [done|]. intros X. apply H. by right.
Qed.
Lemma split_colon_nul a b : ~ In 58 a -> exists e r, split_colon (a ++ 0 :: b) = e :: r /\ In 0 e.
Proof.
  induction a as [|c a IH]; intros H; cbn [app split_colon].
  - cbn. destruct (split_colon b) as [|e r]; eexists; eexists; (split; [reflexivity|by left]).
  - destruct (Z.eqb_spec c 58) as [->|]; [exfalso; apply H; by left|].
    destruct IH as (e & r & -> & Hin); [intros X; apply H; by right|]. exists (c :: e), r. split; [done|by right].
Qed.

Lemma slice_S (p : list Z) i m : (i < length p)%nat -> slice i (S m) p = p.[i] :: slice (S i) m p.
Proof.
  intros Hi. unfold slice. destruct (drop i p) as [|x r] eqn:D; [apply (f_equal length) in D; rewrite length_drop in D; cbn in D; lia|].
  pose proof (get_drop i p 0) as G. rewrite D, Nat.add_0_r in G. unfold get in G at 1. cbn in G. rewrite <- G. cbn [take]. f_equal.
  replace (S i) with (i + 1)%nat by lia. by rewrite <- drop_drop, D.
Qed.

Lemma entry_end_spec p n : (n <= length p)%nat -> forall m i, (m = n - i)%nat -> (i <= n)%nat ->
  match entry_end m p n i with
  | Some j => (i <= j <= n)%nat /\ ~ In 58 (slice i (j - i) p) /\ ~ In 0 (slice i (j - i) p) /\ (j = n \/ p.[j] = 58)
  | None => exists j, (i <= j < n)%nat /\ ~ In 58 (slice i (j - i) p) /\ p.[j] = 0
  end.
Proof.
  intros Hn. induction m as [|m IH]; intros i Hm Hi; cbn [entry_end].
  - rewrite Nat.sub_diag. cbn. split; [lia|]. split; [tauto|]. split; [tauto|]. left. lia.
  - destruct (Nat.ltb_spec i n) as [L|L]; [|lia]. cbn [andb]. destruct (Z.eqb_spec p.[i] 58) as [C|C]; cbn [negb].
    + rewrite Nat.sub_diag. cbn. split; [lia|]. split; [tauto|]. split; [tauto|by right].
    + destruct (Z.eqb_spec p.[i] 0) as [Z0|Z0]; [exists i; rewrite Nat.sub_diag; cbn; split; [lia|]; split; [tauto|done]|].
      specialize (IH (S i) ltac:(lia) ltac:(lia)).
      assert (Ext : forall j v, (S i <= j)%nat -> v <> p.[i] -> ~ In v (slice (S i) (j - S i) p) -> ~ In v (slice i (j - i) p)).
      { intros j v Hj Hv Hnin. replace (j - i)%nat with (S (j - S i)) by lia. rewrite slice_S by lia. cbn. intros [X|X]; [by apply Hv|by apply Hnin]. }
      destruct (entry_end m p n (S i)) as [j|].
      * destruct IH as (H1 & H2 & H3 & H4). split; [lia|]. split; [apply Ext; [lia|congruence|done]|]. split; [apply Ext; [lia|congruence|done]|done].
      * destruct IH as (j & H1 & H2 & H3). exists j. split; [lia|]. split; [apply Ext; [lia|congruence|done]|done].
Qed.

Lemma slice_split (p : list Z) i j n : (i <= j <= n)%nat -> (n <= length p)%nat ->
  slice i (n - i) p = slice i (j - i) p ++ slice j (n - j) p.
Proof.
  intros H Hn. unfold slice. rewrite <- (take_drop (j - i) (take (n - i) (drop i p))). rewrite take_take, skipn_firstn_comm, drop_drop.
  replace ((j - i) `min` (n - i))%nat with (j - i)%nat by lia. replace (i + (j - i))%nat with j by lia.
  by replace (n - i - (j - i))%nat with (n - j)%nat by lia.
Qed.

Lemma existsb_zero e : existsb (Z.eqb 0) e = true <-> In 0 e.
Proof. rewrite existsb_exists. split; [intros (x & Hx & E)|intros H; exists 0; done]. apply Z.eqb_eq in E. by subst. Qed.

(** The walk is the reference, and [fuel] above the remaining length is
    enough: the loop of the code ends. *)
Lemma walk_dirs_each {St} max_len (fn : list Z -> St -> option St) p n : (n <= length p)%nat ->
  forall fuel i count st, (n - i < fuel)%nat -> (i <= n)%nat ->
  walk_dirs max_len fn fuel p n i count st = each max_len fn (split_colon (slice i (n - i) p)) count st.
Proof.
  intros Hn. induction fuel as [|fuel IH]; intros i count st Hf Hi; [lia|]. cbn [walk_dirs].
  destruct (Nat.ltb_spec n i); [lia|]. pose proof (entry_end_spec p n Hn (n - i) i eq_refl Hi) as X.
  destruct (entry_end (n - i) p n i) as [j|]; cycle 1.
  - destruct X as (j & Hj & H58 & H0). rewrite (slice_split p i j n) by lia.
    replace (n - j)%nat with (S (n - S j)) by lia. rewrite slice_S, H0 by lia.
    destruct (split_colon_nul (slice i (j - i) p) (slice (S j) (n - S j) p) H58) as (e & r & -> & Hin). cbn [each].
    by rewrite (proj2 (existsb_zero e) Hin).
  - destruct X as (Hj & H58 & H0 & Hend).
    set (next := fun count st => if (n <=? j)%nat then (0, count, st) else walk_dirs max_len fn fuel p n (S j) count st).
    assert (Hs : exists rest, split_colon (slice i (n - i) p) = slice i (j - i) p :: rest /\
      forall count st, next count st = each max_len fn rest count st).
    { rewrite (slice_split p i j n) by lia. unfold next. destruct (Nat.leb_spec n j) as [L|L].
      - replace (n - j)%nat with 0%nat by lia. unfold slice at 2. cbn [take]. rewrite app_nil_r, split_colon_one by done. exists []. done.
      - destruct Hend as [X|X]; [lia|]. replace (n - j)%nat with (S (n - S j)) by lia. rewrite slice_S, X by lia.
        rewrite split_colon_app by done. eexists. split; [reflexivity|]. intros. apply IH; lia. }
    destruct Hs as (rest & -> & Hnext). cbn [each]. fold next.
    assert (L : length (slice i (j - i) p) = (j - i)%nat) by (apply length_slice; lia).
    destruct (existsb (Z.eqb 0) (slice i (j - i) p)) eqn:Ez; [by apply existsb_zero in Ez|].
    destruct (Nat.leb_spec j i) as [Lj|Lj].
    + rewrite bool_decide_true by (apply length_zero_iff_nil; lia). apply Hnext.
    + rewrite bool_decide_false by (intros Y; rewrite Y in L; cbn in L; lia). rewrite L.
      destruct (max_len <=? Z.of_nat (j - i)); [done|]. rewrite get_slice, Nat.add_0_r by lia.
      destruct (negb (p.[i] =? 47)); [done|]. destruct (fn _ st); [apply Hnext|done].
Qed.

Lemma dirs_walk {St} max_len (fn : list Z -> St -> option St) dirs st : wf_str dirs ->
  walk_dirs max_len fn (S (dirs_len dirs)) (dirs_bytes dirs) (dirs_len dirs) 0 0 st =
  each max_len fn (split_colon (sbytes dirs)) 0 st.
Proof.
  intros [Hz Hw]. unfold dirs_len, dirs_bytes, sbytes. destruct (sdata dirs) as [d|]; [|reflexivity]. destruct Hw as [Hl _].
  rewrite walk_dirs_each by (cbn; lia). cbn [from_option id]. unfold slice. by rewrite Nat.sub_0_r, drop_0.
Qed.

(** An entry the walk accepts. *)
Definition good_entry (max_len : Z) (e : list Z) : Prop := ~ In 0 e /\ Z.of_nat (length e) < max_len /\ e.[0] = 47.
Definition nonempty (es : list (list Z)) : list (list Z) := List.filter (fun e => negb (bool_decide (e = []))) es.

Lemma each_zero {St} max_len (fn : list Z -> St -> option St) es count st c st' :
  each max_len fn es count st = (0, c, st') ->
  Forall (good_entry max_len) (nonempty es) /\ c = count + Z.of_nat (length (nonempty es)).
Proof.
  unfold nonempty. revert count st. induction es as [|e es IH]; intros count st; cbn [each List.filter]; [intros [= <- <-]; cbn; split; [constructor|lia]|].
  destruct (existsb (Z.eqb 0) e) eqn:E0; [done|]. assert (N0 : ~ In 0 e) by (rewrite <- existsb_zero; congruence).
  destruct (bool_decide (e = [])); cbn [negb]; [apply IH|].
  destruct (Z.leb_spec max_len (Z.of_nat (length e))) as [|L]; [done|]. destruct (Z.eqb_spec e.[0] 47) as [S|]; cbn [negb]; [|done].
  destruct (fn e st) as [st1|]; [|done]. intros H. apply IH in H as [H1 H2]. cbn [length]. split; [constructor; [by split|done]|lia].
Qed.
Lemma each_trivial max_len es count :
  Forall (good_entry max_len) (nonempty es) ->
  each max_len (fun _ (st : unit) => Some st) es count tt = (0, count + Z.of_nat (length (nonempty es)), tt).
Proof.
  unfold nonempty. revert count. induction es as [|e es IH]; intros count H; cbn [each List.filter] in *; [cbn; f_equal; f_equal; lia|].
  destruct (bool_decide (e = [])) eqn:B; cbn [negb] in H |- *.
  - apply bool_decide_eq_true in B. subst. by apply IH.
  - apply Forall_cons_1 in H as [(H0 & Hl & Hs) H]. destruct (existsb (Z.eqb 0) e) eqn:E0; [by apply existsb_zero in E0|].
    destruct (Z.leb_spec max_len (Z.of_nat (length e))); [lia|]. rewrite Hs. cbn [Z.eqb Pos.eqb negb]. rewrite IH by done.
    cbn [length]. f_equal; f_equal. lia.
Qed.

Lemma count_dirs_spec dirs : wf_str dirs ->
  ll_count_dirs dirs = fst (each PATH_MAX (fun _ (st : unit) => Some st) (split_colon (sbytes dirs)) 0 tt).
Proof. intros Hw. unfold ll_count_dirs, ll_each_dir. by rewrite dirs_walk. Qed.

Lemma count_dirs_zero dirs : wf_str dirs ->
  fst (ll_count_dirs dirs) = 0 <-> Forall (good_entry PATH_MAX) (entries (sbytes dirs)).
Proof.
  intros Hw. rewrite count_dirs_spec by done. change (entries (sbytes dirs)) with (nonempty (split_colon (sbytes dirs))). split.
  - destruct (each _ _ _ _ _) as [[rc c] st] eqn:Ee. cbn. intros ->. by apply each_zero in Ee as [H _].
  - intros H. by rewrite each_trivial.
Qed.
Lemma count_dirs_number dirs : wf_str dirs -> fst (ll_count_dirs dirs) = 0 ->
  snd (ll_count_dirs dirs) = Z.of_nat (length (entries (sbytes dirs))).
Proof.
  intros Hw H. apply count_dirs_zero in H; [|done]. rewrite count_dirs_spec by done.
  change (entries (sbytes dirs)) with (nonempty (split_colon (sbytes dirs))) in *. rewrite each_trivial by done. cbn. lia.
Qed.

(** Path lists.  On a well-formed string the two walks agree, end, and
    accept exactly the lists whose non-empty entries (the pieces between
    colons) are absolute, shorter than 4096 bytes and free of NUL; the count
    is then the number of non-empty entries.  NULL and the empty list are
    accepted with no entry. *)
Theorem path_lists_validated dirs :
  wf_str dirs ->
  sand_validate_paths dirs = ll_count_dirs dirs /\
  (fst (ll_count_dirs dirs) = 0 <-> Forall (good_entry PATH_MAX) (entries (sbytes dirs))) /\
  (fst (ll_count_dirs dirs) = 0 -> snd (ll_count_dirs dirs) = Z.of_nat (length (entries (sbytes dirs)))).
Proof.
  intros Hw. split; [|split; [by apply count_dirs_zero|by apply count_dirs_number]].
  unfold sand_validate_paths, ll_count_dirs, ll_each_dir. reflexivity.
Qed.
Lemma path_lists_validated_witness :
  fst (ll_count_dirs (oo_str_lit "/usr::/tmp:")) = 0 /\ snd (ll_count_dirs (oo_str_lit "/usr::/tmp:")) = 2.
Proof.
  assert (Hw : wf_str (oo_str_lit "/usr::/tmp:")) by (apply wf_str_of, bytesb_ok; reflexivity).
  destruct (path_lists_validated (oo_str_lit "/usr::/tmp:") Hw) as (_ & _ & H). split; [reflexivity|].
  rewrite (H eq_refl). reflexivity.
Defined.

(** * Rules *)

Definition rule_of (k : ll_kernel) (abi access : Z) (es : list (list Z)) (r : ll_rule) : Prop :=
  exists kind, In (r_path r) es /\ k_open k (r_path r) = Some kind /\ r_access r = ll_rule_access abi access kind.

Lemma each_rules k abi access es count rs rc c rs' :
  each PATH_MAX (ll_add_one k abi access) es count rs = (rc, c, rs') ->
  exists new, rs' = rs ++ new /\ Forall (rule_of k abi access (nonempty es)) new.
Proof.
  unfold nonempty. revert count rs. induction es as [|e es IH]; intros count rs; cbn [each List.filter].
  - intros [= _ _ <-]. exists []. rewrite app_nil_r. split; [done|constructor].
  - set (es' := List.filter _ es) in *.
    assert (W : forall new, Forall (rule_of k abi access es') new -> Forall (rule_of k abi access (e :: es')) new).
    { intros new H. eapply List.Forall_impl; [|exact H]. intros r (kind & H1 & H2 & H3). exists kind. split; [by right|done]. }
    assert (Stop : forall z l, (z, count, rs) = (rc, c, rs') -> exists new, rs' = rs ++ new /\ Forall (rule_of k abi access l) new).
    { intros z l [= _ _ <-]. exists []. rewrite app_nil_r. split; [done|constructor]. }
    destruct (existsb _ e); [apply Stop|]. destruct (bool_decide (e = [])); cbn [negb]; [apply IH|].
    destruct (PATH_MAX <=? _); [apply Stop|]. destruct (negb (e.[0] =? 47)); [apply Stop|].
    unfold ll_add_one at 1. destruct (k_open k e) as [kind|] eqn:Ek; [|apply Stop].
    destruct (k_add_rule k e _); [|apply Stop]. intros H. apply IH in H as (new & -> & H).
    exists (mkRule e (ll_rule_access abi access kind) :: new). split; [by rewrite <- app_assoc|]. constructor; [|auto].
    exists kind. split; [by left|]. split; [done|reflexivity].
Qed.

Lemma add_dirs_rules k abi access n dirs rs rs' : wf_str dirs ->
  ll_add_dirs k abi access n dirs rs = Some rs' ->
  exists new, rs' = rs ++ new /\ Forall (rule_of k abi access (entries (sbytes dirs))) new.
Proof.
  intros Hw. unfold ll_add_dirs. destruct (0 <? n); [|intros [= <-]; exists []; rewrite app_nil_r; split; [done|constructor]].
  unfold ll_each_dir. rewrite dirs_walk by done. destruct (each _ _ _ _ _) as [[rc c] rs1] eqn:Ee.
  destruct (rc =? 0); [|done]. intros [= <-]. by apply each_rules in Ee.
Qed.

(** ** What a layer denies *)

(** A right the layer controls and no rule on or above the path grants.
    [beneath] is the kernel's file hierarchy. *)
Definition denied (beneath : list Z -> list Z -> Prop) (l : ll_layer) (path : list Z) (n : Z) : Prop :=
  Z.testbit (handled_access_fs l) n = true /\
  forall r, In r (rules l) -> beneath (r_path r) path -> Z.testbit (r_access r) n = false.
(** Neither execute (0), read file (2) nor read directory (3). *)
Definition write_right (n : Z) : Prop := n <> 0 /\ n <> 2 /\ n <> 3.

Lemma read_rule_bits abi kind n : write_right n -> kind <> KDevice ->
  Z.testbit (ll_rule_access abi (Z.land ll_read_bits (ll_handled_fs abi)) kind) n = false.
Proof.
  intros (N0 & N2 & N3) Hk. assert (R : Z.testbit ll_read_bits n = false).
  { destruct (Z.testbit ll_read_bits n) eqn:B; [|done]. destruct (Z.lt_ge_cases n 0); [by rewrite Z.testbit_neg_r in B|].
    destruct (Z.lt_ge_cases n 4); [|rewrite (testbit_above _ 4) in B; [done|cbv; split; [discriminate|reflexivity]|done]].
    assert (n = 1) as -> by lia. discriminate B. }
  destruct kind; [|done| |]; cbn [ll_rule_access]; rewrite ?Z.land_spec, R; reflexivity.
Qed.

Lemma no_ioctl abi access kind : kind <> KDevice -> Z.testbit access 15 = false -> Z.testbit (ll_rule_access abi access kind) 15 = false.
Proof. intros Hk Ha. destruct kind; [exact Ha|done| |exact Ha]. cbn [ll_rule_access]. by rewrite Z.land_spec, Ha. Qed.
Lemma rule_bits_15 abi : Z.testbit (Z.land ll_read_bits (ll_handled_fs abi)) 15 = false /\ Z.testbit (Z.land (ll_write_bits abi) (ll_handled_fs abi)) 15 = false.
Proof.
  rewrite !Z.land_spec. split; [reflexivity|]. unfold ll_write_bits. destruct (2 <=? abi), (3 <=? abi); reflexivity.
Qed.

(** ** The ruleset of a successful call *)

Section confines.
Context {E : Entropy}.

(** Listed on or above the path; [dev]: as a device. *)
Definition listed (beneath : list Z -> list Z -> Prop) (dirs : OoStr) (path : list Z) : Prop :=
  exists e, In e (entries (sbytes dirs)) /\ beneath e path.
Definition listed_device (k : ll_kernel) (beneath : list Z -> list Z -> Prop) (dirs : OoStr) (path : list Z) : Prop :=
  exists e, In e (entries (sbytes dirs)) /\ beneath e path /\ k_open k e = Some KDevice.

(** What the ruleset of a successful call denies. *)
Record confined (k : ll_kernel) (beneath : list Z -> list Z -> Prop) (rd wd : OoStr) (l : ll_layer) : Prop := mkConfined {
  conf_handled : handled_access_fs l = ll_handled_fs (ll_abi_version k);
  conf_unlisted : forall path n, Z.testbit (handled_access_fs l) n = true ->
    ~ listed beneath rd path -> ~ listed beneath wd path -> denied beneath l path n;
  conf_writes : forall path n, Z.testbit (handled_access_fs l) n = true -> write_right n ->
    ~ listed beneath wd path -> ~ listed_device k beneath rd path -> denied beneath l path n;
  conf_ioctl : forall path, Z.testbit (handled_access_fs l) 15 = true ->
    ~ listed_device k beneath rd path -> ~ listed_device k beneath wd path -> denied beneath l path 15 }.

Lemma rules_confine k beneath rd wd new1 new2 :
  let abi := ll_abi_version k in
  Forall (rule_of k abi (Z.land ll_read_bits (ll_handled_fs abi)) (entries (sbytes rd))) new1 ->
  Forall (rule_of k abi (Z.land (ll_write_bits abi) (ll_handled_fs abi)) (entries (sbytes wd))) new2 ->
  confined k beneath rd wd (mkLayer (ll_handled_fs abi) (new1 ++ new2)).
Proof.
  cbv zeta. set (abi := ll_abi_version k). intros H1 H2. rewrite List.Forall_forall in H1, H2.
  assert (D : forall path n, Z.testbit (ll_handled_fs abi) n = true ->
    (forall r, In r new1 -> beneath (r_path r) path -> Z.testbit (r_access r) n = false) ->
    (forall r, In r new2 -> beneath (r_path r) path -> Z.testbit (r_access r) n = false) ->
    denied beneath (mkLayer (ll_handled_fs abi) (new1 ++ new2)) path n).
  { intros path n Hn A B. split; [exact Hn|]. cbn [rules]. intros r Hr. apply in_app_or in Hr as [Hr|Hr]; auto. }
  split; [done| | |]; cbn [handled_access_fs].
  - intros path n Hn Nr Nw. apply D; [done| |]; intros r Hr Hb.
    + destruct (H1 r Hr) as (kind & Hin & _). destruct Nr. by exists (r_path r).
    + destruct (H2 r Hr) as (kind & Hin & _). destruct Nw. by exists (r_path r).
  - intros path n Hn Wn Nw Nd. apply D; [done| |]; intros r Hr Hb.
    + destruct (H1 r Hr) as (kind & Hin & Hk & ->). apply read_rule_bits; [done|]. intros ->. apply Nd. by exists (r_path r).
    + destruct (H2 r Hr) as (kind & Hin & _). destruct Nw. by exists (r_path r).
  - intros path Hn Nr Nw. destruct (rule_bits_15 abi) as [R W]. apply D; [done| |]; intros r Hr Hb.
    + destruct (H1 r Hr) as (kind & Hin & Hk & ->). apply no_ioctl; [|done]. intros ->. apply Nr. by exists (r_path r).
    + destruct (H2 r Hr) as (kind & Hin & Hk & ->). apply no_ioctl; [|done]. intros ->. apply Nw. by exists (r_path r).
Qed.

(** The outcomes of a call. *)
Definition unchanged (s s' : llstate) : Prop := layers s' = layers s /\ g_ll_applied s' = g_ll_applied s.
Definition restrict_outcome (k : ll_kernel) (beneath : list Z -> list Z -> Prop) (rd wd : OoStr) (s : llstate) (r : OoResS) (s' : llstate) : Prop :=
  if res_ok r then
    ll_is_update_cmd k = true /\ r = oo_ok "OK_LANDLOCK_UPDATE_BYPASS" /\ unchanged s s' \/
    ll_is_update_cmd k = false /\ r = oo_ok "OK_LANDLOCK_ENFORCED" /\ g_ll_applied s' = true /\
      exists l, layers s' = layers s ++ [l] /\ confined k beneath rd wd l
  else unchanged s s'.

Lemma restrict_spec k beneath cap rd wd s r s' :
  wf_str rd -> wf_str wd -> oo_landlock_restrict k cap rd wd s = Ret (r, s') -> restrict_outcome k beneath rd wd s r s'.
Proof.
  intros Hr Hw. unfold oo_landlock_restrict, bind at 1, lift.
  destruct (oo_cap_require_sys cap (ll_caps s)) as [[u c]| |]; cbn [run_bind]; [|discriminate|discriminate].
  set (s1 := ll_with_caps c s). assert (U : unchanged s s1) by done.
  assert (Err : forall m, ret (ll_err m) s1 = Ret (r, s') -> restrict_outcome k beneath rd wd s r s').
  { intros m H. assert (X : r = ll_err m /\ s' = s1) by (unfold ret in H; split; congruence). destruct X as [-> ->]. exact U. }
  destruct (ll_is_update_cmd k) eqn:Hu.
  { intros H. assert (X : r = oo_ok "OK_LANDLOCK_UPDATE_BYPASS" /\ s' = s1) by (unfold ret in H; split; congruence).
    destruct X as [-> ->]. unfold restrict_outcome. cbn [res_ok oo_ok]. by left. }
  destruct (ll_count_dirs rd) as [pr nread]. destruct (ll_count_dirs wd) as [pw nwrite].
  destruct (_ || _); [apply Err|]. destruct (_ || _); [apply Err|]. destruct (_ || _); [apply Err|]. destruct (_ || _); [apply Err|].
  destruct (LL_MAX_DIRS <? _); [apply Err|]. destruct (negb _); [apply Err|]. destruct (_ <? 1); [apply Err|]. destruct (negb _); [apply Err|].
  set (abi := ll_abi_version k).
  destruct (ll_add_dirs k abi (Z.land ll_read_bits (ll_handled_fs abi)) nread rd []) as [rs1|] eqn:E1; [|apply Err].
  destruct (ll_add_dirs k abi (Z.land (ll_write_bits abi) (ll_handled_fs abi)) nwrite wd rs1) as [rs2|] eqn:E2; [|apply Err].
  destruct (negb _); [apply Err|]. destruct (negb _); [apply Err|].
  apply add_dirs_rules in E1 as (new1 & -> & H1); [|done]. apply add_dirs_rules in E2 as (new2 & -> & H2); [|done].
  cbn [app]. intros H. unfold bind, set_state, ret in H. cbn [run_bind] in H.
  set (l := mkLayer (ll_handled_fs abi) (new1 ++ new2)) in *.
  assert (X : r = oo_ok "OK_LANDLOCK_ENFORCED" /\ s' = oo_landlock_mark_applied l s1) by (split; congruence).
  destruct X as [-> ->]. unfold restrict_outcome. cbn [res_ok oo_ok]. right. split; [exact Hu|]. split; [done|]. split; [done|].
  exists l. split; [done|]. by apply rules_confine.
Qed.

(** C3. Confinement.  When [oo_landlock_restrict] reports success the process
    is restricted by one more ruleset, and that ruleset denies every right it
    handles on a path with no listed entry on or above it; denies every right
    but execute, read file and read directory on a path with no write entry
    (and no device read entry) on or above it; and denies device ioctl except
    under a listed device.  So with empty lists it denies everything it
    handles.  A failed call restricts nothing.  The one exception is the
    update command: success with no ruleset. *)
Theorem landlock_restrict_confines k beneath cap rd wd s r s' :
  wf_str rd -> wf_str wd ->
  oo_landlock_restrict k cap rd wd s = Ret (r, s') ->
  restrict_outcome k beneath rd wd s r s' /\
  (res_ok r = true -> ll_is_update_cmd k = false -> entries (sbytes rd) = [] -> entries (sbytes wd) = [] ->
     exists l, layers s' = layers s ++ [l] /\
       forall path n, Z.testbit (ll_handled_fs (ll_abi_version k)) n = true -> denied beneath l path n).
Proof.
  intros Hr Hw H. pose proof (restrict_spec k beneath cap rd wd s r s' Hr Hw H) as O. split; [exact O|].
  intros Hok Hu Er Ew. unfold restrict_outcome in O. rewrite Hok in O. destruct O as [(X & _)|(_ & _ & _ & l & Hl & [Hh Hc _ _])]; [congruence|].
  exists l. split; [exact Hl|]. intros path n Hn. rewrite Hh in Hc. apply Hc; [exact Hn| |]; intros (e & He & _); [rewrite Er in He|rewrite Ew in He]; exact He.
Qed.
End confines.

(** A kernel that answers yes. *)
Definition wit_kernel : ll_kernel :=
  mkKernel true 5 (Some (ascii_bytes "prog")) true (fun _ => Some KDir) (fun _ _ => true) true true.
Definition wit_ll : llstate := mkLl wit_granted false [].
Definition wit_sys : Z := Eval vm_compute in g_tok_sys wit_tokens.
Definition wit_ll_after : llstate := Eval vm_compute in
  match @oo_landlock_restrict wit_entropy wit_kernel wit_sys str_null str_null wit_ll with Ret (_, s) => s | _ => wit_ll end.
Lemma landlock_restrict_confines_witness :
  exists l, layers wit_ll_after = [l] /\ forall path n,
    Z.testbit (ll_handled_fs 5) n = true -> denied (fun e p => e = p) l path n.
Proof.
  refine (proj2 (@landlock_restrict_confines wit_entropy wit_kernel (fun e p => e = p) wit_sys str_null str_null wit_ll
    (oo_ok "OK_LANDLOCK_ENFORCED") wit_ll_after _ _ _) _ _ _ _).
  - split; [cbn; lia|exact I].
  - split; [cbn; lia|exact I].
  - vm_compute. reflexivity.
  - reflexivity.
  - reflexivity.
  - reflexivity.
  - reflexivity.
Defined.
