(* ===== verification/Sandbox.v ===== *)
(** The sandbox ([sec/landlock/sandbox/sandbox.c], [sandbox_config.c],
    [sandbox_c.c]), process limits ([fs/os/rlimit.c]) and the reader of the
    process's own memory ([sec/landlock/proc_mem.c]), on Linux.

    [oo_sandbox_apply_matrix] composes the path lists and rulesets of
    [Landlock.v], the capability filter of [Seccomp.v] and the limits. *)
From S2P Require Import Prelude Str Caps Seccomp Landlock.
From Stdlib Require String.
Import (notations) String.
Open Scope Z_scope.

(** * State *)

Inductive backend := BACKEND_NONE | BACKEND_LINUX_LANDLOCK_SECCOMP | BACKEND_DARWIN_SEATBELT | BACKEND_OPENBSD_PLEDGE_UNVEIL
  | BACKEND_FREEBSD_CAPSICUM | BACKEND_WINDOWS_APPCONTAINER_JOB | BACKEND_VIRTUALIZED_FALLBACK | BACKEND_SECCOMP.
#[global] Instance backend_eq : EqDecision backend.
Proof. unfold EqDecision, Decision. decide equality. Defined.

Record sandbox_status := mkStatus {
  is_enforced : bool; st_backend : backend; active_caps_mask : Z;
  fs_restricted : bool; net_restricted : bool; proc_restricted : bool; quotas_enforced : bool }.
Record sandbox_config := mkConfig {
  allowed_caps_mask : Z; read_dirs_colon : OoStr; write_dirs_colon : OoStr;
  max_mem_mb : Z; max_cpu_sec : Z; max_nofile : Z; fail_closed_on_kernel_miss : bool }.

Inductive resource := RLIMIT_AS | RLIMIT_NOFILE | RLIMIT_CPU.
#[global] Instance resource_eq : EqDecision resource.
Proof. unfold EqDecision, Decision. decide equality. Defined.

(** The kernel's answers during one call. *)
Record kernel := mkSysKernel {
  ll : ll_kernel;
  has_seccomp : bool;                                    (* PR_SET_SECCOMP is known *)
  plat : abi; install : install_env;
  getrlimit : resource -> option (Z * Z);                (* soft and hard limit *)
  setrlimit : resource -> Z * Z -> bool;
  mem_open : bool; mem_seek : Z -> bool; mem_read : Z -> Z -> option (list Z) }.

Record sstate := mkS {
  lls : llstate; cf : capf;
  limits : list (resource * (Z * Z));                    (* limits set, latest first *)
  g_sand_locked : bool; g_sand_avail : Z; g_sand_status : sandbox_status;
  g_sand_read_dirs : list Z; g_sand_write_dirs : list Z }.
Definition status_start : sandbox_status := mkStatus false BACKEND_NONE 0 false false false false.
Definition sstart : sstate := mkS (mkLl cstart false []) capf_start [] false (-1) status_start (zeros 4096) (zeros 4096).

Definition with_lls (l : llstate) (s : sstate) : sstate :=
  mkS l (cf s) (limits s) (g_sand_locked s) (g_sand_avail s) (g_sand_status s) (g_sand_read_dirs s) (g_sand_write_dirs s).
Definition with_cf (c : capf) (s : sstate) : sstate :=
  mkS (lls s) c (limits s) (g_sand_locked s) (g_sand_avail s) (g_sand_status s) (g_sand_read_dirs s) (g_sand_write_dirs s).
Definition with_limit (r : resource) (v : Z * Z) (s : sstate) : sstate :=
  mkS (lls s) (cf s) ((r, v) :: limits s) (g_sand_locked s) (g_sand_avail s) (g_sand_status s) (g_sand_read_dirs s) (g_sand_write_dirs s).
Definition with_status (st : sandbox_status) (s : sstate) : sstate :=
  mkS (lls s) (cf s) (limits s) (g_sand_locked s) (g_sand_avail s) st (g_sand_read_dirs s) (g_sand_write_dirs s).
Definition with_locked (s : sstate) : sstate :=
  mkS (lls s) (cf s) (limits s) true (g_sand_avail s) (g_sand_status s) (g_sand_read_dirs s) (g_sand_write_dirs s).
Definition with_avail (v : Z) (s : sstate) : sstate :=
  mkS (lls s) (cf s) (limits s) (g_sand_locked s) v (g_sand_status s) (g_sand_read_dirs s) (g_sand_write_dirs s).
Definition with_dirs (r w : list Z) (s : sstate) : sstate :=
  mkS (lls s) (cf s) (limits s) (g_sand_locked s) (g_sand_avail s) (g_sand_status s) r w.
Definition sb_caps (s : sstate) : cstate := ll_caps (lls s).

(** The gate, on the whole state. *)
Section sandbox.
Context {E : Entropy}.
Definition require_sys (cap : Z) : ST sstate unit :=
  lift sb_caps (fun c s => with_lls (ll_with_caps c (lls s)) s) (oo_cap_require_sys cap).

(** * Limits ([rlimit.c]) *)

(** [rlim_t] is an unsigned 64-bit word. *)
Definition set_limit (k : kernel) (r : resource) (soft : Z) (got set : String.string) : ST sstate OoResS :=
  match getrlimit k r with
  | None => ret (oo_err "rlimit" got)
  | Some (_, hard) =>
      let v := (soft, if soft <? hard then soft else hard) in
      if setrlimit k r v then let! _ := set_state (with_limit r v) in ret (oo_ok "OK") else ret (oo_err "rlimit" set)
  end.
Definition oo_rlimit_set_mem_mb (k : kernel) (cap megabytes : Z) : ST sstate OoResS :=
  let! _ := require_sys cap in
  if megabytes <=? 0 then ret (oo_err "rlimit" "invalid memory quota size")
  else set_limit k RLIMIT_AS (u64 (u64 (megabytes * 1024) * 1024)) "failed to get RLIMIT_AS" "failed to set RLIMIT_AS".
Definition oo_rlimit_set_nofile (k : kernel) (cap max_fds : Z) : ST sstate OoResS :=
  let! _ := require_sys cap in
  if max_fds <=? 0 then ret (oo_err "rlimit" "invalid fd count")
  else set_limit k RLIMIT_NOFILE (u64 max_fds) "failed to get RLIMIT_NOFILE" "failed to set RLIMIT_NOFILE".
Definition oo_rlimit_set_cpu_sec (k : kernel) (cap seconds : Z) : ST sstate OoResS :=
  let! _ := require_sys cap in
  if seconds <=? 0 then ret (oo_err "rlimit" "invalid cpu seconds")
  else set_limit k RLIMIT_CPU (u64 seconds) "failed to get RLIMIT_CPU" "failed to set RLIMIT_CPU".

(** * Probing ([sandbox.c]) *)

Definition oo_sandbox_probe_backend (k : kernel) : backend :=
  if oo_landlock_is_available (ll k) then BACKEND_LINUX_LANDLOCK_SECCOMP
  else if has_seccomp k then BACKEND_SECCOMP else BACKEND_VIRTUALIZED_FALLBACK.
Definition oo_sandbox_backend_name (b : backend) : String.string :=
  match b with
  | BACKEND_NONE => "none" | BACKEND_LINUX_LANDLOCK_SECCOMP => "linux_landlock_seccomp"
  | BACKEND_DARWIN_SEATBELT => "darwin_seatbelt" | BACKEND_OPENBSD_PLEDGE_UNVEIL => "openbsd_pledge_unveil"
  | BACKEND_FREEBSD_CAPSICUM => "freebsd_capsicum" | BACKEND_WINDOWS_APPCONTAINER_JOB => "windows_appcontainer_job"
  | BACKEND_VIRTUALIZED_FALLBACK => "virtualized_fallback" | BACKEND_SECCOMP => "unknown"
  end%string.
Definition oo_sandbox_is_available (k : kernel) : bool :=
  negb (bool_decide (oo_sandbox_probe_backend k = BACKEND_NONE)) &&
  negb (bool_decide (oo_sandbox_probe_backend k = BACKEND_VIRTUALIZED_FALLBACK)).
Definition oo_sandbox_available (k : kernel) : bool := oo_sandbox_is_available k.
Definition oo_sandbox_status (s : sstate) : sandbox_status := g_sand_status s.

(** * Applying a configuration ([sandbox_config.c]) *)

(** [val.len == 24 && memcmp (val.data, "OK_LANDLOCK_UPDATE_BYPASS", 24) == 0]. *)
Definition is_bypass (v : OoStr) : bool :=
  (slen v =? 24) && bool_decide (take 24 (from_option id [] (sdata v)) = take 24 (ascii_bytes "OK_LANDLOCK_UPDATE_BYPASS")).
(** The limits of a configuration; their results are not looked at. *)
Definition apply_quota (v : Z) (set : ST sstate OoResS) : ST sstate unit :=
  if 0 <? v then let! _ := set in ret tt else ret tt.
Definition fs_requested (c : sandbox_config) (nread nwrite : Z) : bool :=
  (0 <? slen (read_dirs_colon c)) || (0 <? slen (write_dirs_colon c)) || ((nread =? 0) && (nwrite =? 0)).

(** Filters, flag, limits: what follows the ruleset. *)
Definition apply_filter_and_quotas (k : kernel) (sys_cap : Z) (c : sandbox_config) : ST sstate OoResS := fun s =>
  let '(rc, cf') := oodar_cap_apply_seccomp_filter (plat k) (install k) (allowed_caps_mask c) (cf s) in
  let s := with_cf cf' s in
  if rc <? 0 then Ret (oo_err "seccomp" "filter application failed", s)
  else if negb (oodar_cap_is_sandboxed (cf s)) then Ret (oo_err "seccomp" "filter not enforced", s)
  else
    (let! _ := apply_quota (max_mem_mb c) (oo_rlimit_set_mem_mb k sys_cap (max_mem_mb c)) in
     let! _ := apply_quota (max_cpu_sec c) (oo_rlimit_set_cpu_sec k sys_cap (max_cpu_sec c)) in
     let! _ := apply_quota (max_nofile c) (oo_rlimit_set_nofile k sys_cap (max_nofile c)) in
     ret (oo_ok "OK_LINUX_LANDLOCK_SECCOMP_ENFORCED")) s.
Definition sand_apply_linux_landlock_seccomp (k : kernel) (sys_cap : Z) (c : sandbox_config) (nread nwrite : Z) : ST sstate OoResS :=
  let finish (bypassed : bool) :=
    if bypassed then ret (oo_ok "OK_LINUX_LANDLOCK_SECCOMP_ENFORCED") else apply_filter_and_quotas k sys_cap c in
  if fs_requested c nread nwrite then
    let! r := lift lls with_lls (oo_landlock_restrict (ll k) sys_cap (read_dirs_colon c) (write_dirs_colon c)) in
    if negb (res_ok r) then ret r else finish (is_bypass (res_val r))
  else finish false.

(** The dir caches: at most 4095 bytes and a terminator; the rest stays. *)
Definition store_dir (v : OoStr) (old : list Z) : list Z :=
  match sdata v with
  | None => old
  | Some d =>
      if 0 <? slen v then
        let sz := if 4096 <=? slen v then 4095%nat else Z.to_nat (slen v) in
        take sz d ++ [0] ++ drop (S sz) old
      else old
  end.
Definition sand_store_dirs (c : sandbox_config) (s : sstate) : sstate :=
  with_dirs (store_dir (read_dirs_colon c) (g_sand_read_dirs s)) (store_dir (write_dirs_colon c) (g_sand_write_dirs s)) s.
Definition OODAR_CAP_TCP : Z := Z.shiftl 1 17.
Definition OODAR_CAP_UDP : Z := Z.shiftl 1 18.
Definition OODAR_CAP_BIND : Z := Z.shiftl 1 19.
Definition status_from_config (c : sandbox_config) (b : backend) (nread nwrite : Z) : sandbox_status :=
  let m := allowed_caps_mask c in
  mkStatus true b m (fs_requested c nread nwrite)
    (Z.land m (Z.lor (Z.lor (Z.lor OODAR_CAP_NET OODAR_CAP_TCP) OODAR_CAP_UDP) OODAR_CAP_BIND) =? 0)
    (Z.land m (Z.lor OODAR_CAP_PROCESS OODAR_CAP_SYS) =? 0)
    ((0 <? max_mem_mb c) || (0 <? max_cpu_sec c) || (0 <? max_nofile c)).
Definition sand_update_status_from_config (c : sandbox_config) (b : backend) (nread nwrite : Z) (s : sstate) : sstate :=
  with_status (status_from_config c b nread nwrite) s.

Definition oo_sandbox_apply_matrix (k : kernel) (sys_cap : Z) (config : option sandbox_config) : ST sstate OoResS :=
  let! _ := require_sys sys_cap in
  match config with
  | None => ret (oo_err "sandbox" "null configuration")
  | Some c =>
      let '(pr, nread) := sand_validate_paths (read_dirs_colon c) in
      let '(pw, nwrite) := sand_validate_paths (write_dirs_colon c) in
      if (pr =? -3) || (pw =? -3) then ret (oo_err "sandbox" "path not absolute")
      else if (pr =? -2) || (pw =? -2) then ret (oo_err "sandbox" "path too long")
      else if (pr =? -1) || (pw =? -1) then ret (oo_err "sandbox" "embedded NUL in path")
      else if 64 <? nread + nwrite then ret (oo_err "sandbox" "too many paths")
      else
        let b := oo_sandbox_probe_backend k in
        if bool_decide (b = BACKEND_LINUX_LANDLOCK_SECCOMP) then
          let! r := sand_apply_linux_landlock_seccomp k sys_cap c nread nwrite in
          if negb (res_ok r) then ret r
          else
            let! _ := set_state (sand_store_dirs c) in
            let! _ := set_state (sand_update_status_from_config c b nread nwrite) in
            let! _ := set_state with_locked in ret r
        else ret (oo_err "sandbox" "kernel primitive unavailable, fail closed")
  end.

Definition zero_config : sandbox_config := mkConfig 0 str_null str_null 0 0 0 false.
Definition oo_sandbox_restrict_caps (k : kernel) (sys_cap mask : Z) : ST sstate OoResS :=
  let! _ := require_sys sys_cap in
  oo_sandbox_apply_matrix k sys_cap (Some (mkConfig mask str_null str_null 0 0 0 false)).
Definition quota_step (v : Z) (set : ST sstate OoResS) (next : ST sstate OoResS) : ST sstate OoResS :=
  if 0 <? v then let! r := set in if negb (res_ok r) then ret r else next else next.
Definition with_quotas (s : sstate) : sstate :=
  let st := g_sand_status s in
  with_status (mkStatus (is_enforced st) (st_backend st) (active_caps_mask st) (fs_restricted st) (net_restricted st) (proc_restricted st) true) s.
Definition oo_sandbox_set_quotas (k : kernel) (sys_cap mem_mb cpu_sec max_fds : Z) : ST sstate OoResS :=
  let! _ := require_sys sys_cap in
  if (mem_mb <? 0) || (cpu_sec <? 0) || (max_fds <? 0) then ret (oo_err "sandbox" "negative quota parameter")
  else
    quota_step mem_mb (oo_rlimit_set_mem_mb k sys_cap mem_mb)
      (quota_step cpu_sec (oo_rlimit_set_cpu_sec k sys_cap cpu_sec)
         (quota_step max_fds (oo_rlimit_set_nofile k sys_cap max_fds)
            (let! _ := set_state with_quotas in ret (oo_ok "OK")))).

(** The legacy path: the filter alone, from the notes of the token grants. *)
Definition oo_sandbox_apply (k : kernel) (sys_cap : Z) : ST sstate Z :=
  let! _ := require_sys sys_cap in
  let! s := get_state in
  if g_sand_locked s then ret 0
  else if negb (has_seccomp k) then let! _ := set_state (with_avail 0) in ret (-1)
  else
    let a := plat k in
    let act (noted : bool) (e : Z) := if noted then SECCOMP_RET_ALLOW else Z.lor SECCOMP_RET_ERRNO e in
    let '(rc, new) := sand_install_seccomp a (install k) (act (g_sand_net (sb_caps s)) (errno_EPERM a))
                        (act (g_sand_proc (sb_caps s)) (errno_EPERM a)) (act (g_sand_proc (sb_caps s)) (errno_ENOSYS a)) in
    let! _ := set_state (fun s => with_cf (mkCapf (g_capf_mask (cf s)) (g_capf_tok (cf s)) (g_capf_on (cf s)) (g_capf_avail (cf s)) (filters (cf s) ++ new)) s) in
    if rc =? 0 then
      let! _ := set_state with_locked in
      let! _ := set_state (with_avail 1) in
      let! _ := set_state (fun s => let st := g_sand_status s in
        with_status (mkStatus true BACKEND_SECCOMP (active_caps_mask st) (fs_restricted st) (net_restricted st) (proc_restricted st) (quotas_enforced st)) s) in
      ret 0
    else let! _ := set_state (with_avail 0) in ret (-1).

(** ** The C entry points ([sandbox_c.c]) *)

Definition c_result (r : OoResS) : Z := if res_ok r then 0 else -1.
(** [writedir] is NULL or the bytes before its terminator. *)
Definition oo_sandbox_c_apply_matrix (k : kernel) (sys_cap : Z) (writedir : option (list Z)) (cap_mask : Z) : ST sstate Z :=
  let! _ := require_sys sys_cap in
  let w := match writedir with Some l => str_of l | None => str_null end in
  let! r := oo_sandbox_apply_matrix k sys_cap (Some (mkConfig (u32 cap_mask) str_null w 0 0 0 false)) in ret (c_result r).
Definition oo_sandbox_c_restrict_caps (k : kernel) (sys_cap cap_mask : Z) : ST sstate Z :=
  let! _ := require_sys sys_cap in
  let! r := oo_sandbox_restrict_caps k sys_cap (u32 cap_mask) in ret (c_result r).
Definition oo_sandbox_c_set_quotas (k : kernel) (sys_cap mem_mb cpu_sec max_fds : Z) : ST sstate Z :=
  let! _ := require_sys sys_cap in
  let! r := oo_sandbox_set_quotas k sys_cap (i64 mem_mb) (i64 cpu_sec) (i64 max_fds) in ret (c_result r).

(** * Reading the process's memory ([proc_mem.c]) *)

Definition oo_proc_mem_read (k : kernel) (cap offset n : Z) : ST sstate OoResS :=
  let fail := ret (mkResS false (oo_str_lit "")) in
  let! _ := require_sys cap in
  if (n <=? 0) || (Z.shiftl 1 20 <? n) then fail
  else if offset <? 0 then fail
  else if Z.shiftl 1 47 <? offset then fail
  else if negb (oo_landlock_is_available (ll k)) then fail
  else
    let! s := get_state in
    if negb (oo_landlock_is_applied (lls s)) then fail
    else if negb (mem_open k) then fail
    else if negb (mem_seek k offset) then fail
    else match mem_read k offset n with
         | None => fail
         | Some [] => fail
         | Some b => ret (mkResS true (str_of b))
         end.
End sandbox.

(** * What the limits leave alone *)

(** Rulesets, filters, status and lock as before. *)
Record keeps (s s' : sstate) : Prop := mkKeeps {
  keeps_layers : layers (lls s') = layers (lls s); keeps_applied : g_ll_applied (lls s') = g_ll_applied (lls s);
  keeps_cf : cf s' = cf s; keeps_status : g_sand_status s' = g_sand_status s; keeps_locked : g_sand_locked s' = g_sand_locked s }.
#[global] Instance keeps_preorder : PreOrder keeps.
Proof. split; [intros s; by split|]. intros a b c [] []. split; congruence. Qed.

Section keeping.
Context {E : Entropy}.
Definition quiet {A} (m : ST sstate A) : Prop := forall s a s', m s = Ret (a, s') -> keeps s s'.
Lemma quiet_ret {A} (a : A) : quiet (ret a).
Proof. intros s b s' H. assert (X : s' = s) by (unfold ret in H; congruence). by rewrite X. Qed.
Lemma quiet_bind {A B} (m : ST sstate A) (f : A -> ST sstate B) : quiet m -> (forall a, quiet (f a)) -> quiet (bind m f).
Proof.
  intros Hm Hf s b s' H. unfold bind in H. destruct (m s) as [[a s1]| |] eqn:Em; cbn [run_bind] in H; [|discriminate|discriminate].
  etransitivity; [exact (Hm _ _ _ Em)|exact (Hf a _ _ _ H)].
Qed.
Lemma quiet_gate cap : quiet (require_sys cap).
Proof.
  intros s a s' H. unfold require_sys, lift in H. destruct (oo_cap_require_sys cap (sb_caps s)) as [[u c]| |]; cbn [run_bind] in H; [|discriminate|discriminate].
  assert (X : s' = with_lls (ll_with_caps c (lls s)) s) by congruence. rewrite X. by split.
Qed.
Lemma quiet_limit k r v a b : quiet (set_limit k r v a b).
Proof.
  unfold set_limit. destruct (getrlimit k r) as [[soft hard]|]; [|apply quiet_ret]. destruct (setrlimit k r _); [|apply quiet_ret].
  apply quiet_bind; [|intros; apply quiet_ret]. intros s u s' H. assert (X : s' = with_limit r (v, if v <? hard then v else hard) s) by (unfold set_state in H; congruence).
  rewrite X. by split.
Qed.
Lemma quiet_mem k cap v : quiet (oo_rlimit_set_mem_mb k cap v).
Proof. apply quiet_bind; [apply quiet_gate|]. intros _. destruct (v <=? 0); [apply quiet_ret|apply quiet_limit]. Qed.
Lemma quiet_cpu k cap v : quiet (oo_rlimit_set_cpu_sec k cap v).
Proof. apply quiet_bind; [apply quiet_gate|]. intros _. destruct (v <=? 0); [apply quiet_ret|apply quiet_limit]. Qed.
Lemma quiet_nofile k cap v : quiet (oo_rlimit_set_nofile k cap v).
Proof. apply quiet_bind; [apply quiet_gate|]. intros _. destruct (v <=? 0); [apply quiet_ret|apply quiet_limit]. Qed.
Lemma quiet_quota v m : quiet m -> quiet (apply_quota v m).
Proof. intros H. unfold apply_quota. destruct (0 <? v); [|apply quiet_ret]. apply quiet_bind; [done|]. intros. apply quiet_ret. Qed.

(** Every configuration asks for a ruleset: without lists there are no
    entries, and no entries means a total lockdown. *)
Lemma fs_always_requested c : fs_requested c (snd (sand_validate_paths (read_dirs_colon c))) (snd (sand_validate_paths (write_dirs_colon c))) = true.
Proof.
  unfold fs_requested. destruct (Z.ltb_spec 0 (slen (read_dirs_colon c))) as [|Hr]; [done|]. destruct (Z.ltb_spec 0 (slen (write_dirs_colon c))) as [|Hw]; [done|].
  assert (N : forall d, slen d <= 0 -> snd (sand_validate_paths d) = 0).
  { intros d Hd. unfold sand_validate_paths. assert (L : dirs_len d = 0%nat) by (unfold dirs_len; destruct (sdata d); lia). rewrite L. reflexivity. }
  by rewrite !N.
Qed.

Lemma filter_and_quotas_spec k cap c s r s' : apply_filter_and_quotas k cap c s = Ret (r, s') ->
  layers (lls s') = layers (lls s) /\ g_sand_status s' = g_sand_status s /\ g_sand_locked s' = g_sand_locked s /\
  cf s' = snd (oodar_cap_apply_seccomp_filter (plat k) (install k) (allowed_caps_mask c) (cf s)) /\
  (res_ok r = true -> oodar_cap_is_sandboxed (cf s') = true).
Proof.
  unfold apply_filter_and_quotas. destruct (oodar_cap_apply_seccomp_filter _ _ _ _) as [rc cf'] eqn:Ea. cbn [snd].
  assert (Bad : forall x, res_ok x = false -> Ret (x, with_cf cf' s) = Ret (r, s') ->
    layers (lls s') = layers (lls s) /\ g_sand_status s' = g_sand_status s /\ g_sand_locked s' = g_sand_locked s /\ cf s' = cf' /\
    (res_ok r = true -> oodar_cap_is_sandboxed (cf s') = true)).
  { intros x Hx H. assert (X : r = x /\ s' = with_cf cf' s) by (split; congruence). destruct X as [-> ->]. rewrite Hx. done. }
  destruct (rc <? 0); [apply Bad; done|]. cbn [cf with_cf]. destruct (oodar_cap_is_sandboxed cf') eqn:On; cbn [negb]; [|apply Bad; done].
  intros H. assert (Q : keeps (with_cf cf' s) s').
  { revert H. apply quiet_bind; [apply quiet_quota, quiet_mem|]. intros _. apply quiet_bind; [apply quiet_quota, quiet_cpu|]. intros _.
    apply quiet_bind; [apply quiet_quota, quiet_nofile|]. intros _. apply quiet_ret. }
  destruct Q as [Q1 _ Q2 Q3 Q4]. rewrite Q1, Q2, Q3, Q4. cbn [cf with_cf lls g_sand_status g_sand_locked]. split; [done|]. do 3 (split; [done|]). done.
Qed.

(** The answer of [oo_landlock_restrict] is never taken for a bypass. *)
Lemma bypass_never k beneath rd wd s r s' : restrict_outcome k beneath rd wd s r s' -> res_ok r = true -> is_bypass (res_val r) = false.
Proof.
  intros O Hok. unfold restrict_outcome in O. rewrite Hok in O. destruct O as [(_ & -> & _)|(_ & -> & _)]; reflexivity.
Qed.

(** The state after a successful call of the Linux path. *)
Record enforced (k : kernel) (beneath : list Z -> list Z -> Prop) (c : sandbox_config) (s s' : sstate) : Prop := mkEnforced {
  enf_filter : oodar_cap_is_sandboxed (cf s') = true;
  enf_filters : cf s' = snd (oodar_cap_apply_seccomp_filter (plat k) (install k) (allowed_caps_mask c) (cf s));
  enf_ruleset : ll_is_update_cmd (ll k) = false ->
    exists l, layers (lls s') = layers (lls s) ++ [l] /\ confined (ll k) beneath (read_dirs_colon c) (write_dirs_colon c) l;
  enf_update : ll_is_update_cmd (ll k) = true -> layers (lls s') = layers (lls s) }.

Lemma linux_path_spec k beneath cap c s r s' nread nwrite :
  wf_str (read_dirs_colon c) -> wf_str (write_dirs_colon c) -> fs_requested c nread nwrite = true ->
  sand_apply_linux_landlock_seccomp k cap c nread nwrite s = Ret (r, s') ->
  g_sand_status s' = g_sand_status s /\ g_sand_locked s' = g_sand_locked s /\ (res_ok r = true -> enforced k beneath c s s').
Proof.
  intros Hr Hw Hf. unfold sand_apply_linux_landlock_seccomp. rewrite Hf. unfold bind at 1, lift.
  destruct (oo_landlock_restrict (ll k) cap (read_dirs_colon c) (write_dirs_colon c) (lls s)) as [[r1 l1]| |] eqn:El; cbn [run_bind]; [|discriminate|discriminate].
  pose proof (restrict_spec (ll k) beneath cap _ _ _ _ _ Hr Hw El) as O.
  destruct (res_ok r1) eqn:Ok; cbn [negb]; cycle 1.
  { intros H. assert (X : r = r1 /\ s' = with_lls l1 s) by (unfold ret in H; split; congruence). destruct X as [-> ->]. rewrite Ok. done. }
  rewrite (bypass_never _ _ _ _ _ _ _ O Ok). intros H.
  destruct (filter_and_quotas_spec k cap c _ _ _ H) as (F1 & F2 & F3 & F4 & F5).
  split; [exact F2|]. split; [exact F3|]. intros Hok. unfold restrict_outcome in O. rewrite Ok in O.
  split; [by apply F5|exact F4| |]; rewrite F1; cbn [lls with_lls].
  - intros Hu. destruct O as [(X & _)|(_ & _ & _ & l & Hl & Hc)]; [congruence|]. by exists l.
  - intros Hu. destruct O as [(_ & _ & U & _)|(X & _)]; [exact U|congruence].
Qed.

(** C2. The sandbox as a whole.  [oo_sandbox_apply_matrix] fails closed: a
    call that reports failure leaves the status and the lock as they were,
    and one that reports success has locked the sandbox, holds a seccomp
    filter, and has added a ruleset confining the process to the listed paths
    (every configuration requests one; with no lists it locks the whole
    filesystem).  The status then repeats the configuration and claims a
    restricted filesystem, also in the update command, where the call
    succeeds without a ruleset but with the filter: the string that would
    skip the filter is compared with the wrong length. *)
Theorem sandbox_matrix_enforces k beneath cap c s r s' :
  wf_str (read_dirs_colon c) -> wf_str (write_dirs_colon c) ->
  oo_sandbox_apply_matrix k cap (Some c) s = Ret (r, s') ->
  if res_ok r then
    enforced k beneath c s s' /\ g_sand_locked s' = true /\ oo_sandbox_status s' =
      status_from_config c BACKEND_LINUX_LANDLOCK_SECCOMP (snd (sand_validate_paths (read_dirs_colon c))) (snd (sand_validate_paths (write_dirs_colon c))) /\
    fs_restricted (oo_sandbox_status s') = true
  else g_sand_status s' = g_sand_status s /\ g_sand_locked s' = g_sand_locked s.
Proof.
  intros Hr Hw. unfold oo_sandbox_apply_matrix, bind at 1.
  destruct (require_sys cap s) as [[u s1]| |] eqn:Eg; cbn [run_bind]; [|discriminate|discriminate].
  destruct (quiet_gate cap _ _ _ Eg) as [K1 K2 K3 K4 K5].
  pose proof (fs_always_requested c) as Hf.
  destruct (sand_validate_paths (read_dirs_colon c)) as [pr nread]. destruct (sand_validate_paths (write_dirs_colon c)) as [pw nwrite]. cbn [snd] in *.
  assert (Bad : forall m, ret (oo_err "sandbox" m) s1 = Ret (r, s') ->
    if res_ok r then False else g_sand_status s' = g_sand_status s /\ g_sand_locked s' = g_sand_locked s).
  { intros m H. assert (X : r = oo_err "sandbox" m /\ s' = s1) by (unfold ret in H; split; congruence). destruct X as [-> ->]. by cbn. }
  assert (Weak : forall P : Prop, (if res_ok r then False else g_sand_status s' = g_sand_status s /\ g_sand_locked s' = g_sand_locked s) ->
    if res_ok r then P else g_sand_status s' = g_sand_status s /\ g_sand_locked s' = g_sand_locked s) by (intros P; by destruct (res_ok r)).
  destruct (_ || _); [intros H; exact (Weak _ (Bad _ H))|]. destruct (_ || _); [intros H; exact (Weak _ (Bad _ H))|].
  destruct (_ || _); [intros H; exact (Weak _ (Bad _ H))|]. destruct (64 <? _); [intros H; exact (Weak _ (Bad _ H))|].
  destruct (bool_decide _) eqn:Eb; [|intros H; exact (Weak _ (Bad _ H))]. apply bool_decide_eq_true in Eb. rewrite Eb.
  unfold bind at 1. destruct (sand_apply_linux_landlock_seccomp k cap c nread nwrite s1) as [[r1 s2]| |] eqn:Ea; cbn [run_bind]; [|discriminate|discriminate].
  destruct (linux_path_spec k beneath cap c s1 r1 s2 nread nwrite Hr Hw Hf Ea) as (L1 & L2 & L3).
  destruct (res_ok r1) eqn:Ok; cbn [negb].
  - unfold bind, set_state, ret. cbn [run_bind]. intros H.
    set (fin := with_locked (sand_update_status_from_config c BACKEND_LINUX_LANDLOCK_SECCOMP nread nwrite (sand_store_dirs c s2))) in *.
    assert (X : r = r1 /\ s' = fin) by (split; congruence). destruct X as [-> ->]. rewrite Ok.
    destruct (L3 eq_refl) as [E1 E2 E3 E4]. rewrite K1 in E3, E4. rewrite K3 in E2.
    split; [by split|]. split; [done|]. split; [done|exact Hf].
  - intros H. assert (X : r = r1 /\ s' = s2) by (unfold ret in H; split; congruence). destruct X as [-> ->]. rewrite Ok, L1, L2. done.
Qed.

(** Reading process memory needs a ruleset, not a kernel that could have
    one: a successful [oo_proc_mem_read] happens only after
    [oo_landlock_restrict] has enforced one, for at most 2^20 bytes at an
    offset of at most 2^47, and returns what the read gave; any other outcome
    is the empty failure. *)
Theorem proc_mem_needs_applied_ruleset k cap offset n s r s' :
  oo_proc_mem_read k cap offset n s = Ret (r, s') ->
  (res_ok r = true /\ g_ll_applied (lls s) = true /\ oo_landlock_is_available (ll k) = true /\
     0 < n <= 2 ^ 20 /\ 0 <= offset <= 2 ^ 47 /\ exists b, mem_read k offset n = Some b /\ b <> [] /\ res_val r = str_of b) \/
  r = mkResS false (str_of []).
Proof.
  unfold oo_proc_mem_read, bind at 1. destruct (require_sys cap s) as [[u s1]| |] eqn:Eg; cbn [run_bind]; [|discriminate|discriminate].
  pose proof (keeps_applied _ _ (quiet_gate cap _ _ _ Eg)) as Ka.
  set (fail := ret (mkResS false (oo_str_lit ""))). assert (Bad : forall P, fail s1 = Ret (r, s') -> P \/ r = mkResS false (str_of [])).
  { intros P H. right. assert (X : r = mkResS false (oo_str_lit "")) by (unfold fail, ret in H; congruence). exact X. }
  change (Z.shiftl 1 20) with (2 ^ 20). change (Z.shiftl 1 47) with (2 ^ 47).
  destruct (Z.leb_spec n 0); cbn [orb]; [apply Bad|]. destruct (Z.ltb_spec (2 ^ 20) n); [apply Bad|].
  destruct (Z.ltb_spec offset 0); [apply Bad|]. destruct (Z.ltb_spec (2 ^ 47) offset); [apply Bad|].
  destruct (oo_landlock_is_available (ll k)); cbn [negb]; [|apply Bad]. unfold bind, get_state. cbn [run_bind].
  unfold oo_landlock_is_applied. rewrite Ka. destruct (g_ll_applied (lls s)); cbn [negb]; [|apply Bad].
  destruct (mem_open k); cbn [negb]; [|apply Bad]. destruct (mem_seek k offset); cbn [negb]; [|apply Bad].
  destruct (mem_read k offset n) as [[|x b]|]; [apply Bad| |apply Bad]. intros Hread. left.
  assert (X : r = mkResS true (str_of (x :: b))) by (unfold ret in Hread; congruence). rewrite X.
  split; [done|]. split; [done|]. split; [done|]. split; [lia|]. split; [lia|]. exists (x :: b). done.
Qed.
End keeping.

(** * Witnesses *)

Definition wit_sys_kernel : kernel :=
  mkSysKernel wit_kernel true abi_x86_64 ok_env (fun _ => Some (100, 200)) (fun _ _ => true) true (fun _ => true) (fun _ _ => Some [7]).
Definition wit_sandbox : sstate := mkS wit_ll capf_start [] false (-1) status_start [] [].
Definition wit_config : sandbox_config := mkConfig 1 (oo_str_lit "/usr:/bin") (oo_str_lit "/tmp") 0 10 0 false.
Definition wit_applied : sstate := Eval vm_compute in
  match @oo_sandbox_apply_matrix wit_entropy wit_sys_kernel wit_sys (Some wit_config) wit_sandbox with Ret (_, s) => s | _ => sstart end.
Lemma sandbox_matrix_enforces_witness :
  oodar_cap_is_sandboxed (cf wit_applied) = true /\ exists l, layers (lls wit_applied) = [l].
Proof.
  pose proof (@sandbox_matrix_enforces wit_entropy wit_sys_kernel (fun e p => e = p) wit_sys wit_config wit_sandbox
    (oo_ok "OK_LINUX_LANDLOCK_SECCOMP_ENFORCED") wit_applied
    ltac:(apply wf_str_of, bytesb_ok; reflexivity) ltac:(apply wf_str_of, bytesb_ok; reflexivity) ltac:(vm_compute; reflexivity)) as (En & _).
  split; [exact (enf_filter _ _ _ _ _ En)|]. destruct (enf_ruleset _ _ _ _ _ En eq_refl) as (l & Hl & _). exists l. exact Hl.
Defined.
Lemma proc_mem_needs_applied_ruleset_witness : g_ll_applied (lls wit_applied) = true.
Proof.
  destruct (@proc_mem_needs_applied_ruleset wit_entropy wit_sys_kernel wit_sys 4096 1 wit_applied (mkResS true (str_of [7])) wit_applied
    ltac:(vm_compute; reflexivity)) as [(_ & H & _)|H]; [exact H|discriminate H].
Defined.
