(* ===== verification/Intern.v ===== *)
(** The interning of short and static strings ([core/str/str_intern.c] and
    [str_from_int.c]).

    A C string is a place in memory ([Loc]) and a length; [read] gives the
    header flags and the bytes from the place on.  One thread's state is its
    own slab (entries and a hash table of 16-bit indices, probed by triangular
    steps) and the pool of nodes shared by all threads: a heap of nodes and
    the 4096 chains that the code walks without the lock and again under it.
    What other threads do between the two walks is the argument [mid].
    [calloc] and [malloc] are parameters that say whether they succeed. *)
From S2P Require Import Prelude Str.
From stdpp Require Import gmap.
Open Scope Z_scope.

Definition OO_FLAG_STATIC : Z := 1.
Definition OO_FLAG_ASCII : Z := Z.shiftl 1 7.
Definition OO_SLAB_CAP : nat := Z.to_nat 16384.
Definition OO_SLAB_HASH_SIZE : nat := Z.to_nat 32768.
Definition OO_SLAB_HASH_MASK : Z := 32767.
Definition OO_INTERN_BUCKETS : Z := 4096.
Definition OO_INT_INTERN : Z := 8192.

Inductive Loc : Type := LEmpty | LAscii (c : Z) | LSlab (idx : nat) | LNode (a : nat) | LInt (n : Z).
(** An interned [OoStr]. *)
Record IStr := mkI { i_loc : Loc; i_len : Z }.

Record Entry := mkEntry { e_flags : Z; e_data : list Z }.
Record OoStrSlabPool := mkSlab { entries : list Entry; hash_tab : list Z; count : nat }.
(** What [calloc] gives. *)
Definition empty_entry : Entry := {| e_flags := 0; e_data := zeros 16 |}.
Definition empty_slab : OoStrSlabPool :=
  {| entries := repeat empty_entry OO_SLAB_CAP; hash_tab := zeros OO_SLAB_HASH_SIZE; count := 0 |}.
Definition entry (s : OoStrSlabPool) (i : nat) : Entry := nth i (entries s) empty_entry.

(** [OoInternNode]: its length, header flags and payload. *)
Record Node := mkNode { n_len : Z; n_flags : Z; n_data : list Z }.
Record Pool := mkPool { heap : gmap nat Node; chains : list (list nat); next_addr : nat }.
Definition empty_pool : Pool := {| heap := ∅; chains := repeat [] (Z.to_nat OO_INTERN_BUCKETS); next_addr := 0 |}.
Definition chain (t : Pool) (b : nat) : list nat := nth b (chains t) [].

Record Istate := mkIst { slab : option OoStrSlabPool; pool : Pool; ints : gmap Z (list Z) }.
Definition init_state : Istate := {| slab := None; pool := empty_pool; ints := ∅ |}.
Definition slab_of (o : option OoStrSlabPool) : OoStrSlabPool := match o with Some s => s | None => empty_slab end.

(** [OO_A1 (c)] and the empty string. *)
Definition ascii_flags (c : Z) : Z := if c <? 128 then Z.lor OO_FLAG_STATIC OO_FLAG_ASCII else OO_FLAG_STATIC.
Definition read (st : Istate) (l : Loc) : option (Z * list Z) :=
  match l with
  | LEmpty => Some (Z.lor OO_FLAG_STATIC OO_FLAG_ASCII, [0])
  | LAscii c => Some (ascii_flags c, [c; 0])
  | LSlab i => Some (e_flags (entry (slab_of (slab st)) i), e_data (entry (slab_of (slab st)) i))
  | LNode a => match heap (pool st) !! a with Some n => Some (n_flags n, n_data n) | None => None end
  | LInt n => match ints st !! n with Some d => Some (OO_FLAG_STATIC, d) | None => None end
  end.

(** * Operations *)

Definition oo_str_ascii_intern (c : Z) : IStr := {| i_loc := LAscii (u8 c); i_len := 1 |}.
(** FNV-1a over [n] bytes. *)
Definition fnv (p : list Z) (n : nat) : Z := foldl (fun h c => u32 (Z.lxor h c * 16777619)) 2166136261 (take n p).
Definition or_bytes (p : list Z) (n : nat) : Z := foldl Z.lor 0 (take n p).
Definition intern_flags (p : list Z) (n : nat) : Z :=
  Z.lor OO_FLAG_STATIC (if Z.land (or_bytes p n) 0x80 =? 0 then OO_FLAG_ASCII else 0).

(** The probe: the index of a matching entry, or the free slot it stops at;
    [None] when the fuel is out. *)
Fixpoint probe (fuel : nat) (s : OoStrSlabPool) (p : list Z) (n : nat) (slot step : Z) : option (nat + Z) :=
  match fuel with
  | O => None
  | S fuel =>
      let h := (hash_tab s).[Z.to_nat slot] in
      if h =? 0 then Some (inr slot)
      else
        let idx := Z.to_nat (u16 (h - 1)) in
        if ((e_data (entry s idx)).[n] =? 0) && mem_eq (e_data (entry s idx)) 0 p n then Some (inl idx)
        else probe fuel s p n (Z.land (slot + step) OO_SLAB_HASH_MASK) (step + 1)
  end.
(** [memcpy] of the bytes and the terminator into a zeroed entry. *)
Definition fill (d : list Z) (p : list Z) (n : nat) : list Z := take n p ++ [0] ++ drop (S n) d.
Definition slab_insert (s : OoStrSlabPool) (p : list Z) (n : nat) (slot : Z) : OoStrSlabPool :=
  let idx := count s in
  {| entries := <[idx := {| e_flags := intern_flags p n; e_data := fill (e_data (entry s idx)) p n |}]> (entries s);
     hash_tab := upd (hash_tab s) (Z.to_nat slot) (u16 (u16 (Z.of_nat idx) + 1));
     count := S idx |}.
(** The slab part: [Some] a string and the slab, or [None] when it is full. *)
Definition slab_intern (s : OoStrSlabPool) (p : list Z) (n : nat) : run (option IStr * OoStrSlabPool) :=
  match probe OO_SLAB_HASH_SIZE s p n (Z.land (fnv p n) OO_SLAB_HASH_MASK) 1 with
  | None => Undefined
  | Some (inl idx) => Ret (Some {| i_loc := LSlab idx; i_len := Z.of_nat n |}, s)
  | Some (inr slot) =>
      if (count s <? OO_SLAB_CAP)%nat
      then Ret (Some {| i_loc := LSlab (count s); i_len := Z.of_nat n |}, slab_insert s p n slot)
      else Ret (None, s)
  end.

(** The walk of one chain. *)
Fixpoint walk (h : gmap nat Node) (l : list nat) (p : list Z) (n : nat) : option nat :=
  match l with
  | [] => None
  | a :: l =>
      match h !! a with
      | Some nd => if (n_len nd =? Z.of_nat n) && mem_eq (n_data nd) 0 p n then Some a else walk h l p n
      | None => None
      end
  end.
Definition node_of (p : list Z) (n : nat) : Node :=
  {| n_len := Z.of_nat n; n_flags := intern_flags p n; n_data := take n p ++ [0] |}.
Definition pool_insert (t : Pool) (b : nat) (nd : Node) : Pool :=
  {| heap := <[next_addr t := nd]> (heap t); chains := <[b := next_addr t :: chain t b]> (chains t); next_addr := S (next_addr t) |}.
(** The chain part: a walk without the lock, then under it on what the other
    threads ([mid]) left, then a new node. *)
Definition pool_intern (malloc_ok : bool) (mid : Pool -> Pool) (t : Pool) (p : list Z) (n : nat) : run (IStr * Pool) :=
  let b := Z.to_nat (fnv p n mod OO_INTERN_BUCKETS) in
  match walk (heap t) (chain t b) p n with
  | Some a => Ret ({| i_loc := LNode a; i_len := Z.of_nat n |}, t)
  | None =>
      let t := mid t in
      match walk (heap t) (chain t b) p n with
      | Some a => Ret ({| i_loc := LNode a; i_len := Z.of_nat n |}, t)
      | None =>
          if malloc_ok then Ret ({| i_loc := LNode (next_addr t); i_len := Z.of_nat n |}, pool_insert t b (node_of p n))
          else Exited ABRT
      end
  end.
Definition oo_str_intern_bytes (calloc_ok malloc_ok : bool) (mid : Pool -> Pool) (p : option (list Z)) (n : Z) : ST Istate IStr := fun st =>
  match p with
  | None => Ret ({| i_loc := LEmpty; i_len := 0 |}, st)
  | Some p =>
      if n <=? 0 then Ret ({| i_loc := LEmpty; i_len := 0 |}, st)
      else if n =? 1 then Ret (oo_str_ascii_intern p.[0], st)
      else
        let n := Z.to_nat n in
        let slow (st : Istate) :=
          let* r := pool_intern malloc_ok mid (pool st) p n in
          let '(s, t) := r in Ret (s, {| slab := slab st; pool := t; ints := ints st |}) in
        if (n <=? 15)%nat then
          if bool_decide (slab st = None) && negb calloc_ok then Exited ABRT
          else
            let* r := slab_intern (slab_of (slab st)) p n in
            let '(o, s) := r in
            let st := {| slab := Some s; pool := pool st; ints := ints st |} in
            match o with Some i => Ret (i, st) | None => slow st end
        else slow st
  end.

(** [g_int_build] and [oo_int_intern]: a built entry is kept. *)
Definition g_int_build (n : Z) : list Z := dec n ++ zeros (8 - length (dec n)).
Definition oo_int_intern (calloc_ok malloc_ok : bool) (mid : Pool -> Pool) (n : Z) : ST Istate IStr := fun st =>
  if (0 <=? n) && (n <? OO_INT_INTERN) then
    let st := match ints st !! n with
              | Some _ => st
              | None => {| slab := slab st; pool := pool st; ints := <[n := g_int_build n]> (ints st) |}
              end in
    Ret ({| i_loc := LInt n; i_len := Z.of_nat (length (dec n)) |}, st)
  else oo_str_intern_bytes calloc_ok malloc_ok mid (Some (dec n)) (Z.of_nat (length (dec n))) st.

(** * The probe visits every slot *)

Definition tri (k : nat) : Z := Z.of_nat k * (Z.of_nat k + 1) / 2.
Lemma tri_twice k : 2 * tri k = Z.of_nat k * (Z.of_nat k + 1).
Proof.
  unfold tri. symmetry. apply Z_div_exact_full_2; [lia|]. rewrite Zmod_even, Z.even_mul, Z.even_add. by destruct (Z.even (Z.of_nat k)).
Qed.
Lemma odd_gauss x y : Z.odd x = true -> (65536 | x * y) -> (65536 | y).
Proof.
  intros Ho D. apply (Z.gauss 65536 x); [done|]. rewrite Z.gcd_comm. change 65536 with (2 ^ 16). apply Z.coprime_pow_r; [lia|].
  unfold Z.coprime. pose proof (Z.gcd_divide_l x 2) as [a A]. pose proof (Z.gcd_divide_r x 2) as Db. pose proof (Z.gcd_nonneg x 2) as G.
  pose proof (Z.divide_pos_le _ 2 Z.lt_0_2 Db) as L. destruct Db as [b B]. set (g := Z.gcd x 2) in *. clearbody g.
  assert (g = 0 \/ g = 1 \/ g = 2) as [E|[E|E]] by lia; [rewrite E in B; lia|done|]. rewrite A, E, Z.odd_mul, andb_false_r in Ho. done.
Qed.
Lemma tri_inj v i j : Z.of_nat i < 32768 -> Z.of_nat j < 32768 -> (v + tri i) mod 32768 = (v + tri j) mod 32768 -> i = j.
Proof.
  intros Hi Hj H. pose proof (tri_twice i) as Ti. pose proof (tri_twice j) as Tj.
  assert (exists q, tri i - tri j = 32768 * q) as [q Q].
  { exists ((v + tri i) / 32768 - (v + tri j) / 32768). lia. }
  assert (P : (Z.of_nat i - Z.of_nat j) * (Z.of_nat i + Z.of_nat j + 1) = q * 65536) by nia.
  destruct (Z.odd (Z.of_nat i - Z.of_nat j)) eqn:O.
  - assert (D : (65536 | Z.of_nat i + Z.of_nat j + 1)) by (eapply odd_gauss; [exact O|]; exists q; exact P).
    destruct D as [c C]. lia.
  - assert (D : (65536 | Z.of_nat i - Z.of_nat j)).
    { eapply (odd_gauss (Z.of_nat i + Z.of_nat j + 1)); [|exists q; lia].
      replace (Z.of_nat i + Z.of_nat j + 1) with ((Z.of_nat i - Z.of_nat j) + (2 * Z.of_nat j + 1)) by lia.
      rewrite Z.odd_add, O, Z.odd_add, Z.odd_mul. done. }
    destruct D as [c C]. lia.
Qed.

Lemma next_slot v k : Z.land ((v + tri k) mod 32768 + (Z.of_nat k + 1)) OO_SLAB_HASH_MASK = (v + tri (S k)) mod 32768.
Proof.
  unfold OO_SLAB_HASH_MASK. rewrite (land_mod _ 15) by lia. change (2 ^ 15) with 32768.
  pose proof (tri_twice k). pose proof (tri_twice (S k)). lia.
Qed.
(** How many cells of the table are in use. *)
Definition used (t : list Z) : list nat := List.filter (fun i => negb (t.[i] =? 0)) (seq 0 (length t)).
Lemma probe_none fuel s p n v k : probe fuel s p n ((v + tri k) mod 32768) (Z.of_nat k + 1) = None ->
  forall j, (j < fuel)%nat -> (hash_tab s).[Z.to_nat ((v + tri (k + j)) mod 32768)] <> 0.
Proof.
  revert k. induction fuel as [|fuel IH]; intros k H j Hj; [lia|]. cbn [probe] in H.
  destruct (Z.eqb_spec (hash_tab s).[Z.to_nat ((v + tri k) mod 32768)] 0) as [|X]; [done|].
  destruct j as [|j]; [by rewrite Nat.add_0_r|].
  destruct ((_ =? 0) && _); [done|]. rewrite next_slot in H. replace (Z.of_nat k + 1 + 1) with (Z.of_nat (S k) + 1) in H by lia.
  replace (k + S j)%nat with (S k + j)%nat by lia. apply IH; [done|lia].
Qed.
Lemma hash_size : Z.of_nat OO_SLAB_HASH_SIZE = 32768.
Proof. exact (Z2Nat.id 32768 ltac:(lia)). Qed.
Lemma slab_cap : Z.of_nat OO_SLAB_CAP = 16384.
Proof. exact (Z2Nat.id 16384 ltac:(lia)). Qed.
Lemma probe_full N s p n v : Z.of_nat N = 32768 -> length (hash_tab s) = N -> 0 <= v < 32768 ->
  probe N s p n v 1 = None -> (N <= length (used (hash_tab s)))%nat.
Proof.
  intros Z32 Hl Hv H.
  pose proof (probe_none N s p n v 0) as Q. replace ((v + tri 0) mod 32768) with v in Q by (change (tri 0) with 0; lia).
  specialize (Q H). cbn [Nat.add] in Q.
  set (slots := map (fun j => Z.to_nat ((v + tri j) mod 32768)) (seq 0 N)).
  assert (L : length slots = N) by (unfold slots; by rewrite length_map, length_seq). rewrite <- L. apply List.NoDup_incl_length.
  - unfold slots. apply NoDup_ListNoDup. apply NoDup_fmap_2_strong; [|apply NoDup_seq]. intros i j Hi%elem_of_seq Hj%elem_of_seq E.
    apply (tri_inj v); lia.
  - intros x Hx. unfold slots in Hx. apply in_map_iff in Hx as (j & <- & Hj%in_seq). apply filter_In. split; [apply in_seq; lia|].
    specialize (Q j ltac:(lia)). destruct (Z.eqb_spec (hash_tab s).[Z.to_nat ((v + tri j) mod 32768)] 0); [done|done].
Qed.

(** * The slab *)

(** Header flags of interned bytes: static, and ASCII only if they are. *)
Definition good_flags (f : Z) (d : list Z) : Prop := Z.testbit f 0 = true /\ (Z.testbit f 7 = true -> Forall (fun c => 0 <= c < 128) d).
Definition wf_slab (s : OoStrSlabPool) : Prop :=
  length (entries s) = OO_SLAB_CAP /\ length (hash_tab s) = OO_SLAB_HASH_SIZE /\ (count s <= OO_SLAB_CAP)%nat /\
  (length (used (hash_tab s)) <= count s)%nat /\ (forall i, 0 <= (hash_tab s).[i] <= Z.of_nat (count s)) /\
  (forall i, length (e_data (entry s i)) = 16%nat) /\ (forall i, (i < count s)%nat -> good_flags (e_flags (entry s i)) (e_data (entry s i))) /\
  (forall i, (count s <= i)%nat -> entry s i = empty_entry).
(** What later interning leaves of a slab. *)
Definition slab_ext (s s' : OoStrSlabPool) : Prop :=
  (count s <= count s')%nat /\ (forall i, (i < count s)%nat -> entry s' i = entry s i) /\
  (forall i, (hash_tab s).[i] <> 0 -> (hash_tab s').[i] = (hash_tab s).[i]) /\ (count s = OO_SLAB_CAP -> s' = s).

Lemma slab_ext_refl s : slab_ext s s.
Proof. repeat split; auto. Qed.
Lemma slab_ext_trans s1 s2 s3 : slab_ext s1 s2 -> slab_ext s2 s3 -> slab_ext s1 s3.
Proof.
  intros (C1 & E1 & T1 & F1) (C2 & E2 & T2 & F2). split; [lia|]. split; [intros i Hi; rewrite E2, E1 by lia; done|]. split.
  - intros i Hi. rewrite T2, T1; [done|done|by rewrite T1].
  - intros C. pose proof (F1 C) as ->. by apply F2.
Qed.
Lemma used_upd t i v : (length (used (upd t i v)) <= S (length (used t)))%nat.
Proof.
  change (S (length (used t))) with (length (i :: used t)). apply List.NoDup_incl_length.
  - apply List.NoDup_filter, List.seq_NoDup.
  - intros x Hx. apply filter_In in Hx as [Hr Hx]. rewrite length_upd in Hr. destruct (Nat.eq_dec x i) as [->|Hne]; [by left|].
    right. rewrite get_upd_ne in Hx by done. by apply filter_In.
Qed.
Lemma entry_empty i : entry empty_slab i = empty_entry.
Proof.
  unfold entry, empty_slab. cbn [entries]. destruct (nth_in_or_default i (repeat empty_entry OO_SLAB_CAP) empty_entry) as [H|H]; [|done].
  by apply repeat_spec in H.
Qed.
Lemma wf_empty_slab : wf_slab empty_slab.
Proof.
  unfold wf_slab, empty_slab. cbn [entries hash_tab count]. fold empty_slab.
  split; [apply repeat_length|]. split; [apply length_zeros|]. split; [lia|]. split.
  { unfold used. rewrite (List.filter_ext_in _ (fun _ => false)); [|intros i _; by rewrite get_zeros]. induction (seq _ _); cbn in *; lia. }
  split; [intros i; rewrite get_zeros; lia|]. split; [intros i; by rewrite entry_empty|]. split; [lia|]. intros i _. apply entry_empty.
Qed.

Lemma mem_eq_ext d p q n : take n p = take n q -> mem_eq d 0 p n = mem_eq d 0 q n.
Proof.
  intros H. unfold mem_eq. apply eq_iff_eq_true. rewrite !forallb_forall.
  assert (G : forall i, In i (seq 0 n) -> p.[i] = q.[i]) by (intros i Hi%in_seq; rewrite <- (get_take n p), <- (get_take n q), H by lia; done).
  split; intros X i Hi; specialize (X i Hi); rewrite (G i Hi) in *; done.
Qed.
Lemma probe_ext_arg f s p q n slot step : take n p = take n q -> probe f s p n slot step = probe f s q n slot step.
Proof.
  intros H. revert slot step. induction f as [|f IH]; intros slot step; [done|]. cbn [probe]. rewrite (mem_eq_ext _ p q n H).
  destruct (_ =? 0); [done|]. destruct ((_ =? 0) && _); [done|]. apply IH.
Qed.
Lemma index_of_cell s i : wf_slab s -> (hash_tab s).[i] <> 0 -> (Z.to_nat (u16 ((hash_tab s).[i] - 1)) < count s)%nat.
Proof.
  intros (_ & _ & C & _ & T & _) Hi. pose proof slab_cap. specialize (T i). rewrite u16_id by lia. lia.
Qed.
Lemma land_mask_range x : 0 <= Z.land x OO_SLAB_HASH_MASK < 32768.
Proof. unfold OO_SLAB_HASH_MASK. rewrite (land_mod _ 15) by lia. apply Z.mod_pos_bound. lia. Qed.
Lemma probe_result f s p n slot step r : wf_slab s -> 0 <= slot < 32768 -> probe f s p n slot step = Some r ->
  match r with
  | inl idx => (idx < count s)%nat /\ (e_data (entry s idx)).[n] = 0 /\ mem_eq (e_data (entry s idx)) 0 p n = true
  | inr slot => 0 <= slot < 32768 /\ (hash_tab s).[Z.to_nat slot] = 0
  end.
Proof.
  intros Hw. revert slot step. induction f as [|f IH]; intros slot step Hs H; [done|]. cbn [probe] in H.
  destruct (Z.eqb_spec (hash_tab s).[Z.to_nat slot] 0) as [X|X]; [injection H as <-; done|].
  destruct (Z.eqb_spec (e_data (entry s (Z.to_nat (u16 ((hash_tab s).[Z.to_nat slot] - 1))))).[n] 0) as [Y|Y]; cbn [andb] in H.
  - destruct (mem_eq _ 0 p n) eqn:M; [injection H as <-; split; [by apply index_of_cell|done]|].
    eapply IH; [|exact H]. apply land_mask_range.
  - eapply IH; [|exact H]. apply land_mask_range.
Qed.
Lemma probe_found_ext f s s' p n slot step idx : wf_slab s -> slab_ext s s' ->
  probe f s p n slot step = Some (inl idx) -> probe f s' p n slot step = Some (inl idx).
Proof.
  intros Hw (C & E & T & _). revert slot step. induction f as [|f IH]; intros slot step H; [done|]. cbn [probe] in H |- *.
  destruct (Z.eqb_spec (hash_tab s).[Z.to_nat slot] 0) as [X|X]; [done|]. rewrite (T _ X).
  rewrite (E _ (index_of_cell s _ Hw X)). destruct (Z.eqb_spec (hash_tab s).[Z.to_nat slot] 0); [done|].
  destruct ((_ =? 0) && _); [done|]. by apply IH.
Qed.

Section fill.
Context (p : list Z) (n : nat) (Hn : (n <= 15)%nat) (Hp : (n <= length p)%nat).
Lemma length_fill d : length d = 16%nat -> length (fill d p n) = 16%nat.
Proof. intros Hd. unfold fill. rewrite !length_app, length_take, length_drop. cbn [length]. lia. Qed.
Lemma fill_take d : take n (fill d p n) = take n p.
Proof. unfold fill. apply take_app_length'. rewrite length_take. lia. Qed.
Lemma fill_nul d : (fill d p n).[n] = 0.
Proof. unfold fill. rewrite get_app_r; rewrite length_take; [|lia]. by replace (n - n `min` length p)%nat with 0%nat by lia. Qed.
Lemma fill_mem_eq d : length d = 16%nat -> mem_eq (fill d p n) 0 p n = true.
Proof.
  intros Hd. apply mem_eq_spec; [rewrite length_fill; lia|done|]. unfold slice. rewrite drop_0. apply fill_take.
Qed.
End fill.

Section insert.
Context (s : OoStrSlabPool) (p : list Z) (n : nat) (slot : Z).
Context (Hw : wf_slab s) (Hb : bytes p) (Hn : (n <= 15)%nat) (Hp : (n <= length p)%nat).
Context (Hc : (count s < OO_SLAB_CAP)%nat) (Hs : 0 <= slot < 32768) (Hz : (hash_tab s).[Z.to_nat slot] = 0).
Let s' := slab_insert s p n slot.

Lemma entry_insert_ne i : i <> count s -> entry s' i = entry s i.
Proof. intros H. unfold entry, s', slab_insert. cbn [entries]. by rewrite !nth_lookup, list_lookup_insert_ne by done. Qed.
Lemma entry_insert_eq : entry s' (count s) = {| e_flags := intern_flags p n; e_data := fill (e_data (entry s (count s))) p n |}.
Proof.
  unfold entry at 1, s', slab_insert. cbn [entries]. rewrite nth_lookup, list_lookup_insert_eq; [done|].
  destruct Hw as (-> & _). done.
Qed.
Lemma cell_insert_ne i : i <> Z.to_nat slot -> (hash_tab s').[i] = (hash_tab s).[i].
Proof. intros H. unfold s', slab_insert. cbn [hash_tab]. by apply get_upd_ne. Qed.
Lemma cell_insert_eq : (hash_tab s').[Z.to_nat slot] = Z.of_nat (count s) + 1.
Proof.
  unfold s', slab_insert. cbn [hash_tab]. destruct Hw as (_ & L & _). pose proof slab_cap. pose proof hash_size.
  rewrite get_upd_eq by lia. rewrite (u16_id (Z.of_nat _)), u16_id by lia. done.
Qed.
Lemma insert_ext : slab_ext s s'.
Proof.
  split; [cbn; lia|]. split; [intros; apply entry_insert_ne; lia|]. split; [|intros; lia].
  intros i Hi. destruct (Nat.eq_dec i (Z.to_nat slot)) as [->|]; [done|]. by apply cell_insert_ne.
Qed.
Lemma probe_insert f st step : probe f s p n st step = Some (inr slot) -> 0 <= st < 32768 -> probe f s' p n st step = Some (inl (count s)).
Proof.
  revert st step. induction f as [|f IH]; intros st step H Hst; [done|]. cbn [probe] in H |- *.
  destruct (Z.eqb_spec (hash_tab s).[Z.to_nat st] 0) as [X|X].
  - injection H as ->. rewrite cell_insert_eq. destruct (Z.eqb_spec (Z.of_nat (count s) + 1) 0); [lia|].
    pose proof slab_cap. rewrite u16_id by lia. replace (Z.to_nat (Z.of_nat (count s) + 1 - 1)) with (count s) by lia.
    rewrite entry_insert_eq. cbn [e_data]. destruct Hw as (_ & _ & _ & _ & _ & E & _). by rewrite fill_nul, fill_mem_eq by (done || apply E).
  - rewrite cell_insert_ne by (intros Q; rewrite Q in X; done). pose proof (index_of_cell s _ Hw X).
    rewrite entry_insert_ne by lia. destruct (Z.eqb_spec (hash_tab s).[Z.to_nat st] 0); [done|].
    destruct ((_ =? 0) && _); [done|]. apply IH; [done|]. apply land_mask_range.
Qed.
End insert.

Lemma foldl_lor_testbit l a k : 0 <= k -> Z.testbit (foldl Z.lor a l) k = Z.testbit a k || existsb (fun c => Z.testbit c k) l.
Proof.
  intros Hk. revert a. induction l as [|c l IH]; intros a; cbn [foldl existsb]; [by rewrite orb_false_r|].
  rewrite IH, Z.lor_spec. by rewrite orb_assoc.
Qed.
Lemma byte_bit7 c : isbyte c -> Z.testbit c 7 = false -> 0 <= c < 128.
Proof.
  intros B H. pose proof (byte_forall (fun c => implb (negb (Z.testbit c 7)) (c <? 128)) ltac:(vm_compute; reflexivity) c B) as F.
  cbn beta in F. rewrite H in F. cbn in F. unfold isbyte in B. lia.
Qed.
(** The flags are right for the bytes, also when zeros follow. *)
Lemma intern_flags_good p n m : bytes p -> good_flags (intern_flags p n) (take n p ++ zeros m).
Proof.
  intros Hb. unfold intern_flags. destruct (Z.eqb_spec (Z.land (or_bytes p n) 128) 0) as [E|E]; split; [done| |done|intros X; vm_compute in X; done].
  intros _. apply Forall_app. split; [|apply Forall_forall; intros x Hx%list_elem_of_In%repeat_spec; lia].
  assert (T : Z.testbit (or_bytes p n) 7 = false).
  { rewrite <- (Z.bits_0 7), <- E, Z.land_spec. by rewrite andb_true_r. }
  unfold or_bytes in T. rewrite foldl_lor_testbit in T by lia. cbn [orb] in T. rewrite Z.bits_0 in T. cbn [orb] in T.
  apply Forall_forall. intros c Hc. apply byte_bit7.
  - pose proof (bytes_take n p Hb) as Q. unfold bytes in Q. rewrite Forall_forall in Q. by apply Q.
  - apply not_true_is_false. intros X. apply not_true_iff_false in T. apply T. apply existsb_exists. exists c. split; [by apply list_elem_of_In|done].
Qed.

Lemma insert_wf s p n slot : wf_slab s -> bytes p -> (n <= 15)%nat -> (n <= length p)%nat -> (count s < OO_SLAB_CAP)%nat ->
  0 <= slot < 32768 -> (hash_tab s).[Z.to_nat slot] = 0 -> wf_slab (slab_insert s p n slot).
Proof.
  intros Hw Hb Hn Hp Hc Hs Hz. pose proof Hw as (L1 & L2 & _ & U & T & E & G & Z).
  assert (Ne : forall i, i <> count s -> entry (slab_insert s p n slot) i = entry s i) by (intros; by apply entry_insert_ne).
  pose proof (entry_insert_eq s p n slot Hw Hc) as Eq.
  split; [by cbn; rewrite length_insert|]. split; [cbn; by rewrite length_upd|]. split; [cbn [slab_insert count]; lia|].
  split; [cbn [slab_insert hash_tab count]; pose proof (used_upd (hash_tab s) (Z.to_nat slot) (u16 (u16 (Z.of_nat (count s)) + 1))); lia|].
  change (count (slab_insert s p n slot)) with (S (count s)). split; [|split; [|split]].
  - intros i. destruct (Nat.eq_dec i (Z.to_nat slot)) as [->|X]; [rewrite cell_insert_eq by done; lia|].
    rewrite cell_insert_ne by done. specialize (T i). lia.
  - intros i. destruct (Nat.eq_dec i (count s)) as [->|X]; [|by rewrite Ne]. rewrite Eq. cbn [e_data]. by apply length_fill.
  - intros i Hi. destruct (Nat.eq_dec i (count s)) as [->|X]; [|rewrite Ne by done; apply G; lia]. rewrite Eq. cbn [e_data e_flags].
    rewrite Z by lia. unfold fill. cbn [e_data empty_entry].
    replace ([0] ++ drop (S n) (zeros 16)) with (zeros (S (15 - n))); [by apply intern_flags_good|].
    cbn [app]. rewrite zeros_S. f_equal. unfold zeros. replace 16%nat with (S n + (15 - n))%nat at 1 by lia. rewrite repeat_app. by rewrite drop_app_length' by (by rewrite repeat_length).
  - intros i Hi. rewrite Ne by lia. apply Z. lia.
Qed.

Lemma probe_total s p n v : wf_slab s -> 0 <= v < 32768 -> probe OO_SLAB_HASH_SIZE s p n v 1 <> None.
Proof.
  intros (_ & L & C & U & _) Hv H. pose proof (probe_full _ s p n v hash_size L Hv H). pose proof hash_size. pose proof slab_cap. lia.
Qed.

(** What a returned place of the slab holds. *)
Definition slab_holds (s : OoStrSlabPool) (idx : nat) (p : list Z) (n : nat) : Prop :=
  (idx < count s)%nat /\ take n (e_data (entry s idx)) = take n p /\ (e_data (entry s idx)).[n] = 0.
Lemma slab_intern_spec s p n : wf_slab s -> bytes p -> (n <= 15)%nat -> (n <= length p)%nat ->
  exists o s', slab_intern s p n = Ret (o, s') /\ wf_slab s' /\ slab_ext s s' /\
    match o with Some r => exists idx, r = mkI (LSlab idx) (Z.of_nat n) /\ slab_holds s' idx p n | None => True end /\
    (forall s'' q, wf_slab s'' -> slab_ext s' s'' -> take n q = take n p -> slab_intern s'' q n = Ret (o, s'')).
Proof.
  intros Hw Hb Hn Hp. set (v := Z.land (fnv p n) OO_SLAB_HASH_MASK).
  assert (Hv : 0 <= v < 32768) by apply land_mask_range.
  assert (Again : forall s'' q, take n q = take n p -> slab_intern s'' q n = slab_intern s'' p n).
  { intros s'' q Q. unfold slab_intern. rewrite (probe_ext_arg _ s'' q p) by done. unfold fnv. rewrite Q.
    destruct (probe _ _ _ _ _ _) as [[]|] eqn:E; [done| |done]. unfold slab_insert, fill, intern_flags, or_bytes. by rewrite Q. }
  assert (Holds : forall s0 idx, wf_slab s0 -> probe OO_SLAB_HASH_SIZE s0 p n v 1 = Some (inl idx) -> slab_holds s0 idx p n).
  { intros s0 idx W E. destruct (probe_result _ _ _ _ _ _ _ W Hv E) as (I & N & M). split; [done|]. split; [|done].
    apply mem_eq_spec in M; [unfold slice in M; by rewrite drop_0 in M| |done]. destruct W as (_ & _ & _ & _ & _ & W & _). rewrite W. lia. }
  assert (Found : forall s0 idx, wf_slab s0 -> probe OO_SLAB_HASH_SIZE s0 p n v 1 = Some (inl idx) -> forall s'' q, wf_slab s'' -> slab_ext s0 s'' -> take n q = take n p ->
    slab_intern s'' q n = Ret (Some (mkI (LSlab idx) (Z.of_nat n)), s'')).
  { intros s0 idx W E s'' q W'' X Q. rewrite Again by done. unfold slab_intern. fold v. by rewrite (probe_found_ext _ s0 s'' p n v 1 idx W X E). }
  unfold slab_intern at 1. fold v. destruct (probe OO_SLAB_HASH_SIZE s p n v 1) as [[idx|slot]|] eqn:E; [| |by apply probe_total in E].
  - eexists _, s. split; [reflexivity|]. split; [done|]. split; [apply slab_ext_refl|]. split; [exists idx; split; [done|by apply Holds]|].
    exact (Found s idx Hw E).
  - destruct (probe_result _ _ _ _ _ _ _ Hw Hv E) as [Hs Hz]. destruct (Nat.ltb_spec (count s) OO_SLAB_CAP) as [C|C].
    + pose proof (insert_wf s p n slot Hw Hb Hn Hp C Hs Hz) as W'. assert (X : slab_ext s (slab_insert s p n slot)) by by apply insert_ext.
      assert (P : probe OO_SLAB_HASH_SIZE (slab_insert s p n slot) p n v 1 = Some (inl (count s))) by by apply probe_insert.
      eexists _, (slab_insert s p n slot). split; [reflexivity|]. split; [done|]. split; [done|].
      split; [exists (count s); split; [done|by apply Holds]|]. exact (Found _ _ W' P).
    + eexists None, s. split; [reflexivity|]. split; [done|]. split; [apply slab_ext_refl|]. split; [done|].
      intros s'' q W'' (_ & _ & _ & F) Q. destruct Hw as (_ & _ & C' & _). rewrite (F ltac:(lia)), Again by done. unfold slab_intern. fold v.
      rewrite E. by destruct (Nat.ltb_spec (count s) OO_SLAB_CAP); [lia|].
Qed.

(** * The shared pool *)

Definition good_node (nd : Node) : Prop :=
  exists l, n_data nd = l ++ [0] /\ n_len nd = Z.of_nat (length l) /\ good_flags (n_flags nd) (n_data nd).
Definition wf_pool (t : Pool) : Prop :=
  length (chains t) = Z.to_nat OO_INTERN_BUCKETS /\
  (forall a nd, heap t !! a = Some nd -> (a < next_addr t)%nat /\ good_node nd) /\
  (forall b a, In a (chain t b) -> exists nd, heap t !! a = Some nd) /\
  (forall b a1 a2 nd1 nd2, In a1 (chain t b) -> In a2 (chain t b) -> heap t !! a1 = Some nd1 -> heap t !! a2 = Some nd2 ->
     n_data nd1 = n_data nd2 -> a1 = a2).
Definition pool_ext (t t' : Pool) : Prop :=
  heap t ⊆ heap t' /\ (forall b, exists l, chain t' b = l ++ chain t b) /\ (next_addr t <= next_addr t')%nat.
(** What other threads may do. *)
Definition good_mid (mid : Pool -> Pool) : Prop := forall t, wf_pool t -> wf_pool (mid t) /\ pool_ext t (mid t).

Lemma pool_ext_refl t : pool_ext t t.
Proof. split; [done|]. split; [intros b; by exists []|lia]. Qed.
Lemma pool_ext_trans t1 t2 t3 : pool_ext t1 t2 -> pool_ext t2 t3 -> pool_ext t1 t3.
Proof.
  intros (H1 & C1 & N1) (H2 & C2 & N2). split; [by etrans|]. split; [|lia]. intros b. destruct (C1 b) as [l1 E1], (C2 b) as [l2 E2].
  exists (l2 ++ l1). by rewrite E2, E1, app_assoc.
Qed.
Lemma wf_empty_pool : wf_pool empty_pool.
Proof.
  assert (E : forall b, chain empty_pool b = []).
  { intros b. unfold chain, empty_pool. cbn [chains]. destruct (nth_in_or_default b (repeat ([] : list nat) (Z.to_nat OO_INTERN_BUCKETS)) []) as [H|H]; [by apply repeat_spec in H|done]. }
  split; [apply repeat_length|]. split; [intros a nd; cbn [heap empty_pool]; by rewrite lookup_empty|]. split; intros b; rewrite E; done.
Qed.

Lemma walk_spec t l p n : wf_pool t -> (forall a, In a l -> exists nd, heap t !! a = Some nd) -> (n <= length p)%nat ->
  match walk (heap t) l p n with
  | Some a => In a l /\ exists nd, heap t !! a = Some nd /\ n_data nd = take n p ++ [0]
  | None => forall a nd, In a l -> heap t !! a = Some nd -> n_data nd <> take n p ++ [0]
  end.
Proof.
  intros (_ & Hg & _) Hl Hp. induction l as [|a l IH]; cbn [walk]; [done|].
  destruct (Hl a ltac:(by left)) as [nd Ea]. rewrite Ea. destruct (Hg a nd Ea) as (_ & c & D & L & _).
  assert (M : (n_len nd =? Z.of_nat n) && mem_eq (n_data nd) 0 p n = true <-> n_data nd = take n p ++ [0]).
  { rewrite andb_true_iff. split.
    - intros [X Y]. assert (length c = n) as Lc by lia. apply mem_eq_spec in Y; [|rewrite D, length_app; cbn; lia|done].
      unfold slice in Y. rewrite drop_0, D, take_app_length' in Y by done. by rewrite D, Y.
    - intros X. rewrite D in X. apply app_inj_tail in X as [X _]. assert (length c = n) by (rewrite X, length_take; lia). split; [lia|].
      apply mem_eq_spec; [rewrite D, length_app; cbn; lia|done|]. unfold slice. by rewrite drop_0, D, take_app_length' by done. }
  destruct ((n_len nd =? Z.of_nat n) && _) eqn:E.
  - split; [by left|]. exists nd. split; [done|]. by apply M.
  - specialize (IH ltac:(intros; apply Hl; by right)). destruct (walk _ _ _ _) as [a'|].
    + destruct IH as [I X]. split; [by right|done].
    + intros a' nd' [<-|I] E'; [|by apply (IH a')]. rewrite Ea in E'. injection E' as <-. intros X. apply M in X. congruence.
Qed.
Lemma chain_walk t b p n : wf_pool t -> (n <= length p)%nat ->
  match walk (heap t) (chain t b) p n with
  | Some a => In a (chain t b) /\ exists nd, heap t !! a = Some nd /\ n_data nd = take n p ++ [0]
  | None => forall a nd, In a (chain t b) -> heap t !! a = Some nd -> n_data nd <> take n p ++ [0]
  end.
Proof. intros Hw Hp. apply walk_spec; [done|destruct Hw as (_ & _ & H & _); apply H|done]. Qed.
(** A node found once is the one found ever after. *)
Lemma walk_ext t t' b p q n a nd : wf_pool t' -> pool_ext t t' -> (n <= length q)%nat -> take n q = take n p ->
  In a (chain t b) -> heap t !! a = Some nd -> n_data nd = take n p ++ [0] -> walk (heap t') (chain t' b) q n = Some a.
Proof.
  intros W (Hh & Hc & _) Hq Q I E D. destruct (Hc b) as [l C]. assert (I' : In a (chain t' b)) by (rewrite C; apply in_or_app; by right).
  assert (E' : heap t' !! a = Some nd) by (by eapply lookup_weaken). pose proof (chain_walk t' b q n W Hq) as X.
  rewrite <- Q in D. destruct (walk _ _ _ _) as [a'|].
  - destruct X as (J & nd' & F & G). f_equal. destruct W as (_ & _ & _ & U). eapply (U b a' a nd' nd); eauto. congruence.
  - by destruct (X a nd I' E').
Qed.
Lemma chain_insert t b c nd : wf_pool t -> (b < Z.to_nat OO_INTERN_BUCKETS)%nat ->
  chain (pool_insert t b nd) c = if (c =? b)%nat then next_addr t :: chain t b else chain t c.
Proof.
  intros (L & _) Hb. unfold chain at 1, pool_insert. cbn [chains]. rewrite nth_lookup. destruct (Nat.eqb_spec c b) as [->|].
  - by rewrite list_lookup_insert_eq by (by rewrite L).
  - rewrite list_lookup_insert_ne by done. unfold chain. by rewrite nth_lookup.
Qed.
Lemma pool_insert_ext t b nd : wf_pool t -> (b < Z.to_nat OO_INTERN_BUCKETS)%nat -> pool_ext t (pool_insert t b nd).
Proof.
  intros W Hb. pose proof W as (_ & Hg & _). split; [|split; [|cbn; lia]].
  - cbn. apply insert_subseteq. destruct (heap t !! next_addr t) eqn:E; [|done]. destruct (Hg _ _ E). lia.
  - intros c. rewrite chain_insert by done. destruct (Nat.eqb_spec c b) as [->|]; [by exists [next_addr t]|by exists []].
Qed.
Lemma pool_insert_wf t b nd : wf_pool t -> (b < Z.to_nat OO_INTERN_BUCKETS)%nat -> good_node nd ->
  (forall a nd', In a (chain t b) -> heap t !! a = Some nd' -> n_data nd' <> n_data nd) -> wf_pool (pool_insert t b nd).
Proof.
  intros W Hb Hn Hnew. pose proof W as (L & Hg & Hc & Hu). pose proof (pool_insert_ext t b nd W Hb) as (Hh & _ & _).
  assert (Old : forall c a, In a (chain t c) -> a <> next_addr t).
  { intros c a I ->. destruct (Hc _ _ I) as [x X]. destruct (Hg _ _ X). lia. }
  split; [cbn; by rewrite length_insert|]. split; [|split].
  - intros a x. cbn. destruct (decide (a = next_addr t)) as [->|Ne]; [rewrite lookup_insert_eq; intros [= <-]; split; [lia|done]|].
    rewrite lookup_insert_ne by done. intros E. destruct (Hg _ _ E). split; [lia|done].
  - intros c a. rewrite chain_insert by done. destruct (Nat.eqb_spec c b) as [->|].
    + intros [<-|I]; [exists nd; cbn; apply lookup_insert_eq|]. destruct (Hc _ _ I) as [x X]. exists x. by eapply lookup_weaken.
    + intros I. destruct (Hc _ _ I) as [x X]. exists x. by eapply lookup_weaken.
  - intros c a1 a2 x1 x2. rewrite chain_insert by done. cbn [heap pool_insert].
    assert (Look : forall a c, In a (chain t c) -> (<[next_addr t := nd]> (heap t)) !! a = heap t !! a).
    { intros a c' I. apply lookup_insert_ne. intros X. by apply (Old c' a I). }
    destruct (Nat.eqb_spec c b) as [->|].
    + intros [<-|I1] [<-|I2]; rewrite ?lookup_insert_eq, ?(Look _ _ I1), ?(Look _ _ I2); try done.
      * intros [= <-] E D. by destruct (Hnew _ _ I2 E).
      * intros E [= <-] D. by destruct (Hnew _ _ I1 E).
      * by apply (Hu b).
    + intros I1 I2. rewrite (Look _ _ I1), (Look _ _ I2). by apply (Hu c).
Qed.

Definition pool_holds (t : Pool) (a : nat) (p : list Z) (n : nat) : Prop :=
  exists nd, heap t !! a = Some nd /\ n_data nd = take n p ++ [0] /\ good_flags (n_flags nd) (n_data nd).
Lemma bucket_lt p n : (Z.to_nat (fnv p n mod OO_INTERN_BUCKETS) < Z.to_nat OO_INTERN_BUCKETS)%nat.
Proof. pose proof (Z.mod_pos_bound (fnv p n) OO_INTERN_BUCKETS). unfold OO_INTERN_BUCKETS in *. lia. Qed.
Lemma pool_intern_spec mid t p n : wf_pool t -> good_mid mid -> bytes p -> (n <= length p)%nat ->
  exists a t', pool_intern true mid t p n = Ret (mkI (LNode a) (Z.of_nat n), t') /\ wf_pool t' /\ pool_ext t t' /\ pool_holds t' a p n /\
    (forall ok mid' t'' q, wf_pool t'' -> pool_ext t' t'' -> (n <= length q)%nat -> take n q = take n p ->
       pool_intern ok mid' t'' q n = Ret (mkI (LNode a) (Z.of_nat n), t'')).
Proof.
  intros W Hm Hb Hp. set (b := Z.to_nat (fnv p n mod OO_INTERN_BUCKETS)).
  assert (Fin : forall a t' nd, wf_pool t' -> pool_ext t t' -> In a (chain t' b) -> heap t' !! a = Some nd -> n_data nd = take n p ++ [0] ->
    exists a' t'', Ret (mkI (LNode a) (Z.of_nat n), t') = Ret (mkI (LNode a') (Z.of_nat n), t'') /\ wf_pool t'' /\ pool_ext t t'' /\ pool_holds t'' a' p n /\
    (forall ok mid' t3 q, wf_pool t3 -> pool_ext t'' t3 -> (n <= length q)%nat -> take n q = take n p ->
       pool_intern ok mid' t3 q n = Ret (mkI (LNode a') (Z.of_nat n), t3))).
  { intros a t' nd W' X I E D. exists a, t'. split; [done|]. split; [done|]. split; [done|]. split.
    - exists nd. split; [done|]. split; [done|]. destruct W' as (_ & G & _). destruct (G _ _ E) as (_ & l & _ & _ & F). done.
    - intros ok mid' t3 q W3 X3 Hq Q. unfold pool_intern. unfold fnv. rewrite Q. fold (fnv p n) b. by rewrite (walk_ext t' t3 b p q n a nd). }
  unfold pool_intern at 1. fold b. pose proof (chain_walk t b p n W Hp) as X1. destruct (walk (heap t) _ _ _) as [a|].
  { destruct X1 as (I & nd & E & D). apply (Fin a t nd); auto using pool_ext_refl. }
  destruct (Hm t W) as [Wm Xm]. pose proof (chain_walk (mid t) b p n Wm Hp) as X2. destruct (walk (heap (mid t)) _ _ _) as [a|].
  { destruct X2 as (I & nd & E & D). apply (Fin a (mid t) nd); auto. }
  set (t1 := mid t) in *.
  assert (Gn : good_node (node_of p n)).
  { exists (take n p). split; [done|]. split; [cbn; rewrite length_take; lia|]. apply (intern_flags_good p n 1 Hb). }
  apply (Fin (next_addr t1) (pool_insert t1 b (node_of p n)) (node_of p n)).
  - apply pool_insert_wf; [done|apply bucket_lt|done|]. intros a nd' I E. cbn [node_of n_data]. by apply (X2 a).
  - eapply pool_ext_trans; [exact Xm|]. apply pool_insert_ext; [done|apply bucket_lt].
  - rewrite chain_insert by (done || apply bucket_lt). rewrite Nat.eqb_refl. by left.
  - cbn. apply lookup_insert_eq.
  - done.
Qed.
(** Another thread that interns is such an interference, and they compose. *)
Lemma intern_is_good_mid p n mid : good_mid mid -> bytes p -> (n <= length p)%nat ->
  good_mid (fun t => match pool_intern true mid t p n with Ret (_, t') => t' | _ => t end).
Proof. intros Hm Hb Hp t W. destruct (pool_intern_spec mid t p n W Hm Hb Hp) as (a & t' & -> & W' & X & _). done. Qed.
Lemma good_mid_id : good_mid (fun t => t).
Proof. intros t W. split; [done|apply pool_ext_refl]. Qed.
Lemma good_mid_comp m1 m2 : good_mid m1 -> good_mid m2 -> good_mid (fun t => m2 (m1 t)).
Proof. intros H1 H2 t W. destruct (H1 t W) as [W1 X1]. destruct (H2 _ W1) as [W2 X2]. split; [done|by eapply pool_ext_trans]. Qed.

(** * The whole state *)

Definition wf_state (st : Istate) : Prop :=
  wf_slab (slab_of (slab st)) /\ wf_pool (pool st) /\ (forall n d, ints st !! n = Some d -> 0 <= n < OO_INT_INTERN /\ d = g_int_build n).
Definition state_ext (st st' : Istate) : Prop :=
  (slab st <> None -> slab st' <> None) /\ slab_ext (slab_of (slab st)) (slab_of (slab st')) /\ pool_ext (pool st) (pool st') /\ ints st ⊆ ints st'.
(** The place holds [l] and the terminator, under flags that are right. *)
Definition holds (st : Istate) (loc : Loc) (l : list Z) : Prop :=
  exists f d, read st loc = Some (f, d) /\ take (length l) d = l /\ d.[length l] = 0 /\ good_flags f d.

Lemma wf_init : wf_state init_state.
Proof. split; [apply wf_empty_slab|]. split; [apply wf_empty_pool|]. intros n d H. cbn [ints init_state] in H. by rewrite lookup_empty in H. Qed.
Lemma state_ext_refl st : state_ext st st.
Proof. split; [done|]. split; [apply slab_ext_refl|]. split; [apply pool_ext_refl|done]. Qed.
Lemma state_ext_trans s1 s2 s3 : state_ext s1 s2 -> state_ext s2 s3 -> state_ext s1 s3.
Proof.
  intros (N1 & S1 & P1 & I1) (N2 & S2 & P2 & I2). split; [auto|]. split; [by eapply slab_ext_trans|]. split; [by eapply pool_ext_trans|by etrans].
Qed.
Lemma holds_ext st st' loc l : wf_state st -> state_ext st st' -> (forall i, loc = LSlab i -> (i < count (slab_of (slab st)))%nat) ->
  holds st loc l -> holds st' loc l.
Proof.
  intros _ (_ & (_ & E & _) & (Hh & _) & Hi) Hc (f & d & R & X). exists f, d. split; [|done]. rewrite <- R. destruct loc; cbn [read] in *; try done.
  - by rewrite E by (by apply Hc).
  - destruct (heap (pool st) !! a) eqn:Q; [|done]. by rewrite (lookup_weaken _ _ _ _ Q Hh).
  - destruct (ints st !! n) eqn:Q; [|done]. by rewrite (lookup_weaken _ _ _ _ Q Hi).
Qed.
Lemma length_take_le {A} n (l : list A) : (n <= length l)%nat -> length (take n l) = n.
Proof. intros. rewrite length_take. lia. Qed.
Lemma pool_holds_read st a p n : (n <= length p)%nat -> pool_holds (pool st) a p n -> holds st (LNode a) (take n p).
Proof.
  intros Hp (nd & E & D & G). exists (n_flags nd), (n_data nd). cbn [read]. rewrite E, D, length_take_le by done. split; [done|].
  split; [apply take_app_length'; by rewrite length_take_le|]. split; [|by rewrite <- D].
  rewrite get_app_r; rewrite length_take_le by done; [|lia]. by rewrite Nat.sub_diag.
Qed.
Lemma ascii_holds st p : bytes p -> (1 <= length p)%nat -> holds st (LAscii (u8 p.[0])) (take 1 p).
Proof.
  intros Hb Hp. destruct p as [|c p]; [cbn in Hp; lia|]. assert (B : isbyte c) by (by apply (bytes_get _ 0) in Hb).
  cbn [take length]. rewrite get_cons_0, (u8_byte c B). exists (ascii_flags c), [c; 0]. split; [done|]. split; [done|]. split; [done|].
  unfold ascii_flags. destruct (Z.ltb_spec c 128); split; try done.
  unfold isbyte in B. intros _. repeat constructor; lia.
Qed.

(** What interning promises of its result, for good. *)
Definition interned_as (st' : Istate) (r : IStr) (p : list Z) (n : nat) : Prop :=
  forall st'', wf_state st'' -> state_ext st' st'' -> holds st'' (i_loc r) (take n p) /\
    forall ok1 ok2 mid q, (n <= length q)%nat -> take n q = take n p -> oo_str_intern_bytes ok1 ok2 mid (Some q) (Z.of_nat n) st'' = Ret (r, st'').

Lemma slow_spec st mid p n : wf_state st -> good_mid mid -> bytes p -> (n <= length p)%nat ->
  exists a t, pool_intern true mid (pool st) p n = Ret (mkI (LNode a) (Z.of_nat n), t) /\
    let st' := {| slab := slab st; pool := t; ints := ints st |} in wf_state st' /\ state_ext st st' /\
    forall st'', wf_state st'' -> state_ext st' st'' -> holds st'' (LNode a) (take n p) /\
      forall ok mid q, (n <= length q)%nat -> take n q = take n p -> pool_intern ok mid (pool st'') q n = Ret (mkI (LNode a) (Z.of_nat n), pool st'').
Proof.
  intros (Ws & Wp & Wi) Hm Hb Hp. destruct (pool_intern_spec mid (pool st) p n Wp Hm Hb Hp) as (a & t & E & Wt & X & H & Again).
  exists a, t. split; [exact E|]. cbv zeta. split; [done|]. split; [split; [done|]; split; [apply slab_ext_refl|done]|].
  intros st'' W'' X''. pose proof X'' as (_ & _ & Xp & _). split.
  - eapply holds_ext; [| exact X'' | done |by apply pool_holds_read]. done.
  - intros ok mid' q Hq Q. apply Again; [by destruct W'' as (_ & ? & _)|done|done|done].
Qed.
Lemma istate_eta st : {| slab := slab st; pool := pool st; ints := ints st |} = st.
Proof. by destruct st. Qed.

(** The interning of two bytes or more, from the thread's slab. *)
Lemma short_spec st mid p n : wf_state st -> good_mid mid -> bytes p -> (2 <= n <= 15)%nat -> (n <= length p)%nat ->
  exists r st', oo_str_intern_bytes true true mid (Some p) (Z.of_nat n) st = Ret (r, st') /\ i_len r = Z.of_nat n /\
    wf_state st' /\ state_ext st st' /\ interned_as st' r p n.
Proof.
  intros (Ws & Wp & Wi) Hm Hb Hn Hp.
  assert (Unf : forall c m mid st q, oo_str_intern_bytes c m mid (Some q) (Z.of_nat n) st =
    if bool_decide (slab st = None) && negb c then Exited ABRT
    else let* r := slab_intern (slab_of (slab st)) q n in
      let '(o, s) := r in
      match o with
      | Some i => Ret (i, {| slab := Some s; pool := pool st; ints := ints st |})
      | None => let* r := pool_intern m mid (pool st) q n in let '(i, t) := r in Ret (i, {| slab := Some s; pool := t; ints := ints st |})
      end).
  { intros c m mid0 st0 q. unfold oo_str_intern_bytes. destruct (Z.leb_spec (Z.of_nat n) 0); [lia|]. destruct (Z.eqb_spec (Z.of_nat n) 1); [lia|].
    rewrite Nat2Z.id. destruct (Nat.leb_spec n 15); [|lia]. by destruct (_ && _). }
  rewrite Unf. rewrite andb_false_r. destruct (slab_intern_spec (slab_of (slab st)) p n Ws Hb ltac:(lia) Hp) as (o & s & -> & W1 & X1 & O & Again).
  cbn [run_bind]. set (st1 := {| slab := Some s; pool := pool st; ints := ints st |}).
  assert (Wst1 : wf_state st1) by done.
  assert (Xst1 : state_ext st st1) by (split; [done|]; split; [done|]; split; [apply pool_ext_refl|done]).
  assert (Slab : forall st'', state_ext st1 st'' -> bool_decide (slab st'' = None) = false).
  { intros st'' (N & _). apply bool_decide_eq_false_2. by apply N. }
  assert (Same : forall st'', slab st'' <> None -> {| slab := Some (slab_of (slab st'')); pool := pool st''; ints := ints st'' |} = st'').
  { intros [[|] ? ?]; done. }
  destruct o as [r|].
  - destruct O as (idx & -> & Hi). eexists _, st1. split; [reflexivity|]. split; [done|]. split; [done|]. split; [done|].
    intros st'' W'' X''. split.
    + destruct Hi as (Hi & T & Z). eapply (holds_ext st1); [done|exact X''|by intros i [= <-]|].
      eexists _, _. split; [reflexivity|]. rewrite length_take_le by done. split; [done|]. split; [done|].
      destruct W1 as (_ & _ & _ & _ & _ & _ & G & _). by apply G.
    + intros ok1 ok2 mid' q Hq Q. rewrite Unf, Slab by done. cbn [andb]. pose proof X'' as (N & Xs & _). destruct W'' as (Ws'' & _).
      rewrite (Again _ q Ws'' Xs Q). cbn [run_bind]. f_equal. f_equal. apply Same. by apply N.
  - destruct (slow_spec st1 mid p n Wst1 Hm Hb Hp) as (a & t & E & W2 & X2 & H2). change (pool st) with (pool st1). rewrite E. cbn [run_bind].
    eexists _, {| slab := Some s; pool := t; ints := ints st1 |}. split; [reflexivity|]. split; [done|]. split; [exact W2|].
    split; [by eapply state_ext_trans|]. intros st'' W'' X''. destruct (H2 st'' W'' X'') as [H3 H4]. split; [exact H3|].
    intros ok1 ok2 mid' q Hq Q. assert (X1'' : state_ext st1 st'') by (by eapply state_ext_trans).
    rewrite Unf, Slab by done. cbn [andb]. pose proof X1'' as (N & Xs & _). destruct W'' as (Ws'' & _).
    rewrite (Again _ q Ws'' Xs Q). cbn [run_bind]. rewrite H4 by done. cbn [run_bind]. f_equal. f_equal. apply Same. by apply N.
Qed.
Lemma intern_spec st mid p n : wf_state st -> good_mid mid -> bytes p -> (n <= length p)%nat ->
  exists r st', oo_str_intern_bytes true true mid (Some p) (Z.of_nat n) st = Ret (r, st') /\ i_len r = Z.of_nat n /\
    wf_state st' /\ state_ext st st' /\ interned_as st' r p n.
Proof.
  intros W Hm Hb Hp. destruct (Nat.le_gt_cases n 0) as [N0|N0].
  { assert (n = 0%nat) as -> by lia. eexists _, st. split; [reflexivity|]. split; [done|]. split; [done|]. split; [apply state_ext_refl|].
    intros st'' _ _. split; [|done]. eexists _, _. split; [reflexivity|]. split; [done|]. split; [done|]. split; [done|]. intros _. repeat constructor; lia. }
  destruct (Nat.eq_dec n 1%nat) as [->|N1].
  { eexists _, st. split; [reflexivity|]. split; [done|]. split; [done|]. split; [apply state_ext_refl|].
    intros st'' _ _. split; [by apply ascii_holds|]. intros ok1 ok2 mid' q Hq Q. cbn.
    assert (E : q.[0] = p.[0]) by (rewrite <- (get_take 1 q), <- (get_take 1 p), Q by lia; done). by rewrite E. }
  destruct (Nat.le_gt_cases n 15) as [N2|N2]; [by apply short_spec; try lia|].
  assert (Unf : forall c m mid st q, oo_str_intern_bytes c m mid (Some q) (Z.of_nat n) st =
    let* r := pool_intern m mid (pool st) q n in let '(i, t) := r in Ret (i, {| slab := slab st; pool := t; ints := ints st |})).
  { intros c m mid0 st0 q. unfold oo_str_intern_bytes. destruct (Z.leb_spec (Z.of_nat n) 0); [lia|]. destruct (Z.eqb_spec (Z.of_nat n) 1); [lia|].
    rewrite Nat2Z.id. by destruct (Nat.leb_spec n 15); [lia|]. }
  rewrite Unf. destruct (slow_spec st mid p n W Hm Hb Hp) as (a & t & -> & W2 & X2 & H2). cbn [run_bind].
  eexists _, _. split; [reflexivity|]. split; [done|]. split; [exact W2|]. split; [exact X2|].
  intros st'' W'' X''. destruct (H2 st'' W'' X'') as [H3 H4]. split; [exact H3|]. intros ok1 ok2 mid' q Hq Q.
  rewrite Unf, H4 by done. cbn [run_bind]. by rewrite istate_eta.
Qed.

(** The decimal text of an integer: from the table of built entries below
    8192, interned otherwise. *)
Lemma dec_bytes n : LLONG_MIN <= n <= LLONG_MAX -> bytes (dec n).
Proof.
  unfold LLONG_MIN, LLONG_MAX. intros Hn.
  assert (D : forall m, 0 <= m < 10 ^ Z.of_nat 20 -> bytes (dec_digits 20 m [])).
  { intros m Hm. destruct (dec_digits_spec 20 m Hm ltac:(lia)) as (_ & _ & F). eapply List.Forall_impl; [|exact F]. intros c Hc. cbv beta in Hc. unfold isbyte. lia. }
  change (10 ^ Z.of_nat 20) with 100000000000000000000 in D. unfold dec. destruct (n <? 0) eqn:E; [constructor; [unfold isbyte; lia|]|]; apply D; lia.
Qed.
Lemma dec_small n : 0 <= n < OO_INT_INTERN -> (length (dec n) < 8)%nat.
Proof.
  intros Hn. pose proof (range_forall (fun n => (length (dec n) <? 8)%nat) 0 (Z.to_nat OO_INT_INTERN) ltac:(vm_compute; reflexivity) n) as R.
  cbn beta in R. unfold OO_INT_INTERN in *. apply Nat.ltb_lt, R. lia.
Qed.
Lemma int_intern_spec st mid n : wf_state st -> good_mid mid -> LLONG_MIN <= n <= LLONG_MAX ->
  exists r st', oo_int_intern true true mid n st = Ret (r, st') /\ i_len r = Z.of_nat (length (dec n)) /\ wf_state st' /\ state_ext st st' /\
    holds st' (i_loc r) (dec n).
Proof.
  intros W Hm Hn. unfold oo_int_intern. destruct ((0 <=? n) && (n <? OO_INT_INTERN)) eqn:R.
  - assert (Rn : 0 <= n < OO_INT_INTERN) by lia. pose proof (dec_small n Rn) as L.
    assert (H : forall st', ints st' !! n = Some (g_int_build n) -> holds st' (LInt n) (dec n)).
    { intros st' E. exists OO_FLAG_STATIC, (g_int_build n). cbn [read]. rewrite E. split; [done|]. unfold g_int_build.
      split; [apply take_app_length|]. split; [by rewrite get_app_r, get_zeros by lia|done]. }
    destruct W as (Ws & Wp & Wi). destruct (ints st !! n) as [d|] eqn:E.
    + eexists _, st. split; [reflexivity|]. split; [done|]. split; [done|]. split; [apply state_ext_refl|]. apply H. rewrite E. destruct (Wi n d E) as [_ ->]. done.
    + eexists _, _. split; [reflexivity|]. split; [done|]. split; [|split].
      * split; [done|]. split; [done|]. cbn [ints]. intros m d. destruct (decide (m = n)) as [->|Ne]; [rewrite lookup_insert_eq; intros [= <-]; done|].
        rewrite lookup_insert_ne by done. apply Wi.
      * split; [done|]. split; [apply slab_ext_refl|]. split; [apply pool_ext_refl|]. cbn [ints]. by apply insert_subseteq.
      * apply H. cbn [ints]. apply lookup_insert_eq.
  - destruct (intern_spec st mid (dec n) (length (dec n)) W Hm (dec_bytes n Hn) ltac:(lia)) as (r & st' & E & L & W' & X & H).
    exists r, st'. split; [exact E|]. split; [exact L|]. split; [exact W'|]. split; [exact X|].
    destruct (H st' W' (state_ext_refl st')) as [Q _]. by rewrite firstn_all in Q.
Qed.

(** * Theorems *)

(**  The probe of a slab stops within one round of its 32768 slots, at a
    matching entry or at a free slot: triangular steps visit every slot of the
    table and at most 16384 are in use. *)
Theorem probe_terminates (s : OoStrSlabPool) (p : list Z) (n : nat) (Hw : wf_slab s) :
  exists r, probe OO_SLAB_HASH_SIZE s p n (Z.land (fnv p n) OO_SLAB_HASH_MASK) 1 = Some r /\
    match r with
    | inl idx => (idx < count s)%nat /\ mem_eq (e_data (entry s idx)) 0 p n = true
    | inr slot => 0 <= slot < 32768 /\ (hash_tab s).[Z.to_nat slot] = 0
    end.
Proof.
  pose proof (land_mask_range (fnv p n)) as Hv. destruct (probe _ _ _ _ _ _) as [r|] eqn:E; [|by apply probe_total in E].
  exists r. split; [done|]. pose proof (probe_result _ _ _ _ _ _ _ Hw Hv E) as R. destruct r; [|done]. by destruct R as (? & _ & ?).
Qed.
Example probe_terminates_witness : exists r, probe OO_SLAB_HASH_SIZE empty_slab [104; 105] 2 (Z.land (fnv [104; 105] 2) OO_SLAB_HASH_MASK) 1 = Some r.
Proof. destruct (probe_terminates empty_slab [104; 105] 2 wf_empty_slab) as (r & E & _). exists r. exact E. Defined.

(** C7.  Interning is sound and canonical as long as nothing but interning
    writes the store.  From any state reached by interning, when the allocations
    succeed, and whatever other threads intern between the walk without the lock
    and the walk under it, the string returned has the length asked for and the
    step only adds to the store ([state_ext], which is transitive).  In every
    state that such steps lead to from there, its place holds exactly the bytes
    and a terminator, flagged static, and flagged ASCII only if they are ASCII;
    and interning the same bytes again returns the same place and changes
    nothing.  [crypto_secure_wipe] of an interned string is no such step: it
    breaks both ([verdict_wipe_breaks_sharing]). *)
Theorem intern_canonical (st : Istate) (mid : Pool -> Pool) (p : list Z) (n : nat)
    (Hw : wf_state st) (Hm : good_mid mid) (Hb : bytes p) (Hn : (n <= length p)%nat) :
  exists r st', oo_str_intern_bytes true true mid (Some p) (Z.of_nat n) st = Ret (r, st') /\ i_len r = Z.of_nat n /\
    wf_state st' /\ state_ext st st' /\
    forall st'', wf_state st'' -> state_ext st' st'' -> holds st'' (i_loc r) (take n p) /\
      forall ok1 ok2 mid' q, (n <= length q)%nat -> take n q = take n p ->
        oo_str_intern_bytes ok1 ok2 mid' (Some q) (Z.of_nat n) st'' = Ret (r, st'').
Proof. exact (intern_spec st mid p n Hw Hm Hb Hn). Qed.
Example intern_canonical_witness :
  exists r st', oo_str_intern_bytes true true (fun t => t) (Some [104; 105; 33]) 2 init_state = Ret (r, st') /\ i_len r = 2 /\
    holds st' (i_loc r) [104; 105] /\ oo_str_intern_bytes true true (fun t => t) (Some [104; 105]) 2 st' = Ret (r, st').
Proof.
  destruct (intern_canonical init_state (fun t => t) [104; 105; 33] 2 wf_init good_mid_id) as (r & st' & E & L & W & _ & A).
  - apply bytesb_ok. vm_compute. reflexivity.
  - cbn. lia.
  - exists r, st'. destruct (A st' W (state_ext_refl st')) as [H1 H2]. split; [exact E|]. split; [exact L|]. split; [exact H1|].
    apply H2; [cbn; lia|reflexivity].
Defined.
