(* ===== verification/Verdict.v ===== *)
(** The verdict string of the seals: [pq_hmac.c] and [pq_aead_open.c] over the
    interning of [core/str/str_intern.c].

    [crypto_mldsa65_verify_internal] answers with [oo_str_lit ("OK")], the
    interned string every holder of these two bytes shares ([Intern]), and the
    seals wipe it once they have read it.  [PqSig] takes strings as values;
    here is what the wiping does to the shared store. *)
From S2P Require Import Prelude Str Intern PqSig.
From stdpp Require Import gmap.
From Stdlib Require String.
Import (notations) String.
Open Scope Z_scope.

Definition wipe_bytes (n : nat) (d : list Z) : list Z := zeros (Nat.min n (length d)) ++ drop n d.
(** [crypto_secure_wipe (s.data, s.len)] of a string in the slab or in the
    shared pool; [None] for the static entries of the empty string, of the
    characters and of the integers, which no verdict is. *)
Definition crypto_secure_wipe (s : IStr) (st : Istate) : option Istate :=
  let n := Z.to_nat (i_len s) in
  match i_loc s with
  | LSlab i =>
      let b := slab_of (slab st) in
      Some {| slab := Some {| entries := <[i := mkEntry (e_flags (entry b i)) (wipe_bytes n (e_data (entry b i)))]> (entries b);
                              hash_tab := hash_tab b; count := count b |};
              pool := pool st; ints := ints st |}
  | LNode a =>
      nd ← heap (pool st) !! a;
      Some {| slab := slab st;
              pool := {| heap := <[a := mkNode (n_len nd) (n_flags nd) (wipe_bytes n (n_data nd))]> (heap (pool st)); chains := chains (pool st); next_addr := next_addr (pool st) |};
              ints := ints st |}
  | _ => None
  end.
(** The verdict of a verification that passed, read and wiped: the string and
    whether it says OK. *)
Definition verdict (st : Istate) : run (IStr * bool * Istate) :=
  let* r := oo_str_intern_bytes true true (fun t => t) (Some (ascii_bytes "OK")) 2 st in
  let '(vr, st1) := r in
  match read st1 (i_loc vr), crypto_secure_wipe vr st1 with
  | Some (_, d), Some st2 => Ret (vr, says_ok (mkStr (Some d) (i_len vr)), st2)
  | _, _ => Undefined
  end.

Lemma length_wipe n d : length (wipe_bytes n d) = length d.
Proof. unfold wipe_bytes. rewrite length_app, length_zeros, length_drop. lia. Qed.
Lemma wipe_take n d : (n <= length d)%nat -> take n (wipe_bytes n d) = zeros n.
Proof. intros H. unfold wipe_bytes. rewrite Nat.min_l by done. apply take_app_length'. by rewrite length_zeros. Qed.
Lemma wipe_good f n d : good_flags f d -> good_flags f (wipe_bytes n d).
Proof.
  intros [H1 H2]. split; [done|]. intros H. specialize (H2 H). unfold wipe_bytes. apply List.Forall_app. split.
  - apply List.Forall_forall. intros x ->%repeat_spec. lia.
  - apply List.Forall_forall. intros x Hx. rewrite List.Forall_forall in H2. apply H2. rewrite <- (firstn_skipn n d). apply in_or_app. by right.
Qed.
(** A wiped slab is still one: only its bytes are gone. *)
Lemma entry_wiped b i e j h c : (i < length (entries b))%nat ->
  entry {| entries := <[i := e]> (entries b); hash_tab := h; count := c |} j = if Nat.eqb j i then e else entry b j.
Proof.
  intros H. unfold entry. cbn [entries]. destruct (Nat.eqb_spec j i) as [->|N].
  - by rewrite nth_lookup, list_lookup_insert_eq.
  - rewrite !nth_lookup. by rewrite list_lookup_insert_ne by congruence.
Qed.

Lemma wipe_wf b i n : wf_slab b -> (i < count b)%nat ->
  wf_slab {| entries := <[i := mkEntry (e_flags (entry b i)) (wipe_bytes n (e_data (entry b i)))]> (entries b); hash_tab := hash_tab b; count := count b |}.
Proof.
  intros (L & Lh & C & U & T & D & G & N) Hi. assert (Hl : (i < length (entries b))%nat) by (rewrite L; lia).
  split; [cbn [entries]; by rewrite length_insert|]. do 4 (split; [done|]). cbn [count]. split; [|split]; intros j.
  - rewrite entry_wiped by done. destruct (Nat.eqb_spec j i); [|apply D]. cbn [e_data]. rewrite length_wipe. apply D.
  - intros Hj. rewrite entry_wiped by done. destruct (Nat.eqb_spec j i) as [->|]; [|by apply G]. cbn [e_data e_flags]. apply wipe_good. by apply G.
  - intros Hj. rewrite entry_wiped by done. destruct (Nat.eqb_spec j i); [lia|by apply N].
Qed.

Definition ok_bytes : list Z := ascii_bytes "OK".
Definition has_room (st : Istate) : Prop := (count (slab_of (slab st)) < OO_SLAB_CAP)%nat.
Lemma intern_ok st : wf_state st -> exists r st', oo_str_intern_bytes true true (fun t => t) (Some ok_bytes) 2 st = Ret (r, st') /\
  wf_state st' /\ state_ext st st' /\ holds st' (i_loc r) ok_bytes.
Proof.
  intros W. destruct (intern_spec st (fun t => t) ok_bytes 2 W good_mid_id ltac:(by apply bytesb_ok) ltac:(by apply Nat.leb_le)) as (r & st' & E & _ & W' & X & I).
  exists r, st'. split; [exact E|]. split; [exact W'|]. split; [exact X|]. exact (proj1 (I st' W' (state_ext_refl st'))).
Qed.
Lemma slab_intern_room s p n o s' : (count s < OO_SLAB_CAP)%nat -> slab_intern s p n = Ret (o, s') -> exists r, o = Some r.
Proof.
  intros C. unfold slab_intern. destruct (probe _ _ _ _ _ _) as [[idx|slot]|]; [| |done].
  - intros H. apply Ret_inj, pair_equal_spec in H as [<- _]. by eexists.
  - rewrite (proj2 (Nat.ltb_lt _ _) C). intros H. apply Ret_inj, pair_equal_spec in H as [<- _]. by eexists.
Qed.
(** With room in the slab the string is there. *)
Lemma intern_ok_slab st r st' : wf_state st -> has_room st -> oo_str_intern_bytes true true (fun t => t) (Some ok_bytes) 2 st = Ret (r, st') ->
  exists i b, r = mkI (LSlab i) 2 /\ st' = {| slab := Some b; pool := pool st; ints := ints st |} /\ (i < count b)%nat.
Proof.
  intros (Ws & _) C E. unfold oo_str_intern_bytes in E. destruct (Z.leb_spec 2 0); [lia|]. destruct (Z.eqb_spec 2 1); [lia|].
  change (Z.to_nat 2) with 2%nat in E. destruct (Nat.leb_spec 2 15); [|lia]. cbv zeta in E.
  rewrite andb_false_r in E. destruct (slab_intern_spec (slab_of (slab st)) ok_bytes 2 Ws ltac:(by apply bytesb_ok) ltac:(lia) ltac:(by apply Nat.leb_le)) as (o & b & S & W' & X & O & _).
  destruct (slab_intern_room _ _ _ _ _ C S) as [r' ->]. rewrite S in E. cbn [run_bind] in E.
  destruct O as (i & -> & Hi & _). apply Ret_inj, pair_equal_spec in E as [<- <-]. by exists i, b.
Qed.

(** A place holds one string. *)
Lemma holds_one st l : holds st l ok_bytes -> holds st l [0; 0] -> False.
Proof.
  intros (f & d & R & T & _) (f' & d' & R' & T' & _). rewrite R in R'. apply (f_equal (fun o => match o with Some (_, x) => x | None => [] end)) in R'. subst d'.
  change (length ok_bytes) with 2%nat in T. cbn [length] in T'. rewrite T in T'. discriminate.
Qed.
(** Reading the verdict and wiping it. *)
Lemma verdict_run st i b : oo_str_intern_bytes true true (fun t => t) (Some ok_bytes) 2 st = Ret (mkI (LSlab i) 2, {| slab := Some b; pool := pool st; ints := ints st |}) ->
  take 2 (e_data (entry b i)) = ok_bytes ->
  verdict st = Ret (mkI (LSlab i) 2, true,
    {| slab := Some {| entries := <[i := mkEntry (e_flags (entry b i)) (wipe_bytes 2 (e_data (entry b i)))]> (entries b); hash_tab := hash_tab b; count := count b |};
       pool := pool st; ints := ints st |}).
Proof.
  intros E T. unfold verdict. fold ok_bytes. rewrite E. cbn [run_bind read i_loc slab slab_of]. unfold crypto_secure_wipe. cbn [i_loc i_len slab slab_of pool ints].
  change (Z.to_nat 2) with 2%nat. unfold says_ok. cbn [sdata slen].
  assert (T0 : (e_data (entry b i)).[0] = 79) by (rewrite <- (get_take 2 _ 0) by lia; by rewrite T).
  assert (T1 : (e_data (entry b i)).[1] = 75) by (rewrite <- (get_take 2 _ 1) by lia; by rewrite T).
  rewrite T0, T1. reflexivity.
Qed.

(** C14. A verification that passes reads its verdict right and destroys it for
    everybody else.  From any interning state whose slab has room, the verdict
    says OK; but the place it was read from, which every holder of the string
    OK in this thread shares, reads two NULs afterwards, in a state that is
    otherwise well formed; and the next string OK is given another place, so
    the interning is no longer canonical. *)
Theorem verdict_wipe_breaks_sharing st : wf_state st -> has_room st ->
  exists r st1 st2, oo_str_intern_bytes true true (fun t => t) (Some ok_bytes) 2 st = Ret (r, st1) /\ holds st1 (i_loc r) ok_bytes /\
    verdict st = Ret (r, true, st2) /\ wf_state st2 /\ holds st2 (i_loc r) [0; 0] /\
    exists r' st3, oo_str_intern_bytes true true (fun t => t) (Some ok_bytes) 2 st2 = Ret (r', st3) /\ holds st3 (i_loc r') ok_bytes /\ i_loc r' <> i_loc r.
Proof.
  intros W C. destruct (intern_ok st W) as (r & st1 & E & W1 & _ & H1). destruct (intern_ok_slab st r st1 W C E) as (i & b & -> & -> & Hi).
  destruct W1 as (Wb & Wp & Wi). cbn [slab slab_of] in Wb. pose proof H1 as (f & d & R & T & N0 & _). cbn [read i_loc slab slab_of] in R.
  apply (f_equal (fun o => match o with Some (_, x) => x | None => [] end)) in R. subst d.
  pose proof (wipe_wf b i 2 Wb Hi) as W2. set (b2 := {| entries := <[i := _]> (entries b); hash_tab := _; count := _ |}) in W2.
  set (st2 := {| slab := Some b2; pool := pool st; ints := ints st |}).
  assert (Ws2 : wf_state st2) by (split; [exact W2|by split]).
  assert (He : entry b2 i = mkEntry (e_flags (entry b i)) (wipe_bytes 2 (e_data (entry b i)))).
  { unfold b2. rewrite entry_wiped; [by rewrite Nat.eqb_refl|]. destruct Wb as (-> & _ & Cb & _). lia. }
  assert (Ld : (2 < length (e_data (entry b i)))%nat) by (destruct Wb as (_ & _ & _ & _ & _ & D & _); rewrite D; lia).
  assert (H2 : holds st2 (LSlab i) [0; 0]).
  { exists (e_flags (entry b2 i)), (e_data (entry b2 i)). split; [done|]. split; [|split].
    - rewrite He. cbn [e_data length]. apply wipe_take. lia.
    - rewrite He. cbn [e_data length]. rename N0 into Z0. change (length ok_bytes) with 2%nat in Z0.
      unfold wipe_bytes. rewrite Nat.min_l by lia. rewrite get_app_r by (by rewrite length_zeros). rewrite length_zeros, Nat.sub_diag, get_drop. exact Z0.
    - destruct W2 as (_ & _ & _ & _ & _ & _ & G & _). apply G. exact Hi. }
  exists (mkI (LSlab i) 2), {| slab := Some b; pool := pool st; ints := ints st |}, st2.
  split; [exact E|]. split; [exact H1|]. split; [exact (verdict_run st i b E T)|]. split; [exact Ws2|]. split; [exact H2|].
  destruct (intern_ok st2 Ws2) as (r' & st3 & E3 & _ & X3 & H3). exists r', st3. split; [exact E3|]. split; [exact H3|].
  intros Q. cbn [i_loc] in Q. rewrite Q in H3. assert (H4 : holds st3 (LSlab i) [0; 0]) by (apply (holds_ext st2); [exact Ws2|exact X3|by intros j [= <-]|exact H2]).
  exact (holds_one _ _ H3 H4).
Qed.
Lemma verdict_wipe_breaks_sharing_witness :
  exists r st1 st2, oo_str_intern_bytes true true (fun t => t) (Some ok_bytes) 2 init_state = Ret (r, st1) /\ holds st1 (i_loc r) ok_bytes /\
    verdict init_state = Ret (r, true, st2) /\ wf_state st2 /\ holds st2 (i_loc r) [0; 0] /\
    exists r' st3, oo_str_intern_bytes true true (fun t => t) (Some ok_bytes) 2 st2 = Ret (r', st3) /\ holds st3 (i_loc r') ok_bytes /\ i_loc r' <> i_loc r.
Proof. apply (verdict_wipe_breaks_sharing init_state wf_init). apply Nat.ltb_lt. vm_compute. reflexivity. Defined.
