(* ===== verification/Text.v ===== *)
(** Text operations ([core/str/str.c], [str_ops.c], [str_tok.c]) on string
    values.

    A string made by interning or by copying is [str_of] its bytes: interning
    returns static storage that holds the same bytes (proved in [Intern.v]).
    Index arithmetic on the payload is on naturals; a read past the
    terminator is [Undefined].  The character classes are those of the C
    locale.  A NULL string has length 0 wherever the code does not test the
    pointer. *)
From S2P Require Import Prelude Str.
From Stdlib Require String.
Import (notations) String.
Open Scope Z_scope.

Definition MAX_STR : Z := Z.shiftl 1 28.
(** The length the concatenations count: 0 for NULL, empty or oversized. *)
Definition counted_len (s : OoStr) : Z :=
  match sdata s with None => 0 | Some _ => if (0 <? slen s) && (slen s <? MAX_STR) then slen s else 0 end.
Definition counted_bytes (s : OoStr) : list Z := take (Z.to_nat (counted_len s)) (from_option id [] (sdata s)).
(** [intern d off n]: the interned copy of [n] bytes at [off]. *)
Definition interned (d : list Z) (off n : nat) : OoStr := str_of (slice off n d).
Definition empty_str : OoStr := str_of [].

(** * Building ([str.c]) *)

Definition oo_str_ascii_intern (c : Z) : OoStr := str_of [u8 c].
Definition oo_chr (cp : Z) : OoStr := if (0 <=? cp) && (cp <=? 255) then oo_str_ascii_intern cp else oo_str_ascii_intern 0.
Definition oo_str_xor_lit (p : option (list Z)) (n key : Z) : OoStr :=
  match p with
  | None => empty_str
  | Some p =>
      if (n <=? 0) || (MAX_STR <? n) then empty_str
      else str_of (tab (Z.to_nat n) (fun i => u8 (Z.lxor p.[i] (Z.land (i64 (key + Z.of_nat i * 17)) 255))))
  end.
Definition oo_str_concat (a b : OoStr) : OoStr :=
  let al := counted_len a in let bl := counted_len b in
  if (al =? 0) && (bl =? 0) then empty_str
  else if (al =? 0) && (bl =? 1) then oo_str_ascii_intern (from_option id [] (sdata b)).[0]
  else if (al =? 1) && (bl =? 0) then oo_str_ascii_intern (from_option id [] (sdata a)).[0]
  else str_of (counted_bytes a ++ counted_bytes b).
Definition list_total (l : list OoStr) : Z := foldl (fun t s => t + counted_len s) 0 l.
(** A single byte in all: the first element of length 1, NULL or not. *)
Fixpoint first_single (l : list OoStr) : run (option OoStr) :=
  match l with
  | [] => Ret None
  | s :: l =>
      if slen s =? 1 then match sdata s with None => Undefined | Some d => Ret (Some (oo_str_ascii_intern d.[0])) end
      else first_single l
  end.
Definition oo_str_concat_list (l : list OoStr) : run OoStr :=
  let total := list_total l in
  if total =? 0 then Ret empty_str
  else
    let* one := if total =? 1 then first_single l else Ret None in
    Ret (match one with Some r => r | None => str_of (concat (map counted_bytes l)) end).
Definition oo_str_concat_multi (l : list OoStr) : OoStr :=
  if Z.of_nat (length l) <=? 0 then empty_str
  else if list_total l =? 0 then empty_str else str_of (concat (map counted_bytes l)).
Definition oo_str_byte_len (s : OoStr) : Z := slen s.

(** * Bytes ([str_ops.c]) *)

Definition sdat (s : OoStr) : list Z := from_option id [] (sdata s).
Definition oo_str_eq (a b : OoStr) : bool := (slen a =? slen b) && mem_eq (sdat a) 0 (sdat b) (Z.to_nat (slen a)).
(** [memmem]: the first of [k] positions from [i] where the needle is. *)
Fixpoint memmem (hay needle : list Z) (m k i : nat) : option nat :=
  match k with
  | O => None
  | S k => if mem_eq hay i needle m then Some i else memmem hay needle m k (S i)
  end.
Definition search (hay needle : OoStr) : option nat :=
  memmem (sdat hay) (sdat needle) (Z.to_nat (slen needle)) (S (Z.to_nat (slen hay) - Z.to_nat (slen needle))) 0.
Definition bad_search (hay needle : OoStr) : bool :=
  (slen needle <? 0) || (slen hay <? slen needle) || bool_decide (sdata hay = None) || bool_decide (sdata needle = None).
Definition oo_str_contains (hay needle : OoStr) : bool :=
  if slen needle =? 0 then true else if bad_search hay needle then false
  else match search hay needle with Some _ => true | None => false end.
Definition oo_str_index_of (hay needle : OoStr) : Z :=
  if slen needle =? 0 then 0 else if bad_search hay needle then -1
  else match search hay needle with Some i => Z.of_nat i | None => -1 end.
Definition no_affix (s p : OoStr) : bool := bool_decide (sdata s = None) || bool_decide (sdata p = None) || (slen s <? slen p).
Definition oo_str_starts_with (s pre : OoStr) : bool :=
  if slen pre <=? 0 then true else if no_affix s pre then false else mem_eq (sdat s) 0 (sdat pre) (Z.to_nat (slen pre)).
Definition oo_str_ends_with (s suf : OoStr) : bool :=
  if slen suf <=? 0 then true else if no_affix s suf then false
  else mem_eq (sdat s) (Z.to_nat (slen s - slen suf)) (sdat suf) (Z.to_nat (slen suf)).
Definition oo_str_repeat (s : OoStr) (n : Z) : OoStr :=
  let n := if n <? 0 then 0 else n in
  let n := if 1024 <? n then 1024 else n in
  let sl := counted_len s in
  let n := if (0 <? sl) && (0 <? n) && (MAX_STR / n <? sl) then MAX_STR / sl else n in
  str_of (concat (repeat (counted_bytes s) (Z.to_nat n))).
Definition oo_byte_at (s : OoStr) (idx : Z) : Z :=
  match sdata s with None => -1 | Some d => if (idx <? 0) || (slen s <=? idx) then -1 else d.[Z.to_nat idx] end.
Definition oo_ord (s : OoStr) : Z := oo_byte_at s 0.
(** Both slices: the interned one up to 1024 bytes, the copied one above,
    have the same value. *)
Definition oo_byte_slice_orig (s : OoStr) (start end_ : Z) : OoStr :=
  match sdata s with
  | None => empty_str
  | Some d =>
      if slen s <? 0 then empty_str
      else
        let start := if start <? 0 then 0 else start in
        let end_ := if slen s <? end_ then slen s else end_ in
        if (end_ <? start) || (slen s <=? start) then empty_str
        else
          let rlen := end_ - start in
          if rlen =? 0 then empty_str
          else if rlen =? 1 then oo_str_ascii_intern d.[Z.to_nat start]
          else str_of (slice (Z.to_nat start) (Z.to_nat rlen) d)
  end.
Definition oo_byte_slice (s : OoStr) (start end_ : Z) : OoStr :=
  match sdata s with
  | None => empty_str
  | Some d =>
      if slen s <? 0 then empty_str
      else
        let start := if start <? 0 then 0 else start in
        let end_ := if slen s <? end_ then slen s else end_ in
        if (end_ <? start) || (slen s <=? start) then empty_str
        else
          let rlen := end_ - start in
          if rlen <=? 1024 then interned d (Z.to_nat start) (Z.to_nat rlen) else oo_byte_slice_orig s start end_
  end.

(** * Characters *)

(** How far the walks move on a lead byte. *)
Definition utf8_step (c : Z) : nat :=
  if c <? 0x80 then 1 else if Z.land c 0xE0 =? 0xC0 then 2 else if Z.land c 0xF0 =? 0xE0 then 3 else 4.
(** How many bytes [oo_char_at] copies. *)
Definition char_bytes (c : Z) : nat := if 0xF0 <=? c then 4 else if 0xE0 <=? c then 3 else if 0xC0 <=? c then 2 else 1.

(** [while (i < stop && d[i] < 0x80) i++]. *)
Fixpoint ascii_run (fuel : nat) (d : list Z) (i : nat) : nat :=
  match fuel with O => i | S fuel => if d.[i] <? 0x80 then ascii_run fuel d (S i) else i end.
(** The walk to the end of the string: number of steps from [n]. *)
Fixpoint count_chars (fuel : nat) (d : list Z) (len i n : nat) : nat :=
  match fuel with
  | O => n
  | S fuel => if (i <? len)%nat then count_chars fuel d len (i + utf8_step d.[i])%nat (S n) else n
  end.
(** [ascii]: the header's ASCII flag. *)
Definition oo_chars_len (ascii : bool) (s : OoStr) : Z :=
  match sdata s with
  | None => 0
  | Some d =>
      if slen s <=? 0 then 0
      else if ascii then slen s
      else
        let len := Z.to_nat (slen s) in
        let i := ascii_run len d 0 in
        if (i =? len)%nat then slen s else Z.of_nat (count_chars len d len i i)
  end.
(** The walk to character [k]: its byte index, also one past the end. *)
Fixpoint seek_char (fuel : nat) (d : list Z) (len k i n : nat) : option nat :=
  match fuel with
  | O => if (n =? k)%nat then Some i else None
  | S fuel =>
      if (i <? len)%nat then if (n =? k)%nat then Some i else seek_char fuel d len k (i + utf8_step d.[i])%nat (S n)
      else if (n =? k)%nat then Some i else None
  end.
Definition utf8_byte_index (ascii : bool) (s : OoStr) (char_idx : Z) : option nat :=
  match sdata s with
  | None => None
  | Some d =>
      if char_idx <? 0 then None
      else if ascii || (slen s <=? 0) then if char_idx <=? slen s then Some (Z.to_nat char_idx) else None
      else
        let len := Z.to_nat (slen s) in let k := Z.to_nat char_idx in
        if (k <? len)%nat then
          let i := ascii_run k d 0 in
          if (i =? k)%nat && (d.[i] <? 0x80) then Some k else seek_char len d len k i i
        else seek_char len d len k 0 0
  end.
(** [n] bytes at [off], the terminator the last byte that may be read. *)
Definition read_bytes (d : list Z) (off n : nat) : run (list Z) :=
  if (off + n <=? S (length d))%nat then Ret (tab n (fun i => d.[off + i])) else Undefined.
Definition oo_char_at (ascii : bool) (s : OoStr) (idx : Z) : run OoStr :=
  match utf8_byte_index ascii s idx, sdata s with
  | Some b, Some d =>
      let* c := read_bytes d b 1 in
      let c := c.[0] in
      if (char_bytes c =? 1)%nat then Ret (oo_str_ascii_intern c)
      else let* l := read_bytes d b (char_bytes c) in Ret (str_of l)
  | _, _ => Exited 1
  end.
(** The walk of [oo_str_slice]: byte indices of characters [start] and [end]. *)
Fixpoint seek_two (fuel : nat) (d : list Z) (len start end_ i cp : nat) (bs : option nat) : option nat * option nat :=
  match fuel with
  | O => (bs, None)
  | S fuel =>
      if (len <? i)%nat then (bs, None)
      else
        let bs := if (cp =? start)%nat then Some i else bs in
        if (cp =? end_)%nat then (bs, Some i)
        else if (i =? len)%nat then (bs, None)
        else seek_two fuel d len start end_ (i + utf8_step d.[i])%nat (S cp) bs
  end.
Definition oo_str_slice (s : OoStr) (start end_ : Z) : OoStr :=
  match sdata s with
  | None => empty_str
  | Some d =>
      if (slen s <=? 0) || (start <? 0) || (end_ <? start) || (slen s <? start) then empty_str
      else
        let len := Z.to_nat (slen s) in let st := Z.to_nat start in let en := Z.to_nat end_ in
        let cut (bs be : nat) := if (be <=? bs)%nat then empty_str else str_of (slice bs (be - bs) d) in
        if (end_ <=? slen s) && (ascii_run en d 0 =? en)%nat then cut st en
        else match seek_two (S (S len)) d len st en 0 0 None with
             | (Some bs, Some be) => if (be <? bs)%nat then empty_str else cut bs be
             | _ => empty_str
             end
  end.

(** Classes of the C locale, on strings of one byte. *)
Definition isdigit (c : Z) : bool := (48 <=? c) && (c <=? 57).
Definition isalpha (c : Z) : bool := (65 <=? c) && (c <=? 90) || (97 <=? c) && (c <=? 122).
Definition isspace (c : Z) : bool := (c =? 32) || (9 <=? c) && (c <=? 13).
Definition oo_char_is_digit (s : OoStr) : bool := (slen s =? 1) && isdigit (sdat s).[0].
Definition oo_char_is_alpha (s : OoStr) : bool := (slen s =? 1) && isalpha (sdat s).[0].
Definition oo_char_is_space (s : OoStr) : bool := (slen s =? 1) && isspace (sdat s).[0].

(** [while (start < len && isspace (d[start])) start++], and the one from the end. *)
Fixpoint skip_space (fuel : nat) (d : list Z) (i : nat) : nat :=
  match fuel with O => i | S fuel => if isspace d.[i] then skip_space fuel d (S i) else i end.
Fixpoint trim_end (d : list Z) (start end_ : nat) : nat :=
  match end_ with
  | O => O
  | S e => if (start <? end_)%nat && isspace d.[e] then trim_end d start e else end_
  end.
Definition trimmed (s : OoStr) (d : list Z) : OoStr :=
  let len := Z.to_nat (slen s) in
  let start := skip_space len d 0 in
  let end_ := trim_end d start len in
  if (end_ <=? start)%nat then empty_str else str_of (slice start (end_ - start) d).
Definition oo_str_trim (s : OoStr) : OoStr :=
  match sdata s with None => empty_str | Some d => if slen s =? 0 then empty_str else trimmed s d end.
Definition str_trim (s : OoStr) : OoStr :=
  match sdata s with None => empty_str | Some d => if slen s <=? 0 then empty_str else trimmed s d end.

Definition tolower (c : Z) : Z := if (65 <=? c) && (c <=? 90) then c + 32 else c.
Definition toupper (c : Z) : Z := if (97 <=? c) && (c <=? 122) then c - 32 else c.
(** A string with nothing to change is returned itself. *)
Definition map_case (f : Z -> Z) (s : OoStr) : OoStr :=
  match sdata s with
  | None => empty_str
  | Some d =>
      if slen s =? 0 then empty_str
      else if existsb (fun i => negb (f d.[i] =? d.[i])) (seq 0 (Z.to_nat (slen s))) then str_of (tab (Z.to_nat (slen s)) (fun i => f d.[i]))
      else s
  end.
Definition oo_str_to_lowercase : OoStr -> OoStr := map_case tolower.
Definition oo_str_to_uppercase : OoStr -> OoStr := map_case toupper.

(** The pieces between occurrences of the delimiter, left to right. *)
Fixpoint split_loop (fuel : nat) (d : list Z) (len : nat) (delim : list Z) (m start i : nat) : list (list Z) :=
  match fuel with
  | O => [slice start (len - start) d]
  | S fuel =>
      if (i + m <=? len)%nat then
        if mem_eq d i delim m then slice start (i - start) d :: split_loop fuel d len delim m (i + m) (i + m)
        else split_loop fuel d len delim m start (S i)
      else [slice start (len - start) d]
  end.
Definition str_split (s delim : OoStr) : list OoStr :=
  match sdata s with
  | None => []
  | Some d =>
      if slen s <=? 0 then []
      else
        match sdata delim with
        | Some e =>
            if slen delim <=? 0 then [s]
            else map str_of (split_loop (S (Z.to_nat (slen s))) d (Z.to_nat (slen s)) e (Z.to_nat (slen delim)) 0 0)
        | None => [s]
        end
  end.
Definition oo_res_eq_s (a b : OoResS) : bool :=
  if negb (Bool.eqb (res_ok a) (res_ok b)) then false else if negb (res_ok a) then true else oo_str_eq (res_val a) (res_val b).

(** * Token lines ([str_tok.c]) *)

Definition escaped (c : Z) : bool := (c =? 9) || (c =? 10) || (c =? 92).
Definition escape_char (c : Z) : list Z :=
  if c =? 9 then [92; 116] else if c =? 10 then [92; 110] else if c =? 92 then [92; 92] else [c].
Definition tok_extra (t : list Z) : Z := foldl (fun n c => if escaped c then n + 1 else n) 0 t.
(** The length of the payload, and what is written into it. *)
Definition tok_len (kind : OoStr) (line col : Z) (text : OoStr) : Z :=
  counted_len kind + 1 + Z.of_nat (length (dec line)) + 1 + Z.of_nat (length (dec col)) + 1 + counted_len text + tok_extra (counted_bytes text).
Definition tok_text (kind : OoStr) (line col : Z) (text : OoStr) : list Z :=
  counted_bytes kind ++ [9] ++ dec line ++ [9] ++ dec col ++ [9] ++ flat_map escape_char (counted_bytes text).
Definition oo_tok_line (kind : OoStr) (line col : Z) (text : OoStr) : run OoStr :=
  let out := tok_text kind line col text in
  if Z.of_nat (length out) <=? tok_len kind line col text then Ret (mkStr (Some out) (tok_len kind line col text)) else Undefined.

(** * UTF-8 *)

(** A character: a lead byte and as many bytes as it announces. *)
Definition lead (c : Z) : Prop := 0 <= c < 0x80 \/ 0xC0 <= c < 0xF8.
Definition wf_char (ch : list Z) : Prop := lead ch.[0] /\ length ch = char_bytes ch.[0].
(** Byte index of character [k]. *)
Definition off (chars : list (list Z)) (k : nat) : nat := length (concat (take k chars)).

Lemma step_lead c : lead c -> utf8_step c = char_bytes c.
Proof.
  intros H. assert (B : isbyte c) by (unfold lead, isbyte in *; lia).
  pose proof (byte_forall (fun c => implb ((c <? 0x80) || (0xC0 <=? c) && (c <? 0xF8)) (utf8_step c =? char_bytes c)%nat) ltac:(vm_compute; reflexivity) c B) as F.
  cbn beta in F. unfold lead in H. destruct ((c <? 0x80) || (0xC0 <=? c) && (c <? 0xF8)) eqn:E; [|lia]. cbn [implb] in F. lia.
Qed.
Lemma char_bytes_pos c : (1 <= char_bytes c <= 4)%nat.
Proof. unfold char_bytes. repeat case_match; lia. Qed.
Lemma char_bytes_ascii c : c < 0x80 -> char_bytes c = 1%nat.
Proof. intros H. unfold char_bytes. repeat (case_match; [lia|]). done. Qed.
Lemma wf_char_length ch : wf_char ch -> (1 <= length ch)%nat.
Proof. intros [_ ->]. apply char_bytes_pos. Qed.

Section chars.
Variable chars : list (list Z).
Hypothesis Hc : Forall wf_char chars.
Let d := concat chars.

Lemma off_le k : (off chars k <= length d)%nat.
Proof. unfold off, d. rewrite <- (take_drop k chars) at 2. rewrite concat_app, length_app. lia. Qed.
Lemma off_mono_le i j : (i <= j)%nat -> (off chars i <= off chars j)%nat.
Proof. intros H. unfold off. rewrite <- (take_drop i (take j chars)). rewrite take_take. replace (i `min` j)%nat with i by lia. rewrite concat_app, length_app. lia. Qed.
Lemma off_all : off chars (length chars) = length d.
Proof. unfold off, d. by rewrite firstn_all. Qed.
Lemma nth_char k : (k < length chars)%nat -> exists ch, chars !! k = Some ch /\ wf_char ch.
Proof.
  intros Hk. destruct (lookup_lt_is_Some_2 chars k Hk) as [ch Hch]. exists ch. split; [done|].
  rewrite List.Forall_forall in Hc. apply Hc, list_elem_of_In. by eapply list_elem_of_lookup_2.
Qed.
Lemma off_S k ch : chars !! k = Some ch -> off chars (S k) = (off chars k + length ch)%nat.
Proof. intros H. unfold off. erewrite take_S_r by done. rewrite concat_app, length_app. cbn. by rewrite app_nil_r. Qed.
Lemma split_at k ch : chars !! k = Some ch -> d = concat (take k chars) ++ ch ++ concat (drop (S k) chars).
Proof. intros H. unfold d. rewrite <- (take_drop_middle chars k ch) at 1 by done. by rewrite concat_app. Qed.
Lemma slice_char k ch : chars !! k = Some ch -> slice (off chars k) (length ch) d = ch.
Proof. intros H. rewrite (split_at k ch H). by apply slice_app_exact. Qed.
Lemma get_char k ch : chars !! k = Some ch -> wf_char ch -> d.[off chars k] = ch.[0].
Proof.
  intros H Hw. pose proof (wf_char_length ch Hw). rewrite <- (slice_char k ch H). rewrite get_slice by lia. f_equal. lia.
Qed.
Lemma off_lt k : (k < length chars)%nat -> (off chars k < length d)%nat.
Proof.
  intros Hk. destruct (nth_char k Hk) as (ch & Hch & Hw). pose proof (wf_char_length ch Hw). pose proof (off_S k ch Hch). pose proof (off_le (S k)). lia.
Qed.
Lemma next_char k : (k < length chars)%nat -> (off chars k + utf8_step d.[off chars k])%nat = off chars (S k).
Proof.
  intros Hk. destruct (nth_char k Hk) as (ch & Hch & Hw). rewrite (get_char k ch Hch Hw), (off_S k ch Hch).
  destruct Hw as [Hl ->]. by rewrite step_lead.
Qed.
Lemma index_le k : (k <= off chars k)%nat \/ (length chars < k)%nat.
Proof.
  induction k as [|k IH]; [left; lia|]. destruct (Nat.lt_ge_cases k (length chars)) as [Hk|]; [|right; lia]. left.
  destruct IH as [IH|]; [|lia]. destruct (nth_char k Hk) as (ch & Hch & Hw). pose proof (wf_char_length ch Hw). rewrite (off_S k ch Hch). lia.
Qed.
Lemma chars_le_bytes : (length chars <= length d)%nat.
Proof. pose proof (index_le (length chars)) as [H|H]; [rewrite off_all in H; done|lia]. Qed.

(** A run of ASCII bytes is a run of characters. *)
Lemma ascii_prefix j : (j <= length d)%nat -> (forall i, (i < j)%nat -> d.[i] < 0x80) -> (j <= length chars)%nat /\ off chars j = j.
Proof.
  induction j as [|j IH]; intros Hj Ha; [split; [lia|done]|].
  destruct IH as [L O]; [lia|intros; apply Ha; lia|].
  assert (Lt : (j < length chars)%nat).
  { destruct (Nat.eq_dec j (length chars)) as [E|]; [|lia]. pose proof off_all as A. rewrite <- E, O in A. lia. }
  destruct (nth_char j Lt) as (ch & Hch & Hw). split; [lia|]. rewrite (off_S j ch Hch), O.
  pose proof (get_char j ch Hch Hw) as G. rewrite O in G. destruct Hw as [_ ->]. rewrite char_bytes_ascii; [lia|]. rewrite <- G. apply Ha. lia.
Qed.

Lemma count_chars_spec fuel n : (n <= length chars)%nat -> (length d - off chars n <= fuel)%nat ->
  count_chars fuel d (length d) (off chars n) n = length chars.
Proof.
  revert n. induction fuel as [|fuel IH]; intros n Hn Hf; cbn [count_chars].
  - destruct (Nat.eq_dec n (length chars)) as [|X]; [done|]. pose proof (off_lt n). lia.
  - destruct (Nat.ltb_spec (off chars n) (length d)) as [L|L].
    + assert (n < length chars)%nat by (destruct (Nat.eq_dec n (length chars)) as [E|]; [pose proof off_all; rewrite <- E in *; lia|lia]).
      rewrite next_char by done. destruct (nth_char n) as (ch & Hch & Hw); [done|]. pose proof (wf_char_length ch Hw). pose proof (off_S n ch Hch).
      apply IH; lia.
    + destruct (Nat.eq_dec n (length chars)) as [|X]; [done|]. pose proof (off_lt n). lia.
Qed.

Lemma seek_char_spec k fuel n : (n <= k)%nat -> (n <= length chars)%nat -> (length d - off chars n <= fuel)%nat ->
  seek_char fuel d (length d) k (off chars n) n = if (k <=? length chars)%nat then Some (off chars k) else None.
Proof.
  revert n. induction fuel as [|fuel IH]; intros n Hk Hn Hf; cbn [seek_char].
  - assert (n = length chars) as -> by (destruct (Nat.eq_dec n (length chars)) as [|X]; [done|pose proof (off_lt n); lia]).
    destruct (Nat.eqb_spec (length chars) k) as [<-|]; [by rewrite Nat.leb_refl|]. destruct (Nat.leb_spec k (length chars)); [lia|done].
  - destruct (Nat.ltb_spec (off chars n) (length d)) as [L|L].
    + assert (Ln : (n < length chars)%nat) by (destruct (Nat.eq_dec n (length chars)) as [E|]; [pose proof off_all; rewrite <- E in *; lia|lia]).
      destruct (Nat.eqb_spec n k) as [->|]; [destruct (Nat.leb_spec k (length chars)); [done|lia]|].
      rewrite next_char by done. destruct (nth_char n) as (ch & Hch & Hw); [done|]. pose proof (wf_char_length ch Hw). pose proof (off_S n ch Hch).
      apply IH; lia.
    + assert (n = length chars) as -> by (destruct (Nat.eq_dec n (length chars)) as [|X]; [done|pose proof (off_lt n); lia]).
      destruct (Nat.eqb_spec (length chars) k) as [<-|]; [by rewrite Nat.leb_refl|]. destruct (Nat.leb_spec k (length chars)); [lia|done].
Qed.

Lemma seek_two_spec st en fuel n bs : (st <= en)%nat -> (en <= length chars)%nat -> (n <= en)%nat -> (length d - off chars n < fuel)%nat ->
  ((st < n)%nat -> bs = Some (off chars st)) ->
  seek_two fuel d (length d) st en (off chars n) n bs = (Some (off chars st), Some (off chars en)).
Proof.
  revert n bs. induction fuel as [|fuel IH]; intros n bs Hs He Hn Hf Hb; [lia|]. cbn [seek_two].
  pose proof (off_le n). destruct (Nat.ltb_spec (length d) (off chars n)); [lia|].
  set (bs' := if (n =? st)%nat then Some (off chars n) else bs).
  assert (Hb' : (st <= n)%nat -> bs' = Some (off chars st)).
  { intros X. unfold bs'. destruct (Nat.eqb_spec n st) as [->|]; [done|]. apply Hb. lia. }
  destruct (Nat.eqb_spec n en) as [->|]; [by rewrite Hb'|]. pose proof (off_lt n ltac:(lia)).
  destruct (Nat.eqb_spec (off chars n) (length d)); [lia|]. rewrite next_char by lia.
  destruct (nth_char n) as (ch & Hch & Hw); [lia|]. pose proof (wf_char_length ch Hw). pose proof (off_S n ch Hch).
  apply IH; try lia. intros. apply Hb'. lia.
Qed.
End chars.

Lemma ascii_run_spec fuel d i : let j := ascii_run fuel d i in
  (i <= j <= i + fuel)%nat /\ (forall k, (i <= k < j)%nat -> d.[k] < 0x80) /\ (j = (i + fuel)%nat \/ 0x80 <= d.[j]).
Proof.
  cbv zeta. revert i. induction fuel as [|fuel IH]; intros i; cbn [ascii_run]; [split; [lia|]; split; [lia|left; lia]|].
  destruct (Z.ltb_spec d.[i] 0x80) as [L|L]; [|split; [lia|]; split; [lia|right; lia]].
  destruct (IH (S i)) as (H1 & H2 & H3). split; [lia|]. split; [|destruct H3; [left; lia|right; lia]].
  intros k Hk. destruct (Nat.eq_dec k i) as [->|]; [done|]. apply H2. lia.
Qed.

Lemma byte_index_spec (chars : list (list Z)) (ascii : bool) k : Forall wf_char chars ->
  (ascii = true -> forall i, (concat chars).[i] < 0x80) -> 0 <= k ->
  utf8_byte_index ascii (str_of (concat chars)) k = if k <=? Z.of_nat (length chars) then Some (off chars (Z.to_nat k)) else None.
Proof.
  intros Hc Ha Hk. set (d := concat chars). cbv [utf8_byte_index]. cbn [sdata slen str_of]. fold d. destruct (Z.ltb_spec k 0); [lia|].
  pose proof (chars_le_bytes chars Hc) as Hle. fold d in Hle. rewrite Nat2Z.id.
  assert (Pre : forall j, (j <= length d)%nat -> (forall i, (i < j)%nat -> d.[i] < 0x80) -> (j <= length chars)%nat /\ off chars j = j)
    by (intros j; apply (ascii_prefix chars Hc)).
  destruct (ascii || (Z.of_nat (length d) <=? 0)) eqn:Ef.
  - destruct (Pre (length d)) as [L O]; [lia| |].
    { intros i Hi. destruct ascii; [by apply Ha|]. cbn [orb] in Ef. lia. }
    destruct (Z.leb_spec k (Z.of_nat (length d))) as [X|X]; destruct (Z.leb_spec k (Z.of_nat (length chars))); try lia; [|done].
    f_equal. destruct (Pre (Z.to_nat k)) as [_ ->]; [lia| |done].
    intros i Hi. destruct ascii; [by apply Ha|]. cbn [orb] in Ef. lia.
  - assert (Gen : seek_char (length d) d (length d) (Z.to_nat k) 0 0 = if k <=? Z.of_nat (length chars) then Some (off chars (Z.to_nat k)) else None).
    { change 0%nat with (off chars 0) at 1. unfold d. rewrite (seek_char_spec chars Hc) by (fold d; cbn; lia).
      destruct (Nat.leb_spec (Z.to_nat k) (length chars)), (Z.leb_spec k (Z.of_nat (length chars))); try lia; done. }
    destruct (Nat.ltb_spec (Z.to_nat k) (length d)) as [L|L]; [|done].
    destruct (ascii_run_spec (Z.to_nat k) d 0) as (J1 & J2 & J3). set (j := ascii_run (Z.to_nat k) d 0) in *.
    destruct (Pre j) as [Lj Oj]; [lia|intros; apply J2; lia|].
    destruct ((j =? Z.to_nat k)%nat && (d.[j] <? 128)) eqn:Eg.
    + assert (j = Z.to_nat k) by lia. rewrite <- H0, Oj. destruct (Z.leb_spec k (Z.of_nat (length chars))); [done|lia].
    + rewrite <- Oj at 1. unfold d. rewrite (seek_char_spec chars Hc) by (fold d; lia).
      destruct (Nat.leb_spec (Z.to_nat k) (length chars)), (Z.leb_spec k (Z.of_nat (length chars))); try lia; done.
Qed.

Lemma read_bytes_slice d o n : (o + n <= length d)%nat -> read_bytes d o n = Ret (slice o n d).
Proof. intros H. unfold read_bytes. destruct (Nat.leb_spec (o + n) (S (length d))); [|lia]. by rewrite slice_get_tab. Qed.

Lemma seek_two_beyond chars st en fuel n bs : Forall wf_char chars -> (length chars < en)%nat -> (n <= length chars)%nat ->
  snd (seek_two fuel (concat chars) (length (concat chars)) st en (off chars n) n bs) = None.
Proof.
  intros Hc He. revert n bs. induction fuel as [|fuel IH]; intros n bs Hn; [done|]. cbn [seek_two].
  destruct (length (concat chars) <? off chars n)%nat; [done|]. destruct (Nat.eqb_spec n en); [lia|].
  destruct (Nat.eqb_spec (off chars n) (length (concat chars))) as [|X]; [done|].
  assert (n < length chars)%nat by (destruct (Nat.eq_dec n (length chars)) as [E|]; [rewrite E in X; by rewrite (off_all chars) in X|lia]).
  rewrite (next_char chars Hc) by done. apply IH. lia.
Qed.

Lemma off_slice chars st en : (st <= en)%nat -> (en <= length chars)%nat ->
  slice (off chars st) (off chars en - off chars st) (concat chars) = concat (slice st (en - st) chars).
Proof.
  intros Hs He. unfold off.
  assert (E1 : take en chars = take st chars ++ slice st (en - st) chars).
  { unfold slice. rewrite take_drop_commute. replace (st + (en - st))%nat with en by lia.
    rewrite <- (take_drop st (take en chars)) at 1. rewrite take_take. by replace (st `min` en)%nat with st by lia. }
  assert (E2 : concat chars = concat (take st chars) ++ concat (slice st (en - st) chars) ++ concat (drop en chars)).
  { rewrite <- (take_drop en chars) at 1. by rewrite E1, !concat_app, <- app_assoc. }
  rewrite E1, concat_app, length_app. rewrite E2 at 1. apply slice_app_exact; [done|lia].
Qed.

Lemma char_slice_spec chars a b : Forall wf_char chars ->
  oo_str_slice (str_of (concat chars)) a b =
  if (0 <=? a) && (a <=? b) && (b <=? Z.of_nat (length chars)) then str_of (concat (slice (Z.to_nat a) (Z.to_nat b - Z.to_nat a) chars)) else empty_str.
Proof.
  intros Hc. cbv [oo_str_slice]. cbn [sdata slen str_of]. rewrite Nat2Z.id. pose proof (chars_le_bytes chars Hc) as Hle.
  destruct ((Z.of_nat (length (concat chars)) <=? 0) || _ || _ || _) eqn:E1.
  { destruct ((0 <=? a) && (a <=? b) && (b <=? Z.of_nat (length chars))) eqn:E2; [|done].
    assert (Z0 : length chars = 0%nat) by lia. apply length_zero_iff_nil in Z0. subst. unfold slice. by rewrite drop_nil, take_nil. }
  set (st := Z.to_nat a) in *. set (en := Z.to_nat b) in *.
  assert (Cut : forall bs be, (bs <= be)%nat -> (if (be <=? bs)%nat then empty_str else str_of (slice bs (be - bs) (concat chars))) = str_of (slice bs (be - bs) (concat chars))).
  { intros bs be X. destruct (Nat.leb_spec be bs); [|done]. replace (be - bs)%nat with 0%nat by lia. done. }
  destruct ((b <=? Z.of_nat (length (concat chars))) && (ascii_run en (concat chars) 0 =? en)%nat) eqn:E3.
  - destruct (ascii_run_spec en (concat chars) 0) as (J1 & J2 & _).
    assert (Pre : forall j, (j <= en)%nat -> (j <= length chars)%nat /\ off chars j = j).
    { intros j Hj. apply (ascii_prefix chars Hc); [lia|]. intros; apply J2; lia. }
    destruct (Pre st) as [L1 O1]; [lia|]. destruct (Pre en) as [L2 O2]; [lia|].
    rewrite Cut by lia. destruct ((0 <=? a) && (a <=? b) && (b <=? Z.of_nat (length chars))) eqn:E2; [|lia].
    pose proof (off_slice chars st en) as Q. rewrite O1, O2 in Q. by rewrite Q by lia.
  - destruct (Nat.le_gt_cases en (length chars)) as [X|X].
    + pose proof (seek_two_spec chars Hc st en (S (S (length (concat chars)))) 0 None) as Q. change (off chars 0) with 0%nat in Q.
      rewrite Q by lia. pose proof (off_mono_le chars st en). destruct (Nat.ltb_spec (off chars en) (off chars st)); [lia|].
      rewrite Cut, off_slice by lia. destruct ((0 <=? a) && (a <=? b) && (b <=? Z.of_nat (length chars))) eqn:E2; [done|lia].
    + pose proof (seek_two_beyond chars st en (S (S (length (concat chars)))) 0 None Hc X ltac:(lia)) as Q. change (off chars 0) with 0%nat in Q.
      destruct (seek_two _ _ _ _ _ _ _ _) as [x y]. cbn [snd] in Q. subst y.
      destruct ((0 <=? a) && (a <=? b) && (b <=? Z.of_nat (length chars))) eqn:E2; [lia|]. by destruct x.
Qed.

Lemma char_at_spec chars ascii k : Forall wf_char chars -> (ascii = true -> forall i, (concat chars).[i] < 0x80) -> 0 <= k ->
  oo_char_at ascii (str_of (concat chars)) k =
  match chars !! Z.to_nat k with
  | Some ch => Ret (str_of (if (length ch =? 1)%nat then [u8 ch.[0]] else ch))
  | None => if k =? Z.of_nat (length chars) then Ret (str_of [0]) else Exited 1
  end.
Proof.
  intros Hc Ha Hk. unfold oo_char_at. rewrite (byte_index_spec chars ascii k Hc Ha Hk). cbn [sdata str_of].
  destruct (chars !! Z.to_nat k) as [ch|] eqn:E.
  - pose proof (lookup_lt_Some _ _ _ E). destruct (Z.leb_spec k (Z.of_nat (length chars))); [|lia].
    destruct (nth_char chars Hc (Z.to_nat k)) as (ch' & E' & Hw); [done|]. rewrite E in E'. injection E' as <-.
    pose proof (wf_char_length ch Hw). pose proof (off_S chars _ _ E). pose proof (off_le chars (S (Z.to_nat k))).
    rewrite read_bytes_slice by lia. cbn [run_bind]. rewrite get_slice, Nat.add_0_r, (get_char chars _ ch) by (done || lia).
    pose proof Hw as [_ Hl]. rewrite <- Hl. destruct (Nat.eqb_spec (length ch) 1) as [Q|Q]; [done|].
    rewrite read_bytes_slice by lia. cbn [run_bind]. by rewrite (slice_char chars).
  - apply lookup_ge_None_1 in E. destruct (Z.eqb_spec k (Z.of_nat (length chars))) as [Q|Q]; destruct (Z.leb_spec k (Z.of_nat (length chars))); try lia; [|done].
    subst k. rewrite Nat2Z.id, (off_all chars). unfold read_bytes. destruct (Nat.leb_spec (length (concat chars) + 1) (S (length (concat chars)))); [|lia].
    cbn [run_bind]. rewrite get_tab, Nat.add_0_r, get_overflow by lia. done.
Qed.

Lemma chars_len_spec chars ascii : Forall wf_char chars -> (ascii = true -> forall i, (concat chars).[i] < 0x80) ->
  oo_chars_len ascii (str_of (concat chars)) = Z.of_nat (length chars).
Proof.
  intros Hc Ha. unfold oo_chars_len. cbn [sdata slen str_of]. rewrite Nat2Z.id. pose proof (chars_le_bytes chars Hc) as Hle.
  destruct (Z.leb_spec (Z.of_nat (length (concat chars))) 0); [lia|].
  assert (All : (forall i, (i < length (concat chars))%nat -> (concat chars).[i] < 0x80) -> length (concat chars) = length chars).
  { intros X. destruct (ascii_prefix chars Hc (length (concat chars))) as [L _]; [lia|done|lia]. }
  destruct ascii; [rewrite All; [done|intros; by apply Ha]|].
  destruct (ascii_run_spec (length (concat chars)) (concat chars) 0) as (J1 & J2 & J3). set (j := ascii_run _ _ _) in *.
  destruct (Nat.eqb_spec j (length (concat chars))) as [E|E]; [rewrite All; [done|intros; apply J2; lia]|].
  destruct (ascii_prefix chars Hc j) as [Lj Oj]; [lia|intros; apply J2; lia|].
  rewrite <- Oj at 1. rewrite (count_chars_spec chars Hc) by lia. done.
Qed.

(** * Searching and splitting *)

(** Where [needle] is in [l]. *)
Definition occurs (needle l : list Z) (i : nat) : Prop := (i + length needle <= length l)%nat /\ slice i (length needle) l = needle.

Lemma memmem_spec hay needle k i : (i + k + length needle <= S (length hay))%nat ->
  match memmem hay needle (length needle) k i with
  | Some j => (i <= j < i + k)%nat /\ occurs needle hay j /\ forall x, (i <= x < j)%nat -> ~ occurs needle hay x
  | None => forall x, (i <= x < i + k)%nat -> ~ occurs needle hay x
  end.
Proof.
  revert i. induction k as [|k IH]; intros i Hk; cbn [memmem]; [lia|].
  pose proof (mem_eq_spec hay i needle (length needle) ltac:(lia) ltac:(lia)) as M. rewrite firstn_all in M.
  destruct (mem_eq hay i needle (length needle)).
  - split; [lia|]. split; [split; [lia|by apply M]|lia].
  - assert (N : ~ occurs needle hay i) by (intros [_ X]; apply M in X; done).
    specialize (IH (S i) ltac:(lia)). destruct (memmem _ _ _ _ _) as [j|].
    + destruct IH as (L & O & F). split; [lia|]. split; [done|]. intros x Hx. destruct (Nat.eq_dec x i) as [->|]; [done|]. apply F. lia.
    + intros x Hx. destruct (Nat.eq_dec x i) as [->|]; [done|]. apply IH. lia.
Qed.

Lemma index_of_spec hay needle :
  (oo_str_index_of (str_of hay) (str_of needle) = -1 /\ forall i, ~ occurs needle hay i) \/
  (exists i, oo_str_index_of (str_of hay) (str_of needle) = Z.of_nat i /\ occurs needle hay i /\ forall j, (j < i)%nat -> ~ occurs needle hay j).
Proof.
  unfold oo_str_index_of, bad_search, search. cbn [slen sdata str_of sdat from_option id]. rewrite !Nat2Z.id.
  destruct (Z.eqb_spec (Z.of_nat (length needle)) 0) as [E|E].
  { right. exists 0%nat. split; [done|]. assert (needle = []) as -> by (apply length_zero_iff_nil; lia).
    split; [split; [cbn; lia|done]|lia]. }
  unfold sdat. cbn [sdata str_of from_option id]. destruct (_ || _ || _ || _) eqn:B.
  - left. split; [done|]. rewrite !orb_true_iff, !bool_decide_eq_true in B.
    assert (length hay < length needle)%nat by (destruct B as [[[]|]|]; try done; lia). intros i [X _]. lia.
  - assert (length needle <= length hay)%nat by (rewrite !orb_false_iff in B; lia).
    pose proof (memmem_spec hay needle (S (length hay - length needle)) 0 ltac:(lia)) as M.
    destruct (memmem _ _ _ _ _) as [j|].
    + right. exists j. destruct M as (_ & O & F). split; [done|]. split; [done|]. intros; apply F; lia.
    + left. split; [done|]. intros i O. apply (M i); [|done]. destruct O. lia.
Qed.

(** The pieces with the delimiter put back between them. *)
Fixpoint join (sep : list Z) (ps : list (list Z)) : list Z :=
  match ps with [] => [] | [p] => p | p :: ps => p ++ sep ++ join sep ps end.
Lemma join_cons sep p ps : ps <> [] -> join sep (p :: ps) = p ++ sep ++ join sep ps.
Proof. by destruct ps. Qed.

Lemma occurs_slice needle l a n x : (a + n <= length l)%nat -> occurs needle (slice a n l) x -> occurs needle l (a + x) /\ (x + length needle <= n)%nat.
Proof.
  intros Hl [L E]. rewrite length_slice in L by done. split; [|done]. split; [lia|]. rewrite <- E at 2.
  unfold slice. rewrite skipn_firstn_comm, take_take, drop_drop. f_equal; lia.
Qed.

Lemma split_spec d delim fuel start i : delim <> [] -> (start <= i)%nat -> (start <= length d)%nat -> (length d < fuel + i)%nat ->
  (forall x, (start <= x < i)%nat -> ~ occurs delim d x) ->
  let ps := split_loop fuel d (length d) delim (length delim) start i in
  ps <> [] /\ join delim ps = slice start (length d - start) d /\ Forall (fun p => forall x, ~ occurs delim p x) ps.
Proof.
  intros Hne. assert (Hm : (1 <= length delim)%nat) by (destruct delim; [done|cbn; lia]). cbv zeta. revert start i.
  assert (Last : forall start i, (start <= length d)%nat -> (length d < i + length delim)%nat -> (forall x, (start <= x < i)%nat -> ~ occurs delim d x) ->
    let ps := [slice start (length d - start) d] in
    ps <> [] /\ join delim ps = slice start (length d - start) d /\ Forall (fun p => forall x, ~ occurs delim p x) ps).
  { intros start i Hl Hi Hf. split; [done|]. split; [done|]. constructor; [|done]. intros x O.
    apply occurs_slice in O as [O L]; [|lia]. apply (Hf (start + x)%nat); [|done]. lia. }
  induction fuel as [|fuel IH]; intros start i Hs Hl Hf Ho; cbn [split_loop]; [apply (Last start i); [done|lia|done]|].
  destruct (Nat.leb_spec (i + length delim) (length d)) as [L|L]; [|apply (Last start i); [done|lia|done]].
  pose proof (mem_eq_spec d i delim (length delim) ltac:(lia) ltac:(lia)) as M. rewrite firstn_all in M.
  destruct (mem_eq d i delim (length delim)).
  - destruct M as [M _]. specialize (M eq_refl). destruct (IH (i + length delim)%nat (i + length delim)%nat) as (N & J & F); [lia|lia|lia|lia|].
    split; [done|]. split.
    + rewrite join_cons, J by done. rewrite <- M at 1. unfold slice.
      rewrite <- (take_drop (i - start) (take (length d - start) (drop start d))), take_take.
      replace ((i - start) `min` (length d - start))%nat with (i - start)%nat by lia. f_equal.
      rewrite skipn_firstn_comm, drop_drop. replace (start + (i - start))%nat with i by lia.
      rewrite <- (take_drop (length delim) (take (length d - start - (i - start)) (drop i d))), take_take. f_equal; [f_equal; lia|].
      rewrite skipn_firstn_comm, drop_drop. f_equal. lia.
    + constructor; [|done]. intros x O. apply occurs_slice in O as [O X]; [|lia]. apply (Ho (start + x)%nat); [lia|done].
  - apply IH; [lia|done|lia|]. intros x Hx. destruct (Nat.eq_dec x i) as [->|]; [|apply Ho; lia]. intros [_ O]. apply M in O. done.
Qed.

(** * Trimming *)

Lemma skip_space_spec fuel d i : let j := skip_space fuel d i in
  (i <= j <= i + fuel)%nat /\ (forall k, (i <= k < j)%nat -> isspace d.[k] = true) /\ (j = (i + fuel)%nat \/ isspace d.[j] = false).
Proof.
  cbv zeta. revert i. induction fuel as [|fuel IH]; intros i; cbn [skip_space]; [split; [lia|]; split; [lia|left; lia]|].
  destruct (isspace d.[i]) eqn:L; [|split; [lia|]; split; [lia|right; done]].
  destruct (IH (S i)) as (H1 & H2 & H3). split; [lia|]. split; [|destruct H3; [left; lia|right; done]].
  intros k Hk. destruct (Nat.eq_dec k i) as [->|]; [done|]. apply H2. lia.
Qed.
Lemma trim_end_spec d s e : (s <= e)%nat -> let j := trim_end d s e in
  (s <= j <= e)%nat /\ (forall k, (j <= k < e)%nat -> isspace d.[k] = true) /\ (j = s \/ (s < j)%nat /\ isspace d.[j - 1] = false).
Proof.
  intros Hs. cbv zeta. induction e as [|e IH]; cbn [trim_end]; [split; [lia|]; split; [lia|left; lia]|].
  destruct (Nat.ltb_spec s (S e)) as [L|L]; cbn [andb]; [|split; [lia|]; split; [lia|left; lia]].
  destruct (isspace d.[e]) eqn:B.
  - destruct IH as (H1 & H2 & H3); [lia|]. split; [lia|]. split; [|done]. intros k Hk. destruct (Nat.eq_dec k e) as [->|]; [done|]. apply H2. lia.
  - split; [lia|]. split; [lia|]. right. split; [lia|]. by replace (S e - 1)%nat with e by lia.
Qed.

Lemma trimmed_spec l : exists a t b, l = a ++ t ++ b /\ trimmed (str_of l) l = str_of t /\
  Forall (fun c => isspace c = true) a /\ Forall (fun c => isspace c = true) b /\
  (t = [] \/ isspace t.[0] = false /\ isspace t.[length t - 1] = false).
Proof.
  unfold trimmed. cbn [slen str_of]. rewrite Nat2Z.id.
  destruct (skip_space_spec (length l) l 0) as (S1 & S2 & S3). set (st := skip_space (length l) l 0) in *.
  destruct (trim_end_spec l st (length l)) as (E1 & E2 & E3); [lia|]. set (en := trim_end l st (length l)) in *.
  assert (Sp : forall o n, (o + n <= length l)%nat -> (forall k, (o <= k < o + n)%nat -> isspace l.[k] = true) -> Forall (fun c => isspace c = true) (slice o n l)).
  { intros o n Hl H. rewrite slice_get_tab by done. apply Forall_tab. intros i Hi. apply H. lia. }
  exists (slice 0 st l), (slice st (en - st) l), (slice en (length l - en) l).
  assert (Cut : l = slice 0 st l ++ slice st (en - st) l ++ slice en (length l - en) l).
  { unfold slice. rewrite drop_0, <- (take_drop st l) at 1. f_equal. rewrite <- (take_drop (en - st) (drop st l)) at 1. f_equal.
    rewrite drop_drop. replace (st + (en - st))%nat with en by lia. symmetry. apply take_ge. rewrite length_drop. lia. }
  split; [exact Cut|]. split; [destruct (Nat.leb_spec en st); [|done]; replace (en - st)%nat with 0%nat by lia; done|].
  split; [apply Sp; [lia|]; intros k Hk; apply S2; lia|]. split; [apply Sp; [lia|]; intros k Hk; apply E2; lia|].
  destruct (Nat.eq_dec en st) as [X|X]; [left; rewrite X, Nat.sub_diag; done|]. right. rewrite length_slice by lia.
  rewrite !get_slice by lia. destruct E3 as [|[Y E3]]; [lia|]. split.
  - destruct S3 as [S3|S3]; [lia|]. by rewrite Nat.add_0_r.
  - by replace (st + (en - st - 1))%nat with (en - 1)%nat by lia.
Qed.
(** Trimming removes the white space of both ends and nothing else. *)
Lemma str_trim_spec l : exists a t b, l = a ++ t ++ b /\ str_trim (str_of l) = str_of t /\ oo_str_trim (str_of l) = str_of t /\
  Forall (fun c => isspace c = true) a /\ Forall (fun c => isspace c = true) b /\
  (t = [] \/ isspace t.[0] = false /\ isspace t.[length t - 1] = false).
Proof.
  destruct (trimmed_spec l) as (a & t & b & E & T & A & B & C). exists a, t, b. unfold str_trim, oo_str_trim. cbn [sdata slen str_of].
  assert (Z0 : l = [] -> t = []) by (intros ->; symmetry in E; apply app_eq_nil in E as [_ E]; by apply app_eq_nil in E as [E _]).
  assert (R : forall c : bool, (c = true -> l = []) -> (if c then empty_str else trimmed (str_of l) l) = str_of t).
  { intros [] X; [by rewrite Z0 by auto|done]. }
  split; [done|]. split; [apply R; intros; apply length_zero_iff_nil; lia|]. split; [apply R; intros; apply length_zero_iff_nil; lia|]. done.
Qed.

(** * Token lines *)

Lemma length_escape t : Z.of_nat (length (flat_map escape_char t)) = Z.of_nat (length t) + tok_extra t.
Proof.
  assert (G : forall n, Z.of_nat (length (flat_map escape_char t)) + n = Z.of_nat (length t) + foldl (fun n c => if escaped c then n + 1 else n) n t).
  { induction t as [|c t IH]; intros n; cbn [flat_map foldl length]; [lia|].
    rewrite length_app, Nat2Z.inj_add. specialize (IH (if escaped c then n + 1 else n)).
    assert (Z.of_nat (length (escape_char c)) = 1 + if escaped c then 1 else 0).
    { unfold escape_char, escaped. destruct (c =? 9), (c =? 10), (c =? 92); done. }
    destruct (escaped c); lia. }
  specialize (G 0). unfold tok_extra. lia.
Qed.

(** What a reader of the line does: the four tab-separated fields, the last
    with its escapes undone. *)
Fixpoint unescape (l : list Z) : list Z :=
  match l with
  | c :: ((e :: r) as l') =>
      if c =? 92 then (if e =? 116 then 9 else if e =? 110 then 10 else e) :: unescape r else c :: unescape l'
  | _ => l
  end.
Lemma unescape_escape t : unescape (flat_map escape_char t) = t.
Proof.
  induction t as [|c t IH]; [done|]. cbn [flat_map]. unfold escape_char at 1.
  destruct (Z.eqb_spec c 9) as [->|]; [cbn [app unescape Z.eqb Pos.eqb]; by rewrite IH|]. destruct (Z.eqb_spec c 10) as [->|]; [cbn [app unescape Z.eqb Pos.eqb]; by rewrite IH|].
  destruct (Z.eqb_spec c 92) as [->|]; [cbn [app unescape Z.eqb Pos.eqb]; by rewrite IH|].
  transitivity (c :: unescape (flat_map escape_char t)); [|by rewrite IH]. destruct (flat_map escape_char t) as [|e r]; [done|].
  cbn [app unescape]. destruct (Z.eqb_spec c 92); [lia|done].
Qed.
Lemma escape_clean t : Forall (fun c => c <> 9 /\ c <> 10) (flat_map escape_char t).
Proof.
  apply Forall_flat_map, Forall_forall. intros c _. unfold escape_char.
  destruct (Z.eqb_spec c 9), (Z.eqb_spec c 10), (Z.eqb_spec c 92); repeat constructor; lia.
Qed.
Lemma dec_clean n : LLONG_MIN <= n <= LLONG_MAX -> Forall (fun c => c <> 9) (dec n).
Proof.
  unfold LLONG_MIN, LLONG_MAX. intros Hn. unfold dec. destruct (Z.ltb_spec n 0).
  - constructor; [lia|]. destruct (dec_digits_spec 20 (- n)) as (_ & _ & D); [change (10 ^ Z.of_nat 20) with 100000000000000000000; lia|lia|].
    eapply List.Forall_impl; [|exact D]. intros c Hc. cbv beta in Hc. lia.
  - destruct (dec_digits_spec 20 n) as (_ & _ & D); [change (10 ^ Z.of_nat 20) with 100000000000000000000; lia|lia|].
    eapply List.Forall_impl; [|exact D]. intros c Hc. cbv beta in Hc. lia.
Qed.
Fixpoint fields (l : list Z) : list (list Z) :=
  match l with
  | [] => [[]]
  | c :: l => if c =? 9 then [] :: fields l else match fields l with p :: ps => (c :: p) :: ps | [] => [[c]] end
  end.
Lemma fields_app p l : Forall (fun c => c <> 9) p -> fields (p ++ 9 :: l) = p :: fields l.
Proof. induction 1 as [|c p Hc _ IH]; [done|]. cbn [app fields]. rewrite IH. destruct (Z.eqb_spec c 9); [lia|done]. Qed.
Lemma fields_last p : Forall (fun c => c <> 9) p -> fields p = [p].
Proof. induction 1 as [|c p Hc _ IH]; [done|]. cbn [fields]. rewrite IH. destruct (Z.eqb_spec c 9); [lia|done]. Qed.
Lemma counted_str_of l : Z.of_nat (length l) < MAX_STR -> counted_bytes (str_of l) = l /\ counted_len (str_of l) = Z.of_nat (length l).
Proof.
  intros H. unfold counted_bytes, counted_len. cbn [sdata slen str_of from_option id].
  destruct (Z.ltb_spec 0 (Z.of_nat (length l))), (Z.ltb_spec (Z.of_nat (length l)) MAX_STR); cbn [andb]; try (unfold MAX_STR in *; lia).
  - rewrite Nat2Z.id. split; [apply firstn_all|done].
  - destruct l; [split; done|cbn in *; lia].
Qed.

(** * Theorems *)

(**  On a string made of well-formed UTF-8 characters, with the ASCII
    flag only on strings of ASCII bytes: the length is the number of
    characters, [oo_str_slice] is the piece from character [a] to character
    [b] (empty when the range is not inside the string), and [oo_char_at]
    gives character [k], for the index just past the end the terminator as a
    string of one NUL byte, and beyond it ends the process. *)
Theorem text_by_characters (chars : list (list Z)) (ascii : bool)
    (Hc : Forall wf_char chars) (Ha : ascii = true -> forall i, (concat chars).[i] < 0x80) :
  let s := str_of (concat chars) in
  oo_chars_len ascii s = Z.of_nat (length chars) /\
  (forall a b, oo_str_slice s a b =
     if (0 <=? a) && (a <=? b) && (b <=? Z.of_nat (length chars)) then str_of (concat (slice (Z.to_nat a) (Z.to_nat b - Z.to_nat a) chars)) else empty_str) /\
  (forall k, oo_char_at ascii s k =
     if k <? 0 then Exited 1
     else match chars !! Z.to_nat k with
          | Some ch => Ret (str_of ch)
          | None => if k =? Z.of_nat (length chars) then Ret (str_of [0]) else Exited 1
          end).
Proof.
  cbv zeta. split; [by apply chars_len_spec|]. split; [intros; by apply char_slice_spec|].
  intros k. destruct (Z.ltb_spec k 0) as [L|L].
  { unfold oo_char_at, utf8_byte_index. cbn [sdata str_of]. by destruct (Z.ltb_spec k 0); [|lia]. }
  rewrite (char_at_spec chars ascii k Hc Ha L). destruct (chars !! Z.to_nat k) as [ch|] eqn:E; [|done].
  destruct (nth_char chars Hc (Z.to_nat k)) as (ch' & E' & Hw); [by eapply lookup_lt_Some|]. rewrite E in E'. injection E' as <-.
  destruct Hw as [Hl Hn]. destruct (Nat.eqb_spec (length ch) 1) as [Q|Q]; [|done].
  destruct ch as [|c [|? ?]]; try done. rewrite get_cons_0 in *. rewrite u8_id; [done|]. unfold lead in Hl. lia.
Qed.
Example text_by_characters_witness :
  Forall wf_char [[65]; [0xC3; 0xA9]; [0xE2; 0x82; 0xAC]] /\
  oo_char_at false (str_of [65; 0xC3; 0xA9; 0xE2; 0x82; 0xAC]) 1 = Ret (str_of [0xC3; 0xA9]).
Proof.
  assert (W : Forall wf_char [[65]; [0xC3; 0xA9]; [0xE2; 0x82; 0xAC]]).
  { repeat constructor; unfold lead; rewrite get_cons_0; lia. }
  split; [exact W|].
  destruct (text_by_characters _ false W ltac:(intros X; discriminate X)) as (_ & _ & K). exact (K 1).
Defined.

(**  A string cut in the middle of a character of three or four bytes:
    taking its last character reads past the terminator. *)
Theorem char_at_truncated (pre : list Z) (c : Z) (Hp : forall i, (i < length pre)%nat -> 0 <= pre.[i] < 0x80) (Hc : 0xE0 <= c < 256) :
  oo_char_at false (str_of (pre ++ [c])) (Z.of_nat (length pre)) = Undefined.
Proof.
  unfold oo_char_at, utf8_byte_index. cbn [sdata slen str_of]. rewrite length_app. cbn [length].
  destruct (Z.ltb_spec (Z.of_nat (length pre)) 0); [lia|]. cbn [orb].
  destruct (Z.leb_spec (Z.of_nat (length pre + 1)) 0); [lia|]. rewrite !Nat2Z.id.
  destruct (Nat.ltb_spec (length pre) (length pre + 1)); [|lia].
  assert (G : (pre ++ [c]).[length pre] = c) by (rewrite get_app_r, Nat.sub_diag by lia; done).
  destruct (ascii_run_spec (length pre) (pre ++ [c]) 0) as (J1 & _ & J3). set (j := ascii_run _ _ _) in *.
  assert (j = length pre) as ->.
  { destruct J3 as [|J3]; [lia|]. destruct (Nat.lt_ge_cases j (length pre)) as [L|]; [|lia].
    rewrite get_app_l in J3 by done. pose proof (Hp j L). lia. }
  rewrite Nat.eqb_refl, G. destruct (Z.ltb_spec c 128); [lia|]. cbn [andb].
  rewrite (Nat.add_comm (length pre) 1). cbn [Nat.add seek_char]. destruct (Nat.ltb_spec (length pre) (S (length pre))); [|lia].
  rewrite Nat.eqb_refl. cbv iota. unfold read_bytes at 1. rewrite length_app. cbn [length].
  destruct (Nat.leb_spec (length pre + 1) (S (length pre + 1))); [|lia]. cbn [run_bind]. rewrite get_tab, Nat.add_0_r, G by lia.
  assert (B : (3 <= char_bytes c)%nat) by (unfold char_bytes; destruct (0xF0 <=? c) eqn:E1; [lia|]; destruct (Z.leb_spec 0xE0 c); lia).
  destruct (Nat.eqb_spec (char_bytes c) 1); [lia|]. unfold read_bytes. rewrite length_app. cbn [length].
  destruct (Nat.leb_spec (length pre + char_bytes c) (S (length pre + 1))); [lia|done].
Qed.
Example char_at_truncated_witness : oo_char_at false (str_of ([65] ++ [0xE2])) 1 = Undefined.
Proof. apply (char_at_truncated [65] 0xE2); [intros i Hi; cbn in Hi; assert (i = 0%nat) as -> by lia; rewrite get_cons_0; lia|lia]. Defined.

(**  Searching and splitting: [oo_str_index_of] is the first position
    where the needle is, and -1 when there is none; the pieces [str_split]
    returns give the string back when the delimiter is put between them, and
    none of them holds the delimiter. *)
Theorem split_and_search (s delim : list Z) (Hs : s <> []) (Hd : delim <> []) :
  (exists ps, str_split (str_of s) (str_of delim) = map str_of ps /\ ps <> [] /\ join delim ps = s /\
     Forall (fun p => forall i, ~ occurs delim p i) ps) /\
  ((oo_str_index_of (str_of s) (str_of delim) = -1 /\ forall i, ~ occurs delim s i) \/
   (exists i, oo_str_index_of (str_of s) (str_of delim) = Z.of_nat i /\ occurs delim s i /\ forall j, (j < i)%nat -> ~ occurs delim s j)).
Proof.
  split; [|apply index_of_spec]. unfold str_split. cbn [sdata slen str_of]. rewrite !Nat2Z.id.
  assert (0 < length s)%nat by (destruct s; [done|cbn; lia]). assert (0 < length delim)%nat by (destruct delim; [done|cbn; lia]).
  destruct (Z.leb_spec (Z.of_nat (length s)) 0); [lia|]. destruct (Z.leb_spec (Z.of_nat (length delim)) 0); [lia|].
  destruct (split_spec s delim (S (length s)) 0 0 Hd) as (N & J & F); [lia|lia|lia|lia|].
  eexists. split; [reflexivity|]. split; [exact N|]. split; [|exact F]. rewrite J. apply slice_all. lia.
Qed.
Example split_and_search_witness :
  exists ps, str_split (str_of [97; 44; 44; 98]) (str_of [44]) = map str_of ps /\ join [44] ps = [97; 44; 44; 98].
Proof.
  destruct (split_and_search [97; 44; 44; 98] [44] ltac:(discriminate) ltac:(discriminate)) as [(ps & E & _ & J & _) _].
  exists ps. exact (conj E J).
Defined.

(**  A token line is written in the bytes counted for it, holds no
    newline beyond those of the kind, and reads back: its four tab-separated
    fields are the kind, the line and the column in decimal, and the text once
    its escapes are undone. *)
Theorem tok_line_roundtrip (kind text : list Z) (line col : Z)
    (Hk : Forall (fun c => c <> 9) kind) (Hkl : Z.of_nat (length kind) < MAX_STR) (Htl : Z.of_nat (length text) < MAX_STR)
    (Hl : LLONG_MIN <= line <= LLONG_MAX) (Hc : LLONG_MIN <= col <= LLONG_MAX) :
  exists out esc, oo_tok_line (str_of kind) line col (str_of text) = Ret (str_of out) /\
    fields out = [kind; dec line; dec col; esc] /\ unescape esc = text /\ Forall (fun c => c <> 10) esc.
Proof.
  destruct (counted_str_of kind Hkl) as [B1 L1]. destruct (counted_str_of text Htl) as [B2 L2].
  set (esc := flat_map escape_char text). exists (kind ++ 9 :: dec line ++ 9 :: dec col ++ 9 :: esc), esc.
  unfold oo_tok_line, tok_text, tok_len. rewrite B1, B2, L1, L2. fold esc. cbn [app].
  replace (kind ++ 9 :: dec line ++ 9 :: dec col ++ 9 :: esc) with (kind ++ [9] ++ dec line ++ [9] ++ dec col ++ [9] ++ esc) by done.
  pose proof (length_escape text) as E. fold esc in E.
  assert (Len : Z.of_nat (length (kind ++ [9] ++ dec line ++ [9] ++ dec col ++ [9] ++ esc)) =
    Z.of_nat (length kind) + 1 + Z.of_nat (length (dec line)) + 1 + Z.of_nat (length (dec col)) + 1 + Z.of_nat (length text) + tok_extra text).
  { rewrite !length_app. cbn [length]. lia. }
  split; [rewrite <- Len, Z.leb_refl; done|]. cbn [app]. split.
  - rewrite fields_app by done. rewrite fields_app by (by apply dec_clean). rewrite fields_app by (by apply dec_clean).
    rewrite fields_last; [done|]. eapply List.Forall_impl; [|exact (escape_clean text)]. intros c X. apply X.
  - split; [apply unescape_escape|]. eapply List.Forall_impl; [|exact (escape_clean text)]. intros c X. apply X.
Qed.
Example tok_line_roundtrip_witness :
  exists out esc, oo_tok_line (str_of [73; 68]) 3 14 (str_of [120; 9; 121]) = Ret (str_of out) /\
    fields out = [[73; 68]; dec 3; dec 14; esc] /\ unescape esc = [120; 9; 121] /\ Forall (fun c => c <> 10) esc.
Proof.
  apply (tok_line_roundtrip [73; 68] [120; 9; 121] 3 14); [repeat constructor; lia|vm_compute; reflexivity|vm_compute; reflexivity|unfold LLONG_MIN, LLONG_MAX; lia|unfold LLONG_MIN, LLONG_MAX; lia].
Defined.
