(* ===== verification/Lists.v ===== *)
(** The reference-counted lists ([core/list/]) and the headers of strings
    ([core/str/str.c]).

    A list value is a handle: a payload's address, a length and a capacity.
    Payloads live in a store and are shared by handles; each has a header with
    a reference count and flags.  Freeing removes the payload, so a use after
    it is [Undefined].  The four families of the source (integers, strings,
    floats, and the macro-made nested lists) are instances of one class
    ([Family]): their element size, what [retain] tests, and what retaining and
    releasing an element does to the world the elements live in, if elements
    are counted at all.  Whether the
    attached arena has room for a payload is the argument [in_arena].  Steps of
    one operation are not interleaved with other threads. *)
From S2P Require Import Prelude Str.
From stdpp Require Import gmap.
Open Scope Z_scope.

Definition UINT32_MAX : Z := 0xffffffff.
Definition OO_LIST_FLAG_ARENA : Z := 2.
Definition OO_PAYLOAD_ALIGN : Z := 64.
Definition TOMBSTONE : Z := 0xffffffff.

Record OoListHeader := mkHdr { ref_count : Z; flags : Z }.
(** A payload: its header and its cells, unwritten ones [None]. *)
Record Payload (E : Type) := mkPay { hdr : OoListHeader; cells : list (option E) }.
#[global] Arguments mkPay {E}.
#[global] Arguments hdr {E}.
#[global] Arguments cells {E}.
Record OoList := mkList { data : option nat; len : Z; cap : Z }.

(** What all lists of the process share. *)
Record Quota := mkQuota { ambient_bytes : Z; ambient_quota : Z }.
Record Lstate (E W : Type) := mkLs { heap : gmap nat (Payload E); next : nat; quota : Quota; world : W }.
#[global] Arguments mkLs {E W}.
#[global] Arguments heap {E W}.
#[global] Arguments next {E W}.
#[global] Arguments quota {E W}.
#[global] Arguments world {E W}.

(** One family of lists.  Releasing an element may free memory charged to the
    quota: it returns the bytes given back. *)
Class Family (E W : Type) := {
  elem_size : Z;
  retain_mask : Z;
  release_checked : bool;
  counted : bool;
  e_retain : E -> W -> run W;
  e_release : E -> W -> run (W * Z)
}.

(** * Headers *)

Definition oo_list_hdr_ok (h : OoListHeader) (l c : Z) : bool :=
  if (l <? 0) || (c <? 0) || (Z.shiftl 1 28 <? l) || (Z.shiftl 1 28 <? c) then false
  else if (0 <? c) && (c <? l) then false
  else if (ref_count h =? 0) || (ref_count h =? UINT32_MAX) then false
  else if 1000000 <? ref_count h then false
  else Z.land (flags h) (Z.lor 1 OO_LIST_FLAG_ARENA) =? 0.
Definition oo_list_owned (h : OoListHeader) : bool :=
  (ref_count h =? 1) && (Z.land (flags h) (u32 (Z.lnot OO_LIST_FLAG_ARENA)) =? 0).
(** One pass of the compare-and-swap loop, with no other thread. *)
Definition hdr_retain (mask : Z) (h : OoListHeader) : OoListHeader :=
  if (ref_count h =? 0) || (ref_count h =? UINT32_MAX) || negb (Z.land (flags h) mask =? 0) then h
  else {| ref_count := ref_count h + 1; flags := flags h |}.
Definition hdr_drop (h : OoListHeader) : OoListHeader := {| ref_count := u32 (ref_count h - 1); flags := flags h |}.
Definition oo_list_block_bytes (c elem : Z) : Z := if c <=? 0 then 0 else i64 (OO_PAYLOAD_ALIGN + c * elem).

Section family.
Context {E W : Type} `{Family E W}.
Local Abbreviation state := (Lstate E W).
Local Abbreviation M := (ST state).

Definition payload (a : nat) : M (Payload E) := fun s =>
  match heap s !! a with Some p => Ret (p, s) | None => Undefined end.
Definition put (a : nat) (p : Payload E) (s : state) : state :=
  {| heap := <[a := p]> (heap s); next := next s; quota := quota s; world := world s |}.
Definition with_world (w : W) (s : state) : state := {| heap := heap s; next := next s; quota := quota s; world := w |}.
Definition with_ambient (b : Z) (s : state) : state :=
  {| heap := heap s; next := next s; quota := {| ambient_bytes := b; ambient_quota := ambient_quota (quota s) |}; world := world s |}.
(** [oo_payload_free]. *)
Definition free_payload (a : nat) (s : state) : state :=
  {| heap := delete a (heap s); next := next s; quota := quota s; world := world s |}.
Definition set_hdr (a : nat) (h : OoListHeader) : M unit :=
  let! p := payload a in set_state (put a (mkPay h (cells p))).
Definition cell (a : nat) (i : Z) : M E :=
  let! p := payload a in match cells p !! Z.to_nat i with Some (Some e) => ret e | _ => undef end.
Definition set_cell (a : nat) (i : Z) (e : E) : M unit :=
  let! p := payload a in
  if (Z.to_nat i <? length (cells p))%nat then set_state (put a (mkPay (hdr p) (<[Z.to_nat i := Some e]> (cells p)))) else undef.
Definition elem_retain (e : E) : M unit := fun s => if negb counted then Ret (tt, s) else let* w := e_retain e (world s) in Ret (tt, with_world w s).
Definition elem_release (e : E) : M unit := fun s =>
  if negb counted then Ret (tt, s) else
  let* r := e_release e (world s) in let '(w, b) := r in Ret (tt, with_ambient (ambient_bytes (quota s) - b) (with_world w s)).
(** [for (i = lo; i < lo + k; i++) f (cell i)]. *)
Fixpoint each_cell (k : nat) (lo : Z) (f : Z -> E -> M unit) (a : nat) : M unit :=
  match k with
  | O => ret tt
  | S k => let! e := cell a lo in let! _ := f lo e in each_cell k (lo + 1) f a
  end.

(** * Allocation *)

Definition new_payload (fl n : Z) : M nat := fun s =>
  Ret (next s, {| heap := <[next s := mkPay {| ref_count := 1; flags := fl |} (repeat None (Z.to_nat n))]> (heap s);
                  next := S (next s); quota := quota s; world := world s |}).
Definition oo_list_alloc_payload (in_arena : bool) (n : Z) : M (option nat) :=
  if n =? 0 then ret None
  else if (0 <? elem_size) && (LLONG_MAX / elem_size <? n) then die 1
  else if in_arena then let! a := new_payload OO_LIST_FLAG_ARENA n in ret (Some a)
  else
    let! s := get_state in
    let charge := oo_list_block_bytes n elem_size in
    if ambient_quota (quota s) <? ambient_bytes (quota s) + charge then die 1
    else
      let! _ := set_state (with_ambient (ambient_bytes (quota s) + charge)) in
      let! a := new_payload 0 n in ret (Some a).

(** * Reference counts *)

Definition list_new : OoList := {| data := None; len := 0; cap := 0 |}.
Definition list_retain (l : OoList) : M unit :=
  match data l with
  | None => ret tt
  | Some a => let! p := payload a in set_hdr a (hdr_retain retain_mask (hdr p))
  end.
(** The last reference: the elements, the tombstone, the charge, the block. *)
Definition list_destroy (a : nat) (l : OoList) : M unit :=
  let! _ := (if counted then each_cell (Z.to_nat (len l)) 0 (fun _ => elem_release) a else ret tt) in
  let! p := payload a in
  let! _ := (if release_checked then set_hdr a {| ref_count := ref_count (hdr p); flags := TOMBSTONE |} else ret tt) in
  let! _ := set_state (fun s => with_ambient (ambient_bytes (quota s) - oo_list_block_bytes (cap l) elem_size) s) in
  set_state (free_payload a).
Definition list_release (l : OoList) : M unit :=
  match data l with
  | None => ret tt
  | Some a =>
      let! p := payload a in
      if release_checked && negb (oo_list_hdr_ok (hdr p) (len l) (cap l)) then ret tt
      else
        let! _ := set_hdr a (hdr_drop (hdr p)) in
        if ref_count (hdr p) =? 1 then list_destroy a l else ret tt
  end.

(** * Operations *)

(** [while (ncap < need) ncap *= 2]. *)
Fixpoint grow_cap (fuel : nat) (ncap need : Z) : Z :=
  match fuel with O => ncap | S fuel => if ncap <? need then grow_cap fuel (ncap * 2) need else ncap end.
Definition owned (l : OoList) : M bool :=
  match data l with None => ret false | Some a => let! p := payload a in ret (oo_list_owned (hdr p)) end.
(** A fresh payload of [ncap] cells with the first [n] of [l] copied; cells but
    [skip] are retained. *)
Definition copy_payload (in_arena : bool) (l : OoList) (ncap : Z) (skip : option Z) : M nat :=
  let! o := oo_list_alloc_payload in_arena ncap in
  match o with
  | None => undef
  | Some b =>
      let! _ :=
        match data l with
        | Some a =>
            if 0 <? len l then
              let! p := payload a in
              let! q := payload b in
              let n := Z.to_nat (len l) in
              if (n <=? length (cells p))%nat && (n <=? length (cells q))%nat then
                let! _ := set_state (put b (mkPay (hdr q) (take n (cells p) ++ drop n (cells q)))) in
                if negb counted then ret tt else each_cell n 0 (fun j e => if bool_decide (skip = Some j) then ret tt else elem_retain e) b
              else undef
            else ret tt
        | None => ret tt
        end in
      ret b
  end.
Definition list_push (in_arena : bool) (l : OoList) (v : E) : M OoList :=
  let ncap := if cap l =? 0 then 8 else cap l in
  let! own := (if bool_decide (data l <> None) && (len l <? cap l) then owned l else ret false) in
  match data l, own with
  | Some a, true =>
      let! _ := set_cell a (len l) v in
      let! _ := elem_retain v in
      let l := {| data := Some a; len := len l + 1; cap := cap l |} in
      let! _ := list_retain l in
      ret l
  | _, _ =>
      let ncap := grow_cap 64 ncap (len l + 1) in
      let! b := copy_payload in_arena l ncap None in
      let! _ := set_cell b (len l) v in
      let! _ := elem_retain v in
      let! p := payload b in
      let! _ := set_hdr b {| ref_count := 1; flags := flags (hdr p) |} in
      ret {| data := Some b; len := len l + 1; cap := ncap |}
  end.
Definition list_get (l : OoList) (i : Z) : M E :=
  let! _ := list_retain l in
  if (i <? 0) || (len l <=? i) then let! _ := list_release l in die 1
  else
    match data l with
    | None => undef
    | Some a =>
        let! e := cell a i in
        let! _ := elem_retain e in
        let! _ := list_release l in
        ret e
    end.
Definition list_set (in_arena : bool) (l : OoList) (i : Z) (v : E) : M OoList :=
  if (i <? 0) || (len l <=? i) then die 1
  else
    let! own := owned l in
    match data l, own with
    | Some a, true =>
        let! _ :=
          (if counted then
             let! old := cell a i in
             let! _ := set_cell a i v in
             let! _ := elem_retain v in
             elem_release old
           else set_cell a i v) in
        let! _ := list_retain l in
        ret l
    | _, _ =>
        let ncap := if cap l =? 0 then len l else cap l in
        let! b := copy_payload in_arena l ncap (Some i) in
        let! _ := set_cell b i v in
        let! _ := elem_retain v in
        let! p := payload b in
        let! _ := set_hdr b {| ref_count := 1; flags := flags (hdr p) |} in
        ret {| data := Some b; len := len l; cap := ncap |}
    end.
(** [while (i < hi && l.data)]: push, release the old list. *)
Fixpoint slice_loop (k : nat) (in_arena : bool) (l o : OoList) (i : Z) : M OoList :=
  match k, data l with
  | S k, Some a =>
      let! e := cell a i in
      let! n := list_push in_arena o e in
      let! _ := list_release o in
      slice_loop k in_arena l n (i + 1)
  | _, _ => ret o
  end.
Definition list_slice (in_arena : bool) (l : OoList) (lo hi : Z) : M OoList :=
  let lo := if lo <? 0 then 0 else lo in
  let hi := if len l <? hi then len l else hi in
  slice_loop (Z.to_nat (hi - lo)) in_arena l list_new lo.
Definition oo_list_quota_release_bytes (c : Z) : M unit :=
  if c <=? 0 then ret tt
  else
    let b := oo_list_block_bytes c elem_size in
    if b =? 0 then ret tt else set_state (fun s => with_ambient (ambient_bytes (quota s) - b) s).
End family.

(** Equality of two lists, cell by cell, same payload first. *)
Fixpoint cells_eq {E} (eq : E -> E -> bool) (k : nat) (p q : list (option E)) (i : nat) : run bool :=
  match k with
  | O => Ret true
  | S k =>
      match p !! i, q !! i with
      | Some (Some x), Some (Some y) => if eq x y then cells_eq eq k p q (S i) else Ret false
      | _, _ => Undefined
      end
  end.
Definition list_eq {E W} (eq : E -> E -> bool) (a b : OoList) (s : Lstate E W) : run bool :=
  if negb (len a =? len b) then Ret false
  else if bool_decide (data a = data b) then Ret true
  else
    let cs o := match o with Some x => from_option cells [] (heap s !! x) | None => [] end in
    cells_eq eq (Z.to_nat (len a)) (cs (data a)) (cs (data b)) 0.

(** * The families *)

(** [OoIList]. *)
#[export] Instance ilist : Family Z unit :=
  {| elem_size := 8; retain_mask := 3; release_checked := true; counted := false;
     e_retain := fun _ w => Ret w; e_release := fun _ w => Ret (w, 0) |}.
(** [OoFList], over the type of doubles: neither side looks at the arena flag
    and the release looks at nothing. *)
Definition flist (D : Type) : Family D unit :=
  {| elem_size := 8; retain_mask := 1; release_checked := false; counted := false;
     e_retain := fun _ w => Ret w; e_release := fun _ w => Ret (w, 0) |}.

(** Strings as elements: the address of an [OoStrHeader] and a length; the
    headers of the live strings are the world. *)
Record StrRef := mkSr { s_data : option nat; s_len : Z }.
Definition Strings : Type := gmap nat OoListHeader.
Definition oo_str_hdr_ok (h : OoListHeader) (l : Z) : bool :=
  if (l <? 0) || (Z.shiftl 1 28 <? l) then false
  else if (ref_count h =? 0) || (ref_count h =? UINT32_MAX) then false
  else if 1000000 <? ref_count h then false
  else (Z.land (flags h) 1 =? 0) && negb (flags h =? TOMBSTONE).
Definition oo_str_retain (s : StrRef) (w : Strings) : run Strings :=
  match s_data s with
  | None => Ret w
  | Some a =>
      match w !! a with
      | None => Undefined
      | Some h => Ret (if oo_str_hdr_ok h (s_len s) then <[a := mkHdr (ref_count h + 1) (flags h)]> w else w)
      end
  end.
Definition oo_str_release (s : StrRef) (w : Strings) : run Strings :=
  match s_data s with
  | None => Ret w
  | Some a =>
      match w !! a with
      | None => Undefined
      | Some h =>
          Ret (if negb (oo_str_hdr_ok h (s_len s)) then w
               else if ref_count h =? 1 then delete a w else <[a := mkHdr (ref_count h - 1) (flags h)]> w)
      end
  end.
(** [OoSList]. *)
#[export] Instance slist : Family StrRef Strings :=
  {| elem_size := 16; retain_mask := 3; release_checked := true; counted := true;
     e_retain := oo_str_retain; e_release := fun e w => let* w := oo_str_release e w in Ret (w, 0) |}.
(** [LL_2D_FNS], [LL_3D_FNS], [LL_4D_FNS]: lists of the lists of a family.
    The bytes an inner release gives back are counted from 0. *)
Definition nested {E W} (F : Family E W) : Family OoList (Lstate E W) :=
  {| elem_size := 24; retain_mask := 1; release_checked := true; counted := true;
     e_retain := fun l w => let* r := list_retain l w in Ret (snd r);
     e_release := fun l w => let* r := list_release l (with_ambient 0 w) in Ret (snd r, - ambient_bytes (quota (snd r))) |}.

(** * The abstract state

    What the program holds: its handles, each with the list it denotes.  The
    store agrees when every handle's payload has these elements, every payload
    is counted once per handle, and the quota is charged for the payloads. *)

Definition on (a : nat) (h : OoList) : bool := bool_decide (data h = Some a).
Definition Held (E : Type) : Type := list (OoList * list E).
Definition refs {E} (a : nat) (hs : Held E) : nat := length (List.filter (fun h => on a (fst h)) hs).
Definition MAX_LEN : Z := Z.shiftl 1 28.

Section spec.
Context {E W : Type} {F : Family E W}.
Context (Hc : counted = false) (Hk : release_checked = true) (He : 0 < elem_size <= 64).
Local Abbreviation state := (Lstate E W).

Definition denotes (h : gmap nat (Payload E)) (l : OoList) (xs : list E) : Prop :=
  match data l with
  | None => xs = [] /\ len l = 0 /\ cap l = 0
  | Some a => 0 < cap l <= MAX_LEN /\ len l = Z.of_nat (length xs) /\ len l <= cap l /\
      exists p, h !! a = Some p /\ length (cells p) = Z.to_nat (cap l) /\ take (length xs) (cells p) = map Some xs
  end.
Definition charge (p : Payload E) : Z := OO_PAYLOAD_ALIGN + Z.of_nat (length (cells p)) * elem_size.
Definition charged (h : gmap nat (Payload E)) : Z := map_fold (fun _ p n => charge p + n) 0 h.
Definition Inv (s : state) (hs : Held E) : Prop :=
  (forall l xs, In (l, xs) hs -> denotes (heap s) l xs) /\
  (forall a p, heap s !! a = Some p -> (a < next s)%nat /\ hdr p = mkHdr (Z.of_nat (refs a hs)) 0 /\ (0 < refs a hs)%nat /\ Z.of_nat (length (cells p)) <= MAX_LEN) /\
  ambient_bytes (quota s) = charged (heap s).

Lemma charged_insert h a p : h !! a = None -> charged (<[a := p]> h) = charge p + charged h.
Proof. intros Hn. unfold charged. rewrite map_fold_insert_L; [done|intros; lia|done]. Qed.
Lemma charged_delete h a p : h !! a = Some p -> charged h = charge p + charged (delete a h).
Proof. intros Hn. unfold charged. rewrite (map_fold_delete_L _ _ a p); [done|intros; lia|done]. Qed.
Lemma charged_replace h a p q : h !! a = Some p -> length (cells q) = length (cells p) -> charged (<[a := q]> h) = charged h.
Proof.
  intros Hp Hl. rewrite (charged_delete h a p Hp). rewrite <- insert_delete_eq, charged_insert by apply lookup_delete_eq. unfold charge. by rewrite Hl.
Qed.
Lemma block_bytes c : 0 < c <= MAX_LEN -> oo_list_block_bytes c elem_size = OO_PAYLOAD_ALIGN + c * elem_size.
Proof.
  intros R. unfold oo_list_block_bytes. destruct (Z.leb_spec c 0); [lia|]. unfold OO_PAYLOAD_ALIGN, MAX_LEN in *.
  change (Z.shiftl 1 28) with 268435456 in R. apply i64_id. nia.
Qed.
Lemma refs_cons a l (xs : list E) hs : refs a ((l, xs) :: hs) = ((if on a l then 1 else 0) + refs a hs)%nat.
Proof. unfold refs. cbn [List.filter fst]. by destruct (on a l). Qed.
Lemma on_refl a l : data l = Some a -> on a l = true.
Proof. intros D. unfold on. by apply bool_decide_eq_true. Qed.
Lemma on_ne a b l : data l = Some b -> a <> b -> on a l = false.
Proof. intros D N. unfold on. apply bool_decide_eq_false. rewrite D. congruence. Qed.
Lemma refs_in a hs : (0 < refs a hs)%nat <-> exists l (xs : list E), In (l, xs) hs /\ data l = Some a.
Proof.
  clear Hc Hk He. unfold refs. split.
  - destruct (List.filter _ hs) as [|[l xs] t] eqn:Q; cbn; [lia|]. intros _. exists l, xs.
    assert (I : In (l, xs) (List.filter (fun h => on a (fst h)) hs)) by (rewrite Q; by left). apply filter_In in I as [I O].
    split; [done|]. unfold on in O. by apply bool_decide_eq_true in O.
  - intros (l & xs & I & D). assert (I' : In (l, xs) (List.filter (fun h => on a (fst h)) hs)) by (apply filter_In; split; [done|by apply on_refl]).
    destruct (List.filter _ hs); [done|cbn; lia].
Qed.
(** A denotation depends on the cells of its own payload only. *)
Lemma denotes_put h a p q l (xs : list E) : h !! a = Some p -> length (cells q) = length (cells p) ->
  (data l = Some a -> take (length xs) (cells q) = take (length xs) (cells p)) -> denotes h l xs -> denotes (<[a := q]> h) l xs.
Proof.
  intros Hp Hl Ht. unfold denotes. destruct (data l) as [b|]; [|done]. intros (R & L & C & x & X & Y & Z). split; [done|]. split; [done|]. split; [done|].
  destruct (decide (a = b)) as [->|N].
  - rewrite Hp in X. injection X as <-. exists q. rewrite lookup_insert_eq. split; [done|]. rewrite Hl, Ht by done. done.
  - exists x. rewrite lookup_insert_ne by done. done.
Qed.
Lemma denotes_new h a q l (xs : list E) : h !! a = None -> denotes h l xs -> denotes (<[a := q]> h) l xs.
Proof.
  intros Hp. unfold denotes. destruct (data l) as [b|]; [|done]. intros (R & L & C & x & X & Y). split; [done|]. split; [done|]. split; [done|].
  exists x. rewrite lookup_insert_ne by congruence. done.
Qed.

(** Changing only the count of a payload. *)
Lemma Inv_count s hs hs' a p : Inv s hs -> heap s !! a = Some p -> (0 < refs a hs')%nat ->
  (forall b, b <> a -> refs b hs' = refs b hs) -> (forall l xs, In (l, xs) hs' -> In (l, xs) hs \/ denotes (heap s) l xs) ->
  Inv (put a (mkPay (mkHdr (Z.of_nat (refs a hs')) 0) (cells p)) s) hs'.
Proof.
  intros (D & P & A) Hp Hr Hb Hi. split; [|split].
  - intros l xs I. cbn [heap put]. eapply denotes_put; [exact Hp|done|done|]. destruct (Hi _ _ I) as [J|J]; [by apply D|done].
  - intros b x. cbn [heap put next]. destruct (decide (b = a)) as [->|N].
    + rewrite lookup_insert_eq. intros [= <-]. destruct (P _ _ Hp) as (X & _ & _ & Y). done.
    + rewrite lookup_insert_ne by done. intros X. rewrite Hb by done. by apply P.
  - cbn [heap put quota]. rewrite A. symmetry. by eapply charged_replace.
Qed.

Lemma Inv_same_refs s hs hs' : Inv s hs -> (forall a, refs a hs' = refs a hs) -> (forall l xs, In (l, xs) hs' -> denotes (heap s) l xs) -> Inv s hs'.
Proof. intros (D & P & A) R D'. split; [done|]. split; [|done]. intros a p X. rewrite R. by apply P. Qed.
Lemma Inv_perm s hs hs' : Permutation hs hs' -> Inv s hs -> Inv s hs'.
Proof.
  intros Hp I. eapply Inv_same_refs; [exact I| |].
  - intros a. clear I. induction Hp as [|[l xs] hs hs' _ IH|[l xs] [m ys] hs|hs1 hs2 hs3 _ IH1 _ IH2]; [done|by rewrite !refs_cons, IH|rewrite !refs_cons; lia|by rewrite IH2].
  - intros l xs X. apply I. by rewrite Hp.
Qed.
Lemma Inv_head s l xs hs a : Inv s ((l, xs) :: hs) -> data l = Some a ->
  exists p, heap s !! a = Some p /\ hdr p = mkHdr (Z.of_nat (S (refs a hs))) 0 /\ 0 < cap l <= MAX_LEN /\ len l = Z.of_nat (length xs) /\ len l <= cap l /\
    length (cells p) = Z.to_nat (cap l) /\ take (length xs) (cells p) = map Some xs.
Proof.
  intros (D & P & _) Hd. pose proof (D l xs ltac:(by left)) as X. unfold denotes in X. rewrite Hd in X. destruct X as (R & L & C & p & Hp & Lp & T).
  exists p. split; [done|]. destruct (P a p Hp) as (_ & -> & _). rewrite refs_cons, (on_refl a l Hd). done.
Qed.

Lemma set_hdr_run a h p (s : state) : heap s !! a = Some p -> set_hdr a h s = Ret (tt, put a (mkPay h (cells p)) s).
Proof. intros Hp. unfold set_hdr, bind, payload. by rewrite Hp. Qed.
Lemma list_retain_spec s l xs hs : Inv s ((l, xs) :: hs) -> (forall a, data l = Some a -> Z.of_nat (S (refs a hs)) < UINT32_MAX) ->
  exists s', list_retain l s = Ret (tt, s') /\ Inv s' ((l, xs) :: (l, xs) :: hs).
Proof.
  intros I Hb. unfold list_retain. destruct (data l) as [a|] eqn:Hd.
  - destruct (Inv_head _ _ _ _ _ I Hd) as (p & Hp & Hh & _). specialize (Hb a eq_refl).
    unfold bind, payload. rewrite Hp. cbn [run_bind]. rewrite (set_hdr_run _ _ p) by done. eexists. split; [reflexivity|].
    assert (Eq : hdr_retain retain_mask (hdr p) = mkHdr (Z.of_nat (refs a ((l, xs) :: (l, xs) :: hs))) 0).
    { rewrite Hh. unfold hdr_retain. cbn [ref_count flags]. rewrite !refs_cons, (on_refl a l Hd). unfold UINT32_MAX in *.
      destruct (Z.eqb_spec (Z.of_nat (S (refs a hs))) 0); [lia|]. destruct (Z.eqb_spec (Z.of_nat (S (refs a hs))) 4294967295); [lia|]. cbn [orb negb].
      rewrite Z.land_0_l. cbn. f_equal. lia. }
    rewrite Eq. eapply Inv_count; [exact I|done| | |].
    + rewrite !refs_cons, (on_refl a l Hd). lia.
    + intros b N. rewrite !refs_cons, (on_ne b a l) by done. lia.
    + intros l0 ys [J|J]; left; [left; done|done].
  - eexists. split; [reflexivity|]. eapply Inv_same_refs; [exact I| |].
    + intros a. rewrite !refs_cons. unfold on. by rewrite Hd.
    + intros l0 ys [J|J]; apply I; [left; done|done].
Qed.

Lemma hdr_ok_spec l n : 0 < cap l <= MAX_LEN -> 0 <= len l <= cap l -> Z.of_nat (S n) <= 1000000 ->
  oo_list_hdr_ok (mkHdr (Z.of_nat (S n)) 0) (len l) (cap l) = true.
Proof.
  intros R L B. unfold oo_list_hdr_ok. cbn [ref_count flags]. unfold MAX_LEN in R. change (Z.shiftl 1 28) with 268435456 in *. unfold UINT32_MAX.
  destruct (_ || _ || _ || _) eqn:E1; [lia|]. destruct ((0 <? cap l) && _) eqn:E2; [lia|]. destruct (_ || _) eqn:E3; [lia|].
  destruct (Z.ltb_spec 1000000 (Z.of_nat (S n))) as [X|X]; [lia|]. destruct ((_ =? 0) || _) eqn:E4; [lia|reflexivity].
Qed.
Lemma denotes_delete h a l (xs : list E) : data l <> Some a -> denotes h l xs -> denotes (delete a h) l xs.
Proof.
  intros N. unfold denotes. destruct (data l) as [b|]; [|exact (fun x => x)]. intros (R & L & C & x & X & Y). split; [done|]. split; [done|]. split; [done|].
  exists x. rewrite lookup_delete_ne by congruence. done.
Qed.

Lemma list_release_spec s l xs hs : Inv s ((l, xs) :: hs) -> (forall a, data l = Some a -> Z.of_nat (S (refs a hs)) <= 1000000) ->
  exists s', list_release l s = Ret (tt, s') /\ Inv s' hs.
Proof.
  intros I Hb. unfold list_release. destruct (data l) as [a|] eqn:Hd.
  - destruct (Inv_head _ _ _ _ _ I Hd) as (p & Hp & Hh & R & L & C & Lp & T). specialize (Hb a eq_refl).
    unfold bind at 1, payload at 1. rewrite Hp. cbn [run_bind]. rewrite Hk, Hh, hdr_ok_spec by (done || lia). cbn [andb negb].
    unfold bind at 1. rewrite (set_hdr_run _ _ p) by done. unfold hdr_drop. cbn [run_bind ref_count flags]. rewrite (u32_id (Z.of_nat _ - 1)) by lia.
    destruct (Z.eqb_spec (Z.of_nat (S (refs a hs))) 1) as [Q|Q].
    + assert (Z0 : refs a hs = 0%nat) by lia. unfold list_destroy. rewrite Hk, Hc.
      unfold bind at 1, ret at 1. cbn [run_bind]. unfold bind at 1, payload at 1. cbn [heap put]. rewrite lookup_insert_eq. cbn [run_bind].
      unfold bind at 1. erewrite set_hdr_run by (cbn [heap put]; apply lookup_insert_eq). cbn [run_bind].
      unfold bind, set_state. cbn [run_bind]. eexists. split; [reflexivity|].
      destruct I as (D & P & A). unfold free_payload, with_ambient, put. cbn [heap quota next world ambient_bytes ambient_quota].
      rewrite insert_insert_eq, delete_insert_eq. split; [|split].
      * intros m ys J. cbn [heap]. apply denotes_delete; [|apply D; by right]. intros X.
        assert ((0 < refs a hs)%nat) by (apply refs_in; eauto). lia.
      * intros b x. cbn [heap next]. destruct (decide (a = b)) as [->|N]; [by rewrite lookup_delete_eq|].
        rewrite lookup_delete_ne by done. intros X. destruct (P b x X) as (P1 & P2 & P3). rewrite refs_cons, (on_ne b a l) in P2, P3 by done. done.
      * cbn [heap quota ambient_bytes]. rewrite A, (charged_delete _ a p Hp). rewrite block_bytes by done. unfold charge. rewrite Lp, Z2Nat.id by lia. lia.
    + eexists. split; [reflexivity|]. replace (Z.of_nat (S (refs a hs)) - 1) with (Z.of_nat (refs a hs)) by lia.
      eapply Inv_count; [exact I|done|lia| |].
      * intros b N. by rewrite refs_cons, (on_ne b a l).
      * intros m ys J. left. by right.
  - eexists. split; [reflexivity|]. eapply Inv_same_refs; [exact I| |].
    + intros a. rewrite refs_cons. unfold on. by rewrite Hd.
    + intros m ys J. apply I. by right.
Qed.

(** The state after a payload of [n] cells holding [xs] was made. *)
Definition with_new (n : Z) (cs : list (option E)) (s : state) : state :=
  {| heap := <[next s := mkPay (mkHdr 1 0) cs]> (heap s); next := S (next s);
     quota := {| ambient_bytes := ambient_bytes (quota s) + (OO_PAYLOAD_ALIGN + n * elem_size); ambient_quota := ambient_quota (quota s) |};
     world := world s |}.
Definition over_quota (s : state) (n : Z) : bool := ambient_quota (quota s) <? ambient_bytes (quota s) + (OO_PAYLOAD_ALIGN + n * elem_size).

Lemma heap_next s (hs : Held E) : Inv s hs -> heap s !! next s = None.
Proof. intros (_ & P & _). destruct (heap s !! next s) as [p|] eqn:X; [|done]. destruct (P _ _ X). lia. Qed.
Lemma alloc_run s n : 0 < n <= MAX_LEN ->
  oo_list_alloc_payload false n s = if over_quota s n then Exited 1 else Ret (Some (next s), with_new n (repeat None (Z.to_nat n)) s).
Proof.
  intros R. unfold oo_list_alloc_payload. destruct (Z.eqb_spec n 0); [lia|]. unfold MAX_LEN in R. change (Z.shiftl 1 28) with 268435456 in R.
  assert (X : n <= LLONG_MAX / elem_size) by (apply Z.div_le_lower_bound; [lia|unfold LLONG_MAX; nia]).
  destruct (Z.ltb_spec (LLONG_MAX / elem_size) n); [lia|]. rewrite andb_false_r. unfold bind at 1, get_state. cbn [run_bind].
  rewrite block_bytes by done. unfold over_quota. by destruct (_ <? _).
Qed.
Lemma grow_spec fuel ncap need : 0 < ncap -> need <= ncap * 2 ^ Z.of_nat fuel ->
  let r := grow_cap fuel ncap need in need <= r /\ ncap <= r /\ (r = ncap \/ r < 2 * need).
Proof.
  cbv zeta. revert ncap. induction fuel as [|fuel IH]; intros ncap Hn Hf; cbn [grow_cap]; [rewrite Z.pow_0_r in Hf; lia|].
  rewrite Nat2Z.inj_succ, Z.pow_succ_r in Hf by lia. destruct (Z.ltb_spec ncap need); [|lia].
  destruct (IH (ncap * 2)) as (A & B & C); [lia|lia|]. destruct C as [C|C]; [rewrite C in *|]; lia.
Qed.
Lemma new_inv s hs n cs ys : Inv s hs -> 0 < n <= MAX_LEN -> length cs = Z.to_nat n -> Z.of_nat (length ys) <= n -> take (length ys) cs = map Some ys ->
  Inv (with_new n cs s) ((mkList (Some (next s)) (Z.of_nat (length ys)) n, ys) :: hs).
Proof.
  intros I R L C T. pose proof (heap_next _ _ I) as Hn. destruct I as (D & P & A).
  assert (Z0 : refs (next s) hs = 0%nat).
  { destruct (refs (next s) hs) eqn:X; [done|]. destruct (proj1 (refs_in (next s) hs)) as (l & xs & J & Dl); [lia|].
    specialize (D l xs J). unfold denotes in D. rewrite Dl in D. destruct D as (_ & _ & _ & p & Hp & _). congruence. }
  split; [|split].
  - intros l xs [J|J]; cbn [heap with_new].
    + injection J as <- <-. unfold denotes. cbn [data len cap]. split; [done|]. split; [done|]. split; [done|].
      eexists. rewrite lookup_insert_eq. split; [done|]. cbn [cells]. done.
    + apply denotes_new; [done|by apply D].
  - intros a p. cbn [heap next with_new]. rewrite refs_cons. destruct (decide (a = next s)) as [->|N].
    + rewrite lookup_insert_eq. intros [= <-]. rewrite on_refl, Z0 by done. cbn [hdr cells]. split; [lia|]. split; [done|]. split; [lia|lia].
    + rewrite lookup_insert_ne by done. intros X. destruct (P a p X) as (P1 & P2 & P3). rewrite (on_ne a (next s)) by done. split; [lia|done].
  - cbn [heap quota ambient_bytes with_new]. rewrite charged_insert by done. rewrite A. unfold charge. cbn [cells]. rewrite L, Z2Nat.id by lia. lia.
Qed.
(** The copy of a list into a payload of [n] cells. *)
Lemma copy_run s hs l xs n skip : Inv s hs -> denotes (heap s) l xs -> 0 < n <= MAX_LEN -> len l <= n ->
  copy_payload false l n skip s =
  if over_quota s n then Exited 1 else Ret (next s, with_new n (map Some xs ++ repeat None (Z.to_nat n - length xs)) s).
Proof.
  intros I Dl R C. pose proof (heap_next _ _ I) as Hn. unfold copy_payload. unfold bind at 1. rewrite alloc_run by done.
  destruct (over_quota s n); [done|]. cbn [run_bind]. unfold denotes in Dl. destruct (data l) as [a|] eqn:Hd.
  - destruct Dl as (_ & L & _ & p & Hp & Lp & T).
    assert (Na : a <> next s) by congruence. destruct (Z.ltb_spec 0 (len l)) as [L0|L0].
    + unfold bind at 1. unfold bind at 1, payload at 1. cbn [heap with_new]. rewrite lookup_insert_ne, Hp by done. cbn [run_bind].
      unfold bind at 1, payload at 1. cbn [heap with_new]. rewrite lookup_insert_eq. cbn [run_bind cells hdr].
      rewrite L, Nat2Z.id, T, Hc. assert (Lx : (length xs <= length (cells p))%nat).
      { apply (f_equal length) in T. rewrite length_take, length_map in T. lia. }
      rewrite repeat_length. destruct (Nat.leb_spec (length xs) (length (cells p))); [|lia].
      destruct (Nat.leb_spec (length xs) (Z.to_nat n)); [|lia]. cbn [andb negb]. unfold bind at 1, set_state. cbn [run_bind]. unfold ret. cbn [run_bind].
      do 2 f_equal. unfold put, with_new. cbn [heap next quota world]. rewrite insert_insert_eq. do 4 f_equal.
      rewrite <- (Nat.sub_add (length xs) (Z.to_nat n)) at 1 by lia. rewrite Nat.add_comm, repeat_app.
      apply drop_app_length'. by rewrite repeat_length.
    + assert (xs = []) as -> by (apply length_zero_iff_nil; lia). cbn [map app length]. by rewrite Nat.sub_0_r.
  - destruct Dl as (-> & _). cbn [map app length]. by rewrite Nat.sub_0_r.
Qed.

Lemma elem_retain_run v (s : state) : elem_retain v s = Ret (tt, s).
Proof. unfold elem_retain. by rewrite Hc. Qed.
Lemma owned_run s l xs hs a : Inv s ((l, xs) :: hs) -> data l = Some a -> owned l s = Ret ((refs a hs =? 0)%nat, s).
Proof.
  intros I Hd. destruct (Inv_head _ _ _ _ _ I Hd) as (p & Hp & Hh & _). unfold owned. rewrite Hd. unfold bind, payload. rewrite Hp. cbn [run_bind]. unfold ret.
  do 2 f_equal. rewrite Hh. unfold oo_list_owned. cbn [ref_count flags]. rewrite Z.land_0_l. cbn [Z.eqb]. rewrite andb_true_r.
  destruct (Nat.eqb_spec (refs a hs) 0), (Z.eqb_spec (Z.of_nat (S (refs a hs))) 1); lia.
Qed.
Lemma set_cell_run a i v p (s : state) : heap s !! a = Some p -> (Z.to_nat i < length (cells p))%nat ->
  set_cell a i v s = Ret (tt, put a (mkPay (hdr p) (<[Z.to_nat i := Some v]> (cells p))) s).
Proof. intros Hp Hi. unfold set_cell, bind, payload. rewrite Hp. cbn [run_bind]. by destruct (Nat.ltb_spec (Z.to_nat i) (length (cells p))); [|lia]. Qed.
(** Writing a cell of a payload only [l] refers to. *)
Lemma write_inv s l xs hs a p i v ys l' : Inv s ((l, xs) :: hs) -> data l = Some a -> heap s !! a = Some p -> refs a hs = 0%nat ->
  data l' = Some a -> cap l' = cap l -> len l' = Z.of_nat (length ys) -> len l' <= cap l ->
  take (length ys) (<[i := Some v]> (cells p)) = map Some ys ->
  Inv (put a (mkPay (hdr p) (<[i := Some v]> (cells p))) s) ((l', ys) :: hs).
Proof.
  intros I Hd Hp Z0 Hd' Hcap Hl Hle T. destruct (Inv_head _ _ _ _ _ I Hd) as (p' & Hp' & _ & R & _ & _ & Lp & _).
  rewrite Hp in Hp'. injection Hp' as <-. destruct I as (D & P & A).
  assert (On : forall m zs, In (m, zs) hs -> data m <> Some a).
  { intros m zs J X. assert (0 < refs a hs)%nat by (apply refs_in; eauto). lia. }
  split; [|split].
  - intros m zs [J|J]; cbn [heap put].
    + injection J as <- <-. unfold denotes. rewrite Hd', Hcap. split; [done|]. split; [done|]. split; [done|].
      eexists. rewrite lookup_insert_eq. split; [done|]. cbn [cells]. by rewrite length_insert.
    + eapply denotes_put; [exact Hp|by cbn; rewrite length_insert| |apply D; by right]. intros X. by destruct (On m zs J).
  - intros b x. cbn [heap put next]. rewrite refs_cons. destruct (decide (b = a)) as [->|N].
    + rewrite lookup_insert_eq. intros [= <-]. destruct (P a p Hp) as (P1 & P2 & P3 & P4). rewrite refs_cons, (on_refl a l Hd) in P2.
      rewrite (on_refl a l' Hd'). cbn [hdr cells]. rewrite length_insert. split; [done|]. split; [done|]. split; [lia|done].
    + rewrite lookup_insert_ne by done. intros X. destruct (P b x X) as (P1 & P2 & P3). rewrite refs_cons, (on_ne b a l) in P2, P3 by done.
      by rewrite (on_ne b a l').
  - cbn [heap put quota]. rewrite A. symmetry. eapply charged_replace; [exact Hp|]. cbn. by rewrite length_insert.
Qed.
Lemma take_write (p : list (option E)) (xs : list E) (v : E) : (length xs < length p)%nat -> take (length xs) p = map Some xs ->
  take (length (xs ++ [v])) (<[length xs := Some v]> p) = map Some (xs ++ [v]).
Proof.
  intros L T. rewrite length_app, map_app. cbn [length map]. rewrite Nat.add_1_r. erewrite take_S_r by (by rewrite list_lookup_insert_eq).
  rewrite take_insert_ge by lia. by rewrite T.
Qed.
(** The write of the new element into the copy, and the header. *)
Lemma finish_run s (l : OoList) n i v cs : 0 <= i < n -> length cs = Z.to_nat n ->
  (let! _ := set_cell (next s) i v in let! _ := elem_retain v in let! p := payload (next s) in
   let! _ := set_hdr (next s) {| ref_count := 1; flags := flags (hdr p) |} in ret l) (with_new n cs s) =
  Ret (l, with_new n (<[Z.to_nat i := Some v]> cs) s).
Proof.
  intros Hi Hcs. unfold bind at 1. erewrite set_cell_run; [|cbn [heap with_new]; apply lookup_insert_eq|cbn [cells]; lia]. cbn [run_bind].
  unfold bind at 1. rewrite elem_retain_run. cbn [run_bind]. unfold bind at 1, payload at 1. cbn [heap put with_new]. rewrite lookup_insert_eq. cbn [run_bind].
  unfold bind at 1. erewrite set_hdr_run by (cbn [heap put with_new]; apply lookup_insert_eq). cbn [run_bind]. unfold ret. do 2 f_equal.
  unfold put, with_new. cbn [heap next quota world hdr cells flags]. by rewrite !insert_insert_eq.
Qed.

(** Pushing ends the process when the quota has no room for the capacity it
    needs, and otherwise returns a further handle for the longer list. *)
Definition push_result (s : state) (l : OoList) (xs : list E) (hs : Held E) (v : E) (r : run (OoList * state)) : Prop :=
  (exists n, r = Exited 1 /\ over_quota s n = true /\ n <= Z.max 8 (Z.max (cap l) (2 * len l + 1))) \/
  (exists l' s', r = Ret (l', s') /\ Inv s' ((l', xs ++ [v]) :: (l, xs) :: hs) /\ cap l' <= Z.max 8 (Z.max (cap l) (2 * len l + 1))).
Lemma list_push_spec s l xs hs v : Inv s ((l, xs) :: hs) -> Z.of_nat (length xs) < Z.shiftl 1 27 -> push_result s l xs hs v (list_push false l v s).
Proof.
  intros I Lx. change (Z.shiftl 1 27) with 134217728 in Lx.
  assert (Dl : denotes (heap s) l xs) by (apply I; by left).
  assert (Fresh : forall n, 0 < n <= MAX_LEN -> len l = Z.of_nat (length xs) -> len l + 1 <= n -> n <= Z.max 8 (Z.max (cap l) (2 * len l + 1)) ->
    push_result s l xs hs v ((let! b := copy_payload false l n None in let! _ := set_cell b (len l) v in let! _ := elem_retain v in let! p := payload b in
      let! _ := set_hdr b {| ref_count := 1; flags := flags (hdr p) |} in ret {| data := Some b; len := len l + 1; cap := n |}) s)).
  { intros n R L C B. match goal with |- push_result _ _ _ _ _ ?r0 => set (r := r0) end.
    assert (Eq : r = if over_quota s n then Exited 1 else Ret ({| data := Some (next s); len := len l + 1; cap := n |},
      with_new n (<[Z.to_nat (len l) := Some v]> (map Some xs ++ repeat None (Z.to_nat n - length xs))) s)).
    { unfold r, bind at 1. rewrite (copy_run s _ l xs n None I Dl R ltac:(lia)). destruct (over_quota s n); [done|].
      cbn [run_bind]. by rewrite finish_run by (rewrite ?length_app, ?length_map, ?repeat_length; lia). }
    rewrite Eq. destruct (over_quota s n) eqn:Q; [left; eauto|]. right. eexists _, _. split; [reflexivity|]. split; [|exact B]. rewrite L, Nat2Z.id.
    replace (Z.of_nat (length xs) + 1) with (Z.of_nat (length (xs ++ [v]))) by (rewrite length_app; cbn; lia).
    apply (new_inv s _ n _ (xs ++ [v]) I R).
    - rewrite length_insert, length_app, length_map, repeat_length. lia.
    - rewrite length_app. cbn. lia.
    - apply take_write; [rewrite length_app, length_map, repeat_length; lia|].
      apply take_app_length'. by rewrite length_map. }
  assert (Alloc : 0 <= cap l <= MAX_LEN -> len l = Z.of_nat (length xs) -> len l <= cap l ->
    let n := grow_cap 64 (if cap l =? 0 then 8 else cap l) (len l + 1) in 0 < n <= MAX_LEN /\ len l + 1 <= n /\ n <= Z.max 8 (Z.max (cap l) (2 * len l + 1))).
  { intros R L C. cbv zeta. pose proof (grow_spec 64 (if cap l =? 0 then 8 else cap l) (len l + 1)) as G. cbv zeta in G.
    unfold MAX_LEN in *. change (Z.shiftl 1 28) with 268435456 in *. change (2 ^ Z.of_nat 64) with 18446744073709551616 in G.
    destruct (Z.eqb_spec (cap l) 0); specialize (G ltac:(lia) ltac:(lia)); lia. }
  unfold list_push. destruct (data l) as [a|] eqn:Hd.
  - destruct (Inv_head _ _ _ _ _ I Hd) as (p & Hp & Hh & R & L & C & Lp & T). rewrite bool_decide_true by congruence. cbn [andb].
    destruct Alloc as (A1 & A2 & A3); [lia|done|done|]. pose proof (Fresh _ A1 L A2 A3) as Slow.
    destruct (Z.ltb_spec (len l) (cap l)) as [Lc|Lc].
    + unfold bind at 1. rewrite (owned_run s l xs hs a I Hd). cbn [run_bind]. destruct (Nat.eqb_spec (refs a hs) 0) as [Z0|Z0]; [|exact Slow].
      right. unfold bind at 1. rewrite (set_cell_run a (len l) v p) by (done || lia). cbn [run_bind]. unfold bind at 1. rewrite elem_retain_run. cbn [run_bind].
      rewrite L, Nat2Z.id. set (s1 := put a (mkPay (hdr p) (<[length xs := Some v]> (cells p))) s).
      set (l' := {| data := Some a; len := Z.of_nat (length xs) + 1; cap := cap l |}).
      assert (Lp' : (length xs < length (cells p))%nat) by lia.
      assert (I1 : Inv s1 ((l', xs ++ [v]) :: hs)).
      { eapply write_inv; [exact I|exact Hd|exact Hp|exact Z0|done|done| | |by apply take_write].
        - cbn [len l']. rewrite length_app. cbn. lia.
        - cbn [len l']. lia. }
      assert (I0 : denotes (heap s1) l xs).
      { eapply denotes_put; [exact Hp|by cbn; rewrite length_insert| |exact Dl]. intros _. cbn [cells]. by rewrite take_insert_ge. }
      unfold bind. cbn [list_retain data l']. unfold list_retain. cbn [data l']. unfold bind, payload. cbn [heap s1 put]. rewrite lookup_insert_eq. cbn [run_bind hdr].
      erewrite set_hdr_run by (cbn [heap s1 put]; apply lookup_insert_eq). cbn [run_bind]. eexists _, _. split; [reflexivity|]. split; [|cbn [cap l']; lia].
      assert (Eq : hdr_retain retain_mask (hdr p) = mkHdr (Z.of_nat (refs a ((l', xs ++ [v]) :: (l, xs) :: hs))) 0).
      { rewrite Hh, Z0. unfold hdr_retain. cbn [ref_count flags]. rewrite Z.land_0_l. rewrite !refs_cons, (on_refl a l' eq_refl), (on_refl a l Hd), Z0. done. }
      rewrite Eq. eapply Inv_count; [exact I1|cbn [heap s1 put]; apply lookup_insert_eq| | |].
      * rewrite !refs_cons, (on_refl a l Hd). lia.
      * intros b N. rewrite !refs_cons, (on_ne b a l) by done. lia.
      * intros m zs [J|[J|J]]; [left; by left|right; injection J as <- <-; exact I0|left; by right].
    + unfold bind at 1, ret at 1. cbn [run_bind]. exact Slow.
  - rewrite bool_decide_false by (intros X; by apply X). cbn [andb]. unfold bind at 1, ret at 1. cbn [run_bind].
    unfold denotes in Dl. rewrite Hd in Dl. destruct Dl as (-> & L & C). cbn [length] in *.
    destruct Alloc as (A1 & A2 & A3); [rewrite C; done|done|lia|]. exact (Fresh _ A1 L A2 A3).
Qed.

Lemma put_put a p q (s : state) : put a q (put a p s) = put a q s.
Proof. unfold put. cbn [heap next quota world]. by rewrite insert_insert_eq. Qed.
Lemma put_same a p (s : state) : heap s !! a = Some p -> put a p s = s.
Proof. intros Hp. unfold put. rewrite insert_id by done. by destruct s. Qed.
Lemma cell_run a i p e (s : state) : heap s !! a = Some p -> cells p !! Z.to_nat i = Some (Some e) -> cell a i s = Ret (e, s).
Proof. intros Hp Hi. unfold cell, bind, payload. rewrite Hp. cbn [run_bind]. by rewrite Hi. Qed.
Lemma lookup_elem (xs : list E) (cs : list (option E)) i x : take (length xs) cs = map Some xs -> xs !! i = Some x -> cs !! i = Some (Some x).
Proof.
  intros T Hi. pose proof (lookup_lt_Some _ _ _ Hi). rewrite <- (lookup_take_lt cs (length xs)) by done. rewrite T. by apply list_lookup_fmap_Some_2.
Qed.

(** Reading leaves the store as it was. *)
Lemma list_get_spec s l xs hs i : Inv s ((l, xs) :: hs) -> (forall a, data l = Some a -> Z.of_nat (S (refs a hs)) < 1000000) ->
  list_get l i s = if i <? 0 then Exited 1 else match xs !! Z.to_nat i with Some x => Ret (x, s) | None => Exited 1 end.
Proof.
  intros I Hb. assert (Dl : denotes (heap s) l xs) by (apply I; by left). unfold list_get, bind at 1, list_retain.
  destruct (data l) as [a|] eqn:Hd.
  - destruct (Inv_head _ _ _ _ _ I Hd) as (p & Hp & Hh & R & L & C & Lp & T). specialize (Hb a eq_refl).
    unfold bind at 1, payload at 1. rewrite Hp. cbn [run_bind]. rewrite (set_hdr_run _ _ p) by done. cbn [run_bind].
    assert (Hr : hdr_retain retain_mask (hdr p) = mkHdr (Z.of_nat (S (S (refs a hs)))) 0).
    { rewrite Hh. unfold hdr_retain, UINT32_MAX. cbn [ref_count flags]. destruct (Z.eqb_spec (Z.of_nat (S (refs a hs))) 0); [lia|].
      destruct (Z.eqb_spec (Z.of_nat (S (refs a hs))) 4294967295); [lia|]. rewrite Z.land_0_l. cbn [orb negb Z.eqb]. f_equal. lia. }
    rewrite Hr. set (s1 := put a _ s).
    assert (Hs1 : heap s1 !! a = Some (mkPay (mkHdr (Z.of_nat (S (S (refs a hs)))) 0) (cells p))) by (cbn [heap s1 put]; apply lookup_insert_eq).
    assert (Rel : list_release l s1 = Ret (tt, s)).
    { unfold list_release. rewrite Hd. unfold bind at 1, payload at 1. rewrite Hs1. cbn [run_bind hdr]. rewrite Hk, hdr_ok_spec by (done || lia). cbn [andb negb].
      unfold bind at 1. erewrite set_hdr_run by exact Hs1. unfold hdr_drop. cbn [run_bind ref_count flags cells].
      destruct (Z.eqb_spec (Z.of_nat (S (S (refs a hs)))) 1); [lia|]. unfold ret, s1. rewrite put_put, u32_id by lia.
      do 2 f_equal. rewrite <- (put_same a p s Hp) at 2. f_equal. destruct p as [h cs]. cbn [hdr] in Hh. subst h. cbn [cells]. f_equal. f_equal. lia. }
    destruct (Z.ltb_spec i 0); cbn [orb]; [unfold bind; by rewrite Rel|].
    destruct (xs !! Z.to_nat i) as [x|] eqn:Ex.
    + pose proof (lookup_lt_Some _ _ _ Ex). destruct (Z.leb_spec (len l) i); [lia|]. unfold bind at 1.
      rewrite (cell_run a i _ x s1 Hs1) by (by eapply lookup_elem). cbn [run_bind]. unfold bind at 1. rewrite elem_retain_run. cbn [run_bind].
      unfold bind. by rewrite Rel.
    + apply lookup_ge_None_1 in Ex. destruct (Z.leb_spec (len l) i); [|lia]. unfold bind. by rewrite Rel.
  - unfold denotes in Dl. rewrite Hd in Dl. destruct Dl as (-> & L & _). cbn [run_bind]. unfold ret at 1. cbn [run_bind].
    destruct (Z.ltb_spec i 0); cbn [orb]; [|destruct (Z.leb_spec (len l) i); [|lia]]; unfold bind, list_release; rewrite Hd; done.
Qed.

(** Setting an element: the process ends out of range or over quota; a list
    with other handles is copied; one without is overwritten, and its own
    handle then denotes the new list too. *)
Definition set_result (s : state) (l : OoList) (xs : list E) (hs : Held E) (i : Z) (v : E) (r : run (OoList * state)) : Prop :=
  let ys := <[Z.to_nat i := v]> xs in
  if (0 <=? i) && (i <? Z.of_nat (length xs)) then
    if existsb (fun h => bool_decide (data (fst h) = data l)) hs
    then (r = Exited 1 /\ over_quota s (cap l) = true) \/ exists l' s', r = Ret (l', s') /\ Inv s' ((l', ys) :: (l, xs) :: hs)
    else exists s', r = Ret (l, s') /\ Inv s' ((l, ys) :: (l, ys) :: hs)
  else r = Exited 1.
Lemma list_set_spec s l xs hs i v : Inv s ((l, xs) :: hs) -> set_result s l xs hs i v (list_set false l i v s).
Proof.
  intros I. assert (Dl : denotes (heap s) l xs) by (apply I; by left). unfold set_result.
  destruct ((0 <=? i) && (i <? Z.of_nat (length xs))) eqn:Ri.
  2: { assert (Ll : len l = Z.of_nat (length xs)) by (unfold denotes in Dl; destruct (data l); [by destruct Dl as (_ & ? & _)|by destruct Dl as (-> & ? & _)]).
    unfold list_set. destruct ((i <? 0) || (len l <=? i)) eqn:Q; [done|lia]. }
  destruct (data l) as [a|] eqn:Hd; [|unfold denotes in Dl; rewrite Hd in Dl; destruct Dl as (-> & _ & _); cbn in Ri; lia].
  destruct (Inv_head _ _ _ _ _ I Hd) as (p & Hp & Hh & R & L & C & Lp & T).
  assert (Ex : existsb (fun h : OoList * list E => bool_decide (data (fst h) = Some a)) hs = negb (refs a hs =? 0)%nat).
  { apply eq_iff_eq_true. rewrite existsb_exists, negb_true_iff, Nat.eqb_neq. split.
    - intros ([m zs] & J & X). apply bool_decide_eq_true in X. assert (0 < refs a hs)%nat by (apply refs_in; eauto). lia.
    - intros X. destruct (proj1 (refs_in a hs)) as (m & zs & J & Dm); [lia|]. exists (m, zs). split; [done|]. by apply bool_decide_eq_true. }
  rewrite Ex. unfold list_set. destruct ((i <? 0) || (len l <=? i)) eqn:Q; [lia|]. rewrite Hd.
  assert (Hi : (Z.to_nat i < length xs)%nat) by lia. destruct (Nat.eqb_spec (refs a hs) 0) as [Z0|Z0]; cbn [negb].
  - rewrite Hc. cbv iota. unfold bind at 1. rewrite (owned_run s l xs hs a I Hd), Z0. cbn [run_bind Nat.eqb]. unfold bind at 1. rewrite (set_cell_run a i v p) by (done || lia). cbn [run_bind].
    assert (I1 : Inv (put a (mkPay (hdr p) (<[Z.to_nat i := Some v]> (cells p))) s) ((l, <[Z.to_nat i := v]> xs) :: hs)).
    { eapply write_inv; [exact I|exact Hd|exact Hp|exact Z0|done|done|by rewrite length_insert|done|].
      rewrite length_insert, take_insert_lt by done. rewrite T. symmetry. apply list_fmap_insert. }
    destruct (list_retain_spec _ _ _ _ I1) as (s' & E' & I').
    { intros b X. rewrite Hd in X. injection X as <-. rewrite Z0. done. }
    unfold bind. rewrite E'. cbn [run_bind]. eexists. split; [reflexivity|exact I'].
  - destruct (Z.eqb_spec (cap l) 0); [lia|]. match goal with |- (?r0 = _ /\ _) \/ _ => set (r := r0) end.
    assert (Eq : r = if over_quota s (cap l) then Exited 1 else Ret ({| data := Some (next s); len := len l; cap := cap l |},
      with_new (cap l) (<[Z.to_nat i := Some v]> (map Some xs ++ repeat None (Z.to_nat (cap l) - length xs))) s)).
    { unfold r, bind at 1. rewrite (owned_run s l xs hs a I Hd). destruct (Nat.eqb_spec (refs a hs) 0); [lia|]. cbn [run_bind].
      unfold bind at 1. rewrite (copy_run s _ l xs (cap l) (Some i) I Dl R ltac:(lia)). destruct (over_quota s (cap l)); [done|]. cbn [run_bind].
      by rewrite finish_run by (rewrite ?length_app, ?length_map, ?repeat_length; lia). }
    rewrite Eq. destruct (over_quota s (cap l)) eqn:Oq; [by left|]. right. eexists _, _. split; [reflexivity|].
    rewrite insert_app_l by (rewrite length_map; lia). rewrite L. rewrite <- (length_insert xs (Z.to_nat i) v).
    apply (new_inv s _ (cap l) _ (<[Z.to_nat i := v]> xs) I R).
    + rewrite length_app, length_insert, length_map, repeat_length. rewrite length_insert. lia.
    + rewrite length_insert. lia.
    + rewrite length_insert. rewrite take_app_length' by (by rewrite length_insert, length_map). symmetry. apply list_fmap_insert.
Qed.

Lemma refs_le a (hs : Held E) : (refs a hs <= length hs)%nat.
Proof. clear Hc Hk He. unfold refs. induction hs as [|h hs IH]; cbn [List.filter length]; [lia|]. destruct (on a (fst h)); cbn [length]; lia. Qed.
Lemma Inv_new s hs : Inv s hs -> Inv s ((list_new, []) :: hs).
Proof.
  intros I. eapply Inv_same_refs; [exact I| |].
  - intros a. by rewrite refs_cons.
  - intros l xs [J|J]; [injection J as <- <-; done|by apply I].
Qed.
Lemma Inv_tail_swap s h1 h2 (hs : Held E) : Inv s (h1 :: h2 :: hs) -> Inv s (h2 :: h1 :: hs).
Proof. apply Inv_perm. constructor. Qed.
(** The charge is a function of the handles held. *)
Lemma held_charge s hs b : Inv s hs ->
  charge <$> heap s !! b = (fun h : OoList * list E => OO_PAYLOAD_ALIGN + cap (fst h) * elem_size) <$> List.find (fun h => on b (fst h)) hs.
Proof.
  intros (D & P & _). destruct (List.find _ hs) as [[l xs]|] eqn:Q.
  - apply find_some in Q as [I O]. unfold on in O. apply bool_decide_eq_true in O. specialize (D l xs I). unfold denotes in D. cbn [fst] in O. rewrite O in D.
    destruct D as (R & _ & _ & p & -> & L & _). cbn. unfold charge. rewrite L, Z2Nat.id by lia. done.
  - destruct (heap s !! b) as [p|] eqn:X; [|done]. destruct (P b p X) as (_ & _ & N & _). apply refs_in in N as (l & xs & I & Dl).
    pose proof (find_none _ _ Q _ I) as O. cbn [fst] in O. by rewrite on_refl in O.
Qed.
Lemma charged_agree h h' : (forall b, charge <$> h !! b = charge <$> h' !! b) -> charged h = charged h'.
Proof.
  intros X. assert (Eq : forall h, charged h = map_fold (fun _ c n => c + n) 0 (charge <$> h)) by (intros g; unfold charged; by rewrite map_fold_fmap).
  rewrite !Eq. f_equal. apply map_eq. intros b. by rewrite !lookup_fmap.
Qed.
(** One handle more costs at most its capacity. *)
Lemma ambient_cons s s0 o zs hs : Inv s ((o, zs) :: hs) -> Inv s0 hs ->
  ambient_bytes (quota s) <= ambient_bytes (quota s0) + (OO_PAYLOAD_ALIGN + cap o * elem_size).
Proof.
  intros I I0. pose proof I as (D & _ & A). pose proof I0 as (_ & _ & A0). rewrite A, A0.
  assert (Do : denotes (heap s) o zs) by (apply D; by left). pose proof (fun b => held_charge s _ b I) as C. pose proof (fun b => held_charge s0 _ b I0) as C0.
  unfold OO_PAYLOAD_ALIGN in *. assert (Same : forall g, (forall b, charge <$> g !! b = charge <$> heap s0 !! b) -> charged g = charged (heap s0)) by (intros; by apply charged_agree).
  unfold denotes in Do. destruct (data o) as [a|] eqn:Ed.
  - destruct Do as (R & _ & _ & p & Hp & L & _). destruct (List.find (fun h => on a (fst h)) hs) eqn:Q.
    + rewrite (Same (heap s)); [lia|]. intros b. rewrite C, C0. cbn [List.find fst]. destruct (on b o) eqn:O; [|done].
      unfold on in O. apply bool_decide_eq_true in O. rewrite Ed in O. injection O as <-. 
      assert (Wf : forall h, List.find (fun h => on a (fst h)) hs = Some h -> cap (fst h) = cap o); [|by rewrite Q; cbn; rewrite (Wf _ Q)].
      intros [l xs] F'. apply find_some in F' as [J O]. unfold on in O. apply bool_decide_eq_true in O. cbn [fst] in O. specialize (D l xs ltac:(by right)).
      unfold denotes in D. rewrite O in D. destruct D as (R' & _ & _ & p' & Hp' & L' & _). rewrite Hp in Hp'. injection Hp' as <-. cbn [fst]. lia.
    + rewrite (charged_delete _ a p Hp), (Same (delete a (heap s))); [unfold charge, OO_PAYLOAD_ALIGN; lia|]. intros b. destruct (decide (a = b)) as [<-|N].
      * rewrite lookup_delete_eq, C0, Q. done.
      * rewrite lookup_delete_ne, C, C0 by done. cbn [List.find fst]. by rewrite (on_ne b a o).
  - destruct Do as (_ & _ & ->). rewrite (Same (heap s)); [lia|]. intros b. rewrite C, C0. cbn [List.find fst].
    unfold on at 1. by rewrite Ed, bool_decide_false.
Qed.
(** No operation changes the limit. *)
Definition keeps_limit {A} (m : ST state A) : Prop := forall s r s', m s = Ret (r, s') -> ambient_quota (quota s') = ambient_quota (quota s).
Lemma keeps_bind {A B} (m : ST state A) (f : A -> ST state B) : keeps_limit m -> (forall a, keeps_limit (f a)) -> keeps_limit (bind m f).
Proof.
  intros Km Kf s r s'. unfold bind. destruct (m s) as [[a s1]| |] eqn:Em; cbn [run_bind]; [|done|done]. intros Ef. by rewrite (Kf a _ _ _ Ef), (Km _ _ _ Em).
Qed.
Lemma keeps_ret {A} (a : A) : keeps_limit (ret a).
Proof. intros s r s' Q. by apply Ret_inj, pair_equal_spec in Q as [_ <-]. Qed.
Lemma keeps_get : keeps_limit get_state.
Proof. intros s r s' Q. by apply Ret_inj, pair_equal_spec in Q as [_ <-]. Qed.
Lemma keeps_set f : (forall s, ambient_quota (quota (f s)) = ambient_quota (quota s)) -> keeps_limit (set_state f).
Proof. intros Kf s r s' Q. apply Ret_inj, pair_equal_spec in Q as [_ <-]. apply Kf. Qed.
Lemma keeps_die {A} n : keeps_limit (@die state A n).
Proof. done. Qed.
Lemma keeps_undef {A} : keeps_limit (@undef state A).
Proof. done. Qed.
Lemma keeps_payload a : keeps_limit (payload a).
Proof. intros s r s' Q. unfold payload in Q. destruct (heap s !! a); [|done]. by apply Ret_inj, pair_equal_spec in Q as [_ <-]. Qed.
Lemma keeps_new fl n : keeps_limit (new_payload fl n).
Proof. intros s r s' Q. by apply Ret_inj, pair_equal_spec in Q as [_ <-]. Qed.
Lemma keeps_elem_retain v : keeps_limit (elem_retain v).
Proof. intros s r s' Q. rewrite elem_retain_run in Q. by apply Ret_inj, pair_equal_spec in Q as [_ <-]. Qed.
Ltac keeps := repeat first
  [ apply keeps_bind; [|intros ?] | apply keeps_ret | apply keeps_get | apply keeps_set; done | apply keeps_die | apply keeps_undef | apply keeps_payload
  | apply keeps_new | apply keeps_elem_retain | progress case_match | done ].
Lemma keeps_push l v : keeps_limit (list_push false l v).
Proof. unfold list_push, owned, copy_payload, oo_list_alloc_payload, list_retain, set_cell, set_hdr. rewrite Hc. cbn [negb]. keeps. Qed.
Lemma keeps_release l : keeps_limit (list_release l).
Proof. unfold list_release, list_destroy, set_hdr. rewrite Hc. keeps. Qed.

(** What [list_slice] gives: the process ends only when the quota has no room
    for two payloads of twice the size (the last one and the one it grows
    into). *)
Definition slice_peak (n : Z) : Z := 2 * (OO_PAYLOAD_ALIGN + Z.max 8 (2 * n) * elem_size).
Definition slice_result (s : state) (xs : list E) (l : OoList) (hs : Held E) (ys : list E) (r : run (OoList * state)) : Prop :=
  (r = Exited 1 /\ ambient_quota (quota s) < ambient_bytes (quota s) + slice_peak (Z.of_nat (length ys))) \/
  exists o s', r = Ret (o, s') /\ Inv s' ((o, ys) :: (l, xs) :: hs).
Lemma slice_loop_spec k s0 s l xs hs o zs i : Inv s0 ((l, xs) :: hs) -> ambient_quota (quota s) = ambient_quota (quota s0) -> cap o <= Z.max 8 (2 * Z.of_nat (length zs)) ->
  Inv s ((o, zs) :: (l, xs) :: hs) -> 0 <= i -> i + Z.of_nat k <= Z.of_nat (length xs) ->
  Z.of_nat (length xs) < Z.shiftl 1 27 -> Z.of_nat (length zs) + Z.of_nat k <= Z.of_nat (length xs) -> Z.of_nat (length hs) < 999990 ->
  slice_result s0 xs l hs (zs ++ slice (Z.to_nat i) k xs) (slice_loop k false l o i s).
Proof.
  intros I0. revert s o zs i. induction k as [|k IH]; intros s o zs i Lq Co I Hi Hk' Hx Hz Hn; cbn [slice_loop].
  { right. eexists _, _. split; [reflexivity|]. unfold slice. by rewrite take_0, app_nil_r. }
  destruct (data l) as [a|] eqn:Hd.
  2: { assert (Dl : denotes (heap s) l xs) by (apply I; right; by left). unfold denotes in Dl. rewrite Hd in Dl. destruct Dl as (-> & _). cbn [length] in *. lia. }
  assert (Ia := I). apply Inv_tail_swap in Ia. destruct (Inv_head _ _ _ _ _ Ia Hd) as (p & Hp & _ & _ & _ & _ & _ & T).
  destruct (lookup_lt_is_Some_2 xs (Z.to_nat i)) as [e He']; [lia|].
  unfold bind at 1. rewrite (cell_run a i p e) by (done || by eapply lookup_elem). cbn [run_bind]. unfold bind at 1.
  assert (Lo : len o = Z.of_nat (length zs)).
  { assert (Do : denotes (heap s) o zs) by (apply I; by left). unfold denotes in Do. destruct (data o); [by destruct Do as (_ & ? & _)|by destruct Do as (-> & ? & _)]. }
  assert (Ls : length (slice (Z.to_nat i) (S k) xs) = S k) by (apply length_slice; lia).
  destruct (list_push_spec s o zs _ e I) as [(n & -> & Q & Bn)|(o' & s' & E' & I' & Co')]; [lia| |].
  { left. split; [done|]. unfold over_quota in Q. apply Z.ltb_lt in Q. pose proof (ambient_cons s s0 o zs _ I I0) as A. rewrite length_app, Ls. unfold slice_peak. rewrite <- Lq.
    assert (n <= Z.max 8 (2 * Z.of_nat (length zs + S k))) by lia. assert (cap o <= Z.max 8 (2 * Z.of_nat (length zs + S k))) by lia. nia. }
  rewrite E'. pose proof (keeps_push o e _ _ _ E') as K1. cbn [run_bind]. unfold bind at 1.
  apply Inv_tail_swap in I'. destruct (list_release_spec _ _ _ _ I') as (s2 & E2 & I2).
  { intros b _. pose proof (refs_le b ((o', zs ++ [e]) :: (l, xs) :: hs)) as B. cbn [length] in B. lia. }
  rewrite E2. pose proof (keeps_release o _ _ _ E2) as K2. cbn [run_bind].
  replace (zs ++ slice (Z.to_nat i) (S k) xs) with ((zs ++ [e]) ++ slice (Z.to_nat (i + 1)) k xs).
  - apply IH; try done; rewrite ?length_app; cbn [length]; lia.
  - rewrite <- app_assoc. f_equal. unfold slice. rewrite (drop_S xs e (Z.to_nat i)) by done. cbn [take app]. f_equal. f_equal. f_equal. lia.
Qed.
Lemma list_slice_spec s l xs hs lo hi : Inv s ((l, xs) :: hs) -> Z.of_nat (length xs) < Z.shiftl 1 27 -> Z.of_nat (length hs) < 999990 ->
  let lo' := Z.max 0 lo in let hi' := Z.min hi (Z.of_nat (length xs)) in
  slice_result s xs l hs (slice (Z.to_nat lo') (Z.to_nat (hi' - lo')) xs) (list_slice false l lo hi s).
Proof.
  intros I Hx Hn. cbv zeta. unfold list_slice.
  assert (Ll : len l = Z.of_nat (length xs)).
  { assert (Dl : denotes (heap s) l xs) by (apply I; by left). unfold denotes in Dl. destruct (data l); [by destruct Dl as (_ & ? & _)|by destruct Dl as (-> & ? & _)]. }
  replace (if lo <? 0 then 0 else lo) with (Z.max 0 lo) by (destruct (Z.ltb_spec lo 0); lia).
  replace (if len l <? hi then len l else hi) with (Z.min hi (Z.of_nat (length xs))) by (destruct (Z.ltb_spec (len l) hi); lia).
  set (lo' := Z.max 0 lo). set (hi' := Z.min hi (Z.of_nat (length xs))).
  destruct (Z.le_gt_cases lo' hi') as [Q|Q].
  - rewrite <- (app_nil_l (slice _ _ xs)). apply slice_loop_spec; try done; [by apply Inv_new|cbn [length]; lia..].
  - replace (Z.to_nat (hi' - lo')) with 0%nat by lia. right. eexists _, _. split; [reflexivity|].
    unfold slice. rewrite take_0. by apply Inv_new.
Qed.
End spec.

(** * Programs over integer lists *)

Local Abbreviation ILS := (Lstate Z unit).
Definition start (q : Z) : ILS := {| heap := ∅; next := 0; quota := mkQuota 0 q; world := tt |}.
(** The states and handles a program can have, holding fewer than a million
    handles and lists of fewer than 2^27 elements. *)
Definition small (hs : Held Z) : Prop := Z.of_nat (length hs) < 999990 /\ Forall (fun h => Z.of_nat (length (snd h)) < Z.shiftl 1 27) hs.
Inductive reach : ILS -> Held Z -> Prop :=
| reach_start q : reach (start q) []
| reach_new s hs : reach s hs -> small hs -> reach s ((list_new, []) :: hs)
| reach_perm s hs hs' : reach s hs -> Permutation hs hs' -> reach s hs'
| reach_push s l xs hs v l' s' : reach s ((l, xs) :: hs) -> small ((l, xs) :: hs) ->
    list_push false l v s = Ret (l', s') -> reach s' ((l', xs ++ [v]) :: (l, xs) :: hs)
| reach_retain s l xs hs s' : reach s ((l, xs) :: hs) -> small ((l, xs) :: hs) ->
    list_retain l s = Ret (tt, s') -> reach s' ((l, xs) :: (l, xs) :: hs)
| reach_release s l xs hs s' : reach s ((l, xs) :: hs) -> small ((l, xs) :: hs) ->
    list_release l s = Ret (tt, s') -> reach s' hs
| reach_set s l xs hs i v l' s' : reach s ((l, xs) :: hs) -> small ((l, xs) :: hs) -> list_set false l i v s = Ret (l', s') ->
    reach s' ((l', <[Z.to_nat i := v]> xs) ::
              (l, if existsb (fun h => bool_decide (data (fst h) = data l)) hs then xs else <[Z.to_nat i := v]> xs) :: hs)
| reach_slice s l xs hs lo hi l' s' : reach s ((l, xs) :: hs) -> small ((l, xs) :: hs) -> list_slice false l lo hi s = Ret (l', s') ->
    reach s' ((l', slice (Z.to_nat (Z.max 0 lo)) (Z.to_nat (Z.min hi (Z.of_nat (length xs)) - Z.max 0 lo)) xs) :: (l, xs) :: hs).

Lemma ilist_size : 0 < @elem_size _ _ ilist <= 64.
Proof. cbn. lia. Qed.
Lemma small_head l xs hs : small ((l, xs) :: hs) -> Z.of_nat (length hs) < 999990 /\ Z.of_nat (length xs) < Z.shiftl 1 27 /\
  forall a, Z.of_nat (S (@refs Z a hs)) < 1000000.
Proof.
  intros [N L]. apply Forall_cons_1 in L as [L _]. cbn [length snd] in *. split; [lia|]. split; [done|]. intros a. pose proof (refs_le a hs). lia.
Qed.
Lemma reach_inv s hs : reach s hs -> Inv s hs.
Proof.
  induction 1 as [q|s hs _ IH _|s hs hs' _ IH P|s l xs hs v l' s' _ IH Sm E|s l xs hs s' _ IH Sm E|s l xs hs s' _ IH Sm E|s l xs hs i v l' s' _ IH Sm E|s l xs hs lo hi l' s' _ IH Sm E].
  - split; [done|]. split; [intros a p; cbn [heap start]; by rewrite lookup_empty|done].
  - by apply Inv_new.
  - by eapply (Inv_perm (F:=ilist) eq_refl eq_refl).
  - destruct (small_head _ _ _ Sm) as (_ & B & _). destruct (list_push_spec (F:=ilist) eq_refl eq_refl ilist_size s l xs hs v IH B) as [(n & X & _)|(l2 & s2 & X & I & _)]; rewrite E in X; [done|].
    assert (Q : forall (x y : OoList) (u v : ILS), Ret (x, u) = Ret (y, v) -> y = x /\ v = u) by (intros; split; congruence).
    destruct (Q _ _ _ _ X) as [-> ->]. exact I.
  - destruct (small_head _ _ _ Sm) as (_ & _ & B). destruct (list_retain_spec (F:=ilist) eq_refl eq_refl s l xs hs IH) as (s2 & X & I); [intros a _; specialize (B a); unfold UINT32_MAX; lia|].
    rewrite E in X. assert (Q : forall (u v : ILS), Ret (tt, u) = Ret (tt, v) -> v = u) by (intros; congruence). by rewrite (Q _ _ X) in I.
  - destruct (small_head _ _ _ Sm) as (_ & _ & B). destruct (list_release_spec (F:=ilist) eq_refl eq_refl ilist_size s l xs hs IH) as (s2 & X & I); [intros a _; specialize (B a); lia|].
    rewrite E in X. assert (Q : forall (u v : ILS), Ret (tt, u) = Ret (tt, v) -> v = u) by (intros; congruence). by rewrite (Q _ _ X) in I.
  - pose proof (list_set_spec (F:=ilist) eq_refl eq_refl ilist_size s l xs hs i v IH) as X. unfold set_result in X. rewrite E in X.
    assert (Q : forall (x y : OoList) (u v : ILS), Ret (x, u) = Ret (y, v) -> y = x /\ v = u) by (intros; split; congruence).
    destruct ((0 <=? i) && _); [|done]. destruct (existsb _ hs).
    + destruct X as [[X _]|(l2 & s2 & X & I)]; [done|]. destruct (Q _ _ _ _ X) as [-> ->]. exact I.
    + destruct X as (s2 & X & I). destruct (Q _ _ _ _ X) as [-> ->]. exact I.
  - destruct (small_head _ _ _ Sm) as (N & B & _). destruct (list_slice_spec (F:=ilist) eq_refl eq_refl ilist_size s l xs hs lo hi IH B N) as [[X _]|(l2 & s2 & X & I)]; rewrite E in X; [done|].
    assert (Q : forall (x y : OoList) (u v : ILS), Ret (x, u) = Ret (y, v) -> y = x /\ v = u) by (intros; split; congruence).
    destruct (Q _ _ _ _ X) as [-> ->]. exact I.
Qed.

(** A list of strings owns one reference to each of its elements while it
    lives; a nested list owns one to each inner list, so releasing the last
    handles empties both stores. *)
Example slist_counts :
  let s0 := mkLs (∅ : gmap nat (Payload StrRef)) 0 (mkQuota 0 4096) ({[ 0%nat := mkHdr 1 0 ]} : Strings) in
  exists s, (let! l := list_push false list_new (mkSr (Some 0%nat) 2) in let! w := get_state in let! _ := list_release l in ret (world w !! 0%nat)) s0
    = Ret (Some (mkHdr 2 0), s) /\ world s !! 0%nat = Some (mkHdr 1 0) /\ heap s !! 0%nat = None.
Proof. eexists. vm_compute. repeat split. Qed.
Example nested_counts :
  let in0 := start 4096 in
  match list_push false list_new 7 in0 with
  | Ret (i, in1) =>
      exists s, (let! l := @list_push _ _ (nested ilist) false list_new i in @list_release _ _ (nested ilist) l) (mkLs ∅ 0 (mkQuota 0 4096) in1) = Ret (tt, s) /\
        from_option (fun p => ref_count (hdr p)) 0 (heap (world s) !! 0%nat) = 1 /\ heap s !! 0%nat = None /\ ambient_bytes (quota s) = 0
  | _ => False
  end.
Proof. eexists. vm_compute. repeat split. Qed.

(** * Theorems *)

(** C6.  Outside an arena, integer lists refine immutable sequences (inside an
    attached one they do not: [arena_lists_uncounted]).  In a state where every
    held handle denotes a list, with fewer than a million handles and lists of
    fewer than 2^27 elements, an operation on one of them keeps what all the
    others denote: push gives a further handle for the list with the element
    added, get reads element [i] and changes nothing, slice gives the clamped
    range, retain and release add and drop a handle; set copies when the payload
    has other handles and otherwise overwrites, in which case its argument
    denotes the new list as well.  Push, the copying set and slice end the
    process only where the quota has no room for the bytes said
    ([push_result], [set_result], [slice_result]); out of range, get and set
    end it. *)
Theorem ilist_refines (s : ILS) (l : OoList) (xs : list Z) (hs : Held Z) (HI : Inv s ((l, xs) :: hs)) (Hs : small ((l, xs) :: hs)) :
  (forall v, push_result s l xs hs v (list_push false l v s)) /\
  (forall i, list_get l i s = if i <? 0 then Exited 1 else match xs !! Z.to_nat i with Some x => Ret (x, s) | None => Exited 1 end) /\
  (forall i v, set_result s l xs hs i v (list_set false l i v s)) /\
  (forall lo hi, slice_result s xs l hs (slice (Z.to_nat (Z.max 0 lo)) (Z.to_nat (Z.min hi (Z.of_nat (length xs)) - Z.max 0 lo)) xs) (list_slice false l lo hi s)) /\
  (exists s', list_retain l s = Ret (tt, s') /\ Inv s' ((l, xs) :: (l, xs) :: hs)) /\
  (exists s', list_release l s = Ret (tt, s') /\ Inv s' hs).
Proof.
  destruct (small_head _ _ _ Hs) as (N & L & B). split; [intros v; by apply list_push_spec|].
  split; [intros i; apply (list_get_spec (F:=ilist) eq_refl eq_refl s l xs hs i HI); intros a _; apply B|].
  split; [intros i v; by apply list_set_spec|]. split; [intros lo hi; by apply list_slice_spec|].
  split; [apply (list_retain_spec (F:=ilist) eq_refl eq_refl s l xs hs HI)|apply (list_release_spec (F:=ilist) eq_refl eq_refl ilist_size s l xs hs HI)];
    intros a _; specialize (B a); unfold UINT32_MAX; lia.
Qed.
Example ilist_refines_witness : exists s l, Inv s [(l, [7; 9])] /\ list_get l 1 s = Ret (9, s).
Proof.
  assert (R0 : reach (start 4096) [(list_new, [])]) by (apply reach_new; [apply reach_start|split; [done|constructor]]).
  eassert (R1 : reach _ [(_, [7]); (list_new, [])]) by (eapply (reach_push _ _ [] [] 7); [exact R0|split; [done|repeat constructor]|vm_compute; reflexivity]).
  eassert (R2 : reach _ [(_, [7])]) by
    (eapply (reach_release _ list_new []); [eapply reach_perm; [exact R1|apply perm_swap]|split; [done|repeat constructor]|vm_compute; reflexivity]).
  eassert (R3 : reach _ [(_, [7; 9]); (_, [7])]) by (eapply (reach_push _ _ [7] [] 9); [exact R2|split; [done|repeat constructor]|vm_compute; reflexivity]).
  assert (R : exists l s, reach s [(l, [7; 9])]).
  { eexists _, _. eapply (reach_release _ _ [7]); [eapply reach_perm; [exact R3|apply perm_swap]|split; [done|repeat constructor]|vm_compute; reflexivity]. }
  destruct R as (l & s & R). exists s, l. pose proof (reach_inv _ _ R) as I. split; [exact I|].
  assert (Sm : small [(l, [7; 9])]) by (split; [done|repeat constructor]).
  destruct (ilist_refines s l [7; 9] [] I Sm) as (_ & G & _). exact (G 1).
Defined.

(** C20.  Integer lists made outside an arena never leak.  In every state that a
    program reaches with them (any sequence of new, push, set, slice, retain and
    release with no arena attached, on fewer than a million handles and lists of
    fewer than 2^27 elements), the quota is charged exactly 64 bytes and 8 per
    cell of capacity for each payload alive, every payload is referred to by a
    handle that is still held, and when the last handle is released no payload
    is left and the charge is back to 0.  In an attached arena releases give
    back what was never charged ([arena_lists_uncounted]). *)
Theorem ilist_never_leaks (s : ILS) (hs : Held Z) (HR : reach s hs) :
  ambient_bytes (quota s) = map_fold (fun _ p n => 64 + Z.of_nat (length (cells p)) * 8 + n) 0 (heap s) /\
  (forall a p, heap s !! a = Some p -> exists l xs, In (l, xs) hs /\ data l = Some a) /\
  (hs = [] -> heap s = ∅ /\ ambient_bytes (quota s) = 0).
Proof.
  destruct (reach_inv s hs HR) as (_ & P & A).
  assert (Q : forall a p, heap s !! a = Some p -> exists l xs, In (l, xs) hs /\ data l = Some a).
  { intros a p X. apply refs_in. by apply (P a p). }
  split; [exact A|]. split; [exact Q|]. intros ->.
  assert (E : heap s = ∅). { apply map_empty. intros a. destruct (heap s !! a) as [p|] eqn:X; [|done]. by destruct (Q a p X) as (? & ? & [] & _). }
  split; [exact E|]. by rewrite A, E.
Qed.
Example ilist_never_leaks_witness : exists s, reach s [] /\ ambient_bytes (quota s) = 0.
Proof.
  assert (R0 : reach (start 4096) [(list_new, [])]) by (apply reach_new; [apply reach_start|split; [done|constructor]]).
  eassert (R1 : reach _ [(_, [7]); (list_new, [])]) by (eapply (reach_push _ _ [] [] 7); [exact R0|split; [done|repeat constructor]|vm_compute; reflexivity]).
  eassert (R2 : reach _ [(list_new, [])]) by (eapply (reach_release _ _ [7]); [exact R1|split; [done|repeat constructor]|vm_compute; reflexivity]).
  assert (R : exists s, reach s []).
  { eexists. eapply (reach_release _ list_new []); [exact R2|split; [done|repeat constructor]|vm_compute; reflexivity]. }
  destruct R as (s & R). exists s. split; [exact R|]. destruct (ilist_never_leaks s [] R) as (_ & _ & H0). by apply H0.
Defined.

(**  Lists made in an attached arena are not counted.  Two lists pushed
    from the same one share a cell: after [b = push (a, v)] and
    [c = push (a, w)], element 1 of [b] reads [w], while outside an arena it
    reads [v].  A float list made in an arena and released gives the quota
    back 128 bytes it was never charged. *)
Theorem arena_lists_uncounted (q x v w : Z) :
  let prog in_arena :=
    (let! a := list_push in_arena list_new x in
     let! b := list_push in_arena a v in
     let! _ := list_push in_arena a w in
     list_get b 1) in
  (exists s, prog true (start q) = Ret (w, s)) /\ (exists s, prog false (start LLONG_MAX) = Ret (v, s)) /\
  (exists s, (let! f := @list_push _ _ (flist Z) true list_new x in @list_release _ _ (flist Z) f) (start q) = Ret (tt, s) /\
     ambient_bytes (quota s) = -128).
Proof. cbv zeta. repeat split; eexists; [vm_compute; reflexivity..|split; vm_compute; reflexivity]. Qed.
