(* ===== verification/Mailbox.v ===== *)
(** What the channels ([app/actor/actor_channel.c]) and the actors
    ([app/actor/actor.c]) share: the ring of eight messages each of their
    slots has, and the counting of the messages, which are strings.

    A message is a reference to a string ([StrRef] of [Lists]); the headers of
    the live strings are a store ([Strings]).  The list of all references that
    the program holds or that wait in a ring says what the counts must be.  Both are
    behind the ThreadCap gate. *)
From S2P Require Import Prelude Str Caps Lists.
From stdpp Require Import gmap.
Open Scope Z_scope.

(** The [OoStr] with no data. *)
Definition null_ref : StrRef := mkSr None 0.
(** [OoResS]: a flag, and a literal or a message. *)
Inductive Reply := Text (l : list Z) | Msg (m : StrRef).
Record MResS := mkRes { ok : bool; val : Reply }.
Definition okt (l : list Z) : MResS := mkRes true (Text l).
Definition err (l : list Z) : MResS := mkRes false (Text l).
(** [snprintf (buf, sizeof buf, "...%d", slot)] *)
Definition numbered (prefix : list Z) (slot : nat) : list Z := prefix ++ dec (Z.of_nat slot).
(** The slot of a table of [slots] that an argument names: it is cut to 32 bits
    first. *)
Definition slot_named (slots slot : Z) : option nat := if (i32 slot <? 0) || (slots <=? i32 slot) then None else Some (Z.to_nat (i32 slot)).
Lemma slot_named_lt slots slot i : slot_named slots slot = Some i -> Z.of_nat i < slots /\ i = Z.to_nat (i32 slot).
Proof.
  unfold slot_named. destruct (Z.ltb_spec (i32 slot) 0); [done|]. destruct (Z.leb_spec slots (i32 slot)); [done|]. cbn [orb]. intros [= <-]. split; [lia|done].
Qed.

(** * The ring *)

Record ring := mkRing { head : Z; tail : Z; rcount : Z; msgs : list StrRef }.
Definition msg_at (r : ring) (i : Z) : StrRef := nth (Z.to_nat i) (msgs r) null_ref.

Section ring.
Variable depth : Z.

Definition empty_ring : ring := mkRing 0 0 0 (repeat null_ref (Z.to_nat depth)).
(** [msgs[tail] = m; tail = (tail + 1) % depth; count++] *)
Definition put_in (m : StrRef) (r : ring) : ring :=
  mkRing (head r) (Z.rem (tail r + 1) depth) (rcount r + 1) (<[Z.to_nat (tail r) := m]> (msgs r)).
(** [m = msgs[head]; head = (head + 1) % depth; count--]; a channel clears the
    cell. *)
Definition take_out (clear : bool) (r : ring) : StrRef * ring :=
  (msg_at r (head r),
   mkRing (Z.rem (head r + 1) depth) (tail r) (rcount r - 1) (if clear then <[Z.to_nat (head r) := null_ref]> (msgs r) else msgs r)).
(** [if (m.data) oo_str_release (m)] *)
Definition release_data (m : StrRef) : ST Strings unit := fun w =>
  match s_data m with Some _ => let* w := oo_str_release m w in Ret (tt, w) | None => Ret (tt, w) end.
(** The loop that releases what is left, [n] times. *)
Fixpoint drain (n : nat) (r : ring) : ST Strings ring :=
  match n with
  | O => ret r
  | S n =>
      let m := msg_at r (head r) in
      let! _ := release_data m in
      drain n (mkRing (Z.rem (head r + 1) depth) (tail r) (rcount r - 1) (msgs r))
  end.

(** The messages of a ring, oldest first. *)
Definition queued (r : ring) (q : list StrRef) : Prop :=
  Z.of_nat (length (msgs r)) = depth /\ 0 <= head r < depth /\ 0 <= tail r < depth /\ rcount r = Z.of_nat (length q) /\ rcount r <= depth /\
  tail r = (head r + rcount r) mod depth /\
  forall i m, q !! i = Some m -> msg_at r ((head r + Z.of_nat i) mod depth) = m.

Hypothesis positive : 0 < depth.

Lemma cleared_queued l : Z.of_nat (length l) = depth -> queued (mkRing 0 0 0 l) [].
Proof.
  intros L. unfold queued. cbn [head tail rcount msgs length]. split; [done|]. split; [lia|]. split; [lia|]. split; [done|]. split; [lia|].
  split; [rewrite Z.mod_0_l; lia|]. intros i m H. by rewrite lookup_nil in H.
Qed.
Lemma queued_empty : queued empty_ring [].
Proof. apply cleared_queued. rewrite repeat_length. lia. Qed.
Lemma queued_count r q : queued r q -> rcount r = Z.of_nat (length q).
Proof. by intros (_ & _ & _ & H & _). Qed.
Lemma next_mod x : 0 <= x -> Z.rem (x + 1) depth = (x + 1) mod depth.
Proof. intros H. apply Z.rem_mod_nonneg; lia. Qed.
Lemma shift_mod h i : ((h + 1) mod depth + i) mod depth = (h + (i + 1)) mod depth.
Proof. rewrite Zplus_mod_idemp_l. f_equal. lia. Qed.
Lemma cells_apart h i j : 0 <= i < depth -> 0 <= j < depth -> (h + i) mod depth = (h + j) mod depth -> i = j.
Proof.
  intros Hi Hj E. assert (D : (depth | (h + i) - (h + j))) by (apply Z.mod_divide; [lia|]; rewrite Zminus_mod, E, Z.sub_diag; apply Z.mod_0_l; lia).
  destruct D as [k D]. assert (k = 0) as -> by nia. lia.
Qed.
Lemma nth_insert_eq i m l : (i < length l)%nat -> nth i (<[i := m]> l) null_ref = m.
Proof. intros H. by rewrite nth_lookup, list_lookup_insert_eq. Qed.
Lemma nth_insert_ne i j m l : i <> j -> nth j (<[i := m]> l) null_ref = nth j l null_ref.
Proof. intros H. by rewrite !nth_lookup, list_lookup_insert_ne. Qed.

Lemma put_queued r q m : queued r q -> rcount r < depth -> queued (put_in m r) (q ++ [m]).
Proof.
  intros (L & H & T & C & _ & Et & M) F. unfold queued, put_in. cbn [head tail rcount msgs]. rewrite length_insert, length_app, next_mod by lia. cbn [length].
  split; [done|]. split; [done|]. split; [apply Z.mod_pos_bound; lia|]. split; [lia|]. split; [lia|].
  split. { rewrite Et, Zplus_mod_idemp_l. f_equal. lia. }
  intros i m' Q. unfold msg_at. cbn [msgs]. destruct (Nat.lt_ge_cases i (length q)) as [Hi|Hi].
  - rewrite lookup_app_l in Q by done. rewrite nth_insert_ne; [by apply M|]. intros E.
    assert (B : 0 <= (head r + Z.of_nat i) mod depth < depth) by (apply Z.mod_pos_bound; lia).
    assert (tail r = (head r + Z.of_nat i) mod depth) as E' by lia. rewrite Et, C in E'. apply cells_apart in E'; lia.
  - rewrite lookup_app_r in Q by done. destruct (i - length q)%nat eqn:D; [|done]. injection Q as <-. assert (i = length q) as -> by lia.
    rewrite <- C, <- Et. apply nth_insert_eq. lia.
Qed.
Lemma take_queued clear r q m : queued r (m :: q) -> fst (take_out clear r) = m /\ queued (snd (take_out clear r)) q.
Proof.
  intros (L & H & T & C & F & Et & M). cbn [length] in C. unfold take_out. cbn [fst snd]. split.
  - specialize (M 0%nat m eq_refl). rewrite Z.add_0_r, Z.mod_small in M by lia. done.
  - unfold queued. cbn [head tail rcount msgs]. rewrite next_mod by lia. split; [destruct clear; [by rewrite length_insert|done]|].
    split; [apply Z.mod_pos_bound; lia|]. split; [done|]. split; [lia|]. split; [lia|]. split; [rewrite shift_mod, Et; f_equal; lia|].
    intros i m' Q. rewrite shift_mod. pose proof (M (S i) m' Q) as E. rewrite Nat2Z.inj_succ in E. unfold Z.succ in E. rewrite <- E. unfold msg_at. cbn [msgs].
    destruct clear; [|done]. apply nth_insert_ne. intros X. apply lookup_lt_Some in Q.
    assert (B : 0 <= (head r + (Z.of_nat i + 1)) mod depth < depth) by (apply Z.mod_pos_bound; lia).
    assert (E' : (head r + 0) mod depth = (head r + (Z.of_nat i + 1)) mod depth) by (rewrite Z.add_0_r, Z.mod_small by lia; lia).
    apply cells_apart in E'; lia.
Qed.
End ring.

(** * Counting *)

#[export] Instance StrRef_eq : EqDecision StrRef.
Proof. solve_decision. Defined.
Fixpoint remove_one (m : StrRef) (l : list StrRef) : list StrRef :=
  match l with
  | [] => []
  | x :: l => if bool_decide (x = m) then l else x :: remove_one m l
  end.
Lemma remove_one_perm m l : In m l -> Permutation l (m :: remove_one m l).
Proof.
  induction l as [|x l IH]; [done|]. intros I. cbn [remove_one]. destruct (decide (x = m)) as [->|N].
  - by rewrite bool_decide_eq_true_2.
  - rewrite bool_decide_eq_false_2 by done. destruct I as [->|I]; [done|]. rewrite (IH I) at 1. apply perm_swap.
Qed.

Definition refers (a : nat) (m : StrRef) : bool := bool_decide (s_data m = Some a).
Definition occ (a : nat) (rs : list StrRef) : nat := length (List.filter (refers a) rs).
(** A string that is counted, and the references a program may have. *)
Definition owned (h : OoListHeader) : Prop := Z.land (flags h) 1 = 0.
Definition sane (m : StrRef) : Prop := 0 <= s_len m <= Z.shiftl 1 28.
(** Every reference in [rs] is to a live string, and a counted string lives
    exactly as long as there are references to it: their number is its count. *)
Definition counts (w : gmap nat OoListHeader) (rs : list StrRef) : Prop :=
  Z.of_nat (length rs) < 1000000 /\ Forall sane rs /\
  forall a, match w !! a with
    | None => occ a rs = 0%nat
    | Some h => owned h -> ref_count h = Z.of_nat (occ a rs) /\ (0 < occ a rs)%nat
    end.

Lemma occ_cons a m rs : occ a (m :: rs) = ((if refers a m then 1 else 0) + occ a rs)%nat.
Proof. unfold occ. cbn [List.filter]. by destruct (refers a m). Qed.
Lemma occ_app a l1 l2 : occ a (l1 ++ l2) = (occ a l1 + occ a l2)%nat.
Proof. unfold occ. by rewrite List.filter_app, length_app. Qed.
Lemma occ_le a rs : (occ a rs <= length rs)%nat.
Proof. unfold occ. apply List.filter_length_le. Qed.
Lemma occ_perm a l1 l2 : Permutation l1 l2 -> occ a l1 = occ a l2.
Proof. intros P. induction P; rewrite ?occ_cons; lia. Qed.
Lemma occ_in a m rs : In m rs -> s_data m = Some a -> (0 < occ a rs)%nat.
Proof.
  intros I E. induction rs as [|m' rs IH]; [done|]. rewrite occ_cons. destruct I as [->|I]; [|specialize (IH I); lia].
  unfold refers. rewrite bool_decide_eq_true_2 by done. lia.
Qed.
#[export] Instance counts_perm w : Proper (Permutation ==> iff) (counts w).
Proof.
  assert (H : forall l1 l2, Permutation l1 l2 -> counts w l1 -> counts w l2).
  { intros l1 l2 P (L & S & C). split; [by rewrite <- P|]. split; [by rewrite <- P|]. intros a. specialize (C a).
    rewrite <- (occ_perm a _ _ P). exact C. }
  intros l1 l2 P. split; apply H; [done|by symmetry].
Qed.
Lemma counts_nil : counts (∅ : gmap nat OoListHeader) [].
Proof. split; [cbn; lia|]. split; [constructor|]. intros a. pose proof (lookup_empty (M:=gmap nat) (A:=OoListHeader) a) as E. unfold Strings. by rewrite E. Qed.
Lemma counts_live w rs m a : counts w rs -> In m rs -> s_data m = Some a -> exists h, w !! a = Some h.
Proof.
  intros (_ & _ & C) I E. specialize (C a). pose proof (occ_in a m rs I E). destruct (w !! a) as [h|]; [by exists h|lia].
Qed.
Lemma refers_other a b m : s_data m = Some a -> a <> b -> refers b m = false.
Proof. intros E N. unfold refers. apply bool_decide_eq_false_2. rewrite E. congruence. Qed.
Lemma refers_self a m : s_data m = Some a -> refers a m = true.
Proof. intros E. unfold refers. by apply bool_decide_eq_true_2. Qed.
Lemma refers_null b m : s_data m = None -> refers b m = false.
Proof. intros E. unfold refers. apply bool_decide_eq_false_2. by rewrite E. Qed.

(** The test that retaining and releasing make, of a counted string and of
    another. *)
Lemma hdr_ok_owned h m : owned h -> 0 < ref_count h <= 1000000 -> sane m -> oo_str_hdr_ok h (s_len m) = true.
Proof.
  unfold owned, sane, oo_str_hdr_ok, UINT32_MAX, TOMBSTONE. intros O R S. rewrite O.
  assert (flags h <> 0xffffffff) by (intros E; rewrite E in O; done).
  change (Z.shiftl 1 28) with 268435456 in *.
  destruct (Z.ltb_spec (s_len m) 0); [lia|]. destruct (Z.ltb_spec 268435456 (s_len m)); [lia|]. cbn [orb].
  destruct (Z.eqb_spec (ref_count h) 0); [lia|]. destruct (Z.eqb_spec (ref_count h) 4294967295); [lia|]. cbn [orb].
  destruct (Z.ltb_spec 1000000 (ref_count h)); [lia|]. by destruct (Z.eqb_spec (flags h) 0xffffffff).
Qed.
Lemma hdr_ok_static h l : ~ owned h -> oo_str_hdr_ok h l = false.
Proof.
  unfold owned, oo_str_hdr_ok. intros O. destruct (Z.eqb_spec (Z.land (flags h) 1) 0); [done|]. repeat case_match; done.
Qed.
Lemma owned_dec h : owned h \/ ~ owned h.
Proof. unfold owned. destruct (Z.eq_dec (Z.land (flags h) 1) 0); [by left|by right]. Qed.

(** Retaining a message that somebody holds counts one more reference. *)
Lemma retain_counts w rs m : counts w rs -> In m rs -> Z.of_nat (length rs) < 999999 ->
  forall m', s_data m' = s_data m -> sane m' -> exists w', oo_str_retain m' w = Ret w' /\ counts w' (m' :: rs).
Proof.
  intros C I L m' Em S. pose proof C as (_ & F & H). unfold oo_str_retain, Strings in *. destruct (s_data m') as [a|] eqn:E.
  - destruct (counts_live w rs m a C I (eq_sym Em)) as [h Eh]. rewrite Eh. eexists. split; [reflexivity|].
    pose proof (H a) as Ha. rewrite Eh in Ha. pose proof (occ_le a rs) as B. split; [cbn [length]; lia|]. split; [by constructor|]. intros b.
    rewrite occ_cons. destruct (owned_dec h) as [O|O].
    + destruct (Ha O) as [R P]. rewrite hdr_ok_owned by (done || lia). destruct (Nat.eq_dec a b) as [<-|N].
      * rewrite lookup_insert_eq, (refers_self a m' E). cbn [ref_count flags]. intros _. lia.
      * rewrite lookup_insert_ne, (refers_other a b m' E N) by done. exact (H b).
    + rewrite hdr_ok_static by done. destruct (Nat.eq_dec a b) as [<-|N]; [by rewrite Eh|]. rewrite (refers_other a b m' E N). exact (H b).
  - exists w. split; [done|]. split; [cbn [length]; lia|]. split; [by constructor|]. intros b. rewrite occ_cons, (refers_null b m' E). exact (H b).
Qed.
(** Releasing one gives its reference back, and the last one frees. *)
Lemma release_counts w rs m : counts w (m :: rs) -> exists w', oo_str_release m w = Ret w' /\ counts w' rs.
Proof.
  intros C. pose proof C as (L & F & H). cbn [length] in L. apply Forall_cons_1 in F as [S F]. unfold oo_str_release, Strings in *. destruct (s_data m) as [a|] eqn:E.
  - destruct (counts_live w (m :: rs) m a C ltac:(by left) E) as [h Eh]. rewrite Eh. eexists. split; [reflexivity|].
    pose proof (H a) as Ha. rewrite Eh, occ_cons, (refers_self a m E) in Ha. pose proof (occ_le a rs) as B. split; [lia|]. split; [done|]. intros b. specialize (H b).
    rewrite occ_cons in H. destruct (owned_dec h) as [O|O].
    + destruct (Ha O) as [R P]. rewrite hdr_ok_owned by (done || lia). cbn [negb].
      destruct (Z.eqb_spec (ref_count h) 1) as [Q|Q]; (destruct (Nat.eq_dec a b) as [<-|N]; [|rewrite (refers_other a b m E N) in H]).
      * rewrite lookup_delete_eq. lia.
      * by rewrite lookup_delete_ne.
      * rewrite lookup_insert_eq. cbn [ref_count]. intros _. lia.
      * by rewrite lookup_insert_ne.
    + rewrite hdr_ok_static by done. cbn [negb]. destruct (Nat.eq_dec a b) as [<-|N]; [by rewrite Eh|]. by rewrite (refers_other a b m E N) in H.
  - exists w. split; [done|]. split; [lia|]. split; [done|]. intros b. specialize (H b). by rewrite occ_cons, (refers_null b m E) in H.
Qed.
(** A string just made, with its one reference. *)
Lemma fresh_counts w rs a n : counts w rs -> w !! a = None -> Z.of_nat (length rs) < 999999 -> sane (mkSr (Some a) n) ->
  counts (<[a := mkHdr 1 0]> w) (mkSr (Some a) n :: rs).
Proof.
  unfold Strings in *. intros (_ & F & H) N L S. split; [cbn [length]; lia|]. split; [by constructor|]. intros b. rewrite occ_cons. specialize (H b).
  destruct (Nat.eq_dec a b) as [<-|Q].
  - rewrite lookup_insert_eq, (refers_self a) by done. rewrite N in H. cbn [ref_count]. intros _. lia.
  - rewrite lookup_insert_ne, (refers_other a b) by done. exact H.
Qed.
(** A reference to nothing is not counted. *)
Lemma null_counts w rs m : counts w rs -> Z.of_nat (length rs) < 999999 -> s_data m = None -> sane m -> counts w (m :: rs).
Proof.
  intros (_ & F & H) L E S. split; [cbn [length]; lia|]. split; [by constructor|]. intros b. rewrite occ_cons, (refers_null b m E). exact (H b).
Qed.

(** Draining a ring gives all its references back. *)
Lemma drain_counts depth : 0 < depth -> forall q r w rs, queued depth r q -> counts w (q ++ rs) ->
  exists r' w', drain depth (length q) r w = Ret (r', w') /\ rcount r' = 0 /\ msgs r' = msgs r /\ counts w' rs.
Proof.
  intros P q. induction q as [|m q IH]; intros r w rs Q C.
  - exists r, w. split; [done|]. split; [exact (queued_count _ _ _ Q)|]. by split.
  - destruct (take_queued depth P false r q m Q) as [Em Q']. cbn [fst take_out] in Em. cbn [length drain]. rewrite Em.
    cbn [app] in C. destruct (release_counts w (q ++ rs) m C) as (w1 & E1 & C1).
    assert (X : release_data m w = Ret (tt, w1)).
    { unfold release_data. unfold oo_str_release in E1 |- *. destruct (s_data m); [by rewrite E1|]. by apply Ret_inj in E1 as <-. }
    unfold bind. rewrite X. cbn [run_bind]. destruct (IH _ w1 rs Q' C1) as (r' & w' & E & H). exists r', w'. split; [exact E|exact H].
Qed.

(** A string that is not counted stays as it is. *)
Lemma release_static w w' m b h : oo_str_release m w = Ret w' -> (w : gmap nat OoListHeader) !! b = Some h -> ~ owned h -> (w' : gmap nat OoListHeader) !! b = Some h.
Proof.
  unfold oo_str_release, Strings in *. destruct (s_data m) as [a|]; [|by intros <-%Ret_inj]. destruct (w !! a) as [h'|] eqn:Ea; [|done]. intros <-%Ret_inj Eb N.
  destruct (oo_str_hdr_ok h' (s_len m)) eqn:Ok; cbn [negb]; [|done]. destruct (Nat.eq_dec a b) as [->|Q].
  - rewrite Eb in Ea. injection Ea as ->. by rewrite hdr_ok_static in Ok.
  - destruct (ref_count h' =? 1); [by rewrite lookup_delete_ne|by rewrite lookup_insert_ne].
Qed.
Lemma retain_static w w' m b h : oo_str_retain m w = Ret w' -> (w : gmap nat OoListHeader) !! b = Some h -> ~ owned h -> (w' : gmap nat OoListHeader) !! b = Some h.
Proof.
  unfold oo_str_retain, Strings in *. destruct (s_data m) as [a|]; [|by intros <-%Ret_inj]. destruct (w !! a) as [h'|] eqn:Ea; [|done]. intros <-%Ret_inj Eb N.
  destruct (oo_str_hdr_ok h' (s_len m)) eqn:Ok; [|done]. destruct (Nat.eq_dec a b) as [->|Q]; [|by rewrite lookup_insert_ne].
  rewrite Eb in Ea. injection Ea as ->. by rewrite hdr_ok_static in Ok.
Qed.
Lemma static_counts w rs a h n : counts w rs -> w !! a = Some h -> ~ owned h -> Z.of_nat (length rs) < 999999 -> sane (mkSr (Some a) n) -> counts w (mkSr (Some a) n :: rs).
Proof.
  intros (_ & F & H) Ea N L S. split; [cbn [length]; lia|]. split; [by constructor|]. intros b. rewrite occ_cons. specialize (H b).
  destruct (Nat.eq_dec a b) as [<-|Q]; [by rewrite Ea|]. by rewrite (refers_other a b).
Qed.
(** Reading the headers of a drained ring. *)
Lemma drain_static depth n r w r' w' b h : drain depth n r w = Ret (r', w') -> (w : gmap nat OoListHeader) !! b = Some h -> ~ owned h -> (w' : gmap nat OoListHeader) !! b = Some h.
Proof.
  intros D Eb N. revert r w D Eb. induction n as [|n IH]; intros r w D Eb; cbn [drain] in D.
  - apply Ret_inj, pair_equal_spec in D as [_ <-]. exact Eb.
  - unfold bind, release_data in D. destruct (s_data _) eqn:E in D; [|by apply IH in D].
    destruct (oo_str_release _ w) as [w1| |] eqn:R in D; [|done|done]. cbn [run_bind] in D. apply IH in D; [done|]. by eapply release_static.
Qed.

(** * Tables of mailboxes *)

(** What waits in the open slots of a table. *)
Abbreviation Queues := (list (option (list StrRef))).
Definition waiting (Q : Queues) : list StrRef := concat (map (default []) Q).
(** Changing one slot changes what waits there. *)
Lemma waiting_split Q i o : Q !! i = Some o -> exists l1 l2, waiting Q = l1 ++ default [] o ++ l2 /\ forall o', waiting (<[i := o']> Q) = l1 ++ default [] o' ++ l2.
Proof.
  unfold waiting. revert i. induction Q as [|x Q IH]; intros i H; [done|]. destruct i as [|i].
  - injection H as ->. exists [], (concat (map (default []) Q)). done.
  - destruct (IH i H) as (l1 & l2 & E & F). exists (default [] x ++ l1), l2. cbn [map concat]. rewrite E, <- app_assoc. split; [done|].
    intros o'. change (<[S i:=o']> (x :: Q)) with (x :: <[i:=o']> Q). cbn [map concat]. by rewrite F, <- app_assoc.
Qed.

(** * The gate *)

(** The tokens exist, and the rights table is the one of the code. *)
Definition gate_ready (t : tokens) (c : cstate) : Prop := store c = Some t /\ rights_ok c /\ g_test_force_fail c = false.
Definition opens (cap : Z) (t : tokens) (tok : tokens -> Z) : bool := gate_ok cap (tok t) 0.
Lemma gate_thread `{E : Entropy} cap t c : gate_ready t c ->
  oo_cap_require_thread cap c = if opens cap t g_tok_thread then Ret (tt, after_check c) else Exited 1.
Proof.
  intros (S & R & F). pose proof (gate1_spec cap c t g_tok_thread S R ltac:(in_tokens)) as G. cbn [gate_spec] in G. unfold oo_cap_require_thread. rewrite G, F. done.
Qed.
Lemma gate_ready_after t c : gate_ready t c -> gate_ready t (after_check c).
Proof.
  intros (S & R & F). unfold after_check. destruct (g_ocap_rights c) eqn:E; [by split|]. split; [done|]. split; [by right|done].
Qed.
Lemma wit_gate : gate_ready wit_tokens wit_granted.
Proof. split; [reflexivity|]. split; [by left|reflexivity]. Qed.
