(* ===== verification/Channel.v ===== *)
(** Message channels ([app/actor/actor_channel.c]): sixteen slots, each a
    bounded queue of eight strings, behind the ThreadCap gate.

    Every call works on a slot under the slot's mutex, and making or destroying
    a channel also under the one of the table, so calls of several threads
    take effect one after the other, in the order in which they get the lock:
    a run is a list of calls.  The condition variables are signalled but
    nothing waits on them, so they are left out. *)
From S2P Require Import Prelude Str Caps Lists Mailbox.
From stdpp Require Import gmap.
From Stdlib Require String.
Import (notations) String.
Open Scope Z_scope.

Definition OO_CH_SLOTS : Z := 16.
Definition OO_CH_QDEPTH : Z := 8.

Record OoChannel := mkChan { live : bool; ring_of : ring }.
Record chstate := mkCh { ccaps : cstate; g_chs : list OoChannel; strings : Strings }.
Definition closed_channel : OoChannel := mkChan false (empty_ring OO_CH_QDEPTH).
Definition chstart (c : cstate) (w : Strings) : chstate := mkCh c (repeat closed_channel (Z.to_nat OO_CH_SLOTS)) w.

Definition on_ccaps {A} (m : ST cstate A) : ST chstate A := lift ccaps (fun c s => mkCh c (g_chs s) (strings s)) m.
Definition on_strings {A} (m : ST Strings A) : ST chstate A := lift strings (fun w s => mkCh (ccaps s) (g_chs s) w) m.
Definition set_slot (i : nat) (c : OoChannel) : ST chstate unit :=
  set_state (fun s => mkCh (ccaps s) (<[i := c]> (g_chs s)) (strings s)).
Definition get_slot (i : nat) : ST chstate OoChannel := let! s := get_state in ret (nth i (g_chs s) closed_channel).
Definition retain (m : StrRef) : ST Strings unit := fun w => let* w := oo_str_retain m w in Ret (tt, w).


(** * Operations *)

Section channel.
Context {E : Entropy}.

Definition ch_alloc_slot (l : list OoChannel) : option nat := fst <$> list_find (fun c => live c = false) l.
Definition oo_channel_new (cap : Z) : ST chstate MResS :=
  let! _ := on_ccaps (oo_cap_require_thread cap) in
  let! s := get_state in
  match ch_alloc_slot (g_chs s) with
  | None => ret (err (ascii_bytes "channel_new: no free slot"))
  | Some slot =>
      let! c := get_slot slot in
      let! _ := set_slot slot (mkChan true (mkRing 0 0 0 (msgs (ring_of c)))) in
      ret (okt (numbered (ascii_bytes "ch:") slot))
  end.
(** [if (m.len > (1LL << 20)) m.len = 1LL << 20] *)
Definition cut_message (m : StrRef) : StrRef := mkSr (s_data m) (if Z.shiftl 1 20 <? s_len m then Z.shiftl 1 20 else s_len m).
Definition oo_channel_send (cap slot : Z) (msg : StrRef) : ST chstate MResS :=
  let s := i32 slot in
  let! _ := on_ccaps (oo_cap_require_thread cap) in
  if (s <? 0) || (OO_CH_SLOTS <=? s) then ret (err (ascii_bytes "channel_send: bad slot"))
  else
    let! ch := get_slot (Z.to_nat s) in
    if negb (live ch) then ret (err (ascii_bytes "channel_send: empty slot"))
    else if OO_CH_QDEPTH <=? rcount (ring_of ch) then ret (err (ascii_bytes "channel_send: full"))
    else
      let m := cut_message msg in
      let! _ := on_strings (retain m) in
      let! _ := set_slot (Z.to_nat s) (mkChan true (put_in OO_CH_QDEPTH m (ring_of ch))) in
      ret (okt (ascii_bytes "sent")).
Definition oo_channel_destroy (cap slot : Z) : ST chstate MResS :=
  let s := i32 slot in
  let! _ := on_ccaps (oo_cap_require_thread cap) in
  if (s <? 0) || (OO_CH_SLOTS <=? s) then ret (err (ascii_bytes "channel_destroy: bad slot"))
  else
    let! ch := get_slot (Z.to_nat s) in
    if negb (live ch) then ret (err (ascii_bytes "channel_destroy: empty slot"))
    else
      let! r := on_strings (drain OO_CH_QDEPTH (Z.to_nat (rcount (ring_of ch))) (ring_of ch)) in
      let! _ := set_slot (Z.to_nat s) (mkChan false (mkRing 0 0 (rcount r) (msgs r))) in
      ret (okt (ascii_bytes "destroyed")).
Definition oo_channel_recv (cap slot : Z) : ST chstate MResS :=
  let s := i32 slot in
  let! _ := on_ccaps (oo_cap_require_thread cap) in
  if (s <? 0) || (OO_CH_SLOTS <=? s) then ret (err (ascii_bytes "channel_recv: bad slot"))
  else
    let! ch := get_slot (Z.to_nat s) in
    if negb (live ch) then ret (err (ascii_bytes "channel_recv: empty slot"))
    else if rcount (ring_of ch) <=? 0 then ret (err (ascii_bytes "channel_recv: empty"))
    else
      let '(m, r) := take_out OO_CH_QDEPTH true (ring_of ch) in
      let! _ := set_slot (Z.to_nat s) (mkChan true r) in
      ret (mkRes true (Msg m)).

(** What a program does with channels and messages, and runs of it. *)
Inductive call := New | Send (slot : Z) (m : StrRef) | Recv (slot : Z) | Destroy (slot : Z) | Keep (m : StrRef) | Drop (m : StrRef).
Definition run_call (cap : Z) (c : call) : ST chstate MResS :=
  match c with
  | New => oo_channel_new cap
  | Send slot m => oo_channel_send cap slot m
  | Recv slot => oo_channel_recv cap slot
  | Destroy slot => oo_channel_destroy cap slot
  | Keep m => let! _ := on_strings (retain m) in ret (mkRes true (Msg m))
  | Drop m => let! _ := on_strings (release_data m) in ret (okt [])
  end.
Fixpoint run_calls (cap : Z) (cs : list call) : ST chstate (list MResS) :=
  match cs with
  | [] => ret []
  | c :: cs => let! r := run_call cap c in let! rs := run_calls cap cs in ret (r :: rs)
  end.
End channel.

(** * The abstract channels

    A slot is closed, or a queue of at most eight messages. *)

(** A call on a slot by the name [op]: what it answers, the queues and the
    references the program holds. *)
Definition on_queue (op : list Z) (slot : Z) (Q : Queues) (held : list StrRef)
    (f : nat -> list StrRef -> MResS * (Queues * list StrRef)) : MResS * (Queues * list StrRef) :=
  match slot_named OO_CH_SLOTS slot with
  | None => (err (op ++ ascii_bytes ": bad slot"), (Q, held))
  | Some i =>
      match Q !! i with
      | Some (Some q) => f i q
      | _ => (err (op ++ ascii_bytes ": empty slot"), (Q, held))
      end
  end.
Definition spec_call (c : call) (Q : Queues) (held : list StrRef) : MResS * (Queues * list StrRef) :=
  match c with
  | New =>
      match list_find (fun o => o = None) Q with
      | None => (err (ascii_bytes "channel_new: no free slot"), (Q, held))
      | Some (i, _) => (okt (numbered (ascii_bytes "ch:") i), (<[i := Some []]> Q, held))
      end
  | Send slot m =>
      on_queue (ascii_bytes "channel_send") slot Q held (fun i q =>
        if OO_CH_QDEPTH <=? Z.of_nat (length q) then (err (ascii_bytes "channel_send: full"), (Q, held))
        else (okt (ascii_bytes "sent"), (<[i := Some (q ++ [cut_message m])]> Q, held)))
  | Recv slot =>
      on_queue (ascii_bytes "channel_recv") slot Q held (fun i q =>
        match q with
        | [] => (err (ascii_bytes "channel_recv: empty"), (Q, held))
        | m :: q => (mkRes true (Msg m), (<[i := Some q]> Q, m :: held))
        end)
  | Destroy slot =>
      on_queue (ascii_bytes "channel_destroy") slot Q held (fun i q => (okt (ascii_bytes "destroyed"), (<[i := None]> Q, held)))
  | Keep m => (mkRes true (Msg m), (Q, m :: held))
  | Drop m => (okt [], (Q, remove_one m held))
  end.
Fixpoint spec_calls (cs : list call) (Q : Queues) (held : list StrRef) : list MResS * (Queues * list StrRef) :=
  match cs with
  | [] => ([], (Q, held))
  | c :: cs =>
      let '(r, (Q, held)) := spec_call c Q held in
      let '(rs, F) := spec_calls cs Q held in (r :: rs, F)
  end.
(** A program sends, keeps and drops what it holds. *)
Definition may (c : call) (held : list StrRef) : Prop :=
  Z.of_nat (length held) < 999800 /\ match c with Send _ m | Keep m | Drop m => In m held | _ => True end.
Fixpoint may_run (cs : list call) (Q : Queues) (held : list StrRef) : Prop :=
  match cs with
  | [] => True
  | c :: cs => may c held /\ let '(_, (Q, held)) := spec_call c Q held in may_run cs Q held
  end.

(** * Refinement *)

Definition slot_is (c : OoChannel) (o : option (list StrRef)) : Prop :=
  length (msgs (ring_of c)) = Z.to_nat OO_CH_QDEPTH /\
  match o with None => live c = false | Some q => live c = true /\ queued OO_CH_QDEPTH (ring_of c) q end.
Record related (t : tokens) (s : chstate) (Q : Queues) (held : list StrRef) : Prop := {
  rel_caps : gate_ready t (ccaps s);
  rel_size : Z.of_nat (length Q) = OO_CH_SLOTS;
  rel_slots : Forall2 slot_is (g_chs s) Q;
  rel_counts : counts (strings s) (waiting Q ++ held) }.

Lemma ch_waiting_bound s Q : Forall2 slot_is s Q -> (length (waiting Q) <= 8 * length Q)%nat.
Proof.
  unfold waiting. induction 1 as [|c o s Q [_ H] _ IH]; [done|]. cbn [map concat length]. rewrite length_app.
  destruct o as [q|]; cbn [from_option id length] in *; [|lia]. destruct H as (_ & _ & _ & _ & C & F & _). unfold OO_CH_QDEPTH in F. lia.
Qed.
Lemma ch_find_free s Q : Forall2 slot_is s Q ->
  list_find (fun c => live c = false) s = (fun x => (x, nth x s closed_channel)) <$> (fst <$> list_find (fun o => o = None) Q).
Proof.
  induction 1 as [|c o s Q [_ H] _ IH]; [done|]. cbn [list_find]. destruct o as [q|].
  - destruct H as [H _]. rewrite decide_False by (by rewrite H). rewrite decide_False by done. rewrite IH. by destruct (list_find _ Q) as [[? ?]|].
  - rewrite decide_True by done. by rewrite decide_True.
Qed.

Section refinement.
Context {E : Entropy}.
Definition after_gate (s : chstate) : chstate := mkCh (after_check (ccaps s)) (g_chs s) (strings s).
Lemma ch_gate_run cap t s Q held : related t s Q held ->
  on_ccaps (oo_cap_require_thread cap) s = if opens cap t g_tok_thread then Ret (tt, after_gate s) else Exited 1.
Proof. intros [G _ _ _]. unfold on_ccaps, lift. rewrite (gate_thread cap t _ G). by destruct (opens _ _ _). Qed.
Lemma related_gate t s Q held : related t s Q held -> related t (after_gate s) Q held.
Proof. intros [G N F C]. split; [by apply gate_ready_after|done..]. Qed.
(** What a call on a slot sees of it. *)
Lemma ch_slot_seen t s Q held slot i : related t s Q held -> slot_named OO_CH_SLOTS slot = Some i ->
  ((i32 slot <? 0) || (OO_CH_SLOTS <=? i32 slot)) = false /\
  exists c o, get_slot (Z.to_nat (i32 slot)) s = Ret (c, s) /\ Q !! i = Some o /\ slot_is c o /\ (i < length (g_chs s))%nat.
Proof.
  intros [_ N F _] H. destruct (slot_named_lt OO_CH_SLOTS slot i H) as [Hi Ei]. unfold slot_named in H. destruct (_ || _); [done|]. split; [done|].
  destruct (lookup_lt_is_Some_2 Q i) as [o Ho]; [lia|]. destruct (Forall2_lookup_r _ _ _ _ _ F Ho) as (c & Hc & R).
  exists c, o. unfold get_slot, bind, get_state. cbn [run_bind]. rewrite <- Ei. rewrite nth_lookup, Hc. split; [done|]. split; [done|]. split; [done|]. by apply lookup_lt_Some in Hc.
Qed.
(** Writing a slot back. *)
Lemma related_set t s Q held i c o w rs : related t s Q held -> slot_is c o -> (i < length Q)%nat ->
  counts w rs -> Permutation rs (waiting (<[i := o]> Q) ++ held) ->
  forall held', held' = held -> related t (mkCh (ccaps s) (<[i := c]> (g_chs s)) w) (<[i := o]> Q) held'.
Proof.
  intros [G N F _] S L C P held' ->. split; [done|by rewrite length_insert|by apply Forall2_insert|]. cbn [strings]. by rewrite <- P.
Qed.
(** A call answers as the abstract channels do, and stays with them. *)
Definition answers (t : tokens) (out : MResS * (Queues * list StrRef)) (r : run (MResS * chstate)) : Prop :=
  exists s', r = Ret (fst out, s') /\ related t s' (fst (snd out)) (snd (snd out)).
Lemma answers_same t s Q held a : related t s Q held -> answers t (a, (Q, held)) (ret a s).
Proof. intros R. by exists s. Qed.

Lemma ch_new_spec t s Q held : related t s Q held -> answers t (spec_call New Q held)
  ((let! s := get_state in match ch_alloc_slot (g_chs s) with
    | None => ret (err (ascii_bytes "channel_new: no free slot"))
    | Some slot => let! c := get_slot slot in let! _ := set_slot slot (mkChan true (mkRing 0 0 0 (msgs (ring_of c)))) in ret (okt (numbered (ascii_bytes "ch:") slot))
    end) s).
Proof.
  intros R. pose proof R as [_ N F C]. unfold bind at 1, get_state. cbn [run_bind]. unfold ch_alloc_slot. rewrite (ch_find_free _ Q F). cbn [spec_call].
  destruct (list_find (fun o => o = None) Q) as [[i o]|] eqn:L; cbn [fmap option_fmap option_map fst]; [|by apply answers_same].
  apply list_find_Some in L as (Hi & -> & _). destruct (Forall2_lookup_r _ _ _ _ _ F Hi) as (c & Hc & Lm & Hl).
  unfold bind, get_slot, bind, get_state, set_slot, set_state. cbn [run_bind]. rewrite nth_lookup, Hc. cbn [from_option id ret run_bind]. eexists. split; [reflexivity|].
  cbn [fst snd]. destruct (waiting_split Q i None Hi) as (l1 & l2 & W & W'). eapply related_set; [exact R| | |exact C| |done].
  - split; [done|]. cbn [live ring_of]. split; [done|]. apply cleared_queued; [done|by rewrite Lm].
  - by apply lookup_lt_Some in Hi.
  - by rewrite W, W'.
Qed.
(** The tests every call on a slot makes first. *)
Lemma ch_slot_op t s Q held slot op body f : related t s Q held ->
  (forall i c q, Q !! i = Some (Some q) -> slot_is c (Some q) -> (i < length Q)%nat -> i = Z.to_nat (i32 slot) -> answers t (f i q) (body c s)) ->
  answers t (on_queue op slot Q held f)
    ((if (i32 slot <? 0) || (OO_CH_SLOTS <=? i32 slot) then ret (err (op ++ ascii_bytes ": bad slot"))
      else let! ch := get_slot (Z.to_nat (i32 slot)) in if negb (live ch) then ret (err (op ++ ascii_bytes ": empty slot")) else body ch) s).
Proof.
  intros R H. unfold on_queue. destruct (slot_named OO_CH_SLOTS slot) as [i|] eqn:Hn.
  - destruct (ch_slot_seen t s Q held slot i R Hn) as (B & c & o & G & Ho & Sc & Li). rewrite B. unfold bind. rewrite G. cbn [run_bind]. rewrite Ho.
    destruct (slot_named_lt OO_CH_SLOTS slot i Hn) as [_ Ei]. destruct o as [q|].
    + pose proof Sc as (_ & Lc & _). rewrite Lc. cbn [negb]. apply H; [done|done| |done]. by apply lookup_lt_Some in Ho.
    + pose proof Sc as (_ & Lc). rewrite Lc. by apply answers_same.
  - unfold slot_named in Hn. destruct (_ || _); [|done]. by apply answers_same.
Qed.
Lemma ch_depth_positive : 0 < OO_CH_QDEPTH.
Proof. done. Qed.
Lemma slot_size c o : slot_is c o -> forall r, length (msgs r) = length (msgs (ring_of c)) -> length (msgs r) = Z.to_nat OO_CH_QDEPTH.
Proof. intros [L _] r ->. exact L. Qed.
Lemma cut_sane m : sane m -> sane (cut_message m).
Proof. unfold sane, cut_message. cbn [s_len]. intros H. destruct (Z.ltb_spec (Z.shiftl 1 20) (s_len m)); [|done]. done. Qed.
Lemma sane_in w rs m : counts w rs -> In m rs -> sane m.
Proof. intros (_ & F & _) I. rewrite List.Forall_forall in F. by apply F. Qed.

Lemma ch_send_spec t s Q held slot m : related t s Q held -> may (Send slot m) held -> answers t (spec_call (Send slot m) Q held)
  ((if (i32 slot <? 0) || (OO_CH_SLOTS <=? i32 slot) then ret (err (ascii_bytes "channel_send" ++ ascii_bytes ": bad slot"))
    else let! ch := get_slot (Z.to_nat (i32 slot)) in if negb (live ch) then ret (err (ascii_bytes "channel_send" ++ ascii_bytes ": empty slot")) else
      (if OO_CH_QDEPTH <=? rcount (ring_of ch) then ret (err (ascii_bytes "channel_send: full"))
       else
         let m := cut_message m in
         let! _ := on_strings (retain m) in
         let! _ := set_slot (Z.to_nat (i32 slot)) (mkChan true (put_in OO_CH_QDEPTH m (ring_of ch))) in
         ret (okt (ascii_bytes "sent")))) s).
Proof.
  intros R [Hh I]. apply (ch_slot_op _ _ _ _ _ _ _ _ R). intros i c q Hi Sc Li Ei. pose proof Sc as (Lm & _ & Qc). rewrite (queued_count _ _ _ Qc).
  destruct (Z.leb_spec OO_CH_QDEPTH (Z.of_nat (length q))) as [F|F]; [by apply answers_same|]. pose proof R as [_ N Fs C]. cbv zeta.
  assert (Im : In m (waiting Q ++ held)) by (apply in_or_app; by right).
  destruct (retain_counts _ _ m C Im) with (m' := cut_message m) as (w' & Er & C'); [|done|apply cut_sane; by eapply sane_in|].
  { pose proof (ch_waiting_bound _ _ Fs). rewrite length_app. unfold OO_CH_SLOTS in N. lia. }
  unfold bind, on_strings, lift, retain. rewrite Er. cbn [run_bind]. unfold set_slot, set_state. cbn [run_bind ret ccaps g_chs strings]. eexists. split; [reflexivity|].
  rewrite <- Ei. cbn [fst snd]. destruct (waiting_split Q i (Some q) Hi) as (l1 & l2 & W & W').
  eapply (related_set t s Q held); [exact R| |done|exact C'| |done].
  - split; [|split; [done|]]; cbn [ring_of live].
    + unfold put_in. cbn [msgs]. by rewrite length_insert.
    + apply put_queued; [apply ch_depth_positive|done|]. rewrite (queued_count _ _ _ Qc). done.
  - rewrite W, W'. cbn [from_option id]. rewrite <- !app_assoc. cbn [app]. rewrite <- !Permutation_middle. by rewrite (Permutation_middle l1), (Permutation_middle q).
Qed.
Lemma ch_recv_spec t s Q held slot : related t s Q held -> answers t (spec_call (Recv slot) Q held)
  ((if (i32 slot <? 0) || (OO_CH_SLOTS <=? i32 slot) then ret (err (ascii_bytes "channel_recv" ++ ascii_bytes ": bad slot"))
    else let! ch := get_slot (Z.to_nat (i32 slot)) in if negb (live ch) then ret (err (ascii_bytes "channel_recv" ++ ascii_bytes ": empty slot")) else
      (if rcount (ring_of ch) <=? 0 then ret (err (ascii_bytes "channel_recv: empty"))
       else
         let '(m, r) := take_out OO_CH_QDEPTH true (ring_of ch) in
         let! _ := set_slot (Z.to_nat (i32 slot)) (mkChan true r) in
         ret (mkRes true (Msg m)))) s).
Proof.
  intros R. apply (ch_slot_op _ _ _ _ _ _ _ _ R). intros i c q Hi Sc Li Ei. pose proof Sc as (Lm & _ & Qc). rewrite (queued_count _ _ _ Qc).
  destruct q as [|m q]; cbn [length]; [by apply answers_same|]. destruct (Z.leb_spec (Z.of_nat (S (length q))) 0); [lia|].
  destruct (take_queued _ ch_depth_positive true _ _ _ Qc) as [Em Qc']. pose proof R as [_ _ _ C].
  assert (Lr : length (msgs (snd (take_out OO_CH_QDEPTH true (ring_of c)))) = Z.to_nat OO_CH_QDEPTH) by (unfold take_out; cbn [snd msgs]; by rewrite length_insert).
  destruct (take_out OO_CH_QDEPTH true (ring_of c)) as [m' r']. cbn [fst snd] in *. subst m'. unfold bind, set_slot, set_state. cbn [run_bind ret]. eexists. split; [reflexivity|].
  rewrite <- Ei. cbn [fst snd]. destruct (waiting_split Q i (Some (m :: q)) Hi) as (l1 & l2 & W & W').
  destruct R as [G N Fs _]. split; [done|by rewrite length_insert|apply Forall2_insert; [done|by split]|]. cbn [strings].
  rewrite W' in *. rewrite W in C. cbn [from_option id] in *. rewrite <- !app_assoc in *. cbn [app] in *. rewrite <- Permutation_middle in C. by rewrite !app_assoc, <- Permutation_middle, <- !app_assoc.
Qed.
Lemma ch_destroy_spec t s Q held slot : related t s Q held -> answers t (spec_call (Destroy slot) Q held)
  ((if (i32 slot <? 0) || (OO_CH_SLOTS <=? i32 slot) then ret (err (ascii_bytes "channel_destroy" ++ ascii_bytes ": bad slot"))
    else let! ch := get_slot (Z.to_nat (i32 slot)) in if negb (live ch) then ret (err (ascii_bytes "channel_destroy" ++ ascii_bytes ": empty slot")) else
      (let! r := on_strings (drain OO_CH_QDEPTH (Z.to_nat (rcount (ring_of ch))) (ring_of ch)) in
       let! _ := set_slot (Z.to_nat (i32 slot)) (mkChan false (mkRing 0 0 (rcount r) (msgs r))) in
       ret (okt (ascii_bytes "destroyed")))) s).
Proof.
  intros R. apply (ch_slot_op _ _ _ _ _ _ _ _ R). intros i c q Hi Sc Li Ei. pose proof Sc as (Lm & _ & Qc). rewrite (queued_count _ _ _ Qc), Nat2Z.id.
  destruct (waiting_split Q i (Some q) Hi) as (l1 & l2 & W & W'). pose proof R as [G N Fs C]. rewrite W in C. cbn [from_option id] in C.
  rewrite <- !app_assoc, Permutation_app_swap_app in C. destruct (drain_counts _ ch_depth_positive q _ _ _ Qc C) as (r' & w' & Ed & R0 & Rm & C').
  unfold bind, on_strings, lift. rewrite Ed. cbn [run_bind]. unfold set_slot, set_state. cbn [run_bind ret ccaps g_chs strings]. eexists. split; [reflexivity|].
  rewrite <- Ei. cbn [fst snd]. split; [done|by rewrite length_insert|apply Forall2_insert; [done|]|].
  - split; [|done]. cbn [ring_of msgs]. by rewrite Rm.
  - cbn [strings]. rewrite W'. by rewrite <- app_assoc.
Qed.
Lemma ch_keep_spec t s Q held m : related t s Q held -> may (Keep m) held -> answers t (spec_call (Keep m) Q held)
  ((let! _ := on_strings (retain m) in ret (mkRes true (Msg m))) s).
Proof.
  intros [G N F C] [Hh I]. assert (Im : In m (waiting Q ++ held)) by (apply in_or_app; by right).
  destruct (retain_counts _ _ m C Im) with (m' := m) as (w' & Er & C'); [|done|by eapply sane_in|].
  { pose proof (ch_waiting_bound _ _ F). rewrite length_app. unfold OO_CH_SLOTS in N. lia. }
  unfold bind, on_strings, lift, retain. rewrite Er. cbn [run_bind ret]. eexists. split; [reflexivity|]. split; [done..|]. cbn [strings fst snd spec_call].
  by rewrite <- Permutation_middle.
Qed.
Lemma ch_drop_spec t s Q held m : related t s Q held -> may (Drop m) held -> answers t (spec_call (Drop m) Q held)
  ((let! _ := on_strings (release_data m) in ret (okt [])) s).
Proof.
  intros [G N F C] [_ I]. rewrite (remove_one_perm m held I), <- Permutation_middle in C. destruct (release_counts _ _ m C) as (w' & Er & C').
  assert (X : release_data m (strings s) = Ret (tt, w')).
  { unfold release_data. unfold oo_str_release in Er |- *. destruct (s_data m); [by rewrite Er|]. by apply Ret_inj in Er as <-. }
  unfold bind, on_strings, lift. rewrite X. cbn [run_bind ret]. eexists. split; [reflexivity|]. by split.
Qed.
Lemma ch_call_spec cap t s Q held c : related t s Q held -> may c held -> opens cap t g_tok_thread = true -> answers t (spec_call c Q held) (run_call cap c s).
Proof.
  intros R M O. pose proof (ch_gate_run cap t s Q held R) as G. rewrite O in G. pose proof (related_gate _ _ _ _ R) as R'.
  assert (Gate : forall k : ST chstate MResS, (let! _ := on_ccaps (oo_cap_require_thread cap) in k) s = k (after_gate s)) by (intros k; unfold bind; by rewrite G).
  destruct c as [|slot m|slot|slot|m|m]; cbn [run_call]; unfold oo_channel_new, oo_channel_send, oo_channel_recv, oo_channel_destroy; cbv zeta; rewrite ?Gate.
  - by apply ch_new_spec.
  - exact (ch_send_spec t _ Q held slot m R' M).
  - exact (ch_recv_spec t _ Q held slot R').
  - exact (ch_destroy_spec t _ Q held slot R').
  - by apply ch_keep_spec.
  - by apply ch_drop_spec.
Qed.
Lemma call_refused cap t s Q held c : related t s Q held -> opens cap t g_tok_thread = false -> 
  match c with Keep _ | Drop _ => True | _ => run_call cap c s = Exited 1 end.
Proof.
  intros R O. pose proof (ch_gate_run cap t s Q held R) as G. rewrite O in G. destruct c; try done; cbn [run_call];
    unfold oo_channel_new, oo_channel_send, oo_channel_recv, oo_channel_destroy; cbv zeta; unfold bind at 1; by rewrite G.
Qed.
Lemma ch_calls_spec cap t cs : opens cap t g_tok_thread = true -> forall s Q held, related t s Q held -> may_run cs Q held ->
  exists s', run_calls cap cs s = Ret (fst (spec_calls cs Q held), s') /\
    related t s' (fst (snd (spec_calls cs Q held))) (snd (snd (spec_calls cs Q held))).
Proof.
  intros O. induction cs as [|c cs IH]; intros s Q held R M; [by exists s|]. cbn [run_calls spec_calls]. destruct M as [M1 M2].
  destruct (ch_call_spec cap t s Q held c R M1 O) as (s1 & E1 & R1). destruct (spec_call c Q held) as [r [Q1 held1]]. cbn [fst snd] in *.
  unfold bind. rewrite E1. cbn [run_bind]. destruct (IH s1 Q1 held1 R1 M2) as (s2 & E2 & R2). rewrite E2. cbn [run_bind].
  destruct (spec_calls cs Q1 held1) as [rs F]. cbn [fst snd] in *. by exists s2.
Qed.
Definition closed_queues : Queues := repeat None (Z.to_nat OO_CH_SLOTS).
Lemma related_start t c w held : gate_ready t c -> counts w held -> related t (chstart c w) closed_queues held.
Proof.
  intros G C. split; [done|done| |exact C]. cbn [g_chs chstart]. unfold closed_queues. induction (Z.to_nat OO_CH_SLOTS) as [|n IH]; cbn [repeat]; constructor; [split; done|exact IH].
Qed.

(** C23.  Channels refine bounded queues.  From the start of the program, any
    sequence of calls that a program may make with a token that opens the
    ThreadCap gate, by any of its threads, answers as sixteen queues of at most
    eight messages: a channel gives its messages back in the order they were
    sent, a ninth message and a call on a closed slot are refused, and
    destroying frees the slot.  No call touches a freed string; and in the end
    a counted string lives exactly as long as the program holds it or it waits
    in a channel, its count being the number of these references. *)
Theorem channels_refine_queues cap t c w held cs : gate_ready t c -> counts w held -> opens cap t g_tok_thread = true -> may_run cs closed_queues held ->
  exists s', run_calls cap cs (chstart c w) = Ret (fst (spec_calls cs closed_queues held), s') /\
    let '(Q, held') := snd (spec_calls cs closed_queues held) in
    Forall (fun o => match o with Some q => Z.of_nat (length q) <= OO_CH_QDEPTH | None => True end) Q /\
    counts (strings s') (waiting Q ++ held').
Proof.
  intros G C O M. destruct (ch_calls_spec cap t cs O _ _ _ (related_start t c w held G C) M) as (s' & E' & R). exists s'. split; [exact E'|].
  destruct (spec_calls cs closed_queues held) as [rs [Q held']]. cbn [fst snd] in *. destruct R as [_ _ F C']. split; [|exact C'].
  clear - F. induction F as [|x o l Q [_ H] _ IH]; constructor; [|done]. destruct o as [q|]; [|done]. destruct H as (_ & _ & _ & _ & L & B & _). lia.
Qed.
(** Without the token nothing is done: a call that is not given the
    ThreadCap ends the process before it reads a slot. *)
Lemma channels_closed cap t Q held s : related t s Q held -> opens cap t g_tok_thread = false -> 
  oo_channel_new cap s = Exited 1 /\ forall slot m, oo_channel_send cap slot m s = Exited 1 /\ oo_channel_recv cap slot s = Exited 1 /\ oo_channel_destroy cap slot s = Exited 1.
Proof.
  intros R O. split; [exact (call_refused cap t s Q held New R O)|]. intros slot m.
  exact (conj (call_refused cap t s Q held (Send slot m) R O) (conj (call_refused cap t s Q held (Recv slot) R O) (call_refused cap t s Q held (Destroy slot) R O))).
Qed.
End refinement.

Definition wit_string : StrRef := mkSr (Some 0%nat) 2.
Definition wit_strings : gmap nat OoListHeader := {[ 0%nat := mkHdr 1 0 ]}.
Lemma wit_counts : counts wit_strings [wit_string].
Proof.
  split; [done|]. split; [repeat constructor; done|]. intros a. unfold wit_strings. destruct (decide (a = 0%nat)) as [->|N].
  - rewrite lookup_singleton_eq. intros _. vm_compute. split; [done|lia].
  - rewrite lookup_singleton_ne by done. unfold occ. cbn [List.filter]. rewrite (refers_other 0 a) by done. done.
Qed.
(** A message outlives its sender's reference, and a destroyed channel frees
    what nobody took. *)
Definition wit_calls : list call :=
  [New; Send 0 wit_string; Send 0 wit_string; Drop wit_string; Recv 0; Destroy 0; Recv 0].
Lemma channels_refine_queues_witness : exists s', run_calls (E := wit_entropy) (g_tok_thread wit_tokens) wit_calls (chstart wit_granted wit_strings) =
    Ret ([okt (ascii_bytes "ch:0"); okt (ascii_bytes "sent"); okt (ascii_bytes "sent"); okt []; mkRes true (Msg wit_string); okt (ascii_bytes "destroyed");
          err (ascii_bytes "channel_recv: empty slot")], s') /\ counts (strings s') [wit_string].
Proof.
  destruct (channels_refine_queues (E := wit_entropy) (g_tok_thread wit_tokens) wit_tokens wit_granted wit_strings [wit_string] wit_calls wit_gate wit_counts) as (s' & H & _ & C).
  - reflexivity.
  - vm_compute. repeat split; first [reflexivity|by left].
  - exists s'. split; [exact H|exact C].
Defined.
(** The slot is cut to 32 bits, so a number beyond the table names a slot. *)
Example slot_aliases : slot_named OO_CH_SLOTS 4294967296 = Some 0%nat /\ slot_named OO_CH_SLOTS 16 = None.
Proof. done. Qed.
