(* ===== verification/Actor.v ===== *)
(** Actors ([app/actor/actor.c]): sixteen slots, each a mailbox of eight
    messages and a worker thread that sleeps until it is told to stop, behind
    the ThreadCap gate.

    Every operation holds the lock of the table ([g_act_boot]) from its first
    look at a slot to its end, so operations take effect one after the other;
    what runs beside them are the workers.  A worker holds its slot's mutex from
    waking up until it waits or returns: that is one step ([worker_step]).
    Destroying and restarting an actor wait for its worker: they are cut there
    in two, and in between the lock is held for them ([joining]).  Supervising
    looks at the table, lets the lock go and restarts.

    The world of strings has their headers and, by address, their bytes.  The
    empty literal is at address 0.  Whether [pthread_create] succeeds and where
    [malloc] puts a string are arguments. *)
From S2P Require Import Prelude Str Caps Lists Mailbox.
From stdpp Require Import gmap.
From Stdlib Require String.
Import (notations) String.
Open Scope Z_scope.

Definition OO_ACTOR_SLOTS : Z := 16.
Definition OO_ACTOR_QDEPTH : Z := 8.

(** Where a worker is: about to take the mutex for the first time, waiting,
    signalled, or returned. *)
Inductive wpc := WStart | WWait | WWake | WDone.
Record OoActor := mkAct {
  live : bool; running : bool; stop_req : bool; worker : option wpc; mailbox : ring; msgs_processed : Z; name : list Z }.
Definition closed_actor : OoActor := mkAct false false false None (empty_ring OO_ACTOR_QDEPTH) 0 [].
Inductive pending := PDestroy (slot : nat) | PRestart (slot : nat).
Definition pending_slot (p : pending) : nat := match p with PDestroy i | PRestart i => i end.
Record astate := mkAs {
  acaps : cstate; g_actors : list OoActor; g_otp_once : list bool; joining : option pending; strings : Strings; texts : gmap nat (list Z) }.

Definition actor_at (i : nat) (s : astate) : OoActor := nth i (g_actors s) closed_actor.
Definition with_actor (i : nat) (a : OoActor) (s : astate) : astate :=
  mkAs (acaps s) (<[i := a]> (g_actors s)) (g_otp_once s) (joining s) (strings s) (texts s).
Definition with_joining (p : option pending) (s : astate) : astate :=
  mkAs (acaps s) (g_actors s) (g_otp_once s) p (strings s) (texts s).
Definition on_acaps {A} (m : ST cstate A) : ST astate A :=
  lift acaps (fun c s => mkAs c (g_actors s) (g_otp_once s) (joining s) (strings s) (texts s)) m.
Definition on_astrings {A} (m : ST Strings A) : ST astate A :=
  lift strings (fun w s => mkAs (acaps s) (g_actors s) (g_otp_once s) (joining s) w (texts s)) m.

(** * The worker *)

Definition set_worker (pc : option wpc) (r : bool) (a : OoActor) : OoActor :=
  mkAct (live a) r (stop_req a) pc (mailbox a) (msgs_processed a) (name a).
(** [while (!stop_req && live)]: with a message it counts one and waits, with
    none it waits; else it returns. *)
Definition worker_test (a : OoActor) : OoActor :=
  if negb (stop_req a) && live a then
    if rcount (mailbox a) =? 0 then set_worker (Some WWait) (running a) a
    else mkAct (live a) (running a) (stop_req a) (Some WWait) (mailbox a) (u64 (msgs_processed a + 1)) (name a)
  else set_worker (Some WDone) false a.
Definition worker_step (a : OoActor) : option OoActor :=
  match worker a with
  | Some WStart => Some (worker_test (set_worker (Some WStart) true a))
  | Some WWake => Some (worker_test a)
  | _ => None
  end.
(** [pthread_cond_signal] and [pthread_cond_broadcast]: one worker waits. *)
Definition signal (a : OoActor) : OoActor :=
  set_worker (match worker a with Some WWait => Some WWake | w => w end) (running a) a.

(** * Operations *)

Section actor.
Context {E : Entropy}.
Variable malloc : Strings -> nat.

(** [oo_str_alloc_payload] and [memcpy]. *)
Definition new_string (l : list Z) : ST astate StrRef := fun s =>
  let a := malloc (strings s) in
  Ret (mkSr (Some a) (Z.of_nat (length l)),
       mkAs (acaps s) (g_actors s) (g_otp_once s) (joining s) (<[a := mkHdr 1 0]> (strings s)) (<[a := l]> (texts s))).
Definition empty_lit : StrRef := mkSr (Some 0%nat) 0.
Definition oo_act_copy (m : StrRef) : ST astate StrRef := fun s =>
  match s_data m with
  | None => Ret (empty_lit, s)
  | Some a =>
      if s_len m <=? 0 then Ret (empty_lit, s)
      else
        let n := if Z.shiftl 1 20 <? s_len m then Z.shiftl 1 20 else s_len m in
        match strings s !! a, texts s !! a with
        | Some _, Some l => if Z.of_nat (length l) <? n then Undefined else new_string (take (Z.to_nat n) l) s
        | _, _ => Undefined
        end
  end.
Definition act_alloc_slot (l : list OoActor) : option nat := fst <$> list_find (fun a => live a = false) l.
(** [name] up to 31 bytes. *)
Definition actor_name (name : OoStr) : list Z :=
  match sdata name with Some d => if 0 <? slen name then take (Z.to_nat (Z.min (slen name) 31)) d else [] | None => [] end.
Definition oo_actor_spawn (created : bool) (cap : Z) (nm : OoStr) : ST astate MResS :=
  let! _ := on_acaps (oo_cap_require_thread cap) in
  let! s := get_state in
  match act_alloc_slot (g_actors s) with
  | None => ret (err (ascii_bytes "actor_spawn: no free slot"))
  | Some slot =>
      let a := mkAct true false false None (mkRing 0 0 0 (msgs (mailbox (actor_at slot s)))) 0 (actor_name nm) in
      if negb created then
        let! _ := set_state (with_actor slot (mkAct false false false None (mailbox a) 0 (name a))) in
        ret (err (ascii_bytes "actor_spawn failed"))
      else
        let! _ := set_state (with_actor slot (set_worker (Some WStart) false a)) in
        ret (okt (numbered (ascii_bytes "actor:") slot))
  end.
Definition with_mailbox (r : ring) (a : OoActor) : OoActor :=
  mkAct (live a) (running a) (stop_req a) (worker a) r (msgs_processed a) (name a).
Definition oo_actor_send (cap id : Z) (msg : StrRef) : ST astate MResS :=
  let s := i32 id in
  let! _ := on_acaps (oo_cap_require_thread cap) in
  if (s <? 0) || (OO_ACTOR_SLOTS <=? s) then ret (err (ascii_bytes "actor_send: bad id"))
  else
    let! st := get_state in
    let a := actor_at (Z.to_nat s) st in
    if negb (live a) then ret (err (ascii_bytes "actor_send: empty slot"))
    else if OO_ACTOR_QDEPTH <=? rcount (mailbox a) then ret (err (ascii_bytes "actor_send: full"))
    else
      let! m := oo_act_copy msg in
      let! _ := set_state (with_actor (Z.to_nat s) (signal (with_mailbox (put_in OO_ACTOR_QDEPTH m (mailbox a)) a))) in
      ret (okt (ascii_bytes "sent")).
Definition oo_actor_recv (cap id : Z) : ST astate MResS :=
  let s := i32 id in
  let! _ := on_acaps (oo_cap_require_thread cap) in
  if (s <? 0) || (OO_ACTOR_SLOTS <=? s) then ret (err (ascii_bytes "actor_recv: bad id"))
  else
    let! st := get_state in
    let a := actor_at (Z.to_nat s) st in
    if negb (live a) then ret (err (ascii_bytes "actor_recv: empty slot"))
    else if rcount (mailbox a) <=? 0 then ret (err (ascii_bytes "actor_recv: empty"))
    else
      let '(m, r) := take_out OO_ACTOR_QDEPTH false (mailbox a) in
      let! _ := set_state (with_actor (Z.to_nat s) (with_mailbox r a)) in
      ret (mkRes true (Msg m)).

(** [stop_req = 1], the broadcast, and the lock held until the worker is
    joined; [None] while it is. *)
Definition ask_to_stop (a : OoActor) : OoActor :=
  signal (mkAct (live a) (running a) true (worker a) (mailbox a) (msgs_processed a) (name a)).
Definition stop_worker (op : list Z) (p : nat -> pending) (cap id : Z) : ST astate (option MResS) :=
  let s := i32 id in
  let! _ := on_acaps (oo_cap_require_thread cap) in
  if (s <? 0) || (OO_ACTOR_SLOTS <=? s) then ret (Some (err (op ++ ascii_bytes ": bad id")))
  else
    let! st := get_state in
    let a := actor_at (Z.to_nat s) st in
    if negb (live a) then ret (Some (err (op ++ ascii_bytes ": empty slot")))
    else
      let! _ := set_state (fun st => with_joining (Some (p (Z.to_nat s))) (with_actor (Z.to_nat s) (ask_to_stop a) st)) in
      ret None.
Definition destroy_begin : Z -> Z -> ST astate (option MResS) := stop_worker (ascii_bytes "actor_destroy") PDestroy.
Definition restart_begin : Z -> Z -> ST astate (option MResS) := stop_worker (ascii_bytes "actor_restart") PRestart.
(** After the join: the messages left are released, the slot is free. *)
Definition destroy_end (i : nat) : ST astate MResS :=
  let! st := get_state in
  let a := actor_at i st in
  let! r := on_astrings (drain OO_ACTOR_QDEPTH (Z.to_nat (rcount (mailbox a))) (mailbox a)) in
  let! _ := set_state (fun st => with_joining None (with_actor i (mkAct false false false None (mkRing 0 0 (rcount r) (msgs r)) 0 (name a)) st)) in
  ret (okt (ascii_bytes "destroyed")).
(** After the join: a new worker on the same mailbox. *)
Definition restart_end (created : bool) (i : nat) : ST astate MResS :=
  let! st := get_state in
  let a := actor_at i st in
  if negb created then
    let! _ := set_state (fun st => with_joining None (with_actor i (mkAct false true false None (mailbox a) (msgs_processed a) (name a)) st)) in
    ret (err (ascii_bytes "actor_restart: spawn failed"))
  else
    let! _ := set_state (fun st => with_joining None (with_actor i (mkAct (live a) true false (Some WStart) (mailbox a) (msgs_processed a) (name a)) st)) in
    ret (okt (ascii_bytes "restarted")).
Definition join_end (created : bool) (p : pending) : ST astate MResS :=
  match p with PDestroy i => destroy_end i | PRestart i => restart_end created i end.
(** The part of supervising before the restart; [None] goes on to it. *)
Definition supervise_begin (cap id : Z) : ST astate (option MResS) :=
  let s := i32 id in
  let! _ := on_acaps (oo_cap_require_thread cap) in
  if (s <? 0) || (OO_ACTOR_SLOTS <=? s) then ret (Some (err (ascii_bytes "otp_supervise: bad id")))
  else
    let! st := get_state in
    if nth (Z.to_nat s) (g_otp_once st) false then ret (Some (err (ascii_bytes "otp_supervise: already")))
    else if negb (live (actor_at (Z.to_nat s) st)) then ret (Some (err (ascii_bytes "otp_supervise: empty")))
    else
      let! _ := set_state (fun st => mkAs (acaps st) (g_actors st) (<[Z.to_nat s := true]> (g_otp_once st)) (joining st) (strings st) (texts st)) in
      ret None.

(** [pthread_join]: the worker runs until it has returned; blocked if it
    cannot. *)
Definition join (i : nat) : ST astate unit := fun s =>
  match worker (actor_at i s) with
  | Some WDone => Ret (tt, s)
  | _ =>
      match worker_step (actor_at i s) with
      | Some a => match worker a with Some WDone => Ret (tt, with_actor i a s) | _ => Undefined end
      | None => Undefined
      end
  end.
(** The operations in full, when no other thread is scheduled. *)
Definition joined (created : bool) (m : ST astate (option MResS)) : ST astate MResS :=
  let! r := m in
  match r with
  | Some r => ret r
  | None =>
      let! s := get_state in
      match joining s with Some p => let! _ := join (pending_slot p) in join_end created p | None => undef end
  end.
Definition oo_actor_destroy (cap id : Z) : ST astate MResS := joined true (destroy_begin cap id).
Definition oo_actor_restart (created : bool) (cap id : Z) : ST astate MResS := joined created (restart_begin cap id).
Definition oo_otp_supervise (created : bool) (cap id : Z) : ST astate MResS :=
  let! r := supervise_begin cap id in
  match r with Some r => ret r | None => oo_actor_restart created cap id end.

(** * Interleavings *)

(** What can happen next: a call, the end of a call that waited for a worker,
    a step of a worker, a wakeup without a signal, and what the program does
    with its references to strings. *)
Inductive event :=
| ESpawn (created : bool) (nm : OoStr) | ESend (id : Z) (m : StrRef) | ERecv (id : Z)
| EDestroy (id : Z) | ERestart (id : Z) | ESupervise (id : Z) | EFinish (created : bool)
| EWork (i : nat) | ESpurious (i : nat) | EKeep (m : StrRef) | EDrop (m : StrRef).
Definition answered (m : ST astate MResS) : ST astate (option MResS) := let! r := m in ret (Some r).
Definition do_event (cap : Z) (e : event) : ST astate (option MResS) :=
  match e with
  | ESpawn created nm => answered (oo_actor_spawn created cap nm)
  | ESend id m => answered (oo_actor_send cap id m)
  | ERecv id => answered (oo_actor_recv cap id)
  | EDestroy id => destroy_begin cap id
  | ERestart id => restart_begin cap id
  | ESupervise id => supervise_begin cap id
  | EFinish created => let! s := get_state in match joining s with Some p => answered (join_end created p) | None => undef end
  | EWork i => fun s => match worker_step (actor_at i s) with Some a => Ret (None, with_actor i a s) | None => Undefined end
  | ESpurious i => fun s => Ret (None, with_actor i (set_worker (Some WWake) (running (actor_at i s)) (actor_at i s)) s)
  | EKeep m => let! _ := on_astrings (fun w => let* w := oo_str_retain m w in Ret (tt, w)) in ret None
  | EDrop m => let! _ := on_astrings (release_data m) in ret None
  end.
(** The calls need the lock, which a waiting call holds; the others need their
    worker to be there. *)
Definition enabled (e : event) (s : astate) : bool :=
  match e with
  | ESpawn _ _ | ESend _ _ | ERecv _ | EDestroy _ | ERestart _ | ESupervise _ => match joining s with None => true | Some _ => false end
  | EFinish _ =>
      match joining s with Some p => match worker (actor_at (pending_slot p) s) with Some WDone => true | _ => false end | None => false end
  | EWork i => match worker_step (actor_at i s) with Some _ => true | None => false end
  | ESpurious i => match worker (actor_at i s) with Some WWait => true | _ => false end
  | EKeep _ | EDrop _ => true
  end.
Inductive step (cap : Z) : astate -> event -> option MResS -> astate -> Prop :=
| step_event s e r s' : enabled e s = true -> do_event cap e s = Ret (r, s') -> step cap s e r s'.
End actor.

(** * The abstract actors

    A slot is free or has a mailbox of at most eight byte strings; a flag per
    slot says whether it was supervised; one call may be waiting. *)

Abbreviation Boxes := (list (option (list (list Z)))).
Record amail := mkMail { boxes : Boxes; once : list bool; pend : option pending }.
Inductive answer := AText (good : bool) (l : list Z) | AMsg (l : list Z) | ANothing.
Definition with_boxes (b : Boxes) (A : amail) : amail := mkMail b (once A) (pend A).
Definition on_box (op : list Z) (id : Z) (bad : list Z) (none : list Z) (A : amail) (f : nat -> list (list Z) -> answer * amail) : answer * amail :=
  match slot_named OO_ACTOR_SLOTS id with
  | None => (AText false (op ++ bad), A)
  | Some i => match boxes A !! i with Some (Some q) => f i q | _ => (AText false (op ++ none), A) end
  end.
(** The bytes a reference stands for. *)
Definition text_of (tx : gmap nat (list Z)) (m : StrRef) : list Z :=
  match s_data m with Some a => take (Z.to_nat (s_len m)) (default [] (tx !! a)) | None => [] end.
Definition MESSAGE_MAX : nat := Z.to_nat (Z.shiftl 1 20).
Definition spec_event (tx : gmap nat (list Z)) (e : event) (A : amail) : answer * amail :=
  match e with
  | ESpawn created _ =>
      match list_find (fun o => o = None) (boxes A) with
      | None => (AText false (ascii_bytes "actor_spawn: no free slot"), A)
      | Some (i, _) =>
          if created then (AText true (numbered (ascii_bytes "actor:") i), with_boxes (<[i := Some []]> (boxes A)) A)
          else (AText false (ascii_bytes "actor_spawn failed"), A)
      end
  | ESend id m =>
      on_box (ascii_bytes "actor_send") id (ascii_bytes ": bad id") (ascii_bytes ": empty slot") A (fun i q =>
        if OO_ACTOR_QDEPTH <=? Z.of_nat (length q) then (AText false (ascii_bytes "actor_send: full"), A)
        else (AText true (ascii_bytes "sent"), with_boxes (<[i := Some (q ++ [take MESSAGE_MAX (text_of tx m)])]> (boxes A)) A))
  | ERecv id =>
      on_box (ascii_bytes "actor_recv") id (ascii_bytes ": bad id") (ascii_bytes ": empty slot") A (fun i q =>
        match q with
        | [] => (AText false (ascii_bytes "actor_recv: empty"), A)
        | x :: q => (AMsg x, with_boxes (<[i := Some q]> (boxes A)) A)
        end)
  | EDestroy id =>
      on_box (ascii_bytes "actor_destroy") id (ascii_bytes ": bad id") (ascii_bytes ": empty slot") A (fun i _ =>
        (ANothing, mkMail (boxes A) (once A) (Some (PDestroy i))))
  | ERestart id =>
      on_box (ascii_bytes "actor_restart") id (ascii_bytes ": bad id") (ascii_bytes ": empty slot") A (fun i _ =>
        (ANothing, mkMail (boxes A) (once A) (Some (PRestart i))))
  | ESupervise id =>
      match slot_named OO_ACTOR_SLOTS id with
      | None => (AText false (ascii_bytes "otp_supervise: bad id"), A)
      | Some i =>
          if nth i (once A) false then (AText false (ascii_bytes "otp_supervise: already"), A)
          else match boxes A !! i with
               | Some (Some _) => (ANothing, mkMail (boxes A) (<[i := true]> (once A)) (pend A))
               | _ => (AText false (ascii_bytes "otp_supervise: empty"), A)
               end
      end
  | EFinish created =>
      match pend A with
      | Some (PDestroy i) => (AText true (ascii_bytes "destroyed"), mkMail (<[i := None]> (boxes A)) (once A) None)
      | Some (PRestart i) =>
          if created then (AText true (ascii_bytes "restarted"), mkMail (boxes A) (once A) None)
          else (AText false (ascii_bytes "actor_restart: spawn failed"), mkMail (<[i := None]> (boxes A)) (once A) None)
      | None => (ANothing, A)
      end
  | _ => (ANothing, A)
  end.
