(* ===== verification/ActorRefine.v ===== *)
(** Actors refine mailboxes: the simulation between [Actor]'s state and its
    abstract actors, event by event, and what it gives for all runs. *)
From S2P Require Import Prelude Str Caps Lists Mailbox Actor.
From stdpp Require Import gmap.
From Stdlib Require String.
Import (notations) String.
Open Scope Z_scope.

(** * The simulation *)

Definition slot_is (a : OoActor) (o : option (list StrRef)) : Prop :=
  length (msgs (mailbox a)) = Z.to_nat OO_ACTOR_QDEPTH /\
  match o with None => live a = false | Some q => live a = true /\ queued OO_ACTOR_QDEPTH (mailbox a) q end.
Definition waits (p : option pending) (i : nat) : bool := match p with Some p => Nat.eqb (pending_slot p) i | None => false end.
(** A free slot has no worker.  A worker is told to stop exactly while a call
    waits for it; it does not sleep then, and returns only then. *)
Definition worker_ok (p : option pending) (i : nat) (a : OoActor) : Prop :=
  match worker a with
  | None => live a = false /\ stop_req a = false /\ waits p i = false
  | Some w => live a = true /\ stop_req a = waits p i /\ (stop_req a = true -> w <> WWait) /\ (w = WDone -> stop_req a = true)
  end.
(** The bytes of a reference are there. *)
Definition texted (tx : gmap nat (list Z)) (m : StrRef) : Prop :=
  match s_data m with Some a => exists l, tx !! a = Some l /\ s_len m <= Z.of_nat (length l) | None => True end.
Definition lit_hdr : OoListHeader := mkHdr 1 0x81.
Definition box_texts (tx : gmap nat (list Z)) (R : Queues) : Boxes := map (option_map (map (text_of tx))) R.
Record sim (t : tokens) (s : astate) (A : amail) (R : Queues) (rest : list StrRef) : Prop := {
  sm_caps : gate_ready t (acaps s);
  sm_once : g_otp_once s = once A;
  sm_flags : Z.of_nat (length (once A)) = OO_ACTOR_SLOTS;
  sm_pend : joining s = pend A;
  sm_slot : match joining s with Some p => Z.of_nat (pending_slot p) < OO_ACTOR_SLOTS | None => True end;
  sm_size : Z.of_nat (length R) = OO_ACTOR_SLOTS;
  sm_slots : Forall2 slot_is (g_actors s) R;
  sm_boxes : boxes A = box_texts (texts s) R;
  sm_workers : forall i a, g_actors s !! i = Some a -> worker_ok (joining s) i a;
  sm_lit : (strings s : gmap nat OoListHeader) !! 0%nat = Some lit_hdr /\ texts s !! 0%nat = Some [];
  sm_texts : Forall (texted (texts s)) (waiting R ++ rest);
  sm_counts : counts (strings s) (waiting R ++ rest) }.

Definition may (e : event) (rest held : list StrRef) : Prop :=
  Z.of_nat (length rest) < 999800 /\ match e with ESend _ m | EKeep m | EDrop m => In m held | _ => True end.
Definition answer_is (tx : gmap nat (list Z)) (r : option MResS) (a : answer) : Prop :=
  match a with
  | AText g l => r = Some (mkRes g (Text l))
  | AMsg l => exists m, r = Some (mkRes true (Msg m)) /\ text_of tx m = l
  | ANothing => r = None
  end.
Definition held_after (e : event) (r : option MResS) (held : list StrRef) : list StrRef :=
  match e, r with
  | ERecv _, Some (mkRes true (Msg m)) => m :: held
  | EKeep m, _ => m :: held
  | EDrop m, _ => remove_one m held
  | _, _ => held
  end.

Lemma depth_positive : 0 < OO_ACTOR_QDEPTH.
Proof. done. Qed.
Lemma actor_at_some s i a : g_actors s !! i = Some a -> actor_at i s = a.
Proof. intros H. unfold actor_at. by rewrite nth_lookup, H. Qed.
Lemma waiting_bound l R : Forall2 slot_is l R -> (length (waiting R) <= 8 * length R)%nat.
Proof.
  unfold waiting. induction 1 as [|c o s Q [_ H] _ IH]; [done|]. cbn [map concat length]. rewrite length_app.
  destruct o as [q|]; cbn [from_option id length] in *; [|lia]. destruct H as (_ & _ & _ & _ & C & F & _). unfold OO_ACTOR_QDEPTH in F. lia.
Qed.
Lemma find_free l R tx : Forall2 slot_is l R ->
  act_alloc_slot l = fst <$> list_find (fun o => o = None) (box_texts tx R).
Proof.
  unfold act_alloc_slot, box_texts. induction 1 as [|c o s Q [_ H] _ IH]; [done|]. cbn [list_find map]. destruct o as [q|]; cbn [option_map].
  - destruct H as [H _]. rewrite decide_False by (by rewrite H). rewrite decide_False by done.
    revert IH. destruct (list_find _ s) as [[? ?]|], (list_find _ _) as [[? ?]|]; cbn; congruence.
  - rewrite decide_True by done. by rewrite decide_True.
Qed.
Lemma box_lookup tx R i : box_texts tx R !! i = option_map (map (text_of tx)) <$> (R !! i).
Proof. unfold box_texts. apply list_lookup_fmap. Qed.
Lemma box_insert tx R i o : box_texts tx (<[i := o]> R) = <[i := option_map (map (text_of tx)) o]> (box_texts tx R).
Proof. unfold box_texts. apply list_fmap_insert. Qed.
(** What is read of a string does not change when another is made. *)
Lemma texts_ext tx a l m w rs : counts w rs -> w !! a = None -> In m rs -> texted tx m ->
  text_of (<[a := l]> tx) m = text_of tx m /\ texted (<[a := l]> tx) m.
Proof.
  intros C N I T. unfold text_of, texted in *. destruct (s_data m) as [b|] eqn:E; [|done]. destruct (counts_live w rs m b C I E) as [h Hb].
  assert (a <> b) by congruence. by rewrite !lookup_insert_ne.
Qed.
Lemma box_texts_ext tx a l R rest w : counts w (waiting R ++ rest) -> w !! a = None -> Forall (texted tx) (waiting R ++ rest) ->
  box_texts (<[a := l]> tx) R = box_texts tx R /\ Forall (texted (<[a := l]> tx)) (waiting R ++ rest).
Proof.
  intros C N T. rewrite List.Forall_forall in T. assert (X : forall m, In m (waiting R ++ rest) -> text_of (<[a := l]> tx) m = text_of tx m /\ texted (<[a := l]> tx) m).
  { intros m I. by eapply texts_ext; eauto. }
  split; [|rewrite List.Forall_forall; intros m I; by apply X].
  unfold box_texts. apply map_ext_in. intros [q|] Iq; [|done]. cbn [option_map]. f_equal. apply map_ext_in. intros m Im. apply X.
  apply in_or_app. left. unfold waiting. apply in_concat. exists q. split; [|done]. apply in_map_iff. by exists (Some q).
Qed.

Section proofs.
Context {E : Entropy}.
Variable malloc : Strings -> nat.
(** [malloc] gives a place that no live string has. *)
Hypothesis malloc_fresh : forall w : gmap nat OoListHeader, w !! malloc w = None.
Variable t : tokens.

Definition achecked (s : astate) : astate := mkAs (after_check (acaps s)) (g_actors s) (g_otp_once s) (joining s) (strings s) (texts s).
Lemma agate cap s A R rest {B} (k : ST astate B) : sim t s A R rest ->
  (let! _ := on_acaps (oo_cap_require_thread cap) in k) s = if opens cap t g_tok_thread then k (achecked s) else Exited 1.
Proof. intros [G]. unfold bind, on_acaps, lift. rewrite (gate_thread cap t _ G). by destruct (opens _ _ _). Qed.
Lemma sim_checked s A R rest : sim t s A R rest -> sim t (achecked s) A R rest.
Proof. intros []. split; try done. by apply gate_ready_after. Qed.

(** What an event does: an answer as the abstract actors give it, to a state
    that stays with them. *)
Definition lost_more (e : event) (A : amail) (tx : gmap nat (list Z)) (lost lost' : list StrRef) : Prop :=
  lost' = lost \/ exists i q, lost' = q ++ lost /\ e = EFinish false /\ pend A = Some (PRestart i) /\ boxes A !! i = Some (Some (map (text_of tx) q)).
Definition follows (s : astate) (e : event) (A : amail) (held lost : list StrRef) (m : run (option MResS * astate)) : Prop :=
  let out := spec_event (texts s) e A in
  exists r s' R' lost', m = Ret (r, s') /\ answer_is (texts s') r (fst out) /\ sim t s' (snd out) R' (held_after e r held ++ lost') /\
    lost_more e A (texts s) lost lost'.
Lemma follows_same s e A R held lost g l : sim t s A R (held ++ lost) -> spec_event (texts s) e A = (AText g l, A) ->
  held_after e (Some (mkRes g (Text l))) held = held -> follows s e A held lost (ret (Some (mkRes g (Text l))) s).
Proof. intros S O H. unfold follows. rewrite O. exists (Some (mkRes g (Text l))), s, R, lost. rewrite H. split; [done|]. split; [done|]. split; [done|by left]. Qed.
Lemma answered_ret r s : answered (ret r) s = ret (Some r) s.
Proof. done. Qed.

(** The slot an identifier names, as the code and as the abstract actors see
    it. *)
Lemma slot_seen s A R rest id : sim t s A R rest ->
  match slot_named OO_ACTOR_SLOTS id with
  | None => ((i32 id <? 0) || (OO_ACTOR_SLOTS <=? i32 id)) = true
  | Some i => ((i32 id <? 0) || (OO_ACTOR_SLOTS <=? i32 id)) = false /\ i = Z.to_nat (i32 id) /\ Z.of_nat i < OO_ACTOR_SLOTS /\
      exists a o, g_actors s !! i = Some a /\ actor_at i s = a /\ R !! i = Some o /\ slot_is a o /\ boxes A !! i = Some (option_map (map (text_of (texts s))) o)
  end.
Proof.
  intros S. destruct (slot_named OO_ACTOR_SLOTS id) as [i|] eqn:H; [|unfold slot_named in H; by destruct (_ || _)].
  destruct (slot_named_lt _ _ _ H) as [Hi Ei]. split; [unfold slot_named in H; by destruct (_ || _)|]. split; [done|]. split; [done|].
  destruct S as [_ _ _ _ _ Z0 F B _ _ _ _]. destruct (lookup_lt_is_Some_2 R i) as [o Ho]; [lia|]. destruct (Forall2_lookup_r _ _ _ _ _ F Ho) as (a & Ha & Sa).
  exists a, o. split; [done|]. split; [by apply actor_at_some|]. split; [done|]. split; [done|]. by rewrite B, box_lookup, Ho.
Qed.
(** The two tests that a call on a slot makes, and what it does past them. *)
Lemma slot_op s e A R held lost id op body f bad none : sim t s A R (held ++ lost) ->
  spec_event (texts s) e A = on_box op id bad none A f ->
  (forall r, held_after e (Some (err r)) held = held) ->
  (forall i a q, g_actors s !! i = Some a -> R !! i = Some (Some q) -> slot_is a (Some q) -> Z.of_nat i < OO_ACTOR_SLOTS -> i = Z.to_nat (i32 id) ->
     spec_event (texts s) e A = f i (map (text_of (texts s)) q) -> follows s e A held lost (body a s)) ->
  follows s e A held lost
    ((if (i32 id <? 0) || (OO_ACTOR_SLOTS <=? i32 id) then ret (Some (err (op ++ bad)))
      else let! st := get_state in let a := actor_at (Z.to_nat (i32 id)) st in if negb (live a) then ret (Some (err (op ++ none))) else body a) s).
Proof.
  intros S O Hh H. pose proof (slot_seen s A R _ id S) as V. unfold on_box in O. destruct (slot_named OO_ACTOR_SLOTS id) as [i|]; cycle 1.
  { rewrite V. exact (follows_same s e A R held lost false _ S O (Hh _)). }
  destruct V as (-> & Ei & Li & a & o & Ha & Aa & Ho & Sa & Bo). unfold bind, get_state. cbn [run_bind]. cbv zeta. rewrite <- Ei, Aa. rewrite Bo in O.
  destruct o as [q|]; cbn [option_map] in O; pose proof Sa as (_ & La).
  - destruct La as [-> _]. cbn [negb]. by eapply H.
  - rewrite La. cbn [negb]. exact (follows_same s e A R held lost false _ S O (Hh _)).
Qed.
Lemma answered_bind {B} (m : ST astate B) f s : answered (bind m f) s = bind m (fun x => answered (f x)) s.
Proof. unfold answered, bind. by destruct (m s) as [[x s1]| |]. Qed.
Lemma answered_slot (b : bool) k r1 r2 body s :
  answered (if b then ret r1 else let! st := get_state in let a := actor_at k st in if negb (live a) then ret r2 else body a) s =
  (if b then ret (Some r1) else let! st := get_state in let a := actor_at k st in if negb (live a) then ret (Some r2) else answered (body a)) s.
Proof. destruct b; [done|]. rewrite answered_bind. unfold bind, get_state. cbn [run_bind]. cbv zeta. by destruct (negb _). Qed.

(** Changing one slot. *)
Lemma workers_set s i a' p : (forall j a, g_actors s !! j = Some a -> worker_ok (joining s) j a) -> worker_ok p i a' ->
  (forall j, j <> i -> waits p j = waits (joining s) j) ->
  forall j a, <[i := a']> (g_actors s) !! j = Some a -> worker_ok p j a.
Proof.
  intros W Wi Wp j a H. destruct (decide (j = i)) as [->|N].
  - apply list_lookup_insert_Some in H as [(_ & <- & _)|[]]; done.
  - rewrite list_lookup_insert_ne in H by done. specialize (W j a H). unfold worker_ok in *. by rewrite Wp.
Qed.
(** A slot's own change, the strings and texts staying as they are. *)
Lemma sim_local s A R rest i a a' : sim t s A R rest -> g_actors s !! i = Some a -> mailbox a' = mailbox a -> live a' = live a ->
  worker_ok (joining s) i a' -> sim t (with_actor i a' s) A R rest.
Proof.
  intros [G O Ol P Ps Z0 F B W L T C] Ha Em El Wa. split; try done.
  - cbn [g_actors with_actor]. apply lookup_lt_Some in Ha as Hl. destruct (Forall2_lookup_l _ _ _ _ _ F Ha) as (o & Ho & So).
    rewrite <- (list_insert_id R i o Ho). apply Forall2_insert; [done|]. unfold slot_is in *. by rewrite Em, El.
  - cbn [joining g_actors with_actor]. by eapply workers_set.
Qed.
Lemma work_ok p i a a' : worker_ok p i a -> worker_step a = Some a' ->
  worker_ok p i a' /\ mailbox a' = mailbox a /\ live a' = live a /\ (waits p i = true -> worker a' = Some WDone).
Proof.
  unfold worker_ok, worker_step, worker_test. destruct (worker a) as [[]|] eqn:Ew; [| done| |done|done]; intros (L & S & N & D) [= <-];
    cbn [set_worker live stop_req]; rewrite L, <- S in *; destruct (stop_req a) eqn:Es; cbn [negb andb];
    try (destruct (rcount _ =? 0)); cbn [worker live stop_req mailbox set_worker]; rewrite ?Es; repeat split; try done; by intros.
Qed.

Lemma work_spec s A R held lost i : sim t s A R (held ++ lost) -> enabled (EWork i) s = true -> follows s (EWork i) A held lost (do_event malloc 0 (EWork i) s).
Proof.
  intros S En. cbn [do_event enabled] in *. destruct (worker_step (actor_at i s)) as [a'|] eqn:Ew; [|done].
  assert (Ha : g_actors s !! i = Some (actor_at i s)).
  { unfold actor_at in *. rewrite nth_lookup in *. by destruct (g_actors s !! i). }
  destruct (work_ok _ i _ _ (sm_workers _ _ _ _ _ S i _ Ha) Ew) as (Wo & Em & El & _).
  exists None, (with_actor i a' s), R, lost. split; [done|]. split; [done|]. split; [by eapply sim_local|by left].
Qed.
Lemma spurious_spec s A R held lost i : sim t s A R (held ++ lost) -> enabled (ESpurious i) s = true -> follows s (ESpurious i) A held lost (do_event malloc 0 (ESpurious i) s).
Proof.
  intros S En. cbn [do_event enabled] in *. assert (Ha : g_actors s !! i = Some (actor_at i s)).
  { unfold actor_at in *. rewrite nth_lookup in *. by destruct (g_actors s !! i). }
  pose proof (sm_workers _ _ _ _ _ S i _ Ha) as Wo. destruct (worker (actor_at i s)) as [[]|] eqn:Ew; try done.
  eexists None, _, R, lost. split; [reflexivity|]. split; [done|]. split; [|by left]. eapply sim_local; [done|exact Ha|done|done|].
  unfold worker_ok in *. rewrite Ew in Wo. cbn [set_worker worker live stop_req]. destruct Wo as (? & ? & ? & ?). by repeat split.
Qed.
(** A new mailbox of slot [i], the same worker. *)
Lemma worker_ok_ext p i a a' : worker_ok p i a -> worker a' = worker a -> live a' = live a -> stop_req a' = stop_req a -> worker_ok p i a'.
Proof. unfold worker_ok. intros H -> -> ->. exact H. Qed.
Lemma signal_ok p i a : worker_ok p i a -> worker_ok p i (signal a).
Proof.
  unfold worker_ok, signal. destruct (worker a) as [w|]; [|done]. intros (L & S & N & D). destruct w; cbn [set_worker worker live stop_req]; repeat split; done.
Qed.

(** What receiving does once it has a slot. *)
Definition recv_body (i : nat) (a : OoActor) : ST astate MResS :=
  if rcount (mailbox a) <=? 0 then ret (err (ascii_bytes "actor_recv: empty"))
  else let '(m, r) := take_out OO_ACTOR_QDEPTH false (mailbox a) in
       let! _ := set_state (with_actor i (with_mailbox r a)) in ret (mkRes true (Msg m)).
Lemma recv_spec s A R held lost id : sim t s A R (held ++ lost) ->
  follows s (ERecv id) A held lost
   ((if (i32 id <? 0) || (OO_ACTOR_SLOTS <=? i32 id) then ret (Some (err (ascii_bytes "actor_recv" ++ ascii_bytes ": bad id")))
     else let! st := get_state in let a := actor_at (Z.to_nat (i32 id)) st in if negb (live a) then ret (Some (err (ascii_bytes "actor_recv" ++ ascii_bytes ": empty slot")))
     else answered (recv_body (Z.to_nat (i32 id)) a)) s).
Proof.
  intros S. apply (slot_op s (ERecv id) A R held lost id _ (fun a => answered (recv_body (Z.to_nat (i32 id)) a)) _ _ _ S eq_refl (fun _ => eq_refl)). intros i a q Ha Ho Sa Li Ei Out. unfold recv_body. pose proof Sa as (Lm & La & Qa). rewrite (queued_count _ _ _ Qa).
  destruct q as [|m q]; cbn [length map] in *.
  { exact (follows_same s _ A R held lost false _ S Out eq_refl). }
  destruct (Z.leb_spec (Z.of_nat (Datatypes.S (length q))) 0); [lia|]. destruct (take_queued _ depth_positive false _ _ _ Qa) as [Em Qa'].
  unfold take_out in *. cbn [fst snd] in *. rewrite Em. unfold answered, bind, set_state. cbn [run_bind]. unfold follows. rewrite Out. cbn [fst snd].
  eexists _, _, (<[i := Some q]> R), lost. split; [reflexivity|]. split; [cbn [answer_is texts with_actor]; by exists m|]. split; [|by left].
  rewrite <- Ei. cbn [held_after]. destruct S as [G O Ol P Ps Z0 F B W L T C].
  assert (Pm : Permutation (waiting (<[i := Some q]> R) ++ (m :: held) ++ lost) (waiting R ++ held ++ lost)).
  { destruct (waiting_split R i _ Ho) as (l1 & l2 & -> & W'). rewrite W'. cbn [from_option Datatypes.id app]. rewrite <- !app_assoc. cbn [app].
    by rewrite !app_assoc, <- Permutation_middle, <- !app_assoc, <- Permutation_middle. }
  split; try done.
  - by rewrite length_insert.
  - cbn [g_actors with_actor]. apply Forall2_insert; [done|]. split; [cbn [with_mailbox mailbox msgs]; done|by split].
  - cbn [boxes with_boxes texts with_actor]. by rewrite B, box_insert.
  - cbn [g_actors with_actor]. eapply workers_set; [exact W| |done]. eapply worker_ok_ext; [exact (W i a Ha)|done..].
  - by rewrite Pm.
  - by rewrite Pm.
Qed.

(** A call begins to wait: its worker is told to stop and is not asleep. *)
Lemma stop_spec (op : list Z) (mk : nat -> pending) e s A R held lost id : (forall i, pending_slot (mk i) = i) ->
  sim t s A R (held ++ lost) -> joining s = None -> (forall r, held_after e r held = held) ->
  spec_event (texts s) e A = on_box op id (ascii_bytes ": bad id") (ascii_bytes ": empty slot") A (fun i _ => (ANothing, mkMail (boxes A) (once A) (Some (mk i)))) ->
  follows s e A held lost
   ((if (i32 id <? 0) || (OO_ACTOR_SLOTS <=? i32 id) then ret (Some (err (op ++ ascii_bytes ": bad id")))
     else let! st := get_state in let a := actor_at (Z.to_nat (i32 id)) st in if negb (live a) then ret (Some (err (op ++ ascii_bytes ": empty slot")))
     else let! _ := set_state (fun st => with_joining (Some (mk (Z.to_nat (i32 id)))) (with_actor (Z.to_nat (i32 id)) (ask_to_stop a) st)) in ret None) s).
Proof.
  intros Mk S J Hh O.
  apply (slot_op s e A R held lost id op (fun a => let! _ := set_state (fun st => with_joining (Some (mk (Z.to_nat (i32 id)))) (with_actor (Z.to_nat (i32 id)) (ask_to_stop a) st)) in ret None) _ _ _ S O (fun r => Hh _)).
  intros i a q Ha Ho Sa Li Ei Out. pose proof Sa as (Lm & La & Qa). unfold bind, set_state. cbn [run_bind]. unfold follows. rewrite Out. cbn [fst snd].
  eexists None, _, R, lost. split; [reflexivity|]. split; [done|]. rewrite Hh. split; [|by left]. rewrite <- Ei. destruct S as [G O' Ol P Ps Z0 F B W L T C].
  split; try done.
  - cbn [joining with_joining]. by rewrite Mk.
  - cbn [g_actors with_joining with_actor]. rewrite <- (list_insert_id R i _ Ho). apply Forall2_insert; [done|]. unfold ask_to_stop, signal. by split.
  - cbn [g_actors with_joining with_actor joining]. eapply workers_set; [exact W| |].
    + pose proof (W i a Ha) as Wa. unfold worker_ok, ask_to_stop, signal in *. rewrite J in Wa. cbn [waits] in *. rewrite Mk, Nat.eqb_refl.
      destruct (worker a) as [w|]; [|destruct Wa; congruence]. destruct Wa as (_ & _ & _ & D). destruct w; cbn [worker set_worker live stop_req]; by repeat split.
    + intros j N. rewrite J. cbn [waits]. rewrite Mk. by destruct (Nat.eqb_spec i j); [congruence|].
Qed.
Lemma supervise_spec s A R held lost id : sim t s A R (held ++ lost) ->
  follows s (ESupervise id) A held lost
   ((if (i32 id <? 0) || (OO_ACTOR_SLOTS <=? i32 id) then ret (Some (err (ascii_bytes "otp_supervise: bad id")))
     else let! st := get_state in
       if nth (Z.to_nat (i32 id)) (g_otp_once st) false then ret (Some (err (ascii_bytes "otp_supervise: already")))
       else if negb (live (actor_at (Z.to_nat (i32 id)) st)) then ret (Some (err (ascii_bytes "otp_supervise: empty")))
       else let! _ := set_state (fun st => mkAs (acaps st) (g_actors st) (<[Z.to_nat (i32 id) := true]> (g_otp_once st)) (joining st) (strings st) (texts st)) in ret None) s).
Proof.
  intros S. pose proof (slot_seen s A R _ id S) as V. destruct (slot_named OO_ACTOR_SLOTS id) as [i|] eqn:Hn; cycle 1.
  { rewrite V. apply (follows_same s _ A R held lost false _ S); [cbn [spec_event]; by rewrite Hn|done]. }
  destruct V as (-> & Ei & Li & a & o & Ha & Aa & Ho & Sa & Bo). unfold bind, get_state, set_state. cbn [run_bind]. rewrite <- Ei, Aa, (sm_once _ _ _ _ _ S).
  destruct (nth i (once A) false) eqn:On.
  { apply (follows_same s _ A R held lost false _ S); [cbn [spec_event]; by rewrite Hn, On|done]. }
  destruct o as [q|]; cbn [option_map] in Bo; pose proof Sa as (_ & La).
  - destruct La as [-> _]. cbn [negb]. unfold follows. cbn [spec_event]. rewrite Hn, On, Bo. eexists None, _, R, lost. split; [reflexivity|]. split; [done|]. split; [|by left].
    destruct S as [G O' Ol P Ps Z0 F B W L T C]. cbn [fst snd held_after]. split; try done; cbn [once g_otp_once]; [by rewrite O'|by rewrite length_insert].
  - rewrite La. cbn [negb]. apply (follows_same s _ A R held lost false _ S); [cbn [spec_event]; by rewrite Hn, On, Bo|done].
Qed.

Definition spawn_body (created : bool) (nm : OoStr) (s : astate) : ST astate MResS :=
  match act_alloc_slot (g_actors s) with
  | None => ret (err (ascii_bytes "actor_spawn: no free slot"))
  | Some slot =>
      let a := mkAct true false false None (mkRing 0 0 0 (msgs (mailbox (actor_at slot s)))) 0 (actor_name nm) in
      if negb created then
        let! _ := set_state (with_actor slot (mkAct false false false None (mailbox a) 0 (name a))) in
        ret (err (ascii_bytes "actor_spawn failed"))
      else
        let! _ := set_state (with_actor slot (set_worker (Some WStart) false a)) in
        ret (okt (numbered (ascii_bytes "actor:") slot))
  end.
Lemma spawn_spec created nm s A R held lost : sim t s A R (held ++ lost) -> joining s = None ->
  follows s (ESpawn created nm) A held lost (answered (spawn_body created nm s) s).
Proof.
  intros S J. pose proof S as [G O Ol P Ps Z0 F B W L T C]. unfold spawn_body. rewrite (find_free _ R (texts s) F), <- B.
  destruct (list_find (fun o => o = None) (boxes A)) as [[i o]|] eqn:Lf; cbn [fmap option_fmap option_map fst]; cycle 1.
  { apply (follows_same s _ A R held lost false _ S); [cbn [spec_event]; by rewrite Lf|done]. }
  pose proof Lf as Lf'. apply list_find_Some in Lf' as (Hb & -> & _). rewrite B, box_lookup in Hb. destruct (R !! i) as [[q|]|] eqn:Ho; cbn in Hb; try done.
  destruct (Forall2_lookup_r _ _ _ _ _ F Ho) as (a & Ha & Lm & La). rewrite (actor_at_some _ _ _ Ha). unfold answered, bind, set_state.
  pose proof (lookup_lt_Some _ _ _ Ho) as Li. pose proof (W i a Ha) as Wa.
  destruct created; cbn [negb]; cbn [run_bind ret]; unfold follows; cbn [spec_event]; rewrite Lf; cbn [fst snd held_after].
  - eexists _, _, (<[i := Some []]> R), lost. split; [reflexivity|]. split; [done|]. split; [|by left].
    assert (Pw : waiting (<[i := Some []]> R) = waiting R) by (destruct (waiting_split R i _ Ho) as (l1 & l2 & -> & W'); by rewrite W').
    split; try done.
    + by rewrite length_insert.
    + cbn [g_actors with_actor]. apply Forall2_insert; [done|]. split; [done|]. split; [done|]. apply cleared_queued; [done|]. by rewrite Lm.
    + cbn [boxes with_boxes texts with_actor]. by rewrite B, box_insert.
    + cbn [g_actors with_actor]. eapply workers_set; [exact W| |done]. unfold worker_ok. cbn [set_worker worker live stop_req joining with_actor]. rewrite J. by repeat split.
    + by rewrite Pw.
    + by rewrite Pw.
  - eexists _, _, R, lost. split; [reflexivity|]. split; [done|]. split; [|by left]. split; try done.
    + cbn [g_actors with_actor]. rewrite <- (list_insert_id R i _ Ho). by apply Forall2_insert.
    + cbn [g_actors with_actor]. eapply workers_set; [exact W| |done]. unfold worker_ok. cbn [set_worker worker live stop_req joining with_actor]. rewrite J. by repeat split.
Qed.

Lemma lit_not_owned : ~ owned lit_hdr.
Proof. unfold owned. done. Qed.
Lemma perm_texted tx l1 l2 : Permutation l1 l2 -> Forall (texted tx) l1 -> Forall (texted tx) l2.
Proof. by intros ->. Qed.
(** What a finished call leaves: its slot no longer waits. *)
Lemma unjoined_workers s i a' p : joining s = Some p -> pending_slot p = i -> (forall j a, g_actors s !! j = Some a -> worker_ok (joining s) j a) ->
  worker_ok None i a' -> forall j a, <[i := a']> (g_actors s) !! j = Some a -> worker_ok None j a.
Proof.
  intros J Ep W Wi. eapply workers_set; [exact W|done|]. intros j N. rewrite J. cbn [waits]. rewrite Ep. by destruct (Nat.eqb_spec i j); [congruence|].
Qed.
(** The slot of the call that waits. *)
Lemma waiting_slot s A R rest p : sim t s A R rest -> joining s = Some p ->
  exists a q, g_actors s !! pending_slot p = Some a /\ actor_at (pending_slot p) s = a /\ R !! pending_slot p = Some (Some q) /\ slot_is a (Some q) /\
    worker_ok (joining s) (pending_slot p) a /\ worker a <> None.
Proof.
  intros [G O Ol P Ps Z0 F B W L T C] J. rewrite J in Ps. destruct (lookup_lt_is_Some_2 R (pending_slot p)) as [o Ho]; [lia|].
  destruct (Forall2_lookup_r _ _ _ _ _ F Ho) as (a & Ha & Sa). pose proof (W _ _ Ha) as Wa. exists a.
  assert (Nw : worker a <> None /\ live a = true).
  { unfold worker_ok in Wa. destruct (worker a); [split; [done|by destruct Wa]|]. destruct Wa as (_ & _ & Q). rewrite J in Q. cbn [waits] in Q. by rewrite Nat.eqb_refl in Q. }
  destruct o as [q|]; [|destruct Sa as [_ Sa]; destruct Nw; congruence]. exists q. split; [done|]. split; [by apply actor_at_some|]. by destruct Nw.
Qed.
Lemma destroy_end_spec s A R held lost i created : sim t s A R (held ++ lost) -> joining s = Some (PDestroy i) ->
  follows s (EFinish created) A held lost (answered (destroy_end i) s).
Proof.
  intros S J. destruct (waiting_slot s A R _ _ S J) as (a & q & Ha & Aa & Ho & (Lm & La & Qa) & _). cbn [pending_slot] in *.
  pose proof S as [G O Ol P Ps Z0 F B W L T C]. destruct (waiting_split R i _ Ho) as (l1 & l2 & Ew & W'). cbn [from_option Datatypes.id] in Ew.
  assert (C1 : counts (strings s) (q ++ (l1 ++ l2) ++ held ++ lost)).
  { rewrite Ew in C. rewrite <- app_assoc. by rewrite <- app_assoc, <- app_assoc, Permutation_app_swap_app in C. }
  destruct (drain_counts _ depth_positive q _ _ _ Qa C1) as (r' & w' & Ed & R0 & Rm & C').
  unfold answered, destroy_end, bind, get_state, on_astrings, lift, set_state. cbn [run_bind]. rewrite Aa, (queued_count _ _ _ Qa), Nat2Z.id, Ed. cbn [run_bind].
  unfold follows. cbn [spec_event]. rewrite <- P, J. cbn [fst snd held_after]. eexists _, _, (<[i := None]> R), lost. split; [reflexivity|]. split; [done|]. split; [|by left].
  split; try done.
  - by rewrite length_insert.
  - cbn [g_actors with_joining with_actor]. apply Forall2_insert; [done|]. split; [|done]. cbn [mailbox msgs]. by rewrite Rm.
  - cbn [boxes texts with_joining with_actor]. by rewrite B, box_insert.
  - cbn [g_actors with_joining with_actor joining]. eapply unjoined_workers; [exact J|done|exact W|]. by repeat split.
  - split; [|by destruct L]. cbn [strings with_joining with_actor]. eapply drain_static; [exact Ed|by destruct L|apply lit_not_owned].
  - cbn [texts with_joining with_actor]. rewrite W'. cbn [from_option Datatypes.id app]. rewrite Ew in T. rewrite !Forall_app in *. tauto.
  - cbn [strings with_joining with_actor]. by rewrite W'.
Qed.
Lemma restart_end_spec s A R held lost i created : sim t s A R (held ++ lost) -> joining s = Some (PRestart i) ->
  follows s (EFinish created) A held lost (answered (restart_end created i) s).
Proof.
  intros S J. destruct (waiting_slot s A R _ _ S J) as (a & q & Ha & Aa & Ho & (Lm & La & Qa) & Wa & _). cbn [pending_slot] in *.
  pose proof S as [G O Ol P Ps Z0 F B W L T C]. unfold answered, restart_end, bind, get_state, set_state. cbn [run_bind]. rewrite Aa.
  destruct created; cbn [negb]; cbn [run_bind ret]; unfold follows; cbn [spec_event]; rewrite <- P, J; cbn [fst snd held_after].
  - eexists _, _, R, lost. split; [reflexivity|]. split; [done|]. split; [|by left]. split; try done.
    + cbn [g_actors with_joining with_actor]. rewrite <- (list_insert_id R i _ Ho). by apply Forall2_insert.
    + cbn [g_actors with_joining with_actor joining]. eapply unjoined_workers; [exact J|done|exact W|]. unfold worker_ok. cbn [worker live stop_req waits]. by repeat split.
  - destruct (waiting_split R i _ Ho) as (l1 & l2 & Ew & W'). cbn [from_option Datatypes.id] in Ew.
    assert (Pw : Permutation (waiting (<[i := None]> R) ++ held ++ q ++ lost) (waiting R ++ held ++ lost)).
    { rewrite W', Ew. cbn [from_option Datatypes.id app]. rewrite (Permutation_app_swap_app held q). rewrite <- !app_assoc. apply Permutation_app_head.
      by rewrite Permutation_app_swap_app. }
    eexists _, _, (<[i := None]> R), (q ++ lost). split; [reflexivity|]. split; [done|]. split.
    + split; try done.
      * by rewrite length_insert.
      * cbn [g_actors with_joining with_actor]. apply Forall2_insert; [done|]. by split.
      * cbn [boxes texts with_joining with_actor]. by rewrite B, box_insert.
      * cbn [g_actors with_joining with_actor joining]. eapply unjoined_workers; [exact J|done|exact W|]. by repeat split.
      * cbn [texts with_joining with_actor]. by rewrite Pw.
      * cbn [strings with_joining with_actor]. by rewrite Pw.
    + right. exists i, q. split; [done|]. split; [done|]. split; [by rewrite <- P|]. by rewrite B, box_lookup, Ho.
Qed.
Lemma rest_small s A R rest : sim t s A R rest -> Z.of_nat (length rest) < 999800 -> Z.of_nat (length (waiting R ++ rest)) < 999999.
Proof.
  intros S H. pose proof (waiting_bound _ _ (sm_slots _ _ _ _ _ S)) as B. pose proof (sm_size _ _ _ _ _ S) as N. rewrite length_app. unfold OO_ACTOR_SLOTS in N. lia.
Qed.
Lemma held_waits (R : Queues) held lost (m : StrRef) : In m held -> In m (waiting R ++ held ++ lost).
Proof. intros I. apply in_or_app. right. apply in_or_app. by left. Qed.
Lemma keep_spec s A R held lost m : sim t s A R (held ++ lost) -> may (EKeep m) (held ++ lost) held ->
  follows s (EKeep m) A held lost ((let! _ := on_astrings (fun w => let* w := oo_str_retain m w in Ret (tt, w)) in ret None) s).
Proof.
  intros S [Hh I]. pose proof (rest_small _ _ _ _ S Hh) as Sm. pose proof S as [G O Ol P Ps Z0 F B W L T C]. pose proof (held_waits R held lost m I) as Im.
  pose proof C as (_ & Sn & _). rewrite List.Forall_forall in Sn. destruct (retain_counts _ _ m C Im Sm m eq_refl (Sn m Im)) as (w' & Er & C').
  unfold bind, on_astrings, lift. rewrite Er. cbn [run_bind ret]. unfold follows. cbn [spec_event fst snd held_after].
  assert (Pm : Permutation (waiting R ++ (m :: held) ++ lost) (m :: waiting R ++ held ++ lost)) by (cbn [app]; by rewrite <- Permutation_middle).
  eexists None, _, R, lost. split; [reflexivity|]. split; [done|]. split; [|by left]. split; try done.
  - split; [|by destruct L]. cbn [strings]. eapply retain_static; [exact Er|by destruct L|apply lit_not_owned].
  - cbn [texts]. rewrite Pm. constructor; [|done]. rewrite List.Forall_forall in T. by apply T.
  - cbn [strings]. by rewrite Pm.
Qed.
Lemma drop_spec s A R held lost m : sim t s A R (held ++ lost) -> may (EDrop m) (held ++ lost) held ->
  follows s (EDrop m) A held lost ((let! _ := on_astrings (release_data m) in ret None) s).
Proof.
  intros S [_ I]. pose proof S as [G O Ol P Ps Z0 F B W L T C].
  assert (Pm : Permutation (waiting R ++ held ++ lost) (m :: waiting R ++ remove_one m held ++ lost)).
  { rewrite (remove_one_perm m held I) at 1. cbn [app]. by rewrite <- Permutation_middle. }
  rewrite Pm in C. destruct (release_counts _ _ m C) as (w' & Er & C').
  assert (X : release_data m (strings s) = Ret (tt, w')).
  { unfold release_data. unfold oo_str_release in Er |- *. destruct (s_data m); [by rewrite Er|]. by apply Ret_inj in Er as <-. }
  unfold bind, on_astrings, lift. rewrite X. cbn [run_bind ret]. unfold follows. cbn [spec_event fst snd held_after].
  eexists None, _, R, lost. split; [reflexivity|]. split; [done|]. split; [|by left]. split; try done.
  - split; [|by destruct L]. cbn [strings]. eapply release_static; [exact Er|by destruct L|apply lit_not_owned].
  - cbn [texts]. rewrite Pm in T. by apply Forall_cons_1 in T as [_ T].
Qed.

(** The copy of a message: a new string with its first bytes, or the empty
    literal. *)
Lemma copy_spec s A R rest m : sim t s A R rest -> In m rest -> Z.of_nat (length rest) < 999800 ->
  exists c s', oo_act_copy malloc m s = Ret (c, s') /\ g_actors s' = g_actors s /\ acaps s' = acaps s /\ g_otp_once s' = g_otp_once s /\ joining s' = joining s /\
    text_of (texts s') c = take MESSAGE_MAX (text_of (texts s) m) /\ box_texts (texts s') R = box_texts (texts s) R /\
    (strings s' : gmap nat OoListHeader) !! 0%nat = Some lit_hdr /\ texts s' !! 0%nat = Some [] /\
    Forall (texted (texts s')) (c :: waiting R ++ rest) /\ counts (strings s') (c :: waiting R ++ rest).
Proof.
  intros S I Hh. pose proof (rest_small _ _ _ _ S Hh) as Sm. pose proof S as [G O Ol P Ps Z0 F B W [L1 L2] T C].
  assert (Im : In m (waiting R ++ rest)) by (apply in_or_app; by right). pose proof T as T'. rewrite List.Forall_forall in T'. specialize (T' m Im).
  pose proof C as (_ & Sn & _). rewrite List.Forall_forall in Sn. specialize (Sn m Im).
  assert (Empty : text_of (texts s) m = [] -> exists c s', Ret (empty_lit, s) = Ret (c, s') /\ g_actors s' = g_actors s /\ acaps s' = acaps s /\ g_otp_once s' = g_otp_once s /\ joining s' = joining s /\
    text_of (texts s') c = take MESSAGE_MAX (text_of (texts s) m) /\ box_texts (texts s') R = box_texts (texts s) R /\
    (strings s' : gmap nat OoListHeader) !! 0%nat = Some lit_hdr /\ texts s' !! 0%nat = Some [] /\
    Forall (texted (texts s')) (c :: waiting R ++ rest) /\ counts (strings s') (c :: waiting R ++ rest)).
  { intros E0. exists empty_lit, s. rewrite E0, take_nil. do 5 (split; [done|]). split; [done|]. split; [done|]. split; [done|]. split; [done|].
    split; [constructor; [|done]; exists []; done|]. eapply static_counts; [exact C|exact L1|apply lit_not_owned|done|done]. }
  unfold oo_act_copy, text_of, texted, sane, Strings in *. destruct (s_data m) as [a|] eqn:E0; [|by apply Empty]. destruct (Z.leb_spec (s_len m) 0) as [Z1|Z1].
  { apply Empty. by replace (Z.to_nat (s_len m)) with 0%nat by lia. }
  clear Empty. destruct (counts_live _ _ m a C Im E0) as [h Hh']. rewrite Hh'. destruct T' as (l & El & Ll). rewrite El. cbn [from_option Datatypes.id default].
  set (n := if Z.shiftl 1 20 <? s_len m then Z.shiftl 1 20 else s_len m).
  assert (Bn : 0 < n <= s_len m) by (unfold n; change (Z.shiftl 1 20) with 1048576; destruct (Z.ltb_spec 1048576 (s_len m)); lia).
  destruct (Z.ltb_spec (Z.of_nat (length l)) n); [lia|]. set (b := malloc (strings s)). pose proof (malloc_fresh (strings s)) as Fb. fold b in Fb.
  set (x := take (Z.to_nat n) l). assert (Lx : Z.of_nat (length x) = n) by (unfold x; rewrite length_take; lia).
  destruct (box_texts_ext (texts s) b x R rest _ C Fb T) as [Bx Tx]. unfold new_string, Strings in *. fold b x. eexists _, _. split; [reflexivity|]. cbn [g_actors acaps g_otp_once joining texts strings].
  do 4 (split; [done|]). cbn [s_data s_len]. rewrite lookup_insert_eq. cbn [from_option Datatypes.id].
  assert (Nb : b <> 0%nat) by congruence.
  split. { rewrite Nat2Z.id, take_ge by lia. unfold x. rewrite take_take. f_equal. unfold MESSAGE_MAX, n. change (Z.shiftl 1 20) with 1048576. destruct (Z.ltb_spec 1048576 (s_len m)); lia. }
  split; [exact Bx|]. split; [by rewrite lookup_insert_ne|]. split; [by rewrite lookup_insert_ne|].
  split; [constructor; [cbn [s_data s_len]; exists x; rewrite lookup_insert_eq; split; [done|lia]|exact Tx]|].
  apply fresh_counts; [exact C|exact Fb|exact Sm|]. unfold sane. cbn [s_len]. lia.
Qed.
Definition send_body (i : nat) (msg : StrRef) (a : OoActor) : ST astate MResS :=
  if OO_ACTOR_QDEPTH <=? rcount (mailbox a) then ret (err (ascii_bytes "actor_send: full"))
  else
    let! m := oo_act_copy malloc msg in
    let! _ := set_state (with_actor i (signal (with_mailbox (put_in OO_ACTOR_QDEPTH m (mailbox a)) a))) in
    ret (okt (ascii_bytes "sent")).
Lemma send_spec s A R held lost id m : sim t s A R (held ++ lost) -> may (ESend id m) (held ++ lost) held ->
  follows s (ESend id m) A held lost
   ((if (i32 id <? 0) || (OO_ACTOR_SLOTS <=? i32 id) then ret (Some (err (ascii_bytes "actor_send" ++ ascii_bytes ": bad id")))
     else let! st := get_state in let a := actor_at (Z.to_nat (i32 id)) st in if negb (live a) then ret (Some (err (ascii_bytes "actor_send" ++ ascii_bytes ": empty slot")))
     else answered (send_body (Z.to_nat (i32 id)) m a)) s).
Proof.
  intros S [Hh I]. apply (slot_op s (ESend id m) A R held lost id _ (fun a => answered (send_body (Z.to_nat (i32 id)) m a)) _ _ _ S eq_refl (fun _ => eq_refl)).
  intros i a q Ha Ho Sa Li Ei Out. unfold send_body. pose proof Sa as (Lm & La & Qa). rewrite (queued_count _ _ _ Qa). rewrite length_map in Out.
  destruct (Z.leb_spec OO_ACTOR_QDEPTH (Z.of_nat (length q))) as [Fl|Fl].
  { exact (follows_same s _ A R held lost false _ S Out eq_refl). }
  assert (Ir : In m (held ++ lost)) by (apply in_or_app; by left).
  destruct (copy_spec s A R (held ++ lost) m S Ir Hh) as (c & s1 & Ec & Eg & Ea & Eo & Ej & Et & Eb & El1 & El2 & Tx & Cx).
  unfold answered, bind, set_state. rewrite Ec. cbn [run_bind ret]. unfold follows. rewrite Out. cbn [fst snd held_after].
  eexists _, _, (<[i := Some (q ++ [c])]> R), lost. split; [reflexivity|]. split; [done|]. split; [|by left]. rewrite <- Ei.
  assert (Pm : Permutation (waiting (<[i := Some (q ++ [c])]> R) ++ held ++ lost) (c :: waiting R ++ held ++ lost)).
  { destruct (waiting_split R i _ Ho) as (l1 & l2 & -> & W'). rewrite W'. cbn [from_option Datatypes.id]. rewrite <- !app_assoc. cbn [app].
    rewrite (Permutation_middle l1), (Permutation_middle q). done. }
  destruct S as [G O Ol P Ps Z0 F B W L T C].
  split; cbn [with_actor acaps g_actors g_otp_once joining strings texts boxes once pend with_boxes]; rewrite ?Eg, ?Ea, ?Eo, ?Ej; try done.
  - by rewrite length_insert.
  - apply Forall2_insert; [done|]. unfold signal, slot_is. cbn [set_worker with_mailbox mailbox live]. split; [unfold put_in; cbn [msgs]; by rewrite length_insert|]. split; [done|].
    apply put_queued; [apply depth_positive|done|]. rewrite (queued_count _ _ _ Qa). done.
  - rewrite B, box_insert, Eb. cbn [option_map]. rewrite map_app. cbn [map]. rewrite Et. do 3 f_equal. 
    assert (X : Some (map (text_of (texts s)) q) = Some (map (text_of (texts s1)) q)).
    { pose proof (f_equal (fun l => l !! i) Eb) as X. rewrite !box_lookup, Ho in X. cbn in X. congruence. }
    by injection X as ->.
  - rewrite <- Eg. eapply workers_set; rewrite ?Ej; [by rewrite Eg| |done]. apply signal_ok. eapply worker_ok_ext; [exact (W i a Ha)|done..].
  - by rewrite Pm.
  - by rewrite Pm.
Qed.

(** Every event that can happen and that a program may cause returns, with
    the answer and the state of the abstract actors. *)
Lemma event_spec cap s e A R held lost : sim t s A R (held ++ lost) -> may e (held ++ lost) held -> opens cap t g_tok_thread = true -> enabled e s = true ->
  follows s e A held lost (do_event malloc cap e s).
Proof.
  intros S M Op En. pose proof (sim_checked _ _ _ _ S) as S'. cbn [enabled] in En.
  destruct e as [created nm|id m|id|id|id|id|created|i|i|m|m]; try (assert (J : joining s = None) by (cbn [enabled] in En; by destruct (joining s))); cbn [do_event].
  - unfold oo_actor_spawn. rewrite answered_bind, (agate cap s A R _ _ S), Op. exact (spawn_spec created nm (achecked s) A R held lost S' J).
  - unfold oo_actor_send. cbv zeta. rewrite answered_bind, (agate cap s A R _ _ S), Op.
    exact (eq_ind_r (follows s (ESend id m) A held lost) (send_spec (achecked s) A R held lost id m S' M) (answered_slot _ _ _ _ (send_body (Z.to_nat (i32 id)) m) _)).
  - unfold oo_actor_recv. cbv zeta. rewrite answered_bind, (agate cap s A R _ _ S), Op.
    exact (eq_ind_r (follows s (ERecv id) A held lost) (recv_spec (achecked s) A R held lost id S') (answered_slot _ _ _ _ (recv_body (Z.to_nat (i32 id))) _)).
  - unfold destroy_begin, stop_worker. cbv zeta. rewrite (agate cap s A R _ _ S), Op. exact (stop_spec _ PDestroy (EDestroy id) (achecked s) A R held lost id (fun _ => eq_refl) S' J (fun _ => eq_refl) eq_refl).
  - unfold restart_begin, stop_worker. cbv zeta. rewrite (agate cap s A R _ _ S), Op. exact (stop_spec _ PRestart (ERestart id) (achecked s) A R held lost id (fun _ => eq_refl) S' J (fun _ => eq_refl) eq_refl).
  - unfold supervise_begin. cbv zeta. rewrite (agate cap s A R _ _ S), Op. exact (supervise_spec (achecked s) A R held lost id S').
  - cbn [enabled] in En. unfold bind, get_state. cbn [run_bind]. destruct (joining s) as [[i|i]|] eqn:J; [| |done].
    + exact (destroy_end_spec s A R held lost i created S J).
    + exact (restart_end_spec s A R held lost i created S J).
  - exact (work_spec s A R held lost i S En).
  - exact (spurious_spec s A R held lost i S En).
  - exact (keep_spec s A R held lost m S M).
  - exact (drop_spec s A R held lost m S M).
Qed.

(** * Runs *)

Definition astart (c : cstate) (w : gmap nat OoListHeader) (tx : gmap nat (list Z)) : astate :=
  mkAs c (repeat closed_actor (Z.to_nat OO_ACTOR_SLOTS)) (repeat false (Z.to_nat OO_ACTOR_SLOTS)) None w tx.
Definition no_actors : amail := mkMail (repeat None (Z.to_nat OO_ACTOR_SLOTS)) (repeat false (Z.to_nat OO_ACTOR_SLOTS)) None.
(** The strings a program starts with: the empty literal, and what it holds. *)
Definition good_strings (w : gmap nat OoListHeader) (tx : gmap nat (list Z)) (held : list StrRef) : Prop :=
  w !! 0%nat = Some lit_hdr /\ tx !! 0%nat = Some [] /\ Forall (texted tx) held /\ counts w held.
Definition failures (e : event) : nat := match e with EFinish false => 1 | _ => 0 end.
(** What a program may cause, after [n] restarts that could not make a thread. *)
Definition causes (e : event) (held : list StrRef) (n : nat) : Prop :=
  Z.of_nat (length held) + 8 * Z.of_nat n < 999800 /\ match e with ESend _ m | EKeep m | EDrop m => In m held | _ => True end.
(** The runs of a program beside the abstract actors, with what it holds. *)
Inductive reach (cap : Z) : astate -> amail -> list StrRef -> nat -> Prop :=
| reach_start c w tx held : gate_ready t c -> good_strings w tx held -> reach cap (astart c w tx) no_actors held 0
| reach_step s A held n e r s' : reach cap s A held n -> causes e held n -> step malloc cap s e r s' ->
    reach cap s' (snd (spec_event (texts s) e A)) (held_after e r held) (n + failures e).

Lemma sim_start c w tx held : gate_ready t c -> good_strings w tx held -> sim t (astart c w tx) no_actors (repeat None (Z.to_nat OO_ACTOR_SLOTS)) held.
Proof.
  intros G (L1 & L2 & T & C). split; try done.
  - cbn [g_actors astart]. induction (Z.to_nat OO_ACTOR_SLOTS) as [|n IH]; cbn [repeat]; constructor; [split; done|exact IH].
  - intros i a H. cbn [g_actors astart joining] in *. apply list_elem_of_lookup_2, list_elem_of_In, repeat_spec in H as ->. by repeat split.
Qed.
Lemma lost_bound s A R rest tx e lost lost' : sim t s A R rest -> texts s = tx -> lost_more e A tx lost lost' -> (length lost' <= length lost + 8 * failures e)%nat.
Proof.
  intros S <- [->|(i & q & -> & -> & _ & B)]; [lia|]. rewrite length_app. cbn [failures]. destruct S as [_ _ _ _ _ _ F Bx _ _ _ _]. rewrite Bx, box_lookup in B.
  destruct (R !! i) as [[q'|]|] eqn:Ho; cbn in B; try done. destruct (Forall2_lookup_r _ _ _ _ _ F Ho) as (a & _ & _ & _ & Q).
  assert (X : map (text_of (texts s)) q' = map (text_of (texts s)) q) by congruence. apply (f_equal length) in X. rewrite !length_map in X.
  destruct Q as (_ & _ & _ & Cq & Bq & _). unfold OO_ACTOR_QDEPTH in Bq. lia.
Qed.
Lemma reach_sim cap s A held n : opens cap t g_tok_thread = true -> reach cap s A held n ->
  exists R lost, sim t s A R (held ++ lost) /\ (length lost <= 8 * n)%nat.
Proof.
  intros Op. induction 1 as [c w tx held G Gs|s A held n e r s' _ (R & lost & S & B) [L M] St].
  - eexists _, []. rewrite app_nil_r. split; [by apply sim_start|cbn; lia].
  - destruct St as [s e r s' En St]. assert (Ma : may e (held ++ lost) held) by (split; [rewrite length_app; lia|exact M]).
    destruct (event_spec cap s e A R held lost S Ma Op En) as (r' & s2 & R' & lost' & E2 & _ & S2 & Lm). rewrite St in E2.
    apply Ret_inj, pair_equal_spec in E2 as [<- <-]. exists R', lost'. split; [exact S2|]. pose proof (lost_bound _ _ _ _ _ _ _ _ S eq_refl Lm). lia.
Qed.

(** C24.  Actors refine bounded mailboxes of byte strings, whatever the
    interleaving with their workers.  In every state that a program with the
    ThreadCap token reaches, each mailbox holds at most eight messages, every
    message and every string held is live and its count is the number of its
    references; and every event that can happen then returns, with the answer of
    the abstract actors: messages come back in order, each the copy of the bytes
    sent (at most 2^20), a restart keeps the mailbox, destroying empties it.
    The references that nobody has are the messages of restarts that could not
    make a thread, at most eight for each. *)
Theorem actors_refine_mailboxes cap s A held n : opens cap t g_tok_thread = true -> reach cap s A held n ->
  (exists queues lost, counts (strings s) (waiting queues ++ held ++ lost) /\ boxes A = box_texts (texts s) queues /\ (length lost <= 8 * n)%nat) /\
  Forall (fun o => match o with Some q => Z.of_nat (length q) <= OO_ACTOR_QDEPTH | None => True end) (boxes A) /\
  forall e, enabled e s = true -> causes e held n -> exists r s', step malloc cap s e r s' /\
    answer_is (texts s') r (fst (spec_event (texts s) e A)) /\
    reach cap s' (snd (spec_event (texts s) e A)) (held_after e r held) (n + failures e).
Proof.
  intros Op Re. destruct (reach_sim cap s A held n Op Re) as (R & lost & S & B). split; [|split].
  - exists R, lost. destruct S. done.
  - destruct S as [_ _ _ _ _ _ F -> _ _ _ _]. clear - F. induction F as [|a o l R [_ H] _ IH]; [constructor|]. unfold box_texts. cbn [map]. constructor; [|exact IH].
    destruct o as [q|]; [|done]. cbn [option_map]. rewrite length_map. destruct H as (_ & _ & _ & _ & L & Bq & _). lia.
  - intros e En Ca. pose proof Ca as [L M]. assert (Ma : may e (held ++ lost) held) by (split; [rewrite length_app; lia|exact M]).
    destruct (event_spec cap s e A R held lost S Ma Op En) as (r & s' & R' & lost' & E2 & An & _). exists r, s'. 
    assert (St : step malloc cap s e r s') by (by constructor). split; [exact St|]. split; [exact An|]. by eapply reach_step.
Qed.

Lemma step_inv cap s e r s' : step malloc cap s e r s' -> enabled e s = true /\ do_event malloc cap e s = Ret (r, s').
Proof. by destruct 1. Qed.

(** C25.  A call that waits for a worker is not blocked for ever.  In every state
    that a program reaches in which destroying or restarting an actor waits for
    its worker: the worker is not asleep; one step of it, which can happen at
    once, ends it; when it has ended the call goes on; and nothing that other
    threads do in between changes where the worker is or ends the wait. *)
Theorem actor_join_terminates cap s A held n p : opens cap t g_tok_thread = true -> reach cap s A held n -> joining s = Some p ->
  let i := pending_slot p in
  worker (actor_at i s) <> Some WWait /\
  (worker (actor_at i s) = Some WDone -> forall created, enabled (EFinish created) s = true /\ exists r s', step malloc cap s (EFinish created) (Some r) s' /\ joining s' = None) /\
  (worker (actor_at i s) <> Some WDone -> exists s', step malloc cap s (EWork i) None s' /\ worker (actor_at i s') = Some WDone /\ joining s' = Some p) /\
  (forall e r s', step malloc cap s e r s' -> causes e held n -> e = EWork i \/ (exists created, e = EFinish created) \/
     (joining s' = Some p /\ worker (actor_at i s') = worker (actor_at i s))).
Proof.
  intros Op Re J. cbv zeta. destruct (reach_sim cap s A held n Op Re) as (R & lost & S & B).
  destruct (waiting_slot s A R _ _ S J) as (a & q & Ha & Aa & _ & _ & Wa & _). unfold worker_ok in Wa. rewrite J in Wa. cbn [waits] in Wa. rewrite Nat.eqb_refl in Wa.
  rewrite Aa. destruct (worker a) as [w|] eqn:Ew; [|by destruct Wa as (_ & _ & ?)]. destruct Wa as (La & Sa & Nw & _). specialize (Nw Sa).
  split; [congruence|]. split; [|split].
  - intros [= ->] created. assert (En : enabled (EFinish created) s = true) by (cbn [enabled]; by rewrite J, Aa, Ew). split; [exact En|].
    assert (D : exists r s', do_event malloc cap (EFinish created) s = Ret (Some r, s') /\ joining s' = None).
    { cbn [do_event]. unfold bind, get_state. cbn [run_bind]. rewrite J. destruct p as [i|i]; cbn [join_end pending_slot] in *.
      - destruct (destroy_end_spec s A R held lost i created S J) as (r & s' & R' & lost' & Ee & An & Sm & _). rewrite Ee. cbn [spec_event] in *. rewrite <- (sm_pend _ _ _ _ _ S), J in An, Sm.
        cbn [answer_is fst] in An. subst r. eexists _, s'. split; [done|]. exact (sm_pend _ _ _ _ _ Sm).
      - destruct (restart_end_spec s A R held lost i created S J) as (r & s' & R' & lost' & Ee & An & Sm & _). rewrite Ee. cbn [spec_event] in *. rewrite <- (sm_pend _ _ _ _ _ S), J in An, Sm.
        destruct created; cbn [answer_is fst] in An; subst r; eexists _, s'; (split; [done|]); exact (sm_pend _ _ _ _ _ Sm). }
    destruct D as (r & s' & D & Js). exists r, s'. split; [by constructor|done].
  - intros Nd. assert (Ws : exists a', worker_step a = Some a' /\ worker a' = Some WDone).
    { unfold worker_step, worker_test. rewrite Ew. destruct w; [|done| |done]; eexists; (split; [reflexivity|]); cbn [set_worker stop_req live]; rewrite Sa; done. }
    destruct Ws as (a' & Ew' & Da). exists (with_actor (pending_slot p) a' s). split; [|split; [|done]].
    + constructor; cbn [enabled do_event]; by rewrite Aa, Ew'.
    + unfold actor_at. cbn [g_actors with_actor]. rewrite nth_lookup, list_lookup_insert_eq; [done|]. by apply lookup_lt_Some in Ha.
  - intros e r s' St Ca. apply step_inv in St as [En St]. assert (Eq : forall x y : option MResS * astate, Ret x = Ret y -> x = y) by (intros; by apply Ret_inj).
    assert (Other : forall j a2, j <> pending_slot p -> worker (actor_at (pending_slot p) (with_actor j a2 s)) = Some w).
    { intros j a2 N. unfold actor_at. cbn [g_actors with_actor]. rewrite nth_lookup, list_lookup_insert_ne by done. rewrite Ha. exact Ew. }
    destruct e as [created nm|id m|id|id|id|id|created|j|j|m|m]; cbn [enabled] in En; try (rewrite J in En; discriminate); try (right; left; by exists created).
    + destruct (decide (j = pending_slot p)) as [->|N]; [by left|]. right. right. cbn [do_event] in St. destruct (worker_step (actor_at j s)) as [a2|]; [|done].
      apply Eq, pair_equal_spec in St as [_ <-]. split; [done|by apply Other].
    + assert (N : j <> pending_slot p) by (intros ->; rewrite Aa, Ew in En; by destruct w). right. right. cbn [do_event] in St. apply Eq, pair_equal_spec in St as [_ <-].
      split; [done|by apply Other].
    + right. right. cbn [do_event] in St. unfold bind, on_astrings, lift in St. destruct (oo_str_retain m (strings s)); cbn [run_bind ret] in St; [|done|done].
      apply Eq, pair_equal_spec in St as [_ <-]. split; [done|]. unfold actor_at. cbn [g_actors]. by rewrite nth_lookup, Ha.
    + right. right. cbn [do_event] in St. unfold bind, on_astrings, lift in St. destruct (release_data m (strings s)) as [[[] w']| |]; cbn [run_bind ret] in St; [|done|done].
      apply Eq, pair_equal_spec in St as [_ <-]. split; [done|]. unfold actor_at. cbn [g_actors]. by rewrite nth_lookup, Ha.
Qed.

(** Nothing lets a slot be supervised again. *)
Lemma once_stays tx e A i : nth i (once A) false = true -> nth i (once (snd (spec_event tx e A))) false = true.
Proof.
  intros H. destruct e; cbn [spec_event]; unfold on_box; repeat case_match; cbn [snd once with_boxes]; try done.
  destruct (decide (i = n)) as [->|N]; [|by rewrite nth_lookup, list_lookup_insert_ne, <- nth_lookup].
  rewrite nth_lookup, list_lookup_insert_eq; [done|]. destruct (Nat.lt_ge_cases n (length (once A))) as [L|L]; [done|]. by rewrite (nth_overflow (once A)) in H.
Qed.
End proofs.

(** * Witnesses *)

Definition wit_malloc (w : gmap nat OoListHeader) : nat := fresh (dom w : gset nat).
Lemma wit_malloc_fresh w : w !! wit_malloc w = None.
Proof. apply (not_elem_of_dom (D := gset nat)). exact (is_fresh (dom w : gset nat)). Qed.
Definition wit_message : StrRef := mkSr (Some 1%nat) 2.
Definition wit_headers : gmap nat OoListHeader := <[1%nat := mkHdr 1 0]> {[ 0%nat := lit_hdr ]}.
Definition wit_bytes : gmap nat (list Z) := <[1%nat := [104; 105]]> {[ 0%nat := [] ]}.
Lemma wit_good : good_strings wit_headers wit_bytes [wit_message].
Proof.
  split; [done|]. split; [done|]. split; [repeat constructor; by exists [104; 105]|]. split; [done|]. split; [repeat constructor; done|]. intros a. unfold wit_headers.
  destruct (decide (a = 1%nat)) as [->|N]; [rewrite lookup_insert_eq; intros _; vm_compute; split; [done|lia]|].
  rewrite lookup_insert_ne by done. assert (Z0 : occ a [wit_message] = 0%nat) by (rewrite occ_cons, (refers_other 1 a) by done; done). rewrite Z0.
  destruct (decide (a = 0%nat)) as [->|N0]; [rewrite lookup_singleton_eq; intros O; by apply lit_not_owned in O|by rewrite lookup_singleton_ne].
Qed.
Definition wit_cap : Z := Eval vm_compute in g_tok_thread wit_tokens.
Definition wit_start : astate := astart wit_granted wit_headers wit_bytes.
Definition wit_do (e : event) (s : astate) : astate := match @do_event wit_entropy wit_malloc wit_cap e s with Ret (_, s') => s' | _ => s end.
(** An actor is made, gets a message and is to be destroyed. *)
Definition wit_spawned : astate := wit_do (ESpawn true (str_of [97])) wit_start.
Definition wit_sent : astate := wit_do (ESend 0 wit_message) wit_spawned.
Definition wit_joining : astate := wit_do (EDestroy 0) wit_sent.
Abbreviation wit_reach := (@reach wit_entropy wit_malloc wit_tokens wit_cap).
Lemma wit_reach_sent : exists A, wit_reach wit_sent A [wit_message] 0.
Proof.
  eexists. refine (reach_step wit_malloc wit_tokens wit_cap wit_spawned _ [wit_message] 0 (ESend 0 wit_message) _ wit_sent
    (reach_step wit_malloc wit_tokens wit_cap wit_start _ [wit_message] 0 (ESpawn true (str_of [97])) _ wit_spawned (reach_start _ _ _ _ _ _ _ wit_gate wit_good) _ _) _ _).
  - by split.
  - constructor; vm_compute; reflexivity.
  - split; [done|by left].
  - constructor; vm_compute; reflexivity.
Qed.
Lemma actors_refine_mailboxes_witness : exists A r s', @step wit_entropy wit_malloc wit_cap wit_sent (ERecv 0) r s' /\
  answer_is (texts s') r (fst (spec_event (texts wit_sent) (ERecv 0) A)).
Proof.
  destruct wit_reach_sent as [A Re]. exists A.
  destruct (actors_refine_mailboxes (E := wit_entropy) wit_malloc wit_malloc_fresh wit_tokens wit_cap wit_sent A [wit_message] 0 eq_refl Re) as (_ & _ & H).
  destruct (H (ERecv 0) ltac:(vm_compute; reflexivity) ltac:(by split)) as (r & s' & St & An & _). exists r, s'. split; [exact St|exact An].
Defined.
Lemma actor_join_terminates_witness : exists s', @step wit_entropy wit_malloc wit_cap wit_joining (EWork 0) None s' /\ worker (actor_at 0 s') = Some WDone.
Proof.
  destruct wit_reach_sent as [A Re].
  assert (Re2 : exists A', wit_reach wit_joining A' [wit_message] 0).
  { eexists. refine (reach_step wit_malloc wit_tokens wit_cap wit_sent A [wit_message] 0 (EDestroy 0) _ wit_joining Re _ _); [by split|constructor; vm_compute; reflexivity]. }
  destruct Re2 as [A' Re2].
  destruct (actor_join_terminates (E := wit_entropy) wit_malloc wit_malloc_fresh wit_tokens wit_cap wit_joining A' [wit_message] 0 (PDestroy 0) eq_refl Re2 ltac:(vm_compute; reflexivity)) as (_ & _ & H & _).
  destruct H as (s' & St & D & _); [vm_compute; discriminate|]. exists s'. split; [exact St|exact D].
Defined.
(** The whole of a destruction, without other threads. *)
Example destroys : exists s', @oo_actor_destroy wit_entropy wit_cap 0 wit_sent = Ret (okt (ascii_bytes "destroyed"), s') /\ strings s' !! 2%nat = None.
Proof. eexists. vm_compute. split; reflexivity. Qed.
(** A slot is supervised once, even when another actor has it. *)
Example supervised_once :
  match (let! r1 := @oo_actor_destroy wit_entropy wit_cap 0 in let! r2 := @oo_actor_spawn wit_entropy true wit_cap (str_of [98]) in
         let! r3 := @oo_otp_supervise wit_entropy true wit_cap 0 in ret [r1; r2; r3]) (wit_do (ESupervise 0) wit_spawned) with
  | Ret (rs, _) => rs = [okt (ascii_bytes "destroyed"); okt (ascii_bytes "actor:0"); err (ascii_bytes "otp_supervise: already")]
  | _ => False
  end.
Proof. vm_compute. reflexivity. Qed.
