(* ===== verification/Rpc.v ===== *)
(** Signed messages between actors ([app/actor/actor_rpc.c]): a payload of at
    most 192 bytes after the HMAC of it under the capability, behind the
    SignCap gate.

    The key of the HMAC is the capability in hexadecimal.  A payload that has a
    length and no bytes is [Undefined]: the code hashes and sends memory that
    nothing wrote. *)
From S2P Require Import Prelude Str Hex Sha2 Caps Mailbox.
From Stdlib Require String.
Import (notations) String.
Open Scope Z_scope.

Definition RPC_MAC_LEN : nat := 64.
Definition RPC_PAYLOAD_MAX : Z := 192.
(** ["%llx"]. *)
Fixpoint llx_digits (fuel : nat) (n : Z) (acc : list Z) : list Z :=
  match fuel with
  | O => acc
  | S fuel => let d := n mod 16 in let acc := (if d <? 10 then 48 + d else 87 + d) :: acc in if n <? 16 then acc else llx_digits fuel (n / 16) acc
  end.
Definition llx (cap : Z) : list Z := llx_digits 16 (u64 cap) [].
Definition oo_rpc_mac (cap : Z) (payload : OoStr) : OoStr := crypto_hmac_sha256_internal (str_of (llx cap)) payload.

Section rpc.
Context {E : Entropy}.
Definition oo_cap_rpc_send (cap : Z) (payload : OoStr) : ST cstate OoResS :=
  let! _ := oo_cap_require_sign cap in
  let bad := mkResS false (oo_str_lit "cap_rpc_send: bad payload") in
  if (slen payload <? 0) || (RPC_PAYLOAD_MAX <? slen payload) then ret bad
  else if match sdata payload with None => 0 <? slen payload | Some _ => false end then undef
  else
    let mac := oo_rpc_mac cap payload in
    match sdata mac with
    | None => ret bad
    | Some m =>
        if negb (slen mac =? 64) then ret bad
        else
          ret (mkResS true (mkStr (Some (take RPC_MAC_LEN m ++ hash_operand payload)) (64 + slen payload)))
    end.
Definition oo_cap_rpc_recv (cap : Z) (sealed : OoStr) : ST cstate OoResS :=
  let! _ := oo_cap_require_sign cap in
  let bad := mkResS false (oo_str_lit "cap_rpc_recv: hmac") in
  match sdata sealed with
  | None => ret bad
  | Some d =>
      if slen sealed <? 64 then ret bad
      else
        let pay := mkStr (Some (drop RPC_MAC_LEN d)) (slen sealed - 64) in
        let mac := oo_rpc_mac cap pay in
        if negb (slen mac =? 64) || negb (crypto_ct_cmp (sdata mac) (Some d) RPC_MAC_LEN =? 0) then ret bad
        else ret (mkResS true (mkStr (Some (take (Z.to_nat (slen pay)) (drop RPC_MAC_LEN d))) (slen pay)))
  end.

Lemma gate_sign cap t c : gate_ready t c -> oo_cap_require_sign cap c = if opens cap t g_tok_sign then Ret (tt, after_check c) else Exited 1.
Proof.
  intros (S & R & F). pose proof (gate1_spec cap c t g_tok_sign S R ltac:(in_tokens)) as G. cbn [gate_spec] in G. unfold oo_cap_require_sign. rewrite G, F. done.
Qed.
Definition mac_of (cap : Z) (p : list Z) : list Z := hex_of (hmac_from_block (hmac_key_block (str_of (llx cap))) p) 32.
Lemma mac_sized cap p : length (mac_of cap p) = RPC_MAC_LEN /\ bytes (mac_of cap p).
Proof. split; [unfold mac_of; by rewrite length_hex_of|apply bytes_hex_of]. Qed.
Lemma mac_run cap d n : 0 <= n -> (Z.to_nat n <= length d)%nat ->
  oo_rpc_mac cap (mkStr (Some d) n) = str_of (mac_of cap (take (Z.to_nat n) d)).
Proof.
  intros H L. unfold oo_rpc_mac, crypto_hmac_sha256_internal, str_of. cbn [slen]. destruct (Z.ltb_spec (Z.of_nat (length (llx cap))) 0); [lia|]. destruct (Z.ltb_spec n 0); [lia|].
  cbn [orb]. unfold mac_of, hash_operand. cbn [sdata slen]. done.
Qed.

(** The text of a payload that was sent. *)
Definition sealed_of (cap : Z) (p : list Z) : OoStr := mkStr (Some (mac_of cap p ++ p)) (64 + Z.of_nat (length p)).
Lemma rpc_send_run cap t c payload p : gate_ready t c -> opens cap t g_tok_sign = true -> sdata payload = Some p -> slen payload = Z.of_nat (length p) ->
  oo_cap_rpc_send cap payload c =
  Ret (if RPC_PAYLOAD_MAX <? Z.of_nat (length p) then mkResS false (oo_str_lit "cap_rpc_send: bad payload") else mkResS true (sealed_of cap p), after_check c).
Proof.
  intros G O Ed El. assert (Em : oo_rpc_mac cap payload = str_of (mac_of cap p)).
  { destruct payload as [d n]. cbn [sdata slen] in *. subst d n. rewrite (mac_run cap p (Z.of_nat (length p))) by lia. by rewrite Nat2Z.id, take_ge by lia. }
  unfold oo_cap_rpc_send, bind. rewrite (gate_sign cap t c G), O. cbn [run_bind]. rewrite Em, El, Ed. destruct (Z.ltb_spec (Z.of_nat (length p)) 0); [lia|]. cbn [orb].
  destruct (RPC_PAYLOAD_MAX <? Z.of_nat (length p)); [done|]. destruct (mac_sized cap p) as [L _]. unfold str_of. cbn [sdata slen]. rewrite L. change (Z.of_nat RPC_MAC_LEN) with 64. cbn [Z.eqb negb Pos.eqb].
  unfold sealed_of, hash_operand. rewrite Ed, El, Nat2Z.id, (take_ge p), (take_ge (mac_of cap p)) by lia. done.
Qed.
(** What receiving accepts: the HMAC of what follows it. *)
Lemma rpc_recv_run cap t c sealed d : gate_ready t c -> opens cap t g_tok_sign = true -> wf_str sealed -> sdata sealed = Some d ->
  oo_cap_rpc_recv cap sealed c =
  Ret (if (64 <=? slen sealed) && bool_decide (take RPC_MAC_LEN d = mac_of cap (slice RPC_MAC_LEN (Z.to_nat (slen sealed - 64)) d))
       then mkResS true (str_of (slice RPC_MAC_LEN (Z.to_nat (slen sealed - 64)) d)) else mkResS false (oo_str_lit "cap_rpc_recv: hmac"), after_check c).
Proof.
  intros G O [H0 W] Ed. rewrite Ed in W. destruct W as [Ld Bd]. unfold oo_cap_rpc_recv, bind. rewrite (gate_sign cap t c G), O. cbn [run_bind]. rewrite Ed.
  destruct (Z.ltb_spec (slen sealed) 64); destruct (Z.leb_spec 64 (slen sealed)); try lia; [done|]. cbn [andb]. cbv zeta.
  assert (Lr : (Z.to_nat (slen sealed - 64) <= length (drop RPC_MAC_LEN d))%nat) by (rewrite length_drop; unfold RPC_MAC_LEN; lia).
  rewrite (mac_run cap (drop RPC_MAC_LEN d) (slen sealed - 64)) by (done || lia). fold (slice RPC_MAC_LEN (Z.to_nat (slen sealed - 64)) d). set (p := slice _ _ d).
  assert (Lp : Z.of_nat (length p) = slen sealed - 64) by (unfold p; rewrite length_slice; unfold RPC_MAC_LEN; lia).
  destruct (mac_sized cap p) as [L Bm]. cbn [str_of sdata slen]. rewrite L. change (Z.of_nat RPC_MAC_LEN =? 64) with true. cbn [negb orb].
  assert (C : crypto_ct_cmp (Some (mac_of cap p)) (Some d) RPC_MAC_LEN = 0 <-> mac_of cap p = take RPC_MAC_LEN d).
  { assert (X : crypto_ct_cmp (Some (mac_of cap p)) (Some d) RPC_MAC_LEN = crypto_ct_cmp (Some (mac_of cap p)) (Some (take RPC_MAC_LEN d)) RPC_MAC_LEN).
    { cbn [crypto_ct_cmp]. apply for_ext. intros i x Hi. by rewrite get_take by lia. }
    rewrite X. apply crypto_ct_cmp_zero; [done|by apply bytes_take|done|]. rewrite length_take. unfold RPC_MAC_LEN. lia. }
  destruct (Z.eqb_spec (crypto_ct_cmp (Some (mac_of cap p)) (Some d) RPC_MAC_LEN) 0) as [Q|Q]; cbn [negb].
  - apply C in Q. rewrite bool_decide_eq_true_2 by done. unfold str_of. by rewrite Lp.
  - rewrite bool_decide_eq_false_2; [done|]. intros Q'. apply Q, C. done.
Qed.

(** C27.  Messages are authenticated.  Under a token that opens the SignCap gate,
    a payload of at most 192 bytes that was sent is received as it was sent, and
    a longer one is refused; and a text of at least 64 bytes is received exactly
    when its first 64 bytes are the HMAC of the rest under the token, which is
    then the payload. *)
Theorem rpc_authentic cap t c : gate_ready t c -> opens cap t g_tok_sign = true ->
  (forall p, bytes p -> Z.of_nat (length p) <= RPC_PAYLOAD_MAX ->
     oo_cap_rpc_send cap (str_of p) c = Ret (mkResS true (sealed_of cap p), after_check c) /\
     oo_cap_rpc_recv cap (sealed_of cap p) (after_check c) = Ret (mkResS true (str_of p), after_check (after_check c))) /\
  (forall p, RPC_PAYLOAD_MAX < Z.of_nat (length p) -> oo_cap_rpc_send cap (str_of p) c = Ret (mkResS false (oo_str_lit "cap_rpc_send: bad payload"), after_check c)) /\
  (forall sealed d r c', wf_str sealed -> sdata sealed = Some d -> oo_cap_rpc_recv cap sealed c = Ret (mkResS true r, c') ->
     exists p, take (Z.to_nat (slen sealed)) d = mac_of cap p ++ p /\ r = str_of p).
Proof.
  intros G O. split; [|split].
  - intros p B L. split; [rewrite (rpc_send_run cap t c (str_of p) p G O) by done; by destruct (Z.ltb_spec RPC_PAYLOAD_MAX (Z.of_nat (length p))); [lia|]|].
    destruct (mac_sized cap p) as [Lm Bm]. assert (W : wf_str (sealed_of cap p)).
    { split; cbn [slen sdata sealed_of]; [lia|]. split; [rewrite length_app, Lm; unfold RPC_MAC_LEN; lia|by rewrite bytes_app]. }
    rewrite (rpc_recv_run cap t _ _ _ (gate_ready_after t c G) O W eq_refl). cbn [slen sealed_of]. destruct (Z.leb_spec 64 (64 + Z.of_nat (length p))); [|lia].
    replace (Z.to_nat (64 + Z.of_nat (length p) - 64)) with (length p) by lia.
    assert (Es : slice RPC_MAC_LEN (length p) (mac_of cap p ++ p) = p).
    { unfold slice. rewrite (drop_app_length' (mac_of cap p)) by done. by apply take_ge. }
    rewrite Es, (take_app_length' (mac_of cap p)) by done. by rewrite bool_decide_eq_true_2.
  - intros p L. rewrite (rpc_send_run cap t c (str_of p) p G O) by done. by destruct (Z.ltb_spec RPC_PAYLOAD_MAX (Z.of_nat (length p))); [|lia].
  - intros sealed d r c' W Ed R. rewrite (rpc_recv_run cap t c sealed d G O W Ed) in R. destruct (Z.leb_spec 64 (slen sealed)) as [L|L]; cbn [andb] in R; [|done].
    set (p := slice RPC_MAC_LEN (Z.to_nat (slen sealed - 64)) d) in *. destruct (bool_decide (take RPC_MAC_LEN d = mac_of cap p)) eqn:B; [|done].
    apply bool_decide_eq_true in B. apply Ret_inj, pair_equal_spec in R as [R _]. exists p. split; [|congruence].
    rewrite <- B. unfold p, slice, RPC_MAC_LEN. replace (Z.to_nat (slen sealed)) with (64 + Z.to_nat (slen sealed - 64))%nat by lia. symmetry. apply take_take_drop.
Qed.
End rpc.

Lemma rpc_authentic_witness : let c := after_check wit_granted in
  oo_cap_rpc_recv (E := wit_entropy) (g_tok_sign wit_tokens) (sealed_of (g_tok_sign wit_tokens) [1; 2; 3]) c = Ret (mkResS true (str_of [1; 2; 3]), after_check c).
Proof.
  apply (proj1 (rpc_authentic (E := wit_entropy) (g_tok_sign wit_tokens) wit_tokens wit_granted wit_gate eq_refl) [1; 2; 3]); [by apply bytesb_ok|done].
Defined.
