(* ===== verification/Closure.v ===== *)
(** Closures ([app/actor/actor_closure.c]): a function, its environment and a
    destructor; an environment on the heap is counted.

    The environments on the heap are a store by address, with their headers and
    bytes.  A destructor is the application's: the calls of destructors are
    logged, what they do is not modelled.  [malloc] says where an environment
    goes. *)
From S2P Require Import Prelude Str Lists.
From stdpp Require Import gmap.
Open Scope Z_scope.

Definition OO_FLAG_STATIC : Z := 1.
Record OoFlatEnvHeader := mkEnv { env_count : Z; env_flags : Z; env_dtor : option nat; env_payload : list Z }.
Record OoClosure := mkClo { fn : nat; env : option nat; dtor : option nat }.
Record clstate := mkCl { envs : gmap nat OoFlatEnvHeader; dtor_calls : list (nat * nat) }.

Section closure.
Variable malloc : gmap nat OoFlatEnvHeader -> nat.

Definition oo_closure_stack (f : nat) (stack_env : option nat) : OoClosure := mkClo f stack_env None.
Definition oo_closure_flat_alloc (data : list Z) (d : option nat) : ST clstate nat := fun s =>
  let a := malloc (envs s) in Ret (a, mkCl (<[a := mkEnv 1 0 d data]> (envs s)) (dtor_calls s)).
(** [env_data] is [None] for NULL; the size is its length. *)
Definition oo_closure_heap_create (f : nat) (env_data : option (list Z)) (d : option nat) : ST clstate OoClosure :=
  match env_data with
  | Some data => if (0 <? length data)%nat then let! a := oo_closure_flat_alloc data d in ret (mkClo f (Some a) d) else ret (mkClo f None d)
  | None => ret (mkClo f None d)
  end.
Definition set_env (a : nat) (e : OoFlatEnvHeader) (s : clstate) : clstate := mkCl (<[a := e]> (envs s)) (dtor_calls s).
(** One round of the compare-and-swap loop, with no other thread. *)
Definition oo_closure_flat_retain (e : option nat) : ST clstate unit := fun s =>
  match e with
  | None => Ret (tt, s)
  | Some a =>
      match envs s !! a with
      | None => Undefined
      | Some h =>
          if negb (Z.land (env_flags h) OO_FLAG_STATIC =? 0) then Ret (tt, s)
          else if (0 <? env_count h) && (env_count h <? UINT32_MAX)
          then Ret (tt, set_env a (mkEnv (env_count h + 1) (env_flags h) (env_dtor h) (env_payload h)) s)
          else Ret (tt, s)
      end
  end.
Definition oo_closure_flat_release (e : option nat) : ST clstate unit := fun s =>
  match e with
  | None => Ret (tt, s)
  | Some a =>
      match envs s !! a with
      | None => Undefined
      | Some h =>
          if negb (Z.land (env_flags h) OO_FLAG_STATIC =? 0) then Ret (tt, s)
          else if env_count h =? 1
          then Ret (tt, mkCl (delete a (envs s)) (match env_dtor h with Some d => (d, a) :: dtor_calls s | None => dtor_calls s end))
          else Ret (tt, set_env a (mkEnv (u32 (env_count h - 1)) (env_flags h) (env_dtor h) (env_payload h)) s)
      end
  end.
Definition oo_closure_retain (c : OoClosure) : ST clstate unit :=
  match env c, dtor c with Some _, Some _ => oo_closure_flat_retain (env c) | _, _ => ret tt end.
Definition oo_closure_release (c : OoClosure) : ST clstate unit :=
  match env c, dtor c with Some _, Some _ => oo_closure_flat_release (env c) | _, _ => ret tt end.

(** A history of one closure: [true] retains, [false] releases. *)
Fixpoint history (c : OoClosure) (ops : list bool) : ST clstate unit :=
  match ops with
  | [] => ret tt
  | b :: ops => let! _ := (if b then oo_closure_retain c else oo_closure_release c) in history c ops
  end.
(** The count along a history that starts at [n], as long as it is held; [None]
    when a handle is used after the last. *)
Fixpoint balance (n : nat) (ops : list bool) : option nat :=
  match ops with
  | [] => Some n
  | b :: ops => match n with O => None | S m => balance (if b then S n else m) ops end
  end.

Lemma history_counts d a data f ops : forall n k s, envs s !! a = Some (mkEnv (Z.of_nat (S n)) 0 (Some d) data) -> Z.of_nat (S n + length ops) < UINT32_MAX ->
  balance (S n) ops = Some k ->
  history (mkClo f (Some a) (Some d)) ops s =
  Ret (tt, if (k =? 0)%nat then mkCl (delete a (envs s)) ((d, a) :: dtor_calls s) else set_env a (mkEnv (Z.of_nat k) 0 (Some d) data) s).
Proof.
  induction ops as [|b ops IH]; intros n k s Ea L Bk; cbn [balance length] in *.
  - injection Bk as <-. cbn [history Nat.eqb ret]. unfold set_env. by destruct s as [h l]; cbn in *; rewrite insert_id.
  - destruct b; cbn [history]; unfold oo_closure_retain, oo_closure_release; cbn [env dtor]; unfold bind, oo_closure_flat_retain, oo_closure_flat_release; rewrite Ea; cbn [env_flags env_count env_dtor env_payload].
    + change (Z.land 0 OO_FLAG_STATIC =? 0) with true. cbn [negb]. unfold UINT32_MAX in *. destruct (Z.ltb_spec 0 (Z.of_nat (S n))); [|lia]. destruct (Z.ltb_spec (Z.of_nat (S n)) 4294967295); [|lia].
      cbn [andb run_bind]. rewrite (IH (S n) k) by (cbn [set_env envs]; rewrite ?lookup_insert_eq; try done; try lia; do 2 f_equal; lia).
      destruct (k =? 0)%nat; unfold set_env; cbn [envs dtor_calls]; [by rewrite delete_insert_eq|by rewrite insert_insert_eq].
    + change (Z.land 0 OO_FLAG_STATIC =? 0) with true. cbn [negb]. destruct (Z.eqb_spec (Z.of_nat (S n)) 1) as [E|E]; cbn [run_bind].
      * assert (n = 0%nat) as -> by lia. destruct ops; cbn [balance] in Bk; [injection Bk as <-; done|done].
      * destruct n as [|n]; [done|]. unfold UINT32_MAX in L. rewrite u32_id by lia. rewrite (IH n k); [|cbn [set_env envs]; rewrite lookup_insert_eq; do 2 f_equal; lia|unfold UINT32_MAX; lia|done].
        destruct (k =? 0)%nat; unfold set_env; cbn [envs dtor_calls]; [by rewrite delete_insert_eq|by rewrite insert_insert_eq].
Qed.

(** C28.  Closures on the heap are counted, when they have a destructor.  From
    its creation, along any history of fewer than 2^32 retains and releases that
    does not use the closure after its last release, the environment is there
    with its bytes and the exact count; the last release frees it and calls the
    destructor once, on it.  A closure made without a destructor is never
    freed: retaining and releasing it change nothing. *)
Theorem closure_counts f data s : envs s !! malloc (envs s) = None -> data <> [] ->
  let a := malloc (envs s) in
  (forall d ops k, Z.of_nat (length ops) < UINT32_MAX - 1 -> balance 1 ops = Some k ->
     (let! c := oo_closure_heap_create f (Some data) (Some d) in history c ops) s =
     Ret (tt, if (k =? 0)%nat then mkCl (envs s) ((d, a) :: dtor_calls s) else mkCl (<[a := mkEnv (Z.of_nat k) 0 (Some d) data]> (envs s)) (dtor_calls s))) /\
  (forall ops, (let! c := oo_closure_heap_create f (Some data) None in history c ops) s = Ret (tt, mkCl (<[a := mkEnv 1 0 None data]> (envs s)) (dtor_calls s))).
Proof.
  intros Fr N. cbv zeta. assert (Ld : (0 <? length data)%nat = true) by (destruct data; [done|by apply Nat.ltb_lt; cbn; lia]).
  unfold oo_closure_heap_create. rewrite Ld. split.
  - intros d ops k L B. unfold bind at 1, oo_closure_flat_alloc, bind at 1. cbn [run_bind ret]. set (a := malloc (envs s)) in *.
    rewrite (history_counts d a data f ops 0 k) by (cbn [envs]; rewrite ?lookup_insert_eq; try done; unfold UINT32_MAX in *; lia).
    destruct (k =? 0)%nat; unfold set_env; cbn [envs dtor_calls]; [by rewrite delete_insert_id|by rewrite insert_insert_eq].
  - intros ops. unfold bind at 1, oo_closure_flat_alloc, bind at 1. cbn [run_bind ret]. induction ops as [|b ops IH]; [done|]. cbn [history]. unfold oo_closure_retain, oo_closure_release. cbn [env dtor].
    unfold bind. destruct b; cbn [run_bind ret]; exact IH.
Qed.
End closure.

Definition wit_malloc_env (w : gmap nat OoFlatEnvHeader) : nat := fresh (dom w : gset nat).
Lemma closure_counts_witness : let s := mkCl ∅ [] in
  (let! c := oo_closure_heap_create wit_malloc_env 1 (Some [7; 8]) (Some 5%nat) in history c [true; false; false]) s = Ret (tt, mkCl ∅ [(5%nat, wit_malloc_env ∅)]).
Proof. apply (proj1 (closure_counts wit_malloc_env 1 [7; 8] (mkCl ∅ []) (lookup_empty _) ltac:(discriminate)) 5%nat [true; false; false] 0%nat); reflexivity. Defined.
(** A count that was saturated is given back but never taken. *)
Example saturated_release : 
  match (let! _ := oo_closure_flat_retain (Some 0%nat) in oo_closure_flat_release (Some 0%nat)) (mkCl {[ 0%nat := mkEnv UINT32_MAX 0 None [1] ]} []) with
  | Ret (_, s) => envs s !! 0%nat = Some (mkEnv (UINT32_MAX - 1) 0 None [1])
  | _ => False
  end.
Proof. vm_compute. reflexivity. Qed.
