(* ===== verification/Arena.v ===== *)
(** The bump arenas and their checkpoints ([core/mem/arena.c],
    [arena_checkpoint.c], [arena_soa.c], [arena_dod.c]).  The pages a reset
    gives back read as zeros (Linux).

    The state holds the 32 slots, the block headers that the payload allocator
    writes into the mapped memory (by address), the checkpoint stack, the
    attached slot of the calling thread and, for the gates, the token stores of
    [Caps].  A [size_t] is a [Z] wrapped by [u64]; [(size_t)-1] marks an empty
    block chain.  The address [mmap] returns is an argument. *)
From S2P Require Import Prelude Str Caps.
From Stdlib Require String.
From stdpp Require Import gmap.
Import (notations) String.
Open Scope Z_scope.

Definition OO_ARENA_SLOTS : nat := 32.
Definition OO_CK_MAX : nat := 8.
Definition SIZE_MAX : Z := 0xffffffffffffffff.

Record OoArena := mkArena { live : bool; base : Z; a_cap : Z; off : Z; gen : Z; top_cur : Z }.
Record OoArenaBlockHdr := mkBlk { b_cur : Z; b_prev : Z; b_end : Z; b_dead : bool }.
Record OoCk := mkCk { ck_id : Z; ck_off : Z; ck_gen : Z; ck_top : Z }.
Record astate := mkA {
  acaps : cstate;
  g_ar : list OoArena;
  blocks : gmap Z OoArenaBlockHdr;
  g_ck : list OoCk;
  g_active_arena_slot : Z
}.
Definition idle : OoArena := mkArena false 0 0 0 0 SIZE_MAX.
Definition astart : astate := mkA cstart (repeat idle OO_ARENA_SLOTS) ∅ [] (-1).

Definition with_acaps (c : cstate) (s : astate) : astate := mkA c (g_ar s) (blocks s) (g_ck s) (g_active_arena_slot s).
Definition with_cks (k : list OoCk) (s : astate) : astate := mkA (acaps s) (g_ar s) (blocks s) k (g_active_arena_slot s).
Definition with_active (i : Z) (s : astate) : astate := mkA (acaps s) (g_ar s) (blocks s) (g_ck s) i.
Definition with_blocks (b : gmap Z OoArenaBlockHdr) (s : astate) : astate := mkA (acaps s) (g_ar s) b (g_ck s) (g_active_arena_slot s).
(** Zero-filled or unmapped memory holds no header. *)
Definition drop_range (lo n : Z) (s : astate) : astate :=
  with_blocks (filter (fun kv => ~ (lo <= fst kv < lo + n)) (blocks s)) s.
(** [(n + 4095) & ~4095UL]. *)
Definition pages (n : Z) : Z := Z.land (u64 (n + 4095)) 0xfffffffffffff000.
Definition put_slot (i : Z) (a : OoArena) (s : astate) : astate :=
  mkA (acaps s) (<[Z.to_nat i := a]> (g_ar s)) (blocks s) (g_ck s) (g_active_arena_slot s).
Definition slot (i : Z) (s : astate) : OoArena := nth (Z.to_nat i) (g_ar s) idle.
Definition in_slots (i : Z) : bool := (0 <=? i) && (i <? Z.of_nat OO_ARENA_SLOTS).
Definition set_off_top (o t : Z) (a : OoArena) : OoArena := mkArena (live a) (base a) (a_cap a) o (gen a) t.

Definition res_err (s : String.string) : OoResS := mkResS false (oo_str_lit s).
Definition res_ok_ (v : OoStr) : OoResS := mkResS true v.
(** [(x + 63) & ~63ULL]. *)
Definition align64 (x : Z) : Z := Z.land (u64 (x + 63)) 0xffffffffffffffc0.

Section arena.
Context {En : Entropy}.

Definition on_acaps {A} (m : ST cstate A) : ST astate A := lift acaps with_acaps m.
Definition oo_arena_need (cap : Z) : ST astate unit :=
  let! a := on_acaps (oo_cap_is_arena cap) in
  if (a : bool) then ret tt
  else let! b := on_acaps (oo_cap_is_alloc cap) in if (b : bool) then ret tt else die 1.

(** The first slot that is not live, or -1. *)
Fixpoint free_slot (l : list OoArena) (i : Z) : Z :=
  match l with [] => -1 | a :: l => if negb (live a) then i else free_slot l (i + 1) end.
Definition ar_alloc_slot (s : astate) : Z := free_slot (g_ar s) 0.

Definition oo_arena_create (mmap : option Z) (cap bytes : Z) : ST astate OoResS :=
  let! _ := oo_arena_need cap in
  if (bytes <? 64) || (Z.shiftl 1 30 <? bytes) then ret (res_err "arena_create: bad size")
  else
    match mmap with
    | None => ret (res_err "arena_create: oom")
    | Some mem =>
        let! s := get_state in
        let i := ar_alloc_slot s in
        if i <? 0 then ret (res_err "arena_create: no slot")
        else
          let! _ := set_state (put_slot i (mkArena true mem bytes 0 (u64 (gen (slot i s) + 1)) SIZE_MAX)) in
          ret (res_ok_ (str_of (dec i)))
    end.

Definition oo_arena_active_id (s : astate) : Z := g_active_arena_slot s.
Definition oo_arena_attach (cap id : Z) : ST astate OoResS :=
  let i := i32 id in
  let! _ := oo_arena_need cap in
  let! s := get_state in
  let ok := in_slots i && live (slot i s) in
  let! _ := set_state (fun s => if ok then with_active i s else s) in
  ret (mkResS ok (if ok then oo_str_lit "OK" else oo_str_lit "arena_attach failed")).
Definition oo_arena_detach (cap : Z) : ST astate OoResS :=
  let! _ := oo_arena_need cap in
  let! _ := set_state (with_active (-1)) in
  ret (res_ok_ (oo_str_lit "OK")).

Definition oo_arena_alloc (cap id n : Z) : ST astate OoResS :=
  let i := i32 id in
  let! _ := oo_arena_need cap in
  if n =? 0 then oo_arena_attach cap id
  else if n <? 0 then oo_arena_detach cap
  else if negb (in_slots i) then ret (res_err "arena_alloc: bad id")
  else if Z.shiftl 1 26 <? n then ret (res_err "arena_alloc: bad n")
  else
    let! s := get_state in
    let a := slot i s in
    if negb (live a) then ret (res_err "arena_alloc: bad id")
    else
      let o := if negb (Z.land (off a) 63 =? 0) then align64 (off a) else off a in
      let! _ := set_state (put_slot i (set_off_top o (top_cur a) a)) in
      if u64 (a_cap a - o) <? n then ret (res_err "arena_alloc: full")
      else
        let! _ := set_state (put_slot i (set_off_top (u64 (o + n)) (top_cur a) a)) in
        ret (res_ok_ (str_of (dec (i64 o)))).

Definition oo_arena_on_destroy (i : Z) (s : astate) : astate :=
  let s := if in_slots i then put_slot i (set_off_top (off (slot i s)) SIZE_MAX (slot i s)) s else s in
  if g_active_arena_slot s =? i then with_active (-1) s else s.
Definition oo_arena_reset (cap id : Z) : ST astate OoResS :=
  let i := i32 id in
  let! _ := oo_arena_need cap in
  if negb (in_slots i) then ret (res_err "arena_reset: bad id")
  else
    let! s := get_state in
    let a := slot i s in
    if negb (live a) then ret (res_err "arena_reset: bad id")
    else
      let! _ := set_state (put_slot i (set_off_top 0 SIZE_MAX a)) in
      let! _ := set_state (oo_arena_on_destroy i) in
      let! _ := set_state (fun s => if negb (base a =? 0) && (0 <? a_cap a) then drop_range (base a) (pages (a_cap a)) s else s) in
      ret (res_ok_ (oo_str_lit "OK")).
Definition oo_arena_pass_reset (cap id : Z) : ST astate OoResS := oo_arena_reset cap id.
Definition oo_arena_destroy (cap id : Z) : ST astate OoResS :=
  let i := i32 id in
  let! _ := oo_arena_need cap in
  if negb (in_slots i) then ret (res_err "arena_destroy: bad id")
  else
    let! s := get_state in
    let a := slot i s in
    if negb (live a) then ret (res_err "arena_destroy: bad id")
    else
      let! _ := set_state (put_slot i (mkArena false 0 0 0 (gen a) SIZE_MAX)) in
      let! _ := set_state (oo_arena_on_destroy i) in
      let! _ := set_state (fun s => if negb (base a =? 0) then drop_range (base a) (pages (a_cap a)) s else s) in
      ret (res_ok_ (oo_str_lit "OK")).

(** * Checkpoints *)

Definition oo_arena_snap (id : Z) (s : astate) : option (Z * Z * Z) :=
  if negb (in_slots id) then None
  else let a := slot id s in if negb (live a) then None else Some (off a, gen a, top_cur a).
Definition oo_arena_restore (id o g t : Z) : ST astate bool :=
  if negb (in_slots id) then ret false
  else
    let! s := get_state in
    let a := slot id s in
    if negb (live a) || negb (gen a =? g) || (a_cap a <? o) then ret false
    else let! _ := set_state (put_slot id (set_off_top o t a)) in ret true.
Definition oo_checkpoint (cap v : Z) : ST astate Z :=
  let! _ := on_acaps (oo_cap_require_arena cap) in
  let! s := get_state in
  match oo_arena_snap (i32 v) s with
  | None => ret (-1)
  | Some (o, g, t) =>
      let n := length (g_ck s) in
      if (n <? OO_CK_MAX)%nat
      then let! _ := set_state (with_cks (g_ck s ++ [mkCk (i32 v) o g t])) in ret (Z.of_nat n)
      else ret (-1)
  end.
Definition oo_rollback (cap : Z) : ST astate Z :=
  let! _ := on_acaps (oo_cap_require_arena cap) in
  let! s := get_state in
  match last (g_ck s) with
  | None => ret 0
  | Some ck =>
      let! _ := set_state (with_cks (take (length (g_ck s) - 1) (g_ck s))) in
      let! ok := oo_arena_restore (ck_id ck) (ck_off ck) (ck_gen ck) (ck_top ck) in
      ret (if (ok : bool) then ck_id ck else 0)
  end.

(** * Payloads *)

Definition oo_arena_alloc_payload (i payload_sz : Z) : ST astate (option Z) :=
  if negb (in_slots i) || (Z.shiftl 1 30 <? payload_sz) then ret None
  else
    let! s := get_state in
    let a := slot i s in
    if negb (live a) || (base a =? 0) then ret None
    else
      let cur := align64 (off a) in
      let e := u64 (cur + 64 + payload_sz) in
      if a_cap a <? e then ret None
      else
        let! _ := set_state (with_blocks (<[base a + cur := mkBlk cur (top_cur a) e false]> (blocks s))) in
        let! _ := set_state (put_slot i (set_off_top (align64 e) cur a)) in
        ret (Some (base a + cur + 64)).
(** The slot whose memory holds the address. *)
Fixpoint holder (l : list OoArena) (i : Z) (addr : Z) : option Z :=
  match l with
  | [] => None
  | a :: l => if live a && negb (base a =? 0) && (u64 (addr - base a) <? a_cap a) then Some i else holder l (i + 1) addr
  end.
Definition oo_arena_contains_ptr (p : Z) (s : astate) : bool :=
  if p =? 0 then false else match holder (g_ar s) 0 p with Some _ => true | None => false end.
(** [while (top_cur != -1)]: pop the dead blocks on top.  Memory a reset has
    zeroed reads as a block that is not dead. *)
Fixpoint pop_dead (fuel : nat) (h : gmap Z OoArenaBlockHdr) (a : OoArena) : run OoArena :=
  match fuel with
  | O => Undefined
  | S fuel =>
      if top_cur a =? SIZE_MAX then Ret a
      else
        match h !! (base a + top_cur a) with
        | None => Ret a
        | Some t => if negb (b_dead t) then Ret a else pop_dead fuel h (set_off_top (b_cur t) (b_prev t) a)
        end
  end.
(** More rounds than there are headers. *)
Definition oo_arena_free_payload (p : Z) : ST astate bool := fun s =>
  if p =? 0 then Ret (false, s)
  else
    match holder (g_ar s) 0 p with
    | None => Ret (false, s)
    | Some i =>
        match blocks s !! (p - 64) with
        | None => Ret (false, s)
        | Some b =>
            let h := <[p - 64 := mkBlk (b_cur b) (b_prev b) (b_end b) true]> (blocks s) in
            let* a := pop_dead (S (S (size h))) h (slot i s) in
            Ret (true, put_slot i a (with_blocks h s))
        end
    end.
End arena.

(** * Layouts *)

(** One field of the spec: its last colon, and where it ends. *)
Fixpoint field_end (fuel : nat) (d : list Z) (n i : nat) (colon : option nat) : nat * option nat :=
  match fuel with
  | O => (i, colon)
  | S fuel =>
      if (i <? n)%nat && negb (d.[i] =? 44) then field_end fuel d n (S i) (if d.[i] =? 58 then Some i else colon) else (i, colon)
  end.
Definition field_value (d : list Z) (lo hi : nat) : Z :=
  foldl (fun v c => if (48 <=? c) && (c <=? 57) then i64 (i64 (v * 10) + (c - 48)) else v) 0 (slice lo (hi - lo) d).
Fixpoint soa_loop (fuel : nat) (d : list Z) (n i : nat) (total : Z) (fields : nat) : Z * nat :=
  match fuel with
  | O => (total, fields)
  | S fuel =>
      if (i <? n)%nat then
        let '(j, colon) := field_end n d n i None in
        let sz := match colon with
                  | Some c => if (S c <? j)%nat then let v := field_value d (S c) j in if 0 <? v then v else 8 else 8
                  | None => 8
                  end in
        let '(total, fields) := if (i <? j)%nat then (i64 (total + sz), S fields) else (total, fields) in
        soa_loop fuel d n (if (j <? n)%nat && (d.[j] =? 44) then S j else j) total fields
      else (total, fields)
  end.
Definition oo_soa_layout (spec : OoStr) : Z :=
  match sdata spec with
  | None => 0
  | Some d =>
      if slen spec <=? 0 then 0
      else let '(total, fields) := soa_loop (S (Z.to_nat (slen spec))) d (Z.to_nat (slen spec)) 0 0 0 in if (fields =? 0)%nat then 0 else total
  end.
Definition oo_dod_layout (n : Z) : Z := if n <? 0 then 0 else if LLONG_MAX / 8 <? n then 0 else n * 8.

(** * Lemmas *)

Lemma align64_spec x : 0 <= x < 2 ^ 63 -> align64 x = 64 * ((x + 63) / 64).
Proof.
  intros Hx. change (2 ^ 63) with 9223372036854775808 in Hx. unfold align64. rewrite u64_id by lia.
  assert (E : forall y, 0 <= y < 2 ^ 64 -> Z.land y 0xffffffffffffffc0 = 64 * (y / 64)).
  { intros y Hy. change 0xffffffffffffffc0 with (Z.shiftl (Z.ones 58) 6). rewrite Z.mul_comm. change 64 with (2 ^ 6) at 2.
    rewrite <- Z.shiftl_mul_pow2 by lia. change 64 with (2 ^ 6). rewrite <- Z.shiftr_div_pow2 by lia.
    apply Z.bits_inj'. intros n Hn. rewrite Z.land_spec. destruct (Z.lt_ge_cases n 6).
    - rewrite !Z.shiftl_spec_low by lia. apply andb_false_r.
    - rewrite !Z.shiftl_spec by lia. rewrite Z.shiftr_spec by lia. rewrite Z.testbit_ones_nonneg by lia.
      replace (n - 6 + 6) with n by lia. destruct (Z.ltb_spec (n - 6) 58); [apply andb_true_r|].
      rewrite andb_false_r. symmetry. apply (testbit_above y 64); [done|lia]. }
  apply E. change (2 ^ 64) with 18446744073709551616. lia.
Qed.
Lemma align64_bounds x : 0 <= x < 2 ^ 63 -> x <= align64 x <= x + 63 /\ (align64 x) mod 64 = 0.
Proof. intros Hx. rewrite align64_spec by done. lia. Qed.
Lemma align64_aligned x : 0 <= x < 2 ^ 63 -> x mod 64 = 0 -> align64 x = x.
Proof. intros Hx H. rewrite align64_spec by done. lia. Qed.
Lemma land63 x : Z.land x 63 = x mod 64.
Proof. exact (land_mod x 6 ltac:(lia)). Qed.
Lemma align_step x : 0 <= x < 2 ^ 63 -> (if negb (Z.land x 63 =? 0) then align64 x else x) = align64 x.
Proof.
  intros Hx. rewrite land63. destruct (Z.eqb_spec (x mod 64) 0); [|done]. cbn [negb]. symmetry. by apply align64_aligned.
Qed.

(** The word opens the arena gates. *)
Record arena_open (cap : Z) (s : astate) : Prop := mkOpen {
  open_token : exists t, store (acaps s) = Some t /\ cap = g_tok_arena t /\ gate_ok cap (g_tok_arena t) 0 = true;
  open_rights : rights_ok (acaps s);
  open_hook : g_test_force_fail (acaps s) = false }.

Section lemmas.
Context {En : Entropy}.

Lemma with_acaps_same s : with_acaps (acaps s) s = s.
Proof. by destruct s. Qed.
Lemma need_run cap s : arena_open cap s -> oo_arena_need cap s = Ret (tt, s).
Proof.
  intros [(t & Ht & -> & _) _ _]. unfold oo_arena_need, on_acaps, lift, oo_cap_is_arena, bind. rewrite (oo_caps_init_ready _ t Ht). cbn [run_bind].
  unfold ret. cbn [run_bind]. rewrite Z.eqb_refl, with_acaps_same. done.
Qed.
Lemma gate_run cap s : arena_open cap s -> on_acaps (oo_cap_require_arena cap) s = Ret (tt, with_acaps (after_check (acaps s)) s).
Proof.
  intros [(t & Ht & _ & Hg) Hr Hh]. unfold on_acaps, lift.
  assert (G : gate_spec cap (acaps s) t (oo_cap_require_arena, g_tok_arena, None)) by (apply gate1_spec; [done|done|in_tokens]).
  unfold gate_spec in G. rewrite Hg, Hh in G. rewrite G. done.
Qed.
Lemma slot_put i a s : (Z.to_nat i < length (g_ar s))%nat -> slot i (put_slot i a s) = a.
Proof. intros H. unfold slot, put_slot. cbn [g_ar]. by rewrite nth_lookup, list_lookup_insert_eq. Qed.
Lemma put_slot_twice i a b s : put_slot i a (put_slot i b s) = put_slot i a s.
Proof. unfold put_slot. cbn. by rewrite list_insert_insert_eq. Qed.

(** One allocation from the bump pointer, by whether the aligned pointer is
    still inside. *)
Lemma arena_alloc_run cap id n s : let i := i32 id in let a := slot i s in let o := align64 (off a) in
  arena_open cap s -> in_slots i = true -> live a = true -> 0 < n <= Z.shiftl 1 26 -> 0 <= a_cap a <= Z.shiftl 1 30 -> 0 <= off a < 2 ^ 40 ->
  oo_arena_alloc cap id n s =
  if (o <=? a_cap a) && (a_cap a - o <? n) then Ret (res_err "arena_alloc: full", put_slot i (set_off_top o (top_cur a) a) s)
  else Ret (res_ok_ (str_of (dec o)), put_slot i (set_off_top (o + n) (top_cur a) a) s).
Proof.
  cbv zeta. set (i := i32 id). set (a := slot i s). intros Ho Hi Hl Hn Hc Hf.
  change (Z.shiftl 1 26) with 67108864 in Hn. change (Z.shiftl 1 30) with 1073741824 in Hc. change (2 ^ 40) with 1099511627776 in Hf.
  pose proof (align64_bounds (off a)) as B. change (2 ^ 63) with 9223372036854775808 in B. specialize (B ltac:(lia)).
  unfold oo_arena_alloc. fold i. unfold bind at 1. rewrite need_run by done. cbn [run_bind].
  destruct (Z.eqb_spec n 0); [lia|]. destruct (Z.ltb_spec n 0); [lia|]. rewrite Hi. cbn [negb].
  change (Z.shiftl 1 26) with 67108864. destruct (Z.ltb_spec 67108864 n); [lia|].
  unfold bind at 1, get_state. cbn [run_bind]. fold a. rewrite Hl. cbn [negb]. rewrite align_step by (change (2 ^ 63) with 9223372036854775808; lia).
  unfold bind at 1, set_state at 1. cbn [run_bind]. set (o := align64 (off a)) in *.
  destruct (Z.leb_spec o (a_cap a)) as [X|X]; cbn [andb].
  - rewrite (u64_id (a_cap a - o)) by lia. destruct (Z.ltb_spec (a_cap a - o) n) as [Y|Y]; [done|].
    unfold bind, set_state, ret. cbn [run_bind]. rewrite put_slot_twice, u64_id, i64_id by lia. done.
  - assert (U : u64 (a_cap a - o) = a_cap a - o + 18446744073709551616) by (rewrite u64_mod; lia).
    rewrite U. destruct (Z.ltb_spec (a_cap a - o + 18446744073709551616) n) as [Y|Y]; [lia|].
    unfold bind, set_state, ret. cbn [run_bind]. rewrite put_slot_twice, u64_id, i64_id by lia. done.
Qed.
End lemmas.

(** * The stack of payload blocks

    The abstract state of an arena's payloads: its blocks from the top down,
    each with the offsets where it begins and ends and whether it was freed. *)

Record Blk := mkB { bk_at : Z; bk_end : Z; bk_dead : bool }.
Definition top_of (l : list Blk) : Z := match l with [] => SIZE_MAX | b :: _ => bk_at b end.
Fixpoint stacked (h : gmap Z OoArenaBlockHdr) (bs : Z) (l : list Blk) : Prop :=
  match l with
  | [] => True
  | b :: r =>
      0 <= bk_at b /\ bk_at b mod 64 = 0 /\ bk_at b + 64 < bk_end b /\
      h !! (bs + bk_at b) = Some (mkBlk (bk_at b) (top_of r) (bk_end b) (bk_dead b)) /\
      Forall (fun c => bk_end c <= bk_at b) r /\ stacked h bs r
  end.
Definition mark (c : Z) (l : list Blk) : list Blk := map (fun b => if bk_at b =? c then mkB (bk_at b) (bk_end b) true else b) l.
(** Freed blocks on top are dropped and their space is free again. *)
Fixpoint settle (l : list Blk) (o : Z) : list Blk * Z :=
  match l with b :: r => if bk_dead b then settle r (bk_at b) else (l, o) | [] => ([], o) end.
Definition wf_arena (a : OoArena) (h : gmap Z OoArenaBlockHdr) (l : list Blk) : Prop :=
  live a = true /\ 0 < base a /\ 0 <= a_cap a <= Z.shiftl 1 30 /\ base a + a_cap a < 2 ^ 63 /\ top_cur a = top_of l /\ stacked h (base a) l /\
  0 <= off a <= a_cap a + 63 /\ Forall (fun b => bk_end b <= a_cap a /\ bk_end b <= off a) l.
(** Slot [i] holds the stack [l], and no other slot its addresses. *)
Definition rep (s : astate) (i : Z) (l : list Blk) : Prop :=
  in_slots i = true /\ (Z.to_nat i < length (g_ar s))%nat /\ wf_arena (slot i s) (blocks s) l /\
  forall p, base (slot i s) <= p < base (slot i s) + a_cap (slot i s) -> holder (g_ar s) 0 p = Some i.

Lemma stacked_other h bs l a x : stacked h bs l -> Forall (fun b => bs + bk_at b <> a) l -> stacked (<[a := x]> h) bs l.
Proof.
  induction l as [|b r IH]; [done|]. cbn [stacked]. intros (P & M & L & H & F & S) [N Nr]%Forall_cons_1.
  rewrite lookup_insert_ne by done. repeat (split; [done|]). by apply IH.
Qed.
Lemma top_mark c l : top_of (mark c l) = top_of l.
Proof. destruct l as [|b r]; [done|]. cbn. by destruct (bk_at b =? c). Qed.
Lemma Forall_mark (P : Z -> Prop) c l : Forall (fun b => P (bk_end b)) l -> Forall (fun b => P (bk_end b)) (mark c l).
Proof. intros H. apply Forall_map. eapply List.Forall_impl; [|exact H]. intros b Hb. cbv beta in *. by destruct (bk_at b =? c). Qed.
(** Blocks on a stack have different offsets. *)
Lemma stacked_below h bs b r : stacked h bs (b :: r) -> Forall (fun c => bk_at c < bk_at b) r.
Proof.
  cbn [stacked]. intros (_ & _ & _ & _ & F & S). revert F S. induction r as [|c r IH]; intros F S; [constructor|].
  apply Forall_cons_1 in F as [F Fr]. cbn [stacked] in S. destruct S as (_ & _ & L & _ & _ & S). constructor; [lia|]. by apply IH.
Qed.
Lemma mark_free h bs b l : stacked h bs l -> In b l ->
  stacked (<[bs + bk_at b := mkBlk (bk_at b) (from_option b_prev 0 (h !! (bs + bk_at b))) (bk_end b) true]> h) bs (mark (bk_at b) l).
Proof.
  induction l as [|c r IH]; [done|]. intros S I. pose proof (stacked_below _ _ _ _ S) as Bl. cbn [stacked] in S. destruct S as (P & M & L & H & F & S).
  assert (Fm : Forall (fun c0 => bk_end c0 <= bk_at c) (mark (bk_at b) r)) by (by apply (Forall_mark (fun e => e <= bk_at c))).
  change (mark (bk_at b) (c :: r)) with ((if bk_at c =? bk_at b then mkB (bk_at c) (bk_end c) true else c) :: mark (bk_at b) r).
  destruct I as [->|I].
  - rewrite Z.eqb_refl. cbn [stacked bk_at bk_end bk_dead]. rewrite lookup_insert_eq, H, top_mark. cbn [from_option b_prev].
    repeat (split; [done|]). assert (E : mark (bk_at b) r = r).
    { clear -Bl. induction r as [|c r IH]; [done|]. apply Forall_cons_1 in Bl as [B Bl]. cbn [mark map]. destruct (Z.eqb_spec (bk_at c) (bk_at b)); [lia|].
      f_equal. by apply IH. }
    rewrite E. apply stacked_other; [done|]. eapply List.Forall_impl; [|exact Bl]. intros c Hc. cbv beta in Hc. lia.
  - assert (Hlt : bk_at b < bk_at c) by (rewrite List.Forall_forall in Bl; by apply Bl).
    destruct (Z.eqb_spec (bk_at c) (bk_at b)); [lia|]. cbn [stacked]. rewrite lookup_insert_ne, H, top_mark by lia.
    repeat (split; [done|]). by apply IH.
Qed.
Lemma settle_suffix l o : exists d, l = d ++ fst (settle l o) /\ Forall (fun b => bk_dead b = true) d.
Proof.
  revert o. induction l as [|b r IH]; intros o; [by exists []|]. cbn [settle]. destruct (bk_dead b) eqn:D; [|by exists []].
  destruct (IH (bk_at b)) as (d & E & F). exists (b :: d). split; [cbn; by rewrite <- E|by constructor].
Qed.
Lemma pop_dead_spec fuel h a l : top_cur a = top_of l -> stacked h (base a) l -> (length l < fuel)%nat ->
  pop_dead fuel h a = Ret (set_off_top (snd (settle l (off a))) (top_of (fst (settle l (off a)))) a).
Proof.
  revert a l. induction fuel as [|fuel IH]; intros a l Ht S Hf; [lia|]. cbn [pop_dead].
  destruct l as [|b r]; cbn [top_of] in Ht.
  - rewrite Ht. cbn [settle fst snd top_of]. rewrite Z.eqb_refl. unfold set_off_top. rewrite <- Ht. by destruct a.
  - pose proof S as (P & M & _ & H & _ & S'). unfold SIZE_MAX. destruct (Z.eqb_spec (top_cur a) 0xffffffffffffffff) as [X|X]; [rewrite Ht in X; lia|].
    rewrite Ht, H. cbn [b_dead b_cur b_prev settle]. destruct (bk_dead b) eqn:D; cbn [negb].
    + rewrite (IH _ r); [done|done|done|cbn [length] in Hf; lia].
    + cbn [fst snd top_of]. unfold set_off_top. rewrite <- Ht. by destruct a.
Qed.
(** A chain has no more blocks than there are headers. *)
Lemma stacked_size h bs l : stacked h bs l -> (length l <= size h)%nat.
Proof.
  intros S. rewrite <- size_dom.
  assert (N : NoDup (map (fun b => bs + bk_at b) l)).
  { induction l as [|b r IH]; [constructor|]. pose proof (stacked_below _ _ _ _ S) as B. cbn [map]. constructor.
    - intros I. apply list_elem_of_In in I. apply in_map_iff in I as (c & E & I). rewrite List.Forall_forall in B. specialize (B c I). cbv beta in B. lia.
    - apply IH. by destruct S as (_ & _ & _ & _ & _ & S). }
  rewrite <- (length_map (fun b => bs + bk_at b) l). rewrite <- (size_list_to_set (C := gset Z)) by done. apply subseteq_size.
  intros x Hx. apply elem_of_list_to_set in Hx. apply list_elem_of_In, in_map_iff in Hx as (b & <- & I).
  revert I. induction l as [|c r IH]; [done|]. destruct S as (_ & _ & _ & H & _ & S). intros [->|I]; [by apply elem_of_dom_2 in H|].
  apply IH; [done| |done]. inversion N. done.
Qed.

Lemma holder_same l i a k p : live a = live (nth i l idle) -> base a = base (nth i l idle) -> a_cap a = a_cap (nth i l idle) ->
  holder (<[i := a]> l) k p = holder l k p.
Proof.
  revert i k. induction l as [|b l IH]; intros i k Hl Hb Hc; [by destruct i|]. destruct i as [|i]; cbn in Hl, Hb, Hc |- *.
  - by rewrite Hl, Hb, Hc.
  - by rewrite IH.
Qed.
Lemma rep_update s i l a h l' : rep s i l -> live a = live (slot i s) -> base a = base (slot i s) -> a_cap a = a_cap (slot i s) ->
  wf_arena a h l' -> rep (put_slot i a (with_blocks h s)) i l'.
Proof.
  intros (Hi & Hlen & _ & Ho) Hl Hb Hc W. split; [done|]. split; [cbn; by rewrite length_insert|].
  assert (E : slot i (put_slot i a (with_blocks h s)) = a) by (by apply slot_put). rewrite E. split; [exact W|].
  intros p Hp. cbn [put_slot with_blocks g_ar]. rewrite holder_same by done. apply Ho. by rewrite <- Hb, <- Hc.
Qed.
Lemma alloc_payload_run s i l sz : rep s i l -> 1 <= sz <= Z.shiftl 1 30 ->
  let a := slot i s in let cur := align64 (off a) in let e := cur + 64 + sz in
  (a_cap a < e -> oo_arena_alloc_payload i sz s = Ret (None, s)) /\
  (e <= a_cap a -> exists s', oo_arena_alloc_payload i sz s = Ret (Some (base a + cur + 64), s') /\ rep s' i (mkB cur e false :: l) /\
     a_cap (slot i s') = a_cap a /\ base (slot i s') = base a).
Proof.
  intros R Hs. pose proof R as (Hi & Hlen & W & Ho). pose proof W as (Hl & Hb & Hc & Hm & Ht & S & Hf & F). cbv zeta.
  set (a := slot i s) in *. change (Z.shiftl 1 30) with 1073741824 in *. change (2 ^ 63) with 9223372036854775808 in Hm.
  pose proof (align64_bounds (off a)) as B. change (2 ^ 63) with 9223372036854775808 in B. specialize (B ltac:(lia)).
  set (cur := align64 (off a)) in *. set (e := cur + 64 + sz).
  assert (Unf : oo_arena_alloc_payload i sz s = if a_cap a <? e then Ret (None, s)
    else Ret (Some (base a + cur + 64), put_slot i (set_off_top (align64 e) cur a) (with_blocks (<[base a + cur := mkBlk cur (top_cur a) e false]> (blocks s)) s))).
  { unfold oo_arena_alloc_payload. rewrite Hi. change (Z.shiftl 1 30) with 1073741824. destruct (Z.ltb_spec 1073741824 sz); [lia|]. cbn [negb orb].
    unfold bind at 1, get_state. cbn [run_bind]. fold a. rewrite Hl. destruct (Z.eqb_spec (base a) 0); [lia|]. cbn [negb orb].
    fold cur. rewrite (u64_id (cur + 64 + sz)) by lia. fold e. destruct (a_cap a <? e); [done|]. unfold bind, set_state, ret. cbn [run_bind]. done. }
  rewrite Unf. split; [intros X; by destruct (Z.ltb_spec (a_cap a) e); [|lia]|]. intros X. destruct (Z.ltb_spec (a_cap a) e); [lia|].
  eexists. split; [reflexivity|]. split; [|by rewrite slot_put].
  pose proof (align64_bounds e) as Be. change (2 ^ 63) with 9223372036854775808 in Be. specialize (Be ltac:(lia)).
  eapply rep_update; [exact R|done|done|done|]. unfold wf_arena, set_off_top. cbn [live base a_cap off top_cur gen].
  change (Z.shiftl 1 30) with 1073741824. change (2 ^ 63) with 9223372036854775808.
  assert (Fl : Forall (fun b => bk_end b <= cur) l) by (eapply List.Forall_impl; [|exact F]; intros b Hbb; cbv beta in Hbb; lia).
  repeat (split; [first [done|lia]|]). split; [|split; [lia|]].
  - cbn [stacked bk_at bk_end bk_dead]. repeat (split; [lia|]). rewrite lookup_insert_eq, Ht. split; [done|]. split; [done|].
    apply stacked_other; [done|]. clear -S Fl. induction l as [|b r IH]; [constructor|]. apply Forall_cons_1 in Fl as [Fb Fl].
    cbn [stacked] in S. destruct S as (P & _ & L & _ & _ & S). constructor; [lia|]. by apply IH.
  - constructor; [cbn [bk_end]; lia|]. eapply List.Forall_impl; [|exact F]. intros b Hbb. cbv beta in *. lia.
Qed.
Lemma settle_inv h bs l o : stacked h bs l -> Forall (fun b => bk_end b <= o) l -> 0 <= o ->
  stacked h bs (fst (settle l o)) /\ Forall (fun b => bk_end b <= snd (settle l o)) (fst (settle l o)) /\ 0 <= snd (settle l o) <= o.
Proof.
  revert o. induction l as [|b r IH]; intros o S F Ho; cbn [settle]; [split; [done|split; [constructor|cbn; lia]]|].
  apply Forall_cons_1 in F as [Fb F]. pose proof S as (P & _ & L & _ & Fr & Sr). destruct (bk_dead b).
  - destruct (IH (bk_at b) Sr Fr P) as (I1 & I2 & I3). split; [done|]. split; [done|]. lia.
  - cbn [fst snd]. split; [done|]. split; [by constructor|lia].
Qed.
Lemma free_payload_run s i l b : rep s i l -> In b l ->
  let r := settle (mark (bk_at b) l) (off (slot i s)) in
  exists s', oo_arena_free_payload (base (slot i s) + bk_at b + 64) s = Ret (true, s') /\ rep s' i (fst r) /\ off (slot i s') = snd r.
Proof.
  intros R I. pose proof R as (Hi & Hlen & W & Ho). pose proof W as (Hl & Hb & Hc & Hm & Ht & S & Hf & F). cbv zeta. set (a := slot i s) in *.
  assert (Hd : exists prev d, blocks s !! (base a + bk_at b) = Some (mkBlk (bk_at b) prev (bk_end b) d) /\ 0 <= bk_at b /\ bk_at b + 64 < bk_end b).
  { clear -S I. induction l as [|c r IH]; [done|]. destruct S as (P & _ & L & H & _ & S). destruct I as [->|I]; [eauto 6|by apply IH]. }
  destruct Hd as (prev & d & Hd & P & L). assert (Fb : bk_end b <= a_cap a) by (rewrite List.Forall_forall in F; apply (F b I)).
  unfold oo_arena_free_payload. destruct (Z.eqb_spec (base a + bk_at b + 64) 0); [lia|]. rewrite Ho by lia.
  replace (base a + bk_at b + 64 - 64) with (base a + bk_at b) by lia. rewrite Hd. cbn [b_cur b_prev b_end].
  set (h := <[base a + bk_at b := mkBlk (bk_at b) prev (bk_end b) true]> (blocks s)).
  assert (Sm : stacked h (base a) (mark (bk_at b) l)).
  { pose proof (mark_free _ _ _ _ S I) as Q. rewrite Hd in Q. exact Q. }
  fold a. rewrite (pop_dead_spec _ h a (mark (bk_at b) l)); [|by rewrite top_mark|done|pose proof (stacked_size _ _ _ Sm); lia]. cbn [run_bind].
  eexists. split; [reflexivity|]. split; [|by rewrite slot_put].
  assert (Fo : Forall (fun c => bk_end c <= off a) (mark (bk_at b) l)).
  { apply (Forall_mark (fun e => e <= off a)). eapply List.Forall_impl; [|exact F]. intros c X. apply X. }
  assert (Fc : Forall (fun c => bk_end c <= a_cap a) (mark (bk_at b) l)).
  { apply (Forall_mark (fun e => e <= a_cap a)). eapply List.Forall_impl; [|exact F]. intros c X. apply X. }
  destruct (settle_inv _ _ _ _ Sm Fo ltac:(lia)) as (I1 & I2 & I3).
  destruct (settle_suffix (mark (bk_at b) l) (off a)) as (dd & E & _).
  eapply rep_update; [exact R|done|done|done|]. unfold wf_arena, set_off_top. cbn [live base a_cap off top_cur gen].
  repeat (split; [first [done|lia]|]). rewrite E in Fc. apply Forall_app in Fc as [_ Fc].
  apply List.Forall_forall. intros c J. rewrite List.Forall_forall in Fc, I2. split; [by apply Fc|by apply I2].
Qed.

(** * Theorems *)

(**  Bump allocation ([oo_arena_alloc]), with the aligned pointer [o]: a
    request is refused exactly when [o] is inside the arena and fewer than [n]
    bytes are left; then a grant [o .. o + n) ends inside the arena.  When [o]
    has passed the end (the last allocation stopped within 63 bytes of a
    capacity that is no multiple of 64) the room left wraps around and every
    request is granted, outside the arena. *)
Theorem arena_alloc_exact {En : Entropy} (cap id n : Z) (s : astate)
    (Ho : arena_open cap s) (Hi : in_slots (i32 id) = true) (Hl : live (slot (i32 id) s) = true) (Hn : 0 < n <= Z.shiftl 1 26)
    (Hc : 0 <= a_cap (slot (i32 id) s) <= Z.shiftl 1 30) (Hf : 0 <= off (slot (i32 id) s) < 2 ^ 40) :
  let i := i32 id in let a := slot i s in let o := align64 (off a) in
  let refused := Ret (res_err "arena_alloc: full", put_slot i (set_off_top o (top_cur a) a) s) in
  let granted := Ret (res_ok_ (str_of (dec o)), put_slot i (set_off_top (o + n) (top_cur a) a) s) in
  (off a <= o <= off a + 63 /\ o mod 64 = 0) /\
  (o + n <= a_cap a -> oo_arena_alloc cap id n s = granted) /\
  (o <= a_cap a < o + n -> oo_arena_alloc cap id n s = refused) /\
  (a_cap a < o -> oo_arena_alloc cap id n s = granted).
Proof.
  cbv zeta. rewrite (arena_alloc_run cap id n s Ho Hi Hl Hn Hc Hf).
  change (2 ^ 40) with 1099511627776 in Hf. pose proof (align64_bounds (off (slot (i32 id) s))) as B. change (2 ^ 63) with 9223372036854775808 in B.
  specialize (B ltac:(lia)). split; [exact B|].
  set (o := align64 (off (slot (i32 id) s))) in *. set (c := a_cap (slot (i32 id) s)) in *.
  split; [|split]; intros X; destruct ((o <=? c) && (c - o <? n)) eqn:E; first [done|lia].
Qed.

(** C29.  The payload allocator is a stack of blocks.  On an arena that holds
    the blocks [l] (64-aligned, inside the capacity, each above the ends of
    those below it, so no two overlap): a request that fits adds a block above
    all others and returns the address 64 bytes into it, one that does not fit
    changes nothing; freeing the payload of any block marks it, drops the
    freed blocks on top and gives their space back, however the frees are
    ordered, and leaves every other block where it is. *)
Theorem arena_payload_stack (s : astate) (i : Z) (l : list Blk) (R : rep s i l) :
  (forall sz, 1 <= sz <= Z.shiftl 1 30 ->
     let a := slot i s in let cur := align64 (off a) in let e := cur + 64 + sz in
     (a_cap a < e -> oo_arena_alloc_payload i sz s = Ret (None, s)) /\
     (e <= a_cap a -> exists s', oo_arena_alloc_payload i sz s = Ret (Some (base a + cur + 64), s') /\ rep s' i (mkB cur e false :: l) /\
        a_cap (slot i s') = a_cap a /\ base (slot i s') = base a)) /\
  (forall b, In b l ->
     let r := settle (mark (bk_at b) l) (off (slot i s)) in
     exists s', oo_arena_free_payload (base (slot i s) + bk_at b + 64) s = Ret (true, s') /\ rep s' i (fst r) /\ off (slot i s') = snd r).
Proof. split; [intros sz Hs; exact (alloc_payload_run s i l sz R Hs)|intros b I; exact (free_payload_run s i l b R I)]. Qed.

(**  A checkpoint of a live slot saves its pointers, and the rollback that
    pops it puts them back in the same incarnation of the slot, whatever was
    allocated, freed or reset in between; if the slot was destroyed, or
    created again, the rollback pops the entry, changes no slot and returns 0. *)
Theorem arena_rollback_restores {En : Entropy} (cap v : Z) (s s2 : astate)
    (Ho : arena_open cap s) (Hi : in_slots (i32 v) = true) (Hl : live (slot (i32 v) s) = true) (Hk : (length (g_ck s) < OO_CK_MAX)%nat)
    (Ho2 : arena_open cap s2) (Hk2 : g_ck s2 = g_ck s ++ [mkCk (i32 v) (off (slot (i32 v) s)) (gen (slot (i32 v) s)) (top_cur (slot (i32 v) s))]) :
  let i := i32 v in let a := slot i s in let b := slot i s2 in
  let checked := with_acaps (after_check (acaps s2)) s2 in
  oo_checkpoint cap v s = Ret (Z.of_nat (length (g_ck s)),
    with_cks (g_ck s ++ [mkCk i (off a) (gen a) (top_cur a)]) (with_acaps (after_check (acaps s)) s)) /\
  oo_rollback cap s2 =
    if live b && (gen b =? gen a) && (off a <=? a_cap b)
    then Ret (i, put_slot i (set_off_top (off a) (top_cur a) b) (with_cks (g_ck s) checked))
    else Ret (0, with_cks (g_ck s) checked).
Proof.
  cbv zeta. split.
  - unfold oo_checkpoint, bind at 1. rewrite gate_run by done. cbn [run_bind]. unfold bind at 1, get_state. cbn [run_bind].
    unfold oo_arena_snap. rewrite Hi. cbn [negb]. change (slot (i32 v) (with_acaps (after_check (acaps s)) s)) with (slot (i32 v) s).
    rewrite Hl. cbn [negb g_ck with_acaps]. destruct (Nat.ltb_spec (length (g_ck s)) OO_CK_MAX); [done|lia].
  - unfold oo_rollback, bind at 1. rewrite gate_run by done. cbn [run_bind]. unfold bind at 1, get_state. cbn [run_bind g_ck with_acaps].
    rewrite Hk2, last_snoc. unfold bind at 1, set_state at 1. cbn [run_bind]. rewrite length_app. cbn [length].
    replace (length (g_ck s) + 1 - 1)%nat with (length (g_ck s)) by lia. rewrite take_app_length. unfold bind at 1, oo_arena_restore. cbn [ck_id ck_off ck_gen ck_top].
    rewrite Hi. cbn [negb]. unfold bind at 1, get_state. cbn [run_bind]. set (s3 := with_cks _ _). change (slot (i32 v) s3) with (slot (i32 v) s2).
    destruct (live (slot (i32 v) s2)); cbn [negb orb andb]; [|done]. destruct (gen (slot (i32 v) s2) =? gen (slot (i32 v) s)); cbn [negb orb andb]; [|done].
    destruct (Z.ltb_spec (a_cap (slot (i32 v) s2)) (off (slot (i32 v) s))) as [X|X]; destruct (Z.leb_spec (off (slot (i32 v) s)) (a_cap (slot (i32 v) s2))) as [Y|Y]; try lia; done.
Qed.

(** An arena of 100 bytes in slot 0, mapped at 4096. *)
Definition wit_arena : Z := Eval vm_compute in g_tok_arena wit_tokens.
Definition wit_astate : astate := put_slot 0 (mkArena true 4096 100 0 1 SIZE_MAX) (with_acaps wit_granted astart).
Lemma wit_open (o : Z) : arena_open wit_arena (put_slot 0 (mkArena true 4096 100 o 1 SIZE_MAX) wit_astate).
Proof. split; [exists wit_tokens; split; [reflexivity|]; split; vm_compute; reflexivity|by left|reflexivity]. Qed.

(** 70 bytes, then 40 more: the second grant begins at 128 of 100. *)
Example arena_alloc_exact_witness :
  let s := put_slot 0 (mkArena true 4096 100 70 1 SIZE_MAX) wit_astate in
  @oo_arena_alloc wit_entropy wit_arena 0 40 s =
    Ret (res_ok_ (str_of (dec 128)), put_slot 0 (set_off_top 168 SIZE_MAX (mkArena true 4096 100 70 1 SIZE_MAX)) s).
Proof.
  destruct (@arena_alloc_exact wit_entropy wit_arena 0 40 (put_slot 0 (mkArena true 4096 100 70 1 SIZE_MAX) wit_astate) (wit_open 70)) as (_ & _ & _ & G);
    [reflexivity|reflexivity|vm_compute; split; [reflexivity|discriminate]|vm_compute; split; discriminate|vm_compute; split; [discriminate|reflexivity]|].
  apply G. vm_compute. reflexivity.
Defined.
Example arena_payload_stack_witness : exists s', oo_arena_alloc_payload 0 20 wit_astate = Ret (Some 4160, s') /\ rep s' 0 [mkB 0 84 false].
Proof.
  assert (R : rep wit_astate 0 []).
  { split; [reflexivity|]. split; [apply Nat.ltb_lt; reflexivity|]. split.
    - unfold wf_arena. cbn. repeat split; try done; try lia.
    - intros p Hp. change (4096 <= p < 4096 + 100) in Hp. unfold wit_astate, put_slot, with_acaps, astart. cbn [g_ar Z.to_nat repeat OO_ARENA_SLOTS].
      change (holder _ 0 p) with (if u64 (p - 4096) <? 100 then Some 0 else @None Z). rewrite u64_id by lia. by destruct (Z.ltb_spec (p - 4096) 100); [|lia]. }
  destruct (arena_payload_stack wit_astate 0 [] R) as [A _].
  destruct (A 20 ltac:(vm_compute; split; discriminate)) as [_ B]. destruct B as (s' & E & R' & _); [vm_compute; discriminate|].
  exists s'. exact (conj E R').
Defined.
Example arena_rollback_restores_witness :
  let s := wit_astate in let s2 := with_cks [mkCk 0 0 1 SIZE_MAX] (put_slot 0 (mkArena true 4096 100 70 1 SIZE_MAX) wit_astate) in
  @oo_rollback wit_entropy wit_arena s2 = Ret (0, put_slot 0 (mkArena true 4096 100 0 1 SIZE_MAX) (with_cks [] (with_acaps (after_check (acaps s2)) s2))).
Proof.
  cbv zeta. set (s2 := with_cks _ _).
  refine (proj2 (@arena_rollback_restores wit_entropy wit_arena 0 wit_astate s2 _ _ _ _ _ _)); first [reflexivity|apply Nat.ltb_lt; reflexivity|idtac].
  - exact (wit_open 0).
  - destruct (wit_open 70) as [T Rr H0]. split; [exact T|exact Rr|exact H0].
Defined.
