(* ===== verification/Thread.v ===== *)
(** Threads ([app/actor/actor_thread.c]): sixty-four slots, each a worker that
    sleeps until it is joined, behind the ThreadCap gate; a worker has an arena
    of its own ([Arena]).

    As in [Actor], a worker's turn under its slot's mutex is one step, and so
    are the arena calls before its loop and after it.  The attached slot of
    [Arena.astate] is the calling thread's: a worker has its own ([w_active]).
    Whether [pthread_create] and [pthread_join] succeed and what [mmap] answers
    are arguments.  Making the mutex of a slot whose worker still runs, after a
    [pthread_join] that failed, is [Undefined]. *)
From S2P Require Import Prelude Str Caps Event Arena Mailbox.
From Stdlib Require String.
Import (notations) String.
Open Scope Z_scope.

Definition OO_THREAD_SLOTS : Z := 64.

Inductive tpc := TInit | TStart | TWait | TWake | TDone.
Record OoThreadSlot := mkThr { t_live : bool; t_running : bool; t_stop : bool; t_name : list Z; t_pc : tpc; w_cap : Z; w_arena : Z; w_active : Z }.
Definition idle_thread : OoThreadSlot := mkThr false false false [] TDone 0 (-1) (-1).
Record thstate := mkTh { arenas : Arena.astate; g_threads : list OoThreadSlot }.
Definition thread_at (i : nat) (s : thstate) : OoThreadSlot := nth i (g_threads s) idle_thread.
Definition set_thread (i : nat) (x : OoThreadSlot) (s : thstate) : thstate := mkTh (arenas s) (<[i := x]> (g_threads s)).
Definition on_thcaps {E : Entropy} {A} (m : ST cstate A) : ST thstate A := lift arenas (fun a s => mkTh a (g_threads s)) (Arena.on_acaps m).

(** * The arena of a worker *)

(** [atoll]: blanks, a sign and digits, inside [long long]. *)
Fixpoint skip_blanks (l : list Z) : list Z :=
  match l with c :: r => if (c =? 32) || ((9 <=? c) && (c <=? 13)) then skip_blanks r else l | [] => [] end.
Fixpoint atoll_digits (l : list Z) (n : Z) : Z :=
  match l with c :: r => if (48 <=? c) && (c <=? 57) then atoll_digits r (n * 10 + (c - 48)) else n | [] => n end.
Definition atoll (l : list Z) : Z :=
  let l := skip_blanks l in
  let '(neg, l) := match l with 45 :: r => (true, r) | 43 :: r => (false, r) | _ => (false, l) end in
  let n := atoll_digits l 0 in Z.max LLONG_MIN (Z.min LLONG_MAX (if (neg : bool) then - n else n)).

Section thread.
Context {E : Entropy}.

(** The worker before its loop: the capability and the arena it keeps. *)
Definition worker_arena (mmap : option Z) : ST Arena.astate (Z * Z) :=
  let! ar_cap := Arena.on_acaps oo_cap_grant_arena in
  let! ar_res := oo_arena_create mmap ar_cap 65536 in
  match res_ok ar_res, sdata (res_val ar_res) with
  | true, Some d =>
      if strn_eq 3 0 d (ascii_bytes "ar:") then
        let arena_id := atoll (drop 3 d) in
        let! _ := oo_arena_alloc ar_cap arena_id 0 in ret (ar_cap, arena_id)
      else ret (ar_cap, -1)
  | _, _ => ret (ar_cap, -1)
  end.
(** The worker after its loop. *)
Definition worker_arena_end (ar_cap arena_id : Z) : ST Arena.astate unit :=
  if 0 <=? arena_id then
    let! _ := oo_arena_alloc ar_cap arena_id (-1) in
    let! _ := oo_arena_destroy ar_cap arena_id in ret tt
  else ret tt.
(** Arena calls of the worker of slot [i]. *)
Definition as_worker {A} (i : nat) (m : ST Arena.astate A) : ST thstate A := fun s =>
  let x := thread_at i s in
  let* r := m (with_active (w_active x) (arenas s)) in
  let '(v, ar) := r in
  Ret (v, set_thread i (mkThr (t_live x) (t_running x) (t_stop x) (t_name x) (t_pc x) (w_cap x) (w_arena x) (g_active_arena_slot ar))
            (mkTh (with_active (g_active_arena_slot (arenas s)) ar) (g_threads s))).
Definition with_pc (pc : tpc) (r : bool) (x : OoThreadSlot) : OoThreadSlot := mkThr (t_live x) r (t_stop x) (t_name x) pc (w_cap x) (w_arena x) (w_active x).
(** One turn of the worker. *)
Definition worker_turn (mmap : option Z) (i : nat) : ST thstate unit :=
  let! s := get_state in
  let x := thread_at i s in
  match t_pc x with
  | TInit =>
      let! r := as_worker i (worker_arena mmap) in
      set_state (fun s => let x := thread_at i s in set_thread i (mkThr (t_live x) (t_running x) (t_stop x) (t_name x) TStart (fst r) (snd r) (w_active x)) s)
  | TStart | TWake =>
      let running := match t_pc x with TStart => true | _ => t_running x end in
      if negb (t_stop x) && t_live x then set_state (set_thread i (with_pc TWait running x))
      else
        let! _ := set_state (set_thread i (with_pc TDone false x)) in
        as_worker i (worker_arena_end (w_cap x) (w_arena x))
  | TWait | TDone => undef
  end.

(** * Identifiers *)

(** The digits of "tid:N". *)
Fixpoint tid_digits (l : list Z) (n : Z) : Z :=
  match l with
  | [] => n
  | c :: l =>
      if (c <? 48) || (57 <? c) then -1
      else let n := n * 10 + (c - 48) in if OO_THREAD_SLOTS <=? n then -1 else tid_digits l n
  end.
Definition thr_parse_tid (s : OoStr) : Z :=
  match sdata s with
  | None => -1
  | Some d =>
      if slen s <? 5 then -1
      else if negb (d.[0] =? 116) || negb (d.[1] =? 105) || negb (d.[2] =? 100) || negb (d.[3] =? 58) then -1
      else if slen s =? 4 then -1
      else tid_digits (slice 4 (Z.to_nat (slen s - 4)) d) 0
  end.

(** * Operations *)

Definition thr_alloc_slot (l : list OoThreadSlot) : option nat := fst <$> list_find (fun x => t_live x = false) l.
Definition thread_name (name : OoStr) : list Z :=
  match sdata name with Some d => if 0 <? slen name then take (Z.to_nat (Z.min (slen name) 31)) d else [] | None => [] end.
Definition res (good : bool) (l : list Z) : Str.OoResS := mkResS good (str_of l).
Definition oo_thread_spawn (created : bool) (cap : Z) (nm : OoStr) : ST thstate Str.OoResS :=
  let! _ := on_thcaps (oo_cap_require_thread cap) in
  let! s := get_state in
  match thr_alloc_slot (g_threads s) with
  | None => ret (res false (ascii_bytes "thread_spawn: no free slot"))
  | Some slot =>
      if match t_pc (thread_at slot s) with TDone => false | _ => true end then undef
      else
      let! _ := set_state (set_thread slot (mkThr created false false (thread_name nm) (if created then TInit else TDone) 0 (-1) (-1))) in
      if negb created then ret (res false (ascii_bytes "thread_spawn failed"))
      else ret (res true (numbered (ascii_bytes "tid:") slot))
  end.
(** [stop_req = 1], the broadcast, [live = 0]. *)
Definition thread_stop (x : OoThreadSlot) : OoThreadSlot :=
  mkThr false (t_running x) true (t_name x) (match t_pc x with TWait => TWake | pc => pc end) (w_cap x) (w_arena x) (w_active x).
(** [pthread_join]: the worker's turns up to its end, at most [fuel];
    [Undefined] if it sleeps. *)
Fixpoint pthread_join (fuel : nat) (mmap : option Z) (i : nat) : ST thstate unit :=
  match fuel with
  | O => undef
  | S fuel =>
      let! s := get_state in
      match t_pc (thread_at i s) with TDone => ret tt | _ => let! _ := worker_turn mmap i in pthread_join fuel mmap i end
  end.
Definition oo_thread_join (joins : bool) (mmap : option Z) (cap slot : Z) : ST thstate Str.OoResS :=
  let s := i32 slot in
  let! _ := on_thcaps (oo_cap_require_thread cap) in
  if (s <? 0) || (OO_THREAD_SLOTS <=? s) then ret (res false (ascii_bytes "thread_join: bad slot"))
  else
    let i := Z.to_nat s in
    let! st := get_state in
    if negb (t_live (thread_at i st)) then ret (res false (ascii_bytes "thread_join: empty slot"))
    else
      let! _ := set_state (set_thread i (thread_stop (thread_at i st))) in
      if negb joins then ret (res false (ascii_bytes "thread_join failed"))
      else let! _ := pthread_join 3 mmap i in ret (res true (ascii_bytes "joined")).
Definition oo_thread_join_s (joins : bool) (mmap : option Z) (cap : Z) (tid : OoStr) : ST thstate Str.OoResS :=
  let slot := thr_parse_tid tid in
  if slot <? 0 then let! _ := on_thcaps (oo_cap_require_thread cap) in ret (res false (ascii_bytes "thread_join: bad tid"))
  else oo_thread_join joins mmap cap slot.
(** * Runs *)

(** The calls, the turns of the workers and the wakes of [pthread_cond_wait]
    that no broadcast made. *)
Inductive thread_event :=
| Spawn (created : bool) (name : OoStr) | Join (mmap : option Z) (slot : Z) | JoinS (mmap : option Z) (tid : OoStr)
| Turn (mmap : option Z) (i : nat) | Wake (i : nat).
Definition run_event (cap : Z) (e : thread_event) : ST thstate (option Str.OoResS) :=
  match e with
  | Spawn created nm => let! r := oo_thread_spawn created cap nm in ret (Some r)
  | Join mmap slot => let! r := oo_thread_join true mmap cap slot in ret (Some r)
  | JoinS mmap tid => let! r := oo_thread_join_s true mmap cap tid in ret (Some r)
  | Turn mmap i => let! _ := worker_turn mmap i in ret None
  | Wake i => let! s := get_state in let! _ := set_state (set_thread i (with_pc TWake (t_running (thread_at i s)) (thread_at i s))) in ret None
  end.
(** What can happen: a worker that sleeps has no turn, and the text of a join
    can be read. *)
Definition can_happen (e : thread_event) (s : thstate) : Prop :=
  match e with
  | Spawn _ _ | Join _ _ => True
  | JoinS _ tid => wf_str tid
  | Turn _ i => t_pc (thread_at i s) <> TDone /\ t_pc (thread_at i s) <> TWait
  | Wake i => t_pc (thread_at i s) = TWait
  end.
Definition thstart (ar : Arena.astate) : thstate := mkTh ar (repeat idle_thread (Z.to_nat OO_THREAD_SLOTS)).
Definition live_arenas (s : Arena.astate) : nat := length (List.filter live (g_ar s)).

(** ** The abstract threads: which slots have a worker, whether it has begun,
    and how many arenas are taken *)
Record Workers := mkWorkers { workers : list (option bool); taken : nat }.
(** The slot that a text names: "tid:" and a number below 64, with or without
    leading zeros. *)
Definition tid_named (tid : OoStr) : option Z :=
  match sdata tid with
  | None => None
  | Some d =>
      let b := take (Z.to_nat (slen tid)) d in let ds := drop 4 b in let n := fold_left (fun n c => n * 10 + (c - 48)) ds 0 in
      if bool_decide (take 4 b = ascii_bytes "tid:" /\ ds <> [] /\ Forall (fun c => 48 <= c <= 57) ds /\ n < 64) then Some n else None
  end.
(** A worker that begins takes an arena, if there is one, for good. *)
Definition begin_worker (mmap : option Z) (i : nat) (W : Workers) : Workers :=
  match workers W !! i with
  | Some (Some false) => mkWorkers (<[i := Some true]> (workers W)) (if mmap is Some _ then Nat.min 32 (S (taken W)) else taken W)
  | _ => W
  end.
Definition join_worker (mmap : option Z) (slot : option nat) (W : Workers) : Str.OoResS * Workers :=
  match slot with
  | None => (res false (ascii_bytes "thread_join: bad slot"), W)
  | Some i =>
      match workers W !! i with
      | Some (Some _) => let W := begin_worker mmap i W in (res true (ascii_bytes "joined"), mkWorkers (<[i := None]> (workers W)) (taken W))
      | _ => (res false (ascii_bytes "thread_join: empty slot"), W)
      end
  end.
Definition spec_thread (e : thread_event) (W : Workers) : option Str.OoResS * Workers :=
  match e with
  | Spawn created _ =>
      match fst <$> list_find (fun o => o = None) (workers W) with
      | None => (Some (res false (ascii_bytes "thread_spawn: no free slot")), W)
      | Some i =>
          if created then (Some (res true (numbered (ascii_bytes "tid:") i)), mkWorkers (<[i := Some false]> (workers W)) (taken W))
          else (Some (res false (ascii_bytes "thread_spawn failed")), W)
      end
  | Join mmap slot => let '(r, W) := join_worker mmap (slot_named 64 slot) W in (Some r, W)
  | JoinS mmap tid =>
      match tid_named tid with
      | None => (Some (res false (ascii_bytes "thread_join: bad tid")), W)
      | Some n => let '(r, W) := join_worker mmap (Some (Z.to_nat n)) W in (Some r, W)
      end
  | Turn mmap i => (None, begin_worker mmap i W)
  | Wake i => (None, W)
  end.
(** The states that a program with the capability [cap] reaches. *)
Inductive thread_reach (t : tokens) (cap : Z) : thstate -> Workers -> Prop :=
| threach_start ar : gate_ready t (acaps ar) -> gate_ok (g_tok_arena t) (g_tok_arena t) 0 = true -> length (g_ar ar) = OO_ARENA_SLOTS ->
    thread_reach t cap (thstart ar) (mkWorkers (repeat None 64) (live_arenas ar))
| threach_step s W e r s' : thread_reach t cap s W -> can_happen e s -> run_event cap e s = Ret (r, s') -> thread_reach t cap s' (snd (spec_thread e W)).
(** * The identifier *)

Lemma tid_digits_spec l n : bytes l -> 0 <= n < 64 ->
  tid_digits l n = let m := fold_left (fun n c => n * 10 + (c - 48)) l n in if bool_decide (Forall (fun c => 48 <= c <= 57) l /\ m < 64) then m else -1.
Proof.
  revert n. induction l as [|c l IH]; intros n B H; cbn [tid_digits fold_left]; cbv zeta; [by rewrite bool_decide_eq_true_2 by (split; [constructor|lia])|].
  apply Forall_cons_1 in B as [_ B].
  assert (G : forall l m, 64 <= m -> Forall (fun c => 48 <= c <= 57) l -> 64 <= fold_left (fun n c => n * 10 + (c - 48)) l m).
  { clear. induction l as [|c l IH]; intros m L F; cbn [fold_left]; [done|]. apply Forall_cons_1 in F as [C F]. apply IH; [lia|done]. }
  destruct (Z.ltb_spec c 48) as [C|C]; destruct (Z.ltb_spec 57 c) as [D|D]; cbn [orb]; try (rewrite bool_decide_eq_false_2; [done|]; intros [F _]; apply Forall_cons_1 in F as [F _]; lia).
  cbv zeta. unfold OO_THREAD_SLOTS. set (m := n * 10 + (c - 48)) in *. destruct (Z.leb_spec 64 m) as [L|L].
  - rewrite bool_decide_eq_false_2; [done|]. intros [F Q]. apply Forall_cons_1 in F as [_ F]. specialize (G l m L F). lia.
  - rewrite IH by (done || lia). cbv zeta.
    destruct (decide (Forall (fun c => 48 <= c <= 57) l /\ fold_left (fun n c => n * 10 + (c - 48)) l m < 64)) as [Y|N].
    + rewrite !bool_decide_eq_true_2; [done| |done]. destruct Y as [F Q]. split; [constructor; [lia|done]|done].
    + rewrite !bool_decide_eq_false_2; [done| |done]. intros [F Q]. apply Forall_cons_1 in F as [_ F]. by apply N.
Qed.
Lemma tid_nonneg l n : 0 <= n -> Forall (fun c => 48 <= c <= 57) l -> 0 <= fold_left (fun n c => n * 10 + (c - 48)) l n.
Proof. revert n. induction l as [|c l IH]; intros n L F; cbn [fold_left]; [done|]. apply Forall_cons_1 in F as [C F]. apply IH; [lia|done]. Qed.
(** Parsing is the naming; a text that names nothing is -1. *)
Lemma thr_parse_tid_spec tid : wf_str tid -> thr_parse_tid tid = default (-1) (tid_named tid) /\ match tid_named tid with Some n => 0 <= n < 64 | None => True end.
Proof.
  intros [H0 W]. unfold thr_parse_tid, tid_named. destruct (sdata tid) as [d|]; [|done]. destruct W as [L B]. cbv zeta. set (b := take (Z.to_nat (slen tid)) d).
  assert (Lb : Z.of_nat (length b) = slen tid) by (unfold b; rewrite length_take; lia). assert (Bb : bytes b) by (by apply bytes_take).
  split; [|case_bool_decide as Q; [|done]; destruct Q as (_ & _ & F & Q); split; [by apply tid_nonneg|done]].
  destruct (Z.ltb_spec (slen tid) 5) as [S|S].
  - rewrite bool_decide_eq_false_2; [done|]. intros (_ & N & _). apply N, nil_length_inv. rewrite length_drop. lia.
  - destruct b as [|x0 [|x1 [|x2 [|x3 r]]]] eqn:Eb; cbn [length] in Lb; try lia.
    assert (G : forall i, (i < 4)%nat -> d.[i] = b.[i]) by (intros i Hi; unfold b; rewrite get_take by lia; done). rewrite !G, Eb by lia. clear G.
    change ((x0 :: x1 :: x2 :: x3 :: r).[0]) with x0. change ((x0 :: x1 :: x2 :: x3 :: r).[1]) with x1. change ((x0 :: x1 :: x2 :: x3 :: r).[2]) with x2. change ((x0 :: x1 :: x2 :: x3 :: r).[3]) with x3.
    change (take 4 (x0 :: x1 :: x2 :: x3 :: r)) with [x0; x1; x2; x3]. change (drop 4 (x0 :: x1 :: x2 :: x3 :: r)) with r.
    assert (Es : slice 4 (Z.to_nat (slen tid - 4)) d = r).
    { unfold slice. replace (Z.to_nat (slen tid - 4)) with (Z.to_nat (slen tid) - 4)%nat by lia. rewrite <- skipn_firstn_comm. change (drop 4 b = r). by rewrite Eb. }
    rewrite Es. assert (N4 : (slen tid =? 4) = false) by lia. rewrite N4. repeat (apply Forall_cons_1 in Bb as [_ Bb]). rewrite tid_digits_spec by (done || lia). cbv zeta.
    assert (Nr : r <> []) by (intros ->; cbn [length] in Lb; lia).
    change (ascii_bytes "tid:") with [116; 105; 100; 58].
    destruct (Z.eqb_spec x0 116) as [->|X]; cbn [negb orb]; [|rewrite (bool_decide_eq_false_2 (_ = _ /\ _)); [done|]; intros (Q & _); congruence].
    destruct (Z.eqb_spec x1 105) as [->|X]; cbn [negb orb]; [|rewrite (bool_decide_eq_false_2 (_ = _ /\ _)); [done|]; intros (Q & _); congruence].
    destruct (Z.eqb_spec x2 100) as [->|X]; cbn [negb orb]; [|rewrite (bool_decide_eq_false_2 (_ = _ /\ _)); [done|]; intros (Q & _); congruence].
    destruct (Z.eqb_spec x3 58) as [->|X]; cbn [negb orb]; [|rewrite (bool_decide_eq_false_2 (_ = _ /\ _)); [done|]; intros (Q & _); congruence].
    case_bool_decide as P1; case_bool_decide as P2; try done; exfalso; [apply P2|apply P1]; tauto.
Qed.
(** * What a worker does with its arena *)

Lemma free_slot_range l i : free_slot l i = -1 \/ (i <= free_slot l i < i + Z.of_nat (length l) /\ live (nth (Z.to_nat (free_slot l i - i)) l idle) = false).
Proof.
  revert i. induction l as [|a l IH]; intros i; cbn [free_slot length]; [by left|]. destruct (live a) eqn:La; cbn [negb].
  - destruct (IH (i + 1)) as [->|[H1 H2]]; [by left|right]. split; [lia|]. replace (Z.to_nat (free_slot l (i + 1) - i)) with (S (Z.to_nat (free_slot l (i + 1) - (i + 1)))) by lia. exact H2.
  - right. split; [lia|]. by rewrite Z.sub_diag.
Qed.
Lemma free_slot_full l i : 0 <= i -> free_slot l i = -1 -> length (List.filter live l) = length l.
Proof.
  revert i. induction l as [|a l IH]; intros i Hi F; cbn [free_slot List.filter length] in *; [done|]. destruct (live a); cbn [negb] in F; [|lia]. cbn [length]. by rewrite (IH (i + 1)) by (done || lia).
Qed.
Lemma count_insert l k a : (k < length l)%nat -> live (nth k l idle) = false -> live a = true -> length (List.filter live (<[k := a]> l)) = S (length (List.filter live l)).
Proof.
  revert k. induction l as [|b l IH]; intros k L N A; cbn [length] in L; [lia|]. destruct k as [|k].
  - change (<[0%nat := a]> (b :: l)) with (a :: l). cbn [List.filter]. rewrite A. cbn [nth] in N. by rewrite N.
  - change (<[S k := a]> (b :: l)) with (b :: <[k := a]> l). cbn [List.filter]. specialize (IH k ltac:(lia) N A). destruct (live b); cbn [length]; by rewrite IH.
Qed.
(** The state a worker leaves before its loop. *)
Definition own_arena (mmap : option Z) (s : Arena.astate) : Arena.astate :=
  match mmap with
  | Some mem => if ar_alloc_slot s <? 0 then s else put_slot (ar_alloc_slot s) (mkArena true mem 65536 0 (u64 (gen (slot (ar_alloc_slot s) s) + 1)) SIZE_MAX) s
  | None => s
  end.
Record arena_ready (t : tokens) (s : Arena.astate) : Prop := mkReady {
  ready_gate : gate_ready t (acaps s); ready_token : gate_ok (g_tok_arena t) (g_tok_arena t) 0 = true; ready_size : length (g_ar s) = OO_ARENA_SLOTS }.
Lemma ready_open t s : arena_ready t s -> arena_open (g_tok_arena t) s.
Proof. intros [(T & R & F) K _]. split; [by exists t|done|done]. Qed.
Lemma no_prefix i : 0 <= i < 32 -> strn_eq 3 0 (dec i) (ascii_bytes "ar:") = false.
Proof.
  intros H. pose proof (range_forall (fun i => negb (strn_eq 3 0 (dec i) (ascii_bytes "ar:"))) 0 32 ltac:(vm_compute; reflexivity) i) as R. cbn beta in R.
  apply negb_true_iff, R. lia.
Qed.
(** The name of an arena is its number alone, so a worker never knows its own. *)
Lemma worker_arena_run mmap t s : arena_ready t s -> worker_arena mmap s = Ret ((g_tok_arena t, -1), own_arena mmap s).
Proof.
  intros R. pose proof (ready_open t s R) as O. destruct R as [(T & _ & _) _ L]. unfold worker_arena, bind at 1. unfold Arena.on_acaps at 1, lift, oo_cap_grant_arena, bind. rewrite (oo_caps_init_ready _ t T). cbn [run_bind ret]. rewrite with_acaps_same.
  unfold oo_arena_create, bind. rewrite (need_run _ s O). cbn [run_bind]. change ((65536 <? 64) || (Z.shiftl 1 30 <? 65536)) with false. cbn iota.
  destruct mmap as [mem|]; [|done]. unfold get_state. cbn [run_bind own_arena]. destruct (Z.ltb_spec (ar_alloc_slot s) 0) as [N|N]; [done|]. unfold set_state, ret. cbn [run_bind res_ok res_val res_ok_ sdata str_of].
  rewrite no_prefix; [done|]. unfold ar_alloc_slot in *. destruct (free_slot_range (g_ar s) 0) as [|[H _]]; [lia|]. rewrite L in H. unfold OO_ARENA_SLOTS in H. lia.
Qed.
Lemma own_arena_ready mmap t s : arena_ready t s -> arena_ready t (own_arena mmap s).
Proof. intros R. destruct mmap; cbn [own_arena]; [|done]. destruct (_ <? 0); [done|]. destruct R as [G K L]. split; [done|done|]. unfold put_slot. cbn [g_ar]. by rewrite length_insert. Qed.
Lemma own_arena_active mmap s i : with_active (g_active_arena_slot s) (own_arena mmap (with_active i s)) = own_arena mmap s /\ g_active_arena_slot (own_arena mmap (with_active i s)) = i.
Proof. destruct s as [c l b k x]. destruct mmap; cbn [own_arena]; [|done]. unfold ar_alloc_slot, with_active. cbn [g_ar g_active_arena_slot acaps blocks g_ck]. by destruct (_ <? 0). Qed.
(** One arena more lives, when there was one. *)
Lemma own_arena_lives mmap t s : arena_ready t s -> live_arenas (own_arena mmap s) = if mmap is Some _ then Nat.min 32 (S (live_arenas s)) else live_arenas s.
Proof.
  intros [_ _ L]. destruct mmap as [mem|]; [|done]. cbn [own_arena]. unfold live_arenas, ar_alloc_slot. destruct (free_slot_range (g_ar s) 0) as [F|[R Fr]].
  - rewrite F. cbn [Z.ltb Z.compare]. rewrite (free_slot_full _ 0) by done. rewrite L. done.
  - destruct (Z.ltb_spec (free_slot (g_ar s) 0) 0); [lia|]. rewrite Z.sub_0_r in Fr. unfold put_slot. cbn [g_ar]. set (a := mkArena _ _ _ _ _ _).
    assert (C : length (List.filter live (<[Z.to_nat (free_slot (g_ar s) 0) := a]> (g_ar s))) = S (length (List.filter live (g_ar s)))) by (apply count_insert; [lia|done|done]).
    pose proof (List.filter_length_le live (<[Z.to_nat (free_slot (g_ar s) 0) := a]> (g_ar s))) as B. rewrite length_insert, L in B. unfold OO_ARENA_SLOTS in B. lia.
Qed.
Lemma arena_end_nothing c s : worker_arena_end c (-1) s = Ret (tt, s).
Proof. done. Qed.
(** * The simulation *)

Definition slot_ok (x : OoThreadSlot) (o : option bool) : Prop :=
  match o with
  | None => t_live x = false /\ t_pc x = TDone
  | Some b => t_live x = true /\ t_stop x = false /\ t_pc x <> TDone /\ if b then t_pc x <> TInit /\ w_arena x = -1 else t_pc x = TInit
  end.
Record threads_sim (t : tokens) (s : thstate) (W : Workers) : Prop := mkSim {
  sim_arenas : arena_ready t (arenas s);
  sim_slots : Forall2 slot_ok (g_threads s) (workers W);
  sim_size : length (g_threads s) = 64%nat;
  sim_taken : taken W = live_arenas (arenas s) }.
Lemma thread_at_lookup i s : (i < length (g_threads s))%nat -> g_threads s !! i = Some (thread_at i s).
Proof. intros L. unfold thread_at. destruct (lookup_lt_is_Some_2 (g_threads s) i L) as [x Ex]. by rewrite nth_lookup, Ex. Qed.
Lemma thread_at_set i x s : (i < length (g_threads s))%nat -> thread_at i (set_thread i x s) = x.
Proof. intros L. unfold thread_at, set_thread. cbn [g_threads]. by rewrite nth_lookup, list_lookup_insert_eq. Qed.
Lemma set_thread_set i x y s : set_thread i y (set_thread i x s) = set_thread i y s.
Proof. unfold set_thread. cbn [arenas g_threads]. by rewrite list_insert_insert_eq. Qed.
Lemma sim_at t s W i o : threads_sim t s W -> workers W !! i = Some o -> (i < length (g_threads s))%nat /\ slot_ok (thread_at i s) o.
Proof.
  intros [_ F _ _] Ew. destruct (Forall2_lookup_r _ _ _ _ _ F Ew) as (x & Ex & H). pose proof (lookup_lt_Some _ _ _ Ex) as L. split; [done|].
  rewrite (thread_at_lookup i s L) in Ex. injection Ex as <-. exact H.
Qed.
(** A slot that changes, with the arenas it may have changed. *)
Lemma sim_set t s W i x o ar n : threads_sim t s W -> slot_ok x o -> arena_ready t ar -> n = live_arenas ar ->
  threads_sim t (mkTh ar (<[i := x]> (g_threads s))) (mkWorkers (<[i := o]> (workers W)) n).
Proof.
  intros [_ F L _] H R ->. split; cbn [arenas g_threads workers taken]; [done| |by rewrite length_insert|done]. by apply Forall2_insert.
Qed.
Lemma sim_set_same t s W i x o : threads_sim t s W -> workers W !! i = Some o -> slot_ok x o -> threads_sim t (set_thread i x s) W.
Proof.
  intros S Ew H. pose proof (sim_set t s W i x o (arenas s) (taken W) S H (sim_arenas _ _ _ S) (sim_taken _ _ _ S)) as G.
  rewrite (list_insert_id (workers W) i o Ew) in G. destruct W. exact G.
Qed.

(** The gate. *)
Definition past_gate (s : thstate) : thstate := mkTh (with_acaps (after_check (acaps (arenas s))) (arenas s)) (g_threads s).
Lemma thread_gate cap t s W : threads_sim t s W -> opens cap t g_tok_thread = true -> on_thcaps (oo_cap_require_thread cap) s = Ret (tt, past_gate s).
Proof. intros [[G _ _] _ _ _] O. unfold on_thcaps, lift, Arena.on_acaps, lift. by rewrite (gate_thread cap t _ G), O. Qed.
Lemma sim_gate t s W : threads_sim t s W -> threads_sim t (past_gate s) W.
Proof. intros [[G K L] F N C]. split; [split; [by apply gate_ready_after|exact K|exact L]|exact F|exact N|exact C]. Qed.

(** The turns. *)
Lemma as_worker_run {A} i (m : ST Arena.astate A) s v ar : m (with_active (w_active (thread_at i s)) (arenas s)) = Ret (v, ar) ->
  as_worker i m s = Ret (v, set_thread i (let x := thread_at i s in mkThr (t_live x) (t_running x) (t_stop x) (t_name x) (t_pc x) (w_cap x) (w_arena x) (g_active_arena_slot ar))
                             (mkTh (with_active (g_active_arena_slot (arenas s)) ar) (g_threads s))).
Proof. intros Em. unfold as_worker. by rewrite Em. Qed.
Lemma with_active_ready t i s : arena_ready t s -> arena_ready t (with_active i s).
Proof. by intros [G K L]. Qed.
Lemma turn_begins t mmap i s : arena_ready t (arenas s) -> (i < length (g_threads s))%nat -> t_pc (thread_at i s) = TInit ->
  let x := thread_at i s in
  worker_turn mmap i s = Ret (tt, mkTh (own_arena mmap (arenas s)) (<[i := mkThr (t_live x) (t_running x) (t_stop x) (t_name x) TStart (g_tok_arena t) (-1) (w_active x)]> (g_threads s))).
Proof.
  intros R L P. cbv zeta. unfold worker_turn, bind, get_state. cbn [run_bind]. rewrite P.
  pose proof (worker_arena_run mmap t _ (with_active_ready t (w_active (thread_at i s)) _ R)) as H. rewrite (as_worker_run i _ s _ _ H). cbn [run_bind fst snd].
  destruct (own_arena_active mmap (arenas s) (w_active (thread_at i s))) as [E1 E2]. rewrite E1, E2. unfold set_state. rewrite thread_at_set, set_thread_set by done. done.
Qed.
Lemma turn_sleeps mmap i s : t_pc (thread_at i s) = TStart \/ t_pc (thread_at i s) = TWake -> t_stop (thread_at i s) = false -> t_live (thread_at i s) = true ->
  exists r, worker_turn mmap i s = Ret (tt, set_thread i (with_pc TWait r (thread_at i s)) s).
Proof. intros P St Li. unfold worker_turn, bind, get_state. cbn [run_bind]. rewrite St, Li. destruct P as [-> | ->]; by eexists. Qed.
Lemma turn_ends mmap i s : (i < length (g_threads s))%nat -> t_pc (thread_at i s) = TStart \/ t_pc (thread_at i s) = TWake -> t_stop (thread_at i s) = true -> w_arena (thread_at i s) = -1 ->
  worker_turn mmap i s = Ret (tt, set_thread i (with_pc TDone false (thread_at i s)) s).
Proof.
  intros L P St Wa. set (x := thread_at i s) in *.
  assert (G : (let! _ := set_state (set_thread i (with_pc TDone false x)) in as_worker i (worker_arena_end (w_cap x) (w_arena x))) s = Ret (tt, set_thread i (with_pc TDone false x) s)).
  { unfold bind, set_state. cbn [run_bind]. rewrite Wa.
    rewrite (as_worker_run i _ _ tt (with_active (w_active (thread_at i (set_thread i (with_pc TDone false x) s))) (arenas s))) by done.
    rewrite thread_at_set by done. destruct s as [[c l b k a] th]. unfold set_thread, with_active. cbn [arenas g_threads acaps g_ar blocks g_ck g_active_arena_slot]. by rewrite list_insert_insert_eq. }
  unfold worker_turn, bind at 1, get_state. cbn [run_bind]. fold x. rewrite St. cbn [negb andb]. destruct P as [-> | ->]; exact G.
Qed.
(** A join is over after three turns at most. *)
Lemma join_run t mmap i s : arena_ready t (arenas s) -> (i < length (g_threads s))%nat -> t_live (thread_at i s) = false -> t_stop (thread_at i s) = true ->
  (t_pc (thread_at i s) = TInit \/ (t_pc (thread_at i s) = TStart \/ t_pc (thread_at i s) = TWake) /\ w_arena (thread_at i s) = -1) ->
  exists x, pthread_join 3 mmap i s =
            Ret (tt, mkTh (match t_pc (thread_at i s) with TInit => own_arena mmap (arenas s) | _ => arenas s end) (<[i := x]> (g_threads s))) /\
            t_live x = false /\ t_pc x = TDone.
Proof.
  intros R L Li St P.
  assert (J : forall n s, (i < length (g_threads s))%nat -> t_live (thread_at i s) = false -> t_stop (thread_at i s) = true ->
    t_pc (thread_at i s) = TStart \/ t_pc (thread_at i s) = TWake -> w_arena (thread_at i s) = -1 ->
    exists x, pthread_join (S (S n)) mmap i s = Ret (tt, set_thread i x s) /\ t_live x = false /\ t_pc x = TDone).
  { clear. intros n s L Li St P Wa. exists (with_pc TDone false (thread_at i s)). split; [|by split]. cbn [pthread_join]. unfold bind at 1, get_state at 1. cbn [run_bind].
    assert (G : (let! _ := worker_turn mmap i in let! s := get_state in match t_pc (thread_at i s) with TDone => ret tt | _ => let! _ := worker_turn mmap i in pthread_join n mmap i end) s =
      Ret (tt, set_thread i (with_pc TDone false (thread_at i s)) s)).
    { unfold bind at 1. rewrite turn_ends by done. cbn [run_bind]. unfold bind at 1, get_state. cbn [run_bind]. rewrite thread_at_set by done. done. }
    destruct P as [-> | ->]; exact G. }
  destruct P as [P|[P Wa]].
  - rewrite P. set (n := 2%nat). cbn [pthread_join]. unfold bind at 1, get_state at 1. cbn [run_bind]. rewrite P. unfold bind at 1. rewrite (turn_begins t) by done. cbn [run_bind]. cbv zeta.
    set (y := mkThr _ _ _ _ _ _ _ _). change (mkTh (own_arena mmap (arenas s)) (<[i:=y]> (g_threads s))) with (set_thread i y (mkTh (own_arena mmap (arenas s)) (g_threads s))). set (s1 := mkTh _ (g_threads s)).
    assert (L1 : (i < length (g_threads s1))%nat) by done. assert (A : thread_at i (set_thread i y s1) = y) by (by apply thread_at_set).
    destruct (J 0%nat (set_thread i y s1)) as (x & Ej & H); rewrite ?A; try done; [by unfold set_thread; cbn [g_threads]; rewrite length_insert|by left|].
    exists x. split; [|exact H]. unfold n. rewrite Ej. by rewrite set_thread_set.
  - destruct (J 1%nat s L Li St P Wa) as (x & Ej & H). exists x. split; [|exact H]. rewrite Ej. by destruct P as [-> | ->].
Qed.
(** The calls. *)
Lemma thr_alloc_sim l w : Forall2 slot_ok l w -> thr_alloc_slot l = fst <$> list_find (fun o => o = None) w.
Proof.
  unfold thr_alloc_slot. induction 1 as [|x o l w H F IH]; [done|]. cbn [list_find]. destruct o as [b|].
  - rewrite !decide_False; [|done|destruct H as (-> & _); done]. destruct (list_find _ l) as [[]|], (list_find _ w) as [[]|]; cbn in *; congruence.
  - rewrite !decide_True; [done|done|]. apply H.
Qed.
Lemma spawn_sim t cap created nm s W : threads_sim t s W -> opens cap t g_tok_thread = true ->
  exists s', run_event cap (Spawn created nm) s = Ret (fst (spec_thread (Spawn created nm) W), s') /\ threads_sim t s' (snd (spec_thread (Spawn created nm) W)).
Proof.
  intros S O. pose proof (sim_gate t s W S) as S1. cbn [run_event spec_thread]. unfold bind at 1, oo_thread_spawn, bind at 1. rewrite (thread_gate cap t s W S O). cbn [run_bind]. set (s1 := past_gate s) in *.
  unfold bind at 1, get_state. cbn [run_bind]. rewrite (thr_alloc_sim _ _ (sim_slots _ _ _ S1)).
  destruct (list_find (fun o => o = None) (workers W)) as [[i o]|] eqn:F; cbn [fmap option_fmap option_map fst]; [|by exists s1].
  apply list_find_Some in F as (Ew & -> & _). destruct (sim_at t s1 W i None S1 Ew) as [L [Li P]]. rewrite P. cbn iota. unfold bind at 1, set_state. cbn [run_bind].
  destruct created; cbn [negb fst snd]; (eexists; split; [reflexivity|]).
  - apply (sim_set t s1 W i _ (Some false)); [done| |by destruct S1..]. by repeat split.
  - apply (sim_set_same t s1 W i _ None); [done|done|]. by split.
Qed.
Lemma joined_live t s W i b mmap : threads_sim t s W -> workers W !! i = Some (Some b) ->
  exists s', (let! _ := set_state (set_thread i (thread_stop (thread_at i s))) in pthread_join 3 mmap i) s = Ret (tt, s') /\
             threads_sim t s' (mkWorkers (<[i := None]> (workers (begin_worker mmap i W))) (taken (begin_worker mmap i W))).
Proof.
  intros S Ew. destruct (sim_at t s W i _ S Ew) as [L (Li & St & N & P)]. unfold bind, set_state. cbn [run_bind]. set (y := thread_stop (thread_at i s)). set (s1 := set_thread i y s).
  assert (A : thread_at i s1 = y) by (by apply thread_at_set). assert (L1 : (i < length (g_threads s1))%nat) by (unfold s1, set_thread; cbn [g_threads]; by rewrite length_insert).
  destruct (join_run t mmap i s1) as (x & Ej & Lx & Px); rewrite ?A; try done; [by destruct S| |].
  - unfold y, thread_stop. cbn [t_pc w_arena]. destruct b; [|left; by rewrite P]. destruct P as [P Wa]. right. destruct (t_pc (thread_at i s)); try done; by auto.
  - rewrite Ej, A. eexists. split; [reflexivity|]. change (g_threads s1) with (<[i := y]> (g_threads s)). rewrite list_insert_insert_eq.
    assert (Ep : match t_pc y with TInit => own_arena mmap (arenas s1) | _ => arenas s1 end = if b then arenas s else own_arena mmap (arenas s)).
    { unfold y, thread_stop. cbn [t_pc]. destruct b; [destruct P as [P _]; by destruct (t_pc (thread_at i s))|by rewrite P]. }
    rewrite Ep. unfold begin_worker. rewrite Ew. destruct b; cbn [workers taken].
    + apply (sim_set t s W i _ None); [done|by split|by destruct S..].
    + rewrite list_insert_insert_eq. apply (sim_set t s W i _ None); [done|by split|apply own_arena_ready; by destruct S|]. rewrite (own_arena_lives mmap t) by (by destruct S). by rewrite (sim_taken _ _ _ S).
Qed.
Lemma join_sim t cap mmap slot s W : threads_sim t s W -> opens cap t g_tok_thread = true ->
  exists s', oo_thread_join true mmap cap slot s = Ret (fst (join_worker mmap (slot_named 64 slot) W), s') /\ threads_sim t s' (snd (join_worker mmap (slot_named 64 slot) W)).
Proof.
  intros S O. pose proof (sim_gate t s W S) as S1. unfold oo_thread_join, bind at 1. rewrite (thread_gate cap t s W S O). cbn [run_bind]. set (s1 := past_gate s) in *.
  unfold slot_named, OO_THREAD_SLOTS. destruct ((i32 slot <? 0) || (64 <=? i32 slot)) eqn:B; [by exists s1|]. apply orb_false_iff in B as [B1 B2]. set (i := Z.to_nat (i32 slot)).
  cbn [join_worker]. unfold bind at 1, get_state at 1. cbn [run_bind]. assert (Lw : (i < length (workers W))%nat).
  { pose proof (Forall2_length (sim_slots _ _ _ S1)) as Q. rewrite (sim_size _ _ _ S1) in Q. lia. }
  destruct (lookup_lt_is_Some_2 _ _ Lw) as [o Ew]. rewrite Ew. destruct o as [b|]; destruct (sim_at t s1 W i _ S1 Ew) as [L H].
  - destruct H as (Li & _). rewrite Li. cbn [negb]. destruct (joined_live t s1 W i b mmap S1 Ew) as (s' & Ej & S'). exists s'. split; [|exact S'].
    unfold bind, set_state in *. cbn [run_bind negb] in *. by rewrite Ej.
  - destruct H as [Li _]. rewrite Li. by exists s1.
Qed.
Lemma turn_sim t cap mmap i s W : threads_sim t s W -> can_happen (Turn mmap i) s ->
  exists s', run_event cap (Turn mmap i) s = Ret (None, s') /\ threads_sim t s' (begin_worker mmap i W).
Proof.
  intros S [N1 N2]. cbn [run_event]. destruct (Nat.lt_ge_cases i (length (g_threads s))) as [L|L]; [|exfalso; apply N1; unfold thread_at; by rewrite nth_overflow].
  assert (Lw : (i < length (workers W))%nat) by (by rewrite <- (Forall2_length (sim_slots _ _ _ S))). destruct (lookup_lt_is_Some_2 _ _ Lw) as [o Ew].
  destruct (sim_at t s W i o S Ew) as [_ H]. destruct o as [b|]; [|destruct H as [_ P]; by rewrite P in N1]. destruct H as (Li & St & _ & P). unfold begin_worker, bind. rewrite Ew.
  destruct b; [destruct P as [P Wa]|].
  - destruct (turn_sleeps mmap i s) as (r & Et); [by destruct (t_pc (thread_at i s)); auto|done|done|]. rewrite Et. cbn [run_bind]. eexists. split; [reflexivity|].
    by apply (sim_set_same t s W i _ (Some true)).
  - rewrite (turn_begins t) by (done || by destruct S). cbn [run_bind]. eexists. split; [reflexivity|].
    apply (sim_set t s W i _ (Some true)); [done|by repeat split|apply own_arena_ready; by destruct S|]. rewrite (own_arena_lives mmap t) by (by destruct S). by rewrite (sim_taken _ _ _ S).
Qed.
Lemma slot_named_small n : 0 <= n < 64 -> slot_named 64 n = Some (Z.to_nat n).
Proof. intros H. unfold slot_named. rewrite i32_id by lia. destruct (Z.ltb_spec n 0); [lia|]. by destruct (Z.leb_spec 64 n); [lia|]. Qed.
Lemma event_sim t cap e s W : threads_sim t s W -> opens cap t g_tok_thread = true -> can_happen e s ->
  exists s', run_event cap e s = Ret (fst (spec_thread e W), s') /\ threads_sim t s' (snd (spec_thread e W)).
Proof.
  intros S O C. destruct e as [created nm|mmap slot|mmap tid|mmap i|i].
  - by apply spawn_sim.
  - destruct (join_sim t cap mmap slot s W S O) as (s' & Ej & S'). exists s'. cbn [run_event spec_thread]. unfold bind. rewrite Ej. cbn [run_bind]. by destruct (join_worker _ _ W).
  - cbn [run_event spec_thread]. unfold oo_thread_join_s, bind. cbv zeta. destruct (thr_parse_tid_spec tid C) as [-> R]. destruct (tid_named tid) as [n|]; cbn [default from_option Datatypes.id].
    + destruct (Z.ltb_spec n 0); [lia|]. destruct (join_sim t cap mmap n s W S O) as (s' & Ej & S'). exists s'. rewrite (slot_named_small n R) in *. rewrite Ej. cbn [run_bind]. by destruct (join_worker _ _ W).
    + change (-1 <? 0) with true. cbv beta iota. rewrite (thread_gate cap t s W S O). cbn [run_bind]. exists (past_gate s). split; [done|by apply sim_gate].
  - destruct (turn_sim t cap mmap i s W S C) as (s' & Et & S'). by exists s'.
  - cbn [run_event spec_thread can_happen] in *. unfold bind, get_state, set_state. cbn [run_bind]. eexists. split; [reflexivity|]. cbn [snd].
    assert (L : (i < length (g_threads s))%nat). { destruct (Nat.lt_ge_cases i (length (g_threads s))) as [L|L]; [done|]. unfold thread_at in C. by rewrite nth_overflow in C. }
    assert (Lw : (i < length (workers W))%nat) by (by rewrite <- (Forall2_length (sim_slots _ _ _ S))). destruct (lookup_lt_is_Some_2 _ _ Lw) as [o Ew].
    apply (sim_set_same t s W i _ o S Ew). destruct (sim_at t s W i o S Ew) as [_ H]. destruct o as [b|]; cbn [slot_ok] in *; [|destruct H as [_ P]; by rewrite P in C].
    destruct H as (Li & St & N & P). repeat split; try done. destruct b; [destruct P; by split|by rewrite P in C].
Qed.
Lemma thread_reach_sim t cap s W : opens cap t g_tok_thread = true -> thread_reach t cap s W -> threads_sim t s W.
Proof.
  intros O. induction 1 as [ar G K L|s W e r s' _ IH C R].
  - split; [by split| |done|done]. cbn [workers g_threads thstart]. change (Z.to_nat OO_THREAD_SLOTS) with 64%nat.
    assert (H : forall n, Forall2 slot_ok (repeat idle_thread n) (repeat None n)) by (induction n; cbn [repeat]; constructor; [by split|done]). apply H.
  - destruct (event_sim t cap e s W IH O C) as (s2 & E2 & S2). rewrite R in E2. apply Ret_inj, pair_equal_spec in E2 as [_ ->]. exact S2.
Qed.

(** C26.  Threads refine a table of sixty-four slots, whatever the interleaving
    with the workers.  In every state that a program with the ThreadCap token
    reaches, every call returns, a join included, with the answer of the table:
    spawning names the first free slot, joining by number or by text says
    "joined" for a slot in use and frees it.  And the arenas that are live are
    the arenas taken: each worker that begins takes one of the thirty-two, and
    no worker ever gives one back. *)
Theorem threads_refine_slots t cap s W : opens cap t g_tok_thread = true -> thread_reach t cap s W ->
  live_arenas (arenas s) = taken W /\
  Forall2 (fun x o => t_live x = match o with Some _ => true | None => false end) (g_threads s) (workers W) /\
  forall e, can_happen e s -> exists s', run_event cap e s = Ret (fst (spec_thread e W), s') /\ thread_reach t cap s' (snd (spec_thread e W)) /\
    (taken W <= taken (snd (spec_thread e W)))%nat.
Proof.
  intros O R. pose proof (thread_reach_sim t cap s W O R) as S. split; [by rewrite (sim_taken _ _ _ S)|]. split.
  - eapply Forall2_impl; [|exact (sim_slots _ _ _ S)]. intros x [b|] H; by destruct H.
  - intros e C. destruct (event_sim t cap e s W S O C) as (s' & Ee & S'). exists s'. split; [done|]. split; [by eapply threach_step|].
    assert (B : forall mmap i, (taken W <= taken (begin_worker mmap i W))%nat).
    { intros mmap i. unfold begin_worker. destruct (workers W !! i) as [[[]|]|]; try done. cbn [taken]. destruct mmap; [|done].
      pose proof (sim_taken _ _ _ S) as T. unfold live_arenas in T. pose proof (List.filter_length_le live (g_ar (arenas s))) as Q. rewrite (ready_size _ _ (sim_arenas _ _ _ S)) in Q. unfold OO_ARENA_SLOTS in Q. lia. }
    assert (J : forall mmap o, (taken W <= taken (snd (join_worker mmap o W)))%nat).
    { intros mmap [i|]; cbn [join_worker]; [|done]. destruct (workers W !! i) as [[]|]; cbn [snd taken]; [apply B|done..]. }
    destruct e as [created nm|mmap slot|mmap tid|mmap i|i]; cbn [spec_thread]; [| | |apply B|done].
    + destruct (fst <$> _); [|done]. by destruct created.
    + pose proof (J mmap (slot_named 64 slot)). by destruct (join_worker _ _ W).
    + destruct (tid_named tid) as [n|]; [|done]. pose proof (J mmap (Some (Z.to_nat n))). by destruct (join_worker _ _ W).
Qed.
End thread.

(** * Witnesses *)

Definition wit_threads : thstate := thstart (with_acaps wit_granted Arena.astart).
Definition wit_thcap : Z := Eval vm_compute in g_tok_thread wit_tokens.
Lemma wit_threads_reach : thread_reach (E := wit_entropy) wit_tokens wit_thcap wit_threads (mkWorkers (repeat None 64) 0).
Proof. apply (threach_start (E := wit_entropy) wit_tokens wit_thcap (with_acaps wit_granted Arena.astart)); [exact wit_gate|vm_compute; reflexivity|reflexivity]. Qed.
Lemma threads_refine_slots_witness : exists s', run_event (E := wit_entropy) wit_thcap (Spawn true (str_of [119])) wit_threads = Ret (Some (res true (ascii_bytes "tid:0")), s').
Proof.
  destruct (threads_refine_slots (E := wit_entropy) wit_tokens wit_thcap wit_threads (mkWorkers (repeat None 64) 0) eq_refl wit_threads_reach) as (_ & _ & H).
  destruct (H (Spawn true (str_of [119])) I) as (s' & R & _). exists s'. exact R.
Defined.
Definition runs (es : list thread_event) (s : thstate) : option (list (option Str.OoResS) * thstate) :=
  foldr (fun e k s => match run_event (E := wit_entropy) wit_thcap e s with Ret (r, s) => match k s with Some (l, s) => Some (r :: l, s) | None => None end | _ => None end) (fun s => Some ([], s)) es s.
(** A thread that is made, begins, sleeps and is joined leaves an arena. *)
Example thread_leaves_arena :
  match runs [Spawn true (str_of [119]); Turn (Some 4096) 0; Turn None 0; Wake 0; Turn None 0; JoinS None (str_of (ascii_bytes "tid:00"))] wit_threads with
  | Some (l, s) => l = [Some (res true (ascii_bytes "tid:0")); None; None; None; None; Some (res true (ascii_bytes "joined"))] /\ live_arenas (arenas s) = 1%nat
  | None => False
  end.
Proof. vm_compute. split; reflexivity. Qed.
