(* ===== verification/Weak.v ===== *)
(** Control blocks with strong and weak counts ([core/mem/weak.c]), under
    interleaving.

    An operation is a [prog]: the sequence of the accesses its C body makes to
    the shared control block, each one step, with the rest of the body as a
    function of the value read.  The two compare-and-swap loops are [Loop]
    nodes that [resolve] to their bodies, so a loop may retry for ever; a weak
    compare-and-swap may also fail spuriously.  [exec] interleaves the
    operations of any number of threads; the threads pass handles, and use only
    handles they hold.  Accesses are sequentially consistent: the source's
    acquire and release orders are not weakened further.  A destructor is a
    call outside the model that is counted. *)
From S2P Require Import Prelude Caps.
From stdpp Require Import gmap.
Open Scope Z_scope.

Definition UINT32_MAX : Z := 0xffffffff.
Definition OO_FLAG_STATIC : Z := 1.
Definition TOMBSTONE : Z := 0xffffffff.

Record OoControlBlock := mkCB { strong_count : Z; weak_count : Z; flags : Z; epoch : Z; dtor : Z }.
(** A weak handle; 0 is NULL. *)
Record OoWeakRef := mkRef { payload : Z; ctrl : Z }.

Inductive field := FStrong | FWeak | FFlags | FEpoch | FDtor.
Definition get_f (f : field) (b : OoControlBlock) : Z :=
  match f with FStrong => strong_count b | FWeak => weak_count b | FFlags => flags b | FEpoch => epoch b | FDtor => dtor b end.
Definition set_f (f : field) (v : Z) (b : OoControlBlock) : OoControlBlock :=
  match f with
  | FStrong => mkCB v (weak_count b) (flags b) (epoch b) (dtor b)
  | FWeak => mkCB (strong_count b) v (flags b) (epoch b) (dtor b)
  | FFlags => mkCB (strong_count b) (weak_count b) v (epoch b) (dtor b)
  | FEpoch => mkCB (strong_count b) (weak_count b) (flags b) v (dtor b)
  | FDtor => mkCB (strong_count b) (weak_count b) (flags b) (epoch b) v
  end.

(** * Operations as programs *)

Inductive result := RUnit | RPtr (p : Z) | RRef (r : OoWeakRef) | RInt (n : Z).
Inductive loop := RetainLoop (c sc : Z) | UpgradeLoop (c payload sc : Z).
Inductive prog :=
  | Done (r : result)
  | Gate (cap : Z) (k : prog)
  | Load (a : Z) (f : field) (k : Z -> prog)
  | Store (a : Z) (f : field) (v : Z) (k : prog)
  | FetchAdd (a : Z) (f : field) (d : Z) (k : Z -> prog)
  | Cas (a : Z) (f : field) (expected desired : Z) (k : bool -> prog)
  | CallDtor (a fn payload : Z) (k : prog)
  | Free (a : Z) (k : prog)
  | Loop (l : loop).

Definition is_static (fl : Z) : bool := negb (Z.land fl OO_FLAG_STATIC =? 0).
(** The loads before the loop, repeated after a failed exchange. *)
Definition retain_retry (c : Z) : prog :=
  Load c FStrong (fun sc => Load c FFlags (fun fl =>
    if (sc =? 0) || (sc =? UINT32_MAX) || is_static fl || (fl =? TOMBSTONE) then Done RUnit
    else Loop (RetainLoop c sc))).
Definition retain_loop (c sc : Z) : prog :=
  if (0 <? sc) && (sc <? UINT32_MAX)
  then Cas c FStrong sc (u32 (sc + 1)) (fun ok => if ok then Done RUnit else retain_retry c)
  else Done RUnit.
Definition oo_control_block_retain (cap c : Z) : prog :=
  Gate cap (if c =? 0 then Done RUnit else retain_retry c).

Definition free_block (c : Z) (r : result) : prog := Store c FFlags TOMBSTONE (Free c (Done r)).
Definition oo_control_block_release (cap c pay : Z) : prog :=
  Gate cap (if c =? 0 then Done RUnit else
    Load c FFlags (fun fl =>
    if is_static fl || (fl =? TOMBSTONE) then Done RUnit else
    FetchAdd c FStrong (-1) (fun prev_sc =>
    if prev_sc =? 1 then
      Load c FDtor (fun fn =>
      let drop_implicit := FetchAdd c FWeak (-1) (fun prev_wc => if prev_wc =? 1 then free_block c RUnit else Done RUnit) in
      if negb (fn =? 0) then CallDtor c fn pay drop_implicit else drop_implicit)
    else Done RUnit))).

Definition null_ref : OoWeakRef := mkRef 0 0.
Definition oo_weak_new (cap : Z) (k : OoWeakRef -> prog) : prog := Gate cap (k null_ref).
Definition oo_weak_create (cap pay c : Z) : prog :=
  Gate cap (oo_weak_new cap (fun ref =>
    if (c =? 0) || (pay =? 0) then Done (RRef ref) else
    FetchAdd c FWeak 1 (fun _ => Load c FStrong (fun sc =>
    if sc =? 0
    then FetchAdd c FWeak (-1) (fun prev => if prev =? 1 then free_block c (RRef ref) else Done (RRef ref))
    else Load c FEpoch (fun e => Store c FEpoch e (Done (RRef (mkRef pay c)))))))).

Definition upgrade_retry (c pay : Z) : prog :=
  Load c FStrong (fun sc => Load c FFlags (fun fl =>
    if (sc =? 0) || (sc =? UINT32_MAX) || (fl =? TOMBSTONE) then Done (RPtr 0)
    else Loop (UpgradeLoop c pay sc))).
Definition upgrade_loop (c pay sc : Z) : prog :=
  if (0 <? sc) && (sc <? UINT32_MAX)
  then Cas c FStrong sc (u32 (sc + 1)) (fun ok => if ok then Done (RPtr pay) else upgrade_retry c pay)
  else Done (RPtr 0).
Definition oo_weak_upgrade (cap : Z) (ref : OoWeakRef) : prog :=
  Gate cap (if (ctrl ref =? 0) || (payload ref =? 0) then Done (RPtr 0) else upgrade_retry (ctrl ref) (payload ref)).
Definition oo_weak_retain (cap : Z) (ref : OoWeakRef) : prog :=
  Gate cap (if ctrl ref =? 0 then Done RUnit else FetchAdd (ctrl ref) FWeak 1 (fun _ => Done RUnit)).
(** Returns the handle as the call leaves it. *)
Definition oo_weak_release (cap : Z) (ref : OoWeakRef) : prog :=
  Gate cap (if ctrl ref =? 0 then Done (RRef ref) else
    FetchAdd (ctrl ref) FWeak (-1) (fun prev_wc =>
    if prev_wc =? 1
    then Load (ctrl ref) FStrong (fun sc => if sc =? 0 then free_block (ctrl ref) (RRef null_ref) else Done (RRef null_ref))
    else Done (RRef null_ref))).

(** The same calls on a copy of the handle: the caller's own is as it was. *)
Definition oo_weak_upgrade_val : Z -> OoWeakRef -> prog := oo_weak_upgrade.
Definition oo_weak_retain_val : Z -> OoWeakRef -> prog := oo_weak_retain.
Definition oo_weak_release_val : Z -> OoWeakRef -> prog := oo_weak_release.

Definition zb (b : bool) : Z := if b then 1 else 0.
Definition oo_weak_is_alive (ref : OoWeakRef) : prog :=
  if ctrl ref =? 0 then Done (RInt 0) else
  Load (ctrl ref) FFlags (fun fl => if fl =? TOMBSTONE then Done (RInt 0) else
  Load (ctrl ref) FStrong (fun sc => Done (RInt (zb (0 <? sc))))).
Definition oo_weak_expired (ref : OoWeakRef) : prog :=
  if ctrl ref =? 0 then Done (RInt 1) else
  Load (ctrl ref) FFlags (fun fl => if fl =? TOMBSTONE then Done (RInt 1) else
  Load (ctrl ref) FStrong (fun sc => Done (RInt (zb (negb (0 <? sc)))))).
Definition oo_weak_strong_count (ref : OoWeakRef) : prog :=
  if ctrl ref =? 0 then Done (RInt 0) else Load (ctrl ref) FStrong (fun sc => Done (RInt sc)).
Definition oo_weak_weak_count (ref : OoWeakRef) : prog :=
  if ctrl ref =? 0 then Done (RInt 0) else
  Load (ctrl ref) FWeak (fun wc => Load (ctrl ref) FStrong (fun sc =>
  Done (RInt (if (0 <? sc) && (0 <? wc) then u32 (wc - 1) else wc)))).

Definition resolve (l : loop) : prog :=
  match l with RetainLoop c sc => retain_loop c sc | UpgradeLoop c pay sc => upgrade_loop c pay sc end.

(** * Steps *)

(** The memory of the process: the blocks allocated now, and for each address
    the destructor its last block was made with and the destructors called on it. *)
Record wstate := mkW { wcaps : cstate; heap : gmap Z OoControlBlock; history : gmap Z (Z * list Z) }.
Definition with_heap (h : gmap Z OoControlBlock) (w : wstate) : wstate := mkW (wcaps w) h (history w).
Definition with_wcaps (c : cstate) (w : wstate) : wstate := mkW c (heap w) (history w).
Definition put_block (a : Z) (b : OoControlBlock) (w : wstate) : wstate := with_heap (<[a := b]> (heap w)) w.
Definition called (w : wstate) (a : Z) : list Z := match history w !! a with Some (_, l) => l | None => [] end.
Definition made_with (w : wstate) (a : Z) : Z := match history w !! a with Some (d, _) => d | None => 0 end.
Definition log_call (a fn : Z) (w : wstate) : wstate := mkW (wcaps w) (heap w) (<[a := (made_with w a, called w a ++ [fn])]> (history w)).
Definition log_made (a d : Z) (w : wstate) : wstate := mkW (wcaps w) (heap w) (<[a := (d, [])]> (history w)).

Section steps.
Context {En : Entropy}.

Definition on_wcaps {A} (m : ST cstate A) : ST wstate A := lift wcaps with_wcaps m.
Definition block (a : Z) : ST wstate OoControlBlock := fun w =>
  match heap w !! a with Some b => Ret (b, w) | None => Undefined end.

Definition oo_control_block_init (cap c d : Z) : ST wstate unit :=
  let! _ := on_wcaps (oo_cap_require_alloc cap) in
  if c =? 0 then ret tt else set_state (put_block c (mkCB 1 1 0 0 d)).
(** [calloc] returns the address, or nothing. *)
Definition oo_control_block_create (calloc : option Z) (cap d : Z) : ST wstate Z :=
  let! _ := on_wcaps (oo_cap_require_alloc cap) in
  match calloc with
  | None => ret 0
  | Some c => let! _ := set_state (put_block c (mkCB 0 0 0 0 0)) in let! _ := oo_control_block_init cap c d in ret c
  end.

(** The next access of a program.  [spurious]: a compare-and-swap fails though
    the value is the expected one. *)
Definition act (spurious : bool) (p : prog) : ST wstate prog :=
  match p with
  | Done r => ret (Done r)
  | Gate cap k => let! _ := on_wcaps (oo_cap_require_alloc cap) in ret k
  | Load a f k => let! b := block a in ret (k (get_f f b))
  | Store a f v k => let! b := block a in let! _ := set_state (put_block a (set_f f v b)) in ret k
  | FetchAdd a f d k =>
      let! b := block a in
      let! _ := set_state (put_block a (set_f f (u32 (get_f f b + d)) b)) in ret (k (get_f f b))
  | Cas a f e v k =>
      let! b := block a in
      if (get_f f b =? e) && negb spurious then let! _ := set_state (put_block a (set_f f v b)) in ret (k true)
      else ret (k false)
  | CallDtor a fn _ k => if fn =? 0 then undef else let! _ := set_state (log_call a fn) in ret k
  | Free a k => let! _ := block a in let! _ := set_state (fun w => with_heap (delete a (heap w)) w) in ret k
  | Loop l => ret (resolve l)
  end.
End steps.

(** * Threads *)

Inductive handle := Strong (a : Z) | Weak (a : Z).
#[export] Instance handle_eq_dec : EqDecision handle.
Proof. solve_decision. Defined.

Inductive op :=
  | ORetain (c : Z) | ORelease (c pay : Z)
  | OCreate (strong : bool) (pay c : Z)   (* the caller holds a strong or a weak handle *)
  | OUpgrade (ref : OoWeakRef) | OWeakRetain (ref : OoWeakRef) | OWeakRelease (ref : OoWeakRef)
  | OIsAlive (ref : OoWeakRef) | OExpired (ref : OoWeakRef) | OStrongCount (ref : OoWeakRef) | OWeakCount (ref : OoWeakRef).
Definition target (o : op) : Z :=
  match o with
  | ORetain c | ORelease c _ | OCreate _ _ c => c
  | OUpgrade r | OWeakRetain r | OWeakRelease r | OIsAlive r | OExpired r | OStrongCount r | OWeakCount r => ctrl r
  end.
Definition prog_of (cap : Z) (o : op) : prog :=
  match o with
  | ORetain c => oo_control_block_retain cap c
  | ORelease c pay => oo_control_block_release cap c pay
  | OCreate _ pay c => oo_weak_create cap pay c
  | OUpgrade r => oo_weak_upgrade cap r
  | OWeakRetain r => oo_weak_retain cap r
  | OWeakRelease r => oo_weak_release cap r
  | OIsAlive r => oo_weak_is_alive r
  | OExpired r => oo_weak_expired r
  | OStrongCount r => oo_weak_strong_count r
  | OWeakCount r => oo_weak_weak_count r
  end.
(** The handle a caller lends the operation, and the handles it has after. *)
Definition takes (o : op) : handle :=
  match o with
  | ORetain c | ORelease c _ | OCreate true _ c => Strong c
  | _ => Weak (target o)
  end.
Definition gives (o : op) (r : result) : list handle :=
  match o, r with
  | ORetain c, _ => [Strong c; Strong c]
  | ORelease _ _, _ => []
  | OCreate _ _ c, RRef ref => if ctrl ref =? 0 then [takes o] else [takes o; Weak c]
  | OUpgrade ref, RPtr p => if p =? 0 then [takes o] else [takes o; Strong (ctrl ref)]
  | OWeakRetain _, _ => [takes o; takes o]
  | OWeakRelease _, _ => []
  | _, _ => [takes o]
  end.

Record thread := mkT { handles : list handle; running : option (op * prog) }.
Record sys := mkS { shared : wstate; threads : list thread }.
Definition resting : thread := mkT [] None.
Definition boot (c : cstate) (n : nat) : sys := mkS (mkW c ∅ ∅) (repeat resting n).

Inductive event :=
  | ECreate (i : nat) (cap a d : Z)
  | EBegin (i : nat) (cap : Z) (o : op)
  | EStep (i : nat) (spurious : bool)
  | EGive (i j : nat) (h : handle).

Definition count (h : handle) (l : list handle) : nat := length (filter (h =.) l).
Fixpoint remove1 (h : handle) (l : list handle) : option (list handle) :=
  match l with
  | [] => None
  | x :: l => if decide (h = x) then Some l else match remove1 h l with Some l => Some (x :: l) | None => None end
  end.
Definition addr (h : handle) : Z := match h with Strong a | Weak a => a end.
(** How many handles a thread can hold when its operation has ended. *)
Definition weight (h : handle) (t : thread) : nat :=
  (count h (handles t) + match running t with Some (o, _) => if (addr h =? target o)%Z then 2 else 0 | None => 0 end)%nat.
Definition weights (h : handle) (ts : list thread) : nat := sum_list_with (weight h) ts.
(** The counts have room: fewer than [UINT32_MAX] handles of each kind. *)
Definition room (a : Z) (ts : list thread) : bool :=
  (Z.of_nat (weights (Strong a) ts) <? UINT32_MAX) && (Z.of_nat (weights (Weak a) ts) <? UINT32_MAX).

Section system.
Context {En : Entropy}.

(** [None]: the event is not one a client may cause here. *)
Definition exec (e : event) (s : sys) : option (run sys) :=
  match e with
  | ECreate i cap a d =>
      t ← threads s !! i;
      match running t, heap (shared s) !! a with
      | None, None =>
          let ts := <[i := mkT (Strong a :: handles t) None]> (threads s) in
          if negb (a =? 0) && room a ts
          then Some (let* r := oo_control_block_create (Some a) cap d (shared s) in Ret (mkS (log_made a d (snd r)) ts))
          else None
      | _, _ => None
      end
  | EBegin i cap o =>
      t ← threads s !! i;
      match running t, remove1 (takes o) (handles t) with
      | None, Some l =>
          let ts := <[i := mkT l (Some (o, prog_of cap o))]> (threads s) in
          if room (target o) ts then Some (Ret (mkS (shared s) ts)) else None
      | _, _ => None
      end
  | EStep i spurious =>
      t ← threads s !! i;
      match running t with
      | Some (o, Done r) => Some (Ret (mkS (shared s) (<[i := mkT (gives o r ++ handles t) None]> (threads s))))
      | Some (o, p) =>
          Some (let* r := act spurious p (shared s) in
                let '(p, w) := r in Ret (mkS w (<[i := mkT (handles t) (Some (o, p))]> (threads s))))
      | None => None
      end
  | EGive i j h =>
      t ← threads s !! i;
      l ← remove1 h (handles t);
      let ts := <[i := mkT l (running t)]> (threads s) in
      u ← ts !! j;
      Some (Ret (mkS (shared s) (<[j := mkT (h :: handles u) (running u)]> ts)))
  end.
Inductive reachable (c : cstate) (n : nat) : sys -> Prop :=
  | reach_boot : reachable c n (boot c n)
  | reach_exec s e s' : reachable c n s -> exec e s = Some (Ret s') -> reachable c n s'.
End system.

(** * Ownership

    What a running operation owns of its block: strong and weak references,
    the implicit weak reference of the strong holders once the last of them is
    gone, the duty to run the destructor, and the duty to free the block. *)

Record toks := mkTok { gs : nat; gw : nat; gi : nat; gd : nat; gf : nat }.
Definition tok0 : toks := mkTok 0 0 0 0 0.
Definition tplus (x y : toks) : toks := mkTok (gs x + gs y) (gw x + gw y) (gi x + gi y) (gd x + gd y) (gf x + gf y).
Definition hands (a : Z) (l : list handle) : toks := mkTok (count (Strong a) l) (count (Weak a) l) 0 0 0.
Definition owns (g : toks) : Prop := (0 < gs g + gw g + gi g + gf g)%nat.

(** What an owner of [g] may know of a value it loads from a block made with
    the destructor [d]. *)
Definition sees (d : Z) (g : toks) (f : field) (v : Z) : Prop :=
  match f with
  | FStrong => Z.of_nat (gs g) <= v < UINT32_MAX /\ ((0 < gf g)%nat -> v = 0)
  | FFlags => gf g = O -> v = 0
  | FDtor => v = d
  | _ => True
  end.
Definition after_load (g : toks) (f : field) (v : Z) : toks :=
  match f with FDtor => if v =? 0 then mkTok (gs g) (gw g) (gi g) 0 (gf g) else g | _ => g end.
Definition drop_strong (g : toks) (prev : Z) : toks :=
  if prev =? 1 then mkTok (gs g - 1) (gw g) (gi g + 1) (gd g + 1) (gf g) else mkTok (gs g - 1) (gw g) (gi g) (gd g) (gf g).
Definition drop_weak (g : toks) (prev : Z) : toks :=
  let f := if prev =? 1 then S (gf g) else gf g in
  if (0 <? gi g)%nat then mkTok (gs g) (gw g) (gi g - 1) (gd g) f else mkTok (gs g) (gw g - 1) (gi g) (gd g) f.
Definition loop_ok (o : op) (g : toks) (l : loop) : Prop :=
  match l with
  | RetainLoop c sc => o = ORetain c /\ g = mkTok 1 0 0 0 0 /\ 0 < sc < UINT32_MAX
  | UpgradeLoop c pay sc => o = OUpgrade (mkRef pay c) /\ pay <> 0 /\ g = mkTok 0 1 0 0 0
  end.

(** The ownership type of a program: it accesses only its target, every count
    it changes is backed by a token, and it ends owning exactly the handles the
    caller gets back. *)
Fixpoint safe (d : Z) (o : op) (g : toks) (p : prog) : Prop :=
  match p with
  | Done r => (forall h, In h (gives o r) -> addr h = target o) /\ g = hands (target o) (gives o r)
  | Gate _ k => safe d o g k
  | Load a f k => a = target o /\ owns g /\ (f = FDtor -> gs g = O) /\ forall v, sees d g f v -> safe d o (after_load g f v) (k v)
  | Store a f v k =>
      a = target o /\ match f with FFlags => (0 < gf g)%nat | FEpoch => owns g | _ => False end /\ safe d o g k
  | FetchAdd a f x k =>
      a = target o /\
      match f with
      | FStrong => x = -1 /\ (0 < gs g)%nat /\ gi g = O /\ forall v, safe d o (drop_strong g v) (k v)
      | FWeak =>
          if x =? 1
          then (0 < gs g + gw g)%nat /\ (gw g < 2)%nat /\ forall v, safe d o (mkTok (gs g) (S (gw g)) (gi g) (gd g) (gf g)) (k v)
          else x = -1 /\ (0 < gw g + gi g)%nat /\ gd g = O /\ forall v, Z.of_nat (gw g + gi g) <= v -> safe d o (drop_weak g v) (k v)
      | _ => False
      end
  | Cas a f e v k =>
      a = target o /\ f = FStrong /\ v = e + 1 /\ 0 < e < UINT32_MAX /\ owns g /\ (gs g < 2)%nat /\
      safe d o (mkTok (S (gs g)) (gw g) (gi g) (gd g) (gf g)) (k true) /\ safe d o g (k false)
  | CallDtor a fn _ k => a = target o /\ fn = d /\ fn <> 0 /\ (0 < gd g)%nat /\ safe d o (mkTok (gs g) (gw g) (gi g) (gd g - 1) (gf g)) k
  | Free a k => a = target o /\ (0 < gf g)%nat /\ safe d o (mkTok (gs g) (gw g) (gi g) (gd g) (gf g - 1)) k
  | Loop l => loop_ok o g l
  end.

Lemma hands1 a h : hands a [h] = if decide (h = Strong a) then mkTok 1 0 0 0 0 else if decide (h = Weak a) then mkTok 0 1 0 0 0 else tok0.
Proof. unfold hands, count. repeat (rewrite filter_cons; case_decide; subst); repeat case_decide; simplify_eq; done. Qed.
Lemma hands_self_strong a : hands a [Strong a; Strong a] = mkTok 2 0 0 0 0.
Proof. unfold hands, count. cbn. repeat case_decide; simplify_eq; done. Qed.

(** * Every operation has its ownership type *)

(** Unfolds accesses and proves what they ask of the tokens. *)
Ltac own1 := cbn -[UINT32_MAX TOMBSTONE Z.of_nat Z.eqb Z.ltb Z.add is_static hands]; unfold owns, drop_strong, drop_weak in *;
  cbn -[UINT32_MAX TOMBSTONE Z.of_nat Z.eqb Z.ltb Z.add is_static hands] in *;
  change (is_static 0) with false in *; change (0 =? 0) with true in *; change (1 =? 1) with true in *; change (-1 =? 1) with false in *; change (0 =? TOMBSTONE) with false in *;
  cbn [orb andb negb] in *;
  repeat first [progress intros | match goal with |- _ /\ _ => split end]; try done; try lia.
Lemma hands_nil a : hands a [] = tok0.
Proof. done. Qed.
Lemma hands_cons a h l : hands a (h :: l) = tplus (hands a [h]) (hands a l).
Proof. unfold hands, count, tplus. cbn. by repeat case_decide. Qed.
Ltac toks := rewrite ?hands_nil, ?(hands_cons _ _ (_ :: _)), ?hands1; repeat case_decide; simplify_eq/=; try done.
Ltac own := own1;
  repeat (match goal with
          | H : ?x = ?x -> ?v = 0 |- _ => specialize (H eq_refl); subst
          | H : In _ (_ :: _) |- _ => destruct H as [<-|H]
          | H : In _ [] |- _ => destruct H
          | H : False |- _ => destruct H
          | H : _ \/ _ |- _ => destruct H
          | H : _ = ?h |- _ => is_var h; subst h
          | H : context [?x =? ?y] |- _ => destruct (Z.eqb_spec x y)
          | |- context [if ?b then _ else _] =>
              match b with
              | context [Z.eqb ?x ?y] => destruct (Z.eqb_spec x y)
              | context [Z.ltb ?x ?y] => destruct (Z.ltb_spec x y)
              end
          | |- _ = hands _ _ => progress toks
          | |- hands _ _ = _ => progress toks
          | |- safe _ _ _ _ => progress own1
          end; subst; try lia; own1).

Lemma retain_retry_safe d c : safe d (ORetain c) (mkTok 1 0 0 0 0) (retain_retry c).
Proof. own. Qed.
Lemma upgrade_retry_safe d c pay : pay <> 0 -> safe d (OUpgrade (mkRef pay c)) (mkTok 0 1 0 0 0) (upgrade_retry c pay).
Proof. intros Hp. own. Qed.
Lemma resolve_safe d o g l : loop_ok o g l -> safe d o g (resolve l).
Proof.
  destruct l as [c sc|c pay sc]; cbn [loop_ok resolve].
  - intros (-> & -> & Hs). unfold retain_loop. rewrite u32_id by (unfold UINT32_MAX in *; lia). own.
  - intros (-> & Hp & ->). unfold upgrade_loop. own. all: rewrite ?u32_id by (unfold UINT32_MAX in *; lia); own.
Qed.
Lemma release_safe d c pay cap : c <> 0 -> safe d (ORelease c pay) (mkTok 1 0 0 0 0) (oo_control_block_release cap c pay).
Proof. intros Hc. own. Qed.
Lemma create_safe d b c pay cap : c <> 0 -> safe d (OCreate b pay c) (hands c [takes (OCreate b pay c)]) (oo_weak_create cap pay c).
Proof. intros Hc. destruct b; cbn [takes]; toks; own. Qed.
Lemma prog_safe d cap o : target o <> 0 -> safe d o (hands (target o) [takes o]) (prog_of cap o).
Proof.
  destruct o as [c|c pay|b pay c|[pay c]|[pay c]|[pay c]|[pay c]|[pay c]|[pay c]|[pay c]]; cbn [target ctrl]; intros Hc; cbn [prog_of takes].
  - toks. cbn [safe oo_control_block_retain]. destruct (Z.eqb_spec c 0); [done|]. apply retain_retry_safe.
  - toks. by apply release_safe.
  - by apply create_safe.
  - toks. cbn [safe oo_weak_upgrade]. cbn [ctrl payload]. destruct (Z.eqb_spec c 0); [done|]. destruct (Z.eqb_spec pay 0); cbn [orb].
    + own.
    + by apply upgrade_retry_safe.
  - toks. own.
  - toks. own.
  - toks. unfold oo_weak_is_alive. own.
  - toks. unfold oo_weak_expired. own.
  - toks. unfold oo_weak_strong_count. own.
  - toks. unfold oo_weak_weak_count. own.
Qed.

(** * The invariant of a block *)

Definition none_left (T : toks) : Prop := gs T = O /\ gw T = O /\ gi T = O /\ gd T = O /\ gf T = O.
(** An address, given all the tokens that exist for it: a live block counts
    them; a freed one has none, and its destructor ran once if it had one. *)
Definition block_ok (ob : option OoControlBlock) (h : option (Z * list Z)) (T : toks) : Prop :=
  match ob with
  | Some b =>
      strong_count b = Z.of_nat (gs T) /\
      weak_count b = Z.of_nat (gw T + gi T) + (if (0 <? gs T)%nat then 1 else 0) /\
      gf T = (if weak_count b =? 0 then 1%nat else O) /\
      (gf T = O -> flags b = 0) /\
      (gd T <= gi T <= 1)%nat /\ ((0 < gs T)%nat -> gi T = O) /\
      h = Some (dtor b, if (dtor b =? 0) || (0 <? gs T)%nat || (0 <? gd T)%nat then [] else [dtor b])
  | None => none_left T /\ match h with Some (d, l) => l = if d =? 0 then [] else [d] | None => True end
  end.
Definition fits (T : toks) : Prop := Z.of_nat (gs T) < UINT32_MAX /\ Z.of_nat (gw T) < UINT32_MAX.
Definition grown (g R : toks) : toks := tplus (mkTok (Nat.max (gs g) 2) (Nat.max (gw g) 2) 0 0 0) R.
Definition wf_toks (g : toks) : Prop := (gd g <= gi g /\ gs g <= 2 /\ gw g <= 2)%nat.

Lemma alive_block ob h g R : block_ok ob h (tplus g R) -> owns g -> exists b, ob = Some b.
Proof. destruct ob as [b|]; [eauto|]. intros [(H1 & H2 & H3 & H4 & H5) _] O. unfold owns in O. cbn in *. lia. Qed.

Ltac inv_block := cbn [block_ok none_left set_f strong_count weak_count flags epoch dtor get_f tplus gs gw gi gd gf] in *.
Ltac cases :=
  repeat match goal with
  | |- context [Nat.ltb ?x ?y] => destruct (Nat.ltb_spec x y)
  | |- context [Z.eqb ?x ?y] => destruct (Z.eqb_spec x y)
  | H : context [Nat.ltb ?x ?y] |- _ => destruct (Nat.ltb_spec x y)
  | H : context [Z.eqb ?x ?y] |- _ => destruct (Z.eqb_spec x y)
  end.
Ltac settle := repeat split; try lia; try tauto; cases; cbn [orb] in *; try lia; try done.

Lemma sees_ok b h d f g R : fits (grown g R) -> wf_toks g -> block_ok (Some b) h (tplus g R) -> owns g -> dtor b = d -> sees d g f (get_f f b).
Proof.
  intros [F _] W B O D. unfold owns, grown, sees in *. inv_block. destruct B as (S & Wk & Fr & Fl & I & J & _).
  destruct f; inv_block; try done.
  - split; [lia|]. intros Hf. cases; lia.
  - intros Hf. apply Fl. cases; lia.
Qed.
Lemma block_dtor b h T d l : block_ok (Some b) h T -> h = Some (d, l) -> dtor b = d.
Proof. intros (_ & _ & _ & _ & _ & _ & H) E. rewrite H in E. by injection E. Qed.

(** ** What each access does to it *)

Lemma load_block b h g R f : wf_toks g -> block_ok (Some b) h (tplus g R) -> (f = FDtor -> gs g = O) -> (gd R <= gi R)%nat ->
  block_ok (Some b) h (tplus (after_load g f (get_f f b)) R).
Proof.
  intros W B Hf HR. destruct f; try exact B. unfold after_load. cbn [get_f]. destruct (Z.eqb_spec (dtor b) 0) as [E0|]; [|done].
  inv_block. rewrite E0 in *. cbn [orb Z.eqb] in *. repeat split; try tauto; try lia. 
Qed.
Lemma drop_strong_block b h g R : wf_toks g -> fits (grown g R) -> (gd R <= gi R)%nat -> (0 < gs g)%nat ->
  block_ok (Some b) h (tplus g R) ->
  block_ok (Some (set_f FStrong (u32 (strong_count b + -1)) b)) h (tplus (drop_strong g (strong_count b)) R).
Proof.
  intros W [F _] HR Hs B. unfold drop_strong, wf_toks, grown in *. inv_block. destruct B as (S & Wk & Fr & Fl & I & J & H).
  unfold UINT32_MAX in *. rewrite u32_id by lia. rewrite S. destruct (Z.eqb_spec (Z.of_nat (gs g + gs R)) 1); inv_block.
  - settle. 
  - settle.
Qed.
Lemma add_weak_block b h g R : fits (grown g R) -> (0 < gs g + gw g)%nat -> (gw g < 2)%nat ->
  block_ok (Some b) h (tplus g R) ->
  block_ok (Some (set_f FWeak (u32 (weak_count b + 1)) b)) h (tplus (mkTok (gs g) (S (gw g)) (gi g) (gd g) (gf g)) R).
Proof.
  intros [_ F] Ho Hg B. unfold grown in F. inv_block. destruct B as (S & Wk & Fr & Fl & I & J & H). unfold UINT32_MAX in *.
  rewrite u32_id by (cases; lia). settle.
Qed.
Lemma drop_weak_block b h g R : wf_toks g -> fits (grown g R) -> (gd R <= gi R)%nat -> (0 < gw g + gi g)%nat -> gd g = O ->
  block_ok (Some b) h (tplus g R) ->
  Z.of_nat (gw g + gi g) <= weak_count b /\
  block_ok (Some (set_f FWeak (u32 (weak_count b + -1)) b)) h (tplus (drop_weak g (weak_count b)) R).
Proof.
  intros W [F1 F] HR Ho Hd B. unfold drop_weak, wf_toks, grown in *. inv_block. destruct B as (S & Wk & Fr & Fl & I & J & H).
  unfold UINT32_MAX in *. split; [cases; lia|]. rewrite u32_id by (cases; lia).
  destruct (Nat.ltb_spec 0 (gi g)); inv_block; settle.
Qed.
Lemma raise_strong_block b h g R : wf_toks g -> (0 < strong_count b)%Z -> block_ok (Some b) h (tplus g R) ->
  block_ok (Some (set_f FStrong (strong_count b + 1) b)) h (tplus (mkTok (S (gs g)) (gw g) (gi g) (gd g) (gf g)) R).
Proof.
  intros W Hp B. unfold wf_toks in *. inv_block. destruct B as (S & Wk & Fr & Fl & I & J & H).
  settle.
Qed.
Lemma tombstone_block b h g R v : (0 < gf g)%nat -> block_ok (Some b) h (tplus g R) -> block_ok (Some (set_f FFlags v b)) h (tplus g R).
Proof. intros Hf B. inv_block. destruct B as (S & Wk & Fr & Fl & I & J & H). repeat split; try done; lia. Qed.
Lemma epoch_block b h T v : block_ok (Some b) h T -> block_ok (Some (set_f FEpoch v b)) h T.
Proof. done. Qed.
Lemma call_block b h g R d : wf_toks g -> (gd R <= gi R)%nat -> (0 < gd g)%nat -> d <> 0 -> dtor b = d -> block_ok (Some b) h (tplus g R) ->
  h = Some (d, []) /\ block_ok (Some b) (Some (d, [d])) (tplus (mkTok (gs g) (gw g) (gi g) (gd g - 1) (gf g)) R).
Proof.
  intros W HR Hd Hn D B. unfold wf_toks in *. inv_block. destruct B as (S & Wk & Fr & Fl & I & J & H).
  assert (Hs : (gs g + gs R)%nat = O) by lia. rewrite D in *. rewrite Hs in *. 
  split; [rewrite H|]; settle.
Qed.
Lemma free_block_ok b h g R : wf_toks g -> (gd R <= gi R)%nat -> (0 < gf g)%nat -> block_ok (Some b) h (tplus g R) ->
  block_ok None h (tplus (mkTok (gs g) (gw g) (gi g) (gd g) (gf g - 1)) R).
Proof.
  intros W HR Hf B. unfold wf_toks, none_left in *. inv_block. destruct B as (S & Wk & Fr & Fl & I & J & H).
  rewrite H. cbn [block_ok]. unfold none_left. inv_block. settle.
Qed.

(** * One step of an operation keeps the invariant *)

Section preservation.
Context {En : Entropy}.

Definition same_elsewhere (c : Z) (w w' : wstate) : Prop :=
  forall a, a <> c -> heap w' !! a = heap w !! a /\ history w' !! a = history w !! a.
Definition typed (w : wstate) (o : op) (g : toks) (p : prog) : Prop :=
  wf_toks g /\ exists d, safe d o g p /\ (owns g -> made_with w (target o) = d).
(** What a step of a program that owns [g] gives, [R] being everyone else's. *)
Definition step_ok (o : op) (R : toks) (w : wstate) (r : run (prog * wstate)) : Prop :=
  match r with
  | Ret (p', w') =>
      exists g', typed w' o g' p' /\ block_ok (heap w' !! target o) (history w' !! target o) (tplus g' R) /\ same_elsewhere (target o) w w'
  | Exited _ => True
  | Undefined => False
  end.

Lemma gate_cases cap w : (exists n, on_wcaps (oo_cap_require_alloc cap) w = Exited n) \/
  exists c, on_wcaps (oo_cap_require_alloc cap) w = Ret (tt, with_wcaps c w).
Proof.
  unfold on_wcaps, lift, oo_cap_require_alloc, oo_alloc_init, alloc_init_once, entropy_or_abort, atexit_or_abort, bind, set_state, ret, die.
  destruct (alloc_tok (wcaps w)) as [t|]; cbn [run_bind].
  - destruct (_ || _); cbn [run_bind]; eauto.
  - destruct (getentropy _ _); cbn [run_bind]; [|eauto]. destruct (atexit_ok _); cbn [run_bind]; [|eauto].
    destruct (_ || _); cbn [run_bind]; eauto.
Qed.
Lemma same_put a b w : same_elsewhere a w (put_block a b w).
Proof. intros x Hx. cbn. by rewrite lookup_insert_ne by done. Qed.
Lemma made_put a b w c : made_with (put_block a b w) c = made_with w c.
Proof. done. Qed.

Lemma owner_block w o g R d : block_ok (heap w !! target o) (history w !! target o) (tplus g R) -> owns g ->
  (owns g -> made_with w (target o) = d) -> exists b, heap w !! target o = Some b /\ dtor b = d /\
    block_ok (Some b) (history w !! target o) (tplus g R) /\ forall A (k : OoControlBlock -> ST wstate A), bind (block (target o)) k w = k b w.
Proof.
  intros B O D. destruct (alive_block _ _ g R B O) as [b Hb]. exists b. rewrite Hb in B. split; [done|]. split.
  - rewrite <- (D O). unfold made_with. by destruct B as (_ & _ & _ & _ & _ & _ & ->).
  - split; [done|]. intros A k. unfold bind, block. by rewrite Hb.
Qed.
(** The owner writes its block. *)
Lemma step_put o g R w b p d : wf_toks g -> safe d o g p -> made_with w (target o) = d ->
  block_ok (Some b) (history w !! target o) (tplus g R) -> step_ok o R w (Ret (p, put_block (target o) b w)).
Proof.
  intros W S D B. exists g. split; [split; [done|exists d; split; [done|]; intros _; by rewrite made_put]|].
  cbn. rewrite lookup_insert_eq. split; [done|apply same_put].
Qed.
Lemma wf_drop_strong g v : wf_toks g -> wf_toks (drop_strong g v).
Proof. unfold wf_toks, drop_strong. intros H. destruct (_ =? _); cbn; lia. Qed.
Lemma wf_drop_weak g v : gd g = O -> wf_toks g -> wf_toks (drop_weak g v).
Proof. unfold wf_toks, drop_weak. intros D H. destruct (_ <? _)%nat; cbn; lia. Qed.

Lemma act_ok sp p o g R w : typed w o g p -> (gd R <= gi R)%nat -> fits (grown g R) ->
  block_ok (heap w !! target o) (history w !! target o) (tplus g R) -> step_ok o R w (act sp p w).
Proof.
  intros (W & d & S & D) HR F B.
  destruct p as [r|cap k|a f k|a f v k|a f x k|a f e v k|a fn pay k|a k|l]; cbn [act safe] in *;
    try (destruct S as (-> & S)).
  - exists g. split; [split; eauto|]. done.
  - unfold bind. destruct (gate_cases cap w) as [[n ->]|[c ->]]; [done|]. exists g. split; [split; eauto|]. done.
  - destruct S as (O & Hd & S). destruct (owner_block w o g R d B O D) as (b & Hb & Eb & B' & ->).
    exists (after_load g f (get_f f b)). rewrite Hb. split; [|split; [by apply load_block|done]]. split.
    + destruct f; try done. cbn. destruct (_ =? _); [|done]. unfold wf_toks in *. cbn. lia.
    + exists d. split; [apply S; by eapply sees_ok|]. intros _. by apply D.
  - destruct S as (Hf & S). assert (O : owns g) by (unfold owns in *; destruct f; try done; lia).
    destruct (owner_block w o g R d B O D) as (b & Hb & Eb & B' & ->). apply (step_put o g R w _ k d W S (D O)).
    destruct f; try done. by apply tombstone_block.
  - assert (O : owns g).
    { unfold owns in *. destruct f; try done; [lia|]. destruct (x =? 1); lia. }
    destruct (owner_block w o g R d B O D) as (b & Hb & Eb & B' & ->). destruct f; try done; [|destruct (Z.eqb_spec x 1) as [->|]].
    + destruct S as (-> & Hs & S). eapply (step_put _ _ _ _ _ _ d); [by apply wf_drop_strong|apply S|by apply D|by apply drop_strong_block].
    + destruct S as (Ho & Hg & S). eapply (step_put _ _ _ _ _ _ d); [|apply S|by apply D|by apply add_weak_block]. unfold wf_toks in *. cbn. lia.
    + destruct S as (-> & Ho & Hg & S). destruct (drop_weak_block b _ g R W F HR Ho Hg B') as [V B2].
      eapply (step_put _ _ _ _ _ _ d); [by apply wf_drop_weak|by apply S|by apply D|done].
  - destruct S as (-> & -> & He & O & Hs & S1 & S2). destruct (owner_block w o g R d B O D) as (b & Hb & Eb & B' & ->).
    cbn [get_f]. destruct (Z.eqb_spec (strong_count b) e) as [<-|]; destruct sp; cbn [andb negb].
    1,3,4: exists g; rewrite Hb; split; [split; eauto|done].
    eapply (step_put _ _ _ _ _ _ d); [|exact S1|by apply D|apply raise_strong_block; [done|lia|done]]. unfold wf_toks in *. cbn. lia.
  - destruct S as (-> & Hn & Hd & S). assert (O : owns g) by (unfold owns, wf_toks in *; lia).
    destruct (owner_block w o g R d B O D) as (b & Hb & Eb & B' & _). destruct (Z.eqb_spec d 0); [done|].
    destruct (call_block b _ g R d W HR Hd Hn Eb B') as [Hh B2].
    eexists. split; [|split]; [|cbn; rewrite lookup_insert_eq|].
    + split; [|exists d; split; [exact S|]; intros _]; [unfold wf_toks in *; cbn; lia|]. unfold made_with. cbn. rewrite lookup_insert_eq. by apply D.
    + rewrite Hb. unfold made_with, called. rewrite Hh. exact B2.
    + intros y Hy. cbn. by rewrite lookup_insert_ne.
  - destruct S as (Hf & S). assert (O : owns g) by (unfold owns; lia). destruct (owner_block w o g R d B O D) as (b & Hb & Eb & B' & ->).
    eexists. split; [|split]; [|cbn; rewrite lookup_delete_eq|].
    + split; [|exists d; split; [exact S|]; intros _; by apply D]. unfold wf_toks in *. cbn. lia.
    + by apply (free_block_ok b).
    + intros y Hy. cbn. by rewrite lookup_delete_ne.
  - exists g. split; [|done]. split; [done|]. exists d. split; [by apply resolve_safe|done].
Qed.

Lemma act_made sp p w p' w' a : act sp p w = Ret (p', w') -> made_with w' a = made_with w a.
Proof.
  destruct p as [r|cap k|x f k|x f v k|x f y k|x f e v k|x fn pay k|x k|l]; cbn [act]; unfold bind, block, set_state, ret;
    try (destruct (heap w !! x) as [b|]; cbn [run_bind]; [|done]); try (intros [= <- <-]; done).
  - destruct (gate_cases cap w) as [[n ->]|[c ->]]; cbn [run_bind]; [done|]. by intros [= <- <-].
  - destruct (_ && _); by intros [= <- <-].
  - destruct (fn =? 0); [done|]. cbn [run_bind]. intros [= <- <-]. unfold made_with. cbn.
    destruct (decide (a = x)) as [->|]; [by rewrite lookup_insert_eq|by rewrite lookup_insert_ne].
Qed.
Lemma typed_weaken w w' o g p : typed w o g p -> (owns g -> made_with w' (target o) = made_with w (target o)) -> typed w' o g p.
Proof. intros (W & d & S & D) H. split; [done|]. exists d. split; [done|]. intros O. rewrite H by done. by apply D. Qed.
End preservation.

(** * Sums over the threads *)

Lemma tplus_comm x y : tplus x y = tplus y x.
Proof. unfold tplus. f_equal; lia. Qed.
Lemma tplus_assoc x y z : tplus x (tplus y z) = tplus (tplus x y) z.
Proof. unfold tplus. cbn. f_equal; lia. Qed.
Lemma tplus_0 x : tplus x tok0 = x.
Proof. destruct x. unfold tplus. cbn. f_equal; lia. Qed.
Lemma tplus_swap x y z : tplus x (tplus y z) = tplus y (tplus x z).
Proof. unfold tplus. cbn. f_equal; lia. Qed.

Definition tsum (l : list toks) : toks := foldr tplus tok0 l.
Definition duty (g : toks) : Prop := (gd g <= gi g)%nat.
Lemma duty_tsum l : Forall duty l -> duty (tsum l).
Proof. induction 1 as [|x l H _ IH]; [cbn; apply le_n|]. change (tsum (x :: l)) with (tplus x (tsum l)). unfold duty in *. cbn. lia. Qed.
Lemma tsum_split l i x : l !! i = Some x ->
  exists R, tsum l = tplus x R /\ (forall y, tsum (<[i := y]> l) = tplus y R) /\ (Forall duty l -> duty R).
Proof.
  revert i. induction l as [|z l IH]; intros [|i] H; try done; cbn in H.
  - injection H as ->. exists (tsum l). split; [done|]. split; [done|]. intros F. inversion_clear F. by apply duty_tsum.
  - destruct (IH i H) as (R & E1 & E2 & E3). exists (tplus z R). change (tsum (z :: l)) with (tplus z (tsum l)). rewrite E1. split; [apply tplus_swap|]. split.
    + intros y. change (tsum (<[S i := y]> (z :: l))) with (tplus z (tsum (<[i := y]> l))). rewrite E2. apply tplus_swap.
    + intros F. inversion_clear F as [|? ? Fz F']. specialize (E3 F'). unfold duty in *. cbn. lia.
Qed.

(** What a thread owns of the block at [a]. *)
Definition contrib (a : Z) (t : thread) (g : toks) : toks :=
  tplus (hands a (handles t)) (match running t with Some (o, _) => if target o =? a then g else tok0 | None => tok0 end).
Definition total (a : Z) (ts : list thread) (G : list toks) : toks := tsum (zip_with (contrib a) ts G).

Lemma total_split a ts G i t g : ts !! i = Some t -> G !! i = Some g ->
  exists R, total a ts G = tplus (contrib a t g) R /\
    (forall t' g', total a (<[i := t']> ts) (<[i := g']> G) = tplus (contrib a t' g') R) /\ (Forall wf_toks G -> duty R).
Proof.
  intros Ht Hg. destruct (tsum_split (zip_with (contrib a) ts G) i (contrib a t g)) as (R & E1 & E2 & E3).
  { by rewrite lookup_zip_with, Ht; cbn; rewrite Hg. }
  exists R. split; [done|]. split.
  - intros t' g'. unfold total. by rewrite <- insert_zip_with.
  - intros F. apply E3. eapply Forall_zip_with_snd; [|exact F]. apply Forall_true. intros u y W. unfold contrib, duty, wf_toks in *. cbn.
    destruct (running u) as [[o' p']|]; cbn; [|lia]. destruct (_ =? _); cbn; lia.
Qed.
Lemma sum_split {A} (f : A -> nat) l i x : l !! i = Some x ->
  exists r, sum_list_with f l = (f x + r)%nat /\ forall y, sum_list_with f (<[i := y]> l) = (f y + r)%nat.
Proof.
  revert i. induction l as [|z l IH]; intros [|i] H; try done; cbn in H.
  - injection H as ->. by exists (sum_list_with f l).
  - destruct (IH i H) as (r & E1 & E2). exists (f z + r)%nat. cbn. rewrite E1. split; [lia|]. intros y. rewrite E2. lia.
Qed.
Lemma contrib_weight a t g : wf_toks g -> (gs (contrib a t g) <= weight (Strong a) t /\ gw (contrib a t g) <= weight (Weak a) t)%nat.
Proof.
  intros W. unfold contrib, weight, wf_toks in *. cbn. destruct (running t) as [[o p]|]; [|cbn; lia].
  rewrite (Z.eqb_sym a). destruct (_ =? _); cbn; lia.
Qed.
Lemma total_weights a ts G : Forall wf_toks G ->
  (gs (total a ts G) <= weights (Strong a) ts /\ gw (total a ts G) <= weights (Weak a) ts)%nat.
Proof.
  intros F. revert ts. induction F as [|g G W F IH]; intros [|t ts]; [cbn; lia..|].
  specialize (IH ts). pose proof (contrib_weight a t g W). change (total a (t :: ts) (g :: G)) with (tplus (contrib a t g) (total a ts G)).
  unfold weights in *. cbn [sum_list_with]. cbn [tplus gs gw]. lia.
Qed.

(** The invariant: every running operation is typed, every block counts the
    tokens that exist for it, and the counts have room. *)
Record Inv (s : sys) (G : list toks) : Prop := {
  inv_wf : Forall wf_toks G;
  inv_typed : Forall2 (fun t g => match running t with Some (o, p) => typed (shared s) o g p | None => True end) (threads s) G;
  inv_block : forall a, block_ok (heap (shared s) !! a) (history (shared s) !! a) (total a (threads s) G);
  inv_null : heap (shared s) !! 0 = None;
  inv_room : forall a, room a (threads s) = true }.

(** The thread that runs, its ghosts, and everyone else's. *)
Lemma inv_thread s G i t : Inv s G -> threads s !! i = Some t ->
  exists g, G !! i = Some g /\ wf_toks g /\ (forall o p, running t = Some (o, p) -> typed (shared s) o g p).
Proof.
  intros I Ht. destruct (Forall2_lookup_l _ _ _ _ _ (inv_typed _ _ I) Ht) as (g & Hg & T). exists g. split; [done|].
  split; [by eapply Forall_lookup_1; [apply (inv_wf _ _ I)|]|]. intros o p E. by rewrite E in T.
Qed.
Lemma running_fits s G i t o p g : Inv s G -> threads s !! i = Some t -> G !! i = Some g -> running t = Some (o, p) ->
  exists R, duty R /\ total (target o) (threads s) G = tplus g R /\ fits (grown g R) /\
    (forall p' g', total (target o) (<[i := mkT (handles t) (Some (o, p'))]> (threads s)) (<[i := g']> G) = tplus g' R).
Proof.
  intros I Ht Hg Hr. destruct (total_split (target o) _ _ _ _ _ Ht Hg) as (R & E1 & E2 & HR). specialize (HR (inv_wf _ _ I)).
  assert (C : forall p' g', contrib (target o) (mkT (handles t) (Some (o, p'))) g' = tplus (hands (target o) (handles t)) g').
  { intros. unfold contrib. cbn. by rewrite Z.eqb_refl. }
  exists (tplus (hands (target o) (handles t)) R). split; [unfold duty in *; cbn; lia|]. split; [|split].
  - rewrite E1. unfold contrib. rewrite Hr, Z.eqb_refl. by rewrite tplus_assoc, (tplus_comm g).
  - assert (W : wf_toks g) by (by eapply Forall_lookup_1; [apply (inv_wf _ _ I)|]).
    pose proof (total_weights (target o) (<[i := mkT (handles t) (Some (o, p))]> (threads s)) (<[i := mkTok 2 2 0 0 0]> G)) as L.
    rewrite E2, C in L. rewrite (list_insert_id (threads s)) in L by (rewrite Ht; destruct t; cbn in *; by rewrite Hr).
    specialize (L ltac:(apply Forall_insert; [apply (inv_wf _ _ I)|unfold wf_toks; cbn; lia])).
    pose proof (inv_room _ _ I (target o)) as Rm. unfold room in Rm. unfold fits, grown, wf_toks in *. cbn in *. lia.
  - intros p' g'. by rewrite E2, C, tplus_assoc, (tplus_comm g').
Qed.

(** * Every event keeps it *)

Lemma tok_ext x y : gs x = gs y -> gw x = gw y -> gi x = gi y -> gd x = gd y -> gf x = gf y -> x = y.
Proof. destruct x, y. cbn. by intros -> -> -> -> ->. Qed.
Lemma hands_app a l k : hands a (l ++ k) = tplus (hands a l) (hands a k).
Proof. unfold hands, count, tplus. cbn. by rewrite !filter_app, !length_app. Qed.
Lemma count_cons h x l : count h (x :: l) = ((if decide (h = x) then 1 else 0) + count h l)%nat.
Proof. unfold count. rewrite filter_cons. by repeat case_decide. Qed.
Lemma remove1_count h l k : remove1 h l = Some k -> forall x, count x l = ((if decide (x = h) then 1 else 0) + count x k)%nat.
Proof.
  revert k. induction l as [|y l IH]; intros k; cbn [remove1]; [done|]. destruct (decide (h = y)) as [->|N].
  - intros [= ->] x. apply count_cons.
  - destruct (remove1 h l) as [k'|] eqn:E; [|done]. intros [= <-] x. rewrite !count_cons, (IH k' eq_refl x). lia.
Qed.
Lemma remove1_hands h l k a : remove1 h l = Some k -> hands a l = tplus (hands a [h]) (hands a k).
Proof.
  intros R. unfold hands, tplus. cbn [gs gw gi gd gf]. rewrite !(remove1_count _ _ _ R), !(count_cons _ h []). f_equal; cbn; lia.
Qed.
Lemma hands_elsewhere a l : (forall h, In h l -> addr h <> a) -> hands a l = tok0.
Proof.
  induction l as [|h l IH]; intros H; [done|]. rewrite hands_cons, IH by (intros; apply H; by right). rewrite tplus_0, hands1.
  specialize (H h (or_introl eq_refl)). repeat case_decide; subst; cbn in H; done.
Qed.
Lemma addr_takes o : addr (takes o) = target o.
Proof. by destruct o as [c|c p|[] p c|r|r|r|r|r|r|r]. Qed.

Lemma weights_split h ts i t : ts !! i = Some t ->
  exists r, weights h ts = (weight h t + r)%nat /\ forall u, weights h (<[i := u]> ts) = (weight h u + r)%nat.
Proof. apply sum_split. Qed.
(** A thread whose weights do not grow leaves room. *)
Lemma room_less a ts i t u : ts !! i = Some t -> (forall h, addr h = a -> (weight h u <= weight h t)%nat) ->
  room a ts = true -> room a (<[i := u]> ts) = true.
Proof.
  intros Ht H R. destruct (weights_split (Strong a) ts i t Ht) as (r1 & E1 & F1), (weights_split (Weak a) ts i t Ht) as (r2 & E2 & F2).
  unfold room in *. rewrite F1, F2. rewrite E1, E2 in R. pose proof (H (Strong a) eq_refl). pose proof (H (Weak a) eq_refl). lia.
Qed.

Section events.
Context {En : Entropy}.

Lemma act_absent sp p w p' w' a : act sp p w = Ret (p', w') -> heap w !! a = None -> heap w' !! a = None.
Proof.
  intros E Ha. destruct p as [r|cap k|x f k|x f v k|x f y k|x f e v k|x fn pay k|x k|l]; cbn [act] in E; unfold bind, block, set_state, ret in E;
    try (destruct (heap w !! x) as [b|] eqn:Hx; cbn [run_bind] in E; [|done]); try (injection E as <- <-; try done).
  - destruct (gate_cases cap w) as [[n G]|[c G]]; rewrite G in E; cbn [run_bind] in E; [done|]. by injection E as <- <-.
  - cbn. rewrite lookup_insert_ne; [done|congruence].
  - cbn. rewrite lookup_insert_ne; [done|congruence].
  - destruct (_ && _); injection E as <- <-; [|done]. cbn. rewrite lookup_insert_ne; [done|congruence].
  - destruct (fn =? 0); [done|]. by injection E as <- <-.
  - cbn. rewrite lookup_delete_ne; [done|congruence].
Qed.

(** The operation's next access. *)
Lemma inv_act s G i sp t o p w' p' : Inv s G -> threads s !! i = Some t -> running t = Some (o, p) ->
  act sp p (shared s) = Ret (p', w') -> exists G', Inv (mkS w' (<[i := mkT (handles t) (Some (o, p'))]> (threads s))) G'.
Proof.
  intros I Ht Hr E. destruct (inv_thread s G i t I Ht) as (g & Hg & W & T). specialize (T o p Hr).
  destruct (running_fits s G i t o p g I Ht Hg Hr) as (R & HR & E1 & F & E2).
  pose proof (act_ok sp p o g R (shared s) T HR F) as A. rewrite <- E1 in A. specialize (A (inv_block _ _ I (target o))).
  rewrite E in A. destruct A as (g' & T' & B & El). exists (<[i := g']> G). destruct I as [Iw It Ib In_ Ir]. split; cbn [shared threads].
  - apply Forall_insert; [done|apply T'].
  - assert (It' : Forall2 (fun t g => match running t with Some (o, p) => typed w' o g p | None => True end) (threads s) G).
    { eapply Forall2_impl; [exact It|]. cbn beta. intros u x Hu. destruct (running u) as [[o' q]|]; [|done].
      eapply typed_weaken; [exact Hu|]. intros _. by eapply act_made. }
    apply Forall2_insert; [done|exact T'].
  - intros a. destruct (decide (a = target o)) as [->|Ha]; [by rewrite E2|]. destruct (El a Ha) as [-> ->].
    destruct (total_split a _ _ _ _ _ Ht Hg) as (R' & F1 & F2 & _). rewrite F2. specialize (Ib a). rewrite F1 in Ib.
    unfold contrib in *. cbn. rewrite Hr in Ib. destruct (Z.eqb_spec (target o) a); [by subst|done].
  - by eapply act_absent.
  - intros a. eapply room_less; [exact Ht| |apply Ir]. intros h _. unfold weight. rewrite Hr. done.
Qed.

(** An update of one thread that moves no token. *)
Lemma inv_move s G i t u g g' : Inv s G -> threads s !! i = Some t -> G !! i = Some g -> wf_toks g' ->
  (forall o p, running u = Some (o, p) -> typed (shared s) o g' p) ->
  (forall a, contrib a u g' = contrib a t g) -> (forall a, room a (<[i := u]> (threads s)) = true) ->
  Inv (mkS (shared s) (<[i := u]> (threads s))) (<[i := g']> G).
Proof.
  intros I Ht Hg W T C Rm. destruct I as [Iw It Ib In_ Ir]. split; cbn [shared threads]; try done.
  - by apply Forall_insert.
  - apply Forall2_insert; [done|]. destruct (running u) as [[o p]|]; [by apply T|done].
  - intros a. destruct (total_split a _ _ _ _ _ Ht Hg) as (R & E1 & E2 & _). rewrite E2, C, <- E1. apply Ib.
Qed.
Lemma gives_weight o r g h : wf_toks g -> g = hands (target o) (gives o r) -> (forall x, In x (gives o r) -> addr x = target o) ->
  (count h (gives o r) <= if (addr h =? target o)%Z then 2 else 0)%nat.
Proof.
  intros W E A. destruct (Z.eqb_spec (addr h) (target o)) as [Eh|N].
  - subst g. unfold wf_toks in W. cbn in W. rewrite <- Eh in W. destruct h; cbn in W; lia.
  - pose proof (hands_elsewhere (addr h) (gives o r)) as H. unfold hands in H.
    assert (X : forall x, In x (gives o r) -> addr x <> addr h) by (intros x Hx; rewrite (A x Hx); done).
    specialize (H X). injection H as H1 H2. destruct h; cbn in *; lia.
Qed.
Lemma inv_settle s G i t o r : Inv s G -> threads s !! i = Some t -> running t = Some (o, Done r) ->
  exists G', Inv (mkS (shared s) (<[i := mkT (gives o r ++ handles t) None]> (threads s))) G'.
Proof.
  intros I Ht Hr. destruct (inv_thread s G i t I Ht) as (g & Hg & W & T). destruct (T _ _ Hr) as (_ & d & (A & E) & _).
  eexists. apply (inv_move s G i t _ g tok0); try done.
  - unfold wf_toks. cbn. lia.
  - intros a. unfold contrib. cbn. rewrite Hr, tplus_0, hands_app, tplus_comm. f_equal.
    destruct (Z.eqb_spec (target o) a) as [<-|N]; [done|]. apply hands_elsewhere. intros h Hh. rewrite (A h Hh). done.
  - intros a. eapply room_less; [exact Ht| |apply (inv_room _ _ I)]. intros h _. unfold weight. cbn. rewrite Hr.
    pose proof (gives_weight o r g h W E A). unfold count in *. rewrite filter_app, length_app. lia.
Qed.
Lemma remove1_In h l k : remove1 h l = Some k -> In h l.
Proof.
  revert k. induction l as [|y l IH]; intros k; cbn; [done|]. destruct (decide (h = y)); [by left|].
  destruct (remove1 h l) eqn:E; [|done]. intros _. right. by eapply IH.
Qed.
(** Handles are never NULL. *)
Lemma handle_block s G i t h : Inv s G -> threads s !! i = Some t -> In h (handles t) -> exists b, heap (shared s) !! addr h = Some b.
Proof.
  intros I Ht Hh. destruct (inv_thread s G i t I Ht) as (g & Hg & W & _). destruct (total_split (addr h) _ _ _ _ _ Ht Hg) as (R & E & _).
  pose proof (inv_block _ _ I (addr h)) as B. destruct (heap (shared s) !! addr h) as [b|]; [eauto|]. destruct B as [(Z1 & Z2 & _) _].
  rewrite E in Z1, Z2. assert (X : (0 < count h (handles t))%nat).
  { clear -Hh. unfold count. induction (handles t) as [|y l IH]; [done|]. rewrite filter_cons. case_decide as D; cbn; [lia|].
    destruct Hh as [->|Hh]; [done|by apply IH]. }
  unfold contrib in *. cbn in *. destruct h; cbn in *; lia.
Qed.
Lemma inv_begin s G i t cap o l : Inv s G -> threads s !! i = Some t -> running t = None -> remove1 (takes o) (handles t) = Some l ->
  room (target o) (<[i := mkT l (Some (o, prog_of cap o))]> (threads s)) = true ->
  exists G', Inv (mkS (shared s) (<[i := mkT l (Some (o, prog_of cap o))]> (threads s))) G'.
Proof.
  intros I Ht Hr Hl Rm. destruct (inv_thread s G i t I Ht) as (g & Hg & W & _).
  assert (Hn : target o <> 0).
  { destruct (handle_block s G i t (takes o) I Ht) as [b Hb]; [by eapply remove1_In|]. rewrite addr_takes in Hb. intros E. rewrite E in Hb.
    by rewrite (inv_null _ _ I) in Hb. }
  assert (Wt : wf_toks (hands (target o) [takes o])).
  { unfold wf_toks. rewrite hands1. repeat case_decide; cbn; lia. }
  eexists. apply (inv_move s G i t _ g (hands (target o) [takes o])); try done.
  - cbn. intros o' p' [= <- <-]. split; [done|]. eexists. split; [by apply prog_safe|]. done.
  - intros a. unfold contrib. cbn. rewrite Hr, tplus_0, (remove1_hands _ _ _ a Hl), tplus_comm. f_equal.
    destruct (Z.eqb_spec (target o) a) as [<-|N]; [done|]. symmetry. apply hands_elsewhere. intros h [<-|[]]. by rewrite addr_takes.
  - intros a. destruct (decide (a = target o)) as [->|N]; [done|]. eapply room_less; [exact Ht| |apply (inv_room _ _ I)].
    intros h <-. unfold weight. cbn [handles running]. rewrite Hr, (remove1_count _ _ _ Hl). destruct (Z.eqb_spec (addr h) (target o)); [done|]. case_decide; lia.
Qed.
Lemma total_handle a ts G i t h l : ts !! i = Some t -> length G = length ts ->
  (forall x, count x (handles t) = ((if decide (x = h) then 1 else 0) + count x l)%nat) ->
  total a ts G = tplus (hands a [h]) (total a (<[i := mkT l (running t)]> ts) G) /\
  forall x, weights x ts = ((if decide (x = h) then 1 else 0) + weights x (<[i := mkT l (running t)]> ts))%nat.
Proof.
  intros Ht HL Hc. split.
  - destruct (lookup_lt_is_Some_2 G i) as [g Hg]; [rewrite HL; by eapply lookup_lt_Some|].
    destruct (total_split a _ _ _ _ _ Ht Hg) as (R & E1 & E2 & _). rewrite <- (list_insert_id G i g) at 2 by done.
    rewrite E1, E2, tplus_assoc. f_equal. unfold contrib. cbn [handles running]. rewrite tplus_assoc. f_equal.
    unfold hands, tplus. cbn [gs gw gi gd gf]. rewrite !Hc, !(count_cons _ h []). f_equal; cbn; lia.
  - intros x. destruct (weights_split x ts i t Ht) as (r & -> & ->). unfold weight. cbn [handles running]. rewrite Hc. lia.
Qed.
Lemma inv_give s G i j h t l u : Inv s G -> threads s !! i = Some t -> remove1 h (handles t) = Some l ->
  <[i := mkT l (running t)]> (threads s) !! j = Some u ->
  Inv (mkS (shared s) (<[j := mkT (h :: handles u) (running u)]> (<[i := mkT l (running t)]> (threads s)))) G.
Proof.
  intros I Ht Hl Hu. assert (HL : length G = length (threads s)) by (symmetry; eapply Forall2_length, (inv_typed _ _ I)).
  set (ts1 := <[i := mkT l (running t)]> (threads s)) in *. set (ts2 := <[j := _]> ts1).
  assert (Back : <[j := mkT (handles u) (running u)]> ts2 = ts1).
  { unfold ts2. rewrite list_insert_insert_eq. apply list_insert_id. rewrite Hu. by destruct u. }
  pose proof (fun a => total_handle a (threads s) G i t h l Ht HL (remove1_count _ _ _ Hl)) as T1. fold ts1 in T1.
  assert (Hj : ts2 !! j = Some (mkT (h :: handles u) (running u))) by (apply list_lookup_insert_eq; by eapply lookup_lt_Some).
  pose proof (fun a => total_handle a ts2 G j _ h (handles u) Hj ltac:(unfold ts2, ts1; rewrite !length_insert; done)) as T2. cbn [running handles] in T2. rewrite Back in T2.
  specialize (fun a => T2 a (fun x => count_cons x h (handles u))).
  destruct I as [Iw It Ib In_ Ir]. split; cbn [shared threads]; try done.
  - assert (It1 : Forall2 (fun t g => match running t with Some (o, p) => typed (shared s) o g p | None => True end) ts1 G).
    { destruct (Forall2_lookup_l _ _ _ _ _ It Ht) as (g & Hg & T). rewrite <- (list_insert_id G i g) by done. apply Forall2_insert; [done|]. exact T. }
    destruct (Forall2_lookup_l _ _ _ _ _ It1 Hu) as (g & Hg & T). unfold ts2. rewrite <- (list_insert_id G j g) by done. apply Forall2_insert; [done|]. exact T.
  - intros a. rewrite (proj1 (T2 a)), <- (proj1 (T1 a)). apply Ib.
  - intros a. specialize (Ir a). unfold room in *. by rewrite !(proj2 (T2 a)), <- !(proj2 (T1 a)).
Qed.

Lemma create_run a cap d w : a <> 0 -> (exists n, oo_control_block_create (Some a) cap d w = Exited n) \/
  exists w', oo_control_block_create (Some a) cap d w = Ret (a, w') /\ heap w' = <[a := mkCB 1 1 0 0 d]> (heap w) /\ history w' = history w.
Proof.
  intros Ha. unfold oo_control_block_create, oo_control_block_init, bind, set_state, ret.
  destruct (gate_cases cap w) as [[n ->]|[c ->]]; cbn [run_bind]; [eauto|]. destruct (gate_cases cap (put_block a (mkCB 0 0 0 0 0) (with_wcaps c w))) as [[n ->]|[c' ->]]; cbn [run_bind]; [eauto|].
  destruct (Z.eqb_spec a 0); [done|]. cbn [run_bind]. right. eexists. split; [done|]. cbn. by rewrite insert_insert_eq.
Qed.
Lemma inv_create s G i t a d w' : Inv s G -> threads s !! i = Some t -> running t = None -> heap (shared s) !! a = None -> a <> 0 ->
  heap w' = <[a := mkCB 1 1 0 0 d]> (heap (shared s)) -> history w' = history (shared s) ->
  room a (<[i := mkT (Strong a :: handles t) None]> (threads s)) = true ->
  Inv (mkS (log_made a d w') (<[i := mkT (Strong a :: handles t) None]> (threads s))) G.
Proof.
  intros I Ht Hr Ha Hn Hh Hy Rm. assert (HL : length G = length (threads s)) by (symmetry; eapply Forall2_length, (inv_typed _ _ I)).
  destruct (inv_thread s G i t I Ht) as (g & Hg & W & _). set (ts' := <[i := _]> (threads s)) in *.
  assert (Hi : ts' !! i = Some (mkT (Strong a :: handles t) None)) by (apply list_lookup_insert_eq; by eapply lookup_lt_Some).
  assert (T : forall b, total b ts' G = tplus (hands b [Strong a]) (total b (threads s) G)).
  { intros b. destruct (total_handle b ts' G i _ (Strong a) (handles t) Hi) as [E _]; [by unfold ts'; rewrite length_insert|intros x; apply count_cons|].
    cbn [running] in E. rewrite E. f_equal. unfold ts'. rewrite list_insert_insert_eq, list_insert_id; [done|]. rewrite Ht. by destruct t; cbn in *; subst. }
  pose proof (inv_block _ _ I a) as Ba. rewrite Ha in Ba. destruct Ba as [(Z1 & Z2 & Z3 & Z4 & Z5) _].
  destruct I as [Iw It Ib In_ Ir]. split; cbn [shared threads].
  - done.
  - unfold ts'. rewrite <- (list_insert_id G i g) by done. apply Forall2_insert; [|done].
    eapply Forall2_same_length_lookup_2; [done|]. intros k u x Hu Hx. destruct (running u) as [[o p]|] eqn:Ru; [|done].
    pose proof (Forall2_lookup_lr _ _ _ _ _ _ It Hu Hx) as Tu. cbn beta in Tu. rewrite Ru in Tu. eapply typed_weaken; [exact Tu|].
    intros O. destruct (decide (target o = a)) as [E|N].
    + destruct (total_split a _ _ _ _ _ Hu Hx) as (R & E1 & _). rewrite E1 in Z1, Z2, Z3, Z4, Z5. unfold contrib, owns in *. rewrite Ru in *.
      destruct (Z.eqb_spec (target o) a); [|done]. cbn in *. lia.
    + unfold made_with, log_made. cbn. by rewrite lookup_insert_ne, Hy by done.
  - intros b. cbn. rewrite T, Hh, Hy. destruct (decide (b = a)) as [->|N].
    + rewrite !lookup_insert_eq. assert (total a (threads s) G = tok0) as -> by (by apply tok_ext). rewrite hands1. case_decide; [|done].
      cbn. repeat split; try lia. destruct (d =? 0); done.
    + rewrite !lookup_insert_ne by done. rewrite hands1. repeat case_decide; simplify_eq. rewrite tplus_comm, tplus_0. apply Ib.
  - cbn. rewrite Hh, lookup_insert_ne by done. done.
  - intros b. destruct (decide (b = a)) as [->|N]; [done|]. eapply room_less; [exact Ht| |apply Ir]. intros h <-. unfold weight. cbn [handles running].
    rewrite Hr, count_cons. case_decide; [|lia]. subst h. done.
Qed.

Lemma act_defined s G i sp t o p : Inv s G -> threads s !! i = Some t -> running t = Some (o, p) -> act sp p (shared s) <> Undefined.
Proof.
  intros I Ht Hr. destruct (inv_thread s G i t I Ht) as (g & Hg & W & T). specialize (T o p Hr).
  destruct (running_fits s G i t o p g I Ht Hg Hr) as (R & HR & E1 & F & E2).
  pose proof (act_ok sp p o g R (shared s) T HR F) as A. rewrite <- E1 in A. specialize (A (inv_block _ _ I (target o))).
  intros E. by rewrite E in A.
Qed.
(** The step of a running program: the call it has finished, or its access. *)
Lemma exec_step_cases s i sp t o p : threads s !! i = Some t -> running t = Some (o, p) ->
  exec (EStep i sp) s =
  match p with
  | Done r => Some (Ret (mkS (shared s) (<[i := mkT (gives o r ++ handles t) None]> (threads s))))
  | _ => Some (let* r := act sp p (shared s) in let '(p, w) := r in Ret (mkS w (<[i := mkT (handles t) (Some (o, p))]> (threads s))))
  end.
Proof. intros Ht Hr. unfold exec. rewrite Ht. cbn. rewrite Hr. by destruct p. Qed.
Lemma exec_inv s G e r : Inv s G -> exec e s = Some r -> r <> Undefined /\ forall s', r = Ret s' -> exists G', Inv s' G'.
Proof.
  intros I. destruct e as [i cap a d|i cap o|i sp|i j h].
  - unfold exec. destruct (threads s !! i) as [t|] eqn:Ht; cbn; [|done]. destruct (running t) eqn:Hr; [done|]. destruct (heap (shared s) !! a) eqn:Ha; [done|].
    destruct (Z.eqb_spec a 0); cbn [negb andb]; [done|]. destruct (room a _) eqn:Rm; [|done]. intros [= <-].
    destruct (create_run a cap d (shared s)) as [[k ->]|(w' & -> & Hh & Hy)]; [done|done|]. cbn [run_bind snd]. split; [done|]. intros s' [= <-].
    exists G. by apply inv_create.
  - unfold exec. destruct (threads s !! i) as [t|] eqn:Ht; cbn; [|done]. destruct (running t) eqn:Hr; [done|]. destruct (remove1 _ _) as [l|] eqn:Hl; [|done].
    destruct (room _ _) eqn:Rm; [|done]. intros [= <-]. split; [done|]. intros s' [= <-]. by eapply inv_begin.
  - destruct (threads s !! i) as [t|] eqn:Ht; [|by unfold exec; rewrite Ht]. destruct (running t) as [[o p]|] eqn:Hr; [|by unfold exec; rewrite Ht; cbn; rewrite Hr].
    rewrite (exec_step_cases s i sp t o p Ht Hr). pose proof (act_defined s G i sp t o p I Ht Hr) as D.
    assert (Act : forall r, Some (let* r := act sp p (shared s) in let '(p, w) := r in Ret (mkS w (<[i := mkT (handles t) (Some (o, p))]> (threads s)))) = Some r ->
      r <> Undefined /\ forall s', r = Ret s' -> exists G', Inv s' G').
    { intros r' [= <-]. destruct (act sp p (shared s)) as [[p' w']| |] eqn:E; [|done|done]. cbn [run_bind]. split; [done|]. intros s' [= <-]. by eapply inv_act. }
    destruct p; try exact (Act r). intros [= <-]. split; [done|]. intros s' [= <-]. by eapply inv_settle.
  - unfold exec. destruct (threads s !! i) as [t|] eqn:Ht; cbn; [|done]. destruct (remove1 h (handles t)) as [l|] eqn:Hl; cbn; [|done].
    destruct (<[i:=_]> (threads s) !! j) as [u|] eqn:Hu; cbn; [|done]. intros [= <-]. split; [done|]. intros s' [= <-]. exists G. by eapply inv_give.
Qed.
Lemma weights_boot h n : weights h (repeat resting n) = O.
Proof. induction n; [done|]. by cbn. Qed.
Lemma total_boot a n : total a (repeat resting n) (repeat tok0 n) = tok0.
Proof. induction n as [|n IH]; [done|]. change (tplus (contrib a resting tok0) (total a (repeat resting n) (repeat tok0 n)) = tok0). by rewrite IH. Qed.
Lemma reachable_inv c n s : reachable c n s -> exists G, Inv s G.
Proof.
  induction 1 as [|s e s' _ [G I] E].
  - exists (repeat tok0 n). split; unfold boot; cbn [shared threads heap history].
    + induction n; cbn; constructor; [unfold wf_toks; cbn; lia|done].
    + induction n; cbn; by constructor.
    + intros a. rewrite total_boot, !lookup_empty. done.
    + apply lookup_empty.
    + intros a. unfold room. by rewrite !weights_boot.
  - destruct (exec_inv s G e _ I E) as [_ H]. by apply H.
Qed.

(** * Safety *)

Lemma In_count h l : In h l -> (0 < count h l)%nat.
Proof.
  induction l as [|y l IH]; [done|]. rewrite count_cons. intros [->|H]; [rewrite decide_True by done; lia|]. specialize (IH H). lia.
Qed.
Lemma handle_tokens s G i t h : Inv s G -> threads s !! i = Some t -> In h (handles t) ->
  (0 < match h with Strong a => gs (total a (threads s) G) | Weak a => gw (total a (threads s) G) end)%nat.
Proof.
  intros I Ht Hh. destruct (inv_thread s G i t I Ht) as (g & Hg & W & _). destruct (total_split (addr h) _ _ _ _ _ Ht Hg) as (R & E & _).
  apply In_count in Hh. destruct h as [a|a]; cbn [addr] in E; rewrite E; unfold contrib; cbn; unfold count in *; lia.
Qed.

(** C10. No interleaving touches freed memory.  In a state that threads reach
    by creating blocks, running operations on handles they hold and passing
    handles on, no step reads, writes or frees a block that is not allocated.
    A strong handle keeps its block allocated, its strong count positive and
    its destructor uncalled; a weak handle keeps the block allocated. *)
Theorem weak_no_use_after_free c n s : reachable c n s ->
  (forall e, exec e s <> Some Undefined) /\
  forall i t h, threads s !! i = Some t -> In h (handles t) -> exists b, heap (shared s) !! addr h = Some b /\
    match h with Strong a => 0 < strong_count b /\ called (shared s) a = [] | Weak a => 0 < weak_count b end.
Proof.
  intros [G I]%reachable_inv. split.
  - intros e E. by destruct (exec_inv s G e _ I E) as [N _].
  - intros i t h Ht Hh. destruct (handle_block s G i t h I Ht Hh) as [b Hb]. exists b. split; [done|].
    pose proof (handle_tokens s G i t h I Ht Hh) as P. pose proof (inv_block _ _ I (addr h)) as B. rewrite Hb in B.
    destruct h as [a|a]; cbn [addr] in *; destruct B as (S & Wk & _ & _ & _ & _ & H).
    + split; [lia|]. unfold called. rewrite H. destruct (Nat.ltb_spec 0 (gs (total a (threads s) G))); [|lia]. by rewrite orb_true_r.
    + destruct (0 <? gs _)%nat; lia.
Qed.

(** The handles that exist, and blocks no operation is working on. *)
Definition held (h : handle) (ts : list thread) : nat := sum_list_with (fun t => count h (handles t)) ts.
Definition quiet (a : Z) (ts : list thread) : Prop := Forall (fun t => match running t with Some (o, _) => target o <> a | None => True end) ts.
Lemma quiet_total a ts G : quiet a ts -> length ts = length G -> total a ts G = mkTok (held (Strong a) ts) (held (Weak a) ts) 0 0 0.
Proof.
  intros Q. revert G. induction Q as [|t ts Ht Q IH]; intros [|g G] L; try done.
  change (total a (t :: ts) (g :: G)) with (tplus (contrib a t g) (total a ts G)). rewrite IH by (cbn in L; lia).
  unfold held. cbn [sum_list_with]. unfold contrib, tplus, hands. destruct (running t) as [[o p]|]; [destruct (Z.eqb_spec (target o) a); [done|]|]; cbn; f_equal; lia.
Qed.

(** C21. When no operation is working on a block, its counts are the handles:
    the strong count is the number of strong handles, the weak count the
    number of weak handles plus one while a strong handle exists.  The block is
    allocated exactly as long as there is a handle, so the last handle frees it
    and none leaks; and the destructor it was made with has been called,
    once, exactly when the last strong handle is gone. *)
Theorem weak_counts_exact c n s a : reachable c n s -> quiet a (threads s) ->
  let st := held (Strong a) (threads s) in let wk := held (Weak a) (threads s) in
  match heap (shared s) !! a with
  | Some b =>
      (0 < st + wk)%nat /\ strong_count b = Z.of_nat st /\ weak_count b = Z.of_nat wk + (if (0 <? st)%nat then 1 else 0) /\
      flags b = 0 /\ dtor b = made_with (shared s) a /\
      called (shared s) a = (if (0 <? st)%nat || (dtor b =? 0) then [] else [dtor b])
  | None =>
      st = O /\ wk = O /\
      forall d l, history (shared s) !! a = Some (d, l) -> called (shared s) a = (if d =? 0 then [] else [d])
  end.
Proof.
  intros [G I]%reachable_inv Q st wk. pose proof (inv_block _ _ I a) as B. rewrite quiet_total in B; [|done|by eapply Forall2_length, (inv_typed _ _ I)].
  fold st wk in B. destruct (heap (shared s) !! a) as [b|].
  - destruct B as (S & Wk & F & Fl & _ & _ & H). cbn [gs gw gi gd gf] in *. unfold called, made_with. rewrite H.
    rewrite Nat.add_0_r in Wk. change (0 <? 0)%nat with false. rewrite orb_false_r, orb_comm.
    split; [cases; lia|]. split; [done|]. split; [done|]. split; [by apply Fl|]. done.
  - destruct B as [(Z1 & Z2 & _) H]. cbn in Z1, Z2. repeat split; try done. intros d l E. unfold called. rewrite E in *. done.
Qed.

(** * Progress *)

(** Thread [i] takes a step and no compare-and-swap fails spuriously. *)
Definition solo_step (i : nat) (s s' : sys) : Prop := exec (EStep i false) s = Some (Ret s').
Definition is_idle (i : nat) (s : sys) : Prop := exists t, threads s !! i = Some t /\ running t = None.
(** Running alone, the thread comes to the end of its operation, or the gate
    of the operation ends the process. *)
Definition completes (i : nat) (s : sys) : Prop :=
  exists s', rtc (solo_step i) s s' /\ (is_idle i s' \/ exists k, exec (EStep i false) s' = Some (Exited k)).
Definition at_prog (s : sys) (i : nat) (t : thread) (o : op) (w : wstate) (p : prog) : sys :=
  mkS w (<[i := mkT (handles t) (Some (o, p))]> (threads s)).

Section progress.
Context (s : sys) (i : nat) (t : thread) (o : op).
Hypothesis Hi : threads s !! i = Some t.
Local Abbreviation here := (at_prog s i t o).

Lemma here_thread w p : threads (here w p) !! i = Some (mkT (handles t) (Some (o, p))).
Proof. apply list_lookup_insert_eq. by eapply lookup_lt_Some. Qed.
Lemma here_exec sp w p : exec (EStep i sp) (here w p) =
  match p with
  | Done r => Some (Ret (mkS w (<[i := mkT (gives o r ++ handles t) None]> (threads s))))
  | _ => Some (let* r := act sp p w in let '(p, w) := r in Ret (here w p))
  end.
Proof.
  rewrite (exec_step_cases (here w p) i sp _ o p (here_thread w p) eq_refl). unfold at_prog. cbn [shared threads handles].
  destruct p; rewrite ?list_insert_insert_eq; try done; f_equal; match goal with |- context [act sp ?q w] => destruct (act sp q w) as [[p' w']| |]; cbn [run_bind]; by rewrite ?list_insert_insert_eq end.
Qed.
Lemma completes_done w r : completes i (here w (Done r)).
Proof.
  exists (mkS w (<[i := mkT (gives o r ++ handles t) None]> (threads s))). split; [apply rtc_once; unfold solo_step; rewrite here_exec; reflexivity|]. left. exists (mkT (gives o r ++ handles t) None). split; [|done].
  apply list_lookup_insert_eq. by eapply lookup_lt_Some.
Qed.
Lemma completes_act w p w' p' : act false p w = Ret (p', w') -> completes i (here w' p') -> completes i (here w p).
Proof.
  intros E C. destruct p as [r| | | | | | | |]; [apply completes_done|..];
    (destruct C as (s' & R & H); exists s'; split; [|done]; eapply rtc_l; [|exact R]; unfold solo_step; rewrite here_exec, E; reflexivity).
Qed.
Lemma completes_load w a f k b : heap w !! a = Some b -> completes i (here w (k (get_f f b))) -> completes i (here w (Load a f k)).
Proof. intros Hb. apply completes_act. cbn. unfold bind, block. by rewrite Hb. Qed.

(** The loops, alone: the exchange succeeds at the latest when it is retried
    with the value just loaded. *)
Lemma completes_cas_now w c b v k r : heap w !! c = Some b -> k true = Done r -> completes i (here w (Cas c FStrong (strong_count b) v k)).
Proof.
  intros Hb Hk. eapply completes_act; [cbn; unfold bind, block; rewrite Hb; cbn; by rewrite Z.eqb_refl|]. rewrite Hk. apply completes_done.
Qed.
Lemma completes_cas w c b e v k r : heap w !! c = Some b -> k true = Done r -> completes i (here w (k false)) -> completes i (here w (Cas c FStrong e v k)).
Proof.
  intros Hb Hk C. destruct (Z.eqb_spec (strong_count b) e) as [<-|N]; [by eapply completes_cas_now|].
  eapply completes_act; [cbn; unfold bind, block; rewrite Hb; cbn; apply Z.eqb_neq in N; by rewrite N|]. exact C.
Qed.
Lemma completes_loop w l : (exists g, loop_ok o g l) -> (exists b, heap w !! target o = Some b) -> completes i (here w (Loop l)).
Proof.
  intros [g L] [b Hb]. eapply completes_act; [done|]. destruct l as [c sc|c pay sc]; cbn [resolve] in *; unfold retain_loop, upgrade_loop.
  - destruct L as (Eo & _ & _). rewrite Eo in Hb. cbn [target] in Hb. destruct (_ && _); [|apply completes_done]. eapply completes_cas; [done|done|]. cbn beta iota.
    unfold retain_retry. eapply completes_load; [done|]. eapply completes_load; [done|]. destruct (_ || _); [apply completes_done|].
    eapply completes_act; [done|]. cbn [resolve]. unfold retain_loop. destruct (_ && _); [|apply completes_done]. by eapply completes_cas_now.
  - destruct L as (Eo & _ & _). rewrite Eo in Hb. cbn [target ctrl] in Hb. destruct (_ && _); [|apply completes_done]. eapply completes_cas; [done|done|]. cbn beta iota.
    unfold upgrade_retry. eapply completes_load; [done|]. eapply completes_load; [done|]. destruct (_ || _); [apply completes_done|].
    eapply completes_act; [done|]. cbn [resolve]. unfold upgrade_loop. destruct (_ && _); [|apply completes_done]. by eapply completes_cas_now.
Qed.
Lemma completes_prog p w G : Inv (here w p) G -> completes i (here w p).
Proof.
  revert w G. induction p as [r|cap k IH|a f k IH|a f v k IH|a f x k IH|a f e v k IH|a fn pay k IH|a k IH|l]; intros w G I.
  1: apply completes_done.
  8: { apply completes_loop.
       - destruct (inv_thread _ _ _ _ I (here_thread w _)) as (g & _ & _ & T). destruct (T _ _ eq_refl) as (_ & d & L & _). eauto.
       - destruct (inv_thread _ _ _ _ I (here_thread w _)) as (g & Hg & _ & T). destruct (T _ _ eq_refl) as (_ & d & L & _).
         destruct (running_fits _ _ _ _ _ _ _ I (here_thread w _) Hg eq_refl) as (R & _ & E & _). pose proof (inv_block _ _ I (target o)) as B. rewrite E in B.
         eapply alive_block; [exact B|]. unfold owns. destruct l; [destruct L as (_ & -> & _)|destruct L as (_ & _ & ->)]; cbn; lia. }
  all: match goal with |- completes _ (at_prog _ _ _ _ ?w ?q) =>
         destruct (act false q w) as [[p' w']|n|] eqn:E;
         [assert (exists G', Inv (here w' p') G') as [G' I'] by (destruct (inv_act _ _ _ _ _ _ _ _ _ I (here_thread w _) eq_refl E) as [G' I'];
            exists G'; unfold at_prog in *; cbn [threads handles] in I'; by rewrite list_insert_insert_eq in I');
          apply (completes_act _ _ _ _ E)
         |exists (here w q); split; [apply rtc_refl|right; exists n; by rewrite here_exec, E]
         |by destruct (act_defined _ _ _ false _ _ _ I (here_thread w _) eq_refl)]
       end.
  all: cbn [act] in E; unfold bind, block, set_state, ret in E.
  all: try (destruct (heap w !! a) as [b|]; cbn [run_bind] in E; [|done]).
  - destruct (gate_cases cap w) as [[n Gt]|[c Gt]]; rewrite Gt in E; cbn [run_bind] in E; [done|]. injection E as -> <-. by eapply IH.
  - injection E as <- <-. by eapply IH.
  - injection E as <- <-. by eapply IH.
  - injection E as <- <-. by eapply IH.
  - destruct (_ && _); injection E as <- <-; by eapply IH.
  - destruct (fn =? 0); [done|]. injection E as <- <-. by eapply IH.
  - injection E as <- <-. by eapply IH.
Qed.
End progress.

(** C22. Operations finish: from every reachable state, a thread that is inside
    an operation and runs without interruption comes to its end in finitely
    many steps, whatever other threads did before, unless the operation's gate
    ends the process.  No retry loop can keep a thread that runs alone. *)
Theorem weak_ops_complete c n s i t o p : reachable c n s -> threads s !! i = Some t -> running t = Some (o, p) -> completes i s.
Proof.
  intros [G I]%reachable_inv Ht Hr. assert (E : s = at_prog s i t o (shared s) p).
  { destruct s as [w ts]. unfold at_prog. cbn in *. f_equal. symmetry. apply list_insert_id. rewrite Ht. destruct t; cbn in *. by rewrite Hr. }
  rewrite E. eapply completes_prog; [done|]. rewrite <- E. exact I.
Qed.
End events.

(** * What the counts do not guard *)

(** A strong count at its maximum does not stay there: retaining leaves it
    alone, uncounted, and releasing still takes it down. *)
Lemma saturated_retain_uncounted `{Entropy} c w b fl : heap w !! c = Some b -> b = mkCB UINT32_MAX (weak_count b) 0 fl (dtor b) ->
  (exists p, act false (retain_retry c) w = Ret (p, w) /\ act false p w = Ret (Done RUnit, w)) /\
  forall k, act false (FetchAdd c FStrong (-1) k) w = Ret (k UINT32_MAX, put_block c (set_f FStrong (UINT32_MAX - 1) b) w).
Proof.
  intros Hb E. split.
  - eexists. cbn. unfold bind, block. rewrite Hb. cbn [run_bind]. split; [reflexivity|]. cbn. unfold bind, block. rewrite Hb. rewrite E. done.
  - intros k. cbn. unfold bind, block. rewrite Hb. cbn [run_bind]. unfold set_state. cbn [run_bind]. rewrite E. done.
Qed.

(** A script of events. *)
Fixpoint play `{Entropy} (es : list event) (s : sys) : option sys :=
  match es with
  | [] => Some s
  | e :: es => match exec e s with Some (Ret s') => play es s' | _ => None end
  end.
Lemma play_reachable `{Entropy} c n es s s' : reachable c n s -> play es s = Some s' -> reachable c n s'.
Proof.
  revert s. induction es as [|e es IH]; intros s R; cbn [play]; [by intros [= <-]|].
  destruct (exec e s) as [[s1| |]|] eqn:E; try done. apply IH. by eapply reach_exec.
Qed.

Definition wit_alloc : Z := Eval vm_compute in match alloc_tok wit_all with Some t => t | None => 0 end.
Definition wit_weak : OoWeakRef := mkRef 4096 64.
Definition steps (k i : nat) : list event := repeat (EStep i false) k.
(** Thread 0 makes a block at 64 with the destructor 7 and a weak handle to
    it, and gives the weak handle to thread 1. *)
Definition wit_setup : list event :=
  [ECreate 0 wit_alloc 64 7; EBegin 0 wit_alloc (OCreate true 4096 64)] ++ steps 7 0 ++ [EGive 0 1 (Weak 64)].
Definition wit_reach (es : list event) : sys :=
  match @play wit_entropy es (boot wit_all 2) with Some s => s | None => boot wit_all 2 end.
Lemma wit_reachable es s : @play wit_entropy es (boot wit_all 2) = Some s -> @reachable wit_entropy wit_all 2 s.
Proof. apply play_reachable. constructor. Qed.

(** Two handles being made at the same time both come to write the epoch,
    with plain stores: a data race of the C program. *)
Lemma epoch_race : exists s, @reachable wit_entropy wit_all 2 s /\
  Forall (fun t => exists o e r, running t = Some (o, Store 64 FEpoch e (Done r))) (threads s).
Proof.
  pose (es := wit_setup ++ [EBegin 0 wit_alloc (OCreate true 4096 64); EBegin 1 wit_alloc (OCreate false 4096 64)] ++ steps 5 0 ++ steps 5 1).
  destruct (@play wit_entropy es (boot wit_all 2)) as [s|] eqn:E; [|by vm_compute in E].
  exists s. split; [by apply (wit_reachable es)|]. vm_compute in E. injection E as <-. cbn.
  repeat (apply List.Forall_cons; [eexists _, _, _; reflexivity|]). apply List.Forall_nil.
Qed.

(** The last strong handle is being released while thread 1 upgrades. *)
Definition wit_race : list event :=
  wit_setup ++ [EBegin 1 wit_alloc (OUpgrade wit_weak)] ++ steps 3 1 ++ [EBegin 0 wit_alloc (ORelease 64 4096)] ++ steps 3 0.
Example weak_no_use_after_free_witness :
  (exists e, @exec wit_entropy e (wit_reach wit_race) <> None) /\ (forall e, @exec wit_entropy e (wit_reach wit_race) <> Some Undefined) /\
  exists b, heap (shared (wit_reach wit_setup)) !! 64 = Some b /\ 0 < strong_count b /\ called (shared (wit_reach wit_setup)) 64 = [].
Proof.
  split; [by exists (EStep 0 false); vm_compute|]. split.
  - apply (@weak_no_use_after_free wit_entropy wit_all 2), (wit_reachable wit_race). vm_compute. reflexivity.
  - refine (proj2 (@weak_no_use_after_free wit_entropy wit_all 2 (wit_reach wit_setup) _) 0%nat (mkT [Strong 64] None) (Strong 64) _ _).
    + apply (wit_reachable wit_setup). vm_compute. reflexivity.
    + vm_compute. reflexivity.
    + by left.
Defined.
(** Both handles dropped, the weak one last. *)
Definition wit_dropped : list event :=
  wit_setup ++ [EBegin 0 wit_alloc (ORelease 64 4096)] ++ steps 7 0 ++ [EBegin 1 wit_alloc (OWeakRelease wit_weak)] ++ steps 6 1.
Example weak_counts_exact_witness :
  heap (shared (wit_reach wit_dropped)) !! 64 = None /\ called (shared (wit_reach wit_dropped)) 64 = [7].
Proof.
  pose proof (@weak_counts_exact wit_entropy wit_all 2 (wit_reach wit_dropped) 64) as H.
  assert (R : @reachable wit_entropy wit_all 2 (wit_reach wit_dropped)) by (apply (wit_reachable wit_dropped); vm_compute; reflexivity).
  specialize (H R ltac:(vm_compute; repeat constructor)). cbv zeta in H.
  assert (E : heap (shared (wit_reach wit_dropped)) !! 64 = None) by (vm_compute; reflexivity). rewrite E in H.
  split; [exact E|]. apply (proj2 (proj2 H) 7 [7]). vm_compute. reflexivity.
Defined.
Example weak_ops_complete_witness : @completes wit_entropy 1 (wit_reach wit_race).
Proof.
  refine (@weak_ops_complete wit_entropy wit_all 2 (wit_reach wit_race) 1%nat (mkT [] (Some (OUpgrade wit_weak, Loop (UpgradeLoop 64 4096 1)))) (OUpgrade wit_weak) _ _ _ eq_refl).
  - apply (wit_reachable wit_race). vm_compute. reflexivity.
  - vm_compute. reflexivity.
Defined.
