(* ===== verification/RawMem.v ===== *)
(** Raw allocations ([core/mem/alloc.c]): the gated allocator with its table
    of headers, bounds-checked words, and the ambient quota it shares with
    [Lists].

    The state holds the token stores of [Caps], the quota, the buckets of the
    table (each a chain of headers, newest first) and the bytes the program may
    touch: those after the header of a block that is allocated.  Touching any
    other byte is [Undefined].  The block [posix_memalign] returns is an
    argument, and so is the number in the environment variable of the quota.
    One call at a time runs; the source holds its mutex for the whole of each
    change. *)
From S2P Require Import Prelude Caps Lists.
From stdpp Require Import gmap.
Open Scope Z_scope.

Definition OO_ALLOC_BYTES_MAX : Z := Z.shiftl 1 30.
Definition OO_RAW_ALLOC_MAGIC : Z := 0x4F4F414C4C4F4331.
Definition OO_ALLOC_BUCKETS : nat := 1024.
(** [sizeof(OoRawAllocHeader)]. *)
Definition HEADER : Z := 48.

Record OoRawAllocHeader := mkRaw { total_size : Z; capacity : Z; magic : Z; user_ptr : Z }.
Record rstate := mkR {
  rcaps : cstate; rquota : Quota; quota_ready : bool;
  g_alloc_table : list (list OoRawAllocHeader); bytes_ : gmap Z Z }.
Definition with_rcaps (c : cstate) (s : rstate) : rstate := mkR c (rquota s) (quota_ready s) (g_alloc_table s) (bytes_ s).
Definition with_rquota (q : Quota) (s : rstate) : rstate := mkR (rcaps s) q (quota_ready s) (g_alloc_table s) (bytes_ s).
Definition with_table (t : list (list OoRawAllocHeader)) (s : rstate) : rstate := mkR (rcaps s) (rquota s) (quota_ready s) t (bytes_ s).
Definition with_bytes (m : gmap Z Z) (s : rstate) : rstate := mkR (rcaps s) (rquota s) (quota_ready s) (g_alloc_table s) m.
Definition with_bytes_used (n : Z) (s : rstate) : rstate := with_rquota (mkQuota n (ambient_quota (rquota s))) s.
Definition with_limit (n : Z) (s : rstate) : rstate := with_rquota (mkQuota (ambient_bytes (rquota s)) n) s.
Definition rstart (c : cstate) : rstate := mkR c (mkQuota 0 (64 * 1024 * 1024)) false (repeat [] OO_ALLOC_BUCKETS) ∅.

(** * Bytes *)

(** Write the bytes [l] from [a] on; read [n] bytes from [a] on. *)
Fixpoint fill (a : Z) (l : list Z) (m : gmap Z Z) : gmap Z Z :=
  match l with [] => m | b :: l => <[a := b]> (fill (a + 1) l m) end.
Fixpoint at_bytes (a : Z) (n : nat) (m : gmap Z Z) : option (list Z) :=
  match n with
  | O => Some []
  | S n => match m !! a, at_bytes (a + 1) n m with Some b, Some l => Some (b :: l) | _, _ => None end
  end.
Definition clear (a n : Z) (m : gmap Z Z) : gmap Z Z := filter (fun kv => ~ (a <= fst kv < a + n)) m.

Section raw.
Context {En : Entropy}.
(** The number in [OO_LIST_AMBIENT_QUOTA], if the policy shows the variable. *)
Context (env : option Z).

Definition on_rcaps {A} (m : ST cstate A) : ST rstate A := lift rcaps with_rcaps m.

Definition oo_list_quota_init_once (s : rstate) : rstate :=
  match env with Some v => if 0 <? v then with_limit v s else s | None => s end.
Definition oo_list_quota_init_public (s : rstate) : rstate :=
  if quota_ready s then s else
  let s := oo_list_quota_init_once s in mkR (rcaps s) (rquota s) true (g_alloc_table s) (bytes_ s).

(** * The quota *)

Definition oo_alloc_bytes (cap n : Z) : ST rstate Z :=
  let! _ := on_rcaps (oo_cap_require_alloc cap) in
  let n := if n <? 0 then 0 else n in
  let n := if OO_ALLOC_BYTES_MAX <? n then 0 else n in
  let! _ := set_state oo_list_quota_init_public in
  let! _ := set_state (fun s => let q := ambient_quota (rquota s) in
              if LLONG_MAX - q <? n then with_limit LLONG_MAX s else with_limit (q + n) s) in
  ret n.
Definition oo_free_bytes (cap p : Z) : ST rstate unit :=
  let! _ := on_rcaps (oo_cap_require_alloc cap) in
  let p := if p <? 0 then 0 else p in
  set_state (fun s => let q := ambient_quota (rquota s) in if p <=? q then with_limit (q - p) s else s).

(** * Blocks *)

Definition bucket_of (target : Z) : nat := Z.to_nat (Z.shiftr (u64 target) 4 mod Z.of_nat OO_ALLOC_BUCKETS).
Definition bucket (b : nat) (s : rstate) : list OoRawAllocHeader := nth b (g_alloc_table s) [].
Definition put_bucket (b : nat) (l : list OoRawAllocHeader) (s : rstate) : rstate := with_table (<[b := l]> (g_alloc_table s)) s.

Definition total_sz (size : Z) : Z :=
  let t := u64 (HEADER + size) in if negb (t mod 16 =? 0) then t + (16 - t mod 16) else t.
Definition oo_alloc (memalign : option Z) (cap size : Z) : ST rstate Z :=
  let! _ := on_rcaps (oo_cap_require_alloc cap) in
  if (size <=? 0) || (OO_ALLOC_BYTES_MAX <? size) then ret 0
  else
    let! _ := set_state oo_list_quota_init_public in
    let t := total_sz size in
    let! s := get_state in
    if i64 (ambient_quota (rquota s) - t) <? ambient_bytes (rquota s) then die 1
    else
      let! _ := set_state (fun s => with_bytes_used (i64 (ambient_bytes (rquota s) + t)) s) in
      match memalign with
      | None => let! _ := set_state (fun s => with_bytes_used (i64 (ambient_bytes (rquota s) - t)) s) in ret 0
      | Some raw =>
          let p := raw + HEADER in
          let! _ := set_state (fun s => with_bytes (fill p (zeros (Z.to_nat (t - HEADER))) (bytes_ s)) s) in
          let b := bucket_of p in
          let! _ := set_state (fun s => put_bucket b (mkRaw t size OO_RAW_ALLOC_MAGIC p :: bucket b s) s) in
          ret (i64 p)
      end.

(** The chain without the first header for the pointer, and that header. *)
Fixpoint unlink (target : Z) (l : list OoRawAllocHeader) : option (OoRawAllocHeader * list OoRawAllocHeader) :=
  match l with
  | [] => None
  | h :: l => if user_ptr h =? target then Some (h, l)
              else match unlink target l with Some (x, k) => Some (x, h :: k) | None => None end
  end.
Definition oo_free (cap ptr : Z) : ST rstate unit :=
  let! _ := on_rcaps (oo_cap_require_alloc cap) in
  if ptr =? 0 then ret tt
  else
    let target := u64 ptr in
    let b := bucket_of target in
    let! s := get_state in
    match unlink target (bucket b s) with
    | None => ret tt
    | Some (h, l) =>
        let! _ := set_state (put_bucket b l) in
        let! _ := set_state (fun s => let a := i64 (ambient_bytes (rquota s) - total_size h) in with_bytes_used (if a <? 0 then 0 else a) s) in
        set_state (fun s => with_bytes (clear (user_ptr h - HEADER) (total_size h) (bytes_ s)) s)
    end.

Fixpoint find_header (target : Z) (l : list OoRawAllocHeader) : option OoRawAllocHeader :=
  match l with [] => None | h :: l => if user_ptr h =? target then Some h else find_header target l end.
Definition alloc_find_locked (target : Z) (s : rstate) : option OoRawAllocHeader := find_header target (bucket (bucket_of target) s).

(** The refusals [oo_write_int] and [oo_read_int] share: each ends the process. *)
Definition checked (cap ptr offset : Z) (k : Z -> ST rstate Z) : ST rstate Z :=
  let! _ := on_rcaps (oo_cap_require_alloc cap) in
  if ptr =? 0 then die 1
  else if offset <? 0 then die 1
  else
    let! s := get_state in
    match alloc_find_locked (u64 ptr) s with
    | None => die 1
    | Some h =>
        if negb (magic h =? OO_RAW_ALLOC_MAGIC) then die 1
        else if i64 (capacity h) - 8 <? offset then die 1
        else k (u64 ptr + offset)
    end.
Definition oo_write_int (cap ptr offset v : Z) : ST rstate Z :=
  checked cap ptr offset (fun dest s =>
    match at_bytes dest 8 (bytes_ s) with
    | Some _ => Ret (0, with_bytes (fill dest (le_bytes 8 v) (bytes_ s)) s)
    | None => Undefined
    end).
Definition oo_read_int (cap ptr offset : Z) : ST rstate Z :=
  checked cap ptr offset (fun src s =>
    match at_bytes src 8 (bytes_ s) with
    | Some l => Ret (i64 (le_join l), s)
    | None => Undefined
    end).
End raw.

(** * Bytes, cell by cell *)

Lemma lookup_fill a l m x : fill a l m !! x = if (a <=? x) && (x <? a + Z.of_nat (length l)) then l !! Z.to_nat (x - a) else m !! x.
Proof.
  revert a. induction l as [|b l IH]; intros a; cbn [fill length].
  - destruct (Z.leb_spec a x), (Z.ltb_spec x (a + Z.of_nat 0)); try lia; done.
  - destruct (Z.eq_dec x a) as [->|N].
    + rewrite lookup_insert_eq. destruct (Z.leb_spec a a), (Z.ltb_spec a (a + Z.of_nat (S (length l)))); try lia. cbn [andb].
      by rewrite Z.sub_diag.
    + rewrite lookup_insert_ne, IH by done.
      destruct (Z.leb_spec (a + 1) x), (Z.ltb_spec x (a + 1 + Z.of_nat (length l))), (Z.leb_spec a x), (Z.ltb_spec x (a + Z.of_nat (S (length l)))); try lia; cbn [andb]; try done.
      by replace (Z.to_nat (x - a)) with (S (Z.to_nat (x - (a + 1)))) by lia.
Qed.
Lemma at_bytes_Some a n m l : at_bytes a n m = Some l <-> length l = n /\ forall i, (i < n)%nat -> m !! (a + Z.of_nat i) = l !! i.
Proof.
  revert a l. induction n as [|n IH]; intros a l; cbn [at_bytes].
  - split; [intros [= <-]; split; [done|lia]|]. intros [H _]. by destruct l.
  - split.
    + destruct (m !! a) as [b|] eqn:Hb; [|done]. destruct (at_bytes (a + 1) n m) as [k|] eqn:Hk; [|done]. intros [= <-].
      apply IH in Hk as [L Hk]. split; [cbn; lia|]. intros [|i] Hi; [by rewrite Z.add_0_r|]. cbn. rewrite <- Hk by lia. f_equal. lia.
    + intros [L H]. destruct l as [|b l]; [done|]. pose proof (H 0%nat ltac:(lia)) as H0. rewrite Z.add_0_r in H0. rewrite H0. cbn.
      rewrite (proj2 (IH (a + 1) l)); [done|]. split; [cbn in L; lia|]. intros i Hi. pose proof (H (S i) ltac:(lia)) as HS. change ((b :: l) !! S i) with (l !! i) in HS. rewrite <- HS. f_equal. lia.
Qed.
Lemma at_bytes_total a n m : (forall x, a <= x < a + Z.of_nat n -> is_Some (m !! x)) -> is_Some (at_bytes a n m).
Proof.
  revert a. induction n as [|n IH]; intros a H; cbn [at_bytes]; [done|]. destruct (H a ltac:(lia)) as [b ->].
  destruct (IH (a + 1)) as [l ->]; [intros x Hx; apply H; lia|]. done.
Qed.
Lemma at_bytes_ext a n m m' : (forall x, a <= x < a + Z.of_nat n -> m' !! x = m !! x) -> at_bytes a n m' = at_bytes a n m.
Proof.
  revert a. induction n as [|n IH]; intros a H; cbn [at_bytes]; [done|]. rewrite H by lia. rewrite IH; [done|]. intros x Hx. apply H. lia.
Qed.
Lemma lookup_clear a n m x : clear a n m !! x = if (a <=? x) && (x <? a + n) then None else m !! x.
Proof.
  unfold clear. destruct (Z.leb_spec a x), (Z.ltb_spec x (a + n)); cbn [andb].
  1: apply map_lookup_filter_None; right; cbn; lia.
  all: rewrite map_lookup_filter; destruct (m !! x); cbn; [|done]; rewrite option_guard_True; [done|lia].
Qed.
(** Bytes written inside a block, read back with the block. *)
Lemma at_bytes_fill p n m l off k : at_bytes p n m = Some l -> (off + length k <= n)%nat ->
  at_bytes p n (fill (p + Z.of_nat off) k m) = Some (take off l ++ k ++ drop (off + length k) l).
Proof.
  rewrite !at_bytes_Some. intros [L H] Ho. split; [rewrite !length_app, length_take, length_drop; lia|].
  intros i Hi. rewrite lookup_fill, H by done.
  destruct (Z.leb_spec (p + Z.of_nat off) (p + Z.of_nat i)), (Z.ltb_spec (p + Z.of_nat i) (p + Z.of_nat off + Z.of_nat (length k))); try lia; cbn [andb].
  - rewrite lookup_app_r by (rewrite length_take; lia). rewrite length_take, Nat.min_l, lookup_app_l by lia. f_equal. lia.
  - rewrite lookup_app_r by (rewrite length_take; lia). rewrite length_take, Nat.min_l, lookup_app_r, lookup_drop by lia. f_equal. lia.
  - rewrite lookup_app_l by (rewrite length_take; lia). by rewrite lookup_take_lt by lia.
Qed.
Lemma at_bytes_slice p n m l off k : at_bytes p n m = Some l -> (off + k <= n)%nat -> at_bytes (p + Z.of_nat off) k m = Some (slice off k l).
Proof.
  rewrite !at_bytes_Some. intros [L H] Ho. split; [rewrite length_slice; lia|]. intros i Hi.
  replace (p + Z.of_nat off + Z.of_nat i) with (p + Z.of_nat (off + i)) by lia. rewrite H by lia.
  unfold slice. by rewrite lookup_take_lt, lookup_drop by lia.
Qed.

(** * The abstract heap

    A map from pointers to contents.  A state represents it when the table
    holds exactly one header for each pointer, in its bucket, the blocks are
    disjoint, and the bytes behind each header are mapped and hold the
    contents. *)

Definition in_table (h : OoRawAllocHeader) (s : rstate) : Prop := h ∈ bucket (bucket_of (user_ptr h)) s.
Definition block_end (h : OoRawAllocHeader) : Z := user_ptr h - HEADER + total_size h.
Definition wf_header (h : OoRawAllocHeader) : Prop :=
  magic h = OO_RAW_ALLOC_MAGIC /\ 0 < capacity h <= OO_ALLOC_BYTES_MAX /\ total_size h = total_sz (capacity h) /\
  HEADER < user_ptr h /\ block_end h < 2 ^ 63.
Definition apart (a1 b1 a2 b2 : Z) : Prop := b1 <= a2 \/ b2 <= a1.
Definition chain (l : list OoRawAllocHeader) : Z := foldr (fun h n => total_size h + n) 0 l.
Definition charges (s : rstate) : Z := foldr (fun l n => chain l + n) 0 (g_alloc_table s).
Record Rep (s : rstate) (m : gmap Z (list Z)) : Prop := {
  r_len : length (g_alloc_table s) = OO_ALLOC_BUCKETS;
  r_bucket : forall b h, h ∈ bucket b s -> b = bucket_of (user_ptr h);
  r_once : forall b, NoDup (map user_ptr (bucket b s));
  r_wf : forall h, in_table h s -> wf_header h;
  r_apart : forall h k, in_table h s -> in_table k s -> user_ptr h <> user_ptr k ->
            apart (user_ptr h - HEADER) (block_end h) (user_ptr k - HEADER) (block_end k);
  r_mapped : forall h, in_table h s -> forall x, user_ptr h <= x < block_end h -> is_Some (bytes_ s !! x);
  r_map : forall p l, m !! p = Some l <-> exists h, in_table h s /\ user_ptr h = p /\ at_bytes p (Z.to_nat (capacity h)) (bytes_ s) = Some l;
  r_charged : charges s <= ambient_bytes (rquota s) <= LLONG_MAX;
  r_quota : 0 <= ambient_quota (rquota s) <= LLONG_MAX }.

Lemma bucket_of_range x : (bucket_of x < OO_ALLOC_BUCKETS)%nat.
Proof. unfold bucket_of. pose proof (Z.mod_pos_bound (Z.shiftr (u64 x) 4) (Z.of_nat OO_ALLOC_BUCKETS)). unfold OO_ALLOC_BUCKETS in *. lia. Qed.
Lemma bucket_put b l s c : length (g_alloc_table s) = OO_ALLOC_BUCKETS -> (b < OO_ALLOC_BUCKETS)%nat ->
  bucket c (put_bucket b l s) = if decide (c = b) then l else bucket c s.
Proof.
  intros L Hb. unfold bucket, put_bucket. cbn. rewrite !nth_lookup. case_decide as D; [subst; by rewrite list_lookup_insert_eq by lia|by rewrite list_lookup_insert_ne].
Qed.
Lemma total_sz_bounds c : 0 < c <= OO_ALLOC_BYTES_MAX -> HEADER + c <= total_sz c < HEADER + c + 16 /\ total_sz c mod 16 = 0.
Proof.
  unfold total_sz, OO_ALLOC_BYTES_MAX, HEADER. change (Z.shiftl 1 30) with 1073741824. intros H. rewrite u64_id by lia.
  destruct (Z.eqb_spec ((48 + c) mod 16) 0); cbn [negb]; lia.
Qed.

Lemma find_header_Some t l h : find_header t l = Some h -> h ∈ l /\ user_ptr h = t.
Proof.
  induction l as [|x l IH]; cbn; [done|]. destruct (Z.eqb_spec (user_ptr x) t) as [E|N]; [intros [= ->]; split; [by left|done]|].
  intros H. destruct (IH H). split; [by right|done].
Qed.
Lemma find_header_None t l : find_header t l = None -> forall h, h ∈ l -> user_ptr h <> t.
Proof.
  induction l as [|x l IH]; cbn; [by intros _ h Hh%not_elem_of_nil|]. destruct (Z.eqb_spec (user_ptr x) t) as [E|N]; [done|].
  intros H h [->|Hh]%elem_of_cons; [done|by apply IH].
Qed.
Lemma unlink_spec t l : match unlink t l with
  | Some (h, k) => user_ptr h = t /\ exists l1 l2, l = l1 ++ h :: l2 /\ k = l1 ++ l2
  | None => forall h, h ∈ l -> user_ptr h <> t end.
Proof.
  induction l as [|x l IH]; cbn; [by intros h Hh%not_elem_of_nil|]. destruct (Z.eqb_spec (user_ptr x) t) as [E|N].
  - split; [done|]. by exists [], l.
  - destruct (unlink t l) as [[h k]|].
    + destruct IH as (E & l1 & l2 & -> & ->). split; [done|]. by exists (x :: l1), l2.
    + intros h [->|Hh]%elem_of_cons; [done|by apply IH].
Qed.

(** What the abstract heap says of a pointer, and the header behind it. *)
Lemma rep_lookup s m p : Rep s m ->
  match alloc_find_locked p s with
  | Some h => in_table h s /\ user_ptr h = p /\ exists l, m !! p = Some l /\ at_bytes p (Z.to_nat (capacity h)) (bytes_ s) = Some l /\ Z.of_nat (length l) = capacity h
  | None => m !! p = None
  end.
Proof.
  intros R. unfold alloc_find_locked. destruct (find_header p _) as [h|] eqn:E.
  - apply find_header_Some in E as [Hin Hp]. assert (Hh : in_table h s) by (unfold in_table; by rewrite Hp). split; [done|]. split; [done|].
    destruct (r_wf _ _ R h Hh) as (_ & Hc & Ht & _). pose proof (total_sz_bounds _ Hc) as T.
    destruct (at_bytes_total p (Z.to_nat (capacity h)) (bytes_ s)) as [l Hl].
    { intros x Hx. apply (r_mapped _ _ R h Hh). unfold block_end. lia. }
    exists l. split; [apply (r_map _ _ R); eauto|]. split; [done|]. apply at_bytes_Some in Hl as [L _]. lia.
  - destruct (m !! p) as [l|] eqn:Hm; [|done]. apply (r_map _ _ R) in Hm as (h & Hh & Hp & _). unfold in_table in Hh. rewrite Hp in Hh.
    by destruct (find_header_None _ _ E h Hh).
Qed.

(** ** Charges *)

Lemma chain_app l k : chain (l ++ k) = chain l + chain k.
Proof. induction l as [|h l IH]; cbn in *; [done|]. unfold chain in *. cbn. lia. Qed.
Lemma charges_split (t : list (list OoRawAllocHeader)) b l : t !! b = Some l ->
  exists r, foldr (fun l n => chain l + n) 0 t = chain l + r /\ forall k, foldr (fun l n => chain l + n) 0 (<[b := k]> t) = chain k + r.
Proof.
  revert b. induction t as [|x t IH]; intros [|b] H; try done; cbn in H.
  - injection H as ->. eexists. split; [done|]. done.
  - destruct (IH b H) as (r & E1 & E2). exists (chain x + r). cbn. rewrite E1. split; [lia|]. intros k. rewrite E2. lia.
Qed.
Lemma charges_put s b l : length (g_alloc_table s) = OO_ALLOC_BUCKETS -> (b < OO_ALLOC_BUCKETS)%nat ->
  charges (put_bucket b l s) = charges s + chain l - chain (bucket b s).
Proof.
  intros L Hb. destruct (lookup_lt_is_Some_2 (g_alloc_table s) b ltac:(lia)) as [k Hk]. destruct (charges_split _ _ _ Hk) as (r & E1 & E2).
  unfold charges, put_bucket, bucket. cbn [g_alloc_table with_table]. rewrite E1, E2. rewrite nth_lookup, Hk. change (default [] (Some k)) with k. lia.
Qed.
Lemma charges_nonneg s : (forall b h, h ∈ bucket b s -> 0 <= total_size h) -> 0 <= charges s.
Proof.
  intros H. unfold charges. assert (A : forall l, l ∈ g_alloc_table s -> 0 <= chain l).
  { intros l [b Hb]%list_elem_of_lookup. assert (B : forall h, h ∈ l -> 0 <= total_size h) by (intros h Hh; apply (H b); unfold bucket; by rewrite nth_lookup, Hb).
    clear -B. induction l as [|h l IH]; [done|]. change (chain (h :: l)) with (total_size h + chain l). pose proof (B h ltac:(by left)).
    enough (0 <= chain l) by lia. apply IH. intros x Hx. apply B. by right. }
  clear H. induction (g_alloc_table s) as [|l t IH]; [done|]. cbn [foldr]. pose proof (A l ltac:(by left)).
  enough (0 <= foldr (fun l n => chain l + n) 0 t) by lia. apply IH. intros x Hx. apply A. by right.
Qed.

(** ** The pieces of an operation *)

Lemma rep_quota s m c q r : Rep s m -> charges s <= ambient_bytes q <= LLONG_MAX -> 0 <= ambient_quota q <= LLONG_MAX ->
  Rep (mkR c q r (g_alloc_table s) (bytes_ s)) m.
Proof. intros [] Hc Hq. by split. Qed.
Lemma rep_quota_id s m q : Rep s m -> charges s <= ambient_bytes q <= LLONG_MAX -> 0 <= ambient_quota q <= LLONG_MAX -> Rep (with_rquota q s) m.
Proof. intros. by apply rep_quota. Qed.

Lemma in_bucket s m b h : Rep s m -> h ∈ bucket b s -> in_table h s.
Proof. intros R Hh. unfold in_table. by rewrite <- (r_bucket _ _ R b h Hh). Qed.
Lemma total_nonneg s m : Rep s m -> forall b h, h ∈ bucket b s -> 0 <= total_size h.
Proof.
  intros R b h Hh. destruct (r_wf _ _ R h (in_bucket _ _ _ _ R Hh)) as (_ & Hc & -> & _). pose proof (total_sz_bounds _ Hc). unfold HEADER in *. lia.
Qed.
Lemma same_pointer s m h k : Rep s m -> in_table h s -> in_table k s -> user_ptr h = user_ptr k -> h = k.
Proof.
  intros R Hh Hk E. unfold in_table in *. rewrite <- E in Hk. pose proof (r_once _ _ R (bucket_of (user_ptr h))) as N.
  apply list_elem_of_lookup in Hh as [i Hi], Hk as [j Hj]. assert (i = j); [|congruence].
  eapply (NoDup_lookup _ i j (user_ptr h) N); rewrite list_lookup_fmap; [by rewrite Hi|rewrite Hj; cbn; by rewrite E].
Qed.
(** The bytes of a block do not meet another block. *)
Lemma apart_bytes s m h k a n : Rep s m -> in_table h s -> in_table k s -> user_ptr h <> user_ptr k ->
  user_ptr h - HEADER <= a -> a + n <= block_end h -> 0 < n ->
  forall x, user_ptr k <= x < block_end k -> ~ (a <= x < a + n).
Proof. intros R Hh Hk N Ha Hn Hp x Hx. destruct (r_apart _ _ R h k Hh Hk N); unfold HEADER in *; lia. Qed.
Lemma end_capacity h : wf_header h -> user_ptr h + capacity h <= block_end h.
Proof. intros (_ & Hc & Ht & _). pose proof (total_sz_bounds _ Hc). unfold block_end, HEADER in *. lia. Qed.

Lemma contents_same g m m' : wf_header g -> (forall x, user_ptr g <= x < block_end g -> m' !! x = m !! x) ->
  at_bytes (user_ptr g) (Z.to_nat (capacity g)) m' = at_bytes (user_ptr g) (Z.to_nat (capacity g)) m.
Proof. intros W H. apply at_bytes_ext. intros x Hx. apply H. pose proof (end_capacity g W). destruct W as (_ & Hc & _). lia. Qed.
Lemma lookup_zeros n i : (i < n)%nat -> zeros n !! i = Some 0.
Proof. unfold zeros. revert i. induction n as [|n IH]; intros [|i] H; try lia; cbn; [done|]. apply IH. lia. Qed.

Section ops.
Context {En : Entropy} (env : option Z) (env_fits : forall v, env = Some v -> v <= LLONG_MAX).

Definition gate_open (cap : Z) (s : rstate) : Prop := alloc_tok (rcaps s) = Some cap /\ cap <> 0.
Lemma raw_gate_run cap s : gate_open cap s -> on_rcaps (oo_cap_require_alloc cap) s = Ret (tt, s).
Proof.
  intros [Ht Hn]. unfold on_rcaps, lift, oo_cap_require_alloc, oo_alloc_init, bind. rewrite Ht. cbn [run_bind].
  apply Z.eqb_neq in Hn. rewrite Hn, Z.eqb_refl. cbn. by destruct s.
Qed.
Lemma rep_init s m : Rep s m -> Rep (oo_list_quota_init_public env s) m.
Proof.
  intros R. unfold oo_list_quota_init_public, oo_list_quota_init_once. destruct (quota_ready s); [done|].
  pose proof (r_charged _ _ R). pose proof (r_quota _ _ R). pose proof env_fits as F. destruct env as [v|] eqn:Ev; [destruct (Z.ltb_spec 0 v); [specialize (F v eq_refl)|]|]; apply rep_quota; cbn; try done; try lia. apply rep_quota_id; cbn; try done; lia.
Qed.

(** ** Reading and writing *)

(** What a checked access may do, by the abstract heap. *)
Definition access (m : gmap Z (list Z)) (ptr offset : Z) : option (list Z) :=
  match m !! u64 ptr with
  | Some l => if (0 <=? offset) && (offset + 8 <=? Z.of_nat (length l)) then Some l else None
  | None => None
  end.
Lemma rep_null s m : Rep s m -> m !! 0 = None.
Proof.
  intros R. destruct (m !! 0) as [l|] eqn:E; [|done]. apply (r_map _ _ R) in E as (h & Hh & Hp & _).
  destruct (r_wf _ _ R h Hh) as (_ & _ & _ & P & _). unfold HEADER in P. lia.
Qed.
Lemma checked_spec cap ptr offset k s m : Rep s m -> gate_open cap s -> - 2 ^ 63 <= ptr < 2 ^ 63 -> 
  checked cap ptr offset k s = match access m ptr offset with Some _ => k (u64 ptr + offset) s | None => Exited 1 end.
Proof.
  intros R G Hp. unfold checked, access. unfold bind at 1. rewrite raw_gate_run by done. cbn [run_bind].
  destruct (Z.eqb_spec ptr 0) as [->|N]; [change (u64 0) with 0; by rewrite (rep_null s m R)|].
  pose proof (rep_lookup s m (u64 ptr) R) as L.
  destruct (Z.ltb_spec offset 0).
  { destruct (m !! u64 ptr); [|done]. destruct (Z.leb_spec 0 offset); [lia|]. done. }
  unfold bind, get_state. cbn [run_bind]. destruct (alloc_find_locked (u64 ptr) s) as [h|]; [|by rewrite L].
  destruct L as (Hh & Hu & l & -> & _ & Len). destruct (r_wf _ _ R h Hh) as (-> & Hc & _). rewrite Z.eqb_refl. cbn [negb].
  unfold OO_ALLOC_BYTES_MAX in Hc. change (Z.shiftl 1 30) with 1073741824 in Hc.
  rewrite i64_id by lia. destruct (Z.ltb_spec (capacity h - 8) offset), (Z.leb_spec 0 offset), (Z.leb_spec (offset + 8) (Z.of_nat (length l))); try lia; done.
Qed.
Lemma read_spec cap ptr offset s m : Rep s m -> gate_open cap s -> - 2 ^ 63 <= ptr < 2 ^ 63 ->
  oo_read_int cap ptr offset s =
  match access m ptr offset with Some l => Ret (i64 (le_join (slice (Z.to_nat offset) 8 l)), s) | None => Exited 1 end.
Proof.
  intros R G Hp. unfold oo_read_int. rewrite (checked_spec _ _ _ _ s m R G Hp). unfold access.
  pose proof (rep_lookup s m (u64 ptr) R) as L. destruct (m !! u64 ptr) as [l|]; [|done].
  destruct (Z.leb_spec 0 offset), (Z.leb_spec (offset + 8) (Z.of_nat (length l))); cbn [andb]; try done.
  destruct (alloc_find_locked (u64 ptr) s) as [h|]; [|done]. destruct L as (_ & _ & l' & [= <-] & Hl & Len).
  rewrite <- (Z2Nat.id offset) at 1 by done. by erewrite at_bytes_slice by (eauto; lia).
Qed.

Lemma rep_bytes s m h l off k : Rep s m -> in_table h s -> at_bytes (user_ptr h) (Z.to_nat (capacity h)) (bytes_ s) = Some l ->
  (off + length k <= length l)%nat -> k <> [] ->
  Rep (with_bytes (fill (user_ptr h + Z.of_nat off) k (bytes_ s)) s) (<[user_ptr h := take off l ++ k ++ drop (off + length k) l]> m).
Proof.
  intros R Hh Hl Ho Hk. assert (Len : length l = Z.to_nat (capacity h)) by (by apply at_bytes_Some in Hl as [? _]).
  pose proof (end_capacity h (r_wf _ _ R h Hh)) as Hend. assert (0 < length k)%nat by (destruct k; cbn; [done|lia]).
  set (s' := with_bytes _ s). destruct (r_wf _ _ R h Hh) as (_ & Hc & _).
  assert (Other : forall g, in_table g s -> g <> h -> forall x, user_ptr g <= x < block_end g -> bytes_ s' !! x = bytes_ s !! x).
  { intros g Hg N x Hx. unfold s'. cbn [bytes_ with_bytes]. rewrite lookup_fill.
    assert (user_ptr h <> user_ptr g) as Np by (intros E; apply N; symmetry; eapply same_pointer; eauto).
    pose proof (apart_bytes s m h g (user_ptr h + Z.of_nat off) (Z.of_nat (length k)) R Hh Hg Np ltac:(unfold HEADER; lia) ltac:(lia) ltac:(lia) x Hx).
    destruct (Z.leb_spec (user_ptr h + Z.of_nat off) x), (Z.ltb_spec x (user_ptr h + Z.of_nat off + Z.of_nat (length k))); cbn [andb]; try done; lia. }
  split; try (apply R).
  - intros g Hg x Hx. unfold s'. cbn [bytes_ with_bytes]. rewrite lookup_fill. destruct (_ && _) eqn:B; [|by apply (r_mapped _ _ R g Hg)].
    apply lookup_lt_is_Some_2. lia.
  - intros p lp. rewrite lookup_insert. destruct (decide (user_ptr h = p)) as [<-|N].
    + assert (at_bytes (user_ptr h) (Z.to_nat (capacity h)) (bytes_ s') = Some (take off l ++ k ++ drop (off + length k) l)) as E
        by (apply at_bytes_fill; [done|lia]).
      split.
      * intros [= <-]. exists h. done.
      * intros (g & Hg & Hp & Hgl). assert (g = h) as -> by (by eapply same_pointer). congruence.
    + assert (Same : forall g, in_table g s -> user_ptr g = p -> at_bytes p (Z.to_nat (capacity g)) (bytes_ s') = at_bytes p (Z.to_nat (capacity g)) (bytes_ s)).
      { intros g Hg <-. apply contents_same; [by apply (r_wf _ _ R)|]. apply Other; [done|by intros ->]. }
      rewrite (r_map _ _ R p lp). split; intros (g & Hg & Hp & Hgl); exists g; (split; [done|]); (split; [done|]); [by rewrite Same|by rewrite <- (Same g Hg Hp)].
Qed.
Lemma write_spec cap ptr offset v s m : Rep s m -> gate_open cap s -> - 2 ^ 63 <= ptr < 2 ^ 63 ->
  match access m ptr offset with
  | Some l => exists s', oo_write_int cap ptr offset v s = Ret (0, s') /\
      Rep s' (<[u64 ptr := take (Z.to_nat offset) l ++ le_bytes 8 v ++ drop (Z.to_nat offset + 8) l]> m) /\ rquota s' = rquota s
  | None => oo_write_int cap ptr offset v s = Exited 1
  end.
Proof.
  intros R G Hp. unfold oo_write_int. rewrite (checked_spec _ _ _ _ s m R G Hp). unfold access.
  pose proof (rep_lookup s m (u64 ptr) R) as L. destruct (m !! u64 ptr) as [l|]; [|done].
  destruct (Z.leb_spec 0 offset), (Z.leb_spec (offset + 8) (Z.of_nat (length l))); cbn [andb]; try done.
  destruct (alloc_find_locked (u64 ptr) s) as [h|]; [|done]. destruct L as (Hh & Hu & l' & [= <-] & Hl & Len). rewrite <- Hu in *.
  cbn beta. replace (user_ptr h + offset) with (user_ptr h + Z.of_nat (Z.to_nat offset)) by lia. erewrite at_bytes_slice by (eauto; lia).
  eexists. split; [reflexivity|]. split; [|done].
  pose proof (rep_bytes s m h l (Z.to_nat offset) (le_bytes 8 v) R Hh Hl) as P. rewrite length_le_bytes in P.
  apply P; [lia|done].
Qed.

(** ** Allocating and freeing *)

(** [posix_memalign] returns memory that is nobody else's. *)
Definition fresh (raw t : Z) (s : rstate) : Prop :=
  0 < raw /\ raw + t < 2 ^ 63 /\ forall h, in_table h s -> apart raw (raw + t) (user_ptr h - HEADER) (block_end h).

Lemma in_table_put s b l g : length (g_alloc_table s) = OO_ALLOC_BUCKETS -> (b < OO_ALLOC_BUCKETS)%nat ->
  in_table g (put_bucket b l s) <-> if decide (bucket_of (user_ptr g) = b) then g ∈ l else in_table g s.
Proof. intros L Hb. unfold in_table. rewrite bucket_put by done. by case_decide. Qed.
Lemma rep_new s m raw size : Rep s m -> 0 < size <= OO_ALLOC_BYTES_MAX -> fresh raw (total_sz size) s ->
  charges s + total_sz size <= ambient_bytes (rquota s) ->
  let p := raw + HEADER in let b := bucket_of p in
  let s1 := with_bytes (fill p (zeros (Z.to_nat (total_sz size - HEADER))) (bytes_ s)) s in
  m !! p = None /\ Rep (put_bucket b (mkRaw (total_sz size) size OO_RAW_ALLOC_MAGIC p :: bucket b s1) s1) (<[p := zeros (Z.to_nat size)]> m).
Proof.
  intros R Hsz (Hr & Ht & Hf) Hq p b s1. pose proof (total_sz_bounds size Hsz) as T. set (h := mkRaw _ _ _ _).
  assert (Hb : (b < OO_ALLOC_BUCKETS)%nat) by apply bucket_of_range.
  assert (L : length (g_alloc_table s1) = OO_ALLOC_BUCKETS) by apply R. set (s' := put_bucket _ _ _).
  assert (In' : forall g, in_table g s' <-> g = h \/ in_table g s).
  { intros g. unfold s'. rewrite in_table_put by done. change (in_table g s1) with (in_table g s). case_decide as D; [|split; [by right|intros [->|?]; done]].
    rewrite elem_of_cons. unfold in_table. change (bucket b s1) with (bucket b s). by rewrite D. }
  assert (New : forall g, in_table g s -> user_ptr g <> p).
  { intros g Hg E. destruct (r_wf _ _ R g Hg) as (_ & Hc & Htt & _). pose proof (total_sz_bounds _ Hc). destruct (Hf g Hg); unfold block_end, p, HEADER in *; lia. }
  assert (Old : forall g, in_table g s -> forall x, user_ptr g <= x < block_end g -> bytes_ s' !! x = bytes_ s !! x).
  { intros g Hg x Hx. change (bytes_ s') with (fill p (zeros (Z.to_nat (total_sz size - HEADER))) (bytes_ s)). rewrite lookup_fill, length_zeros.
    destruct (Z.leb_spec p x), (Z.ltb_spec x (p + Z.of_nat (Z.to_nat (total_sz size - HEADER)))); cbn [andb]; try done.
    destruct (Hf g Hg); unfold p, HEADER in *; lia. }
  assert (Wf : wf_header h) by (unfold wf_header, block_end, h; cbn; unfold p, HEADER in *; repeat split; try lia).
  assert (Hnone : m !! p = None).
  { destruct (m !! p) as [l|] eqn:E; [|done]. apply (r_map _ _ R) in E as (g & Hg & Hp & _). by destruct (New g Hg). }
  split; [done|]. split.
  - unfold s', put_bucket. cbn. by rewrite length_insert.
  - intros c g Hg. unfold s' in Hg. rewrite bucket_put in Hg by done. change (bucket c s1) with (bucket c s) in Hg. case_decide as D; [|by apply (r_bucket _ _ R)].
    apply elem_of_cons in Hg as [->|Hg]; [done|]. rewrite D. by apply (r_bucket _ _ R).
  - intros c. unfold s'. rewrite bucket_put by done. change (bucket c s1) with (bucket c s). case_decide as D; [|apply (r_once _ _ R)].
    cbn [map]. constructor; [|apply (r_once _ _ R)]. intros (g & E & Hg)%list_elem_of_fmap.
    apply (New g); [by eapply in_bucket|done].
  - intros g [->|Hg]%In'; [done|]. by apply (r_wf _ _ R).
  - intros g k [->|Hg]%In' [->|Hk]%In' N; [done| | |by apply (r_apart _ _ R)].
    + destruct (Hf k Hk); unfold apart, block_end, h in *; cbn in *; unfold p, HEADER in *; lia.
    + destruct (Hf g Hg); unfold apart, block_end, h in *; cbn in *; unfold p, HEADER in *; lia.
  - intros g [->|Hg]%In' x Hx; [|rewrite (Old g Hg x Hx); by apply (r_mapped _ _ R g)].
    change (bytes_ s') with (fill p (zeros (Z.to_nat (total_sz size - HEADER))) (bytes_ s)). rewrite lookup_fill, length_zeros.
    unfold block_end, h in Hx. cbn in Hx. destruct (Z.leb_spec p x), (Z.ltb_spec x (p + Z.of_nat (Z.to_nat (total_sz size - HEADER)))); cbn [andb]; try (unfold p, HEADER in *; lia).
    apply lookup_lt_is_Some_2. rewrite length_zeros. unfold HEADER in *. lia.
  - intros q l. rewrite lookup_insert. destruct (decide (p = q)) as [<-|N].
    + assert (E : at_bytes p (Z.to_nat size) (bytes_ s') = Some (zeros (Z.to_nat size))).
      { apply at_bytes_Some. split; [apply length_zeros|]. intros i Hi. change (bytes_ s') with (fill p (zeros (Z.to_nat (total_sz size - HEADER))) (bytes_ s)).
        rewrite lookup_fill, length_zeros.
        destruct (Z.leb_spec p (p + Z.of_nat i)), (Z.ltb_spec (p + Z.of_nat i) (p + Z.of_nat (Z.to_nat (total_sz size - HEADER)))); cbn [andb]; try (unfold HEADER in *; lia).
        replace (Z.to_nat (p + Z.of_nat i - p)) with i by lia. rewrite !lookup_zeros; [done|..]; unfold HEADER in *; lia. }
      split; [intros [= <-]; exists h; split; [apply In'; by left|done]|]. intros (g & [->|Hg]%In' & Hp & Hl); [change (capacity h) with size in Hl; by rewrite E in Hl|].
      by destruct (New g Hg).
    + rewrite (r_map _ _ R q l). assert (Same : forall g, in_table g s -> user_ptr g = q -> at_bytes q (Z.to_nat (capacity g)) (bytes_ s') = at_bytes q (Z.to_nat (capacity g)) (bytes_ s)).
      { intros g Hg <-. apply contents_same; [by apply (r_wf _ _ R)|by apply Old]. }
      split; intros (g & Hg & Hp & Hl); [|apply In' in Hg as [->|Hg]; [done|]]; exists g; rewrite ?In'; (split; [auto|]); (split; [done|]); [by rewrite Same|by rewrite <- (Same g Hg Hp)].
  - pose proof (r_charged _ _ R). unfold s'. rewrite charges_put by done. change (charges s1) with (charges s). change (bucket b s1) with (bucket b s).
    change (chain (h :: bucket b s)) with (total_sz size + chain (bucket b s)). change (rquota _) with (rquota s). lia.
  - apply (r_quota _ _ R).
Qed.

Lemma rep_drop s m h l1 l2 : Rep s m -> let b := bucket_of (user_ptr h) in
  bucket b s = l1 ++ h :: l2 -> let s1 := put_bucket b (l1 ++ l2) s in let s' := with_bytes (clear (user_ptr h - HEADER) (total_size h) (bytes_ s)) s1 in
  charges s' = charges s - total_size h /\ Rep s' (delete (user_ptr h) m).
Proof.
  intros R b Hb s1 s'. assert (Bb : (b < OO_ALLOC_BUCKETS)%nat) by apply bucket_of_range. pose proof (r_len _ _ R) as L.
  assert (Hh : in_table h s) by (unfold in_table; fold b; rewrite Hb; apply elem_of_app; right; by left).
  pose proof (r_once _ _ R b) as N. rewrite Hb, map_app in N. cbn [map] in N. apply NoDup_app in N as (N1 & N2 & N3). apply NoDup_cons in N3 as [N3 N4].
  assert (In' : forall g, in_table g s' <-> in_table g s /\ user_ptr g <> user_ptr h).
  { intros g. change (in_table g s') with (in_table g s1). unfold s1. rewrite in_table_put by done. unfold in_table. case_decide as D.
    - rewrite D, Hb, !elem_of_app, elem_of_cons. split.
      + intros Hg. split; [tauto|]. intros E. destruct Hg as [Hg|Hg].
        * apply (N2 (user_ptr g)); [by apply list_elem_of_fmap_2|rewrite E; by left].
        * apply N3. rewrite <- E. by apply list_elem_of_fmap_2.
      + intros [[Hg|[->|Hg]] E]; [by left|done|by right].
    - split; [intros Hg; split; [done|]|by intros [Hg _]]. intros E. apply D. by rewrite E. }
  assert (Old : forall g, in_table g s' -> forall x, user_ptr g <= x < block_end g -> bytes_ s' !! x = bytes_ s !! x).
  { intros g [Hg Np]%In' x Hx. change (bytes_ s') with (clear (user_ptr h - HEADER) (total_size h) (bytes_ s)). rewrite lookup_clear.
    pose proof (r_apart _ _ R h g Hh Hg ltac:(done)) as A. unfold apart, block_end, HEADER in *.
    destruct (Z.leb_spec (user_ptr h - 48) x), (Z.ltb_spec x (user_ptr h - 48 + total_size h)); cbn [andb]; try done; lia. }
  assert (C : charges s' = charges s - total_size h).
  { change (charges s') with (charges s1). unfold s1. rewrite charges_put by done. rewrite Hb, !chain_app. unfold chain. cbn. lia. }
  split; [done|]. split.
  - unfold s', s1, put_bucket. cbn. by rewrite length_insert.
  - intros c g Hg. change (bucket c s') with (bucket c s1) in Hg. unfold s1 in Hg. rewrite bucket_put in Hg by done. case_decide as D; [|by apply (r_bucket _ _ R)].
    apply (r_bucket _ _ R). rewrite D, Hb. apply elem_of_app in Hg as [Hg|Hg]; apply elem_of_app; [by left|right; by right].
  - intros c. change (bucket c s') with (bucket c s1). unfold s1. rewrite bucket_put by done. case_decide as D; [|apply (r_once _ _ R)].
    rewrite map_app. apply NoDup_app. split; [done|]. split; [|done]. intros x Hx Hx2. apply (N2 x Hx). by right.
  - intros g [Hg _]%In'. by apply (r_wf _ _ R).
  - intros g k [Hg _]%In' [Hk _]%In'. by apply (r_apart _ _ R).
  - intros g Hg x Hx. rewrite (Old g Hg x Hx). apply In' in Hg as [Hg _]. by apply (r_mapped _ _ R g).
  - intros q l. assert (Same : forall g, in_table g s' -> user_ptr g = q -> at_bytes q (Z.to_nat (capacity g)) (bytes_ s') = at_bytes q (Z.to_nat (capacity g)) (bytes_ s)).
    { intros g Hg <-. apply contents_same; [|by apply Old]. apply In' in Hg as [Hg _]. by apply (r_wf _ _ R). }
    rewrite lookup_delete. case_decide as D.
    + split; [done|]. intros (g & [_ Ng]%In' & Hp & _). congruence.
    + rewrite (r_map _ _ R q l). split; intros (g & Hg & Hp & Hl); exists g.
      * assert (in_table g s') as Hg' by (apply In'; split; [done|congruence]). split; [done|]. split; [done|]. by rewrite (Same g Hg' Hp).
      * rewrite <- (Same g Hg Hp). by apply In' in Hg as [Hg _].
  - rewrite C. destruct (r_wf _ _ R h Hh) as (_ & Hc & Ht & _). pose proof (total_sz_bounds _ Hc). pose proof (r_charged _ _ R). unfold HEADER in *.
    change (rquota s') with (rquota s). lia.
  - apply (r_quota _ _ R).
Qed.

Definition used (s : rstate) : Z := ambient_bytes (rquota s).
Definition limit (s : rstate) : Z := ambient_quota (rquota s).
Lemma free_spec cap ptr s m : Rep s m -> gate_open cap s -> - 2 ^ 63 <= ptr < 2 ^ 63 ->
  exists s', oo_free cap ptr s = Ret (tt, s') /\ Rep s' (delete (u64 ptr) m) /\
    used s' = used s - match m !! u64 ptr with Some l => total_sz (Z.of_nat (length l)) | None => 0 end.
Proof.
  intros R G Hp. unfold oo_free. unfold bind at 1. rewrite raw_gate_run by done. cbn [run_bind]. pose proof (rep_lookup s m (u64 ptr) R) as LK.
  destruct (Z.eqb_spec ptr 0) as [->|N].
  { exists s. split; [done|]. change (u64 0) with 0. rewrite (rep_null s m R). rewrite delete_id by (by apply (rep_null s)). split; [done|lia]. }
  unfold bind at 1, get_state. cbn [run_bind]. pose proof (unlink_spec (u64 ptr) (bucket (bucket_of (u64 ptr)) s)) as U.
  unfold alloc_find_locked in LK. destruct (unlink _ _) as [[h k]|].
  - destruct U as (Hu & l1 & l2 & Hb & ->). rewrite <- Hu in *.
    destruct (find_header _ _) as [h'|] eqn:F; [|destruct (find_header_None _ _ F h); [rewrite Hb; apply elem_of_app; right; by left|done]].
    destruct LK as (Hh' & Hu' & l & Hl & _ & Len).
    assert (Hh : in_table h s) by (unfold in_table; rewrite Hb; apply elem_of_app; right; by left).
    assert (h' = h) as -> by (by eapply same_pointer). rewrite Hl, Len.
    destruct (rep_drop s m h l1 l2 R Hb) as [C R']. pose proof (r_charged _ _ R). pose proof (r_charged _ _ R'). pose proof (r_quota _ _ R).
    pose proof (charges_nonneg _ (total_nonneg _ _ R')) as Cn. cbv zeta in *. rewrite C in Cn. destruct (r_wf _ _ R h Hh) as (_ & Hc & Ht & _). pose proof (total_sz_bounds _ Hc).
    unfold bind, set_state. cbn [run_bind]. eexists. split; [reflexivity|]. cbn [rquota put_bucket with_table ambient_bytes].
    unfold OO_ALLOC_BYTES_MAX in *. change (Z.shiftl 1 30) with 1073741824 in *. unfold LLONG_MAX, HEADER in *.
    rewrite i64_id by lia. destruct (Z.ltb_spec (ambient_bytes (rquota s) - total_size h) 0); [exfalso; lia|]. split; [|unfold used; rewrite <- Ht; done].
    eapply (rep_quota_id _ _ (mkQuota (ambient_bytes (rquota s) - total_size h) (ambient_quota (rquota s))) R'); cbn [ambient_bytes ambient_quota]; unfold LLONG_MAX; rewrite ?C; lia.
  - exists s. split; [done|]. destruct (find_header _ _) as [h|] eqn:F; [apply find_header_Some in F as [F1 F2]; by destruct (U h F1)|].
    rewrite LK. rewrite delete_id by done. split; [done|lia].
Qed.

Lemma init_same s m : Rep s m -> let s0 := oo_list_quota_init_public env s in
  used s0 = used s /\ g_alloc_table s0 = g_alloc_table s /\ bytes_ s0 = bytes_ s /\ rcaps s0 = rcaps s.
Proof.
  intros R. unfold oo_list_quota_init_public, oo_list_quota_init_once. destruct (quota_ready s); [done|]. by destruct env as [v|]; [destruct (0 <? v)|].
Qed.
Lemma alloc_refused cap size memalign s : gate_open cap s -> size <= 0 \/ OO_ALLOC_BYTES_MAX < size -> oo_alloc env memalign cap size s = Ret (0, s).
Proof.
  intros G H. unfold oo_alloc, bind at 1. rewrite raw_gate_run by done. cbn [run_bind].
  destruct (Z.leb_spec size 0), (Z.ltb_spec OO_ALLOC_BYTES_MAX size); try lia; done.
Qed.
Lemma alloc_spec cap size memalign s m : Rep s m -> gate_open cap s -> 0 < size <= OO_ALLOC_BYTES_MAX ->
  let s0 := oo_list_quota_init_public env s in let t := total_sz size in
  if limit s0 - t <? used s then oo_alloc env memalign cap size s = Exited 1
  else match memalign with
  | None => exists s', oo_alloc env memalign cap size s = Ret (0, s') /\ Rep s' m /\ used s' = used s
  | Some raw => fresh raw t s -> m !! (raw + HEADER) = None /\ exists s', oo_alloc env memalign cap size s = Ret (raw + HEADER, s') /\
      Rep s' (<[raw + HEADER := zeros (Z.to_nat size)]> m) /\ used s' = used s + t /\ used s' <= limit s'
  end.
Proof.
  intros R G Hs s0 t. pose proof (total_sz_bounds size Hs) as T. fold t in T. pose proof (rep_init s m R) as R0. fold s0 in R0.
  destruct (init_same s m R) as (Eu & Et & Eb & Ec). fold s0 in Eu, Et, Eb, Ec.
  pose proof (r_charged _ _ R0) as Ch. pose proof (r_quota _ _ R0) as Qt. pose proof (charges_nonneg _ (total_nonneg _ _ R0)) as Cn. unfold used, limit in *.
  unfold OO_ALLOC_BYTES_MAX in Hs. change (Z.shiftl 1 30) with 1073741824 in Hs. unfold LLONG_MAX, HEADER in *.
  assert (Run : oo_alloc env memalign cap size s = 
    (if ambient_quota (rquota s0) - t <? ambient_bytes (rquota s) then Exited 1
     else match memalign with
     | None => Ret (0, with_bytes_used (ambient_bytes (rquota s)) s0)
     | Some raw => let s1 := with_bytes (fill (raw + HEADER) (zeros (Z.to_nat (t - HEADER))) (bytes_ s0)) (with_bytes_used (ambient_bytes (rquota s) + t) s0) in
         Ret (i64 (raw + HEADER), put_bucket (bucket_of (raw + HEADER)) (mkRaw t size OO_RAW_ALLOC_MAGIC (raw + HEADER) :: bucket (bucket_of (raw + HEADER)) s1) s1)
     end)).
  { unfold oo_alloc, bind at 1. rewrite raw_gate_run by done. cbn [run_bind].
    destruct (Z.leb_spec size 0), (Z.ltb_spec OO_ALLOC_BYTES_MAX size) as [X|X]; try lia; [unfold OO_ALLOC_BYTES_MAX in X; change (Z.shiftl 1 30) with 1073741824 in X; lia|]. cbn [orb].
    unfold bind, set_state, get_state. cbn [run_bind]. fold s0 t. rewrite i64_id by lia. rewrite Eu.
    destruct (Z.ltb_spec (ambient_quota (rquota s0) - t) (ambient_bytes (rquota s))); [done|].
    destruct memalign as [raw|]; unfold ret; cbn [run_bind rquota with_bytes_used with_rquota ambient_bytes]; rewrite !Eu, (i64_id (ambient_bytes (rquota s) + t)) by lia; [done|].
    rewrite i64_id by lia. unfold with_bytes_used, with_rquota. cbn. replace (ambient_bytes (rquota s) + t - t) with (ambient_bytes (rquota s)) by lia. done. }
  rewrite Run. clear Run. destruct (Z.ltb_spec (ambient_quota (rquota s0) - t) (ambient_bytes (rquota s))); [done|].
  destruct memalign as [raw|].
  - intros Hf. set (s1 := with_bytes_used (ambient_bytes (rquota s) + t) s0).
    assert (R1 : Rep s1 m) by (apply (rep_quota_id _ _ (mkQuota _ _) R0); cbn [ambient_bytes ambient_quota]; unfold LLONG_MAX; lia).
    destruct (rep_new s1 m raw size R1) as [Hn R2].
    { unfold OO_ALLOC_BYTES_MAX. change (Z.shiftl 1 30) with 1073741824. lia. }
    { destruct Hf as (F1 & F2 & F3). split; [done|]. split; [done|]. intros h Hh. apply F3. unfold in_table, bucket in *. by rewrite <- Et. }
    { change (charges s1) with (charges s0). fold t. cbn. lia. }
    split; [done|]. eexists. split; [|split; [exact R2|]].
    + destruct Hf as (F1 & F2 & _). cbv zeta. rewrite i64_id by (unfold HEADER; fold t in F2; lia). done.
    + cbn. lia.
  - eexists. split; [done|]. split; [|done]. apply (rep_quota_id _ _ (mkQuota _ _) R0); cbn [ambient_bytes ambient_quota]; unfold LLONG_MAX; lia.
Qed.

(** C11. Raw memory is a map from pointers to byte strings.  On a state that
    represents such a map, with an open gate: a fresh allocation adds its
    zeroed block, charges its rounded size and stays within the quota, or ends
    the process when the quota has no room, or returns 0 for a bad size or no
    memory; freeing removes the block and its charge, and does nothing for a
    pointer that is not one; reading and writing a word act on the block of
    exactly that pointer inside its size, and end the process for every other
    pointer or offset.  No call touches a byte outside an allocated block. *)
Theorem raw_memory_refines cap s m : Rep s m -> gate_open cap s ->
  (forall size memalign, size <= 0 \/ OO_ALLOC_BYTES_MAX < size -> oo_alloc env memalign cap size s = Ret (0, s)) /\
  (forall size memalign, 0 < size <= OO_ALLOC_BYTES_MAX ->
    if limit (oo_list_quota_init_public env s) - total_sz size <? used s then oo_alloc env memalign cap size s = Exited 1
    else match memalign with
    | None => exists s', oo_alloc env memalign cap size s = Ret (0, s') /\ Rep s' m /\ used s' = used s
    | Some raw => fresh raw (total_sz size) s -> m !! (raw + HEADER) = None /\
        exists s', oo_alloc env memalign cap size s = Ret (raw + HEADER, s') /\
        Rep s' (<[raw + HEADER := zeros (Z.to_nat size)]> m) /\ used s' = used s + total_sz size /\ used s' <= limit s'
    end) /\
  forall ptr, - 2 ^ 63 <= ptr < 2 ^ 63 ->
    (exists s', oo_free cap ptr s = Ret (tt, s') /\ Rep s' (delete (u64 ptr) m) /\
       used s' = used s - match m !! u64 ptr with Some l => total_sz (Z.of_nat (length l)) | None => 0 end) /\
    (forall offset, oo_read_int cap ptr offset s =
       match access m ptr offset with Some l => Ret (i64 (le_join (slice (Z.to_nat offset) 8 l)), s) | None => Exited 1 end) /\
    forall offset v, match access m ptr offset with
      | Some l => exists s', oo_write_int cap ptr offset v s = Ret (0, s') /\
          Rep s' (<[u64 ptr := take (Z.to_nat offset) l ++ le_bytes 8 v ++ drop (Z.to_nat offset + 8) l]> m) /\ rquota s' = rquota s
      | None => oo_write_int cap ptr offset v s = Exited 1
      end.
Proof.
  intros R G. split; [intros; by apply alloc_refused|]. split; [intros; by apply alloc_spec|]. intros ptr Hp.
  split; [by apply free_spec|]. split; [intros; by apply read_spec|]. intros. by apply write_spec.
Qed.

(** The ceiling: raising saturates, lowering stops at nothing less than 0. *)
Lemma quota_raise cap n s m : Rep s m -> gate_open cap s ->
  let n' := if (0 <=? n) && (n <=? OO_ALLOC_BYTES_MAX) then n else 0 in
  exists s', oo_alloc_bytes env cap n s = Ret (n', s') /\ Rep s' m /\ limit s' = Z.min LLONG_MAX (limit (oo_list_quota_init_public env s) + n').
Proof.
  intros R G. unfold oo_alloc_bytes, bind, set_state, ret. rewrite raw_gate_run by done. cbn [run_bind].
  pose proof (rep_init s m R) as R0. set (s0 := oo_list_quota_init_public env s) in *. pose proof (r_charged _ _ R0) as C. pose proof (r_quota _ _ R0) as Q.
  assert (E : (let n := if n <? 0 then 0 else n in if OO_ALLOC_BYTES_MAX <? n then 0 else n) = if (0 <=? n) && (n <=? OO_ALLOC_BYTES_MAX) then n else 0).
  { unfold OO_ALLOC_BYTES_MAX. change (Z.shiftl 1 30) with 1073741824. cbv zeta.
    destruct (Z.ltb_spec n 0), (Z.leb_spec 0 n), (Z.leb_spec n 1073741824); cbn [andb]; try lia; destruct (Z.ltb_spec 1073741824 n); try lia; done. }
  cbv zeta in E. rewrite E. set (n' := if _ && _ then n else 0). assert (0 <= n') by (unfold n'; destruct (Z.leb_spec 0 n); cbn [andb]; [destruct (_ <=? _)|]; lia).
  eexists. split; [done|]. unfold limit, LLONG_MAX in *. destruct (Z.ltb_spec (9223372036854775807 - ambient_quota (rquota s0)) n').
  - split; [|cbn; lia]. apply rep_quota_id; [done|..]; cbn [ambient_bytes ambient_quota]; unfold LLONG_MAX; lia.
  - split; [|cbn; lia]. apply rep_quota_id; [done|..]; cbn [ambient_bytes ambient_quota]; unfold LLONG_MAX; lia.
Qed.
Lemma quota_lower cap p s m : Rep s m -> gate_open cap s ->
  exists s', oo_free_bytes cap p s = Ret (tt, s') /\ Rep s' m /\ limit s' = if (0 <=? p) && (p <=? limit s) then limit s - p else limit s.
Proof.
  intros R G. unfold oo_free_bytes, bind, set_state. rewrite raw_gate_run by done. cbn [run_bind]. pose proof (r_charged _ _ R) as C. pose proof (r_quota _ _ R) as Q.
  eexists. split; [done|]. unfold limit, LLONG_MAX in *.
  destruct (Z.ltb_spec p 0), (Z.leb_spec 0 p), (Z.leb_spec p (ambient_quota (rquota s))); try lia; cbn [andb];
    try (destruct (Z.leb_spec 0 (ambient_quota (rquota s))); [|lia]).
  all: (split; [first [done|apply rep_quota_id; [done|..]; cbn [ambient_bytes ambient_quota]; unfold LLONG_MAX; lia]|cbn; lia]).
Qed.
End ops.

(** The empty heap, and the state of the witness: a quota of 1000 bytes. *)
Lemma start_bucket c b : bucket b (rstart c) = [].
Proof.
  unfold bucket, rstart. cbn [g_alloc_table]. rewrite nth_lookup. destruct (repeat [] OO_ALLOC_BUCKETS !! b) as [l|] eqn:H; [|done].
  apply list_elem_of_lookup_2, list_elem_of_In, repeat_spec in H. by subst.
Qed.
Lemma start_empty c h : ~ in_table h (rstart c).
Proof. unfold in_table. rewrite start_bucket. apply not_elem_of_nil. Qed.
Lemma rep_start c : Rep (rstart c) ∅.
Proof.
  split.
  - apply repeat_length.
  - intros b h. rewrite start_bucket. by intros ?%not_elem_of_nil.
  - intros b. rewrite start_bucket. constructor.
  - intros h Hh. by destruct (start_empty c h).
  - intros h k Hh. by destruct (start_empty c h).
  - intros h Hh. by destruct (start_empty c h).
  - intros p l. split; [by rewrite lookup_empty|]. intros (h & Hh & _). by destruct (start_empty c h).
  - vm_compute. split; discriminate.
  - vm_compute. split; discriminate.
Qed.
Definition wit_raw_cap : Z := Eval vm_compute in match alloc_tok wit_all with Some t => t | None => 0 end.
Example raw_memory_refines_witness :
  exists s', @oo_alloc wit_entropy (Some 1000) (Some 4096) wit_raw_cap 20 (rstart wit_all) = Ret (4144, s') /\
    Rep s' {[4144 := zeros 20]} /\ used s' = 80.
Proof.
  assert (F : forall v, Some 1000 = Some v -> v <= LLONG_MAX) by (intros v [= <-]; vm_compute; discriminate).
  destruct (@raw_memory_refines wit_entropy (Some 1000) F wit_raw_cap (rstart wit_all) ∅ (rep_start _)) as (_ & A & _).
  { split; [reflexivity|discriminate]. }
  specialize (A 20 (Some 4096) ltac:(vm_compute; split; [reflexivity|discriminate])).
  destruct A as (_ & s' & E & R & U & _).
  { split; [reflexivity|]. split; [reflexivity|]. intros h Hh. destruct (start_empty _ h Hh). }
  exists s'. split; [exact E|]. split; [exact R|exact U].
Defined.
