(* ===== verification/Blackbox.v ===== *)
(** The flight recorder ([core/blackbox/]): the ring of the last events and the
    crash report written from it as JSON.

    The emit helpers write into a buffer with a size; a byte written past it is
    [Undefined].  A C string is its bytes without the terminator, NULL is
    [None].  The clock gives the time of the event with each sequence number;
    what [backtrace] returned and the answers of [open] and [write] are
    arguments.  The signal machinery is the list of the calls made to it. *)
From S2P Require Import Prelude Str.
From Stdlib Require String.
From stdpp Require Import gmap.
Import (notations) String.
Open Scope Z_scope.

(** A literal of the report: ` stands for the quote and ~ for the newline. *)
Definition lit (s : String.string) : list Z :=
  map (fun c => if c =? 96 then 34 else if c =? 126 then 10 else c) (ascii_bytes s).

(** * Emitting ([blackbox_emit.c]) *)

Record out := mkOut { cells : gmap nat Z; size : nat }.
Definition put (i : nat) (c : Z) : ST out unit := fun o =>
  if (i <? size o)%nat then Ret (tt, mkOut (<[i := c]> (cells o)) (size o)) else Undefined.
(** Takes the position and the limit, gives the new position. *)
Definition emitter : Type := nat -> nat -> ST out nat.
Definition seq_emit (f g : emitter) : emitter := fun pos max => let! pos := f pos max in g pos max.
Notation "f '>>>' g" := (seq_emit f g) (at level 60, right associativity).

Fixpoint append_loop (l : list Z) (pos max : nat) : ST out nat :=
  match l with
  | [] => ret pos
  | c :: l => if (pos + 1 <? max)%nat then let! _ := put pos c in append_loop l (S pos) max else ret pos
  end.
Definition terminate (pos : nat) : ST out nat := let! _ := put pos 0 in ret pos.
Definition bb_append (s : option (list Z)) : emitter := fun pos max =>
  match s with
  | None => ret pos
  | Some l => if (max <=? pos)%nat then ret pos else let! pos := append_loop l pos max in terminate pos
  end.

(** The digits in [tmp], the lowest first; [tmp] has room for the fuel. *)
Fixpoint uint_digits (fuel : nat) (v : Z) : list Z :=
  match fuel with O => [] | S f => if 0 <? v then (48 + v mod 10) :: uint_digits f (v / 10) else [] end.
Definition bb_append_uint (v : Z) : emitter := fun pos max =>
  let tmp := if v =? 0 then [48] else uint_digits 24 v in
  let! pos := append_loop (rev tmp) pos max in terminate pos.
Definition hex_char (n : Z) : Z := get (ascii_bytes "0123456789abcdef") (Z.to_nat n).
Fixpoint hex_digits (fuel : nat) (v : Z) : list Z :=
  match fuel with O => [] | S f => if 0 <? v then hex_char (Z.land v 0xf) :: hex_digits f (Z.shiftr v 4) else [] end.
Definition bb_append_hex (v : Z) : emitter := fun pos max =>
  let! pos := bb_append (Some (lit "0x")) pos max in
  let tmp := if v =? 0 then [48] else hex_digits 20 v in
  let! pos := append_loop (rev tmp) pos max in terminate pos.

(** The escaping loop over at most [n] characters: the position and what is
    left of the string. *)
Fixpoint escape_loop (n : nat) (l : list Z) (pos max : nat) : ST out (nat * list Z) :=
  match n, l with
  | S n, c :: k =>
      if (pos + 2 <? max)%nat then
        if (c =? 34) || (c =? 92) then let! _ := put pos 92 in let! _ := put (S pos) c in escape_loop n k (S (S pos)) max
        else if c =? 10 then let! _ := put pos 92 in let! _ := put (S pos) 110 in escape_loop n k (S (S pos)) max
        else if c =? 9 then let! _ := put pos 92 in let! _ := put (S pos) 116 in escape_loop n k (S (S pos)) max
        else if c <? 32 then escape_loop n k pos max
        else let! _ := put pos c in escape_loop n k (S pos) max
      else ret (pos, l)
  | _, _ => ret (pos, l)
  end.
Definition nul (s : option (list Z)) : list Z := match s with Some l => l | None => [] end.
Definition close_quote (pos max : nat) : ST out nat :=
  if (pos + 1 <? max)%nat then let! _ := put pos 34 in terminate (S pos) else terminate pos.
Definition bb_append_json_str (s : option (list Z)) : emitter := fun pos max =>
  if (max <=? pos + 1)%nat then ret pos
  else
    let! _ := put pos 34 in
    let! r := escape_loop (length (nul s)) (nul s) (S pos) max in
    close_quote (fst r) max.
Definition bb_append_esc_n (s : option (list Z)) (n : nat) : emitter := fun pos max =>
  let! r := escape_loop n (nul s) pos max in
  let '(pos, rest) := r in
  let! pos := (match rest with [] => ret pos | _ => bb_append (Some (lit "...")) pos max end) in
  terminate pos.
Definition bb_append_json_str_n (s : option (list Z)) (n : nat) : emitter := fun pos max =>
  if (max <=? pos + 1)%nat then ret pos
  else
    let! _ := put pos 34 in
    let pos := S pos in
    let! pos := bb_append_esc_n s n pos (if (pos + 2 <? max)%nat then max - 1 else pos)%nat in
    close_quote pos max.

(** * The ring *)

Definition BLACKBOX_RING_CAPACITY : nat := 64.
Record BlackboxFlightEvent := mkEv { e_seq : Z; timestamp_us : Z; event_type : Z; category : list Z; action : list Z; detail : list Z }.
Record BlackboxRingBuffer := mkRing { events : list BlackboxFlightEvent; head : Z; count : Z }.
Definition no_event : BlackboxFlightEvent := mkEv 0 0 0 [] [] [].
Definition ring0 : BlackboxRingBuffer := mkRing (repeat no_event BLACKBOX_RING_CAPACITY) 0 0.

Inductive sigcall := SetDefault (sig : Z) | Raise (sig : Z) | Unblock (sig : Z) | AltStack | Handle (sig : Z).
Record bstate := mkBb {
  s_ring : BlackboxRingBuffer; s_initialized : bool; s_in_handler : bool; s_autopsy_buf : out;
  sigcalls : list sigcall; file_bytes : list Z }.
Definition AUTOPSY : nat := Z.to_nat 65536.
Definition bstart : bstate := mkBb ring0 false false (mkOut ∅ AUTOPSY) [] [].
Definition with_ring (r : BlackboxRingBuffer) (s : bstate) : bstate := mkBb r (s_initialized s) (s_in_handler s) (s_autopsy_buf s) (sigcalls s) (file_bytes s).
Definition with_buf (o : out) (s : bstate) : bstate := mkBb (s_ring s) (s_initialized s) (s_in_handler s) o (sigcalls s) (file_bytes s).
Definition with_file (l : list Z) (s : bstate) : bstate := mkBb (s_ring s) (s_initialized s) (s_in_handler s) (s_autopsy_buf s) (sigcalls s) l.
Definition with_handling (s : bstate) : bstate := mkBb (s_ring s) (s_initialized s) true (s_autopsy_buf s) (sigcalls s) (file_bytes s).
Definition call_sig (l : list sigcall) (s : bstate) : bstate := mkBb (s_ring s) (s_initialized s) (s_in_handler s) (s_autopsy_buf s) (sigcalls s ++ l) (file_bytes s).

Definition SIGILL : Z := 4.
Definition SIGABRT : Z := 6.
Definition SIGBUS : Z := 7.
Definition SIGSEGV : Z := 11.

Section recorder.
Context (now_us : Z -> Z).

Definition ring_store (c a d : option (list Z)) (r : BlackboxRingBuffer) : BlackboxRingBuffer :=
  let seq := u64 (count r + 1) in
  let idx := u64 (seq - 1) mod Z.of_nat BLACKBOX_RING_CAPACITY in
  let ev := mkEv seq (now_us seq) 1 (take 31 (nul c)) (take 31 (nul a)) (take 63 (nul d)) in
  mkRing (<[Z.to_nat idx := ev]> (events r)) idx seq.
(** First use: the handlers, then the first event. *)
Definition blackbox_init (s : bstate) : bstate :=
  if s_initialized s then s
  else
    let s := mkBb (s_ring s) true (s_in_handler s) (s_autopsy_buf s) (sigcalls s) (file_bytes s) in
    let s := call_sig [AltStack; Handle SIGSEGV; Handle SIGABRT; Handle SIGBUS; Handle SIGILL] s in
    with_ring (ring_store (Some (lit "core")) (Some (lit "init")) (Some (lit "flight_sensor_active")) (s_ring s)) s.
Definition blackbox_record (c a d : option (list Z)) (s : bstate) : bstate :=
  let s := blackbox_init s in with_ring (ring_store c a d (s_ring s)) s.
End recorder.

(** * The report *)

Definition lit_ (s : String.string) : emitter := bb_append (Some (lit s)).
Definition emit_event (ev : BlackboxFlightEvent) (last : bool) : emitter :=
  lit_ "    {`seq`: " >>> bb_append_uint (e_seq ev) >>>
  lit_ ", `timestamp_us`: " >>> bb_append_uint (timestamp_us ev) >>>
  lit_ ", `category`: " >>> bb_append_json_str (Some (category ev)) >>>
  lit_ ", `action`: " >>> bb_append_json_str (Some (action ev)) >>>
  lit_ ", `detail`: " >>> bb_append_json_str (Some (detail ev)) >>>
  lit_ (if last then "}~" else "},~").
(** [for (i = lo; i < lo + k; i++)]; [emit i last]. *)
Fixpoint emit_each (k lo : nat) (emit : nat -> bool -> emitter) : emitter :=
  match k with
  | O => fun pos _ => ret pos
  | S k => emit lo (k =? 0)%nat >>> emit_each k (S lo) emit
  end.
Definition ring_total (r : BlackboxRingBuffer) : nat :=
  Z.to_nat (if count r <? Z.of_nat BLACKBOX_RING_CAPACITY then count r else Z.of_nat BLACKBOX_RING_CAPACITY).
Definition ring_start (r : BlackboxRingBuffer) : Z :=
  if count r <=? Z.of_nat BLACKBOX_RING_CAPACITY then 0 else count r - Z.of_nat BLACKBOX_RING_CAPACITY.
Definition ring_nth (r : BlackboxRingBuffer) (i : nat) : BlackboxFlightEvent :=
  nth (Z.to_nat (u64 (ring_start r + Z.of_nat i) mod Z.of_nat BLACKBOX_RING_CAPACITY)) (events r) no_event.
Definition bb_format_events (r : BlackboxRingBuffer) : emitter :=
  lit_ "[~" >>> emit_each (ring_total r) 0 (fun i last => emit_event (ring_nth r i) last) >>> lit_ "  ]".
Definition emit_frame (frames : list Z) (i : nat) (last : bool) : emitter :=
  lit_ "    {`frame`: " >>> bb_append_uint (Z.of_nat i) >>> lit_ ", `address`: `" >>> bb_append_hex (nth i frames 0) >>>
  lit_ (if last then "`}~" else "`},~").
Definition bb_format_stack (frames : list Z) : emitter :=
  lit_ "[~" >>> emit_each (length frames) 0 (emit_frame frames) >>> lit_ "  ]".

(** The bytes from [pos] to the terminator. *)
Fixpoint read_str (fuel pos : nat) (o : out) : list Z :=
  match fuel with
  | O => []
  | S f => match cells o !! pos with Some c => if c =? 0 then [] else c :: read_str f (S pos) o | None => [] end
  end.
(** [coord]: a local buffer of 48 bytes. *)
Definition coordinate (faddr : Z) : run (list Z) :=
  let* r := (lit_ "fault@" >>> bb_append_hex faddr) 0%nat 48%nat (mkOut ∅ 48) in Ret (read_str 48 0 (snd r)).

(** The name, the cause and the remedy of a signal. *)
Definition sig_name (sig : Z) : String.string :=
  if sig =? SIGSEGV then "SIGSEGV" else if sig =? SIGABRT then "SIGABRT" else if sig =? SIGBUS then "SIGBUS"
  else if sig =? SIGILL then "SIGILL" else "NONE".
Definition sig_cause (sig faddr : Z) : String.string :=
  if sig =? SIGSEGV then (if faddr <? 0x1000 then "NULL_POINTER_DEREFERENCE" else "MEMORY_ACCESS_VIOLATION")
  else if sig =? SIGABRT then "PROCESS_ABORT" else if sig =? SIGBUS then "BUS_ERROR"
  else if sig =? SIGILL then "ILLEGAL_INSTRUCTION" else "PROCESS_SNAPSHOT".
Definition sig_remedy (sig faddr : Z) : String.string :=
  if sig =? SIGSEGV then (if faddr <? 0x1000 then "Check pointer initialization before dereference."
                          else "Verify buffer boundaries and memory permissions.")
  else if sig =? SIGABRT then "Review assertion condition or process abort call."
  else if sig =? SIGBUS then "Inspect memory alignment and mmap boundaries."
  else if sig =? SIGILL then "Inspect instruction alignment and code integrity." else "Examine process flight events.".

Definition emit_tail (frames : list Z) (r : BlackboxRingBuffer) : emitter :=
  bb_format_stack frames >>> lit_ ",~  `flight_events`: " >>> bb_format_events r >>>
  lit_ ",~  `flight_log`: " >>> bb_format_events r >>> lit_ "~}~".
Definition emit_autopsy (sig faddr : Z) (coord : list Z) (frames : list Z) (r : BlackboxRingBuffer) : emitter :=
  lit_ "{~  `schema_version`: `1.0.0`,~  `crash_type`: `SIGNAL`,~" >>>
  lit_ "  `crash_signal`: " >>> bb_append_uint (u64 sig) >>>
  lit_ ",~  `signal_name`: " >>> bb_append_json_str (Some (lit (sig_name sig))) >>>
  lit_ ",~  `signal`: " >>> bb_append_json_str (Some (lit (sig_name sig))) >>>
  lit_ ",~  `fault_address`: `" >>> bb_append_hex faddr >>>
  lit_ "`,~  `failure_coordinate`: " >>>
  bb_append_json_str (Some (if negb (sig =? 0) then coord else lit "unknown:0:0:unknown")) >>>
  lit_ ",~  `root_cause`: " >>> bb_append_json_str (Some (lit (sig_cause sig faddr))) >>>
  lit_ ",~  `remediation`: " >>> bb_append_json_str (Some (lit (sig_remedy sig faddr))) >>>
  lit_ ",~  `call_stack`: " >>> emit_tail frames r.
Definition or_unknown (s : option (list Z)) : option (list Z) := match s with Some _ => s | None => Some (lit "unknown") end.
Definition emit_trap (cap fn file : option (list Z)) (line : Z) (frames : list Z) (r : BlackboxRingBuffer) : emitter :=
  lit_ "{~  `schema_version`: `1.0.0`,~  `crash_type`: `CAPABILITY_VIOLATION`,~" >>>
  lit_ "  `crash_signal`: 0,~  `signal_name`: `NONE`,~  `signal`: `NONE`,~" >>>
  lit_ "  `fault_address`: `0x0`,~  `failure_coordinate`: `" >>>
  bb_append_esc_n (or_unknown file) 256 >>> lit_ ":" >>> bb_append_uint (u64 (if 0 <? line then line else 0)) >>>
  lit_ ":0:" >>> bb_append_esc_n (or_unknown fn) 256 >>>
  lit_ "`,~  `root_cause`: `CAPABILITY_TRAP_VIOLATION`,~" >>>
  lit_ "  `remediation`: `Grant required capability token before invoking restricted operation.`,~" >>>
  lit_ "  `capability`: {~    `token_name`: " >>> bb_append_json_str_n (or_unknown cap) 256 >>>
  lit_ ",~    `operation`: " >>> bb_append_json_str_n (or_unknown fn) 256 >>>
  lit_ "~  },~  `call_stack`: " >>> emit_tail frames r.

(** Runs an emitter on the report's buffer. *)
Definition in_buf (e : emitter) (s : bstate) : run (nat * bstate) :=
  let* r := e 0%nat AUTOPSY (s_autopsy_buf s) in Ret (fst r, with_buf (snd r) s).

(** The answers of [write]: a count, or [None] for EINTR. *)
Fixpoint write_loop (answers : list (option Z)) (off len : Z) : Z :=
  match answers with
  | [] => off
  | a :: rest =>
      if off <? len then
        match a with
        | None => write_loop rest off len
        | Some w => if w <=? 0 then off else write_loop rest (off + w) len
        end
      else off
  end.
Definition read_cells (n : nat) (o : out) : list Z := map (fun i => match cells o !! i with Some c => c | None => 0 end) (seq 0 n).
(** What reaches the file (the flag: [open] worked) or else standard error. *)
Definition bb_write_file (opened : bool) (answers : list (option Z)) (len : nat) (s : bstate) : bstate :=
  let n := if opened then write_loop answers 0 (Z.of_nat len) else match answers with Some w :: _ => Z.max 0 w | _ => 0 end in
  with_file (take (Z.to_nat n) (read_cells len (s_autopsy_buf s))) s.

Section dump.
Context (now_us : Z -> Z) (frames : list Z) (opened : bool) (answers : list (option Z)).

(** [si_addr] if there is an [info]. *)
Definition blackbox_dump_autopsy (sig : Z) (si_addr : option Z) (s : bstate) : run bstate :=
  let s := blackbox_init now_us s in
  let faddr := match si_addr with Some a => a | None => 0 end in
  let* coord := coordinate faddr in
  let* r := in_buf (emit_autopsy sig faddr coord frames (s_ring s)) s in
  Ret (bb_write_file opened answers (fst r) (snd r)).
Definition blackbox_trap_cap (cap fn file : option (list Z)) (line : Z) (s : bstate) : run bstate :=
  let s := blackbox_record now_us (Some (lit "capability")) (Some (lit "violation")) (or_unknown cap) s in
  let* r := in_buf (emit_trap cap fn file line frames (s_ring s)) s in
  Ret (bb_write_file opened answers (fst r) (snd r)).
Definition blackbox_signal_handler (sig : Z) (info : option Z) (s : bstate) : run bstate :=
  if s_in_handler s then Ret (call_sig [SetDefault sig; Raise sig] s)
  else
    let s := with_handling s in
    let name := if sig =? SIGSEGV then lit "SIGSEGV" else if sig =? SIGABRT then lit "SIGABRT" else if sig =? SIGBUS then lit "SIGBUS" else lit "SIGILL" in
    let s := blackbox_record now_us (Some (lit "signal")) (Some (lit "trap")) (Some name) s in
    let* s := blackbox_dump_autopsy sig info s in
    Ret (call_sig [SetDefault sig; Unblock sig; Raise sig] s).
End dump.

(** * What an emitter writes

    [renders e l]: with room, [e] writes exactly [l] and a terminator, and
    nothing else; without room it stays inside the limit. *)

Definition wrote (pos : nat) (l : list Z) (o o' : out) : Prop :=
  size o' = size o /\ forall i, cells o' !! i =
    if (i <? pos)%nat then cells o !! i else if (i <? pos + length l)%nat then l !! (i - pos)%nat
    else if (i =? pos + length l)%nat then Some 0 else cells o !! i.
(** The same without the terminator. *)
Definition wrote_raw (pos : nat) (l : list Z) (o o' : out) : Prop :=
  size o' = size o /\ forall i, cells o' !! i =
    if (i <? pos)%nat then cells o !! i else if (i <? pos + length l)%nat then l !! (i - pos)%nat else cells o !! i.
Definition stays (pos max : nat) (o : out) (r : run (nat * out)) : Prop :=
  exists pos' o', r = Ret (pos', o') /\ (pos <= pos' < max)%nat /\ size o' = size o /\
    forall i, (i < pos \/ max <= i)%nat -> cells o' !! i = cells o !! i.
Class Renders (e : emitter) (l : list Z) : Prop := {
  renders_exact : forall pos max o, (pos + length l + 2 < max <= size o)%nat -> exists o', e pos max o = Ret ((pos + length l)%nat, o') /\ wrote pos l o o';
  renders_inside : forall pos max o, (pos < max <= size o)%nat -> stays pos max o (e pos max o) }.

Ltac split_ltb :=
  repeat match goal with
  | |- context [(?x <? ?y)%nat] => destruct (Nat.ltb_spec x y)
  | |- context [(?x <=? ?y)%nat] => destruct (Nat.leb_spec x y)
  | |- context [(?x =? ?y)%nat] => destruct (Nat.eqb_spec x y)
  end.

Lemma put_run i c o : (i < size o)%nat -> put i c o = Ret (tt, mkOut (<[i := c]> (cells o)) (size o)).
Proof. intros H. unfold put. destruct (Nat.ltb_spec i (size o)); [done|lia]. Qed.
Lemma wrote_raw_nil pos o : wrote_raw pos [] o o.
Proof. split; [done|]. intros i. cbn [length]. split_ltb; try done. lia. Qed.
Lemma wrote_raw_put pos c o : wrote_raw pos [c] o (mkOut (<[pos := c]> (cells o)) (size o)).
Proof.
  split; [done|]. intros i. cbn [cells length]. split_ltb; try (rewrite lookup_insert_ne by lia; done).
  replace i with pos by lia. by rewrite lookup_insert_eq, Nat.sub_diag.
Qed.
Lemma wrote_raw_app pos l1 l2 o1 o2 o3 : wrote_raw pos l1 o1 o2 -> wrote_raw (pos + length l1) l2 o2 o3 -> wrote_raw pos (l1 ++ l2) o1 o3.
Proof.
  intros [S1 W1] [S2 W2]. split; [congruence|]. intros i. rewrite W2, W1, length_app. split_ltb; try lia; try done.
  - by rewrite lookup_app_l by lia.
  - rewrite lookup_app_r by lia. f_equal. lia.
Qed.
Lemma wrote_end pos l o o' : wrote_raw pos l o o' -> wrote pos l o (mkOut (<[(pos + length l)%nat := 0]> (cells o')) (size o')).
Proof.
  intros [S W]. split; [done|]. intros i. cbn [cells]. destruct (Nat.eq_dec i (pos + length l)%nat) as [->|N].
  - rewrite lookup_insert_eq. split_ltb; try lia; done.
  - rewrite lookup_insert_ne, W by lia. split_ltb; try lia; done.
Qed.
Lemma wrote_app pos l1 l2 o1 o2 o3 : wrote pos l1 o1 o2 -> wrote (pos + length l1) l2 o2 o3 -> wrote pos (l1 ++ l2) o1 o3.
Proof.
  intros [S1 W1] [S2 W2]. split; [congruence|]. intros i. rewrite W2, W1, length_app. split_ltb; try lia; try done.
  - by rewrite lookup_app_l by lia.
  - rewrite lookup_app_r by lia. f_equal. lia.
Qed.
Lemma wrote_of_raw pos l1 l2 o1 o2 o3 : wrote_raw pos l1 o1 o2 -> wrote (pos + length l1) l2 o2 o3 -> wrote pos (l1 ++ l2) o1 o3.
Proof.
  intros [S1 W1] [S2 W2]. split; [congruence|]. intros i. rewrite W2, W1, length_app. split_ltb; try lia; try done.
  - by rewrite lookup_app_l by lia.
  - rewrite lookup_app_r by lia. f_equal. lia.
Qed.

Lemma stays_ret pos max o : (pos < max)%nat -> stays pos max o (Ret (pos, o)).
Proof. intros H. exists pos, o. split; [done|]. split; [lia|]. done. Qed.
Lemma stays_bind {A} pos max o (m : ST out A) p1 o1 (a : A) (k : A -> ST out nat) :
  m o = Ret (a, o1) -> (pos <= p1)%nat -> size o1 = size o -> (forall i, (i < pos \/ max <= i)%nat -> cells o1 !! i = cells o !! i) ->
  stays p1 max o1 (k a o1) -> stays pos max o (bind m k o).
Proof.
  intros E Hp Hs Hc (p' & o' & Ek & Hp' & Hs' & Hc'). exists p', o'. unfold bind. rewrite E. cbn [run_bind]. split; [done|].
  split; [lia|]. split; [congruence|]. intros i Hi. rewrite Hc' by lia. by apply Hc.
Qed.
Lemma stays_put pos max p c o (k : unit -> ST out nat) p1 : (pos <= p < max)%nat -> (max <= size o)%nat -> (pos <= p1)%nat ->
  stays p1 max (mkOut (<[p := c]> (cells o)) (size o)) (k tt (mkOut (<[p := c]> (cells o)) (size o))) -> stays pos max o (bind (put p c) k o).
Proof.
  intros Hp Hm H1. apply stays_bind; [apply put_run; lia|done|done|]. intros i Hi. cbn. by rewrite lookup_insert_ne by lia.
Qed.
Lemma stays_then pos max o (m : ST out nat) (k : nat -> ST out nat) : stays pos max o (m o) ->
  (forall p1 o1, (pos <= p1 < max)%nat -> size o1 = size o -> stays p1 max o1 (k p1 o1)) -> stays pos max o (bind m k o).
Proof. intros (p1 & o1 & E & Hp & Hs & Hc) H. apply (stays_bind pos max o m p1 o1 p1 k E); [lia|done|done|]. by apply H. Qed.
Lemma terminate_stays pos max o : (pos < max <= size o)%nat -> stays pos max o (terminate pos o).
Proof. intros H. unfold terminate. apply (stays_put _ _ _ _ _ _ pos); [lia..|]. apply stays_ret. lia. Qed.
Lemma append_loop_exact l pos max o : (pos + length l < max <= size o)%nat ->
  exists o', append_loop l pos max o = Ret ((pos + length l)%nat, o') /\ wrote_raw pos l o o'.
Proof.
  revert pos o. induction l as [|c l IH]; intros pos o H; cbn [append_loop length] in *.
  - exists o. split; [unfold ret; by rewrite Nat.add_0_r|apply wrote_raw_nil].
  - destruct (Nat.ltb_spec (pos + 1) max); [|lia]. unfold bind. rewrite put_run by lia. cbn [run_bind].
    destruct (IH (S pos) (mkOut (<[pos := c]> (cells o)) (size o))) as (o' & E & W); [cbn; lia|].
    exists o'. rewrite E. split; [do 2 f_equal; lia|]. apply (wrote_raw_app pos [c] l _ _ _ (wrote_raw_put pos c o)).
    cbn [length]. by rewrite Nat.add_1_r.
Qed.
Lemma append_loop_stays l pos max o : (pos < max <= size o)%nat -> stays pos max o (append_loop l pos max o).
Proof.
  revert pos o. induction l as [|c l IH]; intros pos o H; cbn [append_loop]; [apply stays_ret; lia|].
  destruct (Nat.ltb_spec (pos + 1) max); [|apply stays_ret; lia]. apply (stays_put _ _ _ _ _ _ (S pos)); [lia..|]. apply IH. cbn. lia.
Qed.
(** Appending a text and closing it. *)
Lemma append_exact l pos max o : (pos + length l < max <= size o)%nat ->
  exists o', (let! pos := append_loop l pos max in terminate pos) o = Ret ((pos + length l)%nat, o') /\ wrote pos l o o'.
Proof.
  intros H. destruct (append_loop_exact l pos max o H) as (o1 & E & W). unfold bind at 1. rewrite E. cbn [run_bind].
  unfold terminate, bind. destruct W as [S W]. rewrite put_run by lia. cbn [run_bind]. eexists. split; [done|]. by apply wrote_end.
Qed.
Lemma append_stays l pos max o : (pos < max <= size o)%nat -> stays pos max o ((let! pos := append_loop l pos max in terminate pos) o).
Proof. intros H. apply stays_then; [by apply append_loop_stays|]. intros p1 o1 Hp Hs. apply terminate_stays. lia. Qed.

#[export] Instance renders_append l : Renders (bb_append (Some l)) l.
Proof.
  split; intros pos max o H; unfold bb_append.
  - destruct (Nat.leb_spec max pos); [lia|]. apply append_exact. lia.
  - destruct (Nat.leb_spec max pos); [lia|]. apply append_stays. lia.
Qed.
#[export] Instance renders_seq e f l k : Renders e l -> Renders f k -> Renders (e >>> f) (l ++ k).
Proof.
  intros [E1 I1] [E2 I2]. split; intros pos max o H; unfold seq_emit.
  - rewrite length_app in H. destruct (E1 pos max o ltac:(lia)) as (o1 & R1 & W1). unfold bind. rewrite R1. cbn [run_bind].
    destruct (E2 (pos + length l)%nat max o1) as (o2 & R2 & W2); [rewrite (proj1 W1); lia|]. exists o2. rewrite R2, length_app.
    split; [do 2 f_equal; lia|]. by eapply wrote_app.
  - apply stays_then; [by apply I1|]. intros p1 o1 Hp Hs. apply I2. lia.
Qed.

(** ** Numbers *)

Definition uint_text (v : Z) : list Z := rev (if v =? 0 then [48] else uint_digits 24 v).
Definition hex_text (v : Z) : list Z := lit "0x" ++ rev (if v =? 0 then [48] else hex_digits 20 v).
#[export] Instance renders_uint v : Renders (bb_append_uint v) (uint_text v).
Proof. split; intros pos max o H; unfold bb_append_uint, uint_text in *; [apply append_exact|apply append_stays]; lia. Qed.
#[export] Instance renders_hex v : Renders (bb_append_hex v) (hex_text v).
Proof.
  assert (E : bb_append_hex v = bb_append (Some (lit "0x")) >>> (fun pos max => let! pos := append_loop (rev (if v =? 0 then [48] else hex_digits 20 v)) pos max in terminate pos)) by done.
  rewrite E. unfold hex_text. apply renders_seq; [apply _|]. split; intros pos max o H; [apply append_exact|apply append_stays]; lia.
Qed.

(** ** Strings *)

Definition esc1 (c : Z) : list Z :=
  if (c =? 34) || (c =? 92) then [92; c] else if c =? 10 then [92; 110] else if c =? 9 then [92; 116] else if c <? 32 then [] else [c].
Definition esc (l : list Z) : list Z := concat (map esc1 l).
Definition json_text (l : list Z) : list Z := [34] ++ esc l ++ [34].
Definition esc_n_text (l : list Z) (n : nat) : list Z := esc (take n l) ++ (if (n <? length l)%nat then lit "..." else []).

(** Writing the bytes of one character. *)
Fixpoint put_all (l : list Z) (pos : nat) : ST out unit :=
  match l with [] => ret tt | c :: l => let! _ := put pos c in put_all l (S pos) end.
Lemma put_all_run l pos o : (pos + length l <= size o)%nat -> exists o', put_all l pos o = Ret (tt, o') /\ wrote_raw pos l o o'.
Proof.
  revert pos o. induction l as [|c l IH]; intros pos o H; cbn [put_all length] in *; [exists o; split; [done|apply wrote_raw_nil]|].
  unfold bind. rewrite put_run by lia. cbn [run_bind]. destruct (IH (S pos) (mkOut (<[pos := c]> (cells o)) (size o))) as (o' & E & W); [cbn; lia|].
  exists o'. split; [done|]. apply (wrote_raw_app pos [c] l _ _ _ (wrote_raw_put pos c o)). cbn [length]. by rewrite Nat.add_1_r.
Qed.
Lemma escape_step n c k pos max o : (pos + 2 < max)%nat ->
  escape_loop (S n) (c :: k) pos max o = (let! _ := put_all (esc1 c) pos in escape_loop n k (pos + length (esc1 c)) max) o.
Proof.
  intros H. cbn [escape_loop]. destruct (Nat.ltb_spec (pos + 2) max); [|lia]. unfold esc1.
  assert (two : forall a b, (let! _ := put pos a in let! _ := put (S pos) b in escape_loop n k (S (S pos)) max) o = (let! _ := put_all [a; b] pos in escape_loop n k (pos + length [a; b]) max) o).
  { intros a b. cbn [put_all length]. unfold bind, ret. destruct (put pos a o) as [[u o1]| |]; cbn [run_bind]; [|done|done].
    destruct (put (S pos) b o1) as [[u2 o2]| |]; cbn [run_bind]; [|done|done]. f_equal. lia. }
  destruct (_ || _); [apply two|]. destruct (c =? 10); [apply two|]. destruct (c =? 9); [apply two|]. destruct (c <? 32).
  - cbn [put_all length]. unfold bind, ret. cbn [run_bind]. f_equal. lia.
  - cbn [put_all length]. unfold bind, ret. destruct (put pos c o) as [[u o1]| |]; cbn [run_bind]; [|done|done]. f_equal. lia.
Qed.
Lemma esc1_length c : (length (esc1 c) <= 2)%nat.
Proof. unfold esc1. repeat case_match; cbn; lia. Qed.
Lemma escape_exact n l pos max o : (pos + length (esc (take n l)) + 2 < max <= size o)%nat ->
  exists o', escape_loop n l pos max o = Ret ((pos + length (esc (take n l)))%nat, drop n l, o') /\ wrote_raw pos (esc (take n l)) o o'.
Proof.
  revert l pos o. induction n as [|n IH]; intros [|c k] pos o H; cbn [take] in *.
  1-3: (exists o; split; [unfold esc; cbn; unfold ret; by rewrite Nat.add_0_r|apply wrote_raw_nil]).
  change (esc (c :: take n k)) with (esc1 c ++ esc (take n k)) in *. rewrite length_app in *. rewrite escape_step by lia.
  destruct (put_all_run (esc1 c) pos o ltac:(lia)) as (o1 & E1 & W1). unfold bind. rewrite E1. cbn [run_bind].
  destruct (IH k (pos + length (esc1 c))%nat o1) as (o' & E & W); [rewrite (proj1 W1); lia|]. exists o'. rewrite E.
  split; [do 3 f_equal; lia|]. by eapply wrote_raw_app.
Qed.
Lemma escape_stays n l pos max o (k : nat * list Z -> ST out nat) : (pos < max <= size o)%nat ->
  (forall p1 rest o1, (pos <= p1 < max)%nat -> size o1 = size o -> stays p1 max o1 (k (p1, rest) o1)) ->
  stays pos max o (bind (escape_loop n l pos max) k o).
Proof.
  revert l pos o. induction n as [|n IH]; intros [|c l] pos o H Hk.
  1-3: (unfold bind, escape_loop, ret; cbn [run_bind]; apply Hk; [lia|done]).
  destruct (Nat.ltb_spec (pos + 2) max) as [L|L].
  2: { unfold bind. cbn [escape_loop]. destruct (Nat.ltb_spec (pos + 2) max); [lia|]. unfold ret. cbn [run_bind]. apply Hk; [lia|done]. }
  assert (E : bind (escape_loop (S n) (c :: l) pos max) k o = (let! _ := put_all (esc1 c) pos in bind (escape_loop n l (pos + length (esc1 c)) max) k) o).
  { unfold bind at 1. rewrite escape_step by done. unfold bind. by destruct (put_all _ _ _) as [[? ?]| |]. }
  rewrite E. pose proof (esc1_length c). destruct (put_all_run (esc1 c) pos o ltac:(lia)) as (o1 & E1 & S1 & W1).
  eapply (stays_bind _ _ _ _ (pos + length (esc1 c))); [exact E1|lia|done| |].
  - intros i Hi. rewrite W1. split_ltb; try lia; done.
  - apply IH; [lia|]. intros p1 rest o2 Hp Hs. apply Hk; [lia|congruence].
Qed.

Lemma close_exact pos max o : (pos + 1 < max <= size o)%nat -> exists o', close_quote pos max o = Ret (S pos, o') /\ wrote pos [34] o o'.
Proof.
  intros H. unfold close_quote. destruct (Nat.ltb_spec (pos + 1) max); [|lia]. unfold terminate, bind, ret. rewrite put_run by lia. cbn [run_bind].
  rewrite put_run by (cbn; lia). cbn [run_bind]. eexists. split; [done|]. pose proof (wrote_end pos [34] o _ (wrote_raw_put pos 34 o)) as W.
  cbn [length] in W. by rewrite Nat.add_1_r in W.
Qed.
Lemma close_stays pos max o : (pos < max <= size o)%nat -> stays pos max o (close_quote pos max o).
Proof.
  intros H. unfold close_quote. destruct (Nat.ltb_spec (pos + 1) max); [|apply terminate_stays; lia].
  apply (stays_put _ _ _ _ _ _ (S pos)); [lia..|]. apply terminate_stays. cbn. lia.
Qed.

Lemma take_all_ {A} (l : list A) : take (length l) l = l.
Proof. apply take_ge. lia. Qed.
#[export] Instance renders_json_str s : Renders (bb_append_json_str s) (json_text (nul s)).
Proof.
  split; intros pos max o H; unfold bb_append_json_str; destruct (Nat.leb_spec max (pos + 1)).
  - unfold json_text in H. rewrite !length_app in H. cbn in H. lia.
  - unfold json_text in *. rewrite !length_app in *. cbn [length] in *. unfold bind at 1. rewrite put_run by lia. cbn [run_bind].
    destruct (escape_exact (length (nul s)) (nul s) (S pos) max (mkOut (<[pos := 34]> (cells o)) (size o))) as (o1 & E1 & W1); [rewrite take_all_; cbn; lia|].
    rewrite take_all_ in *. unfold bind. rewrite E1. cbn [run_bind fst].
    destruct (close_exact (S pos + length (esc (nul s))) max o1) as (o2 & E2 & W2); [rewrite (proj1 W1); cbn; lia|].
    exists o2. rewrite E2. split; [do 2 f_equal; lia|]. apply (wrote_of_raw pos [34] _ o _ o2 (wrote_raw_put pos 34 o)). cbn [length]. rewrite Nat.add_1_r.
    by eapply wrote_of_raw.
  - apply stays_ret. lia.
  - apply (stays_put _ _ _ _ _ _ (S pos)); [lia..|]. apply escape_stays; [cbn; lia|]. intros p1 rest o1 Hp Hs. cbn [fst]. apply close_stays. cbn in Hs. lia.
Qed.
Lemma drop_nil_length {A} n (l : list A) : (match drop n l with [] => true | _ => false end) = negb (n <? length l)%nat.
Proof.
  destruct (Nat.ltb_spec n (length l)).
  - destruct (drop n l) eqn:E; [|done]. apply (f_equal length) in E. rewrite length_drop in E. cbn in E. lia.
  - by rewrite drop_ge.
Qed.
Lemma terminate_exact pos l o o1 : (pos + length l < size o)%nat -> wrote_raw pos l o o1 ->
  exists o', terminate (pos + length l) o1 = Ret ((pos + length l)%nat, o') /\ wrote pos l o o'.
Proof.
  intros H W. unfold terminate, bind, ret. rewrite put_run by (rewrite (proj1 W); lia). cbn [run_bind]. eexists. split; [done|]. by apply wrote_end.
Qed.
Lemma wrote_raw_of pos l o o' : wrote pos l o o' -> (pos + length l < size o)%nat -> exists o'', terminate (pos + length l) o' = Ret ((pos + length l)%nat, o'') /\ wrote pos l o o''.
Proof.
  intros [S W] H. unfold terminate, bind, ret. rewrite put_run by (rewrite S; lia). cbn [run_bind]. eexists. split; [done|]. split; [done|]. intros i. cbn [cells].
  destruct (Nat.eq_dec i (pos + length l)%nat) as [->|N]; [rewrite lookup_insert_eq; split_ltb; try lia; done|rewrite lookup_insert_ne by lia; apply W].
Qed.
#[export] Instance renders_esc_n s n : Renders (bb_append_esc_n s n) (esc_n_text (nul s) n).
Proof.
  split; intros pos max o H; unfold bb_append_esc_n.
  - unfold esc_n_text in *. rewrite length_app in *. destruct (escape_exact n (nul s) pos max o ltac:(lia)) as (o1 & E1 & W1).
    unfold bind at 1. rewrite E1. cbn [run_bind]. pose proof (drop_nil_length n (nul s)) as D. destruct (n <? length (nul s))%nat; destruct (drop n (nul s)); try done.
    + destruct (renders_exact (e := bb_append (Some (lit "..."))) (pos + length (esc (take n (nul s)))) max o1) as (o2 & E2 & W2); [rewrite (proj1 W1); lia|].
      unfold bind. rewrite E2. cbn [run_bind]. pose proof (wrote_of_raw _ _ _ _ _ _ W1 W2) as W3.
      destruct (wrote_raw_of pos _ o o2 W3) as (o3 & E3 & W4); [rewrite length_app; lia|]. exists o3. rewrite length_app, Nat.add_assoc in *. rewrite E3. done.
    + unfold bind, ret. cbn [run_bind]. rewrite app_nil_r, Nat.add_0_r. apply terminate_exact; [lia|done].
  - apply escape_stays; [lia|]. intros p1 rest o1 Hp Hs. destruct rest as [|c rest].
    + unfold bind, ret. cbn [run_bind]. apply terminate_stays. lia.
    + apply stays_then; [apply renders_inside; lia|]. intros p2 o2 Hp2 Hs2. apply terminate_stays. lia.
Qed.
Definition json_n_text (l : list Z) (n : nat) : list Z := [34] ++ esc_n_text l n ++ [34].
#[export] Instance renders_json_str_n s n : Renders (bb_append_json_str_n s n) (json_n_text (nul s) n).
Proof.
  split; intros pos max o H; unfold bb_append_json_str_n; destruct (Nat.leb_spec max (pos + 1)).
  - unfold json_n_text in H. rewrite !length_app in H. cbn in H. lia.
  - unfold json_n_text in *. rewrite !length_app in *. cbn [length] in *. unfold bind at 1. rewrite put_run by lia. cbn [run_bind].
    destruct (Nat.ltb_spec (S pos + 2) max); [|lia].
    destruct (renders_exact (e := bb_append_esc_n s n) (S pos) (max - 1) (mkOut (<[pos := 34]> (cells o)) (size o))) as (o1 & E1 & W1); [cbn; lia|].
    unfold bind. rewrite E1. cbn [run_bind]. destruct (close_exact (S pos + length (esc_n_text (nul s) n)) max o1) as (o2 & E2 & W2); [rewrite (proj1 W1); cbn; lia|].
    exists o2. rewrite E2. split; [do 2 f_equal; lia|]. apply (wrote_of_raw pos [34] _ o _ o2 (wrote_raw_put pos 34 o)). cbn [length]. rewrite Nat.add_1_r.
    by eapply wrote_app.
  - apply stays_ret. lia.
  - apply (stays_put _ _ _ _ _ _ (S pos)); [lia..|]. destruct (Nat.ltb_spec (S pos + 2) max) as [L|L].
    + destruct (renders_inside (e := bb_append_esc_n s n) (S pos) (max - 1) (mkOut (<[pos := 34]> (cells o)) (size o))) as (p1 & o1 & E1 & Hp & Hs & Hc); [cbn; lia|].
      eapply (stays_bind _ _ _ _ p1); [exact E1|lia|done|intros i Hi; apply Hc; lia|]. apply close_stays. cbn in Hs. lia.
    + (* no room to escape: the inner call stops at once *)
      assert (E1 : exists o1, bb_append_esc_n s n (S pos) (S pos) (mkOut (<[pos := 34]> (cells o)) (size o)) = Ret (S pos, o1) /\ size o1 = size o /\
        forall i, (i < S pos \/ max <= i)%nat -> cells o1 !! i = (<[pos := 34]> (cells o)) !! i).
      { unfold bb_append_esc_n, bind. set (o0 := mkOut _ _).
        assert (E0 : exists rest, escape_loop n (nul s) (S pos) (S pos) o0 = Ret (S pos, rest, o0)).
        { destruct n, (nul s) as [|c k]; cbn [escape_loop]; try (eexists; reflexivity). destruct (Nat.ltb_spec (S pos + 2) (S pos)); [lia|]. by eexists. }
        destruct E0 as [rest ->]. cbn [run_bind]. assert (Skip : bb_append (Some (lit "...")) (S pos) (S pos) o0 = Ret (S pos, o0)) by (unfold bb_append; destruct (Nat.leb_spec (S pos) (S pos)); [done|lia]).
        destruct rest as [|c rest]; [|rewrite Skip]; unfold ret; cbn [run_bind].
        all: unfold terminate, bind, ret; rewrite put_run by (cbn; lia); eexists; (split; [reflexivity|]); (split; [done|]); intros i Hi; cbn; by rewrite lookup_insert_ne by lia. }
      destruct E1 as (o1 & E1 & Hs & Hc). eapply (stays_bind _ _ _ _ (S pos)); [exact E1|lia|done|intros i Hi; apply Hc; lia|]. apply close_stays. lia.
Qed.

(** ** The report *)

#[export] Instance renders_lit s : Renders (lit_ s) (lit s).
Proof. apply renders_append. Qed.
Lemma renders_ext e f l : (forall pos max o, e pos max o = f pos max o) -> Renders e l -> Renders f l.
Proof. intros E [X I]. split; intros pos max o H; rewrite <- E; [by apply X|by apply I]. Qed.
Lemma seq_assoc e f g pos max o : ((e >>> f) >>> g) pos max o = (e >>> f >>> g) pos max o.
Proof. unfold seq_emit, bind. destruct (e pos max o) as [[p o1]| |]; cbn [run_bind]; [|done|done]. by destruct (f p max o1) as [[p2 o2]| |]. Qed.
Fixpoint each_text (k lo : nat) (txt : nat -> bool -> list Z) : list Z :=
  match k with O => [] | S k => txt lo (k =? 0)%nat ++ each_text k (S lo) txt end.
Lemma renders_each k lo e l emit txt : Renders e l -> (forall i b, Renders (emit i b) (txt i b)) ->
  Renders (e >>> emit_each k lo emit) (l ++ each_text k lo txt).
Proof.
  intros R T. revert lo e l R. induction k as [|k IH]; intros lo e l R; cbn [emit_each each_text].
  - rewrite app_nil_r. eapply renders_ext; [|exact R]. intros pos max o. unfold seq_emit, bind, ret. by destruct (e pos max o) as [[p o1]| |].
  - rewrite app_assoc. eapply renders_ext; [intros; apply seq_assoc|]. apply IH. by apply renders_seq.
Qed.
(** An array of rows between its brackets. *)
Definition rows_text (k : nat) (txt : nat -> bool -> list Z) : list Z := lit "[~" ++ each_text k 0 txt ++ lit "  ]".
Lemma renders_rows k emit txt : (forall i b, Renders (emit i b) (txt i b)) -> Renders (lit_ "[~" >>> emit_each k 0 emit >>> lit_ "  ]") (rows_text k txt).
Proof.
  intros T. unfold rows_text. rewrite app_assoc. eapply renders_ext; [intros; apply seq_assoc|]. apply renders_seq; [|apply _]. apply renders_each; [apply _|done].
Qed.

Definition event_text (ev : BlackboxFlightEvent) (last : bool) : list Z :=
  lit "    {`seq`: " ++ uint_text (e_seq ev) ++ lit ", `timestamp_us`: " ++ uint_text (timestamp_us ev) ++
  lit ", `category`: " ++ json_text (category ev) ++ lit ", `action`: " ++ json_text (action ev) ++
  lit ", `detail`: " ++ json_text (detail ev) ++ lit (if last then "}~" else "},~").
#[export] Instance renders_event ev last : Renders (emit_event ev last) (event_text ev last).
Proof. unfold emit_event, event_text. repeat (apply renders_seq; [apply _|]). apply _. Qed.
Definition events_text (r : BlackboxRingBuffer) : list Z := rows_text (ring_total r) (fun i last => event_text (ring_nth r i) last).
#[export] Instance renders_events r : Renders (bb_format_events r) (events_text r).
Proof. apply renders_rows. intros. apply _. Qed.
Definition frame_text (frames : list Z) (i : nat) (last : bool) : list Z :=
  lit "    {`frame`: " ++ uint_text (Z.of_nat i) ++ lit ", `address`: `" ++ hex_text (nth i frames 0) ++ lit (if last then "`}~" else "`},~").
#[export] Instance renders_frame frames i last : Renders (emit_frame frames i last) (frame_text frames i last).
Proof. unfold emit_frame, frame_text. repeat (apply renders_seq; [apply _|]). apply _. Qed.
Definition stack_text (frames : list Z) : list Z := rows_text (length frames) (frame_text frames).
#[export] Instance renders_stack frames : Renders (bb_format_stack frames) (stack_text frames).
Proof. apply renders_rows. intros. apply _. Qed.

Definition tail_text (frames : list Z) (r : BlackboxRingBuffer) : list Z :=
  stack_text frames ++ lit ",~  `flight_events`: " ++ events_text r ++ lit ",~  `flight_log`: " ++ events_text r ++ lit "~}~".
Definition coord_text (faddr : Z) : list Z := lit "fault@" ++ hex_text faddr.
Definition autopsy_text (sig faddr : Z) (frames : list Z) (r : BlackboxRingBuffer) : list Z :=
  lit "{~  `schema_version`: `1.0.0`,~  `crash_type`: `SIGNAL`,~" ++
  lit "  `crash_signal`: " ++ uint_text (u64 sig) ++
  lit ",~  `signal_name`: " ++ json_text (lit (sig_name sig)) ++
  lit ",~  `signal`: " ++ json_text (lit (sig_name sig)) ++
  lit ",~  `fault_address`: `" ++ hex_text faddr ++
  lit "`,~  `failure_coordinate`: " ++ json_text (if negb (sig =? 0) then coord_text faddr else lit "unknown:0:0:unknown") ++
  lit ",~  `root_cause`: " ++ json_text (lit (sig_cause sig faddr)) ++
  lit ",~  `remediation`: " ++ json_text (lit (sig_remedy sig faddr)) ++
  lit ",~  `call_stack`: " ++ tail_text frames r.
Definition trap_text (cap fn file : list Z) (line : Z) (frames : list Z) (r : BlackboxRingBuffer) : list Z :=
  lit "{~  `schema_version`: `1.0.0`,~  `crash_type`: `CAPABILITY_VIOLATION`,~" ++
  lit "  `crash_signal`: 0,~  `signal_name`: `NONE`,~  `signal`: `NONE`,~" ++
  lit "  `fault_address`: `0x0`,~  `failure_coordinate`: `" ++
  esc_n_text file 256 ++ lit ":" ++ uint_text (u64 (if 0 <? line then line else 0)) ++
  lit ":0:" ++ esc_n_text fn 256 ++
  lit "`,~  `root_cause`: `CAPABILITY_TRAP_VIOLATION`,~" ++
  lit "  `remediation`: `Grant required capability token before invoking restricted operation.`,~" ++
  lit "  `capability`: {~    `token_name`: " ++ json_n_text cap 256 ++
  lit ",~    `operation`: " ++ json_n_text fn 256 ++
  lit "~  },~  `call_stack`: " ++ tail_text frames r.
#[export] Instance renders_tail frames r : Renders (emit_tail frames r) (tail_text frames r).
Proof. unfold emit_tail, tail_text. repeat (apply renders_seq; [apply _|]). apply _. Qed.
#[export] Instance renders_autopsy sig faddr frames r :
  Renders (emit_autopsy sig faddr (coord_text faddr) frames r) (autopsy_text sig faddr frames r).
Proof.
  unfold emit_autopsy, autopsy_text. repeat (apply renders_seq; [apply _|]). apply _.
Qed.
#[export] Instance renders_trap cap fn file line frames r :
  Renders (emit_trap cap fn file line frames r) (trap_text (nul (or_unknown cap)) (nul (or_unknown fn)) (nul (or_unknown file)) line frames r).
Proof. unfold emit_trap, trap_text. repeat (apply renders_seq; [apply _|]). apply _. Qed.

(** ** Sizes *)

Lemma length_uint_digits f v : (length (uint_digits f v) <= f)%nat.
Proof. revert v. induction f as [|f IH]; intros v; cbn; [lia|]. destruct (0 <? v); cbn; [|lia]. specialize (IH (v / 10)). lia. Qed.
Lemma length_hex_digits f v : (length (hex_digits f v) <= f)%nat.
Proof. revert v. induction f as [|f IH]; intros v; cbn; [lia|]. destruct (0 <? v); cbn; [|lia]. specialize (IH (Z.shiftr v 4)). lia. Qed.
Lemma length_uint_text v : (length (uint_text v) <= 24)%nat.
Proof. unfold uint_text. rewrite length_rev. destruct (v =? 0); [cbn; lia|apply length_uint_digits]. Qed.
Lemma length_hex_text v : (length (hex_text v) <= 22)%nat.
Proof. unfold hex_text. rewrite length_app, length_rev. destruct (v =? 0); [cbn; lia|]. pose proof (length_hex_digits 20 v). cbn [length lit] in *. change (length (lit "0x")) with 2%nat. lia. Qed.
Lemma length_esc l : (length (esc l) <= 2 * length l)%nat.
Proof. induction l as [|c l IH]; [done|]. change (esc (c :: l)) with (esc1 c ++ esc l). rewrite length_app. cbn. pose proof (esc1_length c). lia. Qed.
Lemma length_json_text l : (length (json_text l) <= 2 + 2 * length l)%nat.
Proof. unfold json_text. rewrite !length_app. cbn. pose proof (length_esc l). lia. Qed.
Lemma length_esc_n l n : (length (esc_n_text l n) <= 2 * n + 3)%nat.
Proof.
  unfold esc_n_text. rewrite length_app. pose proof (length_esc (take n l)) as H. rewrite length_take in H.
  destruct (_ <? _)%nat; [change (length (lit "...")) with 3%nat|cbn [length]]; lia.
Qed.
Lemma length_each k lo txt n : (forall i b, (length (txt i b) <= n)%nat) -> (length (each_text k lo txt) <= k * n)%nat.
Proof. intros H. revert lo. induction k as [|k IH]; intros lo; cbn; [lia|]. rewrite length_app. specialize (H lo (k =? 0)%nat). specialize (IH (S lo)). lia. Qed.
Ltac lits := repeat match goal with |- context [length (lit ?s)] => let n := eval vm_compute in (length (lit s)) in change (length (lit s)) with n end.

(** The strings in the ring have the sizes of their arrays. *)
Definition event_ok (ev : BlackboxFlightEvent) : Prop := (length (category ev) <= 31 /\ length (action ev) <= 31 /\ length (detail ev) <= 63)%nat.
Definition ring_ok (r : BlackboxRingBuffer) : Prop := Forall event_ok (events r).
Lemma ring0_ok : ring_ok ring0.
Proof. unfold ring_ok, ring0. cbn [events]. apply List.Forall_forall. intros e H%repeat_spec. subst e. unfold event_ok. cbn. lia. Qed.
Lemma ring_store_ok now c a d r : ring_ok r -> ring_ok (ring_store now c a d r).
Proof. intros H. unfold ring_ok, ring_store. cbn [events]. apply Forall_insert; [done|]. unfold event_ok. cbn [category action detail]. rewrite !length_take. lia. Qed.
Lemma init_ok now s : ring_ok (s_ring s) -> ring_ok (s_ring (blackbox_init now s)).
Proof. intros H. unfold blackbox_init. destruct (s_initialized s); [done|]. by apply ring_store_ok. Qed.
Lemma record_ok now c a d s : ring_ok (s_ring s) -> ring_ok (s_ring (blackbox_record now c a d s)).
Proof. intros H. unfold blackbox_record. by apply ring_store_ok, init_ok. Qed.
Lemma init_buf now s : s_autopsy_buf (blackbox_init now s) = s_autopsy_buf s.
Proof. unfold blackbox_init. by destruct (s_initialized s). Qed.

Lemma nth_ok r i : ring_ok r -> event_ok (ring_nth r i).
Proof. intros H. unfold ring_nth. match goal with |- event_ok (nth ?n ?l ?d) => destruct (nth_in_or_default n l d) as [I| ->] end; [|unfold event_ok; cbn; lia].
  unfold ring_ok in H. rewrite List.Forall_forall in H. by apply H. Qed.
Lemma length_event_text ev b : event_ok ev -> (length (event_text ev b) <= 375)%nat.
Proof.
  intros (H1 & H2 & H3). unfold event_text. rewrite !length_app. pose proof (length_uint_text (e_seq ev)). pose proof (length_uint_text (timestamp_us ev)).
  pose proof (length_json_text (category ev)). pose proof (length_json_text (action ev)). pose proof (length_json_text (detail ev)).
  destruct b; lits; lia.
Qed.
Lemma total_le r : (ring_total r <= 64)%nat.
Proof. unfold ring_total, BLACKBOX_RING_CAPACITY. destruct (Z.ltb_spec (count r) (Z.of_nat 64)); lia. Qed.
Lemma length_rows k txt n : (forall i b, (length (txt i b) <= n)%nat) -> (length (rows_text k txt) <= 5 + k * n)%nat.
Proof. intros H. unfold rows_text. rewrite !length_app. pose proof (length_each k 0 txt n H). lits. lia. Qed.
Lemma length_events_text r : ring_ok r -> Z.of_nat (length (events_text r)) <= 24005.
Proof.
  intros H. unfold events_text. pose proof (length_rows (ring_total r) (fun i last => event_text (ring_nth r i) last) 375) as L.
  pose proof (total_le r). assert (ring_total r * 375 <= 64 * 375)%nat by (apply Nat.mul_le_mono_r; lia).
  specialize (L (fun i b => length_event_text _ b (nth_ok r i H))). lia.
Qed.
Lemma length_stack_text frames : (length frames <= 32)%nat -> Z.of_nat (length (stack_text frames)) <= 2565.
Proof.
  intros H. unfold stack_text. pose proof (length_rows (length frames) (frame_text frames) 80) as L.
  assert (length frames * 80 <= 32 * 80)%nat by (apply Nat.mul_le_mono_r; lia).
  enough (forall i b, (length (frame_text frames i b) <= 80)%nat) as X by (specialize (L X); lia).
  intros i b. unfold frame_text. rewrite !length_app. pose proof (length_uint_text (Z.of_nat i)). pose proof (length_hex_text (nth i frames 0)). destruct b; lits; lia.
Qed.
Lemma length_tail_text frames r : (length frames <= 32)%nat -> ring_ok r -> Z.of_nat (length (tail_text frames r)) <= 50700.
Proof.
  intros Hf Hr. unfold tail_text. rewrite !length_app. pose proof (length_stack_text frames Hf). pose proof (length_events_text r Hr). lits. lia.
Qed.
Lemma length_texts sig faddr : (length (lit (sig_name sig)) <= 7 /\ length (lit (sig_cause sig faddr)) <= 24 /\ length (lit (sig_remedy sig faddr)) <= 52)%nat.
Proof. unfold sig_name, sig_cause, sig_remedy. repeat case_match; lits; lia. Qed.
Lemma length_autopsy sig faddr frames r : (length frames <= 32)%nat -> ring_ok r -> Z.of_nat (length (autopsy_text sig faddr frames r)) <= 51800.
Proof.
  intros Hf Hr. unfold autopsy_text. rewrite !length_app. pose proof (length_tail_text frames r Hf Hr). destruct (length_texts sig faddr) as (T1 & T2 & T3).
  pose proof (length_json_text (lit (sig_name sig))). pose proof (length_json_text (lit (sig_cause sig faddr))). pose proof (length_json_text (lit (sig_remedy sig faddr))).
  pose proof (length_uint_text (u64 sig)). pose proof (length_hex_text faddr).
  assert (length (json_text (if negb (sig =? 0)%Z then coord_text faddr else lit "unknown:0:0:unknown")) <= 58)%nat.
  { destruct (negb _); [|vm_compute; lia]. pose proof (length_json_text (coord_text faddr)) as L. unfold coord_text in *. rewrite length_app in L. revert L. lits. lia. }
  lits. lia.
Qed.
Lemma length_trap cap fn file line frames r : (length frames <= 32)%nat -> ring_ok r -> Z.of_nat (length (trap_text cap fn file line frames r)) <= 53800.
Proof.
  intros Hf Hr. unfold trap_text, json_n_text. rewrite !length_app. pose proof (length_tail_text frames r Hf Hr).
  pose proof (length_esc_n cap 256). pose proof (length_esc_n fn 256). pose proof (length_esc_n file 256). pose proof (length_uint_text (u64 (if 0 <? line then line else 0))).
  lits. cbn [length]. lia.
Qed.

(** ** The fault coordinate *)

Lemma read_str_wrote l fuel pos o' : Forall (fun c => c <> 0) l -> (length l < fuel)%nat ->
  (forall i, (i < length l)%nat -> cells o' !! (pos + i)%nat = l !! i) -> cells o' !! (pos + length l)%nat = Some 0 -> read_str fuel pos o' = l.
Proof.
  intros N. revert fuel pos. induction N as [|c l Hc N IH]; intros [|fuel] pos Hf H0 Hend; cbn [length] in *; try lia; cbn [read_str].
  - rewrite Nat.add_0_r in Hend. by rewrite Hend.
  - pose proof (H0 0%nat ltac:(lia)) as E. rewrite Nat.add_0_r in E. rewrite E. cbn. apply Z.eqb_neq in Hc. rewrite Hc. f_equal.
    apply IH; [lia| |by rewrite Nat.add_succ_comm]. intros i Hi. pose proof (H0 (S i) ltac:(lia)) as HS. change ((c :: l) !! S i) with (l !! i) in HS. by rewrite <- HS, Nat.add_succ_comm.
Qed.
Lemma hex_char_range n : 0 <= n < 16 -> 48 <= hex_char n < 128.
Proof.
  intros H. assert (A : forallb (fun k => (48 <=? hex_char (Z.of_nat k)) && (hex_char (Z.of_nat k) <? 128)) (seq 0 16) = true) by (vm_compute; reflexivity).
  rewrite forallb_forall in A. specialize (A (Z.to_nat n) ltac:(apply in_seq; lia)). rewrite Z2Nat.id in A by lia. lia.
Qed.
Lemma land_15 v : 0 <= Z.land v 0xf < 16.
Proof. change 0xf with (2 ^ 4 - 1). rewrite land_mod by lia. apply Z.mod_pos_bound. lia. Qed.
Lemma hex_digits_ascii f v : Forall (fun c => 48 <= c < 128) (hex_digits f v).
Proof.
  revert v. induction f as [|f IH]; intros v; cbn [hex_digits]; [constructor|]. destruct (0 <? v); constructor; [|apply IH]. apply hex_char_range, land_15.
Qed.
Lemma hex_text_ascii v : Forall (fun c => 48 <= c < 128) (hex_text v).
Proof.
  unfold hex_text. apply Forall_app. split; [repeat constructor; vm_compute; try discriminate; lia|]. apply Forall_rev.
  destruct (v =? 0); [repeat constructor; lia|apply hex_digits_ascii].
Qed.
Lemma coordinate_run faddr : coordinate faddr = Ret (coord_text faddr).
Proof.
  assert (L : (length (coord_text faddr) <= 28)%nat) by (unfold coord_text; rewrite length_app; pose proof (length_hex_text faddr); lits; lia).
  unfold coordinate. destruct (renders_exact (e := lit_ "fault@" >>> bb_append_hex faddr) (l := coord_text faddr) 0 48 (mkOut ∅ 48)) as (o' & E & W); [cbn [size]; lia|].
  rewrite E. cbn [run_bind snd]. f_equal. destruct W as [_ W]. apply (read_str_wrote _ _ _ o').
  - unfold coord_text. apply Forall_app. split; [repeat constructor; vm_compute; discriminate|]. eapply Forall_impl; [apply hex_text_ascii|]. cbn. lia.
  - lia.
  - intros i Hi. rewrite W. split_ltb; try lia. f_equal. lia.
  - rewrite W. split_ltb; try lia; done.
Qed.

(** ** The report is complete *)

(** What is in the buffer after [in_buf] on a text that fits. *)
Lemma in_buf_run e l s : Renders e l -> (length l + 2 < AUTOPSY)%nat -> size (s_autopsy_buf s) = AUTOPSY ->
  exists o, in_buf e s = Ret (length l, with_buf o s) /\ size o = AUTOPSY /\ read_cells (length l) o = l.
Proof.
  intros R Hl Hs. destruct (renders_exact (e := e) 0 AUTOPSY (s_autopsy_buf s)) as (o & E & W); [lia|]. exists o. unfold in_buf. rewrite E. cbn [run_bind fst snd].
  split; [done|]. split; [by rewrite (proj1 W)|]. destruct W as [_ W]. unfold read_cells.
  apply list_eq. intros i. rewrite list_lookup_fmap. destruct (Nat.lt_ge_cases i (length l)) as [Hi|Hi].
  - rewrite lookup_seq_lt by lia. cbn [fmap option_fmap option_map Nat.add]. rewrite W. split_ltb; try lia. rewrite Nat.sub_0_r. by destruct (lookup_lt_is_Some_2 l i Hi) as [c ->].
  - rewrite lookup_seq_ge by lia. by rewrite lookup_ge_None_2 by lia.
Qed.
Lemma fits_autopsy (l : list Z) : Z.of_nat (length l) <= 60000 -> (length l + 2 < AUTOPSY)%nat.
Proof. unfold AUTOPSY. lia. Qed.
Definition buf_ok (s : bstate) : Prop := size (s_autopsy_buf s) = AUTOPSY /\ ring_ok (s_ring s).
Lemma record_buf now c a d s : s_autopsy_buf (blackbox_record now c a d s) = s_autopsy_buf s.
Proof. unfold blackbox_record, with_ring. cbn [s_autopsy_buf]. apply init_buf. Qed.

Section complete.
Context (now : Z -> Z) (frames : list Z) (few : (length frames <= 32)%nat) (opened : bool) (answers : list (option Z)).

Lemma dump_run sig si s : buf_ok s -> exists o,
  let s0 := blackbox_init now s in let t := autopsy_text sig (match si with Some a => a | None => 0 end) frames (s_ring s0) in
  blackbox_dump_autopsy now frames opened answers sig si s = Ret (bb_write_file opened answers (length t) (with_buf o s0)) /\
  size o = AUTOPSY /\ read_cells (length t) o = t.
Proof.
  intros [Hs Hr]. set (s0 := blackbox_init now s). set (fa := match si with Some a => a | None => 0 end).
  pose proof (length_autopsy sig fa frames (s_ring s0) few (init_ok now s Hr)) as L.
  destruct (in_buf_run _ _ s0 (renders_autopsy sig fa frames (s_ring s0)) (fits_autopsy _ (Z.le_trans _ _ 60000 L ltac:(lia)))) as (o & E & So & C); [by unfold s0; rewrite init_buf|].
  exists o. cbv zeta. split; [|done]. unfold blackbox_dump_autopsy. fold s0 fa. rewrite coordinate_run. cbn [run_bind]. rewrite E. done.
Qed.
Lemma trap_run cap fn file line s : buf_ok s -> exists o,
  let s0 := blackbox_record now (Some (lit "capability")) (Some (lit "violation")) (or_unknown cap) s in
  let t := trap_text (nul (or_unknown cap)) (nul (or_unknown fn)) (nul (or_unknown file)) line frames (s_ring s0) in
  blackbox_trap_cap now frames opened answers cap fn file line s = Ret (bb_write_file opened answers (length t) (with_buf o s0)) /\
  size o = AUTOPSY /\ read_cells (length t) o = t.
Proof.
  intros [Hs Hr]. set (s0 := blackbox_record _ _ _ _ s).
  pose proof (length_trap (nul (or_unknown cap)) (nul (or_unknown fn)) (nul (or_unknown file)) line frames (s_ring s0) few (record_ok now _ _ _ s Hr)) as L.
  destruct (in_buf_run _ _ s0 (renders_trap cap fn file line frames (s_ring s0)) (fits_autopsy _ (Z.le_trans _ _ 60000 L ltac:(lia)))) as (o & E & So & C); [by unfold s0; rewrite record_buf|].
  exists o. cbv zeta. split; [|done]. unfold blackbox_trap_cap. fold s0. rewrite E. done.
Qed.
(** The file holds what [write] took of the text. *)
Lemma file_of_write t o s : read_cells (length t) o = t ->
  file_bytes (bb_write_file true answers (length t) (with_buf o s)) = take (Z.to_nat (write_loop answers 0 (Z.of_nat (length t)))) t.
Proof. intros C. unfold bb_write_file. cbn [file_bytes with_file s_autopsy_buf with_buf]. by rewrite C. Qed.
End complete.

(** Reports are never cut short.  Whatever was recorded and whatever the
    arguments, the report of a signal and of a capability violation is written
    to the 65536-byte buffer without touching a byte outside it, and the file
    gets the whole text: all of it when the writes took all of it, otherwise
    as much as they took.  The ring and the buffer keep their sizes. *)
Theorem report_is_complete now frames answers s : (length frames <= 32)%nat -> buf_ok s ->
  (forall sig si, let t := autopsy_text sig (match si with Some a => a | None => 0 end) frames (s_ring (blackbox_init now s)) in
    exists s', blackbox_dump_autopsy now frames true answers sig si s = Ret s' /\ buf_ok s' /\ Z.of_nat (length t) < 65535 /\
      file_bytes s' = take (Z.to_nat (write_loop answers 0 (Z.of_nat (length t)))) t) /\
  (forall cap fn file line, let t := trap_text (nul (or_unknown cap)) (nul (or_unknown fn)) (nul (or_unknown file)) line frames
                                       (s_ring (blackbox_record now (Some (lit "capability")) (Some (lit "violation")) (or_unknown cap) s)) in
    exists s', blackbox_trap_cap now frames true answers cap fn file line s = Ret s' /\ buf_ok s' /\ Z.of_nat (length t) < 65535 /\
      file_bytes s' = take (Z.to_nat (write_loop answers 0 (Z.of_nat (length t)))) t).
Proof.
  intros Hf B. split.
  - intros sig si. destruct (dump_run now frames Hf true answers sig si s B) as (o & E & So & C). destruct B as [_ Hr]. cbv zeta in *.
    eexists. split; [exact E|]. split; [split; [exact So|by apply init_ok]|]. split; [|by apply file_of_write].
    pose proof (length_autopsy sig (match si with Some a => a | None => 0 end) frames _ Hf (init_ok now s Hr)). lia.
  - intros cap fn file line. destruct (trap_run now frames Hf true answers cap fn file line s B) as (o & E & So & C). destruct B as [_ Hr]. cbv zeta in *.
    eexists. split; [exact E|]. split; [split; [exact So|by apply record_ok]|]. split; [|by apply file_of_write].
    pose proof (length_trap (nul (or_unknown cap)) (nul (or_unknown fn)) (nul (or_unknown file)) line frames _ Hf
      (record_ok now (Some (lit "capability")) (Some (lit "violation")) (or_unknown cap) s Hr)). lia.
Qed.

(** * The report is JSON *)

(** RFC 8259, as byte strings: strings, integers, and objects and arrays with
    the white space the report uses.  (Everything this accepts is JSON; bytes
    from 128 on are taken as they are.) *)
Module Json.
Definition ws (l : list Z) : Prop := Forall (fun c => c = 32 \/ c = 9 \/ c = 10 \/ c = 13) l.
Inductive body : list Z -> Prop :=
  | body_nil : body []
  | body_plain c l : 32 <= c -> c <> 34 -> c <> 92 -> body l -> body (c :: l)
  | body_escape c l : In c [34; 92; 47; 98; 102; 110; 114; 116] -> body l -> body (92 :: c :: l).
Definition str (l : list Z) : Prop := exists b, l = [34] ++ b ++ [34] /\ body b.
Definition digit (c : Z) : Prop := 48 <= c < 58.
Definition num (l : list Z) : Prop := l = [48] \/ exists c k, l = c :: k /\ 49 <= c < 58 /\ Forall digit k.
Inductive value : list Z -> Prop :=
  | v_str l : str l -> value l
  | v_num l : num l -> value l
  | v_obj l : pairs l -> value ([123] ++ l ++ [125])
  | v_arr l : elems l -> value ([91] ++ l ++ [93])
with pairs : list Z -> Prop :=
  | pairs_one w1 k w2 v w3 : ws w1 -> str k -> ws w2 -> value v -> ws w3 -> pairs (w1 ++ k ++ [58] ++ w2 ++ v ++ w3)
  | pairs_cons w1 k w2 v w3 l : ws w1 -> str k -> ws w2 -> value v -> ws w3 -> pairs l -> pairs (w1 ++ k ++ [58] ++ w2 ++ v ++ w3 ++ [44] ++ l)
with elems : list Z -> Prop :=
  | elems_none w : ws w -> elems w
  | elems_one w1 v w2 : ws w1 -> value v -> ws w2 -> elems (w1 ++ v ++ w2)
  | elems_cons w1 v w2 l : ws w1 -> value v -> ws w2 -> elems l -> elems (w1 ++ v ++ w2 ++ [44] ++ l).
Definition document (l : list Z) : Prop := exists v w, l = v ++ w /\ value v /\ ws w.
End Json.
Import Json.

Lemma body_app a b : body a -> body b -> body (a ++ b).
Proof. induction 1; intros Hb; cbn; [done|apply body_plain; auto|apply body_escape; auto]. Qed.
Lemma body_esc l : body (esc l).
Proof.
  induction l as [|c l IH]; [constructor|]. change (esc (c :: l)) with (esc1 c ++ esc l). apply body_app; [|done]. unfold esc1.
  destruct (Z.eqb_spec c 34) as [->|]; [apply body_escape; [by left|constructor]|]. destruct (Z.eqb_spec c 92) as [->|]; [apply body_escape; [right; by left|constructor]|].
  cbn [orb]. destruct (Z.eqb_spec c 10); [apply body_escape; [cbn; tauto|constructor]|]. destruct (Z.eqb_spec c 9); [apply body_escape; [cbn; tauto|constructor]|].
  destruct (Z.ltb_spec c 32); [constructor|]. by apply body_plain; [lia|done|done|constructor].
Qed.
Lemma body_forall l : Forall (fun c => 32 <= c /\ c <> 34 /\ c <> 92) l -> body l.
Proof. induction 1 as [|c l (H1 & H2 & H3) _ IH]; [constructor|]. by apply body_plain. Qed.
Lemma str_of_body b : body b -> str ([34] ++ b ++ [34]).
Proof. intros H. by exists b. Qed.
Lemma json_text_str l : str (json_text l).
Proof. apply str_of_body, body_esc. Qed.
Lemma body_esc_n l n : body (esc_n_text l n).
Proof.
  unfold esc_n_text. apply body_app; [apply body_esc|]. destruct (_ <? _)%nat; [|constructor].
  change (lit "...") with [46; 46; 46]. apply body_forall. repeat constructor; lia.
Qed.
Lemma json_n_text_str l n : str (json_n_text l n).
Proof. apply str_of_body, body_esc_n. Qed.
Lemma body_hex v : body (hex_text v).
Proof.
  assert (A : forall n, 0 <= n < 16 -> 32 <= hex_char n /\ hex_char n <> 34 /\ hex_char n <> 92).
  { intros n H. assert (X : forallb (fun k => let c := hex_char (Z.of_nat k) in (32 <=? c) && negb (c =? 34) && negb (c =? 92)) (seq 0 16) = true) by (vm_compute; reflexivity).
    rewrite forallb_forall in X. specialize (X (Z.to_nat n) ltac:(apply in_seq; lia)). cbv zeta in X. rewrite Z2Nat.id in X by lia. lia. }
  apply body_forall. unfold hex_text. apply Forall_app. split; [change (lit "0x") with [48; 120]; repeat constructor; lia|]. apply Forall_rev.
  destruct (v =? 0); [repeat constructor; lia|]. generalize 20%nat as f. intros f. revert v. induction f as [|f IH]; intros v; cbn [hex_digits]; [constructor|].
  destruct (0 <? v); constructor; [apply A, land_15|apply IH].
Qed.
Lemma uint_digits_spec f v : 0 <= v < 10 ^ Z.of_nat f -> Forall digit (uint_digits f v) /\ (0 < v -> exists c k, rev (uint_digits f v) = c :: k /\ 49 <= c < 58).
Proof.
  revert v. induction f as [|f IH]; intros v H; cbn [uint_digits]; [cbn in H; split; [constructor|lia]|].
  rewrite Nat2Z.inj_succ, Z.pow_succ_r in H by lia. destruct (Z.ltb_spec 0 v) as [P|P]; [|split; [constructor|lia]].
  destruct (IH (v / 10)) as [D N]; [split; [lia|apply Z.div_lt_upper_bound; lia]|]. split; [constructor; [unfold digit; lia|done]|]. intros _. cbn [rev].
  destruct (Z.eq_dec (v / 10) 0) as [E0|E0].
  - rewrite E0. destruct f; cbn [uint_digits rev app]; [exists (48 + v mod 10), []; split; [done|lia]|]. change (0 <? 0) with false. cbn. exists (48 + v mod 10), []. split; [done|lia].
  - destruct (N ltac:(lia)) as (c & k & -> & Hc). cbn. eauto.
Qed.
Lemma uint_text_num v : 0 <= v < 2 ^ 64 -> num (uint_text v).
Proof.
  intros H. unfold uint_text. destruct (Z.eqb_spec v 0) as [->|N]; [by left|]. right. destruct (uint_digits_spec 24 v) as [D X].
  { change (10 ^ Z.of_nat 24) with 1000000000000000000000000. lia. }
  destruct (X ltac:(lia)) as (c & k & E & Hc). exists c, k. split; [done|]. split; [done|]. apply Forall_rev in D. rewrite E in D. by inversion D.
Qed.

(** The next member of an object, given the text that is left. *)
Lemma pair_next w1 k v w3 l t : t = w1 ++ k ++ [58] ++ [32] ++ v ++ w3 ++ [44] ++ l ->
  ws w1 -> str k -> value v -> ws w3 -> pairs l -> pairs t.
Proof. intros ->. intros. apply pairs_cons; try done. repeat constructor. Qed.
Lemma pair_last w1 k v w3 t : t = w1 ++ k ++ [58] ++ [32] ++ v ++ w3 -> ws w1 -> str k -> value v -> ws w3 -> pairs t.
Proof. intros ->. intros. apply pairs_one; try done. repeat constructor. Qed.
Ltac spell := repeat match goal with |- context [lit ?s] =>
  match s with String.String _ _ => idtac | String.EmptyString => idtac end; let v := eval vm_compute in (lit s) in change (lit s) with v end; cbn [app].
Ltac flat := spell; repeat (rewrite <- app_assoc; cbn [app]).
Ltac is_ws := repeat constructor; lia.
(** A literal key between its quotes. *)
Definition key (s : String.string) : list Z := [34] ++ lit s ++ [34].
Definition plain (l : list Z) : bool := forallb (fun c => (32 <=? c) && negb (c =? 34) && negb (c =? 92)) l.
Lemma key_str s : plain (lit s) = true -> str (key s).
Proof.
  intros H. apply str_of_body, body_forall. unfold plain in H. rewrite forallb_forall in H. apply List.Forall_forall. intros c Hc. specialize (H c Hc). lia.
Qed.
Ltac member w k v := eapply (pair_next (lit w) (key k) v []); [unfold key; spell; reflexivity|is_ws|by apply key_str| | constructor| ].

Definition event_row (ev : BlackboxFlightEvent) : list Z :=
  lit "{`seq`: " ++ uint_text (e_seq ev) ++ lit ", `timestamp_us`: " ++ uint_text (timestamp_us ev) ++
  lit ", `category`: " ++ json_text (category ev) ++ lit ", `action`: " ++ json_text (action ev) ++
  lit ", `detail`: " ++ json_text (detail ev) ++ lit "}".
Definition times_ok (ev : BlackboxFlightEvent) : Prop := 0 <= e_seq ev < 2 ^ 64 /\ 0 <= timestamp_us ev < 2 ^ 64.
#[local] Opaque uint_text json_text hex_text esc_n_text json_n_text.
Lemma event_row_value ev : times_ok ev -> value (event_row ev).
Proof.
  intros [H1 H2]. pose proof (uint_text_num _ H1) as N1. pose proof (uint_text_num _ H2) as N2. unfold event_row.
  eapply eq_ind_r with (P := value).
  2: { transitivity ([123] ++ (lit "`seq`: " ++ uint_text (e_seq ev) ++ lit ", `timestamp_us`: " ++ uint_text (timestamp_us ev) ++
  lit ", `category`: " ++ json_text (category ev) ++ lit ", `action`: " ++ json_text (action ev) ++
  lit ", `detail`: " ++ json_text (detail ev)) ++ [125]); [flat; reflexivity|reflexivity]. }
  apply v_obj. flat.
  member ""%string "seq"%string (uint_text (e_seq ev)); [exact (v_num _ N1)|].
  member " "%string "timestamp_us"%string (uint_text (timestamp_us ev)); [exact (v_num _ N2)|].
  member " "%string "category"%string (json_text (category ev)); [apply v_str, json_text_str|].
  member " "%string "action"%string (json_text (action ev)); [apply v_str, json_text_str|].
  eapply (pair_last (lit " ") (key "detail") (json_text (detail ev)) []); [unfold key; spell; rewrite app_nil_r; reflexivity|is_ws|by apply key_str|apply v_str, json_text_str|constructor].
Qed.
Definition frame_row (frames : list Z) (i : nat) : list Z :=
  lit "{`frame`: " ++ uint_text (Z.of_nat i) ++ lit ", `address`: `" ++ hex_text (nth i frames 0) ++ lit "`}".
Lemma frame_row_value frames i : Z.of_nat i < 2 ^ 64 -> value (frame_row frames i).
Proof.
  intros H. pose proof (uint_text_num (Z.of_nat i) ltac:(lia)) as N1. unfold frame_row.
  eapply eq_ind_r with (P := value).
  2: { transitivity ([123] ++ (lit "`frame`: " ++ uint_text (Z.of_nat i) ++ lit ", `address`: `" ++ hex_text (nth i frames 0) ++ lit "`") ++ [125]); [flat; reflexivity|reflexivity]. }
  apply v_obj. flat.
  member ""%string "frame"%string (uint_text (Z.of_nat i)); [exact (v_num _ N1)|].
  eapply (pair_last (lit " ") (key "address") ([34] ++ hex_text (nth i frames 0) ++ [34]) []); [unfold key; spell; rewrite app_nil_r; reflexivity|is_ws|by apply key_str| |constructor].
  apply v_str, str_of_body, body_hex.
Qed.
(** An array of rows, one per line. *)
Lemma rows_value k (txt : nat -> bool -> list Z) (row : nat -> list Z) : (forall i b, txt i b = lit "    " ++ row i ++ (if b then [10] else [44; 10])) -> (forall i, (i < k)%nat -> value (row i)) ->
  value (rows_text k txt).
Proof.
  intros T V. unfold rows_text. eapply eq_ind_r with (P := value).
  2: { transitivity ([91] ++ ([10] ++ each_text k 0 txt ++ [32; 32]) ++ [93]); [flat; reflexivity|reflexivity]. }
  apply v_arr. assert (G : forall n lo w, ws w -> (lo + n = k)%nat -> elems (w ++ each_text n lo txt ++ [32; 32])).
  2: { apply (G k 0%nat); [is_ws|lia]. }
  induction n as [|n IH]; intros lo w Hw Hn; cbn [each_text].
  - apply elems_none. apply Forall_app. split; [done|]. is_ws.
  - rewrite T. assert (Hw' : ws (w ++ lit "    ")) by (apply Forall_app; split; [done|is_ws]). destruct n as [|n]; cbn [Nat.eqb each_text app].
    + replace (w ++ ((lit "    " ++ row lo ++ [10]) ++ []) ++ [32; 32]) with ((w ++ lit "    ") ++ row lo ++ [10; 32; 32]) by (rewrite app_nil_r; flat; reflexivity).
      apply elems_one; [done|apply V; lia|is_ws].
    + replace (w ++ ((lit "    " ++ row lo ++ [44; 10]) ++ txt (S lo) (n =? 0)%nat ++ each_text n (S (S lo)) txt) ++ [32; 32])
        with ((w ++ lit "    ") ++ row lo ++ [] ++ [44] ++ [10] ++ each_text (S n) (S lo) txt ++ [32; 32]) by (cbn [each_text]; flat; reflexivity).
      apply elems_cons; [done|apply V; lia|constructor|]. apply IH; [is_ws|lia].
Qed.
Lemma event_text_row ev b : event_text ev b = lit "    " ++ event_row ev ++ (if b then [10] else [44; 10]).
Proof. unfold event_text, event_row. destruct b; flat; reflexivity. Qed.
Lemma frame_text_row frames i b : frame_text frames i b = lit "    " ++ frame_row frames i ++ (if b then [10] else [44; 10]).
Proof. unfold frame_text, frame_row. destruct b; flat; reflexivity. Qed.
Definition clock_ok (r : BlackboxRingBuffer) : Prop := Forall times_ok (events r).
Lemma events_value r : clock_ok r -> value (events_text r).
Proof.
  intros H. unfold events_text. apply (rows_value _ _ (fun i => event_row (ring_nth r i))); [intros; apply event_text_row|]. intros i _. apply event_row_value.
  unfold ring_nth. match goal with |- times_ok (nth ?n ?l ?d) => destruct (nth_in_or_default n l d) as [I| ->] end; [|unfold times_ok; cbn; lia].
  unfold clock_ok in H. rewrite List.Forall_forall in H. by apply H.
Qed.
Lemma stack_value frames : Z.of_nat (length frames) < 2 ^ 64 -> value (stack_text frames).
Proof.
  intros H. unfold stack_text. apply (rows_value _ _ (frame_row frames)); [intros; apply frame_text_row|]. intros i Hi. apply frame_row_value. lia.
Qed.
(** The last three members, which both reports end in. *)
Lemma tail_pairs frames r w : ws w -> value (stack_text frames) -> value (events_text r) ->
  pairs (w ++ key "call_stack" ++ lit ": " ++ stack_text frames ++ lit ",~  `flight_events`: " ++ events_text r ++ lit ",~  `flight_log`: " ++ events_text r ++ [10]).
Proof.
  intros W S V. eapply (pair_next w (key "call_stack") (stack_text frames) []); [unfold key; flat; reflexivity|done|by apply key_str|done|constructor|].
  eapply (pair_next (lit "~  ") (key "flight_events") (events_text r) []); [unfold key; spell; reflexivity|is_ws|by apply key_str|done|constructor|].
  eapply (pair_last (lit "~  ") (key "flight_log") (events_text r) [10]); [unfold key; spell; reflexivity|is_ws|by apply key_str|done|is_ws].
Qed.
#[local] Opaque stack_text events_text.
Ltac member_text w k b := eapply (pair_next (lit w) (key k) ([34] ++ b ++ [34]) []);
  [unfold key; spell; rewrite <- (app_assoc b [34]); cbn [app]; reflexivity|is_ws|by apply key_str|apply v_str, str_of_body|constructor|].
Ltac jstr := apply v_str, json_text_str.
Lemma document_of l t : t = [123] ++ l ++ [125; 10] -> pairs l -> document t.
Proof. intros -> P. exists ([123] ++ l ++ [125]), [10]. split; [by rewrite <- !app_assoc|]. split; [by apply v_obj|is_ws]. Qed.
Lemma autopsy_document sig faddr frames r : value (stack_text frames) -> value (events_text r) -> document (autopsy_text sig faddr frames r).
Proof.
  intros S V. pose proof (uint_text_num (u64 sig) (u64_range sig)) as N. unfold autopsy_text, tail_text.
  set (name := lit (sig_name sig)). set (cause := lit (sig_cause sig faddr)). set (rem := lit (sig_remedy sig faddr)).
  set (coord := if negb (sig =? 0) then coord_text faddr else lit "unknown:0:0:unknown"). generalize name cause rem coord. clear name cause rem coord. intros name cause rem coord.
  apply (document_of (lit "~  `schema_version`: `1.0.0`,~  `crash_type`: `SIGNAL`,~  `crash_signal`: " ++ uint_text (u64 sig) ++
      lit ",~  `signal_name`: " ++ json_text name ++ lit ",~  `signal`: " ++ json_text name ++ lit ",~  `fault_address`: " ++ ([34] ++ hex_text faddr ++ [34]) ++
      lit ",~  `failure_coordinate`: " ++ json_text coord ++ lit ",~  `root_cause`: " ++ json_text cause ++ lit ",~  `remediation`: " ++ json_text rem ++
      lit "," ++ (lit "~  " ++ key "call_stack" ++ lit ": " ++ stack_text frames ++ lit ",~  `flight_events`: " ++ events_text r ++ lit ",~  `flight_log`: " ++ events_text r ++ [10]))); [unfold key; flat; reflexivity|].
  pose proof (tail_pairs frames r (lit "~  ") ltac:(is_ws) S V) as T. revert T. generalize (lit "~  " ++ key "call_stack" ++ lit ": " ++ stack_text frames ++ lit ",~  `flight_events`: " ++ events_text r ++ lit ",~  `flight_log`: " ++ events_text r ++ [10]).
  intros t T. flat.
  member "~  "%string "schema_version"%string (key "1.0.0"); [by apply v_str, key_str|].
  member "~  "%string "crash_type"%string (key "SIGNAL"); [by apply v_str, key_str|].
  member "~  "%string "crash_signal"%string (uint_text (u64 sig)); [exact (v_num _ N)|].
  member "~  "%string "signal_name"%string (json_text name); [jstr|].
  member "~  "%string "signal"%string (json_text name); [jstr|].
  member_text "~  "%string "fault_address"%string (hex_text faddr); [apply body_hex|].
  member "~  "%string "failure_coordinate"%string (json_text coord); [jstr|].
  member "~  "%string "root_cause"%string (json_text cause); [jstr|].
  member "~  "%string "remediation"%string (json_text rem); [jstr|]. exact T.
Qed.
Lemma num_body l : num l -> body l.
Proof.
  intros [->|(c & k & -> & Hc & Hk)]; apply body_forall; [repeat constructor; lia|]. constructor; [lia|]. eapply Forall_impl; [exact Hk|]. unfold digit. lia.
Qed.
Definition cap_object (tok fn : list Z) : list Z := [123] ++ (lit "~    `token_name`: " ++ tok ++ lit ",~    `operation`: " ++ fn ++ lit "~  ") ++ [125].
Lemma cap_object_value tok fn : str tok -> str fn -> value (cap_object tok fn).
Proof.
  intros T F. unfold cap_object. apply v_obj. flat. member "~    "%string "token_name"%string tok; [by apply v_str|].
  eapply (pair_last (lit "~    ") (key "operation") fn (lit "~  ")); [unfold key; spell; reflexivity|is_ws|by apply key_str|by apply v_str|is_ws].
Qed.
Definition where_text (file fn : list Z) (line : Z) : list Z :=
  esc_n_text file 256 ++ lit ":" ++ uint_text (u64 (if 0 <? line then line else 0)) ++ lit ":0:" ++ esc_n_text fn 256.
Lemma where_body file fn line : body (where_text file fn line).
Proof.
  unfold where_text. repeat apply body_app; try apply body_esc_n.
  - apply body_forall. change (lit ":") with [58]. repeat constructor; lia.
  - apply num_body, uint_text_num, u64_range.
  - apply body_forall. change (lit ":0:") with [58; 48; 58]. repeat constructor; lia.
Qed.
Lemma trap_document cap fn file line frames r : value (stack_text frames) -> value (events_text r) -> document (trap_text cap fn file line frames r).
Proof.
  intros S V. pose proof (where_body file fn line) as B. pose proof (cap_object_value _ _ (json_n_text_str cap 256) (json_n_text_str fn 256)) as O. unfold trap_text, tail_text.
  apply (document_of (lit "~  `schema_version`: `1.0.0`,~  `crash_type`: `CAPABILITY_VIOLATION`,~  `crash_signal`: 0,~  `signal_name`: `NONE`,~  `signal`: `NONE`,~  `fault_address`: `0x0`,~  `failure_coordinate`: " ++
      ([34] ++ where_text file fn line ++ [34]) ++ lit ",~  `root_cause`: `CAPABILITY_TRAP_VIOLATION`,~  `remediation`: `Grant required capability token before invoking restricted operation.`,~  `capability`: " ++
      cap_object (json_n_text cap 256) (json_n_text fn 256) ++ lit "," ++
      (lit "~  " ++ key "call_stack" ++ lit ": " ++ stack_text frames ++ lit ",~  `flight_events`: " ++ events_text r ++ lit ",~  `flight_log`: " ++ events_text r ++ [10])));
    [unfold where_text, cap_object, key; flat; reflexivity|].
  revert O B. generalize (cap_object (json_n_text cap 256) (json_n_text fn 256)) as obj. generalize (where_text file fn line) as wh. intros wh obj O B.
  pose proof (tail_pairs frames r (lit "~  ") ltac:(is_ws) S V) as T. revert T.
  generalize (lit "~  " ++ key "call_stack" ++ lit ": " ++ stack_text frames ++ lit ",~  `flight_events`: " ++ events_text r ++ lit ",~  `flight_log`: " ++ events_text r ++ [10]).
  intros t T. flat.
  member "~  "%string "schema_version"%string (key "1.0.0"); [by apply v_str, key_str|].
  member "~  "%string "crash_type"%string (key "CAPABILITY_VIOLATION"); [by apply v_str, key_str|].
  member "~  "%string "crash_signal"%string [48]; [apply v_num; by left|].
  member "~  "%string "signal_name"%string (key "NONE"); [by apply v_str, key_str|].
  member "~  "%string "signal"%string (key "NONE"); [by apply v_str, key_str|].
  member "~  "%string "fault_address"%string (key "0x0"); [by apply v_str, key_str|].
  member_text "~  "%string "failure_coordinate"%string wh; [exact B|].
  member "~  "%string "root_cause"%string (key "CAPABILITY_TRAP_VIOLATION"); [by apply v_str, key_str|].
  member "~  "%string "remediation"%string (key "Grant required capability token before invoking restricted operation."); [by apply v_str, key_str|].
  member "~  "%string "capability"%string obj; [exact O|]. exact T.
Qed.

Lemma ring_store_clock now c a d r : (forall n, 0 <= now n < 2 ^ 64) -> clock_ok r -> clock_ok (ring_store now c a d r).
Proof.
  intros Hn H. unfold clock_ok, ring_store. cbn [events]. apply Forall_insert; [done|]. unfold times_ok. cbn [e_seq timestamp_us]. split; [apply u64_range|apply Hn].
Qed.
Lemma init_clock now s : (forall n, 0 <= now n < 2 ^ 64) -> clock_ok (s_ring s) -> clock_ok (s_ring (blackbox_init now s)).
Proof. intros Hn H. unfold blackbox_init. destruct (s_initialized s); [done|]. by apply ring_store_clock. Qed.
Lemma record_clock now c a d s : (forall n, 0 <= now n < 2 ^ 64) -> clock_ok (s_ring s) -> clock_ok (s_ring (blackbox_record now c a d s)).
Proof. intros Hn H. unfold blackbox_record. by apply ring_store_clock, init_clock. Qed.

(** C39. Reports are well-formed JSON.  What each report hands to [write] is one
    JSON document, whatever bytes the recorded categories, actions and
    details, the capability, the function and the file name consist of, and
    the file holds as much of it as the writes took. *)
Theorem report_is_json now frames answers s : (forall n, 0 <= now n < 2 ^ 64) -> (length frames <= 32)%nat -> buf_ok s -> clock_ok (s_ring s) ->
  let holds_json (r : run bstate) := exists s' t, r = Ret s' /\ document t /\ file_bytes s' = take (Z.to_nat (write_loop answers 0 (Z.of_nat (length t)))) t in
  (forall sig si, holds_json (blackbox_dump_autopsy now frames true answers sig si s)) /\
  (forall cap fn file line, holds_json (blackbox_trap_cap now frames true answers cap fn file line s)).
Proof.
  intros Hn Hf B Hc holds_json. assert (S : value (stack_text frames)) by (apply stack_value; lia). split.
  - intros sig si. destruct (dump_run now frames Hf true answers sig si s B) as (o & E & _ & C). cbv zeta in *. eexists _, _. split; [exact E|].
    split; [|by apply file_of_write]. apply autopsy_document; [done|]. by apply events_value, init_clock.
  - intros cap fn file line. destruct (trap_run now frames Hf true answers cap fn file line s B) as (o & E & _ & C). cbv zeta in *. eexists _, _. split; [exact E|].
    split; [|by apply file_of_write]. apply trap_document; [done|]. by apply events_value, record_clock.
Qed.

(** Reading a string back gives it without its other control characters. *)
Fixpoint read_json_str (l : list Z) : option (list Z * list Z) :=
  match l with
  | [] => None
  | c :: l =>
      if c =? 34 then Some ([], l)
      else if c =? 92 then
        match l with
        | e :: l => match read_json_str l with Some (s, rest) => Some ((if e =? 110 then 10 else if e =? 116 then 9 else e) :: s, rest) | None => None end
        | [] => None
        end
      else match read_json_str l with Some (s, rest) => Some (c :: s, rest) | None => None end
  end.
Definition kept (c : Z) : bool := (32 <=? c) || (c =? 9) || (c =? 10).
Lemma json_string_reads_back l rest : read_json_str (esc l ++ 34 :: rest) = Some (List.filter kept l, rest).
Proof.
  induction l as [|c l IH]; [done|]. change (esc (c :: l)) with (esc1 c ++ esc l). rewrite <- app_assoc. unfold esc1, kept. cbn [List.filter].
  destruct (Z.eqb_spec c 34) as [->|N1]; [cbn; by rewrite IH|]. destruct (Z.eqb_spec c 92) as [->|N2]; [cbn; by rewrite IH|]. cbn [orb].
  destruct (Z.eqb_spec c 10) as [->|N3]; [cbn; by rewrite IH|]. destruct (Z.eqb_spec c 9) as [->|N4]; [cbn; by rewrite IH|].
  destruct (Z.ltb_spec c 32), (Z.leb_spec 32 c); try lia; cbn [orb app]; [exact IH|]. cbn [read_json_str]. apply Z.eqb_neq in N1, N2. by rewrite N1, N2, IH.
Qed.

(** * The ring keeps the last events *)

Definition entry : Type := option (list Z) * option (list Z) * option (list Z).
Definition first_entry : entry := (Some (lit "core"), Some (lit "init"), Some (lit "flight_sensor_active")).
Definition event_of (now : Z -> Z) (i : nat) (e : entry) : BlackboxFlightEvent :=
  mkEv (Z.of_nat i + 1) (now (Z.of_nat i + 1)) 1 (take 31 (nul (fst (fst e)))) (take 31 (nul (snd (fst e)))) (take 63 (nul (snd e))).
Definition record_all (now : Z -> Z) (l : list entry) (s : bstate) : bstate :=
  foldl (fun s e => blackbox_record now (fst (fst e)) (snd (fst e)) (snd e) s) s l.
Definition last_n {A} (n : nat) (l : list A) : list A := drop (length l - n) l.
Definition shown (r : BlackboxRingBuffer) : list BlackboxFlightEvent := map (ring_nth r) (seq 0 (ring_total r)).

Section ring.
Context (now : Z -> Z).
(** The ring after the history [h]. *)
Record ring_rep (r : BlackboxRingBuffer) (h : list entry) : Prop := {
  rr_count : count r = Z.of_nat (length h);
  rr_len : length (events r) = BLACKBOX_RING_CAPACITY;
  rr_events : forall i e, h !! i = Some e -> (length h <= i + 64)%nat -> events r !! (i mod 64)%nat = Some (event_of now i e) }.
Lemma ring_rep_store r h c a d : ring_rep r h -> Z.of_nat (length h) + 1 < 2 ^ 64 -> ring_rep (ring_store now c a d r) (h ++ [(c, a, d)]).
Proof.
  intros [C L E] Hn. assert (Idx : u64 (u64 (count r + 1) - 1) mod Z.of_nat BLACKBOX_RING_CAPACITY = Z.of_nat (length h mod 64)).
  { rewrite C, (u64_id (_ + 1)) by lia. replace (Z.of_nat (length h) + 1 - 1) with (Z.of_nat (length h)) by lia. rewrite u64_id by lia. by rewrite Nat2Z.inj_mod. }
  unfold ring_store. rewrite Idx, Nat2Z.id. split; cbn [count events].
  - rewrite C, u64_id, length_app by lia. cbn. lia.
  - by rewrite length_insert.
  - intros i e Hi Hr. rewrite length_app in Hr. cbn [length] in Hr. destruct (decide (i = length h)) as [->|N].
    + rewrite list_lookup_middle in Hi by done. injection Hi as <-. rewrite list_lookup_insert_eq by (rewrite L; apply Nat.mod_upper_bound; done).
      rewrite C, u64_id by lia. done.
    + assert (i < length h)%nat by (apply lookup_lt_Some in Hi; rewrite length_app in Hi; cbn in Hi; lia). rewrite lookup_app_l in Hi by done.
      rewrite list_lookup_insert_ne; [by apply E; [|lia]|]. lia.
Qed.
Lemma ring_rep_shown r h : ring_rep r h -> Z.of_nat (length h) < 2 ^ 64 -> shown r = last_n 64 (imap (event_of now) h).
Proof.
  intros [C L E] Hn. unfold shown, last_n. rewrite length_imap. set (k := (length h - 64)%nat).
  assert (T : ring_total r = (length h - k)%nat).
  { unfold ring_total, BLACKBOX_RING_CAPACITY. rewrite C. destruct (Z.ltb_spec (Z.of_nat (length h)) (Z.of_nat 64)); lia. }
  assert (St : ring_start r = Z.of_nat k).
  { unfold ring_start, BLACKBOX_RING_CAPACITY. rewrite C. destruct (Z.leb_spec (Z.of_nat (length h)) (Z.of_nat 64)); lia. }
  apply list_eq. intros i. rewrite list_lookup_fmap, lookup_drop, list_lookup_imap, T. destruct (Nat.lt_ge_cases i (length h - k)) as [Hi|Hi].
  - rewrite lookup_seq_lt by done. cbn [fmap option_fmap option_map Nat.add]. destruct (lookup_lt_is_Some_2 h (k + i)%nat ltac:(lia)) as [e He]. rewrite He. cbn [fmap option_fmap option_map]. f_equal.
    unfold ring_nth. rewrite St, u64_id by lia. change (Z.of_nat BLACKBOX_RING_CAPACITY) with (Z.of_nat 64). rewrite <- Nat2Z.inj_add, <- Nat2Z.inj_mod, Nat2Z.id.
    rewrite nth_lookup. by rewrite (E (k + i)%nat e He) by lia.
  - rewrite lookup_seq_ge by lia. by rewrite lookup_ge_None_2 by lia.
Qed.
Lemma ring_rep_start : ring_rep ring0 [].
Proof. split; [done|apply repeat_length|]. intros i e H. done. Qed.
Lemma ring_rep_all l s h : s_initialized s = true -> ring_rep (s_ring s) h -> Z.of_nat (length h + length l) < 2 ^ 64 -> ring_rep (s_ring (record_all now l s)) (h ++ l).
Proof.
  revert s h. induction l as [|[[c a] d] l IH]; intros s h Hi R Hn; [by rewrite app_nil_r|]. cbn [length] in Hn. rewrite (cons_middle _ h), app_assoc.
  assert (E : blackbox_record now c a d s = with_ring (ring_store now c a d (s_ring s)) s) by (unfold blackbox_record, blackbox_init; by rewrite Hi).
  change (record_all now ((c, a, d) :: l) s) with (record_all now l (blackbox_record now c a d s)). rewrite E.
  apply IH; [done|apply ring_rep_store; [done|lia]|]. rewrite length_app. cbn. lia.
Qed.
End ring.

(** C40. The ring keeps the last 64 events in order.  After any sequence of
    records the reports show the first event and the recorded ones, numbered
    from 1, cut to the sizes of their fields, without the ones that more than
    63 newer events have displaced.  (Below 2^64 events.) *)
Theorem ring_keeps_last now l : l <> [] -> Z.of_nat (length l) + 1 < 2 ^ 64 ->
  shown (s_ring (record_all now l bstart)) = last_n 64 (imap (event_of now) (first_entry :: l)).
Proof.
  intros Hl Hn. apply ring_rep_shown; [|cbn [length]; lia]. destruct l as [|[[c a] d] l]; [done|]. cbn [length] in Hn.
  change (record_all now ((c, a, d) :: l) bstart) with (record_all now l (blackbox_record now c a d bstart)).
  change (first_entry :: (c, a, d) :: l) with ([first_entry; (c, a, d)] ++ l). apply ring_rep_all; [done| |cbn [length]; lia].
  change (s_ring (blackbox_record now c a d bstart)) with (ring_store now c a d (ring_store now (fst (fst first_entry)) (snd (fst first_entry)) (snd first_entry) ring0)).
  change [first_entry; (c, a, d)] with (([] ++ [first_entry]) ++ [(c, a, d)]). apply ring_rep_store; [|cbn; lia]. apply ring_rep_store; [apply ring_rep_start|cbn; lia].
Qed.

Lemma bstart_ok : buf_ok bstart.
Proof. split; [done|apply ring0_ok]. Qed.
Lemma bstart_clock : clock_ok (s_ring bstart).
Proof. unfold clock_ok, bstart, ring0. cbn [s_ring events]. apply List.Forall_forall. intros e H%repeat_spec. subst e. unfold times_ok. cbn. lia. Qed.
Example report_is_complete_witness : exists s', blackbox_dump_autopsy (fun n => n) [4096] true [Some 100000] SIGSEGV (Some 18) bstart = Ret s' /\ buf_ok s'.
Proof.
  destruct (report_is_complete (fun n => n) [4096] [Some 100000] bstart ltac:(cbn; lia) bstart_ok) as [A _]. destruct (A SIGSEGV (Some 18)) as (s' & E & B & _).
  exists s'. split; [exact E|exact B].
Defined.
Example report_is_json_witness : exists s' t, blackbox_trap_cap u64 [] true [Some 100000] (Some (lit "a`b")) None None 7 bstart = Ret s' /\ document t /\
  file_bytes s' = take (Z.to_nat (write_loop [Some 100000] 0 (Z.of_nat (length t)))) t.
Proof. exact (proj2 (report_is_json u64 [] [Some 100000] bstart u64_range ltac:(cbn; lia) bstart_ok bstart_clock) (Some (lit "a`b")) None None 7). Defined.
Example ring_keeps_last_witness :
  shown (s_ring (record_all (fun n => n) (repeat (Some [65], None, None) 70) bstart)) = last_n 64 (imap (event_of (fun n => n)) (first_entry :: repeat (Some [65], None, None) 70)).
Proof. apply (ring_keeps_last (fun n => n) (repeat (Some [65], None, None) 70)); [discriminate|reflexivity]. Defined.
